(* ===== verification/_CoqProject ===== *)
-Q . S2P
Prelude.v
Types.v
Sha256.v
Crypto.v
Target.v
Base58.v
Aes.v
Params.v
Script.v
Utxo.v
Wallet.v
WalletInv.v
WalletProps.v
TxValidation.v
BlockValidation.v
Pow.v
Ledger.v
Store.v
FileLaws.v
Chain.v
ChainInv.v
Reorg.v
Accept.v
Ancestors.v
ChainSafety.v
Mempool.v
WalletTx.v
Miner.v
ChainProps.v
Persist.v
Restart.v
Protocol.v
TimeAdjust.v
Peer.v
SeenSet.v
Manager.v
NodeInv.v
Sync.v
Gossip.v
NodeProps.v
Rpc.v
RpcInv.v
RpcProps.v
GoStrings.v
Cli.v
Legacy.v
Config.v
Adversary.v
AdversaryProps.v
