(* ===== verification/Prelude.v ===== *)
(** * Fairchain: a verified model of the node

    Fairchain is a proof-of-work blockchain node in Go.  This library models the node as
    Rocq definitions that follow the source file by file, function by function, and proves
    what makes each part and their composition correct.  Paths are under [src/internal]
    unless they start with [src/].

    ** The program and the files of the model

    Blocks and transactions have one canonical byte format, and everything is identified
    by the double SHA-256 of it.  A block enters the node from a peer, from the miner or
    over RPC; [Chain.ProcessBlock] checks its header and structure, stores it, and either
    extends the tip, records a side chain, keeps it as an orphan, or reorganises.  The set
    of unspent outputs follows the active chain, in memory and in a database.  The mempool
    keeps valid transactions for the miner's templates.  The peer-to-peer manager feeds
    both from the network and bans peers that misbehave.  The wallet derives keys from a
    mnemonic phrase kept in a file, and signs with them.  The RPC server answers requests
    from the state of all of these, pays from the wallet and submits blocks.

    - [Prelude]: this file; error results, byte readers and writers with the interfaces
      [RoundTrip] and [Canonical], wrap-around at the machine widths, lemmas shared by all.
    - [Types] ([types/*.go]): hashes, compact-size integers, transactions, headers, blocks.
    - [Sha256], [Crypto] ([crypto/hash.go], [merkle.go], [keys.go], [signature.go]):
      executable SHA-256, Merkle trees, script templates, signature hashes, signing.
    - [Target] ([crypto/target.go]): compact targets, work, the proof-of-work check.
    - [Params] ([params/*.go]): the three networks, the subsidy schedule, genesis blocks.
    - [Script] ([script/script.go]): the stack machine and [Verify].
    - [Utxo] ([utxo/utxo.go]): the unspent set, connecting and disconnecting, undo data.
    - [TxValidation] ([consensus/txvalidation.go]), [BlockValidation]
      ([consensus/validation.go]), [Pow] ([consensus/engine.go], [consensus/pow/engine.go]):
      the consensus rules, the engine interface (class [Engine]) and the proof-of-work
      engine with its retargeting.
    - [Ledger]: the composition of the rules along a chain of blocks ([connect_step],
      [ledger], [replay]): money supply and exact roll-back.
    - [Store] ([store/blockindex.go], [chainstate.go], [blockfile.go], [filestore.go],
      [store.go]): the flat files, the index and chainstate records, the interface
      [BlockStore]; [FileLaws] shows that [FileStore] keeps the laws [BlockStoreLaws].
    - [Chain] ([chain/chain.go]): every operation of the chain manager on blocks.
      [ChainInv], [Reorg], [Accept], [Ancestors], [ChainSafety] prove its invariant through each branch
      against the interfaces [BlockStoreLaws] and [EngineLaws]; [ChainProps] states the
      results and instantiates them with the file store and the proof-of-work engine.
      [Persist]: what each operation leaves in the chainstate database and the index (class
      [PersistLaws]); [Restart]: [Init] on a store that already has blocks.
    - [Mempool] ([mempool/mempool.go]), [Miner] ([miner/miner.go]).
    - [Protocol] ([protocol/*.go]): framing and the codec of every payload.
    - [TimeAdjust] ([timeadjust/timeadjust.go]): the network-adjusted clock.
    - [Peer] ([p2p/peer.go]), [SeenSet], [Manager] ([p2p/manager.go], and the callback
      of the miner in [src/cmd/node/main.go]): connections, handshake, message handlers,
      bans, relay, synchronisation; [net_run] is a run of the node over any list of
      events.  [NodeInv], [Sync], [Gossip] hold its invariants, [NodeProps] the results.
    - [Base58] ([crypto/base58.go]): addresses and exported keys.  [Aes]: AES-256 in CBC
      mode, the part of Go's library the wallet encrypts with.
    - [Wallet] ([wallet/hdwallet.go]): the HD wallet and its file; [WalletInv] has its
      invariants, [WalletProps] the results; [WalletTx] ([wallet/txbuilder.go]): payments.
    - [Rpc] ([rpc/server.go], [rpc/wallet_rpc.go]): authentication, routes and handlers, with
      [GetChainInfo] and [BackupWallet]; [RpcInv] classifies what a request can change
      ([effect]) and defines runs over network events and requests ([server_run]);
      [RpcProps] the results.
    - [GoStrings]: the parts of Go's [strings], [bufio], [net/url] and [flag] the next files
      use.  [Cli] ([src/cmd/cli/main.go]): the command-line client and its run against the
      server.  [Legacy] ([store/bolt.go], [store/peerdump.go], [migrateFromLegacy] of
      [src/cmd/node/main.go]): the peer database, its text export and the migration of an old
      database.  [Config] ([config/config.go], the start of [src/cmd/node/main.go]): settings
      from the defaults, a file and the flags.
    - [Adversary] ([src/cmd/adversary/main.go]): a client that submits forged blocks, as
      programs ([prog]) run against the server; [AdversaryProps] shows what they achieve.

    A Go struct is a [Record] with the source's fields, an error an inductive value, an
    operation a function from a state to a result and the state it leaves, also when it
    fails.  Integers are [Z] with the wrap-around of their width written out ([u32], [u64],
    [i32]...).  Locks are not represented: every exported method holds its lock from start
    to end, so a run is a sequence of whole operations.

    ** What the theorems show

    - The ledger: [TxValidation.block_txs_exact], [TxValidation.validated_block_connects],
      [Utxo.connect_block_effect], [Ledger.rollback_exact], [Ledger.mainnet_no_inflation].
    - The chain manager: [ChainProps.chain_ledger] (the unspent set is the replay of the
      active chain in every reachable state), [reorg_atomic], [process_block_monotone],
      [block_locator_exact]; [Restart.restart_exact] (a restart
      gives the same state), [crash_recovered] (a stop between the two writes);
      [Legacy.migration_restarts] (a migrated database starts with the old chain, on every
      unspent output);
      [failed_reorg_corrupts_restart], [rebuild_keeps_stale_coins] and [tip_failure_desyncs]
      are runs that lose consistency with the disk.
    - The node: [RpcProps.server_safe] (no traffic and no requests break chain, pool, peer
      bounds, wallet or fee rate; [NodeProps.network_safe] is the part without a server),
      [handshake_completes], [misbehavior_bans], [Sync.sync_reply], [Gossip.block_relay],
      [Peer.peer_link_fifo], [TimeAdjust.clock_honest_majority].
    - Mining and the pool: [Miner.mined_block_accepted], [Mempool.mempool_invariant],
      [Mempool.block_template_exact], [Pow.retarget_bounded], [Target.pow_check_numeric].
    - Spending: [Script.p2pkh_authorization], [Script.p2pkh_spend_complete],
      [Crypto.sighash_commits], [BlockValidation.header_commits_to_txs].
    - Payments: [WalletTx.payment_accepted] and [payment_complete] (what the wallet builds from
      the unspent set is valid and enters the pool), [RpcProps.sendtoaddress_pays] (what the
      request of that name does on a consistent node), [default_fee_refused].
    - Requests: [RpcProps.unauthorized_ignored], [get_requests_harmless], [backup_confined]
      (what a client cannot do), [AdversaryProps.submitblock_sound] and [attacks_refused]
      (what is accepted is valid; the attacks get nothing accepted), [block_queries_exact], [mediantime_exact],
      [numbers_read_back] (answers are right).
    - Around the node: [Cli.cli_delivers] (a command typed with its parameters is the request
      the server decodes), [Cli.cli_locked_out] (without credentials the client gets
      nothing), [Config.settings_precedence] (flags over file over defaults),
      [Legacy.peers_survive] (the export of the peers and reading it back).
    - The wallet: [WalletProps.wallet_recovery] (the file gives every key back, encrypted or
      not), [dump_import], [signed_inputs_verify], [wallet_maps_wellformed],
      [Base58.address_exact].
    - Encodings: [Types.block_wire_format], [Protocol.payload_codecs_exact],
      [FileLaws.block_file_roundtrip].
    - Theorems named for what goes wrong ([seen_set_overflows], [silent_peer_kept],
      [forged_block_tolerated], [stale_conflict_stays], [miner_stalls_without_subsidy],
      [testnet_supply_exceeds], [imported_key_lost], [mnemonic_lost_after_relock],
      [huge_amount_built], [submitblock_not_relayed], [theft_misreported], [backup_destroys_wallet],
      [migrated_without_undo], [genesis_migration_doubles_work]) prove defects of the code.

    ** Bounds and fuel

    - [Script.execute_loop]: the script's length; every opcode consumes a byte.
    - [Pow.mine_loop]: [2^32], one unit per nonce.
    - [Chain.locator_loop]: 64; a locator has at most 43 entries ([locator_loop_spec]).
    - [Chain.reorg_walk]: one more than the height of the new tip ([walk_terminates]).
    - [Chain.orphan_loop]: one more than the number of orphans ([orphan_loop_ends]).
    - [Rpc.skip_space]: the string's length; every turn takes a byte or more.
    - [Adversary.repeat_turns]: the limit of the source, in binary ([repeat_turns_spec]).
    - The other loops are structural, over a list or a count the source bounds.

    ** Assumptions

    - RIPEMD-160 and secp256k1 are the operations of class [ECOps] (laws [ECLaws]), LevelDB
      of class [LevelDB] (laws [LevelDBLaws]: a map whose calls may fail), the peer database
      of class [PeerStore], bbolt of class [Bolt] (laws [BoltLaws]), BIP39, BIP32 and scrypt of class [WalletOps] (laws
      [WalletLaws]).  Each has an instance that satisfies its laws.
    - Hash functions are not injective: theorems that need it assume that no collision
      occurs among the strings at hand ([collision_free], [universe]).
    - The chain theorems assume a store that stays within its address space ([live]), and
      that [PutChainTip] does not fail; [tip_failure_desyncs] shows why.
    - What Go leaves open (clocks, randomness, map order, [select]) comes from the
      environments [Env], [NetEnv], [WalletEnv], [RpcEnv] and [AdvEnv], over which the theorems
      quantify.  One call reads one instant of the clock.
    - The files a client's backup can reach are a map from paths to contents and a set of
      directories ([Rpc.Files]), without links and permissions; any call on them may fail,
      and a failed write leaves any part of the data.

    ** Not modelled

    - [wallet/keystore.go] and [p2p/discovery], which nothing uses.
    - Of the RPC server: the requests that print counters ([getpeerinfo], [metrics]), the
      texts of messages, the listener, and requests that interleave within a handler.
    - The listener, dialler, goroutines and timers that call the operations of [Manager];
      sockets; the opening and locking of files; logging, metrics, usage texts and the
      printing of answers, [SaveConfig], the order of start-up and shut-down in
      [src/cmd/node], and [src/cmd/genesis]: input, output and process control without
      logic of their own.
    - Floating-point values of answers: difficulty and amounts in coins are kept as the
      integers they are computed from ([JQuot], [JBtc]). *)
From Stdlib Require Export ZArith Lia.
From coqutil Require Export Byte Word.LittleEndianList.
From stdpp Require Export base gmap list strings.
#[global] Open Scope Z_scope.

Declare Scope go_scope.
Delimit Scope go_scope with go.
#[global] Open Scope go_scope.

(** ** Error results

    A Go function returning [(T, error)] is a function into [result E T]. *)

Inductive result (E A : Type) : Type :=
| Ok (a : A)
| Err (e : E).
Arguments Ok {E A} a.
Arguments Err {E A} e.

Definition rbind {E A B} (m : result E A) (k : A -> result E B) : result E B :=
  match m with Ok a => k a | Err e => Err e end.

(** [fmt.Errorf("...: %w", err)]: the error is wrapped, the value kept. *)
Definition rwrap {E F A} (f : E -> F) (m : result E A) : result F A :=
  match m with Ok a => Ok a | Err e => Err (f e) end.

Definition guard {E} (b : bool) (e : E) : result E unit := if b then Err e else Ok tt.

Notation "'let*' p ':=' m 'in' k" := (rbind m (fun p => k))
  (at level 10, p pattern, m at level 100, k at level 200,
   format "'[v' 'let*'  p  ':='  m  'in' '/' k ']'") : go_scope.
Notation "'check' b 'else' e ; k" := (if b then Err e else k)
  (at level 10, b at level 100, e at level 100, k at level 200,
   format "'[v' 'check'  b  'else'  e ; '/' k ']'") : go_scope.

Definition is_ok {E A} (m : result E A) : bool :=
  match m with Ok _ => true | Err _ => false end.

Lemma rbind_Ok {E A B} (m : result E A) (k : A -> result E B) b :
  rbind m k = Ok b <-> exists a, m = Ok a /\ k a = Ok b.
Proof. destruct m as [a|e]; simpl; split; [eauto | intros (?&[= ->]&?); done | done | intros (?&?&?); done]. Qed.

Lemma rbind_Err {E A B} (m : result E A) (k : A -> result E B) e :
  rbind m k = Err e <-> m = Err e \/ exists a, m = Ok a /\ k a = Err e.
Proof.
  destruct m as [a|e0]; simpl; split.
  - intros H; right; eauto.
  - intros [?|(?&[= ->]&?)]; done.
  - intros [= ->]; by left.
  - intros [[= ->]|(?&?&?)]; done.
Qed.

Lemma rwrap_Ok {E F A} (f : E -> F) (m : result E A) a :
  rwrap f m = Ok a <-> m = Ok a.
Proof. destruct m; simpl; naive_solver. Qed.

(** ** State and errors

    A Go method that changes its receiver and may fail; the state it leaves is kept also
    on an error. *)

Definition stM (S E A : Type) : Type := S -> result E A * S.

Definition sret {S E A} (a : A) : stM S E A := fun s => (Ok a, s).
Definition sfail {S E A} (e : E) : stM S E A := fun s => (Err e, s).
Definition sbind {S E A B} (m : stM S E A) (k : A -> stM S E B) : stM S E B :=
  fun s => match m s with (Ok a, s') => k a s' | (Err e, s') => (Err e, s') end.
Definition sget {S E} : stM S E S := fun s => (Ok s, s).
Definition smod {S E} (f : S -> S) : stM S E unit := fun s => (Ok tt, f s).
Definition slift {S E F A} (w : F -> E) (r : result F A) : stM S E A := fun s => (rwrap w r, s).

Notation "'do' x '<-' m ';' k" := (sbind m (fun x => k))
  (at level 10, x pattern, m at level 100, k at level 200,
   format "'[v' 'do'  x  '<-'  m ; '/' k ']'") : go_scope.

(** [for _, x := range l { body }], stopping at the first error. *)
Fixpoint sfor {S E A} (l : list A) (body : A -> stM S E unit) : stM S E unit :=
  match l with
  | [] => sret tt
  | x :: l => do _ <- body x; sfor l body
  end.

(** [m] keeps [I], whether it succeeds or fails. *)
Definition keeps {S E A} (I : S -> Prop) (m : stM S E A) : Prop := forall s, I s -> I (snd (m s)).

Create HintDb keeps.
Section keeps.
Context {S E : Type} (I : S -> Prop).

Lemma keeps_ret {A} (a : A) : keeps (E := E) I (sret a).
Proof. intros s Hs. exact Hs. Qed.
Lemma keeps_fail {A} (e : E) : keeps (A := A) I (sfail e).
Proof. intros s Hs. exact Hs. Qed.
Lemma keeps_get : keeps (E := E) I sget.
Proof. intros s Hs. exact Hs. Qed.
Lemma keeps_mod f : (forall s, I s -> I (f s)) -> keeps (E := E) I (smod f).
Proof. intros H s Hs. by apply H. Qed.
Lemma keeps_lift {E' A} (f : E' -> E) (r : result E' A) : keeps I (slift f r).
Proof. intros s Hs. exact Hs. Qed.
Lemma keeps_bind {A B} (m : stM S E A) (k : A -> stM S E B) :
  keeps I m -> (forall a, keeps I (k a)) -> keeps I (sbind m k).
Proof. intros Hm Hk s Hs. unfold sbind. specialize (Hm s Hs). destruct (m s) as [[a|e] s']; [by apply Hk|done]. Qed.
Lemma keeps_for {A} (xs : list A) (k : A -> stM S E unit) : (forall a, keeps I (k a)) -> keeps I (sfor xs k).
Proof. intros Hk. induction xs as [|x xs IH]; [apply keeps_ret|]. by apply keeps_bind. Qed.
End keeps.
#[export] Hint Resolve keeps_ret keeps_fail keeps_get keeps_lift : keeps.

(** Splits a program into its steps. *)
Ltac keeps_step :=
  match goal with
  | |- keeps _ (sbind _ _) => apply keeps_bind; [|intros ?]
  | |- keeps _ (sfor _ _) => apply keeps_for; intros ?
  | |- keeps _ (smod _) => apply keeps_mod; intros ? ?
  | |- keeps _ (if ?b then _ else _) => destruct b
  | |- keeps _ (match ?x with _ => _ end) => destruct x
  | |- keeps _ _ => solve [auto with keeps]
  end.
Ltac keeps := repeat keeps_step.

(** Sequential loops that stop at the first error. *)
Fixpoint foldM {E A S} (f : S -> A -> result E S) (s : S) (l : list A) : result E S :=
  match l with
  | [] => Ok s
  | x :: l => let* s' := f s x in foldM f s' l
  end.

Fixpoint foldMi {E A S} (f : S -> Z -> A -> result E S) (i : Z) (s : S) (l : list A)
  : result E S :=
  match l with
  | [] => Ok s
  | x :: l => let* s' := f s i x in foldMi f (i + 1) s' l
  end.

Lemma foldM_app {E A S} (f : S -> A -> result E S) s l1 l2 :
  foldM f s (l1 ++ l2) = rbind (foldM f s l1) (fun s' => foldM f s' l2).
Proof. revert s; induction l1 as [|x l1 IH]; intros s; simpl; [done|]. destruct (f s x); simpl; auto. Qed.

(** The loop rule: an invariant indexed by the part already processed. *)
Lemma foldMi_ind_from {E A S} (f : S -> Z -> A -> result E S) (P : list A -> S -> Prop)
    i0 pre l s0 s1 :
  P pre s0 ->
  (forall fin x s s', P fin s -> x ∈ l -> f s (i0 + Z.of_nat (length fin)) x = Ok s' ->
     P (fin ++ [x]) s') ->
  foldMi f (i0 + Z.of_nat (length pre)) s0 l = Ok s1 -> P (pre ++ l) s1.
Proof.
  revert pre s0. induction l as [|x l IH]; intros pre s0 H0 Hstep H; simpl in H.
  - injection H as <-. by rewrite app_nil_r.
  - apply rbind_Ok in H as (s'&Hf&H).
    replace (pre ++ x :: l) with ((pre ++ [x]) ++ l) by (by rewrite <- app_assoc).
    eapply IH; [eapply Hstep; [done|set_solver|done]| |].
    + intros; eapply Hstep; [done|set_solver|done].
    + rewrite length_app, Nat2Z.inj_add; simpl. by rewrite Z.add_assoc.
Qed.

Lemma foldMi_ind {E A S} (f : S -> Z -> A -> result E S) (P : list A -> S -> Prop) i0 s0 l s1 :
  P [] s0 ->
  (forall fin x s s', P fin s -> x ∈ l -> f s (i0 + Z.of_nat (length fin)) x = Ok s' ->
     P (fin ++ [x]) s') ->
  foldMi f i0 s0 l = Ok s1 -> P l s1.
Proof.
  intros H0 Hs H. apply (foldMi_ind_from f P i0 [] l s0); [done|done|].
  simpl. by rewrite Z.add_0_r.
Qed.

Lemma foldM_ind {E A S} (f : S -> A -> result E S) (P : list A -> S -> Prop) s0 l s1 :
  P [] s0 ->
  (forall fin x s s', P fin s -> x ∈ l -> f s x = Ok s' -> P (fin ++ [x]) s') ->
  foldM f s0 l = Ok s1 -> P l s1.
Proof.
  intros H0 Hs H. apply (foldMi_ind (fun s _ x => f s x) P 0 s0); [done|eauto|].
  rewrite <- H. clear. generalize 0 as i. revert s0.
  induction l as [|x l IH]; intros s0 i; simpl; [done|]. destruct (f s0 x); simpl; auto.
Qed.

(** ** Tactics

    [inv_ok] decomposes a hypothesis [m = Ok x] along the binds, guards and
    tests of [m]; [split_ifs] case-splits the remaining boolean tests. *)

Ltac inv_ok_step :=
  match goal with
  | H : Ok _ = Ok _ |- _ => injection H as H; try subst
  | H : Err _ = Err _ |- _ => injection H as H; try subst
  | H : Ok _ = Err _ |- _ => discriminate H
  | H : Err _ = Ok _ |- _ => discriminate H
  | H : (_, _) = (_, _) |- _ => injection H as H; try subst
  | H : rwrap _ _ = Ok _ |- _ => apply rwrap_Ok in H
  | H : rbind _ _ = Ok _ |- _ =>
      let x := fresh "x" in let Hx := fresh "Hx" in
      apply rbind_Ok in H as (x & Hx & H); try (destruct x as [? ?])
  | H : (if ?b then Err _ else _) = Ok _ |- _ =>
      let Hb := fresh "Hb" in destruct b eqn:Hb; [discriminate H|]
  | H : (if ?b then _ else Err _) = Ok _ |- _ =>
      let Hb := fresh "Hb" in destruct b eqn:Hb; [|discriminate H]
  end.
Ltac inv_ok := repeat (inv_ok_step; simpl in *).

Ltac bool_to_prop :=
  repeat match goal with
  | H : (_ <? _) = true |- _ => apply Z.ltb_lt in H
  | H : (_ <? _) = false |- _ => apply Z.ltb_ge in H
  | H : (_ <=? _) = true |- _ => apply Z.leb_le in H
  | H : (_ <=? _) = false |- _ => apply Z.leb_gt in H
  | H : (_ >? _) = true |- _ => rewrite Z.gtb_ltb in H; apply Z.ltb_lt in H
  | H : (_ >? _) = false |- _ => rewrite Z.gtb_ltb in H; apply Z.ltb_ge in H
  | H : (_ =? _) = true |- _ => apply Z.eqb_eq in H
  | H : (_ =? _) = false |- _ => apply Z.eqb_neq in H
  | H : negb _ = true |- _ => apply negb_true_iff in H
  | H : negb _ = false |- _ => apply negb_false_iff in H
  | H : (_ && _)%bool = true |- _ => apply andb_true_iff in H as [? ?]
  | H : (_ || _)%bool = false |- _ => apply orb_false_iff in H as [? ?]
  | H : bool_decide _ = true |- _ => apply bool_decide_eq_true in H
  | H : bool_decide _ = false |- _ => apply bool_decide_eq_false in H
  end.

(** Case-split the integer comparisons of the goal, discarding impossible cases. *)
Ltac ztest :=
  repeat match goal with
  | |- context [Z.gtb ?a ?b] => rewrite (Z.gtb_ltb a b)
  | |- context [Z.eqb ?a ?b] => destruct (Z.eqb_spec a b); try lia
  | |- context [Z.ltb ?a ?b] => destruct (Z.ltb_spec a b); try lia
  | |- context [Z.leb ?a ?b] => destruct (Z.leb_spec a b); try lia
  end.

(** ** Machine integers

    A Go unsigned integer of width [w] is a [Z] in [0, 2^w); arithmetic wraps. *)

Definition u8 (z : Z) : Z := z mod 2^8.
Definition u16 (z : Z) : Z := z mod 2^16.
Definition u32 (z : Z) : Z := z mod 2^32.
Definition u64 (z : Z) : Z := z mod 2^64.

Definition is_u8 (z : Z) : Prop := 0 <= z < 2^8.
Definition is_u32 (z : Z) : Prop := 0 <= z < 2^32.
Definition is_u64 (z : Z) : Prop := 0 <= z < 2^64.

(** Signed 64-bit wrap-around (Go's [int64(x)] and [int] arithmetic). *)
Definition i64 (z : Z) : Z := (z + 2^63) mod 2^64 - 2^63.
Definition is_i64 (z : Z) : Prop := - 2^63 <= z < 2^63.
Definition i32 (z : Z) : Z := (z + 2^31) mod 2^32 - 2^31.

Definition add32 (a b : Z) : Z := u32 (a + b).
Definition sub32 (a b : Z) : Z := u32 (a - b).
Definition add64 (a b : Z) : Z := u64 (a + b).
Definition sub64 (a b : Z) : Z := u64 (a - b).
Definition mul64 (a b : Z) : Z := u64 (a * b).

Abbreviation len l := (Z.of_nat (length l)).

#[global] Instance is_u32_dec z : Decision (is_u32 z).
Proof. unfold is_u32; apply _. Defined.
#[global] Instance is_u64_dec z : Decision (is_u64 z).
Proof. unfold is_u64; apply _. Defined.

Lemma u32_small z : is_u32 z -> u32 z = z.
Proof. apply Z.mod_small. Qed.
Lemma u64_small z : is_u64 z -> u64 z = z.
Proof. apply Z.mod_small. Qed.
Lemma u32_range z : is_u32 (u32 z).
Proof. apply Z.mod_pos_bound. lia. Qed.
Lemma u64_range z : is_u64 (u64 z).
Proof. apply Z.mod_pos_bound. lia. Qed.
Lemma i64_small z : is_i64 z -> i64 z = z.
Proof. unfold i64, is_i64. intros. rewrite Z.mod_small; lia. Qed.
Lemma i64_range z : is_i64 (i64 z).
Proof. unfold i64, is_i64. pose proof (Z.mod_pos_bound (z + 2^63) (2^64)); lia. Qed.
Lemma i64_u64 z : is_i64 z -> i64 (u64 z) = z.
Proof.
  unfold i64, u64, is_i64. intros.
  rewrite Zplus_mod_idemp_l, Z.mod_small; lia.
Qed.
Lemma u64_i64 z : is_u64 z -> u64 (i64 z) = z.
Proof.
  unfold i64, u64, is_u64. intros.
  rewrite Zminus_mod_idemp_l, Z.mod_small; lia.
Qed.

(** A checked accumulation step, [if total+v < total { error }; total += v]. *)
Lemma add64_step {E} a b (e : E) r :
  is_u64 a -> is_u64 b ->
  (if add64 a b <? a then Err e else Ok (add64 a b)) = Ok r <-> r = a + b /\ a + b < 2^64.
Proof.
  intros Ha Hb. destruct (Z.lt_ge_cases (a + b) (2^64)) as [Hlt|Hge].
  - assert (add64 a b = a + b) as -> by (apply u64_small; unfold is_u64 in *; lia).
    rewrite (proj2 (Z.ltb_ge _ _)) by (unfold is_u64 in *; lia).
    split; [intros [= <-]; done|intros [-> _]; done].
  - assert (add64 a b = a + b - 2^64) as ->
      by (unfold add64, u64, is_u64 in *; symmetry; apply (Z.mod_unique _ _ 1); lia).
    rewrite (proj2 (Z.ltb_lt _ _)) by (unfold is_u64 in *; lia). split; [done|lia].
Qed.

(** The overflow test of the code, [a+b < a], is exact on unsigned operands. *)
Lemma add64_overflow a b :
  is_u64 a -> is_u64 b -> (add64 a b <? a) = negb (a + b <? 2^64).
Proof.
  unfold is_u64, add64, u64. intros Ha Hb.
  destruct (Z.ltb_spec (a + b) (2^64)); simpl.
  - rewrite Z.mod_small by lia. apply Z.ltb_ge. lia.
  - replace ((a + b) mod 2^64) with (a + b - 2^64)
      by (apply (Z.mod_unique _ _ 1); lia).
    apply Z.ltb_lt. lia.
Qed.

Lemma add64_checked a b :
  is_u64 a -> is_u64 b -> (add64 a b <? a) = false ->
  add64 a b = a + b /\ a + b < 2^64.
Proof.
  intros Ha Hb H. rewrite add64_overflow in H by done.
  apply negb_false_iff, Z.ltb_lt in H. split; [|done].
  apply u64_small. unfold is_u64 in *. lia.
Qed.

Lemma sub64_ge a b : is_u64 a -> is_u64 b -> b <= a -> sub64 a b = a - b.
Proof. intros Ha Hb Hle. apply u64_small. unfold is_u64 in *. lia. Qed.
Lemma sub32_ge a b : is_u32 a -> is_u32 b -> b <= a -> sub32 a b = a - b.
Proof. intros Ha Hb Hle. apply u32_small. unfold is_u32 in *. lia. Qed.

(** ** Sums *)

Fixpoint sumZ (l : list Z) : Z := match l with [] => 0 | x :: l => x + sumZ l end.

Lemma sumZ_app l1 l2 : sumZ (l1 ++ l2) = sumZ l1 + sumZ l2.
Proof. induction l1; simpl; lia. Qed.
Lemma sumZ_perm l l' : l ≡ₚ l' -> sumZ l = sumZ l'.
Proof. induction 1; simpl; lia. Qed.
Lemma sumZ_nonneg l : Forall (fun x => 0 <= x) l -> 0 <= sumZ l.
Proof. induction 1; simpl; lia. Qed.
Lemma sumZ_u64 l : Forall is_u64 l -> 0 <= sumZ l.
Proof. intros H. apply sumZ_nonneg. eapply Forall_impl; [done|]. unfold is_u64. lia. Qed.
Lemma sumZ_le l l' : Forall2 Z.le l l' -> sumZ l <= sumZ l'.
Proof. induction 1; simpl; lia. Qed.

(** ** Bit operations as arithmetic *)

Lemma land_below a k n : 0 <= a < 2^k -> 0 <= k -> Z.land (Z.shiftl n k) a = 0.
Proof.
  intros Ha Hk. apply Z.bits_inj'. intros i Hi.
  rewrite Z.land_spec, Z.bits_0, Z.shiftl_spec by lia.
  destruct (Z.lt_ge_cases i k); [by rewrite Z.testbit_neg_r by lia|].
  destruct (Z.eq_dec a 0) as [->|]; [by rewrite Z.bits_0, andb_false_r|].
  rewrite (Z.bits_above_log2 a); [by rewrite andb_false_r|lia|].
  apply Z.log2_lt_pow2; [lia|]. assert (2^k <= 2^i) by (apply Z.pow_le_mono_r; lia). lia.
Qed.

(** [a | b << k] with [a] below bit [k] is a sum. *)
Lemma lor_shiftl_add a b k : 0 <= a < 2^k -> 0 <= k -> Z.lor a (Z.shiftl b k) = a + b * 2^k.
Proof.
  intros Ha Hk. pose proof (Z.add_lor_land (Z.shiftl b k) a) as E.
  rewrite (land_below a k b), Z.shiftl_mul_pow2 in E by lia.
  rewrite Z.lor_comm, Z.shiftl_mul_pow2 by lia. lia.
Qed.

(** Testing the single bit [k] of a number below [2^(k+1)]. *)
Lemma land_pow2_small c k : 0 <= k -> 0 <= c < 2^(k+1) ->
  (Z.land c (2^k) =? 0) = (c <? 2^k).
Proof.
  intros Hk Hc. rewrite Z.pow_add_r in Hc by lia.
  destruct (Z.ltb_spec c (2^k)) as [Hl|Hl].
  - apply Z.eqb_eq. rewrite Z.land_comm.
    pose proof (land_below c k 1 ltac:(lia) Hk) as E.
    by rewrite Z.shiftl_mul_pow2, Z.mul_1_l in E by lia.
  - apply Z.eqb_neq. intros E. apply (f_equal (fun z => Z.testbit z k)) in E.
    rewrite Z.land_spec, Z.bits_0, Z.pow2_bits_true, andb_true_r in E by lia.
    apply not_true_iff_false in E. apply E.
    apply Z.testbit_true; [lia|]. replace (c / 2^k) with 1; [done|].
    apply (Z.div_unique_pos _ _ _ (c - 2^k)); lia.
Qed.

(** ** Bytes *)

#[global] Instance byte_eq_dec : EqDecision byte := Byte.byte_eq_dec.
#[global] Instance byte_inhabited : Inhabited byte := populate Byte.x00.
#[global] Program Instance byte_countable : Countable byte :=
  inj_countable Byte.to_N Byte.of_N _.
Next Obligation. intros b. apply Byte.of_to_N. Qed.

Definition bytes := list byte.

(** Reading an element that the caller has bounds-checked. *)
Definition byte_at (l : list byte) (i : nat) : Z := byte.unsigned (nth i l Byte.x00).

Definition bytes_of (l : list Z) : list byte := map byte.of_Z l.
(** [[]byte("...")] *)
Definition bytes_of_string (s : string) : list byte := String.list_byte_of_string s.

Lemma byte_at_range l i : 0 <= byte_at l i < 256.
Proof. apply byte.unsigned_range. Qed.

Lemma byte_of_unsigned b : byte.of_Z (byte.unsigned b) = b.
Proof. apply byte.of_Z_unsigned. Qed.

(** A Go slice expression [l[i:j]] with [i <= j <= len l]. *)
Definition slice {A} (i j : nat) (l : list A) : list A := take (j - i) (drop i l).

Lemma cons_eq_inv {A} (x y : A) l k : x :: l = y :: k -> x = y /\ l = k.
Proof. by intros [= -> ->]. Qed.

(** Induction two elements at a time. *)
Lemma list_pair_ind {A} (P : list A -> Prop) :
  P [] -> (forall a, P [a]) -> (forall a b l, P l -> P (a :: b :: l)) -> forall l, P l.
Proof.
  intros H0 H1 H2. fix IH 1. intros [|a [|b l]]; [done|done|]. apply H2, IH.
Qed.

(** Induction on the length. *)
Lemma list_length_ind {A} (P : list A -> Prop) :
  (forall l, (forall l', (length l' < length l)%nat -> P l') -> P l) -> forall l, P l.
Proof.
  intros H l. remember (length l) as n eqn:E. revert l E.
  induction n as [n IH] using lt_wf_ind. intros l ->. apply H. intros l' Hl. by apply (IH (length l')).
Qed.

Lemma length_slice {A} i j (l : list A) :
  (i <= j)%nat -> (j <= length l)%nat -> length (slice i j l) = (j - i)%nat.
Proof. intros. unfold slice. rewrite length_take, length_drop. lia. Qed.

Lemma slice_at {A} i j (l a b c : list A) :
  l = a ++ b ++ c -> length a = i -> length b = (j - i)%nat -> slice i j l = b.
Proof.
  intros -> <- Hb. unfold slice. rewrite drop_app_length, <- Hb. by rewrite take_app_length.
Qed.

Lemma slice_slice {A} i j k (l : list A) :
  (i <= j)%nat -> (j <= k)%nat -> slice i j l ++ slice j k l = slice i k l.
Proof.
  intros. unfold slice. replace (k - i)%nat with ((j - i) + (k - j))%nat by lia.
  rewrite <- take_take_drop, drop_drop. do 3 f_equal. lia.
Qed.

Lemma slice_all {A} n (l : list A) : length l = n -> slice 0 n l = l.
Proof. intros <-. unfold slice. rewrite drop_0. apply take_ge. lia. Qed.

Lemma le_combine_is_u32 bs : length bs = 4%nat -> is_u32 (le_combine bs).
Proof. intros H. pose proof (le_combine_bound bs) as B. rewrite H in B. exact B. Qed.
Lemma le_combine_is_u64 bs : length bs = 8%nat -> is_u64 (le_combine bs).
Proof. intros H. pose proof (le_combine_bound bs) as B. rewrite H in B. exact B. Qed.

(** ** Decoding

    [io.Reader]s over a byte slice are lists of the bytes still to be read. *)

Inductive DecodeErr : Type :=
| EOF
| UnexpectedEOF
| NonCanonical (disc val : Z)
| ExceedsMax (n max : Z)
| TooShort (n : Z)
| Ctx (what : string) (i : Z) (e : DecodeErr).

Definition dec_result A := result DecodeErr (A * list byte).

(** [io.ReadFull(r, buf)] with [len(buf) = n]. *)
Definition ReadFull (n : nat) (r : list byte) : dec_result (list byte) :=
  if (n <=? length r)%nat then Ok (take n r, drop n r)
  else match r with [] => Err EOF | _ => Err UnexpectedEOF end.

#[global] Arguments ReadFull : simpl never.

Lemma ReadFull_app n bs r : length bs = n -> ReadFull n (bs ++ r) = Ok (bs, r).
Proof.
  intros <-. unfold ReadFull. rewrite length_app.
  rewrite (proj2 (Nat.leb_le _ _)) by lia.
  by rewrite take_app_length, drop_app_length.
Qed.

Lemma ReadFull_Ok n r bs r' :
  ReadFull n r = Ok (bs, r') -> r = bs ++ r' /\ length bs = n.
Proof.
  unfold ReadFull. destruct (Nat.leb_spec n (length r)); [|by destruct r].
  intros [= <- <-]. rewrite take_drop, length_take. split; [done|lia].
Qed.

(** The loop [for i := 0; i < count; i++ { x[i].Deserialize(r) }]. *)
Fixpoint ReadN {A} (dec : list byte -> dec_result A) (ctx : Z -> DecodeErr -> DecodeErr)
    (n : nat) (i : Z) (r : list byte) : dec_result (list A) :=
  match n with
  | O => Ok ([], r)
  | S n =>
      let* (x, r) := rwrap (ctx i) (dec r) in
      let* (xs, r) := ReadN dec ctx n (i + 1) r in
      Ok (x :: xs, r)
  end.

(** What one layer of the wire and disk formats promises to the next:
    encodings are read back exactly, whatever follows them, and (for a
    canonical format) nothing but the encoding of the result is accepted. *)
Class RoundTrip {A} (wf : A -> Prop) (enc : A -> list byte) (dec : list byte -> dec_result A)
    : Prop :=
  decode_encode : forall a r, wf a -> dec (enc a ++ r) = Ok (a, r).
Class Canonical {A} (wf : A -> Prop) (enc : A -> list byte) (dec : list byte -> dec_result A)
    : Prop :=
  decode_canonical : forall bs a r, dec bs = Ok (a, r) -> bs = enc a ++ r /\ wf a.

Section codec.
Context {A : Type} {wf : A -> Prop} {enc : A -> list byte} {dec : list byte -> dec_result A}.

(** A round-tripping encoding is prefix-free, hence injective. *)
Lemma encode_prefix_free `{!RoundTrip wf enc dec} a b r r' :
  wf a -> wf b -> enc a ++ r = enc b ++ r' -> a = b /\ r = r'.
Proof.
  intros Ha Hb H. pose proof (decode_encode a r Ha) as E.
  rewrite H, decode_encode in E by done. by injection E as -> ->.
Qed.

Lemma ReadN_encode `{!RoundTrip wf enc dec} ctx n i l r :
  Forall wf l -> length l = n -> ReadN dec ctx n i (concat (map enc l) ++ r) = Ok (l, r).
Proof.
  intros Hwf Hlen. revert n i Hlen.
  induction Hwf as [|x l Hx Hwf IH]; intros n i <-; simpl; [done|].
  rewrite <- app_assoc, (decode_encode (dec := dec)) by done. simpl.
  by rewrite IH.
Qed.

Lemma ReadN_canonical `{!Canonical wf enc dec} ctx n i bs l r :
  ReadN dec ctx n i bs = Ok (l, r) ->
  bs = concat (map enc l) ++ r /\ Forall wf l /\ length l = n.
Proof.
  revert i bs l r.
  induction n as [|n IH]; intros i bs l r H; simpl in H; inv_ok; [done|].
  match goal with H1 : dec _ = Ok _, H2 : ReadN _ _ _ _ _ = Ok _ |- _ =>
    apply decode_canonical in H1 as [-> ?]; apply IH in H2 as (-> & ? & ?) end.
  split; [by rewrite <- app_assoc|]. split; [by constructor|]. simpl. by f_equal.
Qed.
End codec.
