(* ===== verification/Types.v ===== *)
(** * Core types and canonical serialization

    Models [src/internal/types/hash.go], [transaction.go] and [block.go]: hashes and
    their order, the compact-size integers, and the byte formats of transactions,
    block headers and blocks.

    [Serialize] is the sequence of bytes a call writes: the writers the program
    passes ([sliceWriter], [bytes.Buffer]) never return an error
    ([transaction.go] 394-397), so the [error] results of the [Serialize],
    [SerializeToBytes] and [WriteVarInt] functions are always [nil] and are not
    represented.  [Deserialize] reads from a list of bytes and returns the rest. *)
From S2P Require Import Prelude.

(** ** Hash ([hash.go]) *)

Definition HashSize : nat := 32.

(** A [types.Hash] is an array of 32 bytes in little-endian order. *)
Definition Hash := list byte.
Definition wf_hash (h : Hash) : Prop := length h = HashSize.

Definition ZeroHash : Hash := replicate HashSize Byte.x00.

(** [HashFromBytes] panics on a wrong length: [None]. *)
Definition HashFromBytes (b : list byte) : option Hash :=
  if decide (length b = HashSize) then Some b else None.

Definition IsZero (h : Hash) : bool := bool_decide (h = ZeroHash).

(** The loop [for i := HashSize-1; i >= 0; i--] of [Less]; [n] is [i+1]. *)
Fixpoint Less_from (n : nat) (h other : Hash) : bool :=
  match n with
  | O => false
  | S i =>
      if byte_at h i <? byte_at other i then true
      else if byte_at h i >? byte_at other i then false
      else Less_from i h other
  end.
Definition Less (h other : Hash) : bool := Less_from HashSize h other.
Definition LessOrEqual (h other : Hash) : bool := bool_decide (h = other) || Less h other.

(** Little-endian integers ([PutUint32LE], [ReadUint32LE] and the functions of
    [encoding/binary] they call). *)
Definition PutUint16LE (v : Z) : list byte := le_split 2 v.
Definition PutUint32LE (v : Z) : list byte := le_split 4 v.
Definition PutUint64LE (v : Z) : list byte := le_split 8 v.
Definition ReadUintLE (buf : list byte) : Z := le_combine buf.

(** ** Compact-size integers ([transaction.go]) *)

Definition PutVarInt (val : Z) : list byte :=
  if val <? 0xFD then [byte.of_Z val]
  else if val <=? 0xFFFF then byte.of_Z 0xFD :: PutUint16LE (u16 val)
  else if val <=? 0xFFFFFFFF then byte.of_Z 0xFE :: PutUint32LE (u32 val)
  else byte.of_Z 0xFF :: PutUint64LE val.

Definition ReadVarInt (r : list byte) : dec_result Z :=
  let* (disc, r) := ReadFull 1 r in
  let d := byte_at disc 0 in
  if d =? 0xFD then
    let* (buf, r) := ReadFull 2 r in
    let val := ReadUintLE buf in
    check val <? 0xFD else NonCanonical 0xFD val;
    Ok (val, r)
  else if d =? 0xFE then
    let* (buf, r) := ReadFull 4 r in
    let val := ReadUintLE buf in
    check val <=? 0xFFFF else NonCanonical 0xFE val;
    Ok (val, r)
  else if d =? 0xFF then
    let* (buf, r) := ReadFull 8 r in
    let val := ReadUintLE buf in
    check val <=? 0xFFFFFFFF else NonCanonical 0xFF val;
    Ok (val, r)
  else Ok (d, r).

Definition ReadVarIntFromBytes (data : list byte) : result DecodeErr Z :=
  check len data =? 0 else TooShort 0;
  let d := byte_at data 0 in
  if d =? 0xFD then
    check len data <? 3 else TooShort (len data);
    let val := ReadUintLE (slice 1 3 data) in
    check val <? 0xFD else NonCanonical 0xFD val;
    Ok val
  else if d =? 0xFE then
    check len data <? 5 else TooShort (len data);
    let val := ReadUintLE (slice 1 5 data) in
    check val <=? 0xFFFF else NonCanonical 0xFE val;
    Ok val
  else if d =? 0xFF then
    check len data <? 9 else TooShort (len data);
    let val := ReadUintLE (slice 1 9 data) in
    check val <=? 0xFFFFFFFF else NonCanonical 0xFF val;
    Ok val
  else Ok d.

Definition VarIntSize (val : Z) : Z :=
  if val <? 0xFD then 1
  else if val <=? 0xFFFF then 3
  else if val <=? 0xFFFFFFFF then 5
  else 9.

(** ** Transactions ([transaction.go]) *)

Record OutPoint := { op_Hash : Hash; op_Index : Z }.
Record TxInput := { in_PreviousOutPoint : OutPoint; in_SignatureScript : list byte; in_Sequence : Z }.
Record TxOutput := { out_Value : Z; out_PkScript : list byte }.
Record Transaction := {
  tx_Version : Z; tx_Inputs : list TxInput; tx_Outputs : list TxOutput; tx_LockTime : Z }.

Definition CoinbaseOutPoint : OutPoint := {| op_Hash := ZeroHash; op_Index := 0xFFFFFFFF |}.

Definition in_IsCoinbase (i : TxInput) : bool :=
  IsZero (op_Hash (in_PreviousOutPoint i)) && (op_Index (in_PreviousOutPoint i) =? 0xFFFFFFFF).

Definition tx_IsCoinbase (tx : Transaction) : bool :=
  match tx_Inputs tx with [i] => in_IsCoinbase i | _ => false end.

Definition MaxTxInputs : Z := 10000.
Definition MaxTxOutputs : Z := 10000.
Definition MaxScriptSize : Z := 10000.

Definition in_SerializeSize (i : TxInput) : Z :=
  36 + VarIntSize (len (in_SignatureScript i)) + len (in_SignatureScript i) + 4.
Definition out_SerializeSize (o : TxOutput) : Z :=
  8 + VarIntSize (len (out_PkScript o)) + len (out_PkScript o).
Definition tx_SerializeSize (tx : Transaction) : Z :=
  let n := 4 + VarIntSize (len (tx_Inputs tx)) in
  let n := fold_left (fun n i => n + in_SerializeSize i) (tx_Inputs tx) n in
  let n := n + VarIntSize (len (tx_Outputs tx)) in
  let n := fold_left (fun n o => n + out_SerializeSize o) (tx_Outputs tx) n in
  n + 4.

Definition in_Serialize (i : TxInput) : list byte :=
  op_Hash (in_PreviousOutPoint i)
  ++ PutUint32LE (op_Index (in_PreviousOutPoint i))
  ++ PutVarInt (len (in_SignatureScript i))
  ++ in_SignatureScript i
  ++ PutUint32LE (in_Sequence i).

Definition out_Serialize (o : TxOutput) : list byte :=
  PutUint64LE (out_Value o) ++ PutVarInt (len (out_PkScript o)) ++ out_PkScript o.

Definition tx_Serialize (tx : Transaction) : list byte :=
  PutUint32LE (tx_Version tx)
  ++ PutVarInt (len (tx_Inputs tx))
  ++ concat (map in_Serialize (tx_Inputs tx))
  ++ PutVarInt (len (tx_Outputs tx))
  ++ concat (map out_Serialize (tx_Outputs tx))
  ++ PutUint32LE (tx_LockTime tx).

Definition tx_SerializeToBytes (tx : Transaction) : list byte := tx_Serialize tx.

Definition in_Deserialize (r : list byte) : dec_result TxInput :=
  let* (hash, r) := ReadFull HashSize r in
  let* (buf, r) := ReadFull 4 r in
  let index := ReadUintLE buf in
  let* (scriptLen, r) := ReadVarInt r in
  check scriptLen >? MaxScriptSize else ExceedsMax scriptLen MaxScriptSize;
  let* (script, r) := ReadFull (Z.to_nat scriptLen) r in
  let* (buf, r) := ReadFull 4 r in
  Ok ({| in_PreviousOutPoint := {| op_Hash := hash; op_Index := index |};
         in_SignatureScript := script;
         in_Sequence := ReadUintLE buf |}, r).

Definition out_Deserialize (r : list byte) : dec_result TxOutput :=
  let* (buf, r) := ReadFull 8 r in
  let value := ReadUintLE buf in
  let* (scriptLen, r) := ReadVarInt r in
  check scriptLen >? MaxScriptSize else ExceedsMax scriptLen MaxScriptSize;
  let* (script, r) := ReadFull (Z.to_nat scriptLen) r in
  Ok ({| out_Value := value; out_PkScript := script |}, r).

Definition tx_Deserialize (r : list byte) : dec_result Transaction :=
  let* (buf, r) := rwrap (Ctx "read tx version" 0) (ReadFull 4 r) in
  let version := ReadUintLE buf in
  let* (inCount, r) := rwrap (Ctx "read input count" 0) (ReadVarInt r) in
  check inCount >? MaxTxInputs else ExceedsMax inCount MaxTxInputs;
  let* (ins, r) := ReadN in_Deserialize (Ctx "read input") (Z.to_nat inCount) 0 r in
  let* (outCount, r) := rwrap (Ctx "read output count" 0) (ReadVarInt r) in
  check outCount >? MaxTxOutputs else ExceedsMax outCount MaxTxOutputs;
  let* (outs, r) := ReadN out_Deserialize (Ctx "read output") (Z.to_nat outCount) 0 r in
  let* (buf, r) := rwrap (Ctx "read locktime" 0) (ReadFull 4 r) in
  Ok ({| tx_Version := version; tx_Inputs := ins; tx_Outputs := outs;
         tx_LockTime := ReadUintLE buf |}, r).

(** ** Headers and blocks ([block.go]) *)

Definition BlockHeaderSize : nat := 80.
Definition MaxBlockTxCount : Z := 50000.

Record BlockHeader := {
  hdr_Version : Z; hdr_PrevBlock : Hash; hdr_MerkleRoot : Hash;
  hdr_Timestamp : Z; hdr_Bits : Z; hdr_Nonce : Z }.
Record Block := { blk_Header : BlockHeader; blk_Transactions : list Transaction }.

Definition hdr_SerializeToBytes (h : BlockHeader) : list byte :=
  PutUint32LE (hdr_Version h)
  ++ hdr_PrevBlock h
  ++ hdr_MerkleRoot h
  ++ PutUint32LE (hdr_Timestamp h)
  ++ PutUint32LE (hdr_Bits h)
  ++ PutUint32LE (hdr_Nonce h).

Definition hdr_Deserialize (r : list byte) : dec_result BlockHeader :=
  let* (buf, r) := rwrap (Ctx "read block header" 0) (ReadFull BlockHeaderSize r) in
  Ok ({| hdr_Version := ReadUintLE (slice 0 4 buf);
         hdr_PrevBlock := slice 4 36 buf;
         hdr_MerkleRoot := slice 36 68 buf;
         hdr_Timestamp := ReadUintLE (slice 68 72 buf);
         hdr_Bits := ReadUintLE (slice 72 76 buf);
         hdr_Nonce := ReadUintLE (slice 76 80 buf) |}, r).

Definition blk_Serialize (b : Block) : list byte :=
  hdr_SerializeToBytes (blk_Header b)
  ++ PutVarInt (len (blk_Transactions b))
  ++ concat (map tx_Serialize (blk_Transactions b)).

Definition blk_Deserialize (r : list byte) : dec_result Block :=
  let* (h, r) := hdr_Deserialize r in
  let* (txCount, r) := rwrap (Ctx "read tx count" 0) (ReadVarInt r) in
  check txCount >? MaxBlockTxCount else ExceedsMax txCount MaxBlockTxCount;
  let* (txs, r) := ReadN tx_Deserialize (Ctx "deserialize tx") (Z.to_nat txCount) 0 r in
  Ok ({| blk_Header := h; blk_Transactions := txs |}, r).

(** ** Hexadecimal text ([hash.go], over [encoding/hex])

    Go strings are byte sequences, so a hex string is a list of bytes. *)

Inductive HexErr := InvalidByte (c : Z) | OddLength | WrongSize (n : Z).

Definition hextable (n : Z) : byte :=
  byte.of_Z (if n <? 10 then 48 + n else 87 + n).
Definition fromHexChar (c : byte) : option Z :=
  let z := byte.unsigned c in
  if (48 <=? z) && (z <=? 57) then Some (z - 48)
  else if (97 <=? z) && (z <=? 102) then Some (z - 87)
  else if (65 <=? z) && (z <=? 70) then Some (z - 55)
  else None.

Definition hex_EncodeToString (b : list byte) : list byte :=
  concat (map (fun c => [hextable (byte.unsigned c / 16); hextable (byte.unsigned c mod 16)]) b).

Fixpoint hex_DecodeString (s : list byte) : result HexErr (list byte) :=
  match s with
  | [] => Ok []
  | [p] => match fromHexChar p with
           | None => Err (InvalidByte (byte.unsigned p))
           | Some _ => Err OddLength
           end
  | p :: q :: s =>
      match fromHexChar p, fromHexChar q with
      | Some a, Some b =>
          let* rest := hex_DecodeString s in
          Ok (byte.of_Z (16 * a + b) :: rest)
      | None, _ => Err (InvalidByte (byte.unsigned p))
      | _, None => Err (InvalidByte (byte.unsigned q))
      end
  end.

Definition HashFromHex (s : list byte) : result HexErr Hash :=
  let* b := hex_DecodeString s in
  check negb (length b =? HashSize)%nat else WrongSize (len b);
  Ok b.

Definition HashFromReverseHex (s : list byte) : result HexErr Hash :=
  let* b := hex_DecodeString s in
  check negb (length b =? HashSize)%nat else WrongSize (len b);
  Ok (rev b).

Definition hash_String (h : Hash) : list byte := hex_EncodeToString h.
Definition ReverseString (h : Hash) : list byte := hex_EncodeToString (rev h).

(** ** Well-formedness

    The ranges the Go types give for free, and the limits [Deserialize] enforces. *)

Definition wf_outpoint (o : OutPoint) : Prop := wf_hash (op_Hash o) /\ is_u32 (op_Index o).
Definition wf_script (s : list byte) : Prop := len s <= MaxScriptSize.
Definition wf_input (i : TxInput) : Prop :=
  wf_outpoint (in_PreviousOutPoint i) /\ wf_script (in_SignatureScript i) /\ is_u32 (in_Sequence i).
Definition wf_output (o : TxOutput) : Prop := is_u64 (out_Value o) /\ wf_script (out_PkScript o).
Definition wf_tx (tx : Transaction) : Prop :=
  is_u32 (tx_Version tx) /\ is_u32 (tx_LockTime tx)
  /\ Forall wf_input (tx_Inputs tx) /\ len (tx_Inputs tx) <= MaxTxInputs
  /\ Forall wf_output (tx_Outputs tx) /\ len (tx_Outputs tx) <= MaxTxOutputs.
Definition wf_header (h : BlockHeader) : Prop :=
  is_u32 (hdr_Version h) /\ wf_hash (hdr_PrevBlock h) /\ wf_hash (hdr_MerkleRoot h)
  /\ is_u32 (hdr_Timestamp h) /\ is_u32 (hdr_Bits h) /\ is_u32 (hdr_Nonce h).
Definition wf_block (b : Block) : Prop :=
  wf_header (blk_Header b)
  /\ Forall wf_tx (blk_Transactions b) /\ len (blk_Transactions b) <= MaxBlockTxCount.

(** ** Lemmas on integers and lengths *)

Create HintDb wire.
Create Rewrite HintDb wire.

Lemma length_PutUint32LE v : length (PutUint32LE v) = 4%nat.
Proof. apply length_le_split. Qed.
Lemma length_PutUint64LE v : length (PutUint64LE v) = 8%nat.
Proof. apply length_le_split. Qed.

Lemma ReadUintLE_Put32 v : is_u32 v -> ReadUintLE (PutUint32LE v) = v.
Proof. intros H. unfold ReadUintLE, PutUint32LE. rewrite le_combine_split. by apply Z.mod_small. Qed.
Lemma ReadUintLE_wrap32 v : ReadUintLE (PutUint32LE v) = u32 v.
Proof. unfold ReadUintLE, PutUint32LE. by rewrite le_combine_split. Qed.
Lemma ReadUintLE_Put64 v : is_u64 v -> ReadUintLE (PutUint64LE v) = v.
Proof. intros H. unfold ReadUintLE, PutUint64LE. rewrite le_combine_split. by apply Z.mod_small. Qed.

Lemma Put32_ReadUintLE b : length b = 4%nat -> PutUint32LE (ReadUintLE b) = b.
Proof. intros H. apply split_le_combine'. done. Qed.
Lemma Put64_ReadUintLE b : length b = 8%nat -> PutUint64LE (ReadUintLE b) = b.
Proof. intros H. apply split_le_combine'. done. Qed.
Lemma ReadUintLE_u32 b : length b = 4%nat -> is_u32 (ReadUintLE b).
Proof. apply le_combine_is_u32. Qed.
Lemma ReadUintLE_u64 b : length b = 8%nat -> is_u64 (ReadUintLE b).
Proof. apply le_combine_is_u64. Qed.

#[export] Hint Resolve ReadUintLE_u32 ReadUintLE_u64 : wire.
#[export] Hint Rewrite length_PutUint32LE length_PutUint64LE @length_app : wire.

Lemma PutUint32LE_inj a b : is_u32 a -> is_u32 b -> PutUint32LE a = PutUint32LE b -> a = b.
Proof. intros Ha Hb H. apply (f_equal ReadUintLE) in H. by rewrite !ReadUintLE_Put32 in H. Qed.

Lemma length_PutVarInt v : is_u64 v -> len (PutVarInt v) = VarIntSize v.
Proof.
  intros _. unfold PutVarInt, VarIntSize, PutUint16LE, PutUint32LE, PutUint64LE.
  repeat case_match; cbn [length]; rewrite ?length_le_split; done.
Qed.

Lemma byte_at_of_Z z l : 0 <= z < 256 -> byte_at (byte.of_Z z :: l) 0 = z.
Proof. intros. unfold byte_at; simpl. rewrite byte.unsigned_of_Z. by apply Z.mod_small. Qed.

Lemma ReadFull_cons b r : ReadFull 1 (b :: r) = Ok ([b], r).
Proof. done. Qed.

Lemma ReadFull_le n v r : ReadFull n (le_split n v ++ r) = Ok (le_split n v, r).
Proof. apply ReadFull_app, length_le_split. Qed.

(** ** Compact-size integers: exact inverse, one encoding per value *)

#[export] Instance varint_RoundTrip : RoundTrip is_u64 PutVarInt ReadVarInt.
Proof.
  intros v r Hv. unfold is_u64 in Hv.
  unfold PutVarInt, ReadVarInt, PutUint16LE, PutUint32LE, PutUint64LE, ReadUintLE.
  destruct (Z.ltb_spec v 0xFD); [|destruct (Z.leb_spec v 0xFFFF); [|destruct (Z.leb_spec v 0xFFFFFFFF)]];
    cbn [app]; rewrite ReadFull_cons; cbn [rbind]; rewrite byte_at_of_Z by lia; cbn -[Z.ltb Z.leb Z.eqb le_split le_combine].
  - by ztest.
  - rewrite ReadFull_le. cbn [rbind]. rewrite le_combine_split. unfold u16.
    change (2 ^ (Z.of_nat 2 * 8)) with (2^16). rewrite ?Z.mod_mod, Z.mod_small by lia.
    by ztest.
  - rewrite ReadFull_le. cbn [rbind]. rewrite le_combine_split. unfold u32.
    change (2 ^ (Z.of_nat 4 * 8)) with (2^32). rewrite ?Z.mod_mod, Z.mod_small by lia.
    by ztest.
  - rewrite ReadFull_le. cbn [rbind]. rewrite le_combine_split.
    change (2 ^ (Z.of_nat 8 * 8)) with (2^64). rewrite ?Z.mod_mod, Z.mod_small by lia.
    by ztest.
Qed.

Lemma varint_wide n (noncanon : Z -> bool) e r0 v r :
  (let* (buf, r1) := ReadFull n r0 in
   if noncanon (le_combine buf) then Err (e (le_combine buf)) else Ok (le_combine buf, r1))
  = Ok (v, r) ->
  r0 = le_split n v ++ r /\ 0 <= v < 2 ^ (8 * Z.of_nat n) /\ noncanon v = false.
Proof.
  intros H. apply rbind_Ok in H as ([buf r1] & Hr & H). apply ReadFull_Ok in Hr as [-> <-].
  destruct (noncanon _) eqn:Ht; [done|]. injection H as <- <-.
  rewrite split_le_combine. pose proof (le_combine_bound buf). done.
Qed.

#[export] Instance varint_Canonical : Canonical is_u64 PutVarInt ReadVarInt.
Proof.
  intros bs v r H. unfold ReadVarInt in H.
  apply rbind_Ok in H as ([disc r0] & Hd & H).
  apply ReadFull_Ok in Hd as [-> Hl]. destruct disc as [|b [|]]; try done. clear Hl.
  unfold byte_at in H; simpl in H. pose proof (byte.unsigned_range b) as Hb.
  pose proof (byte.of_Z_unsigned b) as Hd. revert H Hb Hd.
  generalize (byte.unsigned b) as d. intros d H Hb <-.
  unfold PutVarInt, PutUint16LE, PutUint32LE, PutUint64LE, u16, u32, is_u64.
  destruct (Z.eqb_spec d 0xFD) as [E|]; [|destruct (Z.eqb_spec d 0xFE) as [E|];
    [|destruct (Z.eqb_spec d 0xFF) as [E|]]]; try rewrite E.
  - apply (varint_wide 2 (fun v => v <? 253)) in H as (-> & Hv & Ht). bool_to_prop.
    ztest. rewrite Z.mod_small by lia. split; [done|lia].
  - apply (varint_wide 4 (fun v => v <=? 65535)) in H as (-> & Hv & Ht). bool_to_prop.
    ztest. rewrite Z.mod_small by lia. split; [done|lia].
  - apply (varint_wide 8 (fun v => v <=? 4294967295)) in H as (-> & Hv & Ht). bool_to_prop.
    ztest. split; [done|lia].
  - injection H as <- <-. ztest. split; [done|lia].
Qed.

(** [ReadVarIntFromBytes] agrees with [ReadVarInt] on every input. *)
Lemma slice_app_drop {A} i (l : list A) : (i <= length l)%nat -> slice i (length l) l = drop i l.
Proof. intros. unfold slice. apply take_ge. rewrite length_drop. lia. Qed.

Lemma ReadVarIntFromBytes_spec data :
  match ReadVarIntFromBytes data, ReadVarInt data with
  | Ok v, Ok (v', r) => v = v' /\ data = PutVarInt v ++ r
  | Err _, Err _ => True
  | _, _ => False
  end.
Proof.
  assert (forall n (noncanon : Z -> bool) e f tl, (1 <= n)%nat ->
    match (if len (f :: tl) <? Z.of_nat (S n) then Err (TooShort (len (f :: tl)))
           else if noncanon (le_combine (slice 1 (S n) (f :: tl))) then Err (e (le_combine (slice 1 (S n) (f :: tl))))
           else Ok (le_combine (slice 1 (S n) (f :: tl)))),
          (let* (buf, r1) := ReadFull n tl in
           if noncanon (le_combine buf) then Err (e (le_combine buf)) else Ok (le_combine buf, r1)) with
    | Ok v, Ok (v', r) => v = v'
    | Err _, Err _ => True
    | _, _ => False
    end) as Hwide.
  { intros n noncanon e f tl Hn. unfold ReadFull, slice.
    replace (S n - 1)%nat with n by lia. cbn [drop length].
    destruct (Z.ltb_spec (Z.of_nat (S (length tl))) (Z.of_nat (S n)));
      destruct (Nat.leb_spec n (length tl)); try lia; cbn [rbind].
    - by destruct tl.
    - by destruct (noncanon _). }
  assert (forall v r, ReadVarInt data = Ok (v, r) -> data = PutVarInt v ++ r) as Hcan
    by (intros v r H; by apply decode_canonical in H as [? _]).
  enough (match ReadVarIntFromBytes data, ReadVarInt data with
    | Ok v, Ok (v', r) => v = v' | Err _, Err _ => True | _, _ => False end) as H.
  { destruct (ReadVarIntFromBytes data), (ReadVarInt data) as [[v' r]|]; try done. subst. auto. }
  destruct data as [|b tl]; [done|].
  unfold ReadVarIntFromBytes, ReadVarInt. cbn [length]. rewrite ReadFull_cons.
  destruct (Z.eqb_spec (Z.of_nat (S (length tl))) 0); [lia|]. cbn [rbind].
  change (byte_at (b :: tl) 0) with (byte_at [b] 0).
  destruct (_ =? 0xFD); [exact (Hwide 2%nat (fun v => v <? 253) (NonCanonical 253) b tl ltac:(lia))|].
  destruct (_ =? 0xFE); [exact (Hwide 4%nat (fun v => v <=? 65535) (NonCanonical 254) b tl ltac:(lia))|].
  destruct (_ =? 0xFF);
    [exact (Hwide 8%nat (fun v => v <=? 4294967295) (NonCanonical 255) b tl ltac:(lia))|done].
Qed.

Lemma ReadVarIntFromBytes_enc v r : is_u64 v -> ReadVarIntFromBytes (PutVarInt v ++ r) = Ok v.
Proof.
  intros Hv. pose proof (ReadVarIntFromBytes_spec (PutVarInt v ++ r)) as H.
  rewrite decode_encode in H by done.
  destruct (ReadVarIntFromBytes _) as [v'|]; [|done]. by destruct H as [-> _].
Qed.

Lemma VarIntSize_bounds v : 1 <= VarIntSize v <= 9.
Proof. unfold VarIntSize. ztest; done. Qed.

(** ** Transactions, headers, blocks: round trip and canonicity *)

#[global] Opaque PutUint16LE PutUint32LE PutUint64LE ReadUintLE PutVarInt ReadVarInt VarIntSize.

Lemma script_len_u64 (s : list byte) : wf_script s -> is_u64 (len s).
Proof. unfold wf_script, MaxScriptSize, is_u64. lia. Qed.
Lemma count_u64 (n : nat) : Z.of_nat n <= 50000 -> is_u64 (Z.of_nat n).
Proof. unfold is_u64. lia. Qed.
#[export] Hint Resolve script_len_u64 count_u64 : wire.

(** One read of an encoding that starts the input. *)
Ltac read_step :=
  rewrite <- ?app_assoc;
  first
  [ rewrite ReadFull_app by (rewrite ?length_PutUint32LE, ?length_PutUint64LE; first [done | lia])
  | rewrite (decode_encode (dec := ReadVarInt)) by (eauto with wire) ];
  cbn [rbind rwrap].
Ltac read_all := repeat read_step.

(** Turn each successful read in the context into an equation on the input. *)
Ltac unread :=
  repeat match goal with
  | H : ReadFull _ _ = Ok _ |- _ => apply ReadFull_Ok in H as [-> ?]
  | H : ReadVarInt _ = Ok _ |- _ => apply decode_canonical in H as [-> ?]
  | H : ReadN _ _ _ _ _ = Ok _ |- _ => apply ReadN_canonical in H as (-> & ? & ?)
  end.

(** Name the counts that were read by the lengths of what was read. *)
Ltac norm_len :=
  unfold is_u64, wf_script in *;
  repeat match goal with H : length ?l = Z.to_nat ?z |- _ =>
    let E := fresh in assert (z = len l) as E by lia; clear H; subst z end.

#[export] Instance input_RoundTrip : RoundTrip wf_input in_Serialize in_Deserialize.
Proof.
  intros [[h ix] s sq] r ([Hh Hix] & Hs & Hsq). simpl in *.
  unfold in_Serialize, in_Deserialize; simpl. read_all.
  unfold wf_script in Hs. ztest. rewrite ?Nat2Z.id. read_all.
  by rewrite !ReadUintLE_Put32 by done.
Qed.

#[export] Instance input_Canonical : Canonical wf_input in_Serialize in_Deserialize.
Proof.
  intros bs i r H. unfold in_Deserialize in H. inv_ok. unread. bool_to_prop. norm_len.
  unfold in_Serialize; simpl. rewrite !Put32_ReadUintLE by done.
  split; [by rewrite <- !app_assoc|].
  repeat split; simpl; auto with wire; by apply ReadUintLE_u32.
Qed.

#[export] Instance output_RoundTrip : RoundTrip wf_output out_Serialize out_Deserialize.
Proof.
  intros [v s] r (Hv & Hs). simpl in *.
  unfold out_Serialize, out_Deserialize; simpl. read_all.
  unfold wf_script in Hs. ztest. rewrite ?Nat2Z.id. read_all.
  by rewrite ReadUintLE_Put64 by done.
Qed.

#[export] Instance output_Canonical : Canonical wf_output out_Serialize out_Deserialize.
Proof.
  intros bs i r H. unfold out_Deserialize in H. inv_ok. unread. bool_to_prop. norm_len.
  unfold out_Serialize; simpl. rewrite Put64_ReadUintLE by done.
  split; [by rewrite <- !app_assoc|].
  split; simpl; [by apply ReadUintLE_u64|done].
Qed.

#[export] Instance tx_RoundTrip : RoundTrip wf_tx tx_Serialize tx_Deserialize.
Proof.
  intros [ver ins outs lock] r (Hver & Hlock & Hins & Hni & Houts & Hno). simpl in *.
  unfold MaxTxInputs, MaxTxOutputs in *.
  unfold tx_Serialize, tx_Deserialize, MaxTxInputs, MaxTxOutputs; simpl.
  assert (is_u64 (len ins)) by (apply count_u64; lia).
  assert (is_u64 (len outs)) by (apply count_u64; lia).
  read_all. ztest. rewrite Nat2Z.id, <- ?app_assoc, ReadN_encode by done. cbn [rbind].
  read_all. ztest. rewrite Nat2Z.id, <- ?app_assoc, ReadN_encode by done. cbn [rbind].
  read_all. by rewrite !ReadUintLE_Put32 by done.
Qed.

#[export] Instance tx_Canonical : Canonical wf_tx tx_Serialize tx_Deserialize.
Proof.
  intros bs i r H. unfold tx_Deserialize in H. inv_ok. unread. bool_to_prop. norm_len.
  unfold tx_Serialize, wf_tx; simpl. rewrite !Put32_ReadUintLE by done.
  split; [by rewrite <- !app_assoc|].
  repeat split; try lia; try apply ReadUintLE_u32; done.
Qed.

#[export] Instance header_RoundTrip : RoundTrip wf_header hdr_SerializeToBytes hdr_Deserialize.
Proof.
  intros [ver prev root ts bits nonce] r (Hv & Hp & Hm & Ht & Hb & Hn). simpl in *.
  unfold wf_hash, HashSize, hdr_Deserialize, hdr_SerializeToBytes in *; simpl.
  set (V := PutUint32LE ver). set (T := PutUint32LE ts).
  set (B := PutUint32LE bits). set (N := PutUint32LE nonce).
  assert (length V = 4 /\ length T = 4 /\ length B = 4 /\ length N = 4)%nat as (LV & LT & LB & LN)
    by (subst V T B N; by rewrite !length_PutUint32LE).
  rewrite ReadFull_app by (rewrite !length_app; unfold BlockHeaderSize; lia).
  cbn [rbind rwrap]. set (buf := V ++ _).
  rewrite (slice_at 0 4 buf [] V (prev ++ root ++ T ++ B ++ N)),
    (slice_at 4 36 buf V prev (root ++ T ++ B ++ N)),
    (slice_at 36 68 buf (V ++ prev) root (T ++ B ++ N)),
    (slice_at 68 72 buf (V ++ prev ++ root) T (B ++ N)),
    (slice_at 72 76 buf (V ++ prev ++ root ++ T) B N),
    (slice_at 76 80 buf (V ++ prev ++ root ++ T ++ B) N [])
    by (rewrite ?app_nil_r, ?length_app; subst buf; rewrite <- ?app_assoc; first [done | simpl; lia]).
  subst V T B N. by rewrite !ReadUintLE_Put32 by done.
Qed.

#[export] Instance header_Canonical : Canonical wf_header hdr_SerializeToBytes hdr_Deserialize.
Proof.
  intros bs h r H. unfold hdr_Deserialize, BlockHeaderSize in H. inv_ok. unread.
  unfold hdr_SerializeToBytes; simpl.
  rewrite !Put32_ReadUintLE by (apply length_slice; lia).
  rewrite !slice_slice, slice_all by (done || lia).
  split; [done|].
  repeat split; simpl; try apply ReadUintLE_u32; unfold wf_hash, HashSize;
    by rewrite length_slice by lia.
Qed.

Lemma length_hdr_SerializeToBytes h :
  wf_header h -> length (hdr_SerializeToBytes h) = BlockHeaderSize.
Proof.
  intros (_ & Hp & Hm & _). unfold hdr_SerializeToBytes, wf_hash, HashSize in *.
  rewrite !length_app, !length_PutUint32LE, Hp, Hm. done.
Qed.

#[export] Instance block_RoundTrip : RoundTrip wf_block blk_Serialize blk_Deserialize.
Proof.
  intros [h txs] r (Hh & Htx & Hn). simpl in *.
  unfold blk_Deserialize, blk_Serialize, MaxBlockTxCount in *; simpl.
  assert (is_u64 (len txs)) by (by apply count_u64).
  rewrite <- !app_assoc, decode_encode by done. cbn [rbind].
  read_all. ztest. by rewrite Nat2Z.id, ReadN_encode by done.
Qed.

#[export] Instance block_Canonical : Canonical wf_block blk_Serialize blk_Deserialize.
Proof.
  intros bs b r H. unfold blk_Deserialize in H. inv_ok. unread. bool_to_prop. norm_len.
  match goal with H : hdr_Deserialize _ = Ok _ |- _ => apply decode_canonical in H as [-> ?] end.
  unfold blk_Serialize, wf_block; simpl. by rewrite <- !app_assoc.
Qed.

(** ** Sizes *)

Lemma sum_sizes {A} (size : A -> Z) (enc : A -> list byte) (l : list A) n :
  (forall x, x ∈ l -> size x = len (enc x)) ->
  fold_left (fun n x => n + size x) l n = n + len (concat (map enc l)).
Proof.
  revert n. induction l as [|x l IH]; intros n Hs; simpl; [lia|].
  rewrite IH by set_solver. rewrite Hs by set_solver. rewrite length_app. lia.
Qed.

Lemma in_SerializeSize_spec i : wf_input i -> in_SerializeSize i = len (in_Serialize i).
Proof.
  intros ([Hh _] & Hs & _). unfold in_SerializeSize, in_Serialize, wf_hash, HashSize in *.
  rewrite <- length_PutVarInt by auto with wire.
  rewrite !length_app, !length_PutUint32LE, Hh. lia.
Qed.

Lemma out_SerializeSize_spec o : wf_output o -> out_SerializeSize o = len (out_Serialize o).
Proof.
  intros (_ & Hs). unfold out_SerializeSize, out_Serialize.
  rewrite <- length_PutVarInt by auto with wire.
  rewrite !length_app, !length_PutUint64LE. lia.
Qed.

Lemma tx_SerializeSize_spec tx : wf_tx tx -> tx_SerializeSize tx = len (tx_Serialize tx).
Proof.
  intros (_ & _ & Hi & Hni & Ho & Hno). rewrite Forall_forall in Hi; rewrite Forall_forall in Ho.
  unfold tx_SerializeSize, tx_Serialize, MaxTxInputs, MaxTxOutputs in *.
  rewrite (sum_sizes _ out_Serialize), (sum_sizes _ in_Serialize)
    by auto using in_SerializeSize_spec, out_SerializeSize_spec.
  rewrite <- !length_PutVarInt by (apply count_u64; lia).
  rewrite !length_app, !length_PutUint32LE. lia.
Qed.

(** ** The hash order *)

Lemma le_combine_cons b l : le_combine (b :: l) = byte.unsigned b + 256 * le_combine l.
Proof.
  change (le_combine (b :: l)) with (Z.lor (byte.unsigned b) (Z.shiftl (le_combine l) 8)).
  pose proof (byte.unsigned_range b). rewrite lor_shiftl_add by lia. lia.
Qed.

Lemma le_combine_snoc l b :
  le_combine (l ++ [b]) = le_combine l + 2 ^ (8 * len l) * byte.unsigned b.
Proof.
  induction l as [|c l IH]; [simpl; rewrite le_combine_1; change (le_combine []) with 0; lia|].
  cbn [app]. rewrite !le_combine_cons, IH. cbn [length]. rewrite Nat2Z.inj_succ, Z.mul_succ_r.
  rewrite Z.pow_add_r by lia. lia.
Qed.

(** Reading a little-endian number from its most significant byte down. *)
Lemma Less_from_spec n h o :
  (n <= length h)%nat -> (n <= length o)%nat ->
  Less_from n h o = (le_combine (take n h) <? le_combine (take n o)).
Proof.
  induction n as [|n IH]; intros Hh Ho; [done|].
  destruct (lookup_lt_is_Some_2 h n) as [a Ha]; [lia|].
  destruct (lookup_lt_is_Some_2 o n) as [b Hb]; [lia|].
  rewrite (take_S_r h n a), (take_S_r o n b), !le_combine_snoc by done.
  simpl. unfold byte_at.
  rewrite (nth_lookup_Some h n Byte.x00 a), (nth_lookup_Some o n Byte.x00 b) by done.
  rewrite IH by lia.
  pose proof (le_combine_bound (take n h)) as Bh. pose proof (le_combine_bound (take n o)) as Bo.
  rewrite !length_take, !Nat.min_l in * by lia.
  set (M := 2 ^ (8 * Z.of_nat n)) in *.
  pose proof (byte.unsigned_range a). pose proof (byte.unsigned_range b).
  rewrite Z.gtb_ltb. destruct (Z.ltb_spec (byte.unsigned a) (byte.unsigned b)).
  - symmetry. apply Z.ltb_lt. nia.
  - destruct (Z.ltb_spec (byte.unsigned b) (byte.unsigned a)).
    + symmetry. apply Z.ltb_ge. nia.
    + assert (byte.unsigned a = byte.unsigned b) as -> by lia. ztest; lia.
Qed.

Lemma Less_numeric h o : wf_hash h -> wf_hash o -> Less h o = (le_combine h <? le_combine o).
Proof.
  unfold wf_hash. intros Hh Ho. unfold Less. rewrite Less_from_spec by lia.
  by rewrite !take_ge by lia.
Qed.

Lemma LessOrEqual_numeric h o :
  wf_hash h -> wf_hash o -> LessOrEqual h o = (le_combine h <=? le_combine o).
Proof.
  intros Hh Ho. unfold LessOrEqual. rewrite Less_numeric by done.
  case_bool_decide as E; simpl.
  - subst. symmetry. apply Z.leb_refl.
  - assert (le_combine h <> le_combine o)
      by (intros HE; apply E, le_combine_inj; unfold wf_hash in *; congruence).
    ztest; done.
Qed.

(** ** Hexadecimal round trips *)

Lemma fromHexChar_hextable n : 0 <= n < 16 -> fromHexChar (hextable n) = Some n.
Proof.
  intros Hn. enough (Forall (fun k => fromHexChar (hextable (Z.of_nat k)) = Some (Z.of_nat k)) (seq 0 16)) as H.
  { rewrite <- (Z2Nat.id n) by lia. rewrite Forall_forall in H. apply H, elem_of_seq. lia. }
  by repeat constructor.
Qed.

Lemma hex_roundtrip b : hex_DecodeString (hex_EncodeToString b) = Ok b.
Proof.
  induction b as [|c b IH]; [done|].
  unfold hex_EncodeToString in *. cbn [map concat app hex_DecodeString].
  pose proof (byte.unsigned_range c).
  set (z := byte.unsigned c) in *.
  assert (0 <= z / 16 < 16) by (split; [apply Z.div_pos; lia|apply Z.div_lt_upper_bound; lia]).
  pose proof (Z.mod_pos_bound z 16 ltac:(lia)).
  rewrite !fromHexChar_hextable by done.
  rewrite IH. cbn [rbind]. rewrite <- Z.div_mod by lia. subst z. by rewrite byte.of_Z_unsigned.
Qed.

(** ** Properties *)

(** C39. The block wire and disk format is exact: [Block.Deserialize] returns block [b]
    and leaves [r] if and only if the input is [b]'s serialization followed by [r] and
    [b] is within the types' ranges and the limits on inputs, outputs, scripts and
    transactions.  So every block in those limits is read back unchanged, and no second
    byte string decodes to it (no malleability of the encoding). *)
Theorem block_wire_format bs b r :
  blk_Deserialize bs = Ok (b, r) <-> wf_block b /\ bs = blk_Serialize b ++ r.
Proof.
  split.
  - intros H. apply (decode_canonical (dec := blk_Deserialize)) in H as [-> ?]. done.
  - intros [? ->]. by apply decode_encode.
Qed.

(** The same for a transaction on the wire: [Transaction.Deserialize] accepts
    exactly the canonical serialization of a transaction in the limits, and
    [SerializeSize] is the number of bytes it consumed. *)
Theorem tx_wire_format bs tx r :
  tx_Deserialize bs = Ok (tx, r)
  <-> wf_tx tx /\ bs = tx_Serialize tx ++ r /\ tx_SerializeSize tx = len bs - len r.
Proof.
  split.
  - intros H. apply (decode_canonical (dec := tx_Deserialize)) in H as [-> ?].
    split; [done|]. split; [done|]. rewrite length_app, tx_SerializeSize_spec by done. lia.
  - intros (? & -> & _). by apply decode_encode.
Qed.

(** The slice and the stream reader of compact-size integers agree: on any input
    both fail or both return the same value, whose [VarIntSize] is the number of bytes
    the stream reader consumed and whose encoding is exactly those bytes. *)
Theorem varint_readers_agree data :
  match ReadVarIntFromBytes data, ReadVarInt data with
  | Ok v, Ok (v', r) => v = v' /\ data = PutVarInt v ++ r /\ VarIntSize v = len data - len r
  | Err _, Err _ => True
  | _, _ => False
  end.
Proof.
  pose proof (ReadVarIntFromBytes_spec data) as H.
  destruct (ReadVarIntFromBytes data) as [v|], (ReadVarInt data) as [[v' r]|] eqn:E; try done.
  destruct H as [<- ->]. apply decode_canonical in E as [_ Hv].
  rewrite <- length_PutVarInt by done. rewrite length_app. split; [done|]. split; [done|lia].
Qed.

(** [Hash.Less] and [Hash.LessOrEqual], the byte loops used for proof-of-work
    targets, compare the hashes as 256-bit little-endian integers. *)
Theorem hash_order_is_numeric h o :
  wf_hash h -> wf_hash o ->
  Less h o = (le_combine h <? le_combine o) /\
  LessOrEqual h o = (le_combine h <=? le_combine o).
Proof. split; [by apply Less_numeric | by apply LessOrEqual_numeric]. Qed.

Lemma hash_order_is_numeric_witness :
  let h := PutUint64LE 5 ++ replicate 24 Byte.x00 in
  Less ZeroHash h = true /\ LessOrEqual h ZeroHash = false.
Proof.
  intros h. destruct (hash_order_is_numeric ZeroHash h) as [-> _]; [done|done|].
  destruct (hash_order_is_numeric h ZeroHash) as [_ ->]; [done|done|]. vm_compute. done.
Defined.

(** Parsing the printed form of a hash gives the hash back, both in internal
    byte order ([String]/[HashFromHex]) and in display order
    ([ReverseString]/[HashFromReverseHex]). *)
Theorem hash_hex_roundtrip h :
  wf_hash h ->
  HashFromHex (hash_String h) = Ok h /\ HashFromReverseHex (ReverseString h) = Ok h.
Proof.
  unfold wf_hash, HashFromHex, HashFromReverseHex, hash_String, ReverseString. intros Hh.
  rewrite !hex_roundtrip. cbn [rbind]. rewrite length_rev, Hh. simpl. by rewrite rev_involutive.
Qed.

Lemma hash_hex_roundtrip_witness :
  HashFromReverseHex (ReverseString (PutUint64LE 0xabcdef ++ replicate 24 Byte.x00))
  = Ok (PutUint64LE 0xabcdef ++ replicate 24 Byte.x00).
Proof. apply hash_hex_roundtrip. done. Defined.
