(* ===== verification/Sha256.v ===== *)
(** * SHA-256

    The function [crypto/sha256.Sum256] of Go's standard library (FIPS 180-4), which
    every identity of the chain rests on: block hashes, transaction ids, Merkle roots,
    signature hashes, message and address checksums.  It is executable, so that the
    network's hardcoded genesis hashes are checked by evaluation. *)
From S2P Require Import Prelude.

Definition word32 (z : Z) : Z := Z.land z 0xffffffff.
Definition rotr (n x : Z) : Z := Z.lor (Z.shiftr x n) (word32 (Z.shiftl x (32 - n))).

Definition Ch (x y z : Z) : Z := Z.lxor (Z.land x y) (Z.land (Z.lxor x 0xffffffff) z).
Definition Maj (x y z : Z) : Z := Z.lxor (Z.lxor (Z.land x y) (Z.land x z)) (Z.land y z).
Definition Sigma0 (x : Z) : Z := Z.lxor (Z.lxor (rotr 2 x) (rotr 13 x)) (rotr 22 x).
Definition Sigma1 (x : Z) : Z := Z.lxor (Z.lxor (rotr 6 x) (rotr 11 x)) (rotr 25 x).
Definition sigma0 (x : Z) : Z := Z.lxor (Z.lxor (rotr 7 x) (rotr 18 x)) (Z.shiftr x 3).
Definition sigma1 (x : Z) : Z := Z.lxor (Z.lxor (rotr 17 x) (rotr 19 x)) (Z.shiftr x 10).

(** The constants are the first 32 bits of the fractional parts of the cube roots (rounds)
    and of the square roots (initial state) of the first primes. *)
Fixpoint sieve (candidates : nat) (n : Z) (primes : list Z) : list Z :=
  match candidates with
  | O => primes
  | S candidates =>
      sieve candidates (n + 1)
        (if forallb (fun q => negb (n mod q =? 0)) primes then primes ++ [n] else primes)
  end.

(** The largest [r] of at most [bits] bits with [r^k <= z]. *)
Fixpoint iroot (bits : nat) (k z r : Z) : Z :=
  match bits with
  | O => r
  | S bits => let r' := r + Z.shiftl 1 (Z.of_nat bits) in iroot bits k z (if r' ^ k <=? z then r' else r)
  end.

Definition root_bits (k q : Z) : Z := word32 (iroot 40 k (Z.shiftl q (32 * k)) 0).
Definition primes64 : list Z := Eval vm_compute in sieve 310 2 [].
Definition round_constants : list Z := Eval vm_compute in map (root_bits 3) primes64.

(** The message schedule: [window] holds the next 16 words, oldest first. *)
Fixpoint schedule (n : nat) (window : list Z) : list Z :=
  match n, window with
  | S n, w0 :: rest =>
      let w := word32 (sigma1 (nth 13 rest 0) + nth 8 rest 0 + sigma0 (nth 0 rest 0) + w0) in
      w0 :: schedule n (rest ++ [w])
  | _, _ => []
  end.

Record sha_state := Sha { sA : Z; sB : Z; sC : Z; sD : Z; sE : Z; sF : Z; sG : Z; sH : Z }.

Definition sha_init : sha_state := Eval vm_compute in
  match map (root_bits 2) (take 8 primes64) with
  | [a; b; c; d; e; f; g; h] => Sha a b c d e f g h
  | _ => Sha 0 0 0 0 0 0 0 0
  end.

Definition sha_round (s : sha_state) (kw : Z * Z) : sha_state :=
  let t1 := sH s + Sigma1 (sE s) + Ch (sE s) (sF s) (sG s) + fst kw + snd kw in
  let t2 := Sigma0 (sA s) + Maj (sA s) (sB s) (sC s) in
  Sha (word32 (t1 + t2)) (sA s) (sB s) (sC s) (word32 (sD s + t1)) (sE s) (sF s) (sG s).

Definition sha_add (s t : sha_state) : sha_state :=
  Sha (word32 (sA s + sA t)) (word32 (sB s + sB t)) (word32 (sC s + sC t)) (word32 (sD s + sD t))
      (word32 (sE s + sE t)) (word32 (sF s + sF t)) (word32 (sG s + sG t)) (word32 (sH s + sH t)).

Fixpoint chunks (n fuel : nat) (l : list byte) : list (list byte) :=
  match fuel, l with
  | S fuel, _ :: _ => take n l :: chunks n fuel (drop n l)
  | _, _ => []
  end.

Definition sha_compress (s : sha_state) (block : list byte) : sha_state :=
  let words := map (fun w => le_combine (rev w)) (chunks 4 16 block) in
  sha_add s (fold_left sha_round (zip round_constants (schedule 64 words)) s).

Definition sha_pad (l : list byte) : list byte :=
  l ++ Byte.x80 :: replicate (Z.to_nat ((55 - len l) mod 64)) Byte.x00 ++ rev (le_split 8 (8 * len l)).

Definition sha256_Sum256 (data : list byte) : list byte :=
  let p := sha_pad data in
  match fold_left sha_compress (chunks 64 (length p) p) sha_init with
  | Sha a b c d e f g h => concat (map (fun w => rev (le_split 4 w)) [a; b; c; d; e; f; g; h])
  end.

Lemma length_sha256 data : length (sha256_Sum256 data) = 32%nat.
Proof.
  unfold sha256_Sum256. destruct (fold_left _ _ _). cbn [map concat].
  rewrite !length_app, !length_rev, !length_le_split. done.
Qed.

(** The standard's test vectors for one and for two blocks. *)
Example sha256_abc :
  sha256_Sum256 (bytes_of_string "abc")
  = rev (le_split 32 0xba7816bf8f01cfea414140de5dae2223b00361a396177a9cb410ff61f20015ad).
Proof. vm_compute. reflexivity. Qed.
Example sha256_448_bits :
  sha256_Sum256 (bytes_of_string "abcdbcdecdefdefgefghfghighijhijkijkljklmklmnlmnomnopnopq")
  = rev (le_split 32 0x248d6a61d20638b8e5c026930c3e6039a33ce45964ff2167f6ecedd419db06c1).
Proof. vm_compute. reflexivity. Qed.

#[global] Opaque sha256_Sum256.
