(* ===== verification/Crypto.v ===== *)
(** * Hashes, Merkle trees, standard scripts and signatures

    Models [src/internal/crypto/hash.go], [merkle.go], [keys.go] and [signature.go].

    RIPEMD-160 ([golang.org/x/crypto]) and secp256k1 ECDSA ([decred/dcrd]) are code
    outside the repository: they are the operations of the class [ECOps], and what the
    program relies on are the laws of [ECLaws]. *)
From S2P Require Import Prelude Types Sha256.
From Equations Require Import Equations.
Set Equations Transparent.

(** ** Hashes ([hash.go]) *)

Definition DoubleSHA256 (data : list byte) : Hash := sha256_Sum256 (sha256_Sum256 data).
Definition HashBlockHeader (h : BlockHeader) : Hash := DoubleSHA256 (hdr_SerializeToBytes h).
Definition HashTransaction (tx : Transaction) : Hash := DoubleSHA256 (tx_SerializeToBytes tx).

Lemma wf_DoubleSHA256 d : wf_hash (DoubleSHA256 d).
Proof. apply length_sha256. Qed.
#[global] Opaque DoubleSHA256.

(** ** Merkle trees ([merkle.go]) *)

Module Merkle.

(** [if len(level)%2 != 0 { level = append(level, level[len(level)-1]) }] *)
Definition pad (level : list Hash) : list Hash :=
  if Nat.odd (length level) then level ++ [List.last level ZeroHash] else level.

(** [for i := 0; i < len(level); i += 2 { next[i/2] = DoubleSHA256(...) }] *)
Fixpoint combine_pairs (level : list Hash) : list Hash :=
  match level with
  | a :: b :: rest => DoubleSHA256 (a ++ b) :: combine_pairs rest
  | _ => []
  end.

Definition next (level : list Hash) : list Hash := combine_pairs (pad level).

Lemma length_pad l : length (pad l) = if Nat.odd (length l) then S (length l) else length l.
Proof. unfold pad. destruct (Nat.odd _); [rewrite length_app; simpl; lia|done]. Qed.

Lemma even_pad l : Nat.even (length (pad l)) = true.
Proof.
  rewrite length_pad. destruct (Nat.odd (length l)) eqn:E.
  - rewrite Nat.even_succ. done.
  - rewrite <- Nat.negb_odd, E. done.
Qed.

Lemma length_combine_pairs l : length (combine_pairs l) = Nat.div2 (length l).
Proof.
  induction l as [|a|a b l IH] using list_pair_ind; simpl; [done|done|]. by rewrite IH.
Qed.

Lemma length_next l : length (next l) = Nat.div2 (S (length l)).
Proof.
  unfold next. rewrite length_combine_pairs, length_pad.
  destruct (Nat.odd (length l)) eqn:E; [done|].
  rewrite <- Nat.negb_even, negb_false_iff in E. by rewrite Nat.Even_div2 by (by apply Nat.even_spec).
Qed.

Lemma next_shorter a b l : (length (next (a :: b :: l)) < length (a :: b :: l))%nat.
Proof.
  rewrite length_next. cbn [length]. rewrite Nat.div2_div. apply Nat.Div0.div_lt_upper_bound. lia.
Qed.

(** [for len(level) > 1 { ... level = next }; return level[0]]; the empty level does
    not occur, [MerkleRoot] returns before the loop. *)
Equations? loop (level : list Hash) : Hash by wf (length level) lt :=
  loop [] := ZeroHash;
  loop [h] := h;
  loop (a :: b :: rest) := loop (next (a :: b :: rest)).
Proof. apply next_shorter. Defined.
End Merkle.

Definition MerkleRoot (hashes : list Hash) : Hash :=
  if (length hashes =? 0)%nat then ZeroHash else Merkle.loop hashes.

Definition ComputeMerkleRoot (txs : list Transaction) : Hash :=
  if (length txs =? 0)%nat then ZeroHash else MerkleRoot (map HashTransaction txs).

(** ** External cryptography *)

Class ECOps := {
  PrivateKey : Type;
  PublicKey : Type;
  Signature : Type;
  ripemd160 : list byte -> list byte;
  privkey_from_bytes : list byte -> PrivateKey;
  PubKey : PrivateKey -> PublicKey;
  SerializeCompressed : PublicKey -> list byte;
  ParsePubKey : list byte -> option PublicKey;
  ecdsa_Sign : PrivateKey -> list byte -> Signature;
  sig_Serialize : Signature -> list byte;
  ParseDERSignature : list byte -> option Signature;
  sig_Verify : Signature -> list byte -> PublicKey -> bool
}.

(** Documented behaviour of those packages: RIPEMD-160 digests have 20 bytes,
    compressed keys 33, DER signatures between 8 and 72; what is serialized parses
    back; a signature verifies under the key that made it. *)
Class ECLaws (O : ECOps) : Prop := {
  ripemd160_size d : length (ripemd160 d) = 20%nat;
  compressed_size k : length (SerializeCompressed k) = 33%nat;
  der_size s : (8 <= length (sig_Serialize s) <= 72)%nat;
  parse_compressed k : ParsePubKey (SerializeCompressed k) = Some k;
  parse_der s : ParseDERSignature (sig_Serialize s) = Some s;
  sign_verify k h : sig_Verify (ecdsa_Sign k h) h (PubKey k) = true
}.

(** ** Keys and standard scripts ([keys.go]) *)

Definition PrivKeySize : Z := 32.
Definition CompressedPubSize : Z := 33.
Definition PubKeyHashSize : nat := 20.

Definition OpDup : Z := 0x76.
Definition OpHash160 : Z := 0xa9.
Definition OpEqualVerify : Z := 0x88.
Definition OpCheckSig : Z := 0xac.
Definition SigHashAll : Z := 0x01.

Inductive CryptoErr :=
| BadPrivKeySize (n : Z)
| BadPubKeySize (n : Z)
| BadPubKey
| InputIndexRange (idx n : Z)
| SigTooShort (n : Z)
| UnsupportedSigHash (t : Z)
| BadDER
| SigVerifyFailed.

Section keys.
Context `{O : ECOps}.

Definition PrivKeyFromBytes (b : list byte) : result CryptoErr PrivateKey :=
  check negb (len b =? PrivKeySize) else BadPrivKeySize (len b);
  Ok (privkey_from_bytes b).

Definition PubKeyFromBytes (b : list byte) : result CryptoErr PublicKey :=
  check negb (len b =? CompressedPubSize) else BadPubKeySize (len b);
  match ParsePubKey b with Some k => Ok k | None => Err BadPubKey end.

Definition Hash160 (data : list byte) : list byte := ripemd160 (sha256_Sum256 data).
Definition PubKeyHash (compressedPubKey : list byte) : list byte := Hash160 compressedPubKey.
End keys.

Definition MakeP2PKHScript (pubKeyHash : list byte) : list byte :=
  bytes_of [OpDup; OpHash160; 0x14] ++ pubKeyHash ++ bytes_of [OpEqualVerify; OpCheckSig].

Definition MakeP2PKHScriptFromPubKey `{ECOps} (compressedPubKey : list byte) : list byte :=
  MakeP2PKHScript (PubKeyHash compressedPubKey).

Definition MakeP2PKHSignatureScript (sig compressedPubKey : list byte) : list byte :=
  [byte.of_Z (len sig)] ++ sig ++ [byte.of_Z (len compressedPubKey)] ++ compressedPubKey.

Definition IsP2PKHScript (script : list byte) : bool :=
  (len script =? 25) &&
  (byte_at script 0 =? OpDup) &&
  (byte_at script 1 =? OpHash160) &&
  (byte_at script 2 =? 0x14) &&
  (byte_at script 23 =? OpEqualVerify) &&
  (byte_at script 24 =? OpCheckSig).

(** [nil] is [None]. *)
Definition ExtractP2PKHHash (script : list byte) : option (list byte) :=
  if negb (IsP2PKHScript script) then None else Some (slice 3 23 script).

Definition IsUnspendableScript (script : list byte) : bool :=
  if len script =? 0 then true
  else if byte_at script 0 =? 0x6a then true
  else false.

Definition MakeOpReturnScript (data : list byte) : list byte :=
  let data := if len data >? 80 then take 80 data else data in
  byte.of_Z 0x6a :: byte.of_Z (len data) :: data.

(** The copy of the transaction that is hashed: all input scripts cleared but that of
    the input being signed, which carries [subscript]. *)
Definition sighash_input (inputIdx : Z) (subscript : list byte) (i : Z) (ti : TxInput) : TxInput :=
  {| in_PreviousOutPoint := in_PreviousOutPoint ti;
     in_SignatureScript := if i =? inputIdx then subscript else [];
     in_Sequence := in_Sequence ti |}.

Definition sighash_copy (tx : Transaction) (inputIdx : Z) (subscript : list byte) : Transaction :=
  {| tx_Version := tx_Version tx;
     tx_Inputs := imap (fun i ti => sighash_input inputIdx subscript (Z.of_nat i) ti) (tx_Inputs tx);
     tx_Outputs := tx_Outputs tx;
     tx_LockTime := tx_LockTime tx |}.

Definition ComputeSigHash (tx : Transaction) (inputIdx : Z) (subscript : list byte)
  : result CryptoErr Hash :=
  check (inputIdx <? 0) || (len (tx_Inputs tx) <=? inputIdx)
    else InputIndexRange inputIdx (len (tx_Inputs tx));
  let data := tx_SerializeToBytes (sighash_copy tx inputIdx subscript) in
  Ok (DoubleSHA256 (data ++ bytes_of [SigHashAll; 0; 0; 0])).

(** ** Signatures ([signature.go]) *)

Section signatures.
Context `{O : ECOps}.

Definition SignTransaction (tx : Transaction) (inputIdx : Z) (subscript : list byte)
    (privKey : PrivateKey) : result CryptoErr (list byte) :=
  let* sigHash := ComputeSigHash tx inputIdx subscript in
  let sig := ecdsa_Sign privKey sigHash in
  Ok (sig_Serialize sig ++ bytes_of [SigHashAll]).

Definition VerifySignature (tx : Transaction) (inputIdx : Z) (subscript sigWithHashType : list byte)
    (pubKey : PublicKey) : result CryptoErr unit :=
  check len sigWithHashType <? 2 else SigTooShort (len sigWithHashType);
  let hashType := byte_at sigWithHashType (length sigWithHashType - 1) in
  check negb (hashType =? SigHashAll) else UnsupportedSigHash hashType;
  let derSig := take (length sigWithHashType - 1) sigWithHashType in
  match ParseDERSignature derSig with
  | None => Err BadDER
  | Some sig =>
      let* sigHash := ComputeSigHash tx inputIdx subscript in
      check negb (sig_Verify sig sigHash pubKey) else SigVerifyFailed;
      Ok tt
  end.

Definition SignInput (tx : Transaction) (inputIdx : Z) (prevPkScript : list byte)
    (privKey : PrivateKey) : result CryptoErr (list byte) :=
  let* sig := SignTransaction tx inputIdx prevPkScript privKey in
  let pubKey := SerializeCompressed (PubKey privKey) in
  Ok (MakeP2PKHSignatureScript sig pubKey).
End signatures.

(** ** Lemmas: Merkle trees *)

Module MerkleFacts.
Import Merkle.

(** The 64-byte strings that are hashed at one level. *)
Fixpoint pair_preimages (level : list Hash) : list (list byte) :=
  match level with
  | a :: b :: rest => (a ++ b) :: pair_preimages rest
  | _ => []
  end.

(** All the strings hashed while computing a root. *)
Equations? preimages (level : list Hash) : list (list byte) by wf (length level) lt :=
  preimages [] := [];
  preimages [h] := [];
  preimages (a :: b :: rest) :=
    pair_preimages (pad (a :: b :: rest)) ++ preimages (next (a :: b :: rest)).
Proof. apply next_shorter. Defined.

(** No two different strings of [l] have the same double SHA-256. *)
Definition collision_free (l : list (list byte)) : Prop :=
  forall x y, x ∈ l -> y ∈ l -> DoubleSHA256 x = DoubleSHA256 y -> x = y.

(** Decided by hashing every string once. *)
#[export] Instance collision_free_dec l : Decision (collision_free l).
Proof.
  refine (cast_if (decide (NoDup (DoubleSHA256 <$> remove_dups l)))).
  - intros x y Hx Hy E. rewrite <- elem_of_remove_dups in Hx, Hy. apply list_elem_of_lookup in Hx as [i Hx], Hy as [j Hy].
    assert (i = j) as ->; [|congruence].
    eapply NoDup_lookup; [exact n|by rewrite list_lookup_fmap, Hx|by rewrite list_lookup_fmap, Hy, E].
  - intros H. apply n, NoDup_fmap_2_strong; [|apply NoDup_remove_dups].
    intros x y Hx Hy. apply H; by rewrite <- elem_of_remove_dups.
Defined.

Lemma collision_free_mono l l' : collision_free l -> l' ⊆ l -> collision_free l'.
Proof. intros C S x y Hx Hy. apply C; auto. Qed.

Lemma wf_combine_pairs l : Forall wf_hash (combine_pairs l).
Proof.
  induction l as [|a|a b l IH] using list_pair_ind; simpl; constructor; [apply wf_DoubleSHA256|done].
Qed.

Lemma wf_pad l : Forall wf_hash l -> Forall wf_hash (pad l).
Proof.
  intros H. unfold pad. destruct (Nat.odd (length l)) eqn:E; [|done].
  apply Forall_app; split; [done|]. constructor; [|done].
  destruct l as [|a l] using rev_ind; [done|].
  rewrite List.last_last. apply Forall_app in H as [_ H]. by inversion H.
Qed.

Lemma combine_pairs_inj l1 l2 :
  Forall wf_hash l1 -> Forall wf_hash l2 ->
  length l1 = length l2 -> Nat.even (length l1) = true ->
  collision_free (pair_preimages l1 ++ pair_preimages l2) ->
  combine_pairs l1 = combine_pairs l2 -> l1 = l2.
Proof.
  revert l2. induction l1 as [|a|a b l1 IH] using list_pair_ind; intros l2 W1 W2 L E C H.
  - by destruct l2.
  - done.
  - destruct l2 as [|c [|d l2]]; [discriminate L|discriminate L|]. simpl in *. injection L as L. apply cons_eq_inv in H as [H1 H2].
    repeat match goal with W : Forall wf_hash (_ :: _) |- _ => inversion W; clear W; subst end.
    assert (a ++ b = c ++ d) as Hab by (apply C; [set_solver|set_solver|done]).
    apply app_inj_1 in Hab as [-> ->]; [|unfold wf_hash in *; congruence].
    do 2 f_equal. apply IH; auto. eapply collision_free_mono; [exact C|set_solver].
Qed.

Lemma pad_inj l1 l2 : length l1 = length l2 -> pad l1 = pad l2 -> l1 = l2.
Proof.
  intros L. unfold pad. rewrite L. destruct (Nat.odd _); [|done].
  intros H. by apply app_inj_1 in H as [? _].
Qed.

Lemma loop_inj n l1 l2 :
  length l1 = n -> length l2 = n -> Forall wf_hash l1 -> Forall wf_hash l2 ->
  collision_free (preimages l1 ++ preimages l2) -> loop l1 = loop l2 -> l1 = l2.
Proof.
  revert l1 l2. induction n as [n IH] using lt_wf_ind. intros l1 l2 L1 L2 W1 W2 C H.
  destruct l1 as [|a [|b r1]], l2 as [|c [|d r2]]; simpl in *; try lia; [done| |].
  - simp loop in H. by subst.
  - simp loop in H. simp preimages in C.
    set (m1 := a :: b :: r1) in *. set (m2 := c :: d :: r2) in *.
    assert (length m1 = length m2) as LL by (subst m1 m2; simpl; lia).
    apply pad_inj; [done|]. apply combine_pairs_inj; auto using wf_pad, even_pad.
    + by rewrite !length_pad, LL.
    + eapply collision_free_mono; [exact C|set_solver].
    + assert (length (next m1) = length (next m2)) as LN by (by rewrite !length_next, LL).
      apply (IH (length (next m1))); try apply wf_combine_pairs; try done.
      * subst m1. rewrite <- L1. apply next_shorter.
      * eapply collision_free_mono; [exact C|set_solver].
Qed.

Lemma loop_pad l : (1 < length l)%nat -> loop (pad l) = loop l.
Proof.
  intros L. assert (next (pad l) = next l) as E.
  { unfold next. f_equal. unfold pad at 1. pose proof (even_pad l) as Ev.
    by rewrite <- Nat.negb_even, Ev. }
  destruct l as [|a [|b r]]; simpl in L; try lia.
  assert (exists r', pad (a :: b :: r) = a :: b :: r') as [r' Hr'].
  { unfold pad. destruct (Nat.odd _); eexists; done. }
  rewrite Hr' in *. simp loop. by rewrite E.
Qed.
End MerkleFacts.

(** ** Lemmas: scripts and signature hashes *)

Lemma length_MakeP2PKHScript h :
  length h = PubKeyHashSize -> length (MakeP2PKHScript h) = 25%nat.
Proof. intros H. unfold MakeP2PKHScript. rewrite !length_app, H. done. Qed.

Lemma P2PKH_shape s :
  IsP2PKHScript s = true -> s = MakeP2PKHScript (slice 3 23 s) /\ length (slice 3 23 s) = PubKeyHashSize.
Proof.
  unfold IsP2PKHScript. intros H. bool_to_prop.
  assert (length s = 25%nat) as L by lia.
  assert (forall i z, byte_at s i = z -> nth i s Byte.x00 = byte.of_Z z) as Hb
    by (unfold byte_at; intros i z <-; symmetry; apply byte.of_Z_unsigned).
  split; [|rewrite length_slice by lia; done].
  repeat match goal with H : byte_at s _ = _ |- _ => apply Hb in H end. clear Hb.
  do 26 (destruct s as [|? s]; [simpl in L; try lia|]); [|simpl in L; lia].
  simpl in *. subst. done.
Qed.

(** The signature hash ignores the input scripts, so inputs can be signed in turn. *)
Lemma sighash_copy_scripts tx tx' idx sub :
  tx_Version tx = tx_Version tx' -> tx_LockTime tx = tx_LockTime tx' ->
  tx_Outputs tx = tx_Outputs tx' ->
  map (fun i => (in_PreviousOutPoint i, in_Sequence i)) (tx_Inputs tx)
  = map (fun i => (in_PreviousOutPoint i, in_Sequence i)) (tx_Inputs tx') ->
  sighash_copy tx idx sub = sighash_copy tx' idx sub.
Proof.
  intros Hv Hl Ho Hi. unfold sighash_copy. rewrite Hv, Hl, Ho. f_equal.
  revert Hi. generalize (tx_Inputs tx') as l'. generalize (tx_Inputs tx) as l.
  assert (forall l l' k, map (fun i => (in_PreviousOutPoint i, in_Sequence i)) l
    = map (fun i => (in_PreviousOutPoint i, in_Sequence i)) l' ->
    imap (fun i ti => sighash_input idx sub (Z.of_nat (k + i)) ti) l
    = imap (fun i ti => sighash_input idx sub (Z.of_nat (k + i)) ti) l') as H.
  { induction l as [|x l IH]; intros [|y l'] k E; try done. simpl in *. injection E as E1 E2 E3.
    f_equal; [unfold sighash_input; by rewrite E1, E2|].
    specialize (IH l' (S k) E3). unfold compose.
    erewrite imap_ext, IH, imap_ext; [done| |]; intros; simpl; do 3 f_equal; lia. }
  intros l l' E. apply (H l l' 0%nat E).
Qed.

Section sign_laws.
Context `{L : ECLaws}.

Lemma length_Hash160 d : length (Hash160 d) = PubKeyHashSize.
Proof. apply ripemd160_size. Qed.

Lemma SignTransaction_shape tx idx sub k sig :
  SignTransaction tx idx sub k = Ok sig ->
  exists h, ComputeSigHash tx idx sub = Ok h /\
    sig = sig_Serialize (ecdsa_Sign k h) ++ bytes_of [SigHashAll].
Proof. unfold SignTransaction. intros H. inv_ok. eauto. Qed.
End sign_laws.

Lemma wf_sighash_copy t idx s : wf_tx t -> wf_script s -> wf_tx (sighash_copy t idx s).
Proof.
  intros (?&?&Hi&Hn&?&?) Hs.
  unfold wf_tx, sighash_copy. cbn [tx_Version tx_LockTime tx_Inputs tx_Outputs].
  rewrite length_imap. split_and!; try done.
  apply Forall_forall. intros x Hx. apply list_elem_of_lookup in Hx as [i Hx].
  rewrite list_lookup_imap in Hx. destruct (tx_Inputs t !! i) as [y|] eqn:E; [|done].
  injection Hx as <-. rewrite Forall_lookup in Hi. destruct (Hi i y E) as (?&?&?).
  unfold wf_input. split_and!; try done. simpl. destruct (_ =? _); [done|].
  unfold wf_script, MaxScriptSize; simpl; lia.
Qed.

(** What the signed copy determines of the transaction. *)
Lemma sighash_copy_inj tx tx' idx sub sub' :
  0 <= idx < len (tx_Inputs tx) ->
  sighash_copy tx idx sub = sighash_copy tx' idx sub' ->
  tx_Version tx = tx_Version tx' /\ tx_LockTime tx = tx_LockTime tx' /\
  tx_Outputs tx = tx_Outputs tx' /\ sub = sub' /\
  map (fun i => (in_PreviousOutPoint i, in_Sequence i)) (tx_Inputs tx)
  = map (fun i => (in_PreviousOutPoint i, in_Sequence i)) (tx_Inputs tx').
Proof.
  intros Hidx E.
  pose proof (f_equal tx_Inputs E) as Ei. pose proof (f_equal tx_Outputs E) as Eo.
  pose proof (f_equal tx_Version E) as Ev. pose proof (f_equal tx_LockTime E) as El. simpl in *.
  assert (length (tx_Inputs tx) = length (tx_Inputs tx')) as Hlen.
  { apply (f_equal length) in Ei. by rewrite !length_imap in Ei. }
  assert (forall (i : nat) a b, tx_Inputs tx !! i = Some a -> tx_Inputs tx' !! i = Some b ->
    sighash_input idx sub (Z.of_nat i) a = sighash_input idx sub' (Z.of_nat i) b) as Hpt.
  { intros i a b Ha Hb. apply (f_equal (fun l => l !! i)) in Ei.
    rewrite !list_lookup_imap, Ha, Hb in Ei. simpl in Ei. congruence. }
  split_and!; try done.
  - destruct (lookup_lt_is_Some_2 (tx_Inputs tx) (Z.to_nat idx)) as [a Ha]; [lia|].
    destruct (lookup_lt_is_Some_2 (tx_Inputs tx') (Z.to_nat idx)) as [b Hb]; [lia|].
    specialize (Hpt _ _ _ Ha Hb). apply (f_equal in_SignatureScript) in Hpt. simpl in Hpt.
    rewrite Z2Nat.id, Z.eqb_refl in Hpt by lia. done.
  - apply list_eq. intros i. rewrite !list_lookup_fmap.
    destruct (tx_Inputs tx !! i) as [a|] eqn:Ha; destruct (tx_Inputs tx' !! i) as [b|] eqn:Hb; simpl.
    + specialize (Hpt _ _ _ Ha Hb).
      pose proof (f_equal in_PreviousOutPoint Hpt). pose proof (f_equal in_Sequence Hpt).
      simpl in *. congruence.
    + apply lookup_lt_Some in Ha. apply lookup_ge_None in Hb. lia.
    + apply lookup_lt_Some in Hb. apply lookup_ge_None in Ha. lia.
    + done.
Qed.

Lemma ComputeSigHash_Ok tx idx sub h :
  ComputeSigHash tx idx sub = Ok h <->
  0 <= idx < len (tx_Inputs tx) /\
  h = DoubleSHA256 (tx_SerializeToBytes (sighash_copy tx idx sub) ++ bytes_of [SigHashAll; 0; 0; 0]).
Proof.
  unfold ComputeSigHash. destruct (Z.ltb_spec idx 0); [split; [done|lia]|].
  destruct (Z.leb_spec (len (tx_Inputs tx)) idx); cbn [orb]; [split; [done|lia]|].
  split; [intros [= <-]; split; [lia|done] | by intros [_ ->]].
Qed.

(** A small instance of the external operations, to evaluate the model on examples:
    a key is a byte, a signature the key and the first byte of the signed hash. *)
Module ToyEC.
#[export] Instance toy_ec : ECOps := {|
  PrivateKey := byte; PublicKey := byte; Signature := byte * byte;
  ripemd160 d := take 20 (d ++ replicate 20 Byte.x00);
  privkey_from_bytes b := hd Byte.x00 b;
  PubKey k := k;
  SerializeCompressed k := replicate 33 k;
  ParsePubKey l := match l with k :: _ => Some k | [] => None end;
  ecdsa_Sign k h := (k, hd Byte.x00 h);
  sig_Serialize s := fst s :: snd s :: replicate 6 Byte.x00;
  ParseDERSignature l := match l with a :: b :: _ => Some (a, b) | _ => None end;
  sig_Verify s h k := bool_decide (s = (k, hd Byte.x00 h))
|}.
#[export] Instance toy_ec_laws : ECLaws toy_ec.
Proof.
  constructor; intros; [|simpl; try done; try lia ..].
  - change (length (take 20 (d ++ replicate 20 Byte.x00)) = 20%nat).
    rewrite length_take, length_app, length_replicate. lia.
  - by destruct s.
  - by apply bool_decide_eq_true.
Qed.
End ToyEC.

(** ** Properties *)

Import Merkle MerkleFacts.

(** The tree's known weakness (CVE-2012-2459), which the duplicate-id check of block
    validation guards against: on an odd number of ids above one, repeating the last id
    gives a longer list with the same root. *)
Theorem merkle_duplicate_tail l :
  (1 < length l)%nat -> Nat.odd (length l) = true ->
  MerkleRoot (l ++ [List.last l ZeroHash]) = MerkleRoot l.
Proof.
  intros L O. assert (l ++ [List.last l ZeroHash] = pad l) as -> by (unfold pad; by rewrite O).
  unfold MerkleRoot. rewrite length_pad, O.
  destruct (Nat.eqb_spec (length l) 0); [lia|]. by apply loop_pad.
Qed.

Lemma merkle_duplicate_tail_witness :
  let h i := DoubleSHA256 [byte.of_Z i] in
  MerkleRoot [h 1; h 2; h 3; h 3] = MerkleRoot [h 1; h 2; h 3].
Proof. intros h. apply (merkle_duplicate_tail [h 1; h 2; h 3]); [simpl; lia|done]. Defined.

(** [IsP2PKHScript] recognises exactly the outputs of [MakeP2PKHScript] on 20-byte
    hashes, and [ExtractP2PKHHash] recovers the hash from them. *)
Theorem p2pkh_script_exact s :
  (IsP2PKHScript s = true <-> exists h, length h = PubKeyHashSize /\ s = MakeP2PKHScript h)
  /\ (forall h, length h = PubKeyHashSize -> ExtractP2PKHHash (MakeP2PKHScript h) = Some h).
Proof.
  assert (forall h, length h = PubKeyHashSize ->
    IsP2PKHScript (MakeP2PKHScript h) = true /\ slice 3 23 (MakeP2PKHScript h) = h) as Hm.
  { intros h Hh. unfold PubKeyHashSize in Hh.
    do 21 (destruct h as [|? h]; [simpl in Hh; try lia|]); [|simpl in Hh; lia]. done. }
  split; [split|].
  - intros H. apply P2PKH_shape in H as [E L]. eauto.
  - intros (h & Hh & ->). by apply Hm.
  - intros h Hh. unfold ExtractP2PKHHash. destruct (Hm h Hh) as [-> E]. simpl. by rewrite E.
Qed.

(** Signing and verifying agree: whenever [SignTransaction] succeeds, which is for
    every input index in range, [VerifySignature] accepts the result under the matching
    public key, also after the input scripts have been filled in. *)
Theorem sign_verify_roundtrip `{L : ECLaws} tx tx' idx sub k :
  0 <= idx < len (tx_Inputs tx) ->
  tx_Version tx' = tx_Version tx -> tx_LockTime tx' = tx_LockTime tx ->
  tx_Outputs tx' = tx_Outputs tx ->
  map (fun i => (in_PreviousOutPoint i, in_Sequence i)) (tx_Inputs tx')
  = map (fun i => (in_PreviousOutPoint i, in_Sequence i)) (tx_Inputs tx) ->
  exists sig, SignTransaction tx idx sub k = Ok sig /\
    VerifySignature tx' idx sub sig (PubKey k) = Ok tt.
Proof.
  intros Hidx Hv Hl Ho Hi.
  pose proof (f_equal length Hi) as Hlen. rewrite !length_map in Hlen.
  set (h := DoubleSHA256 (tx_SerializeToBytes (sighash_copy tx idx sub) ++ bytes_of [SigHashAll; 0; 0; 0])).
  assert (ComputeSigHash tx idx sub = Ok h) as H1.
  { unfold ComputeSigHash. destruct (Z.ltb_spec idx 0); [lia|].
    destruct (Z.leb_spec (len (tx_Inputs tx)) idx); [lia|]. done. }
  assert (ComputeSigHash tx' idx sub = Ok h) as H2.
  { rewrite <- H1. unfold ComputeSigHash. by rewrite Hlen, (sighash_copy_scripts tx' tx). }
  exists (sig_Serialize (ecdsa_Sign k h) ++ bytes_of [SigHashAll]).
  split; [unfold SignTransaction; by rewrite H1|].
  unfold VerifySignature. pose proof (der_size (ecdsa_Sign k h)).
  rewrite length_app. cbn [length bytes_of map].
  destruct (Z.ltb_spec (Z.of_nat (length (sig_Serialize (ecdsa_Sign k h)) + 1)) 2); [lia|].
  rewrite Nat.add_sub, take_app_length. unfold byte_at.
  rewrite app_nth2, Nat.sub_diag by lia. simpl nth. rewrite byte.unsigned_of_Z. cbn -[SerializeCompressed].
  rewrite parse_der, H2. cbn [rbind]. by rewrite sign_verify.
Qed.

Import ToyEC.
Definition example_tx : Transaction := {|
  tx_Version := 1;
  tx_Inputs := [{| in_PreviousOutPoint := {| op_Hash := ZeroHash; op_Index := 7 |};
                   in_SignatureScript := []; in_Sequence := 0xFFFFFFFF |}];
  tx_Outputs := [{| out_Value := 1000; out_PkScript := [Byte.x51] |}];
  tx_LockTime := 0 |}.

Lemma wf_example_tx : wf_tx example_tx.
Proof.
  unfold wf_tx; split_and!; simpl; try (unfold is_u32, MaxTxInputs, MaxTxOutputs; lia);
    repeat constructor; simpl; unfold MaxScriptSize; (done || lia).
Qed.

Lemma sign_verify_roundtrip_witness :
  exists sig, SignTransaction example_tx 0 [Byte.x51] Byte.x09 = Ok sig /\
    VerifySignature example_tx 0 [Byte.x51] sig Byte.x09 = Ok tt.
Proof. apply (sign_verify_roundtrip (L := toy_ec_laws) example_tx example_tx 0); simpl; (done || lia). Defined.

(** C29. A signature commits to the whole spend: two transactions whose signature hashes
    are equal, with no SHA-256 collision between the two signed strings, agree on
    version, lock time, outputs, spent outpoints and sequence numbers, and on the
    script being satisfied at the signed input. *)
Theorem sighash_commits tx tx' idx sub sub' h :
  let msg t s := tx_SerializeToBytes (sighash_copy t idx s) ++ bytes_of [SigHashAll; 0; 0; 0] in
  wf_tx tx -> wf_tx tx' -> wf_script sub -> wf_script sub' ->
  collision_free [msg tx sub; msg tx' sub'] ->
  ComputeSigHash tx idx sub = Ok h -> ComputeSigHash tx' idx sub' = Ok h ->
  tx_Version tx = tx_Version tx' /\ tx_LockTime tx = tx_LockTime tx' /\
  tx_Outputs tx = tx_Outputs tx' /\ sub = sub' /\
  map (fun i => (in_PreviousOutPoint i, in_Sequence i)) (tx_Inputs tx)
  = map (fun i => (in_PreviousOutPoint i, in_Sequence i)) (tx_Inputs tx').
Proof.
  intros msg W W' Ws Ws' C H H'.
  apply ComputeSigHash_Ok in H as [Hr ->]. apply ComputeSigHash_Ok in H' as [Hr' Hh].
  assert (msg tx sub = msg tx' sub') as E by (apply C; [set_solver|set_solver|done]).
  apply (encode_prefix_free (dec := tx_Deserialize)) in E as [E _]; auto using wf_sighash_copy.
  by apply (sighash_copy_inj _ _ idx).
Qed.

(** [example_tx] with a signature script, and one that pays a unit more. *)
Definition scripted_tx : Transaction := {|
  tx_Version := 1;
  tx_Inputs := [{| in_PreviousOutPoint := {| op_Hash := ZeroHash; op_Index := 7 |};
                   in_SignatureScript := bytes_of [1; 2; 3]; in_Sequence := 0xFFFFFFFF |}];
  tx_Outputs := tx_Outputs example_tx; tx_LockTime := 0 |}.
Definition overpaid_tx : Transaction := {|
  tx_Version := 1; tx_Inputs := tx_Inputs example_tx;
  tx_Outputs := [{| out_Value := 1001; out_PkScript := [Byte.x51] |}]; tx_LockTime := 0 |}.

Lemma wf_variants : wf_tx scripted_tx /\ wf_tx overpaid_tx.
Proof.
  split; unfold wf_tx; split_and!; simpl; try (unfold is_u32, MaxTxInputs, MaxTxOutputs; lia);
    repeat constructor; simpl; unfold MaxScriptSize; (done || lia).
Qed.

(** Two spends with the same signature hash that differ in what is not signed, and two whose
    hashes must differ because they pay different amounts. *)
Lemma sighash_commits_witness :
  (scripted_tx <> example_tx /\ tx_Outputs example_tx = tx_Outputs scripted_tx)
  /\ ComputeSigHash example_tx 0 [Byte.x51] <> ComputeSigHash overpaid_tx 0 [Byte.x51].
Proof.
  assert (wf_script [Byte.x51]) as Hs by (unfold wf_script, MaxScriptSize; simpl; lia).
  destruct wf_variants as [W1 W2]. set (h := DoubleSHA256 (tx_SerializeToBytes (sighash_copy example_tx 0 [Byte.x51])
                   ++ bytes_of [SigHashAll; 0; 0; 0])).
  split; [split; [discriminate|]|intros E].
  - apply (sighash_commits example_tx scripted_tx 0 [Byte.x51] [Byte.x51] h wf_example_tx W1 Hs Hs);
      [refine (bool_decide_unpack _ _); vm_compute; exact I|reflexivity|reflexivity].
  - assert (tx_Outputs example_tx = tx_Outputs overpaid_tx) as F; [|discriminate F].
    apply (sighash_commits example_tx overpaid_tx 0 [Byte.x51] [Byte.x51] h wf_example_tx W2 Hs Hs);
      [refine (bool_decide_unpack _ _); vm_compute; exact I|reflexivity|rewrite <- E; reflexivity].
Defined.
