(* ===== verification/Target.v ===== *)
(** * Proof-of-work targets

    Models [src/internal/crypto/target.go]: the compact encoding of 256-bit targets,
    its conversions to hashes and integers, the work of a target and the
    proof-of-work check.  [math/big] integers are [Z]. *)
From S2P Require Import Prelude Types.

(** ** Operations *)

(** [big.Int.BitLen] and [big.Int.Bytes] (big-endian magnitude, no leading zeros). *)
Definition BitLen (z : Z) : Z := if z =? 0 then 0 else Z.log2 (Z.abs z) + 1.
Definition big_Bytes (z : Z) : list byte :=
  rev (le_split (Z.to_nat ((BitLen z + 7) / 8)) (Z.abs z)).

Definition CompactToBig (compact : Z) : Z :=
  let mantissa := Z.land compact 0x007fffff in
  let negative := negb (Z.land compact 0x00800000 =? 0) in
  let exponent := Z.shiftr compact 24 in
  let target :=
    if exponent <=? 3 then Z.shiftr mantissa (8 * (3 - exponent))
    else Z.shiftl mantissa (8 * (exponent - 3)) in
  if negative then - target else target.

Definition BigToCompact (target : Z) : Z :=
  if target =? 0 then 0
  else
    let negative := target <? 0 in
    let t := Z.abs target in
    let byteLen := u32 ((BitLen t + 7) / 8) in
    let compact :=
      if byteLen <=? 3 then u32 (Z.shiftl (u32 (i64 t)) (8 * (3 - byteLen)))
      else u32 (i64 (Z.shiftr t (8 * (byteLen - 3)))) in
    let '(compact, byteLen) :=
      if negb (Z.land compact 0x00800000 =? 0) then (Z.shiftr compact 8, add32 byteLen 1)
      else (compact, byteLen) in
    let compact := Z.lor compact (u32 (Z.shiftl byteLen 24)) in
    if negative then Z.lor compact 0x00800000 else compact.

(** The loop [for i, j := 0, len(b)-1; j >= 0; i, j = i+1, j-1] copies the reversed
    bytes into the zeroed array and stops when the array is full. *)
Definition CompactToHash (compact : Z) : Hash :=
  let b := big_Bytes (CompactToBig compact) in
  let written := take HashSize (rev b) in
  written ++ replicate (HashSize - length written) Byte.x00.

Definition HashToBig (h : Hash) : Z := le_combine h.

Definition CalcWork (bits : Z) : Z :=
  let target := CompactToBig bits in
  if target <=? 0 then 0
  else 2^256 / (target + 1).

Inductive PowErr := ExceedsTarget (h target : Hash).

Definition ValidateProofOfWork (headerHash : Hash) (bits : Z) : result PowErr unit :=
  let target := CompactToHash bits in
  check negb (LessOrEqual headerHash target) else ExceedsTarget headerHash target;
  Ok tt.

(** ** Fields of a compact target *)

(** The number of bytes of the signed representation of a positive [t]. *)
Definition compact_size (t : Z) : Z := (Z.log2 t + 1) / 8 + 1.

(** The value that [k] dropped low bits leave. *)
Definition truncate_bits (k t : Z) : Z := (t / 2^k) * 2^k.

Lemma CompactToBig_fields m e :
  0 <= m < 2^23 -> 0 <= e ->
  CompactToBig (m + e * 2^24) =
  if e <=? 3 then m / 2^(8 * (3 - e)) else m * 2^(8 * (e - 3)).
Proof.
  intros Hm He. unfold CompactToBig.
  assert (Z.shiftr (m + e * 2^24) 24 = e) as Hs.
  { rewrite Z.shiftr_div_pow2 by lia. rewrite Z.div_add, Z.div_small by lia. lia. }
  change 0x007fffff with (Z.ones 23). change 0x00800000 with (2^23).
  assert (Z.land (m + e * 2^24) (Z.ones 23) = m) as Hl.
  { rewrite Z.land_ones by lia. replace (m + e * 2^24) with (m + (e * 2) * 2^23) by lia.
    rewrite Z.mod_add, Z.mod_small by lia. done. }
  assert (Z.land (m + e * 2^24) (2^23) = 0) as Hn.
  { apply Z.bits_inj'. intros i Hi. rewrite Z.land_spec, Z.bits_0.
    rewrite Z.pow2_bits_eqb by lia. destruct (Z.eqb_spec 23 i) as [<-|]; [|apply andb_false_r].
    rewrite andb_true_r. rewrite Z.testbit_false by lia.
    replace (m + e * 2^24) with (m + (e * 2) * 2^23) by lia.
    rewrite Z.div_add, Z.div_small, Z.add_0_l by lia. apply Z.mod_mul. lia. }
  rewrite Hs, Hl, Hn. simpl.
  destruct (Z.leb_spec e 3); [apply Z.shiftr_div_pow2; lia|apply Z.shiftl_mul_pow2; lia].
Qed.

Lemma log2_band t k : 0 <= k -> 0 < t -> (2^k <= t <-> k <= Z.log2 t).
Proof.
  intros Hk Ht. pose proof (Z.log2_spec t Ht). split; intros H'.
  - by apply Z.log2_le_pow2.
  - by apply Z.log2_le_pow2.
Qed.

(** The 24-bit mantissa of [t] under exponent [e], whichever way it is shifted. *)
Definition scale (t e : Z) : Z := t * 2^24 / 2^(8 * e).

Lemma scale_shift t e : 0 <= e ->
  scale t e = if e <=? 3 then t * 2^(8 * (3 - e)) else t / 2^(8 * (e - 3)).
Proof.
  intros He. unfold scale. destruct (Z.leb_spec e 3).
  - replace (t * 2^24) with (t * 2^(8 * (3 - e)) * 2^(8 * e)).
    + apply Z.div_mul. lia.
    + rewrite <- Z.mul_assoc, <- Z.pow_add_r by lia. do 2 f_equal. lia.
  - replace (8 * e) with (8 * (e - 3) + 24) by lia. rewrite Z.pow_add_r by lia.
    apply Z.div_mul_cancel_r; lia.
Qed.

Lemma scale_succ t e : 0 <= e -> scale t (e + 1) = scale t e / 2^8.
Proof.
  intros He. unfold scale. rewrite Z.div_div by lia. rewrite <- Z.pow_add_r by lia.
  do 2 f_equal. lia.
Qed.

Lemma scale_nonneg t e : 0 < t -> 0 <= e -> 0 <= scale t e.
Proof. intros. apply Z.div_pos; lia. Qed.

Lemma scale_lt t e k : 0 <= e -> 0 <= k <= 24 -> 24 - k <= 8 * e ->
  (scale t e < 2^k <-> t < 2^(8 * e - (24 - k))).
Proof.
  intros He Hk Hek. unfold scale.
  assert (2^k * 2^(8 * e) = 2^(8 * e - (24 - k)) * 2^24) as E
    by (rewrite <- !Z.pow_add_r by lia; f_equal; lia).
  split; intros H.
  - destruct (Z.lt_ge_cases t (2^(8 * e - (24 - k)))); [done|]. exfalso.
    assert (2^k <= t * 2^24 / 2^(8 * e)); [|lia]. apply Z.div_le_lower_bound; [lia|]. nia.
  - apply Z.div_lt_upper_bound; [lia|]. nia.
Qed.

Lemma compact_size_pos t : 0 < t -> 1 <= compact_size t.
Proof.
  intros Ht. unfold compact_size. pose proof (Z.log2_nonneg t).
  assert (0 <= (Z.log2 t + 1) / 8) by (apply Z.div_pos; lia). lia.
Qed.

Lemma compact_size_spec t e : 0 < t -> 1 <= e ->
  2^(8 * e - 9) <= t -> t < 2^(8 * e - 1) -> compact_size t = e.
Proof.
  intros Ht He Hlo Hhi. unfold compact_size.
  apply Z.log2_lt_pow2 in Hhi; [|done].
  assert (8 * e - 9 <= Z.log2 t).
  { destruct (Z.le_gt_cases (8 * e - 9) 0); [pose proof (Z.log2_nonneg t); lia|].
    by apply log2_band; [lia| |]. }
  assert ((Z.log2 t + 1) / 8 = e - 1); [|lia].
  symmetry. apply (Z.div_unique_pos _ _ _ (Z.log2 t + 1 - 8 * (e - 1))); lia.
Qed.

Lemma byteLen_bounds t : 0 < t ->
  let b := (BitLen t + 7) / 8 in 1 <= b /\ 2^(8 * b - 8) <= t < 2^(8 * b).
Proof.
  intros Ht b. subst b. unfold BitLen. destruct (Z.eqb_spec t 0) as [|_]; [lia|].
  rewrite Z.abs_eq by lia. pose proof (Z.log2_spec t Ht) as [Hlo Hhi].
  pose proof (Z.log2_nonneg t). set (n := Z.log2 t) in *.
  pose proof (Z.div_mod (n + 1 + 7) 8 ltac:(lia)) as D.
  pose proof (Z.mod_pos_bound (n + 1 + 7) 8 ltac:(lia)).
  set (b := (n + 1 + 7) / 8) in *. split; [lia|]. split.
  - apply Z.le_trans with (2^n); [apply Z.pow_le_mono_r; lia|done].
  - apply Z.lt_le_trans with (2^(Z.succ n)); [done|apply Z.pow_le_mono_r; lia].
Qed.

(** The mantissa before normalization. *)
Lemma mantissa_scale t b : 0 < t -> 1 <= b -> t < 2^(8 * b) ->
  (if b <=? 3 then u32 (Z.shiftl (u32 (i64 t)) (8 * (3 - b)))
   else u32 (i64 (Z.shiftr t (8 * (b - 3))))) = scale t b /\ 0 <= scale t b < 2^24.
Proof.
  intros Ht Hb Hhi. pose proof (scale_nonneg t b ltac:(lia) ltac:(lia)) as Hm0.
  assert (scale t b < 2^24) as Hm1 by (apply scale_lt; [lia|lia|lia|]; by rewrite Z.sub_0_r).
  split; [|done]. rewrite scale_shift in * by lia. destruct (Z.leb_spec b 3).
  - assert (2^(8 * b) <= 2^24) by (apply Z.pow_le_mono_r; lia).
    rewrite i64_small, (u32_small t) by (unfold is_i64, is_u32; lia).
    rewrite Z.shiftl_mul_pow2 by lia. apply u32_small. unfold is_u32. lia.
  - rewrite Z.shiftr_div_pow2 by lia.
    rewrite i64_small, u32_small by (unfold is_i64, is_u32; lia). done.
Qed.

Lemma join_fields m e : 0 <= m < 2^24 -> 0 <= e < 256 ->
  Z.lor m (u32 (Z.shiftl e 24)) = m + e * 2^24.
Proof.
  intros. rewrite u32_small by (unfold is_u32; rewrite Z.shiftl_mul_pow2; lia).
  apply lor_shiftl_add; lia.
Qed.

Lemma BigToCompact_fields t : 0 < t < 2^2039 ->
  BigToCompact t = scale t (compact_size t) + compact_size t * 2^24.
Proof.
  intros [Ht Hmax]. unfold BigToCompact.
  destruct (Z.eqb_spec t 0), (Z.ltb_spec t 0); try lia.
  rewrite (Z.abs_eq t) by lia.
  pose proof (byteLen_bounds t Ht) as (Hb & Hlo & Hhi). cbv zeta in *.
  revert Hb Hlo Hhi. generalize ((BitLen t + 7) / 8) as b. intros b Hb Hlo Hhi.
  assert (8 * b - 8 < 2039) as Hb'.
  { apply (Z.pow_lt_mono_r_iff 2); [lia|lia|]. by apply Z.le_lt_trans with t. }
  rewrite (u32_small b) by (unfold is_u32; lia).
  destruct (mantissa_scale t b) as (-> & Hm0 & Hm1); [done|done|done|].
  change 0x00800000 with (2^23). rewrite land_pow2_small by (simpl; lia).
  destruct (Z.ltb_spec (scale t b) (2^23)) as [Hsm|Hbig]; simpl negb; cbv iota.
  - apply (scale_lt t b 23) in Hsm; [|lia..].
    rewrite (compact_size_spec t b); [apply join_fields; lia|lia|lia| |exact Hsm].
    apply Z.le_trans with (2^(8 * b - 8)); [apply Z.pow_le_mono_r; lia|done].
  - assert (2^(8 * b - 1) <= t) as Hge.
    { destruct (Z.le_gt_cases (2^(8 * b - 1)) t) as [|Hlt]; [done|].
      apply (scale_lt t b 23) in Hlt; lia. }
    assert (8 * b - 1 < 2039) by (apply (Z.pow_lt_mono_r_iff 2); lia).
    rewrite Z.shiftr_div_pow2, <- scale_succ by lia.
    assert (add32 b 1 = b + 1) as -> by (apply u32_small; unfold is_u32; lia).
    rewrite (compact_size_spec t (b + 1)); [apply join_fields; [|lia]|lia|lia| |].
    + rewrite scale_succ by lia. split; [apply Z.div_pos; lia|apply Z.div_lt_upper_bound; lia].
    + by replace (8 * (b + 1) - 9) with (8 * b - 1) by lia.
    + apply Z.lt_trans with (2^(8 * b)); [done|]. apply Z.pow_lt_mono_r; lia.
Qed.

(** ** Decoding what was encoded *)

Lemma compact_size_bounds t : 0 < t ->
  2^(8 * compact_size t) <= 2^9 * t /\ t < 2^(8 * compact_size t - 1).
Proof.
  intros Ht. unfold compact_size. pose proof (Z.log2_spec t Ht) as [Hlo Hhi].
  pose proof (Z.log2_nonneg t). set (n := Z.log2 t) in *.
  pose proof (Z.div_mod (n + 1) 8 ltac:(lia)) as D.
  pose proof (Z.mod_pos_bound (n + 1) 8 ltac:(lia)). set (q := (n + 1) / 8) in *. split.
  - apply Z.le_trans with (2^9 * 2^n); [|lia]. rewrite <- Z.pow_add_r by lia.
    apply Z.pow_le_mono_r; lia.
  - apply Z.lt_le_trans with (2^(Z.succ n)); [done|]. apply Z.pow_le_mono_r; lia.
Qed.

Lemma scale_normal t : 0 < t -> scale t (compact_size t) < 2^23.
Proof.
  intros Ht. pose proof (compact_size_pos t Ht). pose proof (compact_size_bounds t Ht) as [_ Hhi].
  apply (scale_lt t _ 23); [lia..|exact Hhi].
Qed.

Definition dropped_bits (t : Z) : Z := 8 * Z.max 0 (compact_size t - 3).

Lemma CompactToBig_BigToCompact t : 0 < t < 2^2039 ->
  CompactToBig (BigToCompact t) = truncate_bits (dropped_bits t) t.
Proof.
  intros [Ht Hmax]. rewrite BigToCompact_fields by done.
  pose proof (compact_size_pos t Ht). pose proof (scale_normal t Ht).
  pose proof (scale_nonneg t (compact_size t) Ht ltac:(lia)).
  rewrite CompactToBig_fields, scale_shift by lia.
  unfold truncate_bits, dropped_bits. destruct (Z.leb_spec (compact_size t) 3).
  - rewrite Z.max_l, Z.mul_0_r, Z.div_1_r, Z.mul_1_r by lia. apply Z.div_mul. lia.
  - by rewrite Z.max_r by lia.
Qed.

Lemma truncate_error t : 0 < t ->
  let r := truncate_bits (dropped_bits t) t in
  0 < r <= t /\ 2^15 * (t - r) <= t.
Proof.
  intros Ht r. subst r. unfold truncate_bits, dropped_bits.
  destruct (compact_size_bounds t Ht) as [Hlo _]. pose proof (compact_size_pos t Ht).
  destruct (Z.le_gt_cases (compact_size t) 3).
  - rewrite Z.max_l, Z.mul_0_r, Z.div_1_r, Z.mul_1_r by lia. lia.
  - rewrite Z.max_r by lia. set (k := 8 * (compact_size t - 3)).
    replace (8 * compact_size t) with (k + 24) in Hlo by (subst k; lia).
    rewrite Z.pow_add_r in Hlo by (subst k; lia).
    assert (0 < 2^k) by (apply Z.pow_pos_nonneg; subst k; lia).
    pose proof (Z.div_mod t (2^k) ltac:(lia)). pose proof (Z.mod_pos_bound t (2^k) ltac:(lia)).
    set (q := t / 2^k) in *. assert (0 < q) by nia. nia.
Qed.

(** Truncation keeps the size, so encoding again changes nothing. *)
Lemma compact_size_truncate t : 0 < t ->
  compact_size (truncate_bits (dropped_bits t) t) = compact_size t.
Proof.
  intros Ht. destruct (truncate_error t Ht) as [Hr He].
  destruct (compact_size_bounds t Ht) as [Hlo Hhi]. pose proof (compact_size_pos t Ht).
  apply compact_size_spec; [lia|done| |lia].
  destruct (Z.le_gt_cases (compact_size t) 3).
  { unfold truncate_bits, dropped_bits in *. rewrite Z.max_l, Z.mul_0_r, Z.div_1_r, Z.mul_1_r in * by lia.
    destruct (Z.le_gt_cases (8 * compact_size t - 9) 0) as [Hn|Hn].
    - apply Z.le_trans with (2^0); [apply Z.pow_le_mono_r; lia|lia].
    - replace (8 * compact_size t) with ((8 * compact_size t - 9) + 9) in Hlo by lia.
      rewrite Z.pow_add_r in Hlo by lia. lia. }
  unfold truncate_bits, dropped_bits. rewrite Z.max_r by lia.
  set (k := 8 * (compact_size t - 3)).
  replace (8 * compact_size t - 9) with (15 + k) by (subst k; lia).
  replace (8 * compact_size t) with (9 + (15 + k)) in Hlo by (subst k; lia).
  rewrite Z.pow_add_r in Hlo by (subst k; lia). rewrite Z.pow_add_r in * by (subst k; lia).
  apply Z.mul_le_mono_nonneg_r; [lia|]. apply Z.div_le_lower_bound; nia.
Qed.

Lemma scale_truncate t : 0 < t ->
  scale (truncate_bits (dropped_bits t) t) (compact_size t) = scale t (compact_size t).
Proof.
  intros Ht. pose proof (compact_size_pos t Ht). rewrite !scale_shift by lia.
  unfold truncate_bits, dropped_bits. destruct (Z.leb_spec (compact_size t) 3).
  - by rewrite Z.max_l, Z.mul_0_r, Z.div_1_r, Z.mul_1_r by lia.
  - rewrite Z.max_r by lia. apply Z.div_mul. lia.
Qed.

(** ** Targets as hashes *)

Lemma big_Bytes_bound z : 0 <= Z.abs z < 2^(8 * len (big_Bytes z)).
Proof.
  unfold big_Bytes. rewrite length_rev, length_le_split. unfold BitLen. destruct (Z.eqb_spec z 0) as [->|Hne].
  - simpl. lia.
  - assert (0 < Z.abs z) as Hz by lia. pose proof (Z.log2_spec _ Hz) as [_ Hhi].
    split; [lia|]. apply Z.lt_le_trans with (1 := Hhi). apply Z.pow_le_mono_r; [lia|].
    pose proof (Z.log2_nonneg (Z.abs z)).
    pose proof (Z.div_mod (Z.log2 (Z.abs z) + 1 + 7) 8 ltac:(lia)).
    pose proof (Z.mod_pos_bound (Z.log2 (Z.abs z) + 1 + 7) 8 ltac:(lia)).
    rewrite Z2Nat.id by (apply Z.div_pos; lia). lia.
Qed.

Lemma CompactToHash_le bits :
  CompactToHash bits = le_split HashSize (Z.abs (CompactToBig bits)).
Proof.
  pose proof (big_Bytes_bound (CompactToBig bits)) as Hz. unfold CompactToHash, big_Bytes in *.
  rewrite rev_involutive. rewrite length_rev, length_le_split in Hz.
  set (z := Z.abs (CompactToBig bits)) in *. set (n := Z.to_nat _) in *.
  generalize HashSize as w. intros w. clearbody n z. clear -Hz. revert n z Hz.
  induction w as [|w IH]; intros n z Hz; [by rewrite take_0|].
  destruct n as [|n].
  - assert (z = 0) as -> by (simpl in Hz; lia). clear. change (le_split 0 0) with (@nil byte).
    rewrite take_nil. cbn [length app]. rewrite Nat.sub_0_r.
    induction w as [|w IHw]; [done|]. change (Byte.x00 :: replicate (S w) Byte.x00 = byte.of_Z 0 :: le_split (S w) (Z.shiftr 0 8)).
    by rewrite Z.shiftr_0_l, IHw.
  - change (le_split (S n) z) with (byte.of_Z z :: le_split n (Z.shiftr z 8)).
    change (le_split (S w) z) with (byte.of_Z z :: le_split w (Z.shiftr z 8)).
    cbn [take length app]. f_equal. apply IH. rewrite Z.shiftr_div_pow2 by lia.
    split; [apply Z.div_pos; lia|]. apply Z.div_lt_upper_bound; [lia|].
    rewrite <- Z.pow_add_r by lia. replace (8 + 8 * Z.of_nat n) with (8 * Z.of_nat (S n)) by lia. lia.
Qed.

Lemma wf_CompactToHash bits : wf_hash (CompactToHash bits).
Proof. rewrite CompactToHash_le. apply length_le_split. Qed.

Lemma HashToBig_CompactToHash bits :
  HashToBig (CompactToHash bits) = Z.abs (CompactToBig bits) mod 2^256.
Proof. unfold HashToBig. rewrite CompactToHash_le, le_combine_split. done. Qed.

Lemma ValidateProofOfWork_Ok h bits : wf_hash h ->
  ValidateProofOfWork h bits = Ok tt <-> HashToBig h <= Z.abs (CompactToBig bits) mod 2^256.
Proof.
  intros Hh. unfold ValidateProofOfWork.
  rewrite LessOrEqual_numeric by (done || apply wf_CompactToHash).
  rewrite <- HashToBig_CompactToHash. unfold HashToBig.
  destruct (Z.leb_spec (le_combine h) (le_combine (CompactToHash bits))); simpl.
  - done.
  - split; [done|lia].
Qed.

Lemma CalcWork_spec bits : 0 < CompactToBig bits ->
  CalcWork bits * (CompactToBig bits + 1) <= 2^256
  /\ 2^256 < (CalcWork bits + 1) * (CompactToBig bits + 1).
Proof.
  intros Ht. unfold CalcWork. ztest.
  pose proof (Z.div_mod (2^256) (CompactToBig bits + 1) ltac:(lia)).
  pose proof (Z.mod_pos_bound (2^256) (CompactToBig bits + 1) ltac:(lia)). lia.
Qed.

Lemma CalcWork_nonneg bits : 0 <= CalcWork bits.
Proof. unfold CalcWork. ztest. apply Z.div_pos; lia. Qed.

(** ** Properties *)

(** Encoding a positive target in compact form and decoding it keeps its leading
    bytes: the result is the target with all but three (two, when the top bit of the
    third is set) significant bytes cleared.  It is never larger than the target, loses
    at most one part in [2^15], and encoding it again gives the same bits. *)
Theorem compact_roundtrip t :
  0 < t < 2^2039 ->
  let r := CompactToBig (BigToCompact t) in
  r = truncate_bits (dropped_bits t) t /\ 0 < r <= t /\ 2^15 * (t - r) <= t
  /\ BigToCompact r = BigToCompact t.
Proof.
  intros Ht r. subst r. rewrite CompactToBig_BigToCompact by done.
  destruct (truncate_error t) as [Hr He]; [lia|].
  repeat split; try done; try lia.
  rewrite !BigToCompact_fields by lia.
  by rewrite compact_size_truncate, scale_truncate by lia.
Qed.

Lemma compact_roundtrip_witness :
  let t := 0x00000000FFFF1234 * 2^208 in
  CompactToBig (BigToCompact t) = 0xFFFF * 2^224 /\ CompactToBig (BigToCompact t) <= t.
Proof. intros t. destruct (compact_roundtrip t) as (-> & [_ Hle] & _); [vm_compute; done|]. vm_compute. done. Defined.

(** C25. The proof-of-work check accepts a header hash if and only if the hash, read as a
    256-bit little-endian integer, is at most the magnitude of the target that the bits
    encode, reduced to 256 bits. *)
Theorem pow_check_numeric h bits :
  wf_hash h ->
  ValidateProofOfWork h bits = Ok tt <-> HashToBig h <= Z.abs (CompactToBig bits) mod 2^256.
Proof. apply ValidateProofOfWork_Ok. Qed.

Lemma pow_check_numeric_witness :
  ValidateProofOfWork (replicate 28 (byte.of_Z 0xaa) ++ replicate 4 Byte.x00) 0x1d00ffff = Ok tt
  /\ ~ ValidateProofOfWork (replicate 32 (byte.of_Z 0xaa)) 0x1d00ffff = Ok tt.
Proof.
  split.
  - apply pow_check_numeric; [done|]. vm_compute. done.
  - rewrite pow_check_numeric by done. vm_compute. intros H. by apply H.
Defined.

(** The work of a block is the expected number of hashes for its target,
    [floor (2^256 / (target+1))]; a smaller target is never less work, and the work is
    zero exactly when the target is not a positive 256-bit number. *)
Theorem calc_work_spec bits bits' :
  0 < CompactToBig bits <= CompactToBig bits' ->
  CalcWork bits * (CompactToBig bits + 1) <= 2^256 < (CalcWork bits + 1) * (CompactToBig bits + 1)
  /\ CalcWork bits' <= CalcWork bits
  /\ (0 < CalcWork bits <-> CompactToBig bits < 2^256).
Proof.
  intros H. pose proof (CalcWork_spec bits ltac:(lia)) as [H1 H2].
  pose proof (CalcWork_nonneg bits). split; [done|]. split.
  - unfold CalcWork. ztest. apply Z.div_le_compat_l; lia.
  - nia.
Qed.

Lemma calc_work_spec_witness :
  CalcWork 0x1e0fffff <= CalcWork 0x1d00ffff /\ CalcWork 0x1d00ffff = 0x100010001.
Proof.
  split; [|vm_compute; done].
  apply (calc_work_spec 0x1d00ffff 0x1e0fffff). vm_compute. done.
Defined.
