(* ===== verification/Base58.v ===== *)
(** * Base58 text: addresses and private keys

    Models [src/internal/crypto/base58.go]: the Base58 encoding of byte strings, its
    checksummed form, addresses and the wallet import format (WIF) of private keys.  Go
    strings are byte sequences. *)
From S2P Require Import Prelude.
From S2P Require Import Types.
From S2P Require Import Sha256.
From S2P Require Import Crypto.
From S2P Require Import Target.

(** ** Operations *)

Definition base58Alphabet : list byte :=
  bytes_of_string "123456789ABCDEFGHJKLMNPQRSTUVWXYZabcdefghijkmnopqrstuvwxyz".

(** [base58Alphabet[i]] *)
Definition base58_char (i : Z) : byte := nth (Z.to_nat i) base58Alphabet Byte.x00.

(** [for x.Cmp(bigZero) > 0 { x.DivMod(x, bigRadix, mod); ... }], the least significant
    digit first.  An integer has no more digits than bits ([digits_of_spec]). *)
Fixpoint digits_of (base : Z) (fuel : nat) (x : Z) : list Z :=
  match fuel with
  | O => []
  | S fuel => if x >? 0 then x mod base :: digits_of base fuel (x / base) else []
  end.

(** The number of copies of [c] that [b] starts with. *)
Fixpoint leading (c : byte) (b : list byte) : nat :=
  match b with
  | x :: b => if Byte.eqb x c then S (leading c b) else O
  | [] => O
  end.

(** [big.Int.SetBytes]: the big-endian value. *)
Definition big_SetBytes (b : list byte) : Z := le_combine (rev b).

(** The digits are appended from the least significant one, the leading zeros after
    them, and the whole is reversed in place. *)
Definition Base58Encode (b : list byte) : list byte :=
  let x := big_SetBytes b in
  let result := map base58_char (digits_of 58 (Z.to_nat (BitLen x)) x) in
  let result := result ++ replicate (leading Byte.x00 b) (base58_char 0) in
  rev result.

(** [-1] is the source's value for a character that is not in the alphabet. *)
Fixpoint alphabet_index (i : Z) (alphabet : list byte) (c : byte) : Z :=
  match alphabet with
  | [] => -1
  | a :: alphabet => if Byte.eqb a c then i else alphabet_index (i + 1) alphabet c
  end.
Definition base58AlphabetIndex (c : byte) : Z := alphabet_index 0 base58Alphabet c.

Inductive Base58Err :=
| InvalidBase58Character
| Base58TooShort
| InvalidBase58Checksum
| AddressNot20Bytes
| InvalidWIF (e : Base58Err)
| InvalidWIFVersion (v : Z)
| InvalidWIFFlag (b : Z)
| InvalidWIFLength (n : Z).

Definition base58_digit (x : Z) (c : byte) : result Base58Err Z :=
  let idx := base58AlphabetIndex c in
  check idx <? 0 else InvalidBase58Character;
  Ok (x * 58 + idx).

Definition Base58Decode (s : list byte) : result Base58Err (list byte) :=
  let* x := foldM base58_digit 0 s in
  Ok (replicate (leading (base58_char 0) s) Byte.x00 ++ big_Bytes x).

Definition base58Checksum (payload : list byte) : list byte :=
  take 4 (sha256_Sum256 (sha256_Sum256 payload)).

Definition Base58CheckEncode (version : byte) (payload : list byte) : list byte :=
  let versioned := version :: payload in
  Base58Encode (versioned ++ base58Checksum versioned).

Definition Base58CheckDecode (address : list byte) : result Base58Err (byte * list byte) :=
  let* decoded := Base58Decode address in
  check len decoded <? 5 else Base58TooShort;
  let n := (length decoded - 4)%nat in
  let version := nth 0 decoded Byte.x00 in
  let payload := slice 1 n decoded in
  let cksum := base58Checksum (take n decoded) in
  check negb (bool_decide (cksum = drop n decoded)) else InvalidBase58Checksum;
  Ok (version, payload).

Definition PubKeyHashToAddress (pubKeyHash : list byte) (version : byte) : list byte :=
  Base58CheckEncode version pubKeyHash.

Definition AddressToPubKeyHash (address : list byte) : result Base58Err (byte * list byte) :=
  let* (ver, payload) := Base58CheckDecode address in
  check negb (len payload =? Z.of_nat PubKeyHashSize) else AddressNot20Bytes;
  Ok (ver, payload).

Definition WIFVersionMainnet : byte := byte.of_Z 0x80.
Definition WIFVersionTestnet : byte := byte.of_Z 0xEF.

Definition WIFVersionForAddress (addrVersion : byte) : byte :=
  if Byte.eqb addrVersion Byte.x00 then WIFVersionMainnet else WIFVersionTestnet.

(** [payload := make([]byte, 33); copy(payload, privKey); payload[32] = 0x01] *)
Definition EncodeWIF (privKey : list byte) (addrVersion : byte) : list byte :=
  let wifVersion := if Byte.eqb addrVersion Byte.x00 then WIFVersionMainnet else WIFVersionTestnet in
  let payload := take 32 (take 33 privKey ++ replicate 33 Byte.x00) ++ [Byte.x01] in
  Base58CheckEncode wifVersion payload.

(** The raw key, whether its public key is compressed, and the version. *)
Definition DecodeWIF (wif : list byte) : result Base58Err (list byte * bool * byte) :=
  let* (ver, payload) := rwrap InvalidWIF (Base58CheckDecode wif) in
  check negb (Byte.eqb ver WIFVersionMainnet) && negb (Byte.eqb ver WIFVersionTestnet)
    else InvalidWIFVersion (byte.unsigned ver);
  if len payload =? 33 then
    check negb (byte_at payload 32 =? 0x01) else InvalidWIFFlag (byte_at payload 32);
    Ok (take 32 payload, true, ver)
  else if len payload =? 32 then Ok (payload, false, ver)
  else Err (InvalidWIFLength (len payload)).

(** ** Positional notation

    A list of digits, the least significant first, is the notation of its value when it
    does not end in a zero; the notation is unique. *)

Section positional.
Context (base : Z) (Hbase : 1 < base).

Fixpoint value (ds : list Z) : Z :=
  match ds with [] => 0 | d :: ds => d + base * value ds end.

Definition digit (d : Z) : Prop := 0 <= d < base.
Definition notation (ds : list Z) : Prop := Forall digit ds /\ List.last ds 1 <> 0.

Lemma notation_cons d ds : notation (d :: ds) -> digit d /\ notation ds /\ (ds = [] -> d <> 0).
Proof.
  intros [H Hl]. inversion_clear H as [|? ? Hd Hds]. destruct ds as [|e ds].
  - split_and!; [done|by split|done].
  - split_and!; [done|by split|done].
Qed.

Lemma value_nonneg ds : Forall digit ds -> 0 <= value ds.
Proof. induction 1 as [|d ds [Hd _] _ IH]; simpl; nia. Qed.

Lemma value_pos d ds : notation (d :: ds) -> 0 < value (d :: ds).
Proof.
  revert d. induction ds as [|e ds IH]; intros d H; pose proof (notation_cons _ _ H) as (Hd & Hn & Hz).
  - specialize (Hz eq_refl). unfold digit in Hd. simpl. lia.
  - specialize (IH _ Hn). change (value (d :: e :: ds)) with (d + base * value (e :: ds)).
    unfold digit in Hd. nia.
Qed.

Lemma value_inj ds es : notation ds -> notation es -> value ds = value es -> ds = es.
Proof.
  revert es. induction ds as [|d ds IH]; intros [|e es] Hd He E; [done| | |].
  - pose proof (value_pos _ _ He). simpl in *. lia.
  - pose proof (value_pos _ _ Hd). simpl in *. lia.
  - apply notation_cons in Hd as (Hd & Hds & _), He as (He & Hes & _). unfold digit in *. simpl in E.
    assert (d = e) as ->.
    { rewrite <- (Z.mod_small d base), <- (Z.mod_small e base) by done.
      rewrite <- (Z_mod_plus_full d (value ds) base), <- (Z_mod_plus_full e (value es) base).
      f_equal. lia. }
    f_equal. apply IH; [done..|]. nia.
Qed.

Lemma value_app ds es : value (ds ++ es) = value ds + base ^ len ds * value es.
Proof.
  induction ds as [|d ds IH]; cbn [app value length]; [lia|]. rewrite IH, Nat2Z.inj_succ, Z.pow_succ_r by lia. lia.
Qed.

(** [digits_of] is the notation of a number of [fuel] bits. *)
Lemma digits_of_spec fuel x :
  0 <= x < 2 ^ Z.of_nat fuel -> notation (digits_of base fuel x) /\ value (digits_of base fuel x) = x.
Proof.
  revert x. induction fuel as [|fuel IH]; intros x Hx; simpl.
  - change (2 ^ Z.of_nat 0) with 1 in Hx. split; [by split|lia].
  - destruct (Z.gtb_spec x 0); [|split; [by split|simpl; lia]].
    rewrite Nat2Z.inj_succ, Z.pow_succ_r in Hx by lia.
    assert (0 <= x / base < 2 ^ Z.of_nat fuel) as Hq.
    { split; [apply Z.div_pos; lia|]. apply Z.div_lt_upper_bound; [lia|]. nia. }
    destruct (IH _ Hq) as [[HF HL] HV]. pose proof (Z.mod_pos_bound x base ltac:(lia)) as Hm.
    split; [split|].
    + by constructor.
    + destruct (digits_of base fuel (x / base)) as [|e ds] eqn:E; [|exact HL].
      cbn [value] in HV. change (x mod base <> 0). pose proof (Z.div_mod x base ltac:(lia)). lia.
    + cbn [value]. rewrite HV. pose proof (Z.div_mod x base ltac:(lia)). lia.
Qed.
End positional.

(** ** Byte strings and characters as digits *)

Lemma big_SetBytes_value b : big_SetBytes b = value 256 (map byte.unsigned (rev b)).
Proof.
  unfold big_SetBytes. induction (rev b) as [|x l IH]; [done|]. rewrite le_combine_cons, IH. done.
Qed.

Lemma bytes_digits b : Forall (digit 256) (map byte.unsigned b).
Proof. apply Forall_map, Forall_true. intros x. pose proof (byte.unsigned_range x). unfold digit. lia. Qed.

Lemma last_map {A B} (f : A -> B) l d : List.last (map f l) (f d) = f (List.last l d).
Proof. induction l as [|x [|y l] IH]; [done|done|exact IH]. Qed.

Lemma byte_eqb_eq x y : Byte.eqb x y = true <-> x = y.
Proof. split; [apply Byte.byte_dec_bl|apply Byte.byte_dec_lb]. Qed.

Lemma bytes_inj b b' : map byte.unsigned b = map byte.unsigned b' -> b = b'.
Proof.
  revert b'. induction b as [|x b IH]; intros [|y b']; [done|done|done|].
  intros H. apply cons_eq_inv in H as [H1 H2]. f_equal; [by apply byte.unsigned_inj|by apply IH].
Qed.

(** A string is its leading copies of [c] and a rest that starts otherwise. *)
Lemma leading_split c b : exists rest, b = replicate (leading c b) c ++ rest /\ hd_error rest <> Some c.
Proof.
  induction b as [|x b [rest [E H]]]; [by exists []|]. simpl. destruct (Byte.eqb x c) eqn:Ex.
  - apply byte_eqb_eq in Ex as ->. exists rest. split; [simpl; by f_equal|done].
  - exists (x :: b). split; [done|]. intros [= ->]. by rewrite (proj2 (byte_eqb_eq c c)) in Ex.
Qed.

Lemma leading_app c n rest : hd_error rest <> Some c -> leading c (replicate n c ++ rest) = n.
Proof.
  intros H. induction n as [|n IH]; simpl.
  - destruct rest as [|x rest]; [done|]. simpl. destruct (Byte.eqb x c) eqn:Ex; [|done].
    apply byte_eqb_eq in Ex as ->. done.
  - rewrite (proj2 (byte_eqb_eq c c)) by done. by f_equal.
Qed.

Lemma big_SetBytes_zeros n b : big_SetBytes (replicate n Byte.x00 ++ b) = big_SetBytes b.
Proof.
  unfold big_SetBytes. rewrite rev_app_distr. induction n as [|n IH]; [by rewrite app_nil_r|].
  cbn [replicate rev]. rewrite app_assoc, le_combine_snoc, IH. change (byte.unsigned Byte.x00) with 0. lia.
Qed.

(** [big.Int.Bytes] is the big-endian notation in base 256. *)
Lemma big_Bytes_digits x : 0 <= x -> notation 256 (map byte.unsigned (rev (big_Bytes x)))
  /\ big_SetBytes (big_Bytes x) = x.
Proof.
  intros Hx.
  assert (BitLen x = 0 /\ x = 0 \/ BitLen x = Z.log2 x + 1 /\ 0 < x) as Hb.
  { unfold BitLen. destruct (Z.eqb_spec x 0); [by left|right]. rewrite Z.abs_eq by lia. lia. }
  assert (big_SetBytes (big_Bytes x) = x) as HV.
  { unfold big_SetBytes, big_Bytes. rewrite rev_involutive, le_combine_split, Z.abs_eq by done.
    apply Z.mod_small. split; [done|].
    destruct Hb as [[-> ->]|[-> Hp]]; [done|]. pose proof (Z.log2_spec x Hp) as [_ Hl].
    eapply Z.lt_le_trans; [exact Hl|]. apply Z.pow_le_mono_r; [lia|]. pose proof (Z.log2_nonneg x).
    rewrite Z2Nat.id by (apply Z.div_pos; lia). pose proof (Z.div_mod (Z.log2 x + 1 + 7) 8 ltac:(lia)).
    pose proof (Z.mod_pos_bound (Z.log2 x + 1 + 7) 8). lia. }
  split; [split; [apply bytes_digits|]|exact HV]. unfold big_SetBytes in HV.
  assert (length (rev (big_Bytes x)) = Z.to_nat ((BitLen x + 7) / 8)) as HL
    by (unfold big_Bytes; by rewrite rev_involutive, length_le_split).
  destruct (rev (big_Bytes x)) as [|b l _] using rev_ind; [done|].
  rewrite map_app; cbn [map]; rewrite List.last_last. intros Hz. rewrite le_combine_snoc, Hz in HV.
  pose proof (le_combine_bound l) as Hl. rewrite length_app in HL. cbn [length] in HL.
  destruct Hb as [[Hb ->]|[Hb Hp]]; rewrite Hb in HL; [change (Z.to_nat ((0 + 7) / 8)) with O in HL; lia|].
  pose proof (Z.log2_spec x Hp) as [Hl2 _]. pose proof (Z.log2_nonneg x).
  assert (2 ^ (8 * len l) <= 2 ^ Z.log2 x); [apply Z.pow_le_mono_r; [lia|]|lia].
  pose proof (Z.div_mod (Z.log2 x + 1 + 7) 8 ltac:(lia)). pose proof (Z.mod_pos_bound (Z.log2 x + 1 + 7) 8). lia.
Qed.

(** Byte strings that do not start with a zero are determined by their value. *)
Lemma big_Bytes_SetBytes b : hd_error b <> Some Byte.x00 -> big_Bytes (big_SetBytes b) = b.
Proof.
  intros Hb. assert (0 <= big_SetBytes b) as H0.
  { unfold big_SetBytes. pose proof (le_combine_bound (rev b)). lia. }
  destruct (big_Bytes_digits _ H0) as [Hn HV].
  enough (rev (big_Bytes (big_SetBytes b)) = rev b) as E
    by (apply (f_equal (@rev _)) in E; by rewrite !rev_involutive in E).
  apply bytes_inj.
  apply (value_inj 256); [lia|exact Hn| |by rewrite <- !big_SetBytes_value].
  split; [apply bytes_digits|]. destruct b as [|x b]; [done|]. cbn [rev]; rewrite map_app; cbn [map]; rewrite List.last_last.
  intros Hx. apply Hb. simpl. f_equal. by apply byte.unsigned_inj.
Qed.

(** The alphabet: 58 distinct characters. *)
Lemma alphabet_char d : digit 58 d -> base58AlphabetIndex (base58_char d) = d.
Proof.
  intros Hd.
  assert (forallb (fun k => base58AlphabetIndex (base58_char (Z.of_nat k)) =? Z.of_nat k) (seq 0 58) = true) as H
    by (vm_compute; reflexivity).
  rewrite forallb_forall in H. unfold digit in Hd. rewrite <- (Z2Nat.id d) by lia.
  apply Z.eqb_eq, H, in_seq. lia.
Qed.

Lemma alphabet_index_char i l c : 0 <= i -> alphabet_index i l c <> -1 ->
  i <= alphabet_index i l c < i + len l /\ nth (Z.to_nat (alphabet_index i l c - i)) l Byte.x00 = c.
Proof.
  revert i. induction l as [|a l IH]; intros i Hi H; [done|]. cbn [alphabet_index length] in *.
  destruct (Byte.eqb a c) eqn:E.
  - apply byte_eqb_eq in E as ->. rewrite Z.sub_diag. split; [lia|done].
  - destruct (IH (i + 1) ltac:(lia) H) as [Hr Hn]. split; [lia|]. etransitivity; [|exact Hn].
    replace (Z.to_nat (alphabet_index (i + 1) l c - i)) with (S (Z.to_nat (alphabet_index (i + 1) l c - (i + 1)))) by lia.
    done.
Qed.

Lemma char_alphabet c : 0 <= base58AlphabetIndex c ->
  digit 58 (base58AlphabetIndex c) /\ base58_char (base58AlphabetIndex c) = c.
Proof.
  intros H. destruct (alphabet_index_char 0 base58Alphabet c) as [Hr Hn]; [done|unfold base58AlphabetIndex in H; lia|].
  split; [exact Hr|]. rewrite Z.sub_0_r in Hn. exact Hn.
Qed.

Lemma char_inj d e : digit 58 d -> digit 58 e -> base58_char d = base58_char e -> d = e.
Proof. intros Hd He E. by rewrite <- (alphabet_char d), <- (alphabet_char e), E. Qed.

(** The decoding loop computes the value of the digits, if all characters have one. *)
Lemma decode_loop s x y : 0 <= x ->
  foldM base58_digit x s = Ok y <->
  exists ds, s = map base58_char ds /\ Forall (digit 58) ds
             /\ y = value 58 (rev ds) + x * 58 ^ len ds.
Proof.
  intros Hx. revert x Hx. induction s as [|c s IH]; intros x Hx; cbn [foldM].
  - split; [intros [= <-]; exists []; simpl; split_and!; [done|done|lia]|].
    intros ([|d ds] & E & _ & ->); [|done]. f_equal. simpl. lia.
  - unfold base58_digit at 1. destruct (Z.ltb_spec (base58AlphabetIndex c) 0) as [Hc|Hc]; cbn [rbind].
    + split; [done|]. intros ([|d ds] & E & Hds & _); [done|].
      apply cons_eq_inv in E as [-> _]. inversion_clear Hds as [|? ? Hd _]. rewrite alphabet_char in Hc by done.
      unfold digit in Hd. lia.
    + destruct (char_alphabet c Hc) as [Hd Hch]. rewrite IH by lia. split.
      * intros (ds & -> & Hds & ->). exists (base58AlphabetIndex c :: ds). split_and!.
        -- cbn [map]. by rewrite Hch.
        -- by constructor.
        -- cbn [rev]. rewrite value_app, length_rev. cbn [length value]. rewrite Nat2Z.inj_succ, Z.pow_succ_r by lia. lia.
      * intros ([|d ds] & E & Hds & ->); [done|]. apply cons_eq_inv in E as [-> ->].
        inversion_clear Hds as [|? ? Hd' Hds']. rewrite alphabet_char by done. exists ds. split_and!; [done|done|].
        cbn [rev]. rewrite value_app, length_rev. cbn [length value]. rewrite Nat2Z.inj_succ, Z.pow_succ_r by lia. lia.
Qed.

Lemma reverse_rev {A} (l : list A) : reverse l = rev l.
Proof. symmetry. apply rev_alt. Qed.

Lemma rev_replicate {A} n (x : A) : rev (replicate n x) = replicate n x.
Proof. by rewrite <- reverse_rev, reverse_replicate. Qed.

(** Most significant digit first: no leading zero. *)
Lemma notation_rev base ds :
  notation base (rev ds) <-> Forall (digit base) ds /\ hd_error ds <> Some 0.
Proof.
  unfold notation. rewrite <- reverse_rev, Forall_reverse, reverse_rev. destruct ds as [|d ds]; [done|].
  cbn [rev]. rewrite List.last_last. cbn [hd_error]. naive_solver.
Qed.

Lemma value_zeros base n : value base (replicate n 0) = 0.
Proof. induction n as [|n IH]; [done|]. cbn [replicate value]. rewrite IH. lia. Qed.

Definition digits58 (x : Z) : list Z := digits_of 58 (Z.to_nat (BitLen x)) x.

Lemma digits58_spec x : 0 <= x -> notation 58 (digits58 x) /\ value 58 (digits58 x) = x.
Proof.
  intros Hx. apply digits_of_spec; [lia|]. split; [done|]. unfold BitLen.
  destruct (Z.eqb_spec x 0) as [->|Hne]; [done|]. rewrite Z.abs_eq by lia.
  pose proof (Z.log2_spec x ltac:(lia)) as [_ H]. pose proof (Z.log2_nonneg x).
  by rewrite Z2Nat.id by lia.
Qed.

Lemma Base58Encode_split n rest : hd_error rest <> Some Byte.x00 ->
  Base58Encode (replicate n Byte.x00 ++ rest)
  = map base58_char (replicate n 0 ++ rev (digits58 (big_SetBytes rest))).
Proof.
  intros H. unfold Base58Encode. rewrite big_SetBytes_zeros, leading_app by done.
  fold (digits58 (big_SetBytes rest)). rewrite rev_app_distr, map_app, map_rev. f_equal.
  clear. rewrite rev_replicate. induction n as [|n IH]; [done|]. simpl. by f_equal.
Qed.

Lemma big_Bytes_head x : 0 <= x -> hd_error (big_Bytes x) <> Some Byte.x00.
Proof.
  intros Hx. destruct (big_Bytes_digits x Hx) as [Hn _]. rewrite map_rev in Hn.
  apply notation_rev in Hn as [_ Hn]. destruct (big_Bytes x) as [|b l]; [done|]. intros [= ->]. by apply Hn.
Qed.

Lemma leading_digits es n r : Forall (digit 58) es ->
  map base58_char es = replicate n (base58_char 0) ++ r -> hd_error r <> Some (base58_char 0) ->
  exists es', es = replicate n 0 ++ es' /\ r = map base58_char es' /\ hd_error es' <> Some 0.
Proof.
  intros Hes. revert n. induction Hes as [|d es Hd Hes IH]; intros [|n] Er Hr; try done.
  - exists []. by simpl in Er.
  - simpl in Er. subst r. exists (d :: es). split_and!; [done|done|]. intros [= ->]. by apply Hr.
  - simpl in Er. apply cons_eq_inv in Er as [Hc Er]. apply char_inj in Hc as ->; [|done|by unfold digit].
    destruct (IH n Er Hr) as (es' & -> & ? & ?). by exists es'.
Qed.

(** Base58 text is exact: [s] decodes to [b] if and only if it is the encoding of [b]. *)
Lemma base58_exact s b : Base58Decode s = Ok b <-> s = Base58Encode b.
Proof.
  unfold Base58Decode. rewrite rbind_Ok. split.
  - intros (y & Hy & [= <-]). apply decode_loop in Hy as (es & -> & Hes & ->); [|done].
    rewrite Z.mul_0_l, Z.add_0_r.
    destruct (leading_split (base58_char 0) (map base58_char es)) as (r & Er & Hr).
    generalize dependent (leading (base58_char 0) (map base58_char es)). intros n Er.
    destruct (leading_digits es n r Hes Er Hr) as (es' & -> & -> & He). clear Er Hr.
    rewrite rev_app_distr, rev_replicate, value_app, value_zeros by lia.
    rewrite Z.mul_0_r, Z.add_0_r. apply Forall_app in Hes as [_ Hes].
    assert (notation 58 (rev es')) as Hn by (by apply notation_rev).
    assert (0 <= value 58 (rev es')) as H0 by (apply value_nonneg; [lia|apply Hn]).
    rewrite Base58Encode_split by (by apply big_Bytes_head). f_equal. f_equal.
    rewrite (proj2 (big_Bytes_digits _ H0)), <- (rev_involutive es') at 1. f_equal.
    destruct (digits58_spec _ H0) as [Hd HV]. by apply (value_inj 58); [lia|..].
  - intros ->. destruct (leading_split Byte.x00 b) as (rest & E & Hr). set (n := leading _ _) in *. clearbody n. subst b.
    rewrite Base58Encode_split by done. set (x := big_SetBytes rest).
    assert (0 <= x) as H0 by (unfold x, big_SetBytes; pose proof (le_combine_bound (rev rest)); lia).
    destruct (digits58_spec x H0) as [Hd HV]. exists x. split.
    + apply decode_loop; [done|]. eexists. split_and!; [done| |].
      * apply Forall_app. split; [apply Forall_replicate; by unfold digit|]. apply Forall_rev, Hd.
      * rewrite rev_app_distr, rev_involutive, rev_replicate.
        rewrite value_app, value_zeros, HV by lia. lia.
    + rewrite map_app. replace (map base58_char (replicate n 0)) with (replicate n (base58_char 0))
        by (clear; induction n; simpl; congruence).
      rewrite leading_app.
      * unfold x. by rewrite big_Bytes_SetBytes.
      * rewrite <- (rev_involutive (digits58 x)) in Hd. apply notation_rev in Hd as [Hf Hd].
        destruct (rev (digits58 x)) as [|d l]; [done|]. simpl. intros [= Hc]. apply Hd. simpl.
        inversion_clear Hf. f_equal. by apply char_inj.
Qed.

(** ** Checksummed text *)

Lemma length_base58Checksum payload : length (base58Checksum payload) = 4%nat.
Proof. unfold base58Checksum. rewrite length_take, length_sha256. done. Qed.

(** Base58Check text is exact. *)
Lemma base58check_exact s v payload :
  Base58CheckDecode s = Ok (v, payload) <-> s = Base58CheckEncode v payload.
Proof.
  unfold Base58CheckDecode, Base58CheckEncode. rewrite rbind_Ok. split.
  - intros (d & Hd & H). apply base58_exact in Hd as ->. f_equal.
    destruct (Z.ltb_spec (len d) 5) as [|Hlen]; [done|].
    destruct (bool_decide_reflect (base58Checksum (take (length d - 4) d) = drop (length d - 4) d)) as [Hc|]; [|done].
    injection H as <- <-.
    assert (nth 0 d Byte.x00 :: slice 1 (length d - 4) d = take (length d - 4) d) as ->.
    { destruct d as [|x d]; [simpl in Hlen; lia|]. cbn [length nth] in *. unfold slice.
      replace (S (length d) - 4)%nat with (S (length d - 4)) by lia. simpl. by rewrite Nat.sub_0_r. }
    rewrite Hc. by rewrite take_drop.
  - intros ->. exists (v :: payload ++ base58Checksum (v :: payload)). split; [by apply base58_exact|].
    pose proof (length_base58Checksum (v :: payload)) as Hl. set (ck := base58Checksum _) in *.
    assert (length (v :: payload ++ ck) = 5 + length payload)%nat as HL
      by (simpl; rewrite length_app, Hl; lia).
    rewrite HL. destruct (Z.ltb_spec (Z.of_nat (5 + length payload)) 5); [lia|].
    change (v :: payload ++ ck) with ((v :: payload) ++ ck).
    replace (5 + length payload - 4)%nat with (length (v :: payload)) by (simpl; lia).
    rewrite take_app_length, drop_app_length. fold ck. rewrite bool_decide_true by done. simpl.
    do 2 f_equal. unfold slice. simpl. rewrite Nat.sub_0_r. rewrite drop_0. by rewrite take_app_length.
Qed.

Lemma address_decode h v : length h = PubKeyHashSize -> AddressToPubKeyHash (PubKeyHashToAddress h v) = Ok (v, h).
Proof.
  intros H. unfold AddressToPubKeyHash, PubKeyHashToAddress. rewrite (proj2 (base58check_exact _ _ _) eq_refl).
  cbn [rbind]. by rewrite H.
Qed.

Lemma EncodeWIF_32 key v :
  length key = 32%nat -> EncodeWIF key v = Base58CheckEncode (WIFVersionForAddress v) (key ++ [Byte.x01]).
Proof. intros Hx. unfold EncodeWIF. rewrite (take_ge key 33) by lia. by rewrite take_app_le, take_ge by lia. Qed.

Lemma DecodeWIF_EncodeWIF key v :
  length key = 32%nat -> DecodeWIF (EncodeWIF key v) = Ok (key, true, WIFVersionForAddress v).
Proof.
  intros Hk. rewrite EncodeWIF_32 by done. unfold DecodeWIF.
  rewrite (proj2 (base58check_exact _ _ _) eq_refl). cbn [rwrap rbind].
  replace (negb _ && negb _) with false by (unfold WIFVersionForAddress; by destruct (Byte.eqb v Byte.x00)).
  rewrite length_app, Hk. unfold byte_at. rewrite app_nth2 by lia. rewrite Hk. simpl.
  by rewrite take_app_le, take_ge by lia.
Qed.

(** C28. Address text is exact and safe to retype: [AddressToPubKeyHash] returns a version and
    a key hash exactly for the string that [PubKeyHashToAddress] makes of them, so two
    different strings never name the same key, and any other string is refused. *)
Theorem address_exact s v h :
  AddressToPubKeyHash s = Ok (v, h) <-> s = PubKeyHashToAddress h v /\ length h = PubKeyHashSize.
Proof.
  unfold AddressToPubKeyHash, PubKeyHashToAddress. rewrite rbind_Ok, <- base58check_exact. split.
  - intros ([v' h'] & -> & H). destruct (Z.eqb_spec (len h') (Z.of_nat PubKeyHashSize)); [|done].
    injection H as -> ->. split; [done|lia].
  - intros [-> H]. eexists. split; [done|]. simpl. by rewrite H.
Qed.

(** Exported private keys come back: [DecodeWIF] of what [EncodeWIF] writes for a
    32-byte key is the key, marked compressed, with the version of the network; and
    whatever it accepts as a compressed key on that network is that encoding. *)
Theorem wif_roundtrip key v s k ver :
  length key = 32%nat ->
  DecodeWIF (EncodeWIF key v) = Ok (key, true, WIFVersionForAddress v)
  /\ (DecodeWIF s = Ok (k, true, ver) -> ver = WIFVersionForAddress v -> s = EncodeWIF k v).
Proof.
  intros Hk. split; [by apply DecodeWIF_EncodeWIF|].
  - intros H ->. unfold DecodeWIF in H. apply rbind_Ok in H as ([v' p] & H1 & H). apply rwrap_Ok, base58check_exact in H1 as ->.
    destruct (negb _ && negb _); [done|]. destruct (Z.eqb_spec (len p) 33) as [Hl|].
    + destruct (Z.eqb_spec (byte_at p 32) 0x01) as [Hb|]; [|done]. injection H as <- ->.
      rewrite EncodeWIF_32 by (rewrite length_take; lia). f_equal.
      rewrite <- (take_drop 32 p) at 1. f_equal.
      destruct (drop 32 p) as [|x [|y l]] eqn:E; pose proof (length_drop p 32) as HL; rewrite E in HL; simpl in HL; try lia.
      assert (nth 0 (drop 32 p) Byte.x00 = nth 32 p Byte.x00) as Hn by (change (drop 32 p) with (skipn 32 p); by rewrite nth_skipn).
      rewrite E in Hn. unfold byte_at in Hb. rewrite <- Hn in Hb. f_equal. by apply byte.unsigned_inj.
    + by destruct (len p =? 32).
Qed.

Lemma wif_roundtrip_witness :
  DecodeWIF (EncodeWIF (replicate 32 Byte.x07) Byte.x00) = Ok (replicate 32 Byte.x07, true, WIFVersionForAddress Byte.x00).
Proof. refine (proj1 (wif_roundtrip (replicate 32 Byte.x07) Byte.x00 [] [] Byte.x00 _)). reflexivity. Defined.

(** Known values: the empty hash on mainnet, and a private key. *)
Example zero_address :
  PubKeyHashToAddress (replicate 20 Byte.x00) Byte.x00 = bytes_of_string "1111111111111111111114oLvT2".
Proof. vm_compute. reflexivity. Qed.
