(* ===== verification/Aes.v ===== *)
(** * AES-256 in CBC mode

    The functions of Go's [crypto/aes] and [crypto/cipher] that the wallet's encryption
    calls (FIPS 197 with 256-bit keys, the only size the wallet uses).  They are
    executable and checked against the vector of the standard; decryption is shown to
    invert encryption, layer by layer. *)
From S2P Require Import Prelude.
From Stdlib Require Import Btauto.

(** ** Bytes as elements of GF(2^8) *)

Definition xor (a b : byte) : byte := byte.of_Z (Z.lxor (byte.unsigned a) (byte.unsigned b)).

(** Multiplication by [x], modulo [x^8 + x^4 + x^3 + x + 1]. *)
Definition xtime (b : byte) : byte :=
  let d := 2 * byte.unsigned b in
  byte.of_Z (if d <? 256 then d else Z.lxor d 0x11b).

(** The product, by the binary digits of [c] from the lowest. *)
Fixpoint gmul_bits (n : nat) (c : Z) (b : byte) : byte :=
  match n with
  | O => Byte.x00
  | S n => let rest := gmul_bits n (c / 2) (xtime b) in
           if Z.odd c then xor b rest else rest
  end.
Definition gmul (c b : byte) : byte := gmul_bits 8 (byte.unsigned c) b.

(** The inverse [b^254], and the affine map of the S-box. *)
Definition ginv (b : byte) : byte := Nat.iter 253 (gmul b) b.
Definition rotl8 (n : Z) (b : byte) : byte :=
  let z := byte.unsigned b in byte.of_Z (Z.lor (Z.shiftl z n mod 256) (Z.shiftr z (8 - n))).
Definition sub_byte_spec (b : byte) : byte :=
  let i := ginv b in
  xor i (xor (rotl8 1 i) (xor (rotl8 2 i) (xor (rotl8 3 i) (xor (rotl8 4 i) (byte.of_Z 0x63))))).

Definition all_bytes : list byte := Eval vm_compute in map (fun n => byte.of_Z (Z.of_nat n)) (seq 0 256).
Definition sbox : list byte := Eval vm_compute in map sub_byte_spec all_bytes.
Definition inv_sbox : list byte := Eval vm_compute in
  map (fun b => default Byte.x00 (list_find (fun x => Byte.eqb (nth (Z.to_nat (byte.unsigned x)) sbox Byte.x00) b)
                                    all_bytes ≫= fun '(_, x) => Some x)) all_bytes.

Definition sub_byte (b : byte) : byte := nth (Z.to_nat (byte.unsigned b)) sbox Byte.x00.
Definition inv_sub_byte (b : byte) : byte := nth (Z.to_nat (byte.unsigned b)) inv_sbox Byte.x00.

(** ** The layers of a round, on 16 bytes in column order *)

Definition permute (src : nat -> nat) (s : list byte) : list byte :=
  map (fun i => nth (src i) s Byte.x00) (seq 0 16).
Definition shift_rows : list byte -> list byte := permute (fun i => (i + 4 * (i mod 4)) mod 16)%nat.
Definition inv_shift_rows : list byte -> list byte := permute (fun i => (i + 12 * (i mod 4)) mod 16)%nat.

Definition times2 := xtime.
Definition times3 b := xor (xtime b) b.
Definition times9 b := xor (xtime (xtime (xtime b))) b.
Definition times11 b := xor (xtime (xtime (xtime b))) (xor (xtime b) b).
Definition times13 b := xor (xtime (xtime (xtime b))) (xor (xtime (xtime b)) b).
Definition times14 b := xor (xtime (xtime (xtime b))) (xor (xtime (xtime b)) (xtime b)).

(** One column times the circulant matrix with first row [f0 f1 f2 f3]. *)
Definition mix (f0 f1 f2 f3 : byte -> byte) (a b c d : byte) : list byte :=
  let row w x y z := xor (f0 w) (xor (f1 x) (xor (f2 y) (f3 z))) in
  [row a b c d; row b c d a; row c d a b; row d a b c].

Fixpoint columns (f : byte -> byte -> byte -> byte -> list byte) (s : list byte) : list byte :=
  match s with
  | a :: b :: c :: d :: s => f a b c d ++ columns f s
  | _ => []
  end.
Definition mix_columns := columns (mix times2 times3 (fun b => b) (fun b => b)).
Definition inv_mix_columns := columns (mix times14 times11 times13 times9).

Definition add_round_key (k s : list byte) : list byte := zip_with xor s k.

(** ** The cipher *)

(** FIPS 197, 5.2 with [Nk = 8]: the words of the key schedule, the latest first; [rcon]
    is the next round constant. *)
Fixpoint expand (n : nat) (i : Z) (rcon : byte) (w : list (list byte)) : list (list byte) :=
  match n with
  | O => w
  | S n =>
      let temp := nth 0 w [] in
      let temp' :=
        if i mod 8 =? 0 then
          match map sub_byte (drop 1 temp ++ take 1 temp) with
          | x :: t => xor x rcon :: t
          | [] => []
          end
        else if i mod 8 =? 4 then map sub_byte temp else temp in
      let rcon' := if i mod 8 =? 0 then xtime rcon else rcon in
      expand n (i + 1) rcon' (zip_with xor (nth 7 w []) temp' :: w)
  end.

Fixpoint group (n : nat) (l : list byte) : list (list byte) :=
  match n with O => [] | S n => take 16 l :: group n (drop 16 l) end.

(** The fifteen round keys of [aes.NewCipher], for a key of 32 bytes. *)
Definition round_keys (key : list byte) : list (list byte) :=
  let words := map (fun i => slice (4 * i) (4 * i + 4) key) (seq 0 8) in
  group 15 (concat (rev (expand 52 8 Byte.x01 (rev words)))).

Definition enc_round (s k : list byte) : list byte :=
  add_round_key k (mix_columns (shift_rows (map sub_byte s))).
Definition dec_round (s k : list byte) : list byte :=
  map inv_sub_byte (inv_shift_rows (inv_mix_columns (add_round_key k s))).

Definition encrypt_block (ks : list (list byte)) (s : list byte) : list byte :=
  let s := add_round_key (nth 0 ks []) s in
  let s := fold_left enc_round (slice 1 14 ks) s in
  add_round_key (nth 14 ks []) (shift_rows (map sub_byte s)).

Definition decrypt_block (ks : list (list byte)) (s : list byte) : list byte :=
  let s := map inv_sub_byte (inv_shift_rows (add_round_key (nth 14 ks []) s)) in
  let s := fold_left dec_round (rev (slice 1 14 ks)) s in
  add_round_key (nth 0 ks []) s.

Example fips_197_c3 :
  encrypt_block (round_keys (bytes_of (map Z.of_nat (seq 0 32)))) (bytes_of (map (fun i => 17 * Z.of_nat i) (seq 0 16)))
  = bytes_of [0x8e; 0xa2; 0xb7; 0xca; 0x51; 0x67; 0x45; 0xbf; 0xea; 0xfc; 0x49; 0x90; 0x4b; 0x49; 0x60; 0x89].
Proof. vm_compute. reflexivity. Qed.

(** ** CBC ([cipher.NewCBCEncrypter], [cipher.NewCBCDecrypter]), over [n] blocks *)

Fixpoint cbc_encrypt (ks : list (list byte)) (n : nat) (iv src : list byte) : list byte :=
  match n with
  | O => []
  | S n => let c := encrypt_block ks (zip_with xor (take 16 src) iv) in
           c ++ cbc_encrypt ks n c (drop 16 src)
  end.

Fixpoint cbc_decrypt (ks : list (list byte)) (n : nat) (iv src : list byte) : list byte :=
  match n with
  | O => []
  | S n => let c := take 16 src in
           zip_with xor (decrypt_block ks c) iv ++ cbc_decrypt ks n c (drop 16 src)
  end.

(** ** The layers are invertible *)

Lemma unsigned_xor a b : byte.unsigned (xor a b) = Z.lxor (byte.unsigned a) (byte.unsigned b).
Proof.
  unfold xor. rewrite byte.unsigned_of_Z. apply Z.mod_small.
  pose proof (byte.unsigned_range a) as Ha. pose proof (byte.unsigned_range b) as Hb.
  assert (0 <= Z.lxor (byte.unsigned a) (byte.unsigned b)) as H0 by (apply Z.lxor_nonneg; lia).
  split; [done|]. destruct (Z.eq_dec (Z.lxor (byte.unsigned a) (byte.unsigned b)) 0) as [->|Hn]; [done|].
  apply Z.log2_lt_pow2; [lia|]. eapply Z.le_lt_trans; [apply Z.log2_lxor; lia|].
  assert (forall x, 0 <= x < 2^8 -> Z.log2 x < 8) as Hl.
  { intros x Hx. destruct (Z.eq_dec x 0) as [->|]; [done|]. apply Z.log2_lt_pow2; lia. }
  apply Z.max_lub_lt; apply Hl; lia.
Qed.

Lemma bits_eq a b : (forall i, Z.testbit (byte.unsigned a) i = Z.testbit (byte.unsigned b) i) -> a = b.
Proof. intros H. apply byte.unsigned_inj, Z.bits_inj'. intros i _. apply H. Qed.

(** Equations between sums of bytes. *)
Ltac xor_solve :=
  apply bits_eq; intros ?; rewrite ?unsigned_xor, ?Z.lxor_spec;
  repeat match goal with |- context [Z.testbit (byte.unsigned ?x) ?i] => generalize (Z.testbit (byte.unsigned x) i); intros ? end;
  btauto.

Lemma xor_involutive a k : xor (xor a k) k = a.
Proof. xor_solve. Qed.
Lemma xor_comm a b : xor a b = xor b a.
Proof. xor_solve. Qed.

Lemma all_bytes_elem b : In b all_bytes.
Proof.
  assert (existsb (Byte.eqb b) all_bytes = true) as H by (destruct b; vm_compute; reflexivity).
  apply existsb_exists in H as (x & Hx & E). by apply Byte.byte_dec_bl in E as ->.
Qed.

Lemma xtime_xor a b : xtime (xor a b) = xor (xtime a) (xtime b).
Proof.
  assert (forallb (fun x => forallb (fun y => Byte.eqb (xtime (xor x y)) (xor (xtime x) (xtime y))) all_bytes) all_bytes = true)
    as H by (vm_compute; reflexivity).
  rewrite forallb_forall in H. specialize (H a (all_bytes_elem a)). rewrite forallb_forall in H.
  apply Byte.byte_dec_bl, H, all_bytes_elem.
Qed.

Lemma inv_sub_sub b : inv_sub_byte (sub_byte b) = b.
Proof. destruct b; vm_compute; reflexivity. Qed.

Lemma inv_sub_layer s : map inv_sub_byte (map sub_byte s) = s.
Proof. rewrite map_map. rewrite <- (map_id s) at 2. apply map_ext, inv_sub_sub. Qed.

(** A list of 16 bytes, byte by byte. *)
Ltac block16 s H :=
  do 16 (destruct s as [|? s]; [done|]); destruct s; [clear H|done].

Lemma inv_shift_shift s : length s = 16%nat -> inv_shift_rows (shift_rows s) = s.
Proof. intros H. block16 s H. vm_compute. reflexivity. Qed.

Lemma columns_inv f g :
  (forall a b c d, exists w x y z, f a b c d = [w; x; y; z] /\ g w x y z = [a; b; c; d]) ->
  forall n s, length s = (4 * n)%nat ->
  length (columns f s) = (4 * n)%nat /\ columns g (columns f s) = s.
Proof.
  intros Hfg n. induction n as [|n IH]; intros s Hs.
  - destruct s; done.
  - do 4 (destruct s as [|? s]; [simpl in Hs; lia|]).
    match goal with |- context [columns f (?a :: ?b :: ?c :: ?d :: s)] =>
      destruct (Hfg a b c d) as (w & x & y & z & Hf & Hg) end.
    destruct (IH s ltac:(simpl in Hs; lia)) as [Hl Hi].
    cbn [columns]. rewrite Hf. cbn [columns app length]. rewrite Hg, Hi, Hl. split; [lia|done].
Qed.

Lemma inv_mix_mix s : length s = 16%nat ->
  length (mix_columns s) = 16%nat /\ inv_mix_columns (mix_columns s) = s.
Proof.
  intros H. apply (columns_inv _ _) with (n := 4%nat); [|done]. intros a b c d.
  do 4 eexists. split; [reflexivity|]. unfold mix, times2, times3, times9, times11, times13, times14.
  rewrite !xtime_xor. repeat (apply f_equal2; [xor_solve|]). done.
Qed.

Lemma length_xor k s : length k = length s -> length (zip_with xor k s) = length s.
Proof. intros H. rewrite length_zip_with. lia. Qed.

Lemma xor_key k s : length k = length s -> add_round_key k (add_round_key k s) = s.
Proof.
  unfold add_round_key. revert s. induction k as [|x k IH]; intros [|y s] H; try done.
  cbn [zip_with]. rewrite IH by (simpl in H; lia). f_equal. xor_solve.
Qed.

Lemma xor_mask s k : length s = length k -> zip_with xor (zip_with xor s k) k = s.
Proof.
  revert k. induction s as [|x s IH]; intros [|y k] H; try done.
  cbn [zip_with]. rewrite IH by (simpl in H; lia). f_equal. apply xor_involutive.
Qed.

Lemma length_shift_rows s : length (shift_rows s) = 16%nat.
Proof. done. Qed.

(** ** Decryption inverts encryption *)

Lemma length_enc_round s k : length s = 16%nat -> length k = 16%nat -> length (enc_round s k) = 16%nat.
Proof.
  intros Hs Hk. unfold enc_round, add_round_key. destruct (inv_mix_mix (shift_rows (map sub_byte s))) as [Hm _]; [done|].
  rewrite length_xor; congruence.
Qed.

Lemma dec_enc_round s k : length s = 16%nat -> length k = 16%nat -> dec_round (enc_round s k) k = s.
Proof.
  intros Hs Hk. unfold dec_round, enc_round.
  destruct (inv_mix_mix (shift_rows (map sub_byte s))) as [Hm Hi]; [done|].
  rewrite xor_key by congruence. rewrite Hi, inv_shift_shift by (by rewrite length_map). apply inv_sub_layer.
Qed.

Lemma enc_rounds_length ks s :
  Forall (fun k => length k = 16%nat) ks -> length s = 16%nat -> length (fold_left enc_round ks s) = 16%nat.
Proof.
  intros Hk. revert s. induction Hk as [|k ks Hk _ IH]; intros s Hs; [done|]. cbn [fold_left].
  by apply IH, length_enc_round.
Qed.

Lemma dec_enc_rounds ks s :
  Forall (fun k => length k = 16%nat) ks -> length s = 16%nat ->
  fold_left dec_round (rev ks) (fold_left enc_round ks s) = s.
Proof.
  intros Hk. revert s. induction Hk as [|k ks Hk Hks IH]; intros s Hs; [done|]. cbn [fold_left rev].
  rewrite fold_left_app. rewrite IH by (by apply length_enc_round). cbn [fold_left]. by apply dec_enc_round.
Qed.

(** Fifteen round keys of 16 bytes. *)
Definition good_keys (ks : list (list byte)) : Prop := length ks = 15%nat /\ Forall (fun k => length k = 16%nat) ks.

Lemma good_key ks i : good_keys ks -> (i < 15)%nat -> length (nth i ks []) = 16%nat.
Proof. intros [Hl Hf] Hi. rewrite Forall_forall in Hf. apply Hf, list_elem_of_In, nth_In. lia. Qed.

Lemma good_middle ks : good_keys ks -> Forall (fun k => length k = 16%nat) (slice 1 14 ks).
Proof. intros [_ Hf]. unfold slice. by apply Forall_take, Forall_drop. Qed.

Lemma length_encrypt_block ks s : good_keys ks -> length s = 16%nat -> length (encrypt_block ks s) = 16%nat.
Proof.
  intros Hk Hs. unfold encrypt_block, add_round_key. 
  set (t := fold_left _ _ _). pose proof (length_shift_rows (map sub_byte t)) as Ht.
  pose proof (good_key ks 14 Hk ltac:(lia)) as H14. rewrite length_xor; congruence.
Qed.

Lemma decrypt_encrypt_block ks s :
  good_keys ks -> length s = 16%nat -> decrypt_block ks (encrypt_block ks s) = s.
Proof.
  intros Hk Hs. pose proof (good_key ks 0 Hk ltac:(lia)) as H0. pose proof (good_key ks 14 Hk ltac:(lia)) as H14.
  unfold decrypt_block, encrypt_block. set (t := fold_left enc_round _ _).
  assert (length (add_round_key (nth 0 ks []) s) = 16%nat) as Hl by (unfold add_round_key; rewrite length_xor; congruence).
  assert (length t = 16%nat) as Ht by (apply enc_rounds_length; [by apply good_middle|done]).
  rewrite xor_key by (by rewrite H14). rewrite inv_shift_shift by (by rewrite length_map). rewrite inv_sub_layer.
  unfold t. rewrite dec_enc_rounds by (done || by apply good_middle). apply xor_key. congruence.
Qed.

Lemma cbc_roundtrip ks n iv src :
  good_keys ks -> length iv = 16%nat -> length src = (16 * n)%nat ->
  length (cbc_encrypt ks n iv src) = (16 * n)%nat
  /\ cbc_decrypt ks n iv (cbc_encrypt ks n iv src) = src.
Proof.
  intros Hk. revert iv src. induction n as [|n IH]; intros iv src Hiv Hs.
  - destruct src; [done|simpl in Hs; lia].
  - assert (length (take 16 src) = 16%nat) as Ht by (rewrite length_take; lia).
    assert (length (zip_with xor (take 16 src) iv) = 16%nat) as Hz by (rewrite length_xor; congruence).
    pose proof (length_encrypt_block ks _ Hk Hz) as Hc. cbn [cbc_encrypt cbc_decrypt].
    set (c := encrypt_block ks _) in *.
    destruct (IH c (drop 16 src) Hc ltac:(rewrite length_drop; lia)) as [Hl Hd].
    rewrite length_app, Hc, Hl. split; [lia|].
    rewrite take_app_le, drop_app_ge, take_ge, Hc, Nat.sub_diag, drop_0 by lia. rewrite Hd.
    unfold c. rewrite decrypt_encrypt_block by done.
    rewrite <- (take_drop 16 src) at 3. f_equal.
    apply xor_mask. congruence.
Qed.

(** The schedule has fifteen keys of 16 bytes. *)
Lemma expand_words n : forall i rcon w,
  Forall (fun x => length x = 4%nat) w -> (8 <= length w)%nat ->
  Forall (fun x => length x = 4%nat) (expand n i rcon w) /\ length (expand n i rcon w) = (n + length w)%nat.
Proof.
  induction n as [|n IH]; intros i rcon w Hw Hl; [done|]. cbn [expand].
  assert (forall j, (j < length w)%nat -> length (nth j w []) = 4%nat) as Hn
    by (intros j Hj; rewrite Forall_forall in Hw; by apply Hw, list_elem_of_In, nth_In).
  pose proof (Hn 0%nat ltac:(lia)) as H0. pose proof (Hn 7%nat ltac:(lia)) as H7.
  match goal with |- context [zip_with xor _ ?t :: w] => set (temp' := t) end.
  assert (length temp' = 4%nat) as Ht.
  { unfold temp'. destruct (i mod 8 =? 0); [|destruct (_ =? 4); [by rewrite length_map|done]].
    destruct (nth 0 w []) as [|a [|b [|c [|d [|]]]]]; try done. }
  destruct (IH (i + 1) (if i mod 8 =? 0 then xtime rcon else rcon) (zip_with xor (nth 7 w []) temp' :: w)) as [Hf HL].
  - constructor; [|done]. rewrite length_xor; congruence.
  - simpl. lia.
  - split; [done|]. rewrite HL. simpl. lia.
Qed.

Lemma length_concat_words {A} n (w : list (list A)) :
  Forall (fun x => length x = n) w -> length (concat w) = (n * length w)%nat.
Proof. induction 1 as [|x w Hx _ IH]; simpl; [lia|]. rewrite length_app, Hx, IH. lia. Qed.

Lemma group_keys n l : length l = (16 * n)%nat ->
  length (group n l) = n /\ Forall (fun k => length k = 16%nat) (group n l).
Proof.
  revert l. induction n as [|n IH]; intros l H; [done|]. cbn [group length].
  destruct (IH (drop 16 l)) as [Hl Hf]; [rewrite length_drop; lia|]. rewrite Hl. split; [done|].
  constructor; [rewrite length_take; lia|done].
Qed.

Lemma good_round_keys key : length key = 32%nat -> good_keys (round_keys key).
Proof.
  intros Hk. unfold round_keys. set (words := map _ (seq 0 8)).
  assert (Forall (fun x => length x = 4%nat) words) as Hw.
  { unfold words. apply Forall_map, Forall_forall. intros i Hi. apply elem_of_seq in Hi.
    unfold slice. rewrite length_take, length_drop. lia. }
  destruct (expand_words 52 8 Byte.x01 (rev words)) as [Hf Hl]; [by apply Forall_rev|by rewrite length_rev|].
  apply group_keys. rewrite (length_concat_words 4) by (by apply Forall_rev).
  rewrite length_rev, Hl, length_rev. done.
Qed.
