(* ===== verification/Params.v ===== *)
(** * Network parameters and the issuance schedule

    Models [src/internal/params/params.go], [networks.go] and [genesis.go].
    A [time.Duration] is its number of nanoseconds. *)
From S2P Require Import Prelude Types Sha256 Crypto Target.

Definition time_Second : Z := 1000000000.
Definition time_Minute : Z := 60 * time_Second.
Definition time_Hour : Z := 60 * time_Minute.

Record ChainParams := {
  p_Name : string; p_DataDirName : string; p_NetworkMagic : list byte;
  p_DefaultPort : Z; p_AddressPrefix : Z;
  p_GenesisBlock : Block; p_GenesisHash : Hash;
  p_TargetBlockSpacing : Z; p_RetargetInterval : Z; p_TargetTimespan : Z;
  p_MaxTimeFutureDrift : Z; p_MinTimestampRule : string;
  p_InitialBits : Z; p_MinBits : Z; p_NoRetarget : bool;
  p_MaxBlockSize : Z; p_MaxBlockTxCount : Z;
  p_InitialSubsidy : Z; p_SubsidyHalvingInterval : Z;
  p_CoinbaseMaturity : Z; p_MaxReorgDepth : Z;
  p_MaxMempoolSize : Z; p_MinRelayTxFee : Z;
  p_SeedNodes : list string; p_ActivationHeights : gmap string Z }.

Definition CalcSubsidy (p : ChainParams) (height : Z) : Z :=
  if p_SubsidyHalvingInterval p =? 0 then p_InitialSubsidy p
  else
    let halvings := height / p_SubsidyHalvingInterval p in
    if halvings >=? 64 then 0
    else Z.shiftr (p_InitialSubsidy p) halvings.

(** ** Genesis blocks ([genesis.go]) *)

Record GenesisConfig := {
  g_NetworkName : string; g_CoinbaseMessage : list byte; g_Timestamp : Z; g_Bits : Z;
  g_Version : Z; g_Reward : Z; g_RewardScript : list byte; g_ExtraOutputs : list TxOutput }.

Definition BuildGenesisBlock (cfg : GenesisConfig) : Block :=
  let outputs := [{| out_Value := g_Reward cfg; out_PkScript := g_RewardScript cfg |}]
                 ++ g_ExtraOutputs cfg in
  let coinbaseTx :=
    {| tx_Version := 1;
       tx_Inputs := [{| in_PreviousOutPoint := CoinbaseOutPoint;
                        in_SignatureScript := g_CoinbaseMessage cfg;
                        in_Sequence := 0xFFFFFFFF |}];
       tx_Outputs := outputs;
       tx_LockTime := 0 |} in
  {| blk_Header :=
       {| hdr_Version := g_Version cfg; hdr_PrevBlock := ZeroHash; hdr_MerkleRoot := ZeroHash;
          hdr_Timestamp := g_Timestamp cfg; hdr_Bits := g_Bits cfg; hdr_Nonce := 0 |};
     blk_Transactions := [coinbaseTx] |}.

(** ** The three networks ([networks.go]) *)

Definition MaxMoneyValue : Z := 2099999997690000.
Definition TestnetPremineAmount : Z := MaxMoneyValue / 5.
Definition TestnetBurnScript : list byte := bytes_of_string "burn:testnet:premine:v1".

Definition mainnet_genesis : Block :=
  {| blk_Header :=
       {| hdr_Version := 1; hdr_PrevBlock := ZeroHash;
          hdr_MerkleRoot := bytes_of
            [0x1a; 0x43; 0xdf; 0x3e; 0xf8; 0x14; 0x0d; 0xbe;
             0x47; 0xad; 0xea; 0xdb; 0x14; 0x1b; 0xd4; 0xbb;
             0x74; 0xee; 0x7d; 0x6f; 0x81; 0x44; 0x1c; 0x4d;
             0xc0; 0x41; 0x16; 0xf1; 0xb5; 0x01; 0xdc; 0xb5];
          hdr_Timestamp := 1773212462; hdr_Bits := 0x1e0fffff; hdr_Nonce := 433076 |};
     blk_Transactions :=
       [{| tx_Version := 1;
           tx_Inputs := [{| in_PreviousOutPoint := CoinbaseOutPoint;
                            in_SignatureScript := bytes_of_string "fairchain mainnet genesis";
                            in_Sequence := 0xFFFFFFFF |}];
           tx_Outputs := [{| out_Value := 5000000000; out_PkScript := [Byte.x00] |}];
           tx_LockTime := 0 |}] |}.

Definition Mainnet : ChainParams :=
  {| p_Name := "mainnet"; p_DataDirName := "";
     p_NetworkMagic := bytes_of [0xFA; 0x1C; 0xC0; 0x01];
     p_DefaultPort := 19333; p_AddressPrefix := 0x00;
     p_GenesisBlock := mainnet_genesis;
     p_GenesisHash := bytes_of
       [0x54; 0x70; 0xb8; 0x1f; 0x36; 0x56; 0xe1; 0xce;
        0xa1; 0x57; 0x04; 0x11; 0xe3; 0x39; 0x66; 0xec;
        0xb8; 0xce; 0x12; 0x7a; 0x8c; 0x5c; 0xef; 0x20;
        0xe8; 0x82; 0xab; 0xed; 0xb0; 0x0d; 0x00; 0x00];
     p_TargetBlockSpacing := 10 * time_Minute; p_RetargetInterval := 144;
     p_TargetTimespan := 144 * 10 * time_Minute;
     p_MaxTimeFutureDrift := 2 * time_Hour; p_MinTimestampRule := "median-11";
     p_InitialBits := 0x1e0fffff; p_MinBits := 0x1e0fffff; p_NoRetarget := false;
     p_MaxBlockSize := 1000000; p_MaxBlockTxCount := 10000;
     p_InitialSubsidy := 5000000000; p_SubsidyHalvingInterval := 210000;
     p_CoinbaseMaturity := 100; p_MaxReorgDepth := 288;
     p_MaxMempoolSize := 5000; p_MinRelayTxFee := 1000;
     p_SeedNodes := []; p_ActivationHeights := ∅ |}.

Definition testnet_genesis : Block :=
  {| blk_Header :=
       {| hdr_Version := 1; hdr_PrevBlock := ZeroHash;
          hdr_MerkleRoot := bytes_of
            [0xb5; 0x8a; 0xb7; 0x94; 0xe8; 0x13; 0x5d; 0x55;
             0xf9; 0x7b; 0x93; 0x7f; 0xbb; 0x19; 0xca; 0xa3;
             0xe4; 0x3b; 0xd0; 0x3f; 0xe6; 0x0b; 0x4e; 0x08;
             0x19; 0x0a; 0xf5; 0x44; 0x52; 0xce; 0xd2; 0x3a];
          hdr_Timestamp := 1773533803; hdr_Bits := 0x1e07ffff; hdr_Nonce := 3715263 |};
     blk_Transactions :=
       [{| tx_Version := 1;
           tx_Inputs := [{| in_PreviousOutPoint := CoinbaseOutPoint;
                            in_SignatureScript := bytes_of_string "fairchain testnet genesis";
                            in_Sequence := 0xFFFFFFFF |}];
           tx_Outputs := [{| out_Value := 50000000; out_PkScript := [Byte.x00] |};
                          {| out_Value := TestnetPremineAmount; out_PkScript := TestnetBurnScript |}];
           tx_LockTime := 0 |}] |}.

Definition Testnet : ChainParams :=
  {| p_Name := "testnet"; p_DataDirName := "testnet2";
     p_NetworkMagic := bytes_of [0xFA; 0x1C; 0xC0; 0x02];
     p_DefaultPort := 19334; p_AddressPrefix := 0x6F;
     p_GenesisBlock := testnet_genesis;
     p_GenesisHash := bytes_of
       [0xce; 0x06; 0xa5; 0x41; 0x25; 0x84; 0xc9; 0x47;
        0xdb; 0xa7; 0x4e; 0x7a; 0xfe; 0x9e; 0x00; 0x0e;
        0x07; 0xe1; 0xa2; 0x46; 0x55; 0xbc; 0x4f; 0x01;
        0xa6; 0x1c; 0x1f; 0x56; 0x0a; 0x00; 0x00; 0x00];
     p_TargetBlockSpacing := 5 * time_Second; p_RetargetInterval := 20;
     p_TargetTimespan := 20 * 5 * time_Second;
     p_MaxTimeFutureDrift := 2 * time_Minute; p_MinTimestampRule := "median-11";
     p_InitialBits := 0x1e07ffff; p_MinBits := 0x1e0fffff; p_NoRetarget := false;
     p_MaxBlockSize := 2000000; p_MaxBlockTxCount := 10000;
     p_InitialSubsidy := 50000000; p_SubsidyHalvingInterval := 21000000;
     p_CoinbaseMaturity := 10; p_MaxReorgDepth := 1000;
     p_MaxMempoolSize := 5000; p_MinRelayTxFee := 100;
     p_SeedNodes := ["45.32.196.26:19334"; "207.148.9.169:19334"]%string;
     p_ActivationHeights := ∅ |}.

(** The zero values of [GenesisBlock] and [GenesisHash], which [InitGenesis] sets. *)
Definition zero_block : Block :=
  {| blk_Header := {| hdr_Version := 0; hdr_PrevBlock := ZeroHash; hdr_MerkleRoot := ZeroHash;
                      hdr_Timestamp := 0; hdr_Bits := 0; hdr_Nonce := 0 |};
     blk_Transactions := [] |}.

Definition Regtest : ChainParams :=
  {| p_Name := "regtest"; p_DataDirName := "regtest";
     p_NetworkMagic := bytes_of [0xFA; 0x1C; 0xC0; 0xFF];
     p_DefaultPort := 19444; p_AddressPrefix := 0x6F;
     p_GenesisBlock := zero_block; p_GenesisHash := ZeroHash;
     p_TargetBlockSpacing := 1 * time_Second; p_RetargetInterval := 1;
     p_TargetTimespan := 1 * time_Second;
     p_MaxTimeFutureDrift := 10 * time_Minute; p_MinTimestampRule := "prev+1";
     p_InitialBits := 0x207fffff; p_MinBits := 0x207fffff; p_NoRetarget := true;
     p_MaxBlockSize := 4000000; p_MaxBlockTxCount := 50000;
     p_InitialSubsidy := 5000000000; p_SubsidyHalvingInterval := 150;
     p_CoinbaseMaturity := 1; p_MaxReorgDepth := 0;
     p_MaxMempoolSize := 10000; p_MinRelayTxFee := 0;
     p_SeedNodes := []; p_ActivationHeights := ∅ |}.

Definition NetworkByName (name : string) : option ChainParams :=
  if bool_decide (name = "mainnet"%string) then Some Mainnet
  else if bool_decide (name = "testnet"%string) then Some Testnet
  else if bool_decide (name = "regtest"%string) then Some Regtest
  else None.

(** [InitGenesis] assigns the two fields of the shared parameters. *)
Definition InitGenesis (p : ChainParams) (genesisBlock : Block) (genesisHash : Hash) : ChainParams :=
  {| p_Name := p_Name p; p_DataDirName := p_DataDirName p; p_NetworkMagic := p_NetworkMagic p;
     p_DefaultPort := p_DefaultPort p; p_AddressPrefix := p_AddressPrefix p;
     p_GenesisBlock := genesisBlock; p_GenesisHash := genesisHash;
     p_TargetBlockSpacing := p_TargetBlockSpacing p; p_RetargetInterval := p_RetargetInterval p;
     p_TargetTimespan := p_TargetTimespan p; p_MaxTimeFutureDrift := p_MaxTimeFutureDrift p;
     p_MinTimestampRule := p_MinTimestampRule p; p_InitialBits := p_InitialBits p;
     p_MinBits := p_MinBits p; p_NoRetarget := p_NoRetarget p;
     p_MaxBlockSize := p_MaxBlockSize p; p_MaxBlockTxCount := p_MaxBlockTxCount p;
     p_InitialSubsidy := p_InitialSubsidy p; p_SubsidyHalvingInterval := p_SubsidyHalvingInterval p;
     p_CoinbaseMaturity := p_CoinbaseMaturity p; p_MaxReorgDepth := p_MaxReorgDepth p;
     p_MaxMempoolSize := p_MaxMempoolSize p; p_MinRelayTxFee := p_MinRelayTxFee p;
     p_SeedNodes := p_SeedNodes p; p_ActivationHeights := p_ActivationHeights p |}.

(** The ranges of the fields the arithmetic depends on. *)
Definition wf_params (p : ChainParams) : Prop :=
  is_u64 (p_InitialSubsidy p) /\ is_u32 (p_SubsidyHalvingInterval p)
  /\ is_u32 (p_CoinbaseMaturity p).

Lemma wf_networks : Forall wf_params [Mainnet; Testnet; Regtest].
Proof. repeat constructor; by vm_compute. Qed.

Lemma CalcSubsidy_u64 p h : 0 <= h -> wf_params p -> is_u64 (CalcSubsidy p h).
Proof.
  intros Hh (Hp & Hi & _). unfold CalcSubsidy. destruct (Z.eqb_spec (p_SubsidyHalvingInterval p) 0); [done|].
  destruct (h / _ >=? 64); [unfold is_u64; lia|].
  unfold is_u64, is_u32 in *. split; [apply Z.shiftr_nonneg; lia|].
  assert (0 <= h / p_SubsidyHalvingInterval p) as Hq by (apply Z.div_pos; lia).
  rewrite Z.shiftr_div_pow2 by done. apply Z.le_lt_trans with (p_InitialSubsidy p); [|lia].
  apply Z.div_le_upper_bound; [lia|]. pose proof (Z.pow_pos_nonneg 2 _ ltac:(lia) Hq). nia.
Qed.

(** ** Issuance *)

(** The subsidies of the blocks of heights [0 .. n-1]. *)
Fixpoint total_subsidy (p : ChainParams) (n : nat) : Z :=
  match n with O => 0 | S n => total_subsidy p n + CalcSubsidy p (Z.of_nat n) end.

(** The subsidies of the first [k] complete eras. *)
Fixpoint era_total (p : ChainParams) (k : nat) : Z :=
  match k with
  | O => 0
  | S k => era_total p k + p_SubsidyHalvingInterval p * Z.shiftr (p_InitialSubsidy p) (Z.of_nat k)
  end.

Section issuance.
Context (p : ChainParams).
Context (Hi : 0 < p_SubsidyHalvingInterval p) (Hs : 0 <= p_InitialSubsidy p).
#[local] Abbreviation I := (p_SubsidyHalvingInterval p).

Lemma CalcSubsidy_era (k : nat) j : 0 <= j < I -> (k < 64)%nat ->
  CalcSubsidy p (Z.of_nat k * I + j) = Z.shiftr (p_InitialSubsidy p) (Z.of_nat k).
Proof.
  intros Hj Hk. unfold CalcSubsidy. destruct (Z.eqb_spec I 0); [lia|].
  assert ((Z.of_nat k * I + j) / I = Z.of_nat k) as ->
    by (symmetry; apply (Z.div_unique_pos _ _ _ j); lia).
  rewrite Z.geb_leb. by destruct (Z.leb_spec 64 (Z.of_nat k)); [lia|].
Qed.

Lemma total_subsidy_era n (k : nat) j :
  Z.of_nat n = Z.of_nat k * I + j -> 0 <= j <= I -> (k < 64)%nat ->
  total_subsidy p n = era_total p k + j * Z.shiftr (p_InitialSubsidy p) (Z.of_nat k).
Proof.
  revert k j. induction n as [|n IH]; intros k j E Hj Hk.
  - assert (k = O) as -> by (destruct k; [done|nia]). simpl. assert (j = 0) by lia. by subst.
  - cbn [total_subsidy]. destruct (Z.eq_dec j 0) as [->|].
    + destruct k as [|k]; [lia|]. rewrite (IH k (I - 1)) by (lia || nia).
      replace (Z.of_nat n) with (Z.of_nat k * I + (I - 1)) by lia.
      rewrite CalcSubsidy_era by lia. simpl. lia.
    + rewrite (IH k (j - 1)) by lia.
      replace (Z.of_nat n) with (Z.of_nat k * I + (j - 1)) by lia.
      rewrite CalcSubsidy_era by lia. lia.
Qed.

Lemma CalcSubsidy_nonneg h : 0 <= CalcSubsidy p h.
Proof. unfold CalcSubsidy. repeat case_match; try done. by apply Z.shiftr_nonneg. Qed.

Lemma CalcSubsidy_late h : 64 * I <= h -> CalcSubsidy p h = 0.
Proof.
  intros Hh. unfold CalcSubsidy. destruct (Z.eqb_spec I 0); [lia|].
  rewrite Z.geb_leb. destruct (Z.leb_spec 64 (h / I)); [done|].
  assert (64 <= h / I) by (apply Z.div_le_lower_bound; lia). lia.
Qed.

Lemma total_subsidy_mono m n : (m <= n)%nat -> total_subsidy p m <= total_subsidy p n.
Proof. induction 1; [lia|]. simpl. pose proof (CalcSubsidy_nonneg (Z.of_nat m0)). lia. Qed.

Lemma total_subsidy_late n : 64 * I <= Z.of_nat n -> total_subsidy p n = era_total p 64.
Proof.
  induction n as [|n IH]; intros Hn; [lia|].
  destruct (Z.eq_dec (64 * I) (Z.of_nat (S n))) as [E|].
  - rewrite (total_subsidy_era (S n) 63 I) by lia. cbn [era_total]. lia.
  - cbn [total_subsidy]. rewrite IH, CalcSubsidy_late by lia. lia.
Qed.

Lemma total_subsidy_bound n : total_subsidy p n <= era_total p 64.
Proof.
  rewrite <- (total_subsidy_late (Z.to_nat (64 * I + Z.of_nat n))) by lia.
  apply total_subsidy_mono. lia.
Qed.

Lemma total_subsidy_reach n (k : nat) : (k <= 64)%nat -> (1 <= k)%nat ->
  Z.of_nat k * I <= Z.of_nat n -> era_total p k <= total_subsidy p n.
Proof.
  intros Hk Hk1 Hn. destruct k as [|k]; [lia|].
  transitivity (total_subsidy p (Z.to_nat (Z.of_nat (S k) * I))).
  - rewrite (total_subsidy_era _ k I) by nia. cbn [era_total]. lia.
  - apply total_subsidy_mono. lia.
Qed.
End issuance.

(** ** Properties *)

(** Mainnet issuance: the subsidies of any number of blocks never add up to more
    than [MaxMoneyValue], and from height 6,930,000 on they add up to exactly that. *)
Theorem mainnet_supply n :
  total_subsidy Mainnet n <= MaxMoneyValue
  /\ (6930000 <= Z.of_nat n -> total_subsidy Mainnet n = MaxMoneyValue).
Proof.
  pose proof (total_subsidy_bound Mainnet eq_refl ltac:(done) n) as H.
  assert (era_total Mainnet 64 = MaxMoneyValue) as E by (vm_compute; done).
  split; [lia|]. intros Hn.
  pose proof (total_subsidy_reach Mainnet eq_refl ltac:(done) n 33 ltac:(lia) ltac:(lia)) as H'.
  assert (era_total Mainnet 33 = MaxMoneyValue) as E' by (vm_compute; done).
  specialize (H' Hn). lia.
Qed.

(** Testnet issuance: together with the premine of its genesis block the subsidies
    of three eras (63,000,000 blocks) exceed [MaxMoneyValue], which
    [networks.go] describes as the maximum number of base units that can ever exist. *)
Theorem testnet_supply_exceeds n :
  63000000 <= Z.of_nat n -> MaxMoneyValue < total_subsidy Testnet n + TestnetPremineAmount.
Proof.
  intros Hn.
  pose proof (total_subsidy_reach Testnet eq_refl ltac:(done) n 3 ltac:(lia) ltac:(lia) Hn) as H'.
  assert (era_total Testnet 3 + TestnetPremineAmount > MaxMoneyValue) by (vm_compute; done). lia.
Qed.

Lemma testnet_supply_exceeds_witness :
  MaxMoneyValue < total_subsidy Testnet (Z.to_nat 63000000) + TestnetPremineAmount.
Proof. apply testnet_supply_exceeds. rewrite Z2Nat.id; lia. Defined.

(** The compiled-in genesis blocks of mainnet and testnet are consistent: the
    recorded hash is the double SHA-256 of the header, the header commits to the
    transactions, the hash meets the target of the header's bits, and those are the
    network's initial bits. *)
Theorem genesis_consistent :
  Forall (fun p =>
    let b := p_GenesisBlock p in
    HashBlockHeader (blk_Header b) = p_GenesisHash p
    /\ ComputeMerkleRoot (blk_Transactions b) = hdr_MerkleRoot (blk_Header b)
    /\ ValidateProofOfWork (p_GenesisHash p) (hdr_Bits (blk_Header b)) = Ok tt
    /\ hdr_Bits (blk_Header b) = p_InitialBits p) [Mainnet; Testnet].
Proof. repeat constructor; vm_compute; reflexivity. Qed.
