(* ===== verification/Script.v ===== *)
(** * The script engine

    Models [src/internal/script/script.go].  The engine's stack is a list with the top
    element first.  [execute] is a loop over byte positions; it runs here with fuel, one
    unit per opcode, and [Limits.execute_total] shows that the length of the script is enough,
    so the error [OutOfFuel] never occurs. *)
From S2P Require Import Prelude Types Sha256 Crypto.

Definition OpFalse : Z := 0x00.
Definition OpPushData1 : Z := 0x4c.
Definition OpPushData2 : Z := 0x4d.
Definition Op1 : Z := 0x51.
Definition OpEqual : Z := 0x87.
Definition OpReturn : Z := 0x6a.

Definition maxStackSize : Z := 1000.
Definition maxScriptSize : Z := 10000.
Definition maxOpsPerScript : Z := 201.
Definition maxStackElemSize : Z := 520.

Inductive ScriptErr :=
| EmptyPkScript | OpReturnUnspendable
| ScriptTooLarge (n : Z) | TooManyOps
| PushTooShort (op : Z) (pos : Z) | PushTooLarge (n : Z) | MissingLength (op : Z)
| StackUnderflow (op : Z) | NotEqual | UnsupportedOpcode (op : Z) (offset : Z)
| StackOverflow (n : Z)
| EmptyStack | EvaluatedFalse | CleanStack (n : Z)
| InSigScript (e : ScriptErr) | InPkScript (e : ScriptErr)
| OutOfFuel.

Definition stack := list (list byte).

(** How one opcode ends: falling through to the stack-size check, or [continue]. *)
Inductive outcome := Next (pos : nat) (st : stack) | Continue (pos : nat) (st : stack).

Fixpoint bytesEqual_from (a b : list byte) : bool :=
  match a, b with
  | x :: a, y :: b => if bool_decide (x = y) then bytesEqual_from a b else false
  | _, _ => true
  end.
Definition bytesEqual (a b : list byte) : bool :=
  if negb (len a =? len b) then false else bytesEqual_from a b.

Fixpoint isTrue (data : list byte) : bool :=
  match data with
  | [] => false
  | b :: rest =>
      if negb (byte.unsigned b =? 0) then
        if (length rest =? 0)%nat && (byte.unsigned b =? 0x80) then false else true
      else isTrue rest
  end.

Record engine := { e_tx : Transaction; e_inputIdx : Z; e_pkScript : list byte }.

Section engine.
Context `{EC : ECOps}.

(** The body of [OP_CHECKSIG] after the two pops: the truth value pushed, and whether
    the code [continue]s. *)
Definition check_sig (e : engine) (sigBytes pubKeyBytes : list byte) : bool * bool :=
  if len sigBytes <? 2 then (false, true)
  else
    let hashType := byte_at sigBytes (length sigBytes - 1) in
    if negb (hashType =? SigHashAll) then (false, true)
    else
      let derSig := take (length sigBytes - 1) sigBytes in
      match ParseDERSignature derSig with
      | None => (false, true)
      | Some sig =>
          match ParsePubKey pubKeyBytes with
          | None => (false, true)
          | Some pubKey =>
              match ComputeSigHash (e_tx e) (e_inputIdx e) (e_pkScript e) with
              | Err _ => (false, true)
              | Ok sigHash => (sig_Verify sig sigHash pubKey, false)
              end
          end
      end.

Definition push_data (script : list byte) (op : Z) (pos n : nat) (st : stack)
  : result ScriptErr outcome :=
  check len script <? Z.of_nat (pos + n) else PushTooShort op (Z.of_nat pos);
  check Z.of_nat n >? maxStackElemSize else PushTooLarge (Z.of_nat n);
  Ok (Next (pos + n) (slice pos (pos + n) script :: st)).

Definition bool_elem (b : bool) : list byte := if b then [Byte.x01] else [].

(** The [switch] of [execute] on opcode [op]; [pos] is past the opcode. *)
Definition exec_op (e : engine) (script : list byte) (op : Z) (pos : nat) (st : stack)
  : result ScriptErr outcome :=
  if op =? OpFalse then Ok (Next pos ([] :: st))
  else if (0x01 <=? op) && (op <=? 0x4b) then push_data script op pos (Z.to_nat op) st
  else if op =? OpPushData1 then
    check len script <=? Z.of_nat pos else MissingLength op;
    let n := Z.to_nat (byte_at script pos) in
    push_data script op (pos + 1) n st
  else if op =? OpPushData2 then
    check len script <? Z.of_nat (pos + 2) else MissingLength op;
    let n := Z.to_nat (Z.lor (byte_at script pos) (Z.shiftl (byte_at script (pos + 1)) 8)) in
    push_data script op (pos + 2) n st
  else if op =? Op1 then Ok (Next pos ([Byte.x01] :: st))
  else if op =? OpDup then
    match st with
    | top :: _ => Ok (Next pos (top :: st))
    | [] => Err (StackUnderflow op)
    end
  else if op =? OpHash160 then
    match st with
    | data :: st => Ok (Next pos (Hash160 data :: st))
    | [] => Err (StackUnderflow op)
    end
  else if op =? OpEqual then
    match st with
    | b :: a :: st => Ok (Next pos (bool_elem (bytesEqual a b) :: st))
    | _ => Err (StackUnderflow op)
    end
  else if op =? OpEqualVerify then
    match st with
    | b :: a :: st => check negb (bytesEqual a b) else NotEqual; Ok (Next pos st)
    | _ => Err (StackUnderflow op)
    end
  else if op =? OpCheckSig then
    match st with
    | pubKeyBytes :: sigBytes :: st =>
        let '(ok, cont) := check_sig e sigBytes pubKeyBytes in
        let st := bool_elem ok :: st in
        Ok (if cont then Continue pos st else Next pos st)
    | _ => Err (StackUnderflow op)
    end
  else if op =? OpReturn then Err OpReturnUnspendable
  else Err (UnsupportedOpcode op (Z.of_nat pos - 1)).

(** [for pos < len(script) { ... }] *)
Fixpoint execute_loop (fuel : nat) (e : engine) (script : list byte) (pos : nat) (numOps : Z)
    (st : stack) : result ScriptErr stack :=
  if (length script <=? pos)%nat then Ok st
  else
    match fuel with
    | O => Err OutOfFuel
    | S fuel =>
        let op := byte_at script pos in
        let pos := S pos in
        let numOps := if op >? OpPushData2 then numOps + 1 else numOps in
        check (op >? OpPushData2) && (numOps >? maxOpsPerScript) else TooManyOps;
        let* out := exec_op e script op pos st in
        match out with
        | Continue pos st => execute_loop fuel e script pos numOps st
        | Next pos st =>
            check len st >? maxStackSize else StackOverflow (len st);
            execute_loop fuel e script pos numOps st
        end
    end.

Definition execute (e : engine) (script : list byte) (st : stack) : result ScriptErr stack :=
  check len script >? maxScriptSize else ScriptTooLarge (len script);
  execute_loop (length script) e script 0 0 st.

Definition Verify (sigScript pkScript : list byte) (tx : Transaction) (inputIdx : Z)
  : result ScriptErr unit :=
  check len pkScript =? 0 else EmptyPkScript;
  check byte_at pkScript 0 =? OpReturn else OpReturnUnspendable;
  let vm := {| e_tx := tx; e_inputIdx := inputIdx; e_pkScript := pkScript |} in
  let* st := rwrap InSigScript (execute vm sigScript []) in
  let* st := rwrap InPkScript (execute vm pkScript st) in
  match st with
  | [] => Err EmptyStack
  | top :: _ =>
      check negb (isTrue top) else EvaluatedFalse;
      check negb (len st =? 1) else CleanStack (len st);
      Ok tt
  end.
End engine.

Definition IsStandardScript (pkScript : list byte) : bool :=
  if IsP2PKHScript pkScript then true
  else if (len pkScript >? 0) && (byte_at pkScript 0 =? OpReturn) then true
  else false.

Definition IsLegacyUnvalidatedScript (pkScript : list byte) : bool := false.

(** ** Lemmas on the byte helpers *)

Lemma bytesEqual_spec a b : bytesEqual a b = bool_decide (a = b).
Proof.
  unfold bytesEqual. destruct (Z.eqb_spec (len a) (len b)) as [E|E]; simpl.
  - assert (length a = length b) as L by lia. clear E. revert b L.
    induction a as [|x a IH]; intros [|y b] L; simpl in *; try lia; try done.
    destruct (decide (x = y)) as [->|Hne].
    + rewrite bool_decide_true by done. rewrite IH by lia. apply bool_decide_ext. naive_solver.
    + rewrite !bool_decide_false by congruence. done.
  - symmetry. apply bool_decide_eq_false. congruence.
Qed.

Lemma isTrue_bool_elem b : isTrue (bool_elem b) = b.
Proof. by destruct b. Qed.

(** ** Limits and termination *)

Module Limits.
Section limits.
Context `{L : ECLaws}.

Definition elem_ok (x : list byte) : Prop := len x <= maxStackElemSize.

Lemma push_data_Ok script op pos n st out :
  push_data script op pos n st = Ok out ->
  (pos + n <= length script)%nat /\ Z.of_nat n <= maxStackElemSize
  /\ out = Next (pos + n) (slice pos (pos + n) script :: st).
Proof. unfold push_data. intros H. inv_ok. bool_to_prop. split_and!; [lia|lia|done]. Qed.

Lemma push_data_elem script op pos n st out :
  push_data script op pos n st = Ok out -> Forall elem_ok st ->
  exists pos' x, out = Next pos' (x :: st) /\ (pos <= pos')%nat /\ elem_ok x.
Proof.
  intros H Hst. apply push_data_Ok in H as (H1 & H2 & ->).
  eexists _, _. split; [done|]. split; [lia|]. unfold elem_ok. rewrite length_slice; lia.
Qed.

Lemma elem_ok_bool b : elem_ok (bool_elem b).
Proof. destruct b; unfold elem_ok, maxStackElemSize; simpl; lia. Qed.
Lemma elem_ok_hash d : elem_ok (Hash160 d).
Proof. unfold elem_ok. rewrite length_Hash160. unfold maxStackElemSize, PubKeyHashSize. lia. Qed.

(** Every opcode advances, adds at most one element (none before a [continue]) and
    keeps the element limit. *)
Lemma exec_op_Ok e script op pos st out :
  exec_op e script op pos st = Ok out -> Forall elem_ok st ->
  match out with
  | Next pos' st' => (pos <= pos')%nat /\ Forall elem_ok st' /\ (length st' <= S (length st))%nat
  | Continue pos' st' => (pos <= pos')%nat /\ Forall elem_ok st' /\ (length st' <= length st)%nat
  end.
Proof.
  intros H Hst. unfold exec_op in H.
  assert (Hpush : forall pos0 n, (pos <= pos0)%nat -> push_data script op pos0 n st = Ok out ->
    match out with
    | Next pos' st' => (pos <= pos')%nat /\ Forall elem_ok st' /\ (length st' <= S (length st))%nat
    | Continue pos' st' => (pos <= pos')%nat /\ Forall elem_ok st' /\ (length st' <= length st)%nat
    end).
  { intros pos0 n Hp E. apply push_data_elem in E as (pos' & x & -> & ? & ?); [|done].
    split_and!; [lia|by constructor|simpl; lia]. }
  assert (elem_ok []) by (unfold elem_ok, maxStackElemSize; simpl; lia).
  assert (elem_ok [Byte.x01]) by (unfold elem_ok, maxStackElemSize; simpl; lia).
  repeat match type of H with
  | (if ?b then _ else _) = Ok _ => destruct b
  end; try done; try (by eapply Hpush; [|exact H]; lia);
  repeat match type of H with
  | (match ?s with [] => _ | _ => _ end) = Ok _ => destruct s; [done|]
  | (let '(_, _) := ?p in _) = Ok _ => destruct p as [ok [|]]
  | (if ?b then Err _ else _) = Ok _ => destruct b; [done|]
  end; try injection H as <-;
  repeat match goal with HF : Forall elem_ok (_ :: _) |- _ => inversion HF; clear HF; subst end;
  (split_and!; [lia|repeat constructor; auto using elem_ok_bool, elem_ok_hash|simpl; lia]).
Qed.

Lemma execute_loop_total fuel e script pos numOps st :
  Forall elem_ok st ->
  (length script - pos <= fuel)%nat -> execute_loop fuel e script pos numOps st <> Err OutOfFuel.
Proof.
  revert pos numOps st. induction fuel as [|fuel IH]; intros pos numOps st Hst Hf; simpl.
  - destruct (Nat.leb_spec (length script) pos); [done|lia].
  - destruct (Nat.leb_spec (length script) pos); [done|].
    destruct (_ && _); [done|].
    destruct (exec_op e script (byte_at script pos) (S pos) st) as [out|err] eqn:E; cbn [rbind].
    + apply exec_op_Ok in E; [|done].
      destruct out as [pos' st'|pos' st']; destruct E as (? & ? & ?);
        [destruct (_ >? _); [done|]|]; apply IH; (done || lia).
    + intros [= ->]. unfold exec_op, push_data in E. repeat case_match; simplify_eq.
Qed.

Lemma execute_total e script st :
  Forall elem_ok st -> execute e script st <> Err OutOfFuel.
Proof.
  intros Hst. unfold execute. destruct (_ >? _); [done|]. apply execute_loop_total; [done|lia].
Qed.

Lemma execute_loop_limits fuel e script pos numOps st st' :
  execute_loop fuel e script pos numOps st = Ok st' ->
  Forall elem_ok st -> len st <= maxStackSize -> Forall elem_ok st' /\ len st' <= maxStackSize.
Proof.
  revert pos numOps st. induction fuel as [|fuel IH]; intros pos numOps st H Hst Hl; simpl in H;
    destruct (Nat.leb_spec (length script) pos); try (by inv_ok).
  destruct (_ && _); [done|].
  apply rbind_Ok in H as (out & E & H). apply exec_op_Ok in E; [|done].
  destruct out as [pos' st1|pos' st1]; destruct E as (? & ? & ?).
  - destruct (_ >? _) eqn:Ho; [done|]. bool_to_prop. by apply (IH pos' _ st1 H).
  - apply (IH pos' _ st1 H); [done|lia].
Qed.

Lemma execute_limits e script st st' :
  execute e script st = Ok st' ->
  Forall elem_ok st -> len st <= maxStackSize -> Forall elem_ok st' /\ len st' <= maxStackSize.
Proof. unfold execute. destruct (_ >? _); [done|]. apply execute_loop_limits. Qed.
End limits.
End Limits.

(** ** Pay-to-public-key-hash scripts *)

Module P2PKH.
Section p2pkh.
Context `{L : ECLaws}.

Lemma execute_loop_step fuel e script op pos numOps st :
  byte_at script pos = op -> (pos < length script)%nat ->
  execute_loop (S fuel) e script pos numOps st =
    let numOps := if op >? OpPushData2 then numOps + 1 else numOps in
    check (op >? OpPushData2) && (numOps >? maxOpsPerScript) else TooManyOps;
    let* out := exec_op e script op (S pos) st in
    match out with
    | Continue pos st => execute_loop fuel e script pos numOps st
    | Next pos st =>
        check len st >? maxStackSize else StackOverflow (len st);
        execute_loop fuel e script pos numOps st
    end.
Proof. intros <- H. cbn [execute_loop]. destruct (Nat.leb_spec (length script) pos); [lia|done]. Qed.

Lemma execute_loop_end fuel e script pos numOps st :
  (length script <= pos)%nat -> execute_loop fuel e script pos numOps st = Ok st.
Proof. intros H. destruct fuel; simpl; destruct (Nat.leb_spec (length script) pos); (done || lia). Qed.

Lemma p2pkh_bytes h : length h = PubKeyHashSize ->
  let script := MakeP2PKHScript h in
  length script = 25%nat /\ byte_at script 0 = OpDup /\ byte_at script 1 = OpHash160
  /\ byte_at script 2 = 0x14 /\ slice 3 23 script = h
  /\ byte_at script 23 = OpEqualVerify /\ byte_at script 24 = OpCheckSig.
Proof.
  intros Hh. unfold PubKeyHashSize in Hh.
  do 21 (destruct h as [|? h]; [simpl in Hh; try lia|]); [|simpl in Hh; lia]. done.
Qed.

#[local] Arguments execute_loop : simpl never.

(** The numbered opcodes of the script, as the loop sees them. *)
Section run.
Context (e : engine) (script : list byte).
Context (Hl : length script = 25%nat) (B0 : byte_at script 0 = OpDup)
  (B1 : byte_at script 1 = OpHash160) (B2 : byte_at script 2 = 0x14) (B3 : byte_at script 23 = OpEqualVerify)
  (B4 : byte_at script 24 = OpCheckSig).

#[local] Arguments check_sig : simpl never.
Lemma op_push20 st : exec_op e script 0x14 3 st = Ok (Next 23 (slice 3 23 script :: st)).
Proof. unfold exec_op, push_data. simpl. by rewrite Hl. Qed.

Lemma op_dup pos st : exec_op e script OpDup pos st =
  match st with top :: _ => Ok (Next pos (top :: st)) | [] => Err (StackUnderflow OpDup) end.
Proof. done. Qed.
Lemma op_hash160 pos st : exec_op e script OpHash160 pos st =
  match st with d :: st => Ok (Next pos (Hash160 d :: st)) | [] => Err (StackUnderflow OpHash160) end.
Proof. done. Qed.
Lemma op_equalverify pos st : exec_op e script OpEqualVerify pos st =
  match st with
  | b :: a :: st => check negb (bool_decide (a = b)) else NotEqual; Ok (Next pos st)
  | _ => Err (StackUnderflow OpEqualVerify)
  end.
Proof. destruct st as [|b [|a st]]; [done|done|]. by rewrite <- bytesEqual_spec. Qed.
Lemma op_checksig pos st : exec_op e script OpCheckSig pos st =
  match st with
  | pub :: sig :: st =>
      let '(ok, cont) := check_sig e sig pub in
      Ok (if cont then Continue pos (bool_elem ok :: st) else Next pos (bool_elem ok :: st))
  | _ => Err (StackUnderflow OpCheckSig)
  end.
Proof. done. Qed.

(** Whatever the script leaves, it started from a key and a signature. *)
Lemma run_p2pkh_inv st st2 :
  execute_loop 25 e script 0 0 st = Ok st2 ->
  exists pub sig r, st = pub :: sig :: r /\ Hash160 pub = slice 3 23 script
    /\ st2 = bool_elem (fst (check_sig e sig pub)) :: r.
Proof.
  intros H.
  rewrite (execute_loop_step _ _ _ _ _ _ _ B0), op_dup in H by lia. simpl in H.
  destruct st as [|pub st]; [done|]. inv_ok.
  rewrite (execute_loop_step _ _ _ _ _ _ _ B1), op_hash160 in H by lia. simpl in H. inv_ok.
  rewrite (execute_loop_step _ _ _ _ _ _ _ B2), op_push20 in H by lia. simpl in H. inv_ok.
  rewrite (execute_loop_step _ _ _ _ _ _ _ B3), op_equalverify in H by lia. simpl in H. inv_ok. bool_to_prop.
  rewrite (execute_loop_step _ _ _ _ _ _ _ B4), op_checksig in H by lia. simpl in H.
  destruct st as [|sig st]; [done|].
  destruct (check_sig e sig pub) as [ok cont] eqn:E. exists pub, sig, st. rewrite E.
  cbn [rbind] in H. destruct cont; inv_ok; rewrite execute_loop_end in H by lia; inv_ok; done.
Qed.

Lemma run_p2pkh pub sig :
  Hash160 pub = slice 3 23 script ->
  execute_loop 25 e script 0 0 [pub; sig] = Ok [bool_elem (fst (check_sig e sig pub))].
Proof.
  intros Hp.
  rewrite (execute_loop_step _ _ _ _ _ _ _ B0), op_dup by lia. simpl.
  rewrite (execute_loop_step _ _ _ _ _ _ _ B1), op_hash160 by lia. simpl.
  rewrite (execute_loop_step _ _ _ _ _ _ _ B2), op_push20 by lia. simpl.
  rewrite (execute_loop_step _ _ _ _ _ _ _ B3), op_equalverify by lia. simpl.
  rewrite bool_decide_true by done. simpl.
  rewrite (execute_loop_step _ _ _ _ _ _ _ B4), op_checksig by lia. simpl.
  destruct (check_sig e sig pub) as [ok [|]]; simpl; by rewrite execute_loop_end by lia.
Qed.
End run.

Lemma Verify_p2pkh sigScript h tx idx :
  length h = PubKeyHashSize ->
  let vm := {| e_tx := tx; e_inputIdx := idx; e_pkScript := MakeP2PKHScript h |} in
  Verify sigScript (MakeP2PKHScript h) tx idx = Ok tt <->
  exists sig pub, execute vm sigScript [] = Ok [pub; sig]
    /\ Hash160 pub = h /\ fst (check_sig vm sig pub) = true.
Proof.
  intros Hh vm. subst vm. unfold Verify.
  pose proof (p2pkh_bytes h Hh) as (Hl & B0 & B1 & B2 & Bh & B3 & B4).
  set (script := MakeP2PKHScript h) in *. clearbody script.
  set (vm := {| e_tx := tx; e_inputIdx := idx; e_pkScript := script |}).
  assert (forall st, execute vm script st = execute_loop 25 vm script 0 0 st) as Hex
    by (intros st; unfold execute; by rewrite Hl).
  rewrite Hl, B0. change (Z.of_nat 25 =? 0) with false. change (OpDup =? OpReturn) with false.
  cbv iota. split.
  - intros H. apply rbind_Ok in H as (st & H1 & H). apply rbind_Ok in H as (st2 & H2 & H).
    rewrite rwrap_Ok in H1. rewrite rwrap_Ok, Hex in H2.
    apply run_p2pkh_inv in H2 as (pub & sig & r & -> & Hp & ->); try done. rewrite Bh in Hp.
    rewrite isTrue_bool_elem in H. repeat inv_ok_step. bool_to_prop.
    destruct r as [|x r]; [eauto|]. cbn [length] in *. lia.
  - intros (sig & pub & H1 & Hp & Hc). rewrite H1. cbn [rbind rwrap].
    rewrite Hex, run_p2pkh by congruence. cbn [rbind rwrap].
    rewrite isTrue_bool_elem, Hc. done.
Qed.

(** Direct pushes of 1 to 75 bytes. *)
Lemma exec_push e script pos k st :
  (1 <= k <= 75)%nat -> (pos + k <= length script)%nat ->
  exec_op e script (Z.of_nat k) pos st = Ok (Next (pos + k) (slice pos (pos + k) script :: st)).
Proof.
  intros Hk Hpk. unfold exec_op, push_data, OpFalse, maxStackElemSize.
  rewrite (proj2 (Z.eqb_neq _ _)), (proj2 (Z.leb_le 1 _)), (proj2 (Z.leb_le _ 0x4b)) by lia.
  cbn [andb]. rewrite Nat2Z.id, (proj2 (Z.ltb_ge _ _)), Z.gtb_ltb, (proj2 (Z.ltb_ge _ _)) by lia.
  done.
Qed.

Lemma push_no_op k : (k <= 75)%nat -> (Z.of_nat k >? OpPushData2) = false.
Proof. intros Hk. unfold OpPushData2. by ztest. Qed.

(** What a wallet's signature script leaves on the stack. *)
Lemma execute_sig_script e sig pub :
  (1 <= length sig <= 75)%nat -> length pub = 33%nat ->
  execute e (MakeP2PKHSignatureScript sig pub) [] = Ok [pub; sig].
Proof.
  intros Hs Hp. unfold execute, MakeP2PKHSignatureScript. rewrite Hp.
  set (n := length sig) in *.
  set (script := [_] ++ _).
  assert (length script = 35 + n)%nat as Hl
    by (subst script n; rewrite !length_app; simpl; rewrite Hp; lia).
  rewrite Hl. destruct (Z.gtb_spec (Z.of_nat (35 + n)) maxScriptSize) as [Hgt|_].
  { unfold maxScriptSize in Hgt. lia. }
  assert (byte_at script 0 = Z.of_nat n) as B0
    by (subst script; apply byte_at_of_Z; lia).
  assert (slice 1 (1 + n) script = sig) as S0.
  { apply (slice_at _ _ _ [byte.of_Z (Z.of_nat n)] sig ([byte.of_Z 33] ++ pub));
      [done|done|lia]. }
  assert (byte_at script (1 + n) = 33) as B1.
  { subst script. unfold byte_at. rewrite app_nth2, app_nth2 by (simpl; lia).
    simpl. rewrite Nat.sub_0_r. subst n. by rewrite Nat.sub_diag. }
  assert (slice (2 + n) (2 + n + 33) script = pub) as S1.
  { apply (slice_at _ _ _ ([byte.of_Z (Z.of_nat n)] ++ sig ++ [byte.of_Z 33]) pub []).
    - subst script. by rewrite app_nil_r, <- !app_assoc.
    - rewrite !length_app; simpl; lia.
    - rewrite Hp. lia. }
  clearbody script.
  replace (35 + n)%nat with (S (S (33 + n))) by lia.
  rewrite (execute_loop_step _ _ _ _ _ _ _ B0), push_no_op, exec_push, S0 by lia. cbn [andb rbind].
  change (len [sig] >? maxStackSize) with false. cbv iota.
  rewrite (execute_loop_step _ _ _ _ _ _ _ B1) by lia. change 33 with (Z.of_nat 33).
  rewrite push_no_op, exec_push by lia. cbn [andb rbind]. change (S (1 + n)) with (2 + n)%nat.
  rewrite S1. change (len [pub; sig] >? maxStackSize) with false. cbv iota.
  apply execute_loop_end. lia.
Qed.
End p2pkh.
End P2PKH.

(** The engine on the one-byte placeholder script of the genesis outputs. *)
Lemma execute_false `{ECOps} e st :
  execute e [Byte.x00] st
  = if len ([] :: st) >? maxStackSize then Err (StackOverflow (len ([] :: st))) else Ok ([] :: st).
Proof. done. Qed.

(** [check_sig] accepts a DER signature followed by the hash type byte. *)
Lemma check_sig_true `{EC : ECOps} vm sig pub :
  fst (check_sig vm sig pub) = true <->
  exists der sg key sigHash, sig = der ++ [Byte.x01] /\ der <> []
    /\ ParseDERSignature der = Some sg /\ ParsePubKey pub = Some key
    /\ ComputeSigHash (e_tx vm) (e_inputIdx vm) (e_pkScript vm) = Ok sigHash /\ sig_Verify sg sigHash key = true.
Proof.
  unfold check_sig. split.
  - destruct (Z.ltb_spec (len sig) 2); [done|]. destruct (Z.eqb_spec (byte_at sig (length sig - 1)) SigHashAll) as [Ht|]; [|done].
    cbn [negb]. destruct (ParseDERSignature _) as [sg|] eqn:Ed; [|done]. destruct (ParsePubKey pub) as [key|]; [|done].
    destruct (ComputeSigHash _ _ _) as [sh|]; [|done]. intros Hv.
    destruct sig as [|x sig _] using rev_ind; [simpl in *; lia|].
    rewrite length_app, Nat.add_sub in *. rewrite take_app_length in Ed. exists sig, sg, key, sh.
    unfold byte_at in Ht. rewrite app_nth2, Nat.sub_diag in Ht by lia. cbn [nth] in Ht.
    assert (x = Byte.x01) as -> by (apply byte.unsigned_inj; rewrite Ht; done).
    split_and!; try done. destruct sig; [simpl in *; lia|done].
  - intros (der & sg & key & sh & -> & Hne & Hd & Hk & Hs & Hv). rewrite length_app. cbn [length].
    destruct (Z.ltb_spec (Z.of_nat (length der + 1)) 2); [destruct der; [done|simpl in *; lia]|].
    rewrite Nat.add_sub, take_app_length, Hd, Hk, Hs. unfold byte_at. rewrite app_nth2, Nat.sub_diag by lia. done.
Qed.

Lemma check_sig_signed `{L : ECLaws} tx tx' idx pk k h :
  ComputeSigHash tx idx pk = Ok h -> ComputeSigHash tx' idx pk = Ok h ->
  check_sig {| e_tx := tx'; e_inputIdx := idx; e_pkScript := pk |}
    (sig_Serialize (ecdsa_Sign k h) ++ bytes_of [SigHashAll]) (SerializeCompressed (PubKey k))
  = (true, false).
Proof.
  intros H H'. unfold check_sig. pose proof (der_size (ecdsa_Sign k h)).
  rewrite length_app. cbn [length bytes_of map].
  destruct (Z.ltb_spec (Z.of_nat (length (sig_Serialize (ecdsa_Sign k h)) + 1)) 2); [lia|].
  rewrite Nat.add_sub, take_app_length. unfold byte_at.
  rewrite app_nth2, Nat.sub_diag by lia. simpl nth. rewrite byte.unsigned_of_Z.
  cbn -[SerializeCompressed ComputeSigHash].
  rewrite parse_der, parse_compressed, H'. by rewrite sign_verify.
Qed.

Import Limits P2PKH.

(** What [SignInput] makes for an input, [Verify] accepts, also when other input scripts
    have been filled in since. *)
Lemma sign_input_verifies `{L : ECLaws} tx tx' idx k :
  0 <= idx < len (tx_Inputs tx) ->
  tx_Version tx' = tx_Version tx -> tx_LockTime tx' = tx_LockTime tx ->
  tx_Outputs tx' = tx_Outputs tx ->
  map (fun i => (in_PreviousOutPoint i, in_Sequence i)) (tx_Inputs tx')
  = map (fun i => (in_PreviousOutPoint i, in_Sequence i)) (tx_Inputs tx) ->
  let pk := MakeP2PKHScriptFromPubKey (SerializeCompressed (PubKey k)) in
  exists script, SignInput tx idx pk k = Ok script /\ Verify script pk tx' idx = Ok tt.
Proof.
  intros Hidx Hv Hl Ho Hi pk.
  pose proof (f_equal length Hi) as Hlen. rewrite !length_map in Hlen.
  set (h := DoubleSHA256 (tx_SerializeToBytes (sighash_copy tx idx pk) ++ bytes_of [SigHashAll; 0; 0; 0])).
  assert (ComputeSigHash tx idx pk = Ok h) as H1 by (by apply ComputeSigHash_Ok).
  assert (ComputeSigHash tx' idx pk = Ok h) as H2.
  { apply ComputeSigHash_Ok. rewrite Hlen. split; [done|]. by rewrite (sighash_copy_scripts tx' tx). }
  eexists. split; [unfold SignInput, SignTransaction; rewrite H1; reflexivity|].
  subst pk. unfold MakeP2PKHScriptFromPubKey, PubKeyHash in *.
  apply Verify_p2pkh; [apply length_Hash160|]. eexists _, _. split_and!; [|done|].
  - pose proof (der_size (ecdsa_Sign k h)). apply execute_sig_script; [|apply compressed_size].
    rewrite length_app. simpl. lia.
  - by rewrite (check_sig_signed tx).
Qed.

(** ** Properties *)

(** C21. Authorization: an output locked to a public-key hash is spent by an input script
    exactly when running that script (whatever pushes it is made of) leaves two stack
    elements, a key that hashes to the locked hash and, below it, the DER encoding of a
    signature followed by the byte 1 ([SIGHASH_ALL]), where the signature verifies under
    that key for the signature hash of this spend: the given transaction and input, with
    the output's own script. *)
Theorem p2pkh_authorization `{L : ECLaws} sigScript h tx idx :
  length h = PubKeyHashSize ->
  let vm := {| e_tx := tx; e_inputIdx := idx; e_pkScript := MakeP2PKHScript h |} in
  Verify sigScript (MakeP2PKHScript h) tx idx = Ok tt <->
  exists der pub sg key sigHash, execute vm sigScript [] = Ok [pub; der ++ [Byte.x01]] /\ der <> []
    /\ Hash160 pub = h
    /\ ParseDERSignature der = Some sg /\ ParsePubKey pub = Some key
    /\ ComputeSigHash tx idx (MakeP2PKHScript h) = Ok sigHash
    /\ sig_Verify sg sigHash key = true.
Proof.
  intros Hh vm. rewrite Verify_p2pkh by done. fold vm. split.
  - intros (sig & pub & He & Hp & Hc). apply check_sig_true in Hc as (der & sg & key & sh & -> & Hc).
    exists der, pub, sg, key, sh. tauto.
  - intros (der & pub & sg & key & sh & He & Hd & Hp & Hc). exists (der ++ [Byte.x01]), pub. split_and!; [done..|].
    apply check_sig_true. by exists der, sg, key, sh.
Qed.

Import ToyEC.
(** A spend that is accepted, and one whose script only pushes the number 1. *)
Lemma p2pkh_authorization_witness :
  (exists sigScript der pub, Verify sigScript (MakeP2PKHScriptFromPubKey (replicate 33 Byte.x09)) example_tx 0 = Ok tt
     /\ execute {| e_tx := example_tx; e_inputIdx := 0;
                   e_pkScript := MakeP2PKHScriptFromPubKey (replicate 33 Byte.x09) |} sigScript []
        = Ok [pub; der ++ [Byte.x01]])
  /\ ~ Verify [Byte.x51] (MakeP2PKHScript (replicate 20 Byte.x07)) example_tx 0 = Ok tt.
Proof.
  split.
  - destruct (sign_input_verifies (L := toy_ec_laws) example_tx example_tx 0 Byte.x09) as (script & _ & Hv);
      [simpl; lia|done..|].
    exists script. destruct (proj1 (p2pkh_authorization (L := toy_ec_laws) script (PubKeyHash (replicate 33 Byte.x09))
      example_tx 0 (length_Hash160 _)) Hv) as (der & pub & _ & _ & _ & He & _).
    exists der, pub. split; [exact Hv|exact He].
  - rewrite (p2pkh_authorization (L := toy_ec_laws)) by done.
    intros (der & pub & sg & key & sh & H & _). vm_compute in H. destruct der; discriminate H.
Defined.

(** Completeness of the wallet's signing path: [SignInput] succeeds on every input in
    range, and the script it returns spends the P2PKH output of the key, also once all
    the input scripts of the transaction have been filled in. *)
Theorem p2pkh_spend_complete `{L : ECLaws} tx tx' idx k :
  0 <= idx < len (tx_Inputs tx) ->
  tx_Version tx' = tx_Version tx -> tx_LockTime tx' = tx_LockTime tx ->
  tx_Outputs tx' = tx_Outputs tx ->
  map (fun i => (in_PreviousOutPoint i, in_Sequence i)) (tx_Inputs tx')
  = map (fun i => (in_PreviousOutPoint i, in_Sequence i)) (tx_Inputs tx) ->
  let pk := MakeP2PKHScriptFromPubKey (SerializeCompressed (PubKey k)) in
  exists script, SignInput tx idx pk k = Ok script /\ Verify script pk tx' idx = Ok tt.
Proof.
  intros Hidx Hv Hl Ho Hi pk. by apply sign_input_verifies.
Qed.

Lemma p2pkh_spend_complete_witness :
  exists script, SignInput example_tx 0 (MakeP2PKHScriptFromPubKey (replicate 33 Byte.x09)) Byte.x09 = Ok script
    /\ Verify script (MakeP2PKHScriptFromPubKey (replicate 33 Byte.x09)) example_tx 0 = Ok tt.
Proof.
  apply (p2pkh_spend_complete (L := toy_ec_laws) example_tx example_tx 0); simpl; (done || lia).
Defined.

(** C40. The engine is total and bounded: on any script and any stack within the limits
    the run ends (the fuel, the script's length, never runs out), and a successful run
    leaves at most [maxStackSize] elements of at most [maxStackElemSize] bytes. *)
Theorem script_engine_bounded `{L : ECLaws} e script st :
  Forall elem_ok st -> len st <= maxStackSize ->
  execute e script st <> Err OutOfFuel
  /\ forall st', execute e script st = Ok st' -> Forall elem_ok st' /\ len st' <= maxStackSize.
Proof.
  intros Hst Hl. split; [by apply execute_total|].
  intros st' H. by apply (execute_limits e script st).
Qed.

Lemma script_engine_bounded_witness :
  execute {| e_tx := example_tx; e_inputIdx := 0; e_pkScript := [] |}
    (bytes_of [0x51; 0x76; 0x87]) [] <> Err OutOfFuel.
Proof.
  apply (script_engine_bounded (L := toy_ec_laws)); [constructor|unfold maxStackSize; simpl; lia].
Defined.

(** Unspendable outputs: no input script spends an empty or [OP_RETURN] script
    ([IsUnspendableScript]) or the one-byte placeholder script of the genesis outputs. *)
Theorem unspendable_outputs `{EC : ECOps} sigScript pkScript tx idx :
  IsUnspendableScript pkScript || bool_decide (pkScript = [Byte.x00]) = true ->
  Verify sigScript pkScript tx idx <> Ok tt.
Proof.
  intros H Hv. unfold Verify in Hv. unfold IsUnspendableScript in H.
  destruct (_ =? 0); [done|]. change 0x6a with OpReturn in H. destruct (_ =? OpReturn); [done|].
  simpl in H. apply bool_decide_eq_true in H as ->.
  apply rbind_Ok in Hv as (st & _ & Hv). rewrite execute_false in Hv.
  destruct (_ >? _); simpl in Hv; done.
Qed.

Lemma unspendable_outputs_witness :
  Verify [Byte.x51] [Byte.x00] example_tx 0 <> Ok tt.
Proof. apply (unspendable_outputs (EC := toy_ec)). vm_compute. reflexivity. Defined.
