(* ===== verification/Utxo.v ===== *)
(** * The set of unspent outputs

    Models [src/internal/utxo/utxo.go].  A [utxo.Set] is a map from 36-byte outpoint keys
    to entries; its lock is not represented, each method being one critical section
    (writers are serialized by the chain lock).  Entries are never mutated after they are
    stored, so the pointers in the Go map are modelled by the entries themselves. *)
From S2P Require Import Prelude Types Sha256 Crypto.

(** ** Data *)

Record UtxoEntry := {
  ue_Value : Z; ue_PkScript : list byte; ue_Height : Z; ue_IsCoinbase : bool }.

#[global] Instance UtxoEntry_eq_dec : EqDecision UtxoEntry.
Proof. solve_decision. Defined.
#[global] Instance OutPoint_eq_dec : EqDecision OutPoint.
Proof. solve_decision. Defined.

Abbreviation outpoint_key := (list byte).

Definition OutpointKey (txHash : Hash) (index : Z) : outpoint_key := txHash ++ PutUint32LE index.

(** The key of the output an input spends. *)
Definition op_key (o : OutPoint) : outpoint_key := OutpointKey (op_Hash o) (op_Index o).

Record SpentOutput := { so_OutPoint : OutPoint; so_Entry : UtxoEntry }.
Definition BlockUndoData := list SpentOutput.

Abbreviation UtxoSet := (gmap outpoint_key UtxoEntry).

(** ** Serialization of entries and undo data *)

Inductive UtxoErr :=
| EntryTooShort (n : Z)
| ScriptLength (e : DecodeErr)
| EntryTruncated
| MakeSlicePanic                       (** [make([]byte, n)] with [n] out of range *)
| SliceBoundsPanic
| UndoCount (e : DecodeErr)
| UndoTruncated (i : Z)
| UndoEntryLength (i : Z) (e : DecodeErr)
| UndoEntryTruncated (i : Z)
| UndoEntry (i : Z) (e : UtxoErr)
| DuplicateInput (tx : Hash) (o : OutPoint)
| AlreadySpent (tx : Hash) (o : OutPoint)
| MissingUTXO (tx : Hash) (o : OutPoint).

Definition ue_Serialize (e : UtxoEntry) : list byte :=
  let flags := if ue_IsCoinbase e then Z.lor 0 0x01 else 0 in
  PutUint64LE (ue_Value e) ++ PutUint32LE (ue_Height e) ++ [byte.of_Z flags]
  ++ PutVarInt (len (ue_PkScript e)) ++ ue_PkScript e.

Definition DeserializeUtxoEntry (data : list byte) : result UtxoErr UtxoEntry :=
  check len data <? 13 else EntryTooShort (len data);
  let value := ReadUintLE (slice 0 8 data) in
  let height := ReadUintLE (slice 8 12 data) in
  let isCoinbase := negb (Z.land (byte_at data 12) 0x01 =? 0) in
  let rest := drop 13 data in
  let* scriptLen := rwrap ScriptLength (ReadVarIntFromBytes rest) in
  let viSize := VarIntSize scriptLen in
  let stop := i64 (viSize + i64 scriptLen) in
  check len rest <? stop else EntryTruncated;
  check stop <? viSize else MakeSlicePanic;
  Ok {| ue_Value := value; ue_PkScript := slice (Z.to_nat viSize) (Z.to_nat stop) rest;
        ue_Height := height; ue_IsCoinbase := isCoinbase |}.

Definition so_Serialize (so : SpentOutput) : list byte :=
  let entryBytes := ue_Serialize (so_Entry so) in
  op_Hash (so_OutPoint so) ++ PutUint32LE (op_Index (so_OutPoint so))
  ++ PutVarInt (len entryBytes) ++ entryBytes.

Definition SerializeUndoData (undo : BlockUndoData) : list byte :=
  PutVarInt (len undo) ++ concat (map so_Serialize undo).

(** [for i := uint64(0); i < count; i++ { ... }] *)
Fixpoint undo_loop (n : nat) (i : Z) (data : list byte) (offset : Z) (acc : BlockUndoData)
  : result UtxoErr BlockUndoData :=
  match n with
  | O => Ok acc
  | S n =>
      check offset + 36 >? len data else UndoTruncated i;
      let at_ z := Z.to_nat z in
      let hash := slice (at_ offset) (at_ (offset + 32)) data in
      let index := ReadUintLE (slice (at_ (offset + 32)) (at_ (offset + 36)) data) in
      let offset := offset + 36 in
      let* entryLen := rwrap (UndoEntryLength i) (ReadVarIntFromBytes (drop (at_ offset) data)) in
      let offset := offset + VarIntSize entryLen in
      let stop := i64 (offset + i64 entryLen) in
      check stop >? len data else UndoEntryTruncated i;
      check stop <? offset else SliceBoundsPanic;
      let* entry := rwrap (UndoEntry i) (DeserializeUtxoEntry (slice (at_ offset) (at_ stop) data)) in
      undo_loop n (i + 1) data stop
        (acc ++ [{| so_OutPoint := {| op_Hash := hash; op_Index := index |}; so_Entry := entry |}])
  end.

Definition DeserializeUndoData (data : list byte) : result UtxoErr BlockUndoData :=
  if len data =? 0 then Ok []
  else
    let* count := rwrap UndoCount (ReadVarIntFromBytes data) in
    undo_loop (Z.to_nat count) 0 data (VarIntSize count) [].

(** ** Operations *)

Definition NewSet : UtxoSet := ∅.
Definition Get (s : UtxoSet) (txHash : Hash) (index : Z) : option UtxoEntry :=
  s !! OutpointKey txHash index.
Definition Has (s : UtxoSet) (txHash : Hash) (index : Z) : bool :=
  match Get s txHash index with Some _ => true | None => false end.
Definition Add (s : UtxoSet) (txHash : Hash) (index : Z) (entry : UtxoEntry) : UtxoSet :=
  <[OutpointKey txHash index := entry]> s.
Definition Remove (s : UtxoSet) (txHash : Hash) (index : Z) : UtxoSet * option UtxoEntry :=
  let key := OutpointKey txHash index in (delete key s, s !! key).
Definition Count (s : UtxoSet) : Z := Z.of_nat (size s).

(** [for _, e := range s.entries], in some order; the sentinel on overflow. *)
Fixpoint total_loop (total : Z) (values : list Z) : Z :=
  match values with
  | [] => total
  | v :: values =>
      if add64 total v <? total then 2^64 - 1 else total_loop (add64 total v) values
  end.
Definition TotalValue (s : UtxoSet) : Z :=
  total_loop 0 (map (fun kv => ue_Value kv.2) (map_to_list s)).

(** The mutations [ConnectBlock] collects before applying any of them. *)
Record connect_state := {
  cs_undo : BlockUndoData;
  cs_toRemove : list outpoint_key;
  cs_toAdd : list (outpoint_key * UtxoEntry);
  cs_spentInBlock : gset outpoint_key;
  cs_createdInBlock : gmap outpoint_key UtxoEntry }.

Definition connect_init : connect_state :=
  {| cs_undo := []; cs_toRemove := []; cs_toAdd := []; cs_spentInBlock := ∅; cs_createdInBlock := ∅ |}.

Definition connect_input (s : UtxoSet) (txHash : Hash) (acc : gset outpoint_key * connect_state)
    (ti : TxInput) : result UtxoErr (gset outpoint_key * connect_state) :=
  let '(seenInTx, cs) := acc in
  let prev := in_PreviousOutPoint ti in
  let key := op_key prev in
  check bool_decide (key ∈ seenInTx) else DuplicateInput txHash prev;
  check bool_decide (key ∈ cs_spentInBlock cs) else AlreadySpent txHash prev;
  let entry := match cs_createdInBlock cs !! key with Some e => Some e | None => s !! key end in
  match entry with
  | None => Err (MissingUTXO txHash prev)
  | Some entry =>
      Ok ({[key]} ∪ seenInTx,
          {| cs_undo := cs_undo cs ++ [{| so_OutPoint := prev; so_Entry := entry |}];
             cs_toRemove := cs_toRemove cs ++ [key];
             cs_toAdd := cs_toAdd cs;
             cs_spentInBlock := {[key]} ∪ cs_spentInBlock cs;
             cs_createdInBlock := delete key (cs_createdInBlock cs) |})
  end.

Definition new_entry (height : Z) (tx : Transaction) (out : TxOutput) : UtxoEntry :=
  {| ue_Value := out_Value out; ue_PkScript := out_PkScript out;
     ue_Height := height; ue_IsCoinbase := tx_IsCoinbase tx |}.

(** The outputs of a transaction, keyed ([uint32(outIdx)]). *)
Definition tx_entries (height : Z) (tx : Transaction) : list (outpoint_key * UtxoEntry) :=
  imap (fun i out => (OutpointKey (HashTransaction tx) (u32 (Z.of_nat i)), new_entry height tx out))
       (tx_Outputs tx).

Definition connect_outputs (height : Z) (tx : Transaction) (cs : connect_state) : connect_state :=
  fold_left (fun cs '(key, entry) =>
    {| cs_undo := cs_undo cs; cs_toRemove := cs_toRemove cs;
       cs_toAdd := cs_toAdd cs ++ [(key, entry)];
       cs_spentInBlock := cs_spentInBlock cs;
       cs_createdInBlock := <[key := entry]> (cs_createdInBlock cs) |}) (tx_entries height tx) cs.

Definition connect_tx (s : UtxoSet) (height : Z) (cs : connect_state) (tx : Transaction)
  : result UtxoErr connect_state :=
  let txHash := HashTransaction tx in
  let* cs :=
    if negb (tx_IsCoinbase tx) then
      let* (_, cs) := foldM (connect_input s txHash) (∅, cs) (tx_Inputs tx) in Ok cs
    else Ok cs in
  Ok (connect_outputs height tx cs).

Definition delete_keys (s : UtxoSet) (keys : list outpoint_key) : UtxoSet :=
  fold_left (fun s key => delete key s) keys s.

Definition ConnectBlock (s : UtxoSet) (block : Block) (height : Z)
  : result UtxoErr (UtxoSet * BlockUndoData) :=
  let* cs := foldM (connect_tx s height) connect_init (blk_Transactions block) in
  let s := delete_keys s (cs_toRemove cs) in
  let s := fold_left (fun s '(key, entry) =>
    if bool_decide (key ∈ cs_spentInBlock cs) then s else <[key := entry]> s) (cs_toAdd cs) s in
  Ok (s, cs_undo cs).

(** The keys of a block's outputs, last transaction first, as [DisconnectBlock] lists them. *)
Definition disconnect_keys (block : Block) : list outpoint_key :=
  concat (map (fun tx =>
      imap (fun i _ => OutpointKey (HashTransaction tx) (u32 (Z.of_nat i))) (tx_Outputs tx))
    (rev (blk_Transactions block))).

Definition DisconnectBlock (s : UtxoSet) (block : Block) (undo : BlockUndoData) : UtxoSet :=
  let s := delete_keys s (disconnect_keys block) in
  fold_left (fun s so => <[op_key (so_OutPoint so) := so_Entry so]> s) undo s.

Definition isLegacyPlaceholder (pk : list byte) : bool :=
  (len pk =? 0) || ((len pk =? 1) && (byte_at pk 0 =? 0x00)).

Definition ConnectGenesis (s : UtxoSet) (block : Block) : UtxoSet :=
  fold_left (fun s tx =>
    fold_left (fun s '(key, entry) =>
      if isLegacyPlaceholder (ue_PkScript entry) then s else <[key := entry]> s)
      (tx_entries 0 tx) s)
    (blk_Transactions block) s.

(** Deep copies are equal values. *)
Definition Entries (s : UtxoSet) : UtxoSet := (fun e => e) <$> s.

(** The calls [fn(txHash, index, entry)] of [ForEach], in some order. *)
Definition ForEach (s : UtxoSet) : list (Hash * Z * UtxoEntry) :=
  map (fun '(key, entry) => (take 32 key, ReadUintLE (drop 32 key), entry)) (map_to_list s).

(** ** What a block spends and creates *)

Definition tx_spends (tx : Transaction) : list outpoint_key :=
  if tx_IsCoinbase tx then [] else map (fun ti => op_key (in_PreviousOutPoint ti)) (tx_Inputs tx).
Definition spends (txs : list Transaction) : list outpoint_key := concat (map tx_spends txs).
Definition creates (height : Z) (txs : list Transaction) : list (outpoint_key * UtxoEntry) :=
  concat (map (tx_entries height) txs).
(** The created outputs as a map; a later output of the same key replaces an earlier one. *)
Definition created_map (height : Z) (txs : list Transaction) : UtxoSet :=
  list_to_map (rev (creates height txs)).

Definition so_key (so : SpentOutput) : outpoint_key := op_key (so_OutPoint so).

Lemma spends_app t1 t2 : spends (t1 ++ t2) = spends t1 ++ spends t2.
Proof. unfold spends. by rewrite map_app, concat_app. Qed.
Lemma creates_app h t1 t2 : creates h (t1 ++ t2) = creates h t1 ++ creates h t2.
Proof. unfold creates. by rewrite map_app, concat_app. Qed.
Lemma spends_singleton tx : spends [tx] = tx_spends tx.
Proof. unfold spends. simpl. apply app_nil_r. Qed.
Lemma creates_singleton h tx : creates h [tx] = tx_entries h tx.
Proof. unfold creates. simpl. apply app_nil_r. Qed.

(** ** Bulk updates of the map *)

Lemma lookup_delete_keys s keys k :
  delete_keys s keys !! k = if bool_decide (k ∈ keys) then None else s !! k.
Proof.
  unfold delete_keys. revert s. induction keys as [|a keys IH]; intros s; simpl; [done|].
  rewrite IH. destruct (decide (k ∈ keys)).
  - rewrite !bool_decide_true by set_solver. done.
  - destruct (decide (k = a)) as [->|].
    + rewrite (bool_decide_true (a ∈ a :: keys)), lookup_delete_eq by set_solver.
      by destruct (bool_decide _).
    + rewrite !bool_decide_false by set_solver. by rewrite lookup_delete_ne.
Qed.

Lemma fold_insert_lookup (adds : list (outpoint_key * UtxoEntry)) (p : outpoint_key -> bool) s k :
  fold_left (fun s '(key, entry) => if p key then s else <[key := entry]> s) adds s !! k
  = if p k then s !! k else ((list_to_map (rev adds) : UtxoSet) ∪ s) !! k.
Proof.
  revert s. induction adds as [|[a e] adds IH]; intros s; simpl.
  - rewrite map_empty_union. by destruct (p k).
  - rewrite IH, list_to_map_app. destruct (p k) eqn:Hk.
    + destruct (p a) eqn:Ha; [done|]. rewrite lookup_insert_ne; [done|congruence].
    + rewrite !lookup_union. simpl. rewrite insert_empty.
      destruct (list_to_map (rev adds) !! k) as [x|]; simpl;
        [by rewrite !union_Some_l || (destruct (s !! k); by destruct (_ !! k))|].
      destruct (decide (a = k)) as [->|Hne].
      * rewrite Hk, !lookup_insert_eq, lookup_singleton_eq. by destruct (s !! k).
      * rewrite lookup_singleton_ne by done. destruct (p a); [done|].
        rewrite lookup_insert_ne by done. by destruct (s !! k).
Qed.

Lemma lookup_undo_adds (undo : BlockUndoData) (s : UtxoSet) k :
  NoDup (map so_key undo) ->
  fold_left (fun s so => <[op_key (so_OutPoint so) := so_Entry so]> s) undo s !! k
  = match list_find (fun so => so_key so = k) undo with
    | Some (_, so) => Some (so_Entry so)
    | None => s !! k
    end.
Proof.
  revert s. induction undo as [|so undo IH]; intros s Hnd; [done|].
  apply NoDup_cons in Hnd as [Hni Hnd]. cbn [fold_left]. rewrite IH by done.
  cbn [list_find]. destruct (decide (so_key so = k)) as [E|E].
  - subst k. destruct (list_find _ undo) as [[i so']|] eqn:Ef.
    + apply list_find_Some in Ef as (Hl & E' & _). exfalso. apply Hni.
      apply list_elem_of_fmap. exists so'. split; [done|]. by eapply list_elem_of_lookup_2.
    + unfold so_key. by rewrite lookup_insert_eq.
  - destruct (list_find (fun so0 => so_key so0 = k) undo) as [[i so']|]; simpl; [done|].
    by rewrite lookup_insert_ne.
Qed.

(** ** The mutations collected from a block *)

Record cs_inv (s : UtxoSet) (sp : list outpoint_key) (ad : list (outpoint_key * UtxoEntry))
    (cs : connect_state) : Prop := {
  ci_remove : cs_toRemove cs = sp;
  ci_add : cs_toAdd cs = ad;
  ci_spent : cs_spentInBlock cs = list_to_set sp;
  ci_nodup : NoDup sp;
  ci_undo : map so_key (cs_undo cs) = sp;
  ci_entry : Forall (fun so => s !! so_key so = Some (so_Entry so)
                               \/ (so_key so, so_Entry so) ∈ ad) (cs_undo cs);
  ci_created : forall k e, cs_createdInBlock cs !! k = Some e -> (k, e) ∈ ad }.

Lemma cs_inv_init s : cs_inv s [] [] connect_init.
Proof. constructor; try done; by constructor. Qed.

Lemma connect_input_inv s h sp ad seen cs ti seen' cs' :
  cs_inv s sp ad cs -> connect_input s h (seen, cs) ti = Ok (seen', cs') ->
  cs_inv s (sp ++ [op_key (in_PreviousOutPoint ti)]) ad cs'.
Proof.
  intros [Hr Ha Hs Hn Hu He Hc] H. unfold connect_input in H. set (key := op_key _) in *.
  repeat inv_ok_step. destruct (match _ !! _ with Some _ => _ | None => _ end) as [entry|] eqn:Ee; [|done].
  repeat inv_ok_step. bool_to_prop.
  constructor; simpl; try done.
  - rewrite list_to_set_app_L, Hs. set_solver.
  - apply NoDup_app. split_and!; [done| |apply NoDup_singleton].
    intros x Hx Hx'. apply list_elem_of_singleton in Hx' as ->. rewrite Hs in *. set_solver.
  - rewrite map_app, Hu. done.
  - apply Forall_app. split; [done|]. constructor; [|done]. unfold so_key; simpl.
    destruct (cs_createdInBlock cs !! key) eqn:Ek; simplify_eq; [right; eauto|by left].
  - intros k e Hk. apply lookup_delete_Some in Hk as [_ Hk]. eauto.
Qed.

Lemma connect_inputs_inv s h sp ad ins seen cs seen' cs' :
  cs_inv s sp ad cs -> foldM (connect_input s h) (seen, cs) ins = Ok (seen', cs') ->
  cs_inv s (sp ++ map (fun ti => op_key (in_PreviousOutPoint ti)) ins) ad cs'.
Proof.
  revert sp seen cs. induction ins as [|ti ins IH]; intros sp seen cs Hi H; simpl in H.
  - inv_ok. by rewrite app_nil_r.
  - apply rbind_Ok in H as ([seen1 cs1] & H1 & H2). eapply connect_input_inv in H1; [|done].
    eapply IH in H2; [|done]. simpl. by rewrite <- app_assoc in H2.
Qed.

Lemma connect_outputs_inv s height sp ad tx cs :
  cs_inv s sp ad cs -> cs_inv s sp (ad ++ tx_entries height tx) (connect_outputs height tx cs).
Proof.
  unfold connect_outputs. generalize (tx_entries height tx) as new. intros new.
  revert ad cs. induction new as [|[k e] new IH]; intros ad cs Hi; simpl.
  - by rewrite app_nil_r.
  - rewrite (cons_middle (k, e) ad new), app_assoc. apply IH.
    destruct Hi as [Hr Ha Hs Hn Hu He Hc]. constructor; simpl; try done.
    + by rewrite Ha.
    + eapply Forall_impl; [done|]. simpl. set_solver.
    + intros k' e' Hk. apply lookup_insert_Some in Hk as [[<- <-]|[_ Hk]]; set_solver.
Qed.

Lemma connect_tx_inv s height sp ad cs tx cs' :
  cs_inv s sp ad cs -> connect_tx s height cs tx = Ok cs' ->
  cs_inv s (sp ++ tx_spends tx) (ad ++ tx_entries height tx) cs'.
Proof.
  intros Hi H. unfold connect_tx, tx_spends in *. destruct (tx_IsCoinbase tx); simpl in *.
  - inv_ok. rewrite app_nil_r. by apply connect_outputs_inv.
  - repeat inv_ok_step. apply connect_outputs_inv. by eapply connect_inputs_inv.
Qed.

Lemma connect_txs_inv s height txs cs :
  foldM (connect_tx s height) connect_init txs = Ok cs -> cs_inv s (spends txs) (creates height txs) cs.
Proof.
  intros H.
  apply (foldM_ind (connect_tx s height) (fun fin cs => cs_inv s (spends fin) (creates height fin) cs))
    in H; [done|apply cs_inv_init|].
  intros fin tx cs1 cs2 Hi _ Hf. rewrite spends_app, creates_app, spends_singleton, creates_singleton.
  by eapply connect_tx_inv.
Qed.

(** The result of connecting a block, as one map equation. *)
Lemma ConnectBlock_Ok s b height s' undo :
  ConnectBlock s b height = Ok (s', undo) ->
  let txs := blk_Transactions b in
  NoDup (spends txs) /\ map so_key undo = spends txs
  /\ Forall (fun so => s !! so_key so = Some (so_Entry so)
                       \/ (so_key so, so_Entry so) ∈ creates height txs) undo
  /\ forall k, s' !! k = if bool_decide (k ∈ spends txs) then None
                         else (created_map height txs ∪ s) !! k.
Proof.
  intros H txs. unfold ConnectBlock in H. apply rbind_Ok in H as (cs & H & E). fold txs in H.
  apply connect_txs_inv in H. destruct H as [Hr Ha Hs Hn Hu He _].
  injection E as <- <-. split_and!; try done. intros k.
  rewrite Hr, Ha, Hs.
  rewrite (fold_insert_lookup _ (fun key => bool_decide (key ∈ (list_to_set (spends txs) : gset _)))).
  rewrite (bool_decide_ext (k ∈ (list_to_set (spends txs) : gset _)) (k ∈ spends txs))
    by apply elem_of_list_to_set.
  rewrite !lookup_union, !lookup_delete_keys. unfold created_map.
  by destruct (bool_decide (k ∈ spends txs)).
Qed.

(** ** When a block connects *)

Lemma connect_inputs_ok s h ins seen cs sp ad :
  cs_inv s sp ad cs -> seen ⊆ cs_spentInBlock cs ->
  NoDup (sp ++ map (fun ti => op_key (in_PreviousOutPoint ti)) ins) ->
  Forall (fun ti => is_Some (s !! op_key (in_PreviousOutPoint ti))) ins ->
  exists acc, foldM (connect_input s h) (seen, cs) ins = Ok acc.
Proof.
  revert seen cs sp. induction ins as [|ti ins IH]; intros seen cs sp Hi Hseen Hnd Hex; [by eexists|].
  apply Forall_cons in Hex as [[e He] Hex]. cbn [foldM map] in *.
  assert (op_key (in_PreviousOutPoint ti) ∉ cs_spentInBlock cs) as Hnew.
  { rewrite (ci_spent _ _ _ _ Hi), elem_of_list_to_set. intros Hin.
    apply NoDup_app in Hnd as (_ & Hd & _). apply (Hd _ Hin). set_solver. }
  destruct (connect_input s h (seen, cs) ti) as [[seen' cs']|err] eqn:E.
  - cbn [rbind]. pose proof (connect_input_inv _ _ _ _ _ _ _ _ _ Hi E) as Hi'.
    apply (IH seen' cs' (sp ++ [op_key (in_PreviousOutPoint ti)])); [done| |by rewrite <- app_assoc|done].
    clear IH. unfold connect_input in E. repeat inv_ok_step.
    destruct (match _ !! _ with Some _ => _ | None => _ end); [|done]. repeat inv_ok_step. set_solver.
  - exfalso. unfold connect_input in E.
    rewrite !bool_decide_false in E by set_solver. rewrite He in E.
    by destruct (_ !! _) in E.
Qed.

Lemma connect_txs_ok s height txs done_ cs :
  cs_inv s (spends done_) (creates height done_) cs ->
  NoDup (spends (done_ ++ txs)) ->
  Forall (fun tx => Forall (fun k => is_Some (s !! k)) (tx_spends tx)) txs ->
  exists cs', foldM (connect_tx s height) cs txs = Ok cs'.
Proof.
  revert done_ cs. induction txs as [|tx txs IH]; intros done_ cs Hi Hnd Hex; [by eexists|].
  apply Forall_cons in Hex as [Hex1 Hex]. cbn [foldM].
  assert (exists cs1, connect_tx s height cs tx = Ok cs1) as [cs1 H1].
  { unfold connect_tx, tx_spends in *. destruct (tx_IsCoinbase tx) eqn:Hcb; [by eexists|]. simpl.
    destruct (connect_inputs_ok s (HashTransaction tx) (tx_Inputs tx) ∅ cs (spends done_) (creates height done_))
      as [[seen cs1] ->]; [done|set_solver| | |by eexists].
    - rewrite (cons_middle tx done_ txs), app_assoc, spends_app, spends_app, spends_singleton in Hnd.
      apply NoDup_app in Hnd as [Hnd _]. unfold tx_spends in Hnd. by rewrite Hcb in Hnd.
    - exact (proj1 (Forall_fmap _ _ _) Hex1). }
  rewrite H1. cbn [rbind]. apply (IH (done_ ++ [tx])); [| |done].
  - rewrite spends_app, creates_app, spends_singleton, creates_singleton. by eapply connect_tx_inv.
  - by rewrite <- app_assoc.
Qed.

(** A block connects when its inputs are distinct and all in the set. *)
Lemma ConnectBlock_succeeds s b height :
  NoDup (spends (blk_Transactions b)) ->
  Forall (fun k => is_Some (s !! k)) (spends (blk_Transactions b)) ->
  exists s' undo, ConnectBlock s b height = Ok (s', undo).
Proof.
  intros Hnd Hex. unfold ConnectBlock.
  destruct (connect_txs_ok s height (blk_Transactions b) [] connect_init) as [cs ->];
    [apply cs_inv_init|done| |by eexists _, _].
  apply Forall_forall. intros tx Htx. apply Forall_forall. intros k Hk.
  rewrite Forall_forall in Hex. apply Hex. unfold spends.
  apply list_elem_of_In, in_concat. exists (tx_spends tx). split; [|by apply list_elem_of_In].
  apply in_map. by apply list_elem_of_In.
Qed.

(** ** Disconnecting *)

Lemma tx_entries_keys height tx :
  map fst (tx_entries height tx)
  = imap (fun i _ => OutpointKey (HashTransaction tx) (u32 (Z.of_nat i))) (tx_Outputs tx).
Proof.
  unfold tx_entries. change (map fst ?l) with (fst <$> l). rewrite fmap_imap. done.
Qed.

Lemma elem_disconnect_keys k height b :
  k ∈ disconnect_keys b <-> k ∈ map fst (creates height (blk_Transactions b)).
Proof.
  unfold disconnect_keys, creates. rewrite !list_elem_of_In.
  rewrite concat_map, map_map, !in_concat. split; intros (l & Hl & Hk); exists l; (split; [|done]).
  - apply in_map_iff in Hl as (tx & <- & Htx). apply in_map_iff. exists tx.
    split; [apply tx_entries_keys|by apply in_rev].
  - apply in_map_iff in Hl as (tx & <- & Htx). apply in_map_iff. exists tx.
    split; [symmetry; apply tx_entries_keys|by apply -> in_rev].
Qed.

Lemma created_map_None height txs k :
  k ∉ map fst (creates height txs) -> created_map height txs !! k = None.
Proof.
  intros H. unfold created_map. apply not_elem_of_list_to_map_1. intros Hin. apply H.
  apply list_elem_of_In in Hin. apply list_elem_of_In.
  change (?f <$> ?l) with (map f l) in Hin. rewrite map_rev in Hin. by apply in_rev in Hin.
Qed.

(** The undo entry of a spent key that the block did not create. *)
Lemma list_find_undo (undo : BlockUndoData) (s : UtxoSet) ad k :
  Forall (fun so => s !! so_key so = Some (so_Entry so) \/ (so_key so, so_Entry so) ∈ ad) undo ->
  k ∈ map so_key undo -> k ∉ map fst ad ->
  match list_find (fun so => so_key so = k) undo with
  | Some (_, so) => s !! k = Some (so_Entry so)
  | None => False
  end.
Proof.
  intros He Hk Hnew. destruct (list_find _ undo) as [[i so]|] eqn:E.
  - apply list_find_Some in E as (Hl & <- & _). rewrite Forall_lookup in He.
    destruct (He _ _ Hl) as [|Hin]; [done|]. exfalso. apply Hnew.
    apply list_elem_of_fmap. by exists (so_key so, so_Entry so).
  - apply list_find_None in E. apply list_elem_of_fmap in Hk as (so & -> & Hso).
    rewrite Forall_forall in E. by apply (E so Hso).
Qed.

(** Disconnecting undoes connecting when the block's outputs are new to the set and
    not spent by the block itself. *)
Lemma disconnect_connect s b height s' undo :
  ConnectBlock s b height = Ok (s', undo) ->
  Forall (fun k => s !! k = None /\ k ∉ spends (blk_Transactions b))
    (map fst (creates height (blk_Transactions b))) ->
  DisconnectBlock s' b undo = s.
Proof.
  intros H Hfresh. apply ConnectBlock_Ok in H as (Hnd & Hu & He & Hs').
  set (txs := blk_Transactions b) in *. rewrite Forall_forall in Hfresh.
  apply map_eq. intros k. unfold DisconnectBlock.
  rewrite lookup_undo_adds by (by rewrite Hu).
  destruct (decide (k ∈ spends txs)) as [Hsp|Hsp].
  - assert (k ∉ map fst (creates height txs)) as Hnew by (intros Hin; by apply Hfresh in Hin as []).
    pose proof (list_find_undo undo s _ k He ltac:(by rewrite Hu) Hnew) as Hf.
    destruct (list_find _ undo) as [[i so]|]; [by symmetry|done].
  - destruct (list_find _ undo) as [[i so]|] eqn:E.
    { apply list_find_Some in E as (Hl & <- & _). exfalso. apply Hsp. rewrite <- Hu.
      apply list_elem_of_fmap. exists so. split; [done|]. by eapply list_elem_of_lookup_2. }
    rewrite lookup_delete_keys, Hs'.
    rewrite (bool_decide_ext _ _ (elem_disconnect_keys k height b)). fold txs.
    destruct (decide (k ∈ map fst (creates height txs))) as [Hc|Hc].
    + rewrite bool_decide_true by done. symmetry. by apply Hfresh.
    + rewrite !bool_decide_false by done. rewrite lookup_union, created_map_None by done.
      by destruct (s !! k).
Qed.

(** ** Values *)

Definition utxo_sum (s : UtxoSet) : Z := map_fold (fun _ e acc => ue_Value e + acc) 0 s.
Definition wf_entry (e : UtxoEntry) : Prop := is_u64 (ue_Value e) /\ is_u32 (ue_Height e).
Definition wf_utxo (s : UtxoSet) : Prop := map_Forall (fun _ e => wf_entry e) s.
Definition entries_value (l : list (outpoint_key * UtxoEntry)) : Z :=
  sumZ (map (fun kv => ue_Value kv.2) l).

Lemma utxo_sum_empty : utxo_sum ∅ = 0.
Proof. apply map_fold_empty. Qed.

Lemma utxo_sum_insert_new s k e :
  s !! k = None -> utxo_sum (<[k := e]> s) = ue_Value e + utxo_sum s.
Proof. intros Hk. unfold utxo_sum. by rewrite map_fold_insert_L by (intros; lia || done). Qed.

Lemma utxo_sum_delete s k e :
  s !! k = Some e -> utxo_sum s = ue_Value e + utxo_sum (delete k s).
Proof. intros Hk. unfold utxo_sum. by rewrite (map_fold_delete_L _ _ k e) by (intros; lia || done). Qed.

Lemma utxo_sum_insert s k e :
  wf_utxo s -> utxo_sum (<[k := e]> s) <= ue_Value e + utxo_sum s.
Proof.
  intros Hwf. destruct (s !! k) as [e0|] eqn:Hk.
  - rewrite <- insert_delete_eq, utxo_sum_insert_new by apply lookup_delete_eq.
    pose proof (utxo_sum_delete s k e0 Hk). specialize (Hwf k e0 Hk).
    unfold wf_entry, is_u64 in Hwf. lia.
  - by rewrite utxo_sum_insert_new.
Qed.

Lemma wf_utxo_insert s k e : wf_utxo s -> wf_entry e -> wf_utxo (<[k := e]> s).
Proof. intros. by apply map_Forall_insert_2. Qed.
Lemma wf_utxo_delete s k : wf_utxo s -> wf_utxo (delete k s).
Proof. intros. by apply map_Forall_delete. Qed.

Lemma utxo_sum_delete_keys s keys :
  NoDup keys -> Forall (fun k => is_Some (s !! k)) keys ->
  utxo_sum (delete_keys s keys)
  = utxo_sum s - sumZ (map (fun k => from_option ue_Value 0 (s !! k)) keys).
Proof.
  unfold delete_keys. revert s. induction keys as [|k keys IH]; intros s Hnd Hex; simpl; [lia|].
  apply NoDup_cons in Hnd as [Hk Hnd]. apply Forall_cons in Hex as [[e He] Hex].
  rewrite IH; [|done|].
  - rewrite He. simpl. pose proof (utxo_sum_delete s k e He).
    replace (sumZ (map (fun k0 => from_option ue_Value 0 (delete k s !! k0)) keys))
      with (sumZ (map (fun k0 => from_option ue_Value 0 (s !! k0)) keys)); [lia|].
    clear -Hk. induction keys as [|a keys IH]; simpl; [done|].
    rewrite IH by set_solver. rewrite lookup_delete_ne by set_solver. done.
  - rewrite Forall_forall in *. intros a Ha. rewrite lookup_delete_ne by set_solver. auto.
Qed.

Lemma utxo_sum_inserts (adds : list (outpoint_key * UtxoEntry)) (p : outpoint_key -> bool) s :
  wf_utxo s -> Forall (fun kv => wf_entry kv.2) adds ->
  let s' := fold_left (fun s '(key, entry) => if p key then s else <[key := entry]> s) adds s in
  utxo_sum s' <= utxo_sum s + entries_value adds /\ wf_utxo s'.
Proof.
  unfold entries_value.
  revert s. induction adds as [|[k e] adds IH]; intros s Hs Ha; simpl; [split; [lia|done]|].
  apply Forall_cons in Ha as [He Ha]. simpl in He.
  destruct (p k).
  - destruct (IH s Hs Ha). unfold wf_entry, is_u64 in He. split; [lia|done].
  - destruct (IH (<[k := e]> s)) as [H1 H2]; [by apply wf_utxo_insert|done|].
    pose proof (utxo_sum_insert s k e Hs). split; [lia|done].
Qed.

Lemma wf_delete_keys s keys : wf_utxo s -> wf_utxo (delete_keys s keys).
Proof.
  intros Hs k e Hk. rewrite lookup_delete_keys in Hk. case_bool_decide; [done|]. by apply (Hs k).
Qed.

Lemma Forall_tx_entries (P : UtxoEntry -> Prop) height tx :
  (forall out, out ∈ tx_Outputs tx -> P (new_entry height tx out)) ->
  Forall (fun kv => P kv.2) (tx_entries height tx).
Proof.
  intros H. apply Forall_lookup. intros i kv Hi. unfold tx_entries in Hi.
  rewrite list_lookup_imap in Hi. destruct (tx_Outputs tx !! i) as [out|] eqn:E; [|done].
  injection Hi as <-. simpl. apply H. by eapply list_elem_of_lookup_2.
Qed.

Lemma wf_creates height txs :
  is_u32 height -> Forall (fun tx => Forall wf_output (tx_Outputs tx)) txs ->
  Forall (fun kv => wf_entry kv.2) (creates height txs).
Proof.
  intros Hh H. unfold creates. induction H as [|tx txs Htx H IH]; simpl; [constructor|].
  apply Forall_app. split; [|done]. apply Forall_tx_entries. intros out Ho.
  rewrite Forall_forall in Htx. by destruct (Htx out Ho); split.
Qed.

(** Connecting a block removes the value it spends and adds at most what it creates. *)
Lemma ConnectBlock_sum s b height s' undo :
  ConnectBlock s b height = Ok (s', undo) ->
  is_u32 height -> wf_utxo s ->
  Forall (fun tx => Forall wf_output (tx_Outputs tx)) (blk_Transactions b) ->
  Forall (fun k => is_Some (s !! k)) (spends (blk_Transactions b)) ->
  wf_utxo s' /\
  utxo_sum s' <= utxo_sum s
    - sumZ (map (fun k => from_option ue_Value 0 (s !! k)) (spends (blk_Transactions b)))
    + entries_value (creates height (blk_Transactions b)).
Proof.
  intros H Hh Hs Ho Hex. unfold ConnectBlock in H. apply rbind_Ok in H as (cs & H & E).
  apply connect_txs_inv in H. destruct H as [Hr Ha _ Hn _ _ _]. injection E as <- _.
  rewrite Hr, Ha.
  destruct (utxo_sum_inserts (creates height (blk_Transactions b))
    (fun key => bool_decide (key ∈ cs_spentInBlock cs))
    (delete_keys s (spends (blk_Transactions b)))) as [H1 H2];
    [by apply wf_delete_keys|by apply wf_creates|].
  split; [exact H2|]. rewrite utxo_sum_delete_keys in H1 by done. exact H1.
Qed.

(** ** Stored entries and undo data *)

Definition wf_stored (e : UtxoEntry) : Prop :=
  is_u64 (ue_Value e) /\ is_u32 (ue_Height e) /\ len (ue_PkScript e) < 2^62.
Definition wf_spent (so : SpentOutput) : Prop := wf_outpoint (so_OutPoint so) /\ wf_stored (so_Entry so).

Lemma ue_roundtrip e : wf_stored e -> DeserializeUtxoEntry (ue_Serialize e) = Ok e.
Proof.
  destruct e as [v pk h cb]. intros (Hv & Hh & Hp). simpl in *.
  unfold DeserializeUtxoEntry, ue_Serialize; simpl.
  set (fl := byte.of_Z _). set (V := PutUint64LE v). set (H := PutUint32LE h).
  set (N := PutVarInt (len pk)).
  assert (length V = 8 /\ length H = 4)%nat as [LV LH]
    by (subst V H; by rewrite length_PutUint64LE, length_PutUint32LE).
  assert (is_u64 (len pk)) as Hpk by (unfold is_u64; lia).
  pose proof (length_PutVarInt (len pk) Hpk) as LN. fold N in LN.
  pose proof (VarIntSize_bounds (len pk)) as Bvi.
  set (data := V ++ H ++ fl :: N ++ pk).
  assert (data = (V ++ H ++ [fl]) ++ N ++ pk) as Hdata
    by (subst data; by rewrite <- !app_assoc).
  assert (len data = 13 + VarIntSize (len pk) + len pk) as Ld
    by (rewrite Hdata, !length_app; simpl; lia).
  destruct (Z.ltb_spec (len data) 13); [lia|].
  rewrite (slice_at 0 8 data [] V (H ++ fl :: N ++ pk)), (slice_at 8 12 data V H (fl :: N ++ pk))
    by (try done; lia).
  assert (drop 13 data = N ++ pk) as ->
    by (rewrite Hdata; apply drop_app_length'; rewrite !length_app; simpl; lia).
  assert (byte_at data 12 = if cb then 1 else 0) as ->.
  { unfold byte_at. subst data. rewrite app_nth2, app_nth2, LV, LH by lia. simpl. subst fl.
    by destruct cb. }
  subst N. rewrite ReadVarIntFromBytes_enc by done. cbn [rwrap rbind].
  assert (i64 (VarIntSize (len pk) + i64 (len pk)) = VarIntSize (len pk) + len pk) as ->
    by (rewrite !i64_small; unfold is_i64; try rewrite i64_small; unfold is_i64; lia).
  rewrite length_app. rewrite !(proj2 (Z.ltb_ge _ _)) by lia.
  rewrite (slice_at _ _ _ (PutVarInt (len pk)) pk []) by (rewrite ?app_nil_r; done || lia).
  subst V H. rewrite ReadUintLE_Put64, ReadUintLE_Put32 by done. by destruct cb.
Qed.

Lemma len_ue_Serialize e :
  wf_stored e -> len (ue_Serialize e) = 13 + VarIntSize (len (ue_PkScript e)) + len (ue_PkScript e).
Proof.
  intros (_ & _ & Hp). unfold ue_Serialize. rewrite <- length_PutVarInt by (unfold is_u64; lia).
  rewrite !length_app, length_PutUint64LE, length_PutUint32LE. simpl. lia.
Qed.

Lemma undo_loop_enc l n i pre acc :
  Forall wf_spent l -> length l = n ->
  len (pre ++ concat (map so_Serialize l)) < 2^62 ->
  undo_loop n i (pre ++ concat (map so_Serialize l)) (len pre) acc = Ok (acc ++ l).
Proof.
  intros Hwf <-. revert i pre acc. induction Hwf as [|so l ([Hh Hix] & He) Hwf IH];
    intros i pre acc Hmax; [simpl; by rewrite app_nil_r|].
  destruct so as [[h ix] e]. simpl in Hh, Hix, He.
  cbn [length undo_loop map concat]. cbn [map concat] in Hmax.
  set (E := ue_Serialize e) in *. set (N := PutVarInt (len E)).
  set (tl := concat (map so_Serialize l)) in *.
  set (X := PutUint32LE ix).
  unfold wf_hash, HashSize in Hh.
  assert (length X = 4)%nat as LX by apply length_PutUint32LE.
  assert (so_Serialize {| so_OutPoint := {| op_Hash := h; op_Index := ix |}; so_Entry := e |}
    = h ++ X ++ N ++ E) as HS by done.
  rewrite HS in *. clear HS. set (data := pre ++ (h ++ X ++ N ++ E) ++ tl) in *.
  assert (len data = len pre + 36 + len N + len E + len tl) as Ld
    by (subst data; rewrite !length_app; lia).
  assert (is_u64 (len E)) as HuE by (unfold is_u64; lia).
  assert (len N = VarIntSize (len E)) as LN by (by apply length_PutVarInt).
  rewrite Z.gtb_ltb. destruct (Z.ltb_spec (len data) (len pre + 36)); [lia|].
  rewrite (slice_at _ _ data pre h (X ++ N ++ E ++ tl)), (slice_at _ _ data (pre ++ h) X (N ++ E ++ tl))
    by (subst data; rewrite ?length_app, <- ?app_assoc; done || lia).
  assert (drop (Z.to_nat (len pre + 36)) data = N ++ E ++ tl) as ->.
  { subst data. replace (pre ++ _) with ((pre ++ h ++ X) ++ N ++ E ++ tl) by (by rewrite <- !app_assoc).
    apply drop_app_length'. rewrite !length_app. lia. }
  subst N. rewrite ReadVarIntFromBytes_enc by done. cbn [rwrap rbind].
  set (N := PutVarInt (len E)) in *.
  assert (i64 (len pre + 36 + VarIntSize (len E) + i64 (len E)) = len (pre ++ h ++ X ++ N ++ E)) as ->
    by (rewrite !i64_small; rewrite ?length_app; unfold is_i64; try rewrite i64_small; unfold is_i64; lia).
  rewrite Z.gtb_ltb. destruct (Z.ltb_spec (len data) (len (pre ++ h ++ X ++ N ++ E)));
    [rewrite !length_app in *; lia|].
  destruct (Z.ltb_spec (len (pre ++ h ++ X ++ N ++ E)) (len pre + 36 + VarIntSize (len E)));
    [rewrite !length_app in *; lia|].
  rewrite (slice_at _ _ data (pre ++ h ++ X ++ N) E tl)
    by (subst data; rewrite ?length_app, <- ?app_assoc; done || lia).
  subst E. rewrite ue_roundtrip by done. cbn [rwrap rbind]. set (E := ue_Serialize e) in *.
  replace data with ((pre ++ h ++ X ++ N ++ E) ++ tl) by (subst data; by rewrite <- !app_assoc).
  subst X. rewrite ReadUintLE_Put32 by done. rewrite IH; [by rewrite <- app_assoc|].
  revert Ld Hmax. subst data. rewrite !length_app. intros. lia.
Qed.

(** ** The total value *)

Lemma total_loop_spec total values :
  is_u64 total -> Forall is_u64 values ->
  total_loop total values
  = let sum := total + sumZ values in if sum <? 2^64 then sum else 2^64 - 1.
Proof.
  intros Ht Hv. revert total Ht. induction Hv as [|v values Hv Hvs IH]; intros total Ht; simpl.
  - unfold is_u64 in Ht. by ztest.
  - assert (0 <= sumZ values) as Hnn.
    { clear -Hvs. induction Hvs as [|x l Hx Hl IH]; simpl; [lia|]. unfold is_u64 in Hx. lia. }
    destruct (add64 total v <? total) eqn:E.
    + rewrite add64_overflow in E by done. apply negb_true_iff, Z.ltb_ge in E.
      ztest; lia.
    + apply add64_checked in E as [E Hlt]; [|done|done]. rewrite E.
      rewrite IH by (unfold is_u64 in *; lia). simpl. by rewrite <- Z.add_assoc.
Qed.

Lemma utxo_sum_list s : utxo_sum s = sumZ (map (fun kv => ue_Value kv.2) (map_to_list s)).
Proof.
  unfold utxo_sum. rewrite map_fold_foldr. induction (map_to_list s) as [|[k e] l IH]; simpl; [done|].
  by rewrite <- IH.
Qed.

Lemma TotalValue_spec s :
  wf_utxo s -> TotalValue s = if utxo_sum s <? 2^64 then utxo_sum s else 2^64 - 1.
Proof.
  intros Hs. unfold TotalValue. rewrite total_loop_spec; [by rewrite <- utxo_sum_list|unfold is_u64; lia|].
  apply Forall_map, Forall_forall. intros [k e] Hk. apply elem_of_map_to_list in Hk. apply (Hs k e Hk).
Qed.

(** A set and a block to evaluate the operations on. *)
(** ** What connecting a block keeps *)

Lemma undo_roundtrip undo :
  Forall wf_spent undo -> len (SerializeUndoData undo) < 2^62 ->
  DeserializeUndoData (SerializeUndoData undo) = Ok undo.
Proof.
  intros Hu Hl.
  unfold DeserializeUndoData, SerializeUndoData in *.
  assert (is_u64 (len undo)) as Hlen.
  { unfold is_u64. rewrite length_app in Hl. split; [lia|].
    assert (length undo <= length (concat (map so_Serialize undo)))%nat; [|lia].
    clear. induction undo as [|so undo IH]; simpl; [lia|]. rewrite length_app.
    assert (1 <= length (so_Serialize so))%nat; [|lia].
    unfold so_Serialize. rewrite !length_app, length_PutUint32LE. lia. }
  pose proof (length_PutVarInt _ Hlen) as LN. pose proof (VarIntSize_bounds (len undo)).
  destruct (Z.eqb_spec (len (PutVarInt (len undo) ++ concat (map so_Serialize undo))) 0) as [E0|].
  { rewrite length_app in E0. lia. }
  rewrite ReadVarIntFromBytes_enc by done. cbn [rwrap rbind].
  rewrite <- LN, Nat2Z.id. by rewrite undo_loop_enc by done.
Qed.

(** A predicate on coins that holds of the set and of the block's outputs. *)
Lemma connect_Forall (P : outpoint_key -> UtxoEntry -> Prop) s b height s' undo :
  ConnectBlock s b height = Ok (s', undo) -> map_Forall P s ->
  Forall (fun kv => P kv.1 kv.2) (creates height (blk_Transactions b)) ->
  map_Forall P s' /\ Forall (fun so => P (so_key so) (so_Entry so)) undo.
Proof.
  intros H Hs Hc. apply ConnectBlock_Ok in H as (_ & _ & He & Hs'). rewrite Forall_forall in Hc. split.
  - intros k e Hk. rewrite Hs' in Hk. destruct (bool_decide _); [done|].
    apply lookup_union_Some_raw in Hk as [Hk|[_ Hk]]; [|by apply Hs].
    unfold created_map in Hk. apply elem_of_list_to_map_2 in Hk.
    apply (Hc (k, e)). apply list_elem_of_In. apply in_rev. by apply list_elem_of_In.
  - eapply Forall_impl; [exact He|]. intros so [Hk|Hk]; [by apply Hs|by apply (Hc (so_key so, so_Entry so))].
Qed.

(** The undo data lists outpoints of the block's inputs. *)
Lemma connect_undo_outpoints (P : OutPoint -> Prop) s b height s' undo :
  ConnectBlock s b height = Ok (s', undo) ->
  Forall (fun tx => Forall (fun ti => P (in_PreviousOutPoint ti)) (tx_Inputs tx)) (blk_Transactions b) ->
  Forall (fun so => P (so_OutPoint so)) undo.
Proof.
  intros H Hw. unfold ConnectBlock in H. apply rbind_Ok in H as (cs & H & E). injection E as _ <-.
  assert (Forall (fun so => P (so_OutPoint so)) (cs_undo connect_init)) as H0 by constructor.
  revert H0 H. generalize connect_init. induction Hw as [|tx txs Hi Hw IH]; intros cs0 H0 H; simpl in H.
  { by injection H as <-. }
  apply rbind_Ok in H as (cs1 & H1 & H). refine (IH cs1 _ H). clear IH H. unfold connect_tx in H1.
  apply rbind_Ok in H1 as (cs2 & H2 & E). injection E as <-.
  assert (cs_undo (connect_outputs height tx cs2) = cs_undo cs2) as ->.
  { unfold connect_outputs. generalize cs2. induction (tx_entries height tx) as [|[] l IHl]; intros c; [done|].
    simpl. by rewrite IHl. }
  destruct (negb _); [|by injection H2 as <-]. apply rbind_Ok in H2 as ([seen cs3] & H2 & E). injection E as <-.
  revert H0 H2. generalize cs0, (∅ : gset outpoint_key). clear -Hi.
  induction Hi as [|ti ins Hti Hi IH]; intros c sn H0 H2; simpl in H2.
  { by injection H2 as _ <-. }
  apply rbind_Ok in H2 as ([sn1 c1] & H1 & H2). refine (IH c1 sn1 _ H2). clear IH H2.
  unfold connect_input in H1. repeat inv_ok_step.
  destruct (match _ !! _ with Some _ => _ | None => _ end); [|done]. repeat inv_ok_step. simpl.
  apply Forall_app. split; [done|]. by constructor.
Qed.

Definition example_entry : UtxoEntry :=
  {| ue_Value := 1500; ue_PkScript := [Byte.x51]; ue_Height := 3; ue_IsCoinbase := false |}.
Definition example_utxo : UtxoSet := {[ OutpointKey ZeroHash 7 := example_entry ]}.
Definition example_coinbase : Transaction := {|
  tx_Version := 1;
  tx_Inputs := [{| in_PreviousOutPoint := CoinbaseOutPoint;
                   in_SignatureScript := bytes_of [4; 9; 0; 0; 0]; in_Sequence := 0xFFFFFFFF |}];
  tx_Outputs := [{| out_Value := 5000000500; out_PkScript := [Byte.x51] |}];
  tx_LockTime := 0 |}.
Definition example_block : Block := {|
  blk_Header := {| hdr_Version := 1; hdr_PrevBlock := ZeroHash;
                   hdr_MerkleRoot := ComputeMerkleRoot [example_coinbase; example_tx];
                   hdr_Timestamp := 0; hdr_Bits := 0; hdr_Nonce := 0 |};
  blk_Transactions := [example_coinbase; example_tx] |}.

(** ** Properties *)

(** Connecting a block is exact and atomic.  If it succeeds, the new set is the old
    one with the block's outputs added and every outpoint the block spends absent, the
    undo data lists exactly the spent outpoints in order, each with the entry it had in
    the old set or in the block; if it fails, the block spends an outpoint twice or one
    that was not in the set (and, the result being an error, no set is produced). *)
Theorem connect_block_effect s b height :
  let txs := blk_Transactions b in
  match ConnectBlock s b height with
  | Ok (s', undo) =>
      NoDup (spends txs) /\ map so_key undo = spends txs
      /\ Forall (fun so => s !! so_key so = Some (so_Entry so)
                           \/ (so_key so, so_Entry so) ∈ creates height txs) undo
      /\ forall k, s' !! k = if bool_decide (k ∈ spends txs) then None
                             else (created_map height txs ∪ s) !! k
  | Err _ => ~ (NoDup (spends txs) /\ Forall (fun k => is_Some (s !! k)) (spends txs))
  end.
Proof.
  intros txs. destruct (ConnectBlock s b height) as [[s' undo]|e] eqn:E.
  - by apply ConnectBlock_Ok.
  - intros [Hnd Hex]. destruct (ConnectBlock_succeeds s b height Hnd Hex) as (s' & undo & H).
    congruence.
Qed.

(** Reorganisations are reversible: disconnecting a block with the undo data that
    connecting it produced restores the set exactly, provided the block's outputs were
    new to the set and are not spent inside the block. *)
Theorem disconnect_undoes_connect s b height s' undo :
  ConnectBlock s b height = Ok (s', undo) ->
  Forall (fun k => s !! k = None /\ k ∉ spends (blk_Transactions b))
    (map fst (creates height (blk_Transactions b))) ->
  DisconnectBlock s' b undo = s.
Proof. apply disconnect_connect. Qed.

Lemma disconnect_undoes_connect_witness :
  exists s' undo, ConnectBlock example_utxo example_block 9 = Ok (s', undo)
    /\ size s' = 2%nat /\ DisconnectBlock s' example_block undo = example_utxo.
Proof.
  destruct (ConnectBlock example_utxo example_block 9) as [[s' undo]|e] eqn:E.
  - exists s', undo. split; [reflexivity|]. split.
    + apply (f_equal (fun r => match r with Ok (s, _) => size s | Err _ => O end)) in E.
      vm_compute in E. exact (eq_sym E).
    + apply (disconnect_undoes_connect example_utxo example_block 9 s' undo E).
      refine (bool_decide_unpack _ _). vm_compute. exact I.
  - exfalso. apply (f_equal is_ok) in E. vm_compute in E. discriminate E.
Defined.

(** The stored forms are lossless: an entry and a block's undo data are read back from
    their bytes exactly. *)
Theorem undo_data_roundtrip e undo :
  wf_stored e -> Forall wf_spent undo -> len (SerializeUndoData undo) < 2^62 ->
  DeserializeUtxoEntry (ue_Serialize e) = Ok e
  /\ DeserializeUndoData (SerializeUndoData undo) = Ok undo.
Proof. intros He Hu Hl. split; [by apply ue_roundtrip|by apply undo_roundtrip]. Qed.

Lemma undo_data_roundtrip_witness :
  let undo := [{| so_OutPoint := {| op_Hash := ZeroHash; op_Index := 7 |}; so_Entry := example_entry |}] in
  DeserializeUtxoEntry (ue_Serialize example_entry) = Ok example_entry
  /\ DeserializeUndoData (SerializeUndoData undo) = Ok undo.
Proof.
  intros undo.
  assert (wf_stored example_entry) as He
    by (unfold wf_stored, is_u64, is_u32; simpl; lia).
  apply (undo_data_roundtrip example_entry undo He).
  - constructor; [|constructor]. split; [split; [done|unfold is_u32; simpl; lia]|exact He].
  - vm_compute. done.
Defined.

(** [TotalValue] is the sum of the values in the set, whatever order the map is
    iterated in, and the sentinel [2^64-1] exactly when that sum does not fit. *)
Theorem total_value_exact s order :
  wf_utxo s -> order ≡ₚ map_to_list s ->
  TotalValue s = (if utxo_sum s <? 2^64 then utxo_sum s else 2^64 - 1)
  /\ total_loop 0 (map (fun kv => ue_Value kv.2) order) = TotalValue s.
Proof.
  intros Hs Hp. rewrite <- (TotalValue_spec s Hs). split; [done|].
  unfold TotalValue. set (vals := map (fun kv => ue_Value kv.2)).
  assert (Forall is_u64 (vals (map_to_list s))) as Hf.
  { apply Forall_map, Forall_forall. intros [k e] Hk. apply elem_of_map_to_list in Hk. apply (Hs k e Hk). }
  assert (vals order ≡ₚ vals (map_to_list s)) as Hpv by (unfold vals; by apply Permutation_map).
  rewrite !total_loop_spec; [|unfold is_u64; lia|done|unfold is_u64; lia|by rewrite Hpv].
  by rewrite (sumZ_perm _ _ Hpv).
Qed.

Lemma total_value_exact_witness : TotalValue example_utxo = 1500.
Proof.
  destruct (total_value_exact example_utxo (map_to_list example_utxo)) as [-> _];
    [by apply map_Forall_singleton|done|]. vm_compute. done.
Defined.
