(* ===== verification/Wallet.v ===== *)
(** * The HD wallet

    Models [src/internal/wallet/hdwallet.go]: key derivation and lookup, the wallet file,
    encryption with a passphrase, locking, balances and the signing of raw transactions.

    BIP39 ([tyler-smith/go-bip39]), BIP32 ([btcutil/hdkeychain]), scrypt
    ([golang.org/x/crypto]) and the serialization of private keys ([decred/dcrd]) are code
    outside the repository: they are the operations of the class [WalletOps].  AES is the
    one of [Aes.v].

    An operation maps a wallet to a result and the wallet it leaves, also when it fails.
    [mu] is not represented, every method holding it from start to end.  A [DerivedKey] is
    never changed after it is made, so the pointers to it in the lists and maps are the
    keys themselves.  [FileContent] is the file [walletPath()] names: [encoding/json]
    reads back what it has written for a [WalletData] of valid UTF-8 text, so a written
    file is that record.  A write that fails may leave anything. *)
From S2P Require Import Prelude.
From S2P Require Import Types.
From S2P Require Import Sha256.
From S2P Require Import Crypto.
From S2P Require Import Target.
From S2P Require Import Base58.
From S2P Require Import Aes.
From S2P Require Import Utxo.

Definition bip44Purpose : Z := 44.
Definition bip44CoinType : Z := 0.

(** ** Code outside the repository *)

Class WalletOps `{EC : ECOps} := {
  ExtendedKey : Type;
  NewMnemonic : list byte -> option (list byte);
  IsMnemonicValid : list byte -> bool;
  NewSeed : list byte -> list byte;
  NewMaster : list byte -> option ExtendedKey;
  Derive : ExtendedKey -> Z -> option ExtendedKey;
  ECPrivKey : ExtendedKey -> option (list byte);
  priv_Serialize : PrivateKey -> list byte;
  scrypt_Key : list byte -> list byte -> Z -> Z -> Z -> Z -> option (list byte)
}.

(** [hdkeychain.HardenedKeyStart] *)
Definition HardenedKeyStart : Z := 0x80000000.

(** ** State *)

Record WalletData := {
  wd_Mnemonic : list byte;
  wd_Seed : list byte;
  wd_NextExternalIdx : Z;
  wd_NextChangeIdx : Z;
  wd_Encrypted : bool;
  wd_EncryptedData : list byte;
  wd_Salt : list byte;
  wd_IV : list byte;
  wd_ScryptN : Z;
  wd_ScryptR : Z;
  wd_ScryptP : Z }.

Inductive FileContent :=
| Missing
| Empty
| Malformed
| Stored (wd : WalletData).

(** What the operating system answers at the [n]-th call: a failing write and what it leaves
    of the old content, failing reads, [crypto/rand], and the clock in nanoseconds. *)
Record WalletEnv := {
  we_write : nat -> FileContent -> option FileContent;
  we_read_fails : nat -> bool;
  we_rand : nat -> nat -> option (list byte);
  we_now : nat -> Z }.

Section state.
Context `{WO : WalletOps}.

Record DerivedKey := {
  dk_PrivKey : PrivateKey;
  dk_PubKey : list byte;
  dk_PubKeyHash : list byte;
  dk_Path : list byte;
  dk_IsChange : bool;
  dk_Index : Z }.

(** The derived keys: the fields from [accountKey] to [changeKeys], and the lookup maps. *)
Record KeyRing := {
  kr_accountKey : option ExtendedKey;
  kr_externalKey : option ExtendedKey;
  kr_changeKey : option ExtendedKey;
  kr_externalKeys : list DerivedKey;
  kr_changeKeys : list DerivedKey;
  kr_keysByHash : gmap (list byte) DerivedKey;
  kr_keysByAddress : gmap (list byte) DerivedKey }.

(** The encryption state; [lk_unlockUntil] is [None] for the zero time. *)
Record LockState := {
  lk_encrypted : bool;
  lk_locked : bool;
  lk_unlockUntil : option Z;
  lk_encKey : list byte }.

(** The wallet, its file and the number of calls to the operating system so far. *)
Record HDWallet := {
  w_file : FileContent;
  w_tick : nat;
  w_mnemonic : list byte;
  w_seed : list byte;
  w_keys : KeyRing;
  w_nextExternalIdx : Z;
  w_nextChangeIdx : Z;
  w_addrVersion : byte;
  w_lock : LockState }.

Definition set_disk (f : FileContent) (n : nat) (w : HDWallet) : HDWallet :=
  {| w_file := f; w_tick := n; w_mnemonic := w_mnemonic w; w_seed := w_seed w; w_keys := w_keys w;
     w_nextExternalIdx := w_nextExternalIdx w; w_nextChangeIdx := w_nextChangeIdx w;
     w_addrVersion := w_addrVersion w; w_lock := w_lock w |}.
Definition set_secret (mnemonic seed : list byte) (w : HDWallet) : HDWallet :=
  {| w_file := w_file w; w_tick := w_tick w; w_mnemonic := mnemonic; w_seed := seed; w_keys := w_keys w;
     w_nextExternalIdx := w_nextExternalIdx w; w_nextChangeIdx := w_nextChangeIdx w;
     w_addrVersion := w_addrVersion w; w_lock := w_lock w |}.
Definition set_keys (k : KeyRing) (w : HDWallet) : HDWallet :=
  {| w_file := w_file w; w_tick := w_tick w; w_mnemonic := w_mnemonic w; w_seed := w_seed w; w_keys := k;
     w_nextExternalIdx := w_nextExternalIdx w; w_nextChangeIdx := w_nextChangeIdx w;
     w_addrVersion := w_addrVersion w; w_lock := w_lock w |}.
Definition set_indices (e c : Z) (w : HDWallet) : HDWallet :=
  {| w_file := w_file w; w_tick := w_tick w; w_mnemonic := w_mnemonic w; w_seed := w_seed w; w_keys := w_keys w;
     w_nextExternalIdx := e; w_nextChangeIdx := c;
     w_addrVersion := w_addrVersion w; w_lock := w_lock w |}.
Definition set_lock (l : LockState) (w : HDWallet) : HDWallet :=
  {| w_file := w_file w; w_tick := w_tick w; w_mnemonic := w_mnemonic w; w_seed := w_seed w; w_keys := w_keys w;
     w_nextExternalIdx := w_nextExternalIdx w; w_nextChangeIdx := w_nextChangeIdx w;
     w_addrVersion := w_addrVersion w; w_lock := l |}.
Definition ticked (w : HDWallet) : HDWallet := set_disk (w_file w) (S (w_tick w)) w.
End state.
Arguments DerivedKey {EC} : rename.
Arguments KeyRing {EC WO} : rename.
Arguments HDWallet {EC WO} : rename.

Inductive WalletErr :=
| RandFailed | MnemonicFailed | InvalidMnemonic
| ReadFailed | WriteFailed | ParseFailed | MkdirFailed
| BadSeedHex (e : HexErr) | BadHex (e : HexErr)
| DeriveMaster | DerivePurpose | DeriveCoinType | DeriveAccount | DeriveExternalChain | DeriveChangeChain
| DeriveChild (isChange : bool) (index : Z) | ExtractPrivKey
| NilKeyPanic                                  (** a method call on a nil extended key *)
| AddressNotFound | InvalidPrivKeyText | PrivKeyErr (e : CryptoErr)
| AlreadyEncrypted | EmptyPassphrase | NotEncrypted | ScryptFailed | CipherFailed
| IVLengthPanic                                (** [cipher.NewCBCDecrypter] panics *)
| BlockAlign | InvalidPadding | IncorrectPassphrase
| WalletLocked
| SignInputErr (i : Z) (e : CryptoErr)
| ZeroAmount | InvalidDestination (e : Base58Err) | AddressVersionMismatch (have want : Z)
| NoSpendable | InsufficientFunds (need have : Z) | FeeTooLarge (need fee have : Z)
| ChangeAddress (e : WalletErr) | ChangeDecode (e : Base58Err) | NoPrivateKey (i : Z) (address : list byte).

Definition wM `{WO : WalletOps} (A : Type) : Type := stM HDWallet WalletErr A.

(** ** Padding and text *)

Definition aes_BlockSize : Z := 16.

Definition pkcs7Pad (data : list byte) (blockSize : Z) : list byte :=
  let padding := blockSize - len data mod blockSize in
  data ++ replicate (Z.to_nat padding) (byte.of_Z padding).

Definition pkcs7Unpad (data : list byte) (blockSize : Z) : result WalletErr (list byte) :=
  check (len data =? 0) || negb (len data mod blockSize =? 0) else InvalidPadding;
  let padLen := byte_at data (length data - 1) in
  check (padLen =? 0) || (padLen >? blockSize) else InvalidPadding;
  let n := (length data - Z.to_nat padLen)%nat in
  check negb (forallb (fun b => Byte.eqb b (byte.of_Z padLen)) (drop n data)) else InvalidPadding;
  Ok (take n data).

(** The length of the UTF-8 sequence at the start of a string, as [range] reads it; [None]
    for an invalid byte, which it reads as U+FFFD. *)
Definition rune_width (s : list byte) : option nat :=
  let at_ i := byte_at s i in
  let cont i := (0x80 <=? at_ i) && (at_ i <=? 0xBF) && (Z.of_nat i <? len s) in
  let second lo hi := (lo <=? at_ 1%nat) && (at_ 1%nat <=? hi) && (1 <? len s) in
  let b := at_ 0%nat in
  if b <=? 0x7F then Some 1%nat
  else if (0xC2 <=? b) && (b <=? 0xDF) then if cont 1%nat then Some 2%nat else None
  else if (0xE0 <=? b) && (b <=? 0xEF) then
    let ok := if b =? 0xE0 then second 0xA0 0xBF else if b =? 0xED then second 0x80 0x9F else cont 1%nat in
    if ok && cont 2%nat then Some 3%nat else None
  else if (0xF0 <=? b) && (b <=? 0xF4) then
    let ok := if b =? 0xF0 then second 0x90 0xBF else if b =? 0xF4 then second 0x80 0x8F else cont 1%nat in
    if ok && cont 2%nat && cont 3%nat then Some 4%nat else None
  else None.

Definition RuneError : list byte := bytes_of [0xEF; 0xBF; 0xBD].
Definition newline : byte := byte.of_Z 10.

(** [for _, c := range s]; every rune takes a byte or more, so [length s] is enough fuel. *)
Fixpoint split_loop (fuel : nat) (s current : list byte) (parts : list (list byte)) : list (list byte) :=
  match fuel, s with
  | S fuel, c :: rest =>
      if Byte.eqb c newline then split_loop fuel rest [] (parts ++ [current])
      else match rune_width s with
           | Some n => split_loop fuel (drop n s) (current ++ take n s) parts
           | None => split_loop fuel rest (current ++ RuneError) parts
           end
  | _, _ => if bool_decide (current = []) then parts else parts ++ [current]
  end.
Definition splitOnNewline (s : list byte) : list (list byte) := split_loop (length s) s [] [].

(** Decimal digits, as [%d] prints a [uint32]. *)
Definition decimal (x : Z) : list byte :=
  if x =? 0 then [byte.of_Z 48] else map (fun d => byte.of_Z (48 + d)) (rev (digits_of 10 (Z.to_nat (BitLen x)) x)).

(** [fmt.Sprintf("m/44'/0'/0'/%d/%d", chainIdx, index)] *)
Definition key_path (isChange : bool) (index : Z) : list byte :=
  bytes_of_string "m/44'/0'/0'/" ++ decimal (if isChange then 1 else 0) ++ bytes_of_string "/" ++ decimal index.

(** ** Encryption of the seed *)

Definition scryptN : Z := Z.shiftl 1 15.
Definition scryptR : Z := 8.
Definition scryptP : Z := 1.
Definition keyLen : Z := 32.
Definition saltLen : nat := 16.

(** Keys have [keyLen] bytes; for another length [aes.NewCipher] would choose another AES
    or fail, which does not occur. *)
Definition NewCipher (key : list byte) : option (list (list byte)) :=
  if len key =? 32 then Some (round_keys key) else None.

Definition aesEncrypt (iv key plaintext : list byte) : result WalletErr (list byte) :=
  match NewCipher key with
  | None => Err CipherFailed
  | Some block =>
      let padded := pkcs7Pad plaintext aes_BlockSize in
      Ok (cbc_encrypt block (length padded / 16) iv padded)
  end.

Definition aesDecrypt (key iv ciphertext : list byte) : result WalletErr (list byte) :=
  match NewCipher key with
  | None => Err CipherFailed
  | Some block =>
      check negb (len ciphertext mod aes_BlockSize =? 0) else BlockAlign;
      check negb (len iv =? aes_BlockSize) else IVLengthPanic;
      pkcs7Unpad (cbc_decrypt block (length ciphertext / 16) iv ciphertext) aes_BlockSize
  end.

Section ops.
Context `{WO : WalletOps} (env : WalletEnv).
Implicit Types w : HDWallet.

(** ** The operating system *)

Definition Rand (n : nat) : wM (list byte) := fun w =>
  match we_rand env (w_tick w) n with
  | Some b => (Ok b, ticked w)
  | None => (Err RandFailed, ticked w)
  end.

Definition ReadFile : wM FileContent := fun w =>
  if we_read_fails env (w_tick w) then (Err ReadFailed, ticked w)
  else match w_file w with
       | Missing => (Err ReadFailed, ticked w)
       | c => (Ok c, ticked w)
       end.

(** [json.MarshalIndent] (which does not fail here), [os.MkdirAll] and [os.WriteFile]. *)
Definition WriteFile (wd : WalletData) : wM unit := fun w =>
  match we_write env (w_tick w) (w_file w) with
  | None => (Ok tt, set_disk (Stored wd) (S (w_tick w)) w)
  | Some c => (Err WriteFailed, set_disk c (S (w_tick w)) w)
  end.

Definition WNow : wM Z := fun w => (Ok (we_now env (w_tick w)), ticked w).

(** [json.Unmarshal] *)
Definition parse (c : FileContent) : result WalletErr WalletData :=
  match c with Stored wd => Ok wd | _ => Err ParseFailed end.

(** ** Saving *)

Definition savePreservingEncryption : wM unit :=
  do existing <- ReadFile;
  do wd <- slift (fun e => e) (parse existing);
  do w <- sget;
  WriteFile {| wd_Mnemonic := wd_Mnemonic wd; wd_Seed := wd_Seed wd;
               wd_NextExternalIdx := w_nextExternalIdx w; wd_NextChangeIdx := w_nextChangeIdx w;
               wd_Encrypted := wd_Encrypted wd; wd_EncryptedData := wd_EncryptedData wd;
               wd_Salt := wd_Salt wd; wd_IV := wd_IV wd;
               wd_ScryptN := wd_ScryptN wd; wd_ScryptR := wd_ScryptR wd; wd_ScryptP := wd_ScryptP wd |}.

Definition save : wM unit :=
  do w <- sget;
  if lk_encrypted (w_lock w) then savePreservingEncryption
  else WriteFile {| wd_Mnemonic := w_mnemonic w; wd_Seed := hex_EncodeToString (w_seed w);
                    wd_NextExternalIdx := w_nextExternalIdx w; wd_NextChangeIdx := w_nextChangeIdx w;
                    wd_Encrypted := false; wd_EncryptedData := []; wd_Salt := []; wd_IV := [];
                    wd_ScryptN := 0; wd_ScryptR := 0; wd_ScryptP := 0 |}.

Definition saveEncrypted (ciphertext salt iv : list byte) : wM unit :=
  do w <- sget;
  WriteFile {| wd_Mnemonic := []; wd_Seed := [];
               wd_NextExternalIdx := w_nextExternalIdx w; wd_NextChangeIdx := w_nextChangeIdx w;
               wd_Encrypted := true; wd_EncryptedData := hex_EncodeToString ciphertext;
               wd_Salt := hex_EncodeToString salt; wd_IV := hex_EncodeToString iv;
               wd_ScryptN := scryptN; wd_ScryptR := scryptR; wd_ScryptP := scryptP |}.

(** ** Derivation *)

Definition set_account (a e c : option ExtendedKey) (k : KeyRing) : KeyRing :=
  {| kr_accountKey := a; kr_externalKey := e; kr_changeKey := c;
     kr_externalKeys := kr_externalKeys k; kr_changeKeys := kr_changeKeys k;
     kr_keysByHash := kr_keysByHash k; kr_keysByAddress := kr_keysByAddress k |}.

Definition derive (e : WalletErr) (k : ExtendedKey) (i : Z) : wM ExtendedKey :=
  match Derive k i with Some c => sret c | None => sfail e end.

Definition deriveAccountKeys : wM unit :=
  do w <- sget;
  do master <- match NewMaster (w_seed w) with Some k => sret k | None => sfail DeriveMaster end;
  do purpose <- derive DerivePurpose master (add32 HardenedKeyStart bip44Purpose);
  do coinType <- derive DeriveCoinType purpose (add32 HardenedKeyStart bip44CoinType);
  do account <- derive DeriveAccount coinType (add32 HardenedKeyStart 0);
  let old := w_keys w in
  do _ <- smod (set_keys (set_account (Some account) (kr_externalKey old) (kr_changeKey old) old));
  do external <- derive DeriveExternalChain account 0;
  do _ <- smod (set_keys (set_account (Some account) (Some external) (kr_changeKey old) old));
  do change <- derive DeriveChangeChain account 1;
  smod (set_keys (set_account (Some account) (Some external) (Some change) old)).

(** The key is appended to its list and entered in both maps. *)
Definition add_key (ver : byte) (dk : DerivedKey) (k : KeyRing) : KeyRing :=
  {| kr_accountKey := kr_accountKey k; kr_externalKey := kr_externalKey k; kr_changeKey := kr_changeKey k;
     kr_externalKeys := if dk_IsChange dk then kr_externalKeys k else kr_externalKeys k ++ [dk];
     kr_changeKeys := if dk_IsChange dk then kr_changeKeys k ++ [dk] else kr_changeKeys k;
     kr_keysByHash := <[dk_PubKeyHash dk := dk]> (kr_keysByHash k);
     kr_keysByAddress := <[PubKeyHashToAddress (dk_PubKeyHash dk) ver := dk]> (kr_keysByAddress k) |}.

Definition registerKey (extKey : ExtendedKey) (isChange : bool) (index : Z) : wM DerivedKey :=
  match ECPrivKey extKey with
  | None => sfail ExtractPrivKey
  | Some ecPrivKey =>
      let privKey := privkey_from_bytes ecPrivKey in
      let pubKey := SerializeCompressed (PubKey privKey) in
      let dk := {| dk_PrivKey := privKey; dk_PubKey := pubKey; dk_PubKeyHash := PubKeyHash pubKey;
                   dk_Path := key_path isChange index; dk_IsChange := isChange; dk_Index := index |} in
      do _ <- smod (fun w => set_keys (add_key (w_addrVersion w) dk (w_keys w)) w);
      sret dk
  end.

Definition chain_key (isChange : bool) w : option ExtendedKey :=
  if isChange then kr_changeKey (w_keys w) else kr_externalKey (w_keys w).

(** [deriveExternal] and [deriveChange], which differ in the chain. *)
Definition deriveKey (isChange : bool) (index : Z) : wM DerivedKey :=
  do w <- sget;
  match chain_key isChange w with
  | None => sfail NilKeyPanic
  | Some k =>
      do child <- derive (DeriveChild isChange index) k index;
      registerKey child isChange index
  end.
Definition deriveExternal (index : Z) : wM DerivedKey := deriveKey false index.
Definition deriveChange (index : Z) : wM DerivedKey := deriveKey true index.

Definition DeriveNextExternal : wM DerivedKey :=
  do w <- sget;
  do dk <- deriveExternal (w_nextExternalIdx w);
  do _ <- smod (fun w => set_indices (add32 (w_nextExternalIdx w) 1) (w_nextChangeIdx w) w);
  do _ <- save;
  sret dk.

Definition DeriveNextChange : wM DerivedKey :=
  do w <- sget;
  do dk <- deriveChange (w_nextChangeIdx w);
  do _ <- smod (fun w => set_indices (w_nextExternalIdx w) (add32 (w_nextChangeIdx w) 1) w);
  do _ <- save;
  sret dk.

Definition GetNewAddress : wM (list byte) :=
  do dk <- DeriveNextExternal;
  do w <- sget;
  sret (PubKeyHashToAddress (dk_PubKeyHash dk) (w_addrVersion w)).

Definition GetChangeAddress : wM (list byte) :=
  do dk <- DeriveNextChange;
  do w <- sget;
  sret (PubKeyHashToAddress (dk_PubKeyHash dk) (w_addrVersion w)).

Definition GetCurrentChangeAddress : wM (list byte) :=
  do w <- sget;
  match last (kr_changeKeys (w_keys w)) with
  | Some dk => sret (PubKeyHashToAddress (dk_PubKeyHash dk) (w_addrVersion w))
  | None => GetChangeAddress
  end.

(** ** Creating and loading *)

Definition loadSeedAndDerive (mnemonic seedHex : list byte) : wM unit :=
  do seedBytes <- slift BadSeedHex (hex_DecodeString seedHex);
  do _ <- smod (set_secret mnemonic seedBytes);
  do _ <- deriveAccountKeys;
  do w <- sget;
  do _ <- sfor (map Z.of_nat (seq 0 (Z.to_nat (w_nextExternalIdx w)))) (fun i => do _ <- deriveExternal i; sret tt);
  sfor (map Z.of_nat (seq 0 (Z.to_nat (w_nextChangeIdx w)))) (fun i => do _ <- deriveChange i; sret tt).

(** [entropy] is 32 bytes of [crypto/rand], by [bip39.NewEntropy]. *)
Definition createNew (mnemonic : list byte) : wM unit :=
  do mnemonic <- (if bool_decide (mnemonic = []) then
                    do entropy <- Rand 32;
                    match NewMnemonic entropy with Some m => sret m | None => sfail MnemonicFailed end
                  else sret mnemonic);
  if negb (IsMnemonicValid mnemonic) then sfail InvalidMnemonic
  else
    do _ <- smod (set_secret mnemonic (NewSeed mnemonic));
    do _ <- deriveAccountKeys;
    do _ <- DeriveNextExternal;
    save.

Definition loadFromJSON (data : FileContent) : wM unit :=
  do wd <- slift (fun e => e) (parse data);
  do _ <- smod (set_indices (wd_NextExternalIdx wd) (wd_NextChangeIdx wd));
  if wd_Encrypted wd then
    do _ <- smod (fun w => set_lock {| lk_encrypted := true; lk_locked := true;
                                       lk_unlockUntil := lk_unlockUntil (w_lock w); lk_encKey := lk_encKey (w_lock w) |} w);
    if negb (bool_decide (wd_Seed wd = [])) && negb (bool_decide (wd_Mnemonic wd = []))
    then loadSeedAndDerive (wd_Mnemonic wd) (wd_Seed wd)
    else sret tt
  else loadSeedAndDerive (wd_Mnemonic wd) (wd_Seed wd).

(** The value both constructors start from. *)
Definition no_keys : KeyRing :=
  {| kr_accountKey := None; kr_externalKey := None; kr_changeKey := None; kr_externalKeys := []; kr_changeKeys := [];
     kr_keysByHash := ∅; kr_keysByAddress := ∅ |}.
Definition blank (file : FileContent) (n : nat) (addrVersion : byte) : HDWallet :=
  {| w_file := file; w_tick := n; w_mnemonic := []; w_seed := []; w_keys := no_keys; w_nextExternalIdx := 0;
     w_nextChangeIdx := 0; w_addrVersion := addrVersion;
     w_lock := {| lk_encrypted := false; lk_locked := false; lk_unlockUntil := None; lk_encKey := [] |} |}.

(** A file that cannot be read or is empty counts as no wallet, and is overwritten. *)
Definition NewHDWallet (file : FileContent) (n : nat) (addrVersion : byte) : result WalletErr unit * HDWallet :=
  match ReadFile (blank file n addrVersion) with
  | (Ok Empty, w) | (Err _, w) => createNew [] w
  | (Ok data, w) => loadFromJSON data w
  end.

Definition NewHDWalletFromMnemonic (file : FileContent) (n : nat) (addrVersion : byte) (mnemonic : list byte)
  : result WalletErr unit * HDWallet :=
  createNew mnemonic (blank file n addrVersion).

(** ** Lookup *)

Definition GetKeyForAddress (address : list byte) w : option DerivedKey := kr_keysByAddress (w_keys w) !! address.
Definition GetKeyForPubKeyHash (hash : list byte) w : option DerivedKey := kr_keysByHash (w_keys w) !! hash.

Definition IsOurScript (pkScript : list byte) w : bool :=
  match ExtractP2PKHHash pkScript with
  | None => false
  | Some hash => bool_decide (is_Some (kr_keysByHash (w_keys w) !! hash))
  end.

Definition KeyForScript (pkScript : list byte) w : option DerivedKey :=
  match ExtractP2PKHHash pkScript with
  | None => None
  | Some hash => kr_keysByHash (w_keys w) !! hash
  end.

Definition key_address w (dk : DerivedKey) : list byte := PubKeyHashToAddress (dk_PubKeyHash dk) (w_addrVersion w).
Definition ExternalAddresses w : list (list byte) := map (key_address w) (kr_externalKeys (w_keys w)).
Definition AllAddresses w : list (list byte) :=
  map (key_address w) (kr_externalKeys (w_keys w)) ++ map (key_address w) (kr_changeKeys (w_keys w)).

Definition GetDefaultAddress w : list byte :=
  match kr_externalKeys (w_keys w) with [] => [] | dk :: _ => key_address w dk end.
Definition GetDefaultP2PKHScript w : option (list byte) :=
  match kr_externalKeys (w_keys w) with [] => None | dk :: _ => Some (MakeP2PKHScript (dk_PubKeyHash dk)) end.
Definition MiningKeyCompat w : option (list byte) * list byte :=
  match kr_externalKeys (w_keys w) with
  | [] => (None, replicate PubKeyHashSize Byte.x00)
  | dk :: _ => (Some (MakeP2PKHScript (dk_PubKeyHash dk)), dk_PubKeyHash dk)
  end.
Definition KeyCount w : Z := len (kr_externalKeys (w_keys w)) + len (kr_changeKeys (w_keys w)).
Definition AddressVersion w : byte := w_addrVersion w.

(** ** Locking *)

Definition IsEncrypted w : bool := lk_encrypted (w_lock w).

(** Overwriting with zeros keeps the length of the seed. *)
Definition wipe w : HDWallet :=
  set_lock {| lk_encrypted := lk_encrypted (w_lock w); lk_locked := true; lk_unlockUntil := None; lk_encKey := [] |}
    (set_secret [] (replicate (length (w_seed w)) Byte.x00) w).

Definition IsLocked : wM bool := fun w =>
  if negb (lk_encrypted (w_lock w)) then (Ok false, w)
  else if lk_locked (w_lock w) then (Ok true, w)
  else match lk_unlockUntil (w_lock w) with
       | Some t => if we_now env (w_tick w) >? t then (Ok true, wipe (ticked w)) else (Ok false, ticked w)
       | None => (Ok false, w)
       end.

Definition RequireUnlocked : wM unit :=
  do w <- sget;
  if negb (IsEncrypted w) then sret tt
  else
    do locked <- IsLocked;
    if locked then sfail WalletLocked else sret tt.

Definition EncryptWallet (passphrase : list byte) : wM unit :=
  do w <- sget;
  if lk_encrypted (w_lock w) then sfail AlreadyEncrypted
  else if bool_decide (passphrase = []) then sfail EmptyPassphrase
  else
    do salt <- Rand saltLen;
    do aesKey <- match scrypt_Key passphrase salt scryptN scryptR scryptP keyLen with
                 | Some k => sret k | None => sfail ScryptFailed end;
    let plaintext := w_mnemonic w ++ [newline] ++ hex_EncodeToString (w_seed w) in
    do iv <- Rand 16;
    do ciphertext <- slift (fun e => e) (aesEncrypt iv aesKey plaintext);
    do _ <- smod (fun w => set_lock {| lk_encrypted := true; lk_locked := true;
                                       lk_unlockUntil := lk_unlockUntil (w_lock w); lk_encKey := [] |} w);
    saveEncrypted ciphertext salt iv.

(** The seed and the AES key a passphrase opens the file with; [IncorrectPassphrase]
    replaces the errors of [aesDecrypt], but not its panic. *)
Definition open_file (wd : WalletData) (passphrase : list byte)
  : result WalletErr (list byte * list byte * list byte) :=
  let* salt := rwrap BadHex (hex_DecodeString (wd_Salt wd)) in
  let* iv := rwrap BadHex (hex_DecodeString (wd_IV wd)) in
  let* ciphertext := rwrap BadHex (hex_DecodeString (wd_EncryptedData wd)) in
  let n := if wd_ScryptN wd =? 0 then scryptN else wd_ScryptN wd in
  let r := if wd_ScryptR wd =? 0 then scryptR else wd_ScryptR wd in
  let p := if wd_ScryptP wd =? 0 then scryptP else wd_ScryptP wd in
  match scrypt_Key passphrase salt n r p keyLen with
  | None => Err ScryptFailed
  | Some aesKey =>
      match aesDecrypt aesKey iv ciphertext with
      | Err IVLengthPanic => Err IVLengthPanic
      | Err _ => Err IncorrectPassphrase
      | Ok plaintext =>
          match splitOnNewline plaintext with
          | mnemonic :: seedHex :: _ =>
              check negb (IsMnemonicValid mnemonic) else IncorrectPassphrase;
              Ok (mnemonic, seedHex, aesKey)
          | _ => Err IncorrectPassphrase
          end
      end
  end.

Definition time_Second_ns : Z := 1000000000.

Definition WalletPassphrase (passphrase : list byte) (timeoutSecs : Z) : wM unit :=
  do w <- sget;
  if negb (lk_encrypted (w_lock w)) then sfail NotEncrypted
  else
    do data <- ReadFile;
    do wd <- slift (fun e => e) (parse data);
    do (mnemonic, seedHex, aesKey) <- slift (fun e => e) (open_file wd passphrase);
    do _ <- (if (length (w_seed w) =? 0)%nat then loadSeedAndDerive mnemonic seedHex else sret tt);
    do now <- (if timeoutSecs >? 0 then WNow else sret 0);
    smod (fun w => set_lock {| lk_encrypted := lk_encrypted (w_lock w); lk_locked := false;
                               lk_unlockUntil := if timeoutSecs >? 0
                                                 then Some (now + i64 (timeoutSecs * time_Second_ns)) else None;
                               lk_encKey := aesKey |} w).

Definition WalletLock : wM unit :=
  do w <- sget;
  if negb (lk_encrypted (w_lock w)) then sfail NotEncrypted else smod wipe.

(** The empty string when the wallet is locked. *)
Definition Mnemonic : wM (list byte) :=
  do locked <- IsLocked;
  if locked then sret []
  else do w <- sget; sret (w_mnemonic w).

(** ** Keys in and out *)

Definition DumpPrivKey (address : list byte) : wM (list byte) :=
  do _ <- RequireUnlocked;
  do w <- sget;
  match kr_keysByAddress (w_keys w) !! address with
  | None => sfail AddressNotFound
  | Some dk => sret (EncodeWIF (priv_Serialize (dk_PrivKey dk)) (w_addrVersion w))
  end.

(** WIF first, then plain hexadecimal. *)
Definition parse_privkey (privKeyStr : list byte) : result WalletErr (list byte) :=
  match DecodeWIF privKeyStr with
  | Ok (wifKey, _, _) => Ok wifKey
  | Err _ => match hex_DecodeString privKeyStr with
             | Ok b => Ok b
             | Err _ => Err InvalidPrivKeyText
             end
  end.

Definition ImportPrivKey (privKeyStr : list byte) : wM (list byte) :=
  do privBytes <- slift (fun e => e) (parse_privkey privKeyStr);
  do privKey <- slift PrivKeyErr (PrivKeyFromBytes privBytes);
  let pubKey := SerializeCompressed (PubKey privKey) in
  let pubKeyHash := PubKeyHash pubKey in
  do w <- sget;
  let addr := PubKeyHashToAddress pubKeyHash (w_addrVersion w) in
  match kr_keysByHash (w_keys w) !! pubKeyHash with
  | Some _ => sret addr
  | None =>
      let dk := {| dk_PrivKey := privKey; dk_PubKey := pubKey; dk_PubKeyHash := pubKeyHash;
                   dk_Path := bytes_of_string "imported"; dk_IsChange := false; dk_Index := 0 |} in
      do _ <- smod (fun w => set_keys (add_key (w_addrVersion w) dk (w_keys w)) w);
      sret addr
  end.

(** ** Unspent outputs of the wallet *)

Record UnspentOutput := {
  uo_TxHash : Hash; uo_Index : Z; uo_Value : Z; uo_Height : Z; uo_Confirmations : Z;
  uo_Address : list byte; uo_PkScript : list byte; uo_IsCoinbase : bool }.

Definition confirmations (tipHeight height : Z) : Z :=
  if tipHeight >=? height then add32 (sub32 tipHeight height) 1 else 0.

(** The callback [FindUnspent] passes to the iterator. *)
Definition own_output (tipHeight : Z) w (row : Hash * Z * UtxoEntry) : option UnspentOutput :=
  let '(txHash, index, e) := row in
  match ExtractP2PKHHash (ue_PkScript e) with
  | None => None
  | Some hash =>
      match kr_keysByHash (w_keys w) !! hash with
      | None => None
      | Some _ =>
          Some {| uo_TxHash := txHash; uo_Index := index; uo_Value := ue_Value e; uo_Height := ue_Height e;
                  uo_Confirmations := confirmations tipHeight (ue_Height e);
                  uo_Address := PubKeyHashToAddress hash (w_addrVersion w);
                  uo_PkScript := ue_PkScript e; uo_IsCoinbase := ue_IsCoinbase e |}
      end
  end.

(** [forEach] is the sequence of calls of the iterator. *)
Definition FindUnspent (forEach : list (Hash * Z * UtxoEntry)) (tipHeight : Z) w : list UnspentOutput :=
  omap (own_output tipHeight w) forEach.

Definition balance_step (tipHeight minConf coinbaseMaturity : Z) w (total : Z) (row : Hash * Z * UtxoEntry) : Z :=
  match own_output tipHeight w row with
  | None => total
  | Some u =>
      if uo_Confirmations u <? minConf then total
      else if uo_IsCoinbase u && (uo_Confirmations u <? coinbaseMaturity) then total
      else add64 total (uo_Value u)
  end.
Definition GetBalance (forEach : list (Hash * Z * UtxoEntry)) (tipHeight minConf coinbaseMaturity : Z) w : Z :=
  fold_left (balance_step tipHeight minConf coinbaseMaturity w) forEach 0.

(** ** Signing *)

Definition set_script (i : nat) (script : list byte) (tx : Transaction) : Transaction :=
  {| tx_Version := tx_Version tx;
     tx_Inputs := alter (fun ti => {| in_PreviousOutPoint := in_PreviousOutPoint ti; in_SignatureScript := script;
                                      in_Sequence := in_Sequence ti |}) i (tx_Inputs tx);
     tx_Outputs := tx_Outputs tx; tx_LockTime := tx_LockTime tx |}.

(** The loop over the inputs from [i] on; [tx] is changed in place, so it is returned also
    with an error. *)
Fixpoint sign_raw (getPrevScript : Hash -> Z -> option (list byte)) w (n i : nat) (tx : Transaction) (signed : Z)
  : result WalletErr Z * Transaction :=
  match n with
  | O => (Ok signed, tx)
  | S n =>
      match tx_Inputs tx !! i with
      | None => (Ok signed, tx)
      | Some ti =>
          if len (in_SignatureScript ti) >? 0 then sign_raw getPrevScript w n (S i) tx (signed + 1)
          else
            let prev := in_PreviousOutPoint ti in
            match getPrevScript (op_Hash prev) (op_Index prev) with
            | None => sign_raw getPrevScript w n (S i) tx signed
            | Some prevScript =>
                match KeyForScript prevScript w with
                | None => sign_raw getPrevScript w n (S i) tx signed
                | Some dk =>
                    match SignInput tx (Z.of_nat i) prevScript (dk_PrivKey dk) with
                    | Err e => (Err (SignInputErr (Z.of_nat i) e), tx)
                    | Ok sigScript => sign_raw getPrevScript w n (S i) (set_script i sigScript tx) (signed + 1)
                    end
                end
            end
      end
  end.

(** The number of signed inputs and whether all are, and the transaction. *)
Definition SignRawTransaction (tx : Transaction) (getPrevScript : Hash -> Z -> option (list byte)) w
  : result WalletErr (Z * bool) * Transaction * HDWallet :=
  match RequireUnlocked w with
  | (Err e, w) => (Err e, tx, w)
  | (Ok _, w) =>
      match sign_raw getPrevScript w (length (tx_Inputs tx)) 0 tx 0 with
      | (Err e, tx') => (Err e, tx', w)
      | (Ok signed, tx') => (Ok (signed, signed =? len (tx_Inputs tx)), tx', w)
      end
  end.

Definition OutpointFromKey (key : list byte) : Hash * Z := (take 32 key, ReadUintLE (slice 32 36 key)).
End ops.
