(* ===== verification/WalletInv.v ===== *)
(** * The wallet's keys survive

    Invariants of [Wallet.v] and its properties: the key maps are consistent, what the
    wallet file holds gives back every derived key (also after encryption), and runs of
    the model that lose keys. *)
From S2P Require Import Prelude.
From S2P Require Import Types.
From S2P Require Import Sha256.
From S2P Require Import Crypto.
From S2P Require Import Target.
From S2P Require Import Base58.
From S2P Require Import Aes.
From S2P Require Import Utxo.
From S2P Require Import Wallet.

(** ** Padding and text *)

Lemma pkcs7_roundtrip d : let p := pkcs7Pad d 16 in
  length p = (16 * (length p / 16))%nat /\ pkcs7Unpad p 16 = Ok d.
Proof.
  intros p. subst p. unfold pkcs7Pad. set (pad := 16 - len d mod 16).
  pose proof (Z.mod_pos_bound (len d) 16 ltac:(lia)) as Hm. assert (1 <= pad <= 16) as Hp by lia.
  set (p := d ++ _).
  assert (length p = length d + Z.to_nat pad)%nat as HL by (unfold p; by rewrite length_app, length_replicate).
  assert (len p mod 16 = 0) as Hdiv.
  { rewrite HL, Nat2Z.inj_add, Z2Nat.id by lia. unfold pad. pose proof (Z.div_mod (len d) 16 ltac:(lia)).
    replace (len d + (16 - len d mod 16)) with ((len d / 16 + 1) * 16) by lia.
    apply Z.mod_mul. lia. }
  split.
  { pose proof (Nat.div_mod_eq (length p) 16) as H. assert (length p mod 16 = 0)%nat; [|lia].
    apply Nat2Z.inj. rewrite Nat2Z.inj_mod. exact Hdiv. }
  unfold pkcs7Unpad. rewrite Hdiv. destruct (Z.eqb_spec (len p) 0); [lia|]. cbn [orb negb].
  assert (byte_at p (length p - 1) = pad) as Hlast.
  { unfold byte_at. rewrite HL. unfold p. rewrite app_nth2 by lia.
    replace (length d + Z.to_nat pad - 1 - length d)%nat with (Z.to_nat pad - 1)%nat by lia.
    rewrite (nth_lookup_Some _ _ _ (byte.of_Z pad)) by (apply lookup_replicate; split; [done|lia]).
    rewrite byte.unsigned_of_Z. apply Z.mod_small. lia. }
  cbv zeta. rewrite Hlast. destruct (Z.eqb_spec pad 0); [lia|]. destruct (Z.gtb_spec pad 16); [lia|]. cbn [orb].
  replace (length p - Z.to_nat pad)%nat with (length d) by lia. unfold p. rewrite drop_app_length, take_app_length.
  replace (forallb _ _) with true; [done|]. symmetry. apply forallb_forall. intros x Hx.
  apply repeat_spec in Hx || (apply list_elem_of_In, elem_of_replicate in Hx as [-> _]). by apply byte_eqb_eq.
Qed.

(** Text without newlines or bytes above 127. *)
Definition plain (b : byte) : Prop := byte.unsigned b <= 127 /\ b <> newline.

Lemma rune_width_plain c s : plain c -> rune_width (c :: s) = Some 1%nat.
Proof. intros [H _]. unfold rune_width, byte_at. cbn [nth]. by rewrite (proj2 (Z.leb_le _ _)). Qed.

Lemma split_plain s : Forall plain s -> forall k rest current parts,
  split_loop (length s + k) (s ++ rest) current parts = split_loop k rest (current ++ s) parts.
Proof.
  induction 1 as [|c s Hc Hs IH]; intros k rest current parts; [by rewrite app_nil_r|].
  cbn [length Nat.add app split_loop]. destruct (Byte.eqb c newline) eqn:E.
  { apply byte_eqb_eq in E. by destruct Hc. }
  rewrite rune_width_plain by done. cbn [take drop]. rewrite drop_0, IH, <- app_assoc. done.
Qed.

Lemma split_line m s : Forall plain m -> Forall plain s -> s <> [] ->
  splitOnNewline (m ++ [newline] ++ s) = [m; s].
Proof.
  intros Hm Hs Hn. unfold splitOnNewline. rewrite length_app, split_plain by done.
  cbn [app length split_loop]. rewrite (proj2 (byte_eqb_eq _ _)) by done.
  rewrite <- (app_nil_r s) at 2. rewrite <- (Nat.add_0_r (length s)), split_plain by done. cbn [split_loop].
  by rewrite bool_decide_false.
Qed.

Lemma plain_hex b : Forall plain (hex_EncodeToString b).
Proof.
  assert (forall n, 0 <= n < 16 -> plain (hextable n)) as H.
  { intros n Hn. assert (forallb (fun k => (byte.unsigned (hextable (Z.of_nat k)) <=? 127)
      && negb (Byte.eqb (hextable (Z.of_nat k)) newline)) (seq 0 16) = true) as H by (vm_compute; reflexivity).
    rewrite forallb_forall in H. specialize (H (Z.to_nat n) ltac:(apply in_seq; lia)).
    rewrite Z2Nat.id in H by lia. apply andb_prop in H as [H1 H2]. split; [lia|]. intros E.
    by rewrite (proj2 (byte_eqb_eq _ _) E) in H2. }
  unfold hex_EncodeToString. apply Forall_concat, Forall_map, Forall_true. intros c.
  pose proof (byte.unsigned_range c). constructor; [|constructor; [|constructor]]; apply H.
  - split; [apply Z.div_pos; lia|apply Z.div_lt_upper_bound; lia].
  - apply Z.mod_pos_bound. lia.
Qed.

Lemma hex_nonempty b : b <> [] -> hex_EncodeToString b <> [].
Proof. by destruct b. Qed.

(** Decrypting what was encrypted under the same key. *)
Lemma aes_roundtrip iv key p c :
  length iv = 16%nat -> aesEncrypt iv key p = Ok c -> aesDecrypt key iv c = Ok p.
Proof.
  intros Hiv. unfold aesEncrypt, aesDecrypt, NewCipher. destruct (Z.eqb_spec (len key) 32) as [Hk|]; [|done].
  intros [= <-]. destruct (pkcs7_roundtrip p) as [Hl Hu]. unfold aes_BlockSize. set (q := pkcs7Pad p 16) in *.
  destruct (cbc_roundtrip (round_keys key) (length q / 16) iv q) as [Hc Hd]; [apply good_round_keys; lia|done|done|].
  set (c := cbc_encrypt _ _ _ _) in *.
  assert (length c / 16 = length q / 16)%nat as -> by (rewrite Hc, Nat.mul_comm; by apply Nat.div_mul).
  assert (len c mod 16 = 0) as -> by (rewrite Hc, Nat2Z.inj_mul, Z.mul_comm; by apply Z.mod_mul).
  rewrite Hiv, Hd. exact Hu.
Qed.

(** ** The lookup maps *)

Section ring.
Context `{WO : WalletOps}.
Implicit Types (w : HDWallet) (k : KeyRing).

Definition all_keys k : list DerivedKey := kr_externalKeys k ++ kr_changeKeys k.

(** A key's public parts are those of its private key. *)
Definition key_ok (dk : DerivedKey) : Prop :=
  dk_PubKey dk = SerializeCompressed (PubKey (dk_PrivKey dk)) /\ dk_PubKeyHash dk = PubKeyHash (dk_PubKey dk).

(** The maps lead from the hash and from the address of every key to a key with that
    hash, and nowhere else. *)
Record ring_ok (ver : byte) k : Prop := {
  ro_keys : Forall key_ok (all_keys k);
  ro_hash : forall h dk, kr_keysByHash k !! h = Some dk -> dk ∈ all_keys k /\ dk_PubKeyHash dk = h;
  ro_hash_in : forall dk, dk ∈ all_keys k -> is_Some (kr_keysByHash k !! dk_PubKeyHash dk);
  ro_addr : forall a dk, kr_keysByAddress k !! a = Some dk ->
    dk ∈ all_keys k /\ PubKeyHashToAddress (dk_PubKeyHash dk) ver = a;
  ro_addr_in : forall dk, dk ∈ all_keys k ->
    is_Some (kr_keysByAddress k !! PubKeyHashToAddress (dk_PubKeyHash dk) ver) }.

Lemma elem_add_key ver dk k x : x ∈ all_keys (add_key ver dk k) <-> x = dk \/ x ∈ all_keys k.
Proof. unfold all_keys, add_key. simpl. destruct (dk_IsChange dk); set_solver. Qed.

Lemma ring_ok_no_keys ver : ring_ok ver no_keys.
Proof. constructor; simpl; try done; set_solver. Qed.

Lemma ring_ok_account ver a e c k : ring_ok ver k -> ring_ok ver (set_account a e c k).
Proof. intros [? ? ? ? ?]. by constructor. Qed.

Lemma ring_ok_add ver dk k : key_ok dk -> ring_ok ver k -> ring_ok ver (add_key ver dk k).
Proof.
  intros Hd [Hk Hh Hhi Ha Hai]. rewrite Forall_forall in Hk.
  constructor; simpl; [apply Forall_forall|..]; setoid_rewrite elem_add_key.
  - intros x [-> | Hx]; auto.
  - intros h x. rewrite lookup_insert. case_decide as E; [intros [= ->]; by auto|]. intros Hx.
    destruct (Hh _ _ Hx). auto.
  - intros x Hx. rewrite lookup_insert. case_decide as E; [done|]. destruct Hx as [-> | Hx]; [done|auto].
  - intros a x. rewrite lookup_insert. case_decide as E; [intros [= ->]; by auto|]. intros Hx.
    destruct (Ha _ _ Hx). auto.
  - intros x Hx. rewrite lookup_insert. case_decide as E; [done|]. destruct Hx as [-> | Hx]; [done|auto].
Qed.

Lemma PubKeyHashToAddress_inj v h h' : PubKeyHashToAddress h v = PubKeyHashToAddress h' v -> h = h'.
Proof.
  intros E. pose proof (proj2 (base58check_exact _ v h) eq_refl) as H.
  pose proof (proj2 (base58check_exact _ v h') eq_refl) as H'.
  change (Base58CheckEncode v h) with (PubKeyHashToAddress h v) in H.
  change (Base58CheckEncode v h') with (PubKeyHashToAddress h' v) in H'. rewrite E, H' in H. by injection H.
Qed.

(** With distinct hashes, the lists determine the maps. *)
Lemma ring_unique ver k k' :
  ring_ok ver k -> ring_ok ver k' -> NoDup (map dk_PubKeyHash (all_keys k)) ->
  kr_accountKey k = kr_accountKey k' -> kr_externalKey k = kr_externalKey k' -> kr_changeKey k = kr_changeKey k' ->
  kr_externalKeys k = kr_externalKeys k' -> kr_changeKeys k = kr_changeKeys k' -> k = k'.
Proof.
  intros R R' Hn E1 E2 E3 E4 E5.
  assert (forall x y, x ∈ all_keys k -> y ∈ all_keys k -> dk_PubKeyHash x = dk_PubKeyHash y -> x = y) as Hinj.
  { intros x y Hx Hy E. apply list_elem_of_lookup in Hx as [i Hi], Hy as [j Hj].
    assert (i = j) as ->; [|congruence]. eapply (NoDup_lookup _ _ _ (dk_PubKeyHash x) Hn).
    - by apply list_lookup_fmap_Some_2. 
    - rewrite E. by apply list_lookup_fmap_Some_2. }
  assert (all_keys k = all_keys k') as E by (unfold all_keys; congruence).
  destruct k as [a e c xs ys mh ma], k' as [a' e' c' xs' ys' mh' ma']. simpl in E1, E2, E3, E4, E5. subst.
  unfold all_keys in *. simpl in *. f_equal; apply map_eq; intros i.
  - destruct (mh !! i) as [x|] eqn:X, (mh' !! i) as [y|] eqn:Y; [| | |done].
    + apply (ro_hash _ _ R) in X as [X Xi]. apply (ro_hash _ _ R') in Y as [Y Yi]. f_equal. apply Hinj; [done|done|congruence].
    + apply (ro_hash _ _ R) in X as [X <-]. apply (ro_hash_in _ _ R') in X as [? X]. simpl in *. congruence.
    + apply (ro_hash _ _ R') in Y as [Y <-]. apply (ro_hash_in _ _ R) in Y as [? Y]. simpl in *. congruence.
  - destruct (ma !! i) as [x|] eqn:X, (ma' !! i) as [y|] eqn:Y; [| | |done].
    + apply (ro_addr _ _ R) in X as [X Xi]. apply (ro_addr _ _ R') in Y as [Y Yi]. f_equal. apply Hinj; [done|done|].
      eapply (PubKeyHashToAddress_inj ver). congruence.
    + apply (ro_addr _ _ R) in X as [X <-]. apply (ro_addr_in _ _ R') in X as [? X]. simpl in *. congruence.
    + apply (ro_addr _ _ R') in Y as [Y <-]. apply (ro_addr_in _ _ R) in Y as [? Y]. simpl in *. congruence.
Qed.
End ring.

(** ** Derivation as a function of the seed *)

Section derivation.
Context `{WO : WalletOps} (env : WalletEnv).
Implicit Types w : HDWallet.

(** The account key and the keys of the two chains. *)
Definition account_keys (seed : list byte) : option (ExtendedKey * ExtendedKey * ExtendedKey) :=
  master ← NewMaster seed;
  purpose ← Derive master (add32 HardenedKeyStart bip44Purpose);
  coinType ← Derive purpose (add32 HardenedKeyStart bip44CoinType);
  account ← Derive coinType (add32 HardenedKeyStart 0);
  external ← Derive account 0;
  change ← Derive account 1;
  Some (account, external, change).

Definition derived (chain : ExtendedKey) (isChange : bool) (i : Z) : option DerivedKey :=
  child ← Derive chain i;
  ecPrivKey ← ECPrivKey child;
  let privKey := privkey_from_bytes ecPrivKey in
  let pubKey := SerializeCompressed (PubKey privKey) in
  Some {| dk_PrivKey := privKey; dk_PubKey := pubKey; dk_PubKeyHash := PubKeyHash pubKey;
          dk_Path := key_path isChange i; dk_IsChange := isChange; dk_Index := i |}.

Definition indices (n : Z) : list Z := map Z.of_nat (seq 0 (Z.to_nat n)).

Lemma derived_ok c b i dk : derived c b i = Some dk -> key_ok dk /\ dk_IsChange dk = b.
Proof. unfold derived. intros H. by simplify_option_eq. Qed.

Lemma deriveAccountKeys_Some w a e c :
  account_keys (w_seed w) = Some (a, e, c) ->
  deriveAccountKeys w = (Ok tt, set_keys (set_account (Some a) (Some e) (Some c) (w_keys w)) w).
Proof.
  unfold account_keys, deriveAccountKeys, derive, sbind, sget, smod, sret. intros H. simplify_option_eq.
  repeat match goal with H : _ = Some _ |- _ => rewrite H; clear H; cbn [set_keys] end. done.
Qed.

Lemma deriveAccountKeys_Ok w w' :
  deriveAccountKeys w = (Ok tt, w') ->
  exists a e c, account_keys (w_seed w) = Some (a, e, c)
    /\ w' = set_keys (set_account (Some a) (Some e) (Some c) (w_keys w)) w.
Proof.
  unfold account_keys, deriveAccountKeys, derive, sbind, sget, smod, sret, sfail. intros H.
  repeat match goal with H : context [match ?x with Some _ => _ | None => _ end] |- _ => destruct x eqn:?; [|discriminate H] end.
  injection H as <-. do 3 eexists. split; [|reflexivity]. by simplify_option_eq.
Qed.

Lemma deriveKey_spec b i w :
  match chain_key b w with
  | None => deriveKey b i w = (Err NilKeyPanic, w)
  | Some c =>
      match derived c b i with
      | Some dk => deriveKey b i w = (Ok dk, set_keys (add_key (w_addrVersion w) dk (w_keys w)) w)
      | None => exists e, deriveKey b i w = (Err e, w)
      end
  end.
Proof.
  unfold deriveKey, derived, derive, registerKey, sbind, sget, smod, sret, sfail.
  destruct (chain_key b w) as [c|]; [|done]. destruct (Derive c i) as [x|]; simpl; [|by eexists].
  destruct (ECPrivKey x); simpl; [done|by eexists].
Qed.

Lemma seq_indices n : 0 <= n -> indices (n + 1) = indices n ++ [n].
Proof.
  intros Hn. unfold indices. rewrite Z2Nat.inj_add by lia. change (Z.to_nat 1) with 1%nat.
  rewrite seq_app, map_app. simpl. by rewrite Z2Nat.id.
Qed.

(** The loops of [loadSeedAndDerive]. *)
Lemma derive_loop b is_ : forall w c ks,
  chain_key b w = Some c -> mapM (derived c b) is_ = Some ks ->
  sfor is_ (fun i => do _ <- deriveKey b i; sret tt) w
  = (Ok tt, set_keys (fold_left (fun k dk => add_key (w_addrVersion w) dk k) ks (w_keys w)) w).
Proof.
  induction is_ as [|i is_ IH]; intros w c ks Hc Hm; cbn [mapM] in Hm.
  - injection Hm as <-. simpl. by destruct w.
  - destruct (derived c b i) as [dk|] eqn:Hd; [|done]. simpl in Hm.
    destruct (mapM (derived c b) is_) as [ks'|] eqn:Hm'; [|done]. injection Hm as <-.
    cbn [sfor]. unfold sbind at 1 2. pose proof (deriveKey_spec b i w) as H. rewrite Hc, Hd in H. rewrite H.
    cbn [sret]. rewrite (IH _ c ks'); [done| |done]. unfold chain_key in *. simpl. by destruct b.
Qed.

Definition add_keys (ver : byte) (ks : list DerivedKey) (k : KeyRing) : KeyRing :=
  fold_left (fun k dk => add_key ver dk k) ks k.

Lemma add_keys_lists ver b ks : forall k, Forall (fun dk => dk_IsChange dk = b) ks ->
  kr_externalKeys (add_keys ver ks k) = kr_externalKeys k ++ (if b then [] else ks)
  /\ kr_changeKeys (add_keys ver ks k) = kr_changeKeys k ++ (if b then ks else [])
  /\ kr_accountKey (add_keys ver ks k) = kr_accountKey k /\ kr_externalKey (add_keys ver ks k) = kr_externalKey k
  /\ kr_changeKey (add_keys ver ks k) = kr_changeKey k.
Proof.
  induction ks as [|dk ks IH]; intros k H.
  - cbn [add_keys fold_left]. destruct b; by rewrite !app_nil_r.
  - change (add_keys ver (dk :: ks) k) with (add_keys ver ks (add_key ver dk k)).
    apply Forall_cons in H as [H1 H2]. destruct (IH (add_key ver dk k) H2) as (-> & -> & -> & -> & ->).
    unfold add_key. simpl. rewrite H1. destruct b; by rewrite <- ?app_assoc.
Qed.

Lemma ring_ok_adds ver ks k : Forall key_ok ks -> ring_ok ver k -> ring_ok ver (add_keys ver ks k).
Proof. intros H. revert k. induction H as [|dk ks Hd _ IH]; intros k Hk; [done|]. apply IH. by apply ring_ok_add. Qed.

Lemma derived_all c b is_ ks : mapM (derived c b) is_ = Some ks ->
  Forall key_ok ks /\ Forall (fun dk => dk_IsChange dk = b) ks.
Proof.
  intros H. apply mapM_Some in H. induction H as [|i dk is_ ks Hd _ [IH1 IH2]]; [done|].
  apply derived_ok in Hd as [? ?]. by split; constructor.
Qed.
End derivation.

(** ** The wallet and its file *)

(** A disk that keeps what is written, and random numbers of the size asked for. *)
Record reliable (env : WalletEnv) : Prop := {
  rel_write : forall n c, we_write env n c = None;
  rel_read : forall n, we_read_fails env n = false;
  rel_rand : forall n k, exists b, we_rand env n k = Some b /\ length b = k }.

(** What the program relies on from BIP39: a generated mnemonic is valid and consists of
    words separated by blanks; a seed is not empty.  Private keys are written as 32 bytes
    that give the key back. *)
Class WalletLaws `{WO : WalletOps} : Prop := {
  mnemonic_text e m : NewMnemonic e = Some m -> IsMnemonicValid m = true /\ Forall plain m;
  seed_nonempty m : NewSeed m <> [];
  priv_size k : length (priv_Serialize k) = 32%nat;
  priv_bytes k : privkey_from_bytes (priv_Serialize k) = k }.

Section life.
Context `{WO : WalletOps} {WL : WalletLaws} (env : WalletEnv) (Henv : reliable env) (m : list byte).
Implicit Types w : HDWallet.

(** The file holds the indices and the mnemonic with its seed, in the open or under one
    of the passphrases [P]. *)
Definition file_ok (P : list (list byte)) (enc : bool) (nE nC : Z) (f : FileContent) : Prop :=
  exists wd, f = Stored wd /\ wd_NextExternalIdx wd = nE /\ wd_NextChangeIdx wd = nC /\ wd_Encrypted wd = enc
    /\ if enc then wd_Seed wd = [] /\ exists pass key, pass ∈ P
                   /\ open_file wd pass = Ok (m, hex_EncodeToString (NewSeed m), key)
       else wd_Mnemonic wd = m /\ wd_Seed wd = hex_EncodeToString (NewSeed m).

Definition secret_ok w : Prop :=
  if IsEncrypted w then w_seed w <> [] else w_mnemonic w = m /\ w_seed w = NewSeed m.

(** Every key of the wallet is the derived key of its place. *)
Definition keys_derived (nE nC : Z) (k : KeyRing) : Prop :=
  exists a e c, account_keys (NewSeed m) = Some (a, e, c)
    /\ kr_accountKey k = Some a /\ kr_externalKey k = Some e /\ kr_changeKey k = Some c
    /\ mapM (derived e false) (indices nE) = Some (kr_externalKeys k)
    /\ mapM (derived c true) (indices nC) = Some (kr_changeKeys k).

Record wallet_ok (P : list (list byte)) w : Prop := {
  wo_derived : keys_derived (w_nextExternalIdx w) (w_nextChangeIdx w) (w_keys w);
  wo_ring : ring_ok (w_addrVersion w) (w_keys w);
  wo_indices : 0 <= w_nextExternalIdx w /\ 0 <= w_nextChangeIdx w;
  wo_secret : secret_ok w;
  wo_file : file_ok P (IsEncrypted w) (w_nextExternalIdx w) (w_nextChangeIdx w) (w_file w) }.

Lemma save_ok P w :
  secret_ok w ->
  (IsEncrypted w = true -> exists nE nC, file_ok P true nE nC (w_file w)) ->
  exists f n, save env w = (Ok tt, set_disk f n w)
    /\ file_ok P (IsEncrypted w) (w_nextExternalIdx w) (w_nextChangeIdx w) f.
Proof.
  intros Hs Hf. unfold save, savePreservingEncryption, ReadFile, WriteFile, sbind, sget, slift, secret_ok in *.
  unfold IsEncrypted in *. destruct (lk_encrypted (w_lock w)) eqn:E.
  - destruct (Hf eq_refl) as (nE & nC & wd & Hwd & _ & _ & Henc & Hsd & Hopen).
    rewrite (rel_read env Henv), Hwd. cbn [parse rwrap w_tick w_file ticked set_disk]. rewrite (rel_write env Henv).
    do 2 eexists. split; [destruct w; reflexivity|]. eexists. split; [reflexivity|].
    split_and!; [done..| |]; [exact Hsd|exact Hopen].
  - destruct Hs as [-> ->]. rewrite (rel_write env Henv). do 2 eexists. split; [reflexivity|].
    eexists. split; [reflexivity|]. by split_and!.
Qed.

(** [DeriveNextExternal] and [DeriveNextChange]. *)
Definition next_index (b : bool) w : Z := if b then w_nextChangeIdx w else w_nextExternalIdx w.
Definition bump (b : bool) w : HDWallet :=
  if b then set_indices (w_nextExternalIdx w) (add32 (w_nextChangeIdx w) 1) w
  else set_indices (add32 (w_nextExternalIdx w) 1) (w_nextChangeIdx w) w.
Definition derive_next (b : bool) : wM DerivedKey :=
  do w <- sget; do dk <- deriveKey b (next_index b w); do _ <- smod (bump b); do _ <- save env; sret dk.

Lemma derive_next_external : DeriveNextExternal env = derive_next false.
Proof. done. Qed.
Lemma derive_next_change : DeriveNextChange env = derive_next true.
Proof. done. Qed.

Lemma keys_derived_add (b : bool) nE nC k ver dk c :
  0 <= nE -> 0 <= nC -> keys_derived nE nC k ->
  (if b then kr_changeKey k else kr_externalKey k) = Some c ->
  derived c b (if b then nC else nE) = Some dk ->
  keys_derived (if b then nE else nE + 1) (if b then nC + 1 else nC) (add_key ver dk k).
Proof.
  intros HE HC (a & e & c' & Ha & H1 & H2 & H3 & H4 & H5) Hc Hd.
  pose proof (derived_ok _ _ _ _ Hd) as [_ Hb]. exists a, e, c'.
  assert (forall c is_ ks n x, mapM (derived c b) is_ = Some ks -> derived c b n = Some x ->
    mapM (derived c b) (is_ ++ [n]) = Some (ks ++ [x])) as Hsnoc.
  { intros c0 is_ ks n x Hm Hx. apply mapM_Some. apply mapM_Some in Hm. apply Forall2_app; [done|]. by repeat constructor. }
  split; [done|]. unfold add_key. simpl. rewrite Hb.
  destruct b; rewrite ?seq_indices by done; split_and!; try done.
  - rewrite H3 in Hc. injection Hc as <-. by apply Hsnoc.
  - rewrite H2 in Hc. injection Hc as <-. by apply Hsnoc.
Qed.

(** Deriving a key, when the file is only known if the wallet is encrypted (the first save
    creates it). *)
Lemma derive_next_ok P b w :
  keys_derived (w_nextExternalIdx w) (w_nextChangeIdx w) (w_keys w) -> ring_ok (w_addrVersion w) (w_keys w) ->
  0 <= w_nextExternalIdx w -> 0 <= w_nextChangeIdx w -> w_nextExternalIdx w + w_nextChangeIdx w + 1 < 2^32 ->
  secret_ok w -> (IsEncrypted w = true -> exists nE nC, file_ok P true nE nC (w_file w)) ->
  match derive_next b w with
  | (Ok dk, w') => wallet_ok P w' /\ dk ∈ all_keys (w_keys w')
      /\ w_nextExternalIdx w' + w_nextChangeIdx w' = w_nextExternalIdx w + w_nextChangeIdx w + 1
      /\ w_addrVersion w' = w_addrVersion w /\ w_lock w' = w_lock w
      /\ w_mnemonic w' = w_mnemonic w /\ w_seed w' = w_seed w
  | (Err _, w') => w' = w
  end.
Proof.
  intros Hd Hr HE HC HB Hs Hf. unfold derive_next, sbind at 1 2, sget.
  pose proof (deriveKey_spec b (next_index b w) w) as H. destruct (chain_key b w) as [c|] eqn:Hc; [|by rewrite H].
  destruct (derived c b (next_index b w)) as [dk|] eqn:Hk; [|destruct H as [e H]; by rewrite H]. rewrite H. clear H.
  unfold sbind, smod. set (w1 := bump b _).
  pose proof (derived_ok _ _ _ _ Hk) as [Hok Hb].
  assert (w_nextExternalIdx w1 = (if b then w_nextExternalIdx w else w_nextExternalIdx w + 1)
    /\ w_nextChangeIdx w1 = (if b then w_nextChangeIdx w + 1 else w_nextChangeIdx w)) as [E1 E2].
  { unfold w1, bump. destruct b; simpl; unfold add32; rewrite u32_small by (unfold is_u32; lia); done. }
  destruct (save_ok P w1) as (f & n & Hsave & Hfile).
  { unfold secret_ok, IsEncrypted in *. by unfold w1, bump; destruct b. }
  { intros He. destruct Hf as (nE & nC & Hf); [by unfold w1, bump in He; destruct b|]. exists nE, nC. by unfold w1, bump; destruct b. }
  rewrite Hsave. cbn [sret].
  assert (w_keys w1 = add_key (w_addrVersion w) dk (w_keys w)) as Ek by (unfold w1, bump; by destruct b).
  split_and!; try (unfold w1, bump; by destruct b).
  - constructor; cbn [set_disk w_file w_keys w_nextExternalIdx w_nextChangeIdx w_addrVersion]; rewrite ?Ek.
    + rewrite E1, E2. apply (keys_derived_add b _ _ _ _ _ c); try done; unfold next_index in Hk; by destruct b.
    + replace (w_addrVersion w1) with (w_addrVersion w) by (unfold w1, bump; by destruct b). by apply ring_ok_add.
    + rewrite E1, E2. destruct b; lia.
    + unfold secret_ok, IsEncrypted in *. by unfold w1, bump; destruct b.
    + exact Hfile.
  - cbn [set_disk w_keys]. rewrite Ek. apply elem_add_key. by left.
  - cbn [set_disk w_nextExternalIdx w_nextChangeIdx]. rewrite E1, E2. destruct b; lia.
Qed.

(** The wallet is fine and has derived no further keys. *)
Definition kept (P : list (list byte)) w w' : Prop :=
  wallet_ok P w' /\ w_nextExternalIdx w' = w_nextExternalIdx w /\ w_nextChangeIdx w' = w_nextChangeIdx w
  /\ w_addrVersion w' = w_addrVersion w.

Lemma wallet_ok_disk P w f n :
  wallet_ok P w -> file_ok P (IsEncrypted w) (w_nextExternalIdx w) (w_nextChangeIdx w) f ->
  wallet_ok P (set_disk f n w).
Proof. intros [H1 H2 H3 H4 H5] Hf. by constructor. Qed.

Lemma wallet_ok_mono P P' w : P ⊆ P' -> wallet_ok P w -> wallet_ok P' w.
Proof.
  intros HP [H1 H2 H3 H4 H5]. constructor; try done. destruct H5 as (wd & Hf & He & Hc & Hen & H).
  exists wd. split_and!; try done. destruct (IsEncrypted w); [|done]. destruct H as (Hs & pass & key & Hin & Ho).
  split; [done|]. exists pass, key. split; [by apply HP|done].
Qed.

(** Changing the lock state of an encrypted wallet. *)
Lemma wallet_ok_lock P w l :
  wallet_ok P w -> lk_encrypted l = IsEncrypted w -> wallet_ok P (set_lock l w).
Proof.
  intros [H1 H2 H3 H4 H5] He. constructor; try done; unfold secret_ok, IsEncrypted in *; simpl; by rewrite He.
Qed.

Lemma wallet_ok_wipe P w : wallet_ok P w -> IsEncrypted w = true -> wallet_ok P (wipe w).
Proof.
  intros [H1 H2 H3 H4 H5] He. unfold wipe. constructor; try done; unfold secret_ok, IsEncrypted in *; simpl.
  rewrite He in *. by destruct (w_seed w).
Qed.

Lemma wallet_ok_IsLocked P w : wallet_ok P w -> wallet_ok P (snd (IsLocked env w)).
Proof.
  intros H. unfold IsLocked. destruct (lk_encrypted (w_lock w)) eqn:E; [|done]. simpl.
  destruct (lk_locked (w_lock w)); [done|]. destruct (lk_unlockUntil (w_lock w)) as [t|]; [|done].
  assert (wallet_ok P (ticked w)) as Ht by (apply wallet_ok_disk; [done|apply (wo_file _ _ H)]).
  destruct (_ >? t); [|done]. by apply wallet_ok_wipe.
Qed.

Lemma open_encrypted pass salt iv key c nE nC :
  length salt = saltLen -> length iv = 16%nat -> scrypt_Key pass salt scryptN scryptR scryptP keyLen = Some key ->
  IsMnemonicValid m = true -> Forall plain m ->
  aesEncrypt iv key (m ++ [newline] ++ hex_EncodeToString (NewSeed m)) = Ok c ->
  open_file {| wd_Mnemonic := []; wd_Seed := []; wd_NextExternalIdx := nE; wd_NextChangeIdx := nC;
               wd_Encrypted := true; wd_EncryptedData := hex_EncodeToString c; wd_Salt := hex_EncodeToString salt;
               wd_IV := hex_EncodeToString iv; wd_ScryptN := scryptN; wd_ScryptR := scryptR; wd_ScryptP := scryptP |} pass
  = Ok (m, hex_EncodeToString (NewSeed m), key).
Proof.
  intros Hsl Hiv Hsc Hval Hpl Hc. unfold open_file. cbn [wd_Salt wd_IV wd_EncryptedData wd_ScryptN wd_ScryptR wd_ScryptP].
  rewrite !hex_roundtrip. cbn [rwrap rbind].
  replace (scryptN =? 0) with false by done. replace (scryptR =? 0) with false by done.
  replace (scryptP =? 0) with false by done. rewrite Hsc, (aes_roundtrip _ _ _ _ Hiv Hc).
  rewrite split_line; [|done|apply plain_hex|apply hex_nonempty, seed_nonempty]. by rewrite Hval.
Qed.

Lemma EncryptWallet_ok P p w :
  IsMnemonicValid m = true -> Forall plain m ->
  wallet_ok P w -> kept (p :: P) w (snd (EncryptWallet env p w)).
Proof.
  intros Hval Hpl H0. assert (wallet_ok (p :: P) w) as H by (eapply wallet_ok_mono; [|done]; set_solver). clear H0.
  assert (forall n, wallet_ok (p :: P) (set_disk (w_file w) n w)) as Ht by (intros n; apply wallet_ok_disk; [done|apply (wo_file _ _ H)]).
  unfold EncryptWallet, sbind at 1, sget. destruct (lk_encrypted (w_lock w)) eqn:He; [by split_and!|].
  case_bool_decide; [by split_and!|]. unfold sbind at 1, Rand.
  destruct (rel_rand env Henv (w_tick w) saltLen) as (salt & -> & Hsl). cbn [ticked].
  destruct (scrypt_Key p salt scryptN scryptR scryptP keyLen) as [key|] eqn:Hsc; [|by split_and!; try apply Ht].
  cbn [sbind sret]. unfold sbind at 1, Rand.
  match goal with |- context [we_rand env ?t 16] => destruct (rel_rand env Henv t 16) as (iv & -> & Hiv) end.
  cbn [ticked set_disk w_mnemonic w_seed w_file w_tick].
  pose proof (wo_secret _ _ H) as Hs. unfold secret_ok, IsEncrypted in Hs. rewrite He in Hs. destruct Hs as [-> ->].
  unfold sbind at 1, slift. destruct (aesEncrypt iv key _) as [c|e] eqn:Hc; cbn [rwrap]; [|by split_and!; try apply Ht].
  unfold sbind, smod, saveEncrypted, sget, WriteFile, sbind. cbn. rewrite (rel_write env Henv). cbn.
  destruct H as [H1 H2 H3 H4 H5]. split_and!; [|done..].
  constructor; cbn; [done|done|done| |].
  - unfold secret_ok, IsEncrypted in *. cbn. rewrite He in H4. destruct H4 as [_ H4]. cbn in H4. rewrite H4. apply seed_nonempty.
  - eexists. split; [reflexivity|]. split_and!; [done..|]. exists p, key. split; [set_solver|].
    by eapply open_encrypted.
Qed.

Lemma WalletPassphrase_ok P p t w :
  wallet_ok P w -> kept P w (snd (WalletPassphrase env p t w)).
Proof.
  intros H. assert (forall n, wallet_ok P (set_disk (w_file w) n w)) as Ht
    by (intros n; apply wallet_ok_disk; [done|apply (wo_file _ _ H)]).
  unfold WalletPassphrase, sbind at 1, sget. destruct (lk_encrypted (w_lock w)) eqn:He; [|by split_and!].
  cbn [negb]. unfold sbind at 1, ReadFile. rewrite (rel_read env Henv).
  destruct (wo_file _ _ H) as (wd & Hwd & _). rewrite Hwd. unfold sbind at 1, slift. cbn [parse rwrap].
  unfold sbind at 1, slift. destruct (open_file wd p) as [[[mn hx] key]|e]; cbn [rwrap]; [|by split_and!; try apply Ht].
  pose proof (wo_secret _ _ H) as Hs. unfold secret_ok, IsEncrypted in Hs. rewrite He in Hs.
  destruct (Nat.eqb_spec (length (w_seed w)) 0) as [E|_]; [by destruct (w_seed w)|].
  unfold sbind, sret, WNow, smod. destruct (t >? 0); cbn [snd]; split_and!; try done.
  - apply wallet_ok_lock; [|done]. repeat (apply wallet_ok_disk; [|apply (wo_file _ _ H)]). done.
  - apply wallet_ok_lock; [|done]. repeat (apply wallet_ok_disk; [|apply (wo_file _ _ H)]). done.
Qed.

(** ** Creation, use and restart *)

Lemma wallet_ok_next P b w :
  wallet_ok P w -> w_nextExternalIdx w + w_nextChangeIdx w + 1 < 2^32 ->
  let w' := snd (derive_next b w) in
  wallet_ok P w' /\ w_nextExternalIdx w' + w_nextChangeIdx w' <= w_nextExternalIdx w + w_nextChangeIdx w + 1
  /\ w_addrVersion w' = w_addrVersion w.
Proof.
  intros H Hb. pose proof (derive_next_ok P b w (wo_derived _ _ H) (wo_ring _ _ H)) as D.
  destruct (wo_indices _ _ H) as [HE HC]. specialize (D HE HC Hb (wo_secret _ _ H)).
  destruct (derive_next b w) as [[dk|e] w']; cbn [snd].
  - destruct D as (D & _ & Hi & Hv & _).
    { intros He. rewrite <- He. do 2 eexists. apply (wo_file _ _ H). }
    split_and!; [done|lia|done].
  - rewrite D; [split_and!; [done|lia|done]|]. intros He. rewrite <- He. do 2 eexists. apply (wo_file _ _ H).
Qed.

(** [createNew] once it has a valid mnemonic. *)
Definition start : wM unit :=
  do _ <- smod (set_secret m (NewSeed m));
  do _ <- deriveAccountKeys;
  do _ <- DeriveNextExternal env;
  save env.

Lemma start_ok f n ver w0 :
  start (blank f n ver) = (Ok tt, w0) ->
  wallet_ok [] w0 /\ w_nextExternalIdx w0 + w_nextChangeIdx w0 = 1 /\ w_addrVersion w0 = ver /\ w_mnemonic w0 = m.
Proof.
  unfold start, sbind at 1, smod. intros H. unfold sbind at 1 in H.
  destruct (deriveAccountKeys _) as [[[]|] w1] eqn:Hd in H; [|done].
  apply deriveAccountKeys_Ok in Hd as (a & e & c & Hacc & ->). cbn [set_secret w_seed] in Hacc.
  unfold sbind at 1 in H. rewrite derive_next_external in H. set (w1 := set_keys _ _) in *.
  assert (keys_derived 0 0 (w_keys w1)) as Hk by (exists a, e, c; by split_and!).
  pose proof (derive_next_ok [] false w1 Hk (ring_ok_account _ _ _ _ _ (ring_ok_no_keys _))) as D.
  specialize (D ltac:(done) ltac:(done) ltac:(done) ltac:(by split) ltac:(done)).
  destruct (derive_next false w1) as [[dk|] w2]; [|done]. destruct D as (D & _ & Hi & Hv & Hl & Hm & _).
  destruct (save_ok [] w2 (wo_secret _ _ D)) as (f' & n' & Hs & Hf); [unfold IsEncrypted; by rewrite Hl|].
  rewrite Hs in H. injection H as <-. split_and!; [by apply wallet_ok_disk|exact Hi|exact Hv|exact Hm].
Qed.

(** The second half of [loadSeedAndDerive], on a wallet without keys. *)
Lemma load_ok nE nC k w :
  keys_derived nE nC k -> ring_ok (w_addrVersion w) k -> NoDup (map dk_PubKeyHash (all_keys k)) ->
  w_keys w = no_keys -> w_nextExternalIdx w = nE -> w_nextChangeIdx w = nC ->
  loadSeedAndDerive m (hex_EncodeToString (NewSeed m)) w = (Ok tt, set_keys k (set_secret m (NewSeed m) w)).
Proof.
  intros (a & e & c & Hacc & H1 & H2 & H3 & H4 & H5) Hr Hn Hw <- <-.
  destruct (derived_all _ _ _ _ H4) as [K4 B4]. destruct (derived_all _ _ _ _ H5) as [K5 B5].
  unfold loadSeedAndDerive, sbind at 1, slift. rewrite hex_roundtrip. cbn [rwrap]. unfold sbind at 1, smod.
  unfold sbind at 1. rewrite (deriveAccountKeys_Some _ a e c) by done. unfold sbind at 1, sget.
  set (w1 := set_keys _ _). unfold sbind at 1. unfold deriveExternal, deriveChange.
  pose proof (derive_loop false (indices (w_nextExternalIdx w)) w1 e _ eq_refl H4) as L1.
  unfold indices in L1 at 1. change (w_nextExternalIdx w) with (w_nextExternalIdx w1) in L1. rewrite L1. clear L1.
  change (fold_left _ ?ks ?k0) with (add_keys (w_addrVersion w) ks k0).
  set (k1 := add_keys _ _ _). set (w2 := set_keys k1 w1).
  destruct (add_keys_lists (w_addrVersion w) false _ (w_keys w1) B4) as (F1 & F2 & F3 & F4 & F5). fold k1 in F1, F2, F3, F4, F5.
  pose proof (derive_loop true (indices (w_nextChangeIdx w)) w2 c (kr_changeKeys k) F5 H5) as L2.
  unfold indices in L2 at 1. change (w_nextChangeIdx w) with (w_nextChangeIdx w1) in L2. rewrite L2. clear L2.
  change (fold_left _ ?ks ?k0) with (add_keys (w_addrVersion w) ks k0).
  destruct (add_keys_lists (w_addrVersion w) true _ (w_keys w2) B5) as (G1 & G2 & G3 & G4 & G5).
  set (k2 := add_keys _ _ (w_keys w2)) in *.
  assert (k = k2) as <-; [|done]. cbn [w2 set_keys w_keys] in G1, G2, G3, G4, G5.
  cbn [w1 set_keys w_keys set_account kr_externalKeys kr_changeKeys kr_accountKey kr_externalKey kr_changeKey] in F1, F2, F3, F4, F5.
  cbn [set_secret w_keys] in F1, F2. rewrite Hw in F1, F2. cbn in F1, F2.
  apply (ring_unique (w_addrVersion w)); try congruence.
  - apply ring_ok_adds; [done|]. apply ring_ok_adds; [done|]. apply ring_ok_account. cbn. rewrite Hw. apply ring_ok_no_keys.
  - by rewrite G1, F1, app_nil_r.
  - by rewrite G2, F2.
Qed.

(** Starting the node again and, if the wallet is encrypted, giving the passphrase. *)
Definition reopen (f : FileContent) (n : nat) (ver : byte) (pass : list byte) : result WalletErr unit * HDWallet :=
  match NewHDWallet env f n ver with
  | (Ok _, w) => if IsEncrypted w then WalletPassphrase env pass 0 w else (Ok tt, w)
  | r => r
  end.

Lemma reopen_ok P w n :
  wallet_ok P w -> NoDup (map dk_PubKeyHash (all_keys (w_keys w))) ->
  exists pass w', (IsEncrypted w = true -> pass ∈ P)
    /\ reopen (w_file w) n (w_addrVersion w) pass = (Ok tt, w')
    /\ w_keys w' = w_keys w /\ w_mnemonic w' = m
    /\ w_nextExternalIdx w' = w_nextExternalIdx w /\ w_nextChangeIdx w' = w_nextChangeIdx w
    /\ IsEncrypted w' = IsEncrypted w.
Proof.
  intros [Hd Hr Hi _ (wd & Hf & HE & HC & Henc & H)] Hn. unfold reopen, NewHDWallet, ReadFile. cbn [blank w_tick w_file].
  rewrite (rel_read env Henv), Hf. unfold loadFromJSON, sbind at 1, slift. cbn [parse rwrap]. unfold sbind at 1, smod.
  rewrite Henc. destruct (IsEncrypted w) eqn:He.
  - destruct H as (Hs & pass & key & Hin & Hopen). exists pass.
    unfold sbind at 1. rewrite Hs. cbn [bool_decide]. rewrite bool_decide_true by done. cbn [negb andb sret].
    set (w1 := set_lock _ _). change (IsEncrypted w1) with true. cbv iota.
    unfold WalletPassphrase, sbind at 1, sget. change (lk_encrypted (w_lock w1)) with true. cbn [negb].
    unfold sbind at 1, ReadFile. rewrite (rel_read env Henv). change (w_file w1) with (Stored wd).
    unfold sbind at 1, slift. cbn [parse rwrap]. unfold sbind at 1. rewrite Hopen. cbn [rwrap].
    change (length (w_seed w1) =? 0)%nat with true. cbv iota. unfold sbind at 1.
    rewrite (load_ok (w_nextExternalIdx w) (w_nextChangeIdx w) (w_keys w)) by done. cbn.
    eexists. split; [done|]. split; [reflexivity|]. by split_and!.
  - destruct H as [-> ->]. exists []. rewrite (load_ok (w_nextExternalIdx w) (w_nextChangeIdx w) (w_keys w)) by done.
    cbn. eexists. split; [done|]. split; [reflexivity|]. by split_and!.
Qed.
End life.

(** What the user does with a wallet, imports of foreign keys apart ([BuildTransaction]
    derives change addresses, as [OpChangeAddress]). *)
Inductive wallet_op :=
| OpNewAddress | OpChangeAddress | OpCurrentChangeAddress
| OpEncrypt (passphrase : list byte) | OpUnlock (passphrase : list byte) (timeoutSecs : Z) | OpLock
| OpIsLocked | OpMnemonic | OpDump (address : list byte).

Section run.
Context `{WO : WalletOps} {WL : WalletLaws} (env : WalletEnv).
Implicit Types w : HDWallet.

Definition wallet_step (o : wallet_op) w : HDWallet :=
  match o with
  | OpNewAddress => snd (GetNewAddress env w)
  | OpChangeAddress => snd (GetChangeAddress env w)
  | OpCurrentChangeAddress => snd (GetCurrentChangeAddress env w)
  | OpEncrypt p => snd (EncryptWallet env p w)
  | OpUnlock p t => snd (WalletPassphrase env p t w)
  | OpLock => snd (WalletLock w)
  | OpIsLocked => snd (IsLocked env w)
  | OpMnemonic => snd (Mnemonic env w)
  | OpDump a => snd (DumpPrivKey env a w)
  end.
Definition wallet_run (ops : list wallet_op) w : HDWallet := fold_left (fun w o => wallet_step o w) ops w.

Definition passphrases (ops : list wallet_op) : list (list byte) :=
  omap (fun o => match o with OpEncrypt p => Some p | _ => None end) ops.

(** Reading a field after an operation leaves the wallet of the operation. *)
Lemma snd_bind_pure {A B} (mm : wM A) (k : A -> wM B) w :
  (forall a w, snd (k a w) = w) -> snd (sbind mm k w) = snd (mm w).
Proof. intros H. unfold sbind. destruct (mm w) as [[a|e] w']; [apply H|done]. Qed.

Lemma IsLocked_kept m P w : wallet_ok m P w -> kept m P w (snd (IsLocked env w)).
Proof.
  intros H. pose proof (wallet_ok_IsLocked env m P w H) as H'. split; [done|].
  unfold IsLocked. destruct (negb _); [done|]. destruct (lk_locked _); [done|].
  destruct (lk_unlockUntil _); [|done]. by destruct (_ >? _).
Qed.

Lemma WalletLock_kept m P w : wallet_ok m P w -> kept m P w (snd (WalletLock w)).
Proof.
  intros H. unfold WalletLock, sbind, sget. destruct (lk_encrypted (w_lock w)) eqn:E; cbn [negb].
  - split; [|done]. by apply wallet_ok_wipe.
  - by split.
Qed.

Lemma GetNewAddress_next w : snd (GetNewAddress env w) = snd (derive_next env false w).
Proof. unfold GetNewAddress. apply snd_bind_pure. done. Qed.
Lemma GetChangeAddress_next w : snd (GetChangeAddress env w) = snd (derive_next env true w).
Proof. unfold GetChangeAddress. apply snd_bind_pure. done. Qed.
Lemma GetCurrentChangeAddress_next w :
  snd (GetCurrentChangeAddress env w) = w \/ snd (GetCurrentChangeAddress env w) = snd (derive_next env true w).
Proof.
  rewrite <- GetChangeAddress_next. unfold GetCurrentChangeAddress, sbind at 1 2, sget. destruct (last _); [by left|by right].
Qed.
Lemma Mnemonic_locked w : snd (Mnemonic env w) = snd (IsLocked env w).
Proof. unfold Mnemonic. apply snd_bind_pure. by intros [] ?. Qed.
Lemma RequireUnlocked_locked w : snd (RequireUnlocked env w) = snd (IsLocked env w).
Proof.
  unfold RequireUnlocked, sbind at 1, sget, IsEncrypted. destruct (lk_encrypted (w_lock w)) eqn:E; cbn [negb].
  - apply snd_bind_pure. by intros [] ?.
  - unfold IsLocked. by rewrite E.
Qed.
Lemma DumpPrivKey_locked a w : snd (DumpPrivKey env a w) = snd (IsLocked env w).
Proof.
  rewrite <- RequireUnlocked_locked. apply snd_bind_pure. intros _ w'. unfold sbind, sget.
  by destruct (kr_keysByAddress (w_keys w') !! a).
Qed.

Lemma wallet_step_ok m P o w :
  reliable env -> IsMnemonicValid m = true -> Forall plain m ->
  wallet_ok m P w -> w_nextExternalIdx w + w_nextChangeIdx w + 1 < 2^32 ->
  let w' := wallet_step o w in
  wallet_ok m (passphrases [o] ++ P) w'
  /\ w_nextExternalIdx w' + w_nextChangeIdx w' <= w_nextExternalIdx w + w_nextChangeIdx w + 1
  /\ w_addrVersion w' = w_addrVersion w.
Proof.
  intros He Hval Hpl H Hb.
  assert (forall w', kept m P w w' -> wallet_ok m P w'
    /\ w_nextExternalIdx w' + w_nextChangeIdx w' <= w_nextExternalIdx w + w_nextChangeIdx w + 1
    /\ w_addrVersion w' = w_addrVersion w) as K by (intros w' (? & -> & -> & ?); split_and!; [done|lia|done]).
  destruct o; cbn [passphrases omap list_omap wallet_step app].
  - rewrite GetNewAddress_next. by apply wallet_ok_next.
  - rewrite GetChangeAddress_next. by apply wallet_ok_next.
  - destruct (GetCurrentChangeAddress_next w) as [-> | ->]; [apply K; by split|by apply wallet_ok_next].
  - destruct (EncryptWallet_ok env He m P passphrase w Hval Hpl H) as (? & -> & -> & ?). split_and!; [done|lia|done].
  - apply K. by apply WalletPassphrase_ok.
  - apply K. by apply WalletLock_kept.
  - apply K. by apply IsLocked_kept.
  - rewrite Mnemonic_locked. apply K. by apply IsLocked_kept.
  - rewrite DumpPrivKey_locked. apply K. by apply IsLocked_kept.
Qed.
Lemma wallet_run_ok m ops : forall P w,
  reliable env -> IsMnemonicValid m = true -> Forall plain m ->
  wallet_ok m P w -> w_nextExternalIdx w + w_nextChangeIdx w + len ops < 2^32 ->
  wallet_ok m (passphrases ops ++ P) (wallet_run ops w) /\ w_addrVersion (wallet_run ops w) = w_addrVersion w.
Proof.
  induction ops as [|o ops IH]; intros P w He Hval Hpl H Hb; [by split|].
  cbn [length] in Hb. destruct (wallet_step_ok m P o w) as (H1 & Hi & Hv); [done..|lia|].
  change (wallet_run (o :: ops) w) with (wallet_run ops (wallet_step o w)).
  destruct (IH (passphrases [o] ++ P) (wallet_step o w)) as [H2 Hv2]; [done..|lia|].
  split; [|by rewrite Hv2]. eapply wallet_ok_mono; [|exact H2].
  unfold passphrases. destruct o; cbn; set_solver.
Qed.

(** A successful [createNew] on a new wallet is [start] with its mnemonic. *)
Lemma createNew_start mn f n ver w0 :
  mn = [] \/ Forall plain mn ->
  createNew env mn (blank f n ver) = (Ok tt, w0) ->
  exists m f' n', IsMnemonicValid m = true /\ Forall plain m /\ (mn = [] \/ mn = m)
    /\ start env m (blank f' n' ver) = (Ok tt, w0).
Proof.
  unfold createNew, sbind at 1. intros Hp H. case_bool_decide as Hmn.
  - unfold sbind at 1, Rand in H. destruct (we_rand env _ 32) as [e|]; [|done].
    destruct (NewMnemonic e) as [m|] eqn:Hm; [|done]. apply mnemonic_text in Hm as [Hval Hpl].
    cbn [sret] in H. rewrite Hval in H. cbn [negb] in H. exists m, f, (S n). split_and!; [done..|by left|exact H].
  - cbn [sret] in H. destruct (IsMnemonicValid mn) eqn:Hval; [|done]. cbn [negb] in H.
    exists mn, f, n. destruct Hp as [Hp|Hp]; [done|]. split_and!; [done..|by right|exact H].
Qed.
End run.
