(* ===== verification/WalletProps.v ===== *)
(** * Properties of the wallet

    What [Wallet.v] guarantees, proved with the invariants of [WalletInv.v]: the wallet
    file gives back every derived key, exported keys arrive in other wallets, signatures
    are accepted by the script engine; and two losses. *)
From S2P Require Import Prelude.
From S2P Require Import Types.
From S2P Require Import Sha256.
From S2P Require Import Crypto.
From S2P Require Import Script.
From S2P Require Import Target.
From S2P Require Import Base58.
From S2P Require Import Aes.
From S2P Require Import Utxo.
From S2P Require Import Wallet.
From S2P Require Import WalletInv.

(** ** The lookup maps of every wallet *)

Section ring.
Context `{WO : WalletOps} (env : WalletEnv) (ver : byte).

Definition ring_inv (w : HDWallet) : Prop := w_addrVersion w = ver /\ ring_ok ver (w_keys w).
#[local] Abbreviation keeps_ring := (keeps (E := WalletErr) ring_inv).

(** The maps do not see the disk, the secrets, the indices and the lock. *)
Lemma ring_inv_same w w' :
  w_addrVersion w' = w_addrVersion w -> w_keys w' = w_keys w -> ring_inv w -> ring_inv w'.
Proof. unfold ring_inv. by intros -> ->. Qed.

Lemma ring_Rand n : keeps_ring (Rand env n).
Proof. intros w Hw. unfold Rand. by destruct (we_rand env (w_tick w) n). Qed.
Lemma ring_ReadFile : keeps_ring (ReadFile env).
Proof. intros w Hw. unfold ReadFile. destruct (we_read_fails env (w_tick w)); [done|]. by destruct (w_file w). Qed.
Lemma ring_WriteFile wd : keeps_ring (WriteFile env wd).
Proof. intros w Hw. unfold WriteFile. by destruct (we_write env (w_tick w) (w_file w)). Qed.
Lemma ring_WNow : keeps_ring (WNow env).
Proof. intros w Hw. exact Hw. Qed.
Lemma ring_IsLocked : keeps_ring (IsLocked env).
Proof.
  intros w Hw. unfold IsLocked. destruct (negb _); [done|]. destruct (lk_locked _); [done|].
  destruct (lk_unlockUntil _); [|done]. by destruct (_ >? _).
Qed.
#[local] Hint Resolve ring_Rand ring_ReadFile ring_WriteFile ring_WNow ring_IsLocked : keeps.

Lemma ring_save : keeps_ring (save env).
Proof. unfold save, savePreservingEncryption. keeps. Qed.
Lemma ring_derive e k i : keeps_ring (derive e k i).
Proof. unfold derive. keeps. Qed.
#[local] Hint Resolve ring_save ring_derive : keeps.

Lemma ring_set_account a e c w w1 : w_addrVersion w1 = w_addrVersion w -> ring_inv w ->
  ring_inv (set_keys (set_account a e c (w_keys w)) w1).
Proof. intros E [? ?]. split; [simpl; by rewrite E|]. by apply ring_ok_account. Qed.

Lemma ring_deriveAccountKeys : keeps_ring deriveAccountKeys.
Proof.
  intros w Hw. unfold deriveAccountKeys, sbind, sget, smod, sret, sfail, derive.
  repeat match goal with
  | |- context [match ?x with Some _ => _ | None => _ end] => destruct x; cbn
  end; (done || by apply ring_set_account).
Qed.
Lemma ring_deriveKey b i : keeps_ring (deriveKey b i).
Proof.
  intros w Hw. pose proof (deriveKey_spec b i w) as H. destruct (chain_key b w) as [c|]; [|by rewrite H].
  destruct (derived c b i) as [dk|] eqn:Hd; [|destruct H as [e ->]; done]. rewrite H. destruct Hw as [Hv Hr].
  split; [done|]. cbn [snd set_keys w_keys]. rewrite Hv. apply ring_ok_add; [by apply (derived_ok c b i)|done].
Qed.
#[local] Hint Resolve ring_deriveAccountKeys ring_deriveKey : keeps.

Lemma ring_next b : keeps_ring (derive_next env b).
Proof. unfold derive_next. keeps. by destruct b. Qed.
Lemma ring_loadSeedAndDerive m h : keeps_ring (loadSeedAndDerive m h).
Proof. unfold loadSeedAndDerive, deriveExternal, deriveChange. keeps. done. Qed.
#[local] Hint Resolve ring_next ring_loadSeedAndDerive : keeps.

Lemma ring_createNew m : keeps_ring (createNew env m).
Proof. unfold createNew. rewrite derive_next_external. keeps. done. Qed.
Lemma ring_loadFromJSON f : keeps_ring (loadFromJSON f).
Proof. unfold loadFromJSON. keeps; done. Qed.

Lemma ring_blank f n : ring_inv (blank f n ver).
Proof. split; [done|]. apply ring_ok_no_keys. Qed.

Lemma ring_ImportPrivKey s : keeps_ring (ImportPrivKey s).
Proof.
  unfold ImportPrivKey. keeps. destruct H as [Hv Hr]. split; [done|]. simpl. rewrite Hv. by apply ring_ok_add.
Qed.

Lemma ring_EncryptWallet p : keeps_ring (EncryptWallet env p).
Proof. unfold EncryptWallet, saveEncrypted. keeps. done. Qed.
Lemma ring_WalletPassphrase p t : keeps_ring (WalletPassphrase env p t).
Proof. unfold WalletPassphrase. keeps. done. Qed.

Lemma ring_wallet_step o w : ring_inv w -> ring_inv (wallet_step env o w).
Proof.
  intros H. destruct o; cbn [wallet_step].
  - rewrite GetNewAddress_next. by apply ring_next.
  - rewrite GetChangeAddress_next. by apply ring_next.
  - destruct (GetCurrentChangeAddress_next env w) as [-> | ->]; [done|by apply ring_next].
  - by apply ring_EncryptWallet.
  - by apply ring_WalletPassphrase.
  - unfold WalletLock, sbind, sget. by destruct (negb _).
  - by apply ring_IsLocked.
  - rewrite Mnemonic_locked. by apply ring_IsLocked.
  - rewrite DumpPrivKey_locked. by apply ring_IsLocked.
Qed.

(** The wallets a node can hold, whatever its disk does. *)
Inductive wallet_reachable : HDWallet -> Prop :=
| wr_new f n w : NewHDWallet env f n ver = (Ok tt, w) -> wallet_reachable w
| wr_restore f n m w : NewHDWalletFromMnemonic env f n ver m = (Ok tt, w) -> wallet_reachable w
| wr_step o w : wallet_reachable w -> wallet_reachable (wallet_step env o w)
| wr_import s w : wallet_reachable w -> wallet_reachable (snd (ImportPrivKey s w))
| wr_disk f w : wallet_reachable w -> wallet_reachable (set_disk f (w_tick w) w).

Lemma wallet_reachable_ring w : wallet_reachable w -> ring_inv w.
Proof.
  induction 1 as [f n w H|f n m w H|o w _ IH|s w _ IH|f w _ IH].
  - unfold NewHDWallet in H. pose proof (ring_ReadFile (blank f n ver) (ring_blank f n)) as Hr.
    assert (forall r : result WalletErr unit * HDWallet, r = (Ok tt, w) -> ring_inv (snd r) -> ring_inv w) as K by (by intros ? ->).
    destruct (ReadFile env _) as [[[]|] w1]; cbn [snd] in Hr.
    all: (eapply K; [exact H|]); (by apply ring_createNew) || (by apply ring_loadFromJSON).
  - pose proof (ring_createNew m _ (ring_blank f n)) as R. unfold NewHDWalletFromMnemonic in H. by rewrite H in R.
  - by apply ring_wallet_step.
  - by apply ring_ImportPrivKey.
  - by destruct IH.
Qed.
End ring.

(** ** Signing *)

Lemma ExtractP2PKHHash_Some pk h : ExtractP2PKHHash pk = Some h -> length h = PubKeyHashSize /\ pk = MakeP2PKHScript h.
Proof.
  unfold ExtractP2PKHHash. destruct (IsP2PKHScript pk) eqn:E; [|done]. intros [= <-].
  apply (proj1 (proj1 (p2pkh_script_exact pk))) in E as (h & Hh & ->).
  pose proof (proj2 (p2pkh_script_exact []) h Hh) as H. unfold ExtractP2PKHHash in H.
  destruct (negb _); [done|]. injection H as ->. done.
Qed.

(** Two transactions that differ in the input scripts only. *)
Record rescripted (tx tx' : Transaction) : Prop := {
  rs_version : tx_Version tx' = tx_Version tx;
  rs_locktime : tx_LockTime tx' = tx_LockTime tx;
  rs_outputs : tx_Outputs tx' = tx_Outputs tx;
  rs_inputs : map (fun i => (in_PreviousOutPoint i, in_Sequence i)) (tx_Inputs tx')
              = map (fun i => (in_PreviousOutPoint i, in_Sequence i)) (tx_Inputs tx) }.

#[export] Instance rescripted_refl : Reflexive rescripted.
Proof. by constructor. Qed.
#[export] Instance rescripted_trans : Transitive rescripted.
Proof. intros x y z [] []. constructor; congruence. Qed.

Lemma set_script_rescripted i s tx : rescripted tx (set_script i s tx).
Proof.
  constructor; try done. unfold set_script. simpl. apply list_eq. intros j.
  change @map with @list_fmap. rewrite !list_lookup_fmap.
  rewrite list_lookup_alter. case_decide as E; [subst j|done]. by destruct (tx_Inputs tx !! i).
Qed.

Lemma rescripted_length tx tx' : rescripted tx tx' -> length (tx_Inputs tx') = length (tx_Inputs tx).
Proof. intros [_ _ _ H]. apply (f_equal length) in H. by rewrite !length_map in H. Qed.

Section signing.
Context `{WO : WalletOps} {EL : ECLaws EC} (ver : byte).

(** A key the wallet finds for a script signs for it. *)
Lemma key_signs w pk dk tx i :
  ring_inv ver w -> KeyForScript pk w = Some dk -> (i < length (tx_Inputs tx))%nat ->
  exists s, SignInput tx (Z.of_nat i) pk (dk_PrivKey dk) = Ok s
    /\ s <> [] /\ forall tx', rescripted tx tx' -> Verify s pk tx' (Z.of_nat i) = Ok tt.
Proof.
  intros [_ Hr] Hk Hi. unfold KeyForScript in Hk. destruct (ExtractP2PKHHash pk) as [h|] eqn:Hh; [|done].
  apply ExtractP2PKHHash_Some in Hh as [_ ->]. apply (ro_hash _ _ Hr) in Hk as [Hin <-].
  pose proof (ro_keys _ _ Hr) as Ha. rewrite Forall_forall in Ha. destruct (Ha _ Hin) as [-> ->].
  assert (0 <= Z.of_nat i < len (tx_Inputs tx)) as Hb by lia.
  change (MakeP2PKHScript (PubKeyHash ?p)) with (MakeP2PKHScriptFromPubKey p). set (pub := SerializeCompressed _).
  destruct (sign_input_verifies tx tx (Z.of_nat i) (dk_PrivKey dk)) as (s & Hs & _); [done..|].
  exists s. split; [exact Hs|]. split.
  { unfold SignInput in Hs. apply rbind_Ok in Hs as (sig & _ & [= <-]). done. }
  intros tx' [H1 H2 H3 H4]. destruct (sign_input_verifies tx tx' (Z.of_nat i) (dk_PrivKey dk)) as (s' & Hs' & V); [done..|].
  rewrite Hs in Hs'. injection Hs' as ->. exact V.
Qed.

(** What the loop leaves of input [i]. *)
Definition input_outcome (prev : Hash -> Z -> option (list byte)) w (tx' : Transaction) (i : nat) (ti ti' : TxInput) : Prop :=
  let pk := prev (op_Hash (in_PreviousOutPoint ti)) (op_Index (in_PreviousOutPoint ti)) in
  if bool_decide (in_SignatureScript ti = []) then
    match pk with
    | Some pk => if IsOurScript pk w then in_SignatureScript ti' <> []
                   /\ Verify (in_SignatureScript ti') pk tx' (Z.of_nat i) = Ok tt
                 else ti' = ti
    | None => ti' = ti
    end
  else ti' = ti.

Definition signed_inputs (l : list TxInput) : nat := length (filter (fun ti => in_SignatureScript ti <> []) l).

Lemma signed_inputs_cons ti l :
  Z.of_nat (signed_inputs (ti :: l)) = (if bool_decide (in_SignatureScript ti = []) then 0 else 1) + Z.of_nat (signed_inputs l).
Proof. unfold signed_inputs. rewrite filter_cons. repeat case_decide; case_bool_decide; try done. cbn [length]. lia. Qed.

(** One turn of the loop. *)
Lemma sign_raw_step prev w n i tx k ti :
  ring_inv ver w -> tx_Inputs tx !! i = Some ti ->
  exists tx1 ti1, sign_raw prev w (S n) i tx k
      = sign_raw prev w n (S i) tx1 (k + (if bool_decide (in_SignatureScript ti1 = []) then 0 else 1))
    /\ rescripted tx tx1 /\ tx_Inputs tx1 = <[i := ti1]> (tx_Inputs tx)
    /\ forall tx', rescripted tx tx' -> input_outcome prev w tx' i ti ti1.
Proof.
  intros Hw Hti. cbn [sign_raw]. rewrite Hti.
  unfold input_outcome.
  destruct (Z.gtb_spec (len (in_SignatureScript ti)) 0) as [Hs|Hs].
  { exists tx, ti. rewrite bool_decide_false by (by intros E; rewrite E in Hs). rewrite list_insert_id by done.
    split_and!; try done. }
  assert (in_SignatureScript ti = []) as E by (destruct (in_SignatureScript ti); [done|simpl in Hs; lia]).
  rewrite E, bool_decide_true by done.
  assert (forall (P : Prop), P -> exists tx1 ti1, sign_raw prev w n (S i) tx k
      = sign_raw prev w n (S i) tx1 (k + (if bool_decide (in_SignatureScript ti1 = []) then 0 else 1))
    /\ rescripted tx tx1 /\ tx_Inputs tx1 = <[i := ti1]> (tx_Inputs tx) /\ (ti1 = ti /\ P)) as Hskip.
  { intros P HP. exists tx, ti. rewrite E, bool_decide_true by done. rewrite list_insert_id by done.
    rewrite Z.add_0_r. by split_and!. }
  unfold IsOurScript. destruct (prev _ _) as [pk|].
  2: { destruct (Hskip True I) as (tx1 & ti1 & ? & ? & ? & -> & _). exists tx1, ti. by split_and!. }
  assert (KeyForScript pk w = match ExtractP2PKHHash pk with Some h => kr_keysByHash (w_keys w) !! h | None => None end) as EK by done.
  destruct (KeyForScript pk w) as [dk|] eqn:Hk.
  - destruct (key_signs w pk dk tx i Hw Hk) as (s & -> & Hne & HV); [by apply lookup_lt_Some in Hti|].
    eexists (set_script i s tx), {| in_PreviousOutPoint := in_PreviousOutPoint ti; in_SignatureScript := s; in_Sequence := in_Sequence ti |}.
    simpl. rewrite bool_decide_false by done. split_and!; [done|apply set_script_rescripted| |].
    + apply list_eq. intros j. rewrite list_lookup_alter, list_lookup_insert. case_decide as Hij; [subst j|].
      * rewrite Hti. simpl. case_decide as Hc; [done|]. apply lookup_lt_Some in Hti. naive_solver.
      * case_decide; naive_solver.
    + intros tx' Hr. destruct (ExtractP2PKHHash pk); [|done]. rewrite <- EK. simpl. by auto.
  - destruct (Hskip True I) as (tx1 & ti1 & ? & ? & ? & -> & _). exists tx1, ti. split_and!; try done.
    intros tx' _. destruct (ExtractP2PKHHash pk); [|done]. by rewrite <- EK.
Qed.

Lemma sign_raw_spec prev w : ring_inv ver w -> forall n i tx k,
  (i + n = length (tx_Inputs tx))%nat ->
  exists tx', sign_raw prev w n i tx k = (Ok (k + Z.of_nat (signed_inputs (drop i (tx_Inputs tx')))), tx')
    /\ rescripted tx tx' /\ take i (tx_Inputs tx') = take i (tx_Inputs tx)
    /\ forall j ti ti', (i <= j)%nat -> tx_Inputs tx !! j = Some ti -> tx_Inputs tx' !! j = Some ti' ->
         forall tx2, rescripted tx tx2 -> input_outcome prev w tx2 j ti ti'.
Proof.
  intros Hw. induction n as [|n IH]; intros i tx k Hn.
  - exists tx. rewrite drop_ge by lia. split_and!; [simpl; by rewrite Z.add_0_r|done|done|].
    intros j ti ti' Hj Hti. apply lookup_lt_Some in Hti. lia.
  - destruct (lookup_lt_is_Some_2 (tx_Inputs tx) i) as [ti Hti]; [lia|].
    destruct (sign_raw_step prev w n i tx k ti Hw Hti) as (tx1 & ti1 & -> & R1 & E1 & O1).
    destruct (IH (S i) tx1 (k + (if bool_decide (in_SignatureScript ti1 = []) then 0 else 1))) as (tx' & -> & R & T & O).
    { rewrite E1, length_insert. lia. }
    assert (tx_Inputs tx' !! i = Some ti1) as Hi.
    { apply (f_equal (.!! i)) in T. rewrite !lookup_take_lt, E1, list_lookup_insert_eq in T by lia. by rewrite T. }
    exists tx'. split_and!.
    + rewrite (drop_S _ ti1 i) by exact Hi. rewrite signed_inputs_cons. do 2 f_equal. lia.
    + by transitivity tx1.
    + apply (f_equal (take i)) in T. rewrite !take_take, Nat.min_l, E1 in T by lia. by rewrite T, take_insert_ge by lia.
    + intros j tj tj' Hj Htj Htj' tx2 R2. destruct (decide (j = i)) as [->|Hne].
      * replace tj with ti by congruence. replace tj' with ti1 by congruence. by apply O1.
      * apply (O j); [lia| |done|].
        -- rewrite E1, list_lookup_insert_ne by done. done.
        -- destruct R1, R2. constructor; congruence.
Qed.
End signing.

(** A small instance of the external operations: an extended key is its path, and the
    private key of [m/.../c/i] is the byte [2 i + c]. *)
Module ToyWallet.
Import ToyEC.
Definition toy_child (k : list Z) : list byte :=
  match rev k with i :: c :: _ => [byte.of_Z (2 * i + c)] | _ => [] end.
#[export] Instance toy_wallet : WalletOps := {|
  ExtendedKey := list Z;
  NewMnemonic _ := Some (bytes_of_string "toy words");
  IsMnemonicValid m := bool_decide (m <> []);
  NewSeed m := Byte.x01 :: m;
  NewMaster _ := Some [];
  Derive k i := Some (k ++ [i]);
  ECPrivKey k := Some (toy_child k);
  priv_Serialize k := (k : byte) :: replicate 31 Byte.x00;
  scrypt_Key p salt _ _ _ n := Some (take (Z.to_nat n) (p ++ salt ++ replicate 32 Byte.x00))
|}.
#[export] Instance toy_wallet_laws : WalletLaws.
Proof.
  constructor; try done. intros e m [= <-]. split; [done|].
  repeat (constructor; [by vm_compute|]). constructor.
Qed.

Definition toy_env : WalletEnv := {|
  we_write _ _ := None; we_read_fails _ := false;
  we_rand t n := Some (replicate n (byte.of_Z (Z.of_nat t)));
  we_now t := Z.of_nat t |}.
Lemma toy_reliable : reliable toy_env.
Proof. constructor; try done. intros t n. eexists. split; [reflexivity|apply length_replicate]. Qed.

Abbreviation toy_created := (createNew toy_env [] (blank Missing 1 Byte.x00)).
Abbreviation toy_w0 := (snd toy_created).
Lemma fst_ok {S E A} (r : result E A * S) a : fst r = Ok a -> r = (Ok a, snd r).
Proof. destruct r as [r w]. by intros [= ->]. Qed.
Lemma toy_started : toy_created = (Ok tt, toy_w0).
Proof. apply fst_ok. vm_compute. reflexivity. Qed.
Definition toy_ops : list wallet_op :=
  [OpNewAddress; OpChangeAddress; OpEncrypt (bytes_of_string "secret"); OpUnlock (bytes_of_string "secret") 0;
   OpNewAddress; OpLock].
End ToyWallet.
Import ToyEC ToyWallet.
Example toy_run : let w := wallet_run toy_env toy_ops toy_w0 in
  (len (all_keys (w_keys w)), bool_decide (NoDup (map dk_PubKeyHash (all_keys (w_keys w))))) = (4, true).
Proof. vm_compute. reflexivity. Qed.

(** ** Properties *)

(** C15. The wallet file is a full backup while the machine works: if no read or write of the
    file and no reading of random bytes ever fails ([reliable]), then after any sequence of
    new addresses, change addresses, encryption, unlocking, locking and exports, also ones
    refused for a wrong or empty passphrase or because the wallet is locked or already
    encrypted, starting again from the file gives the same keys, in the same maps, the same
    indices and the mnemonic; an encrypted wallet needs a passphrase that was given to
    [EncryptWallet].  The sequence has fewer than [2^31] operations and no two keys derived
    have the same hash. *)
Theorem wallet_recovery `{WL : WalletLaws} env mn f0 n0 ver w0 ops :
  reliable env -> mn = [] \/ Forall plain mn ->
  createNew env mn (blank f0 n0 ver) = (Ok tt, w0) -> len ops < 2^31 ->
  let w := wallet_run env ops w0 in
  NoDup (map dk_PubKeyHash (all_keys (w_keys w))) ->
  forall n, exists pass w', (IsEncrypted w = true -> pass ∈ passphrases ops)
    /\ reopen env (w_file w) n ver pass = (Ok tt, w')
    /\ w_keys w' = w_keys w /\ w_mnemonic w' = w_mnemonic w0
    /\ w_nextExternalIdx w' = w_nextExternalIdx w /\ w_nextChangeIdx w' = w_nextChangeIdx w.
Proof.
  intros He Hmn Hc Hops w Hn n.
  destruct (createNew_start env mn f0 n0 ver w0 Hmn Hc) as (m & f' & n' & Hval & Hpl & _ & Hs).
  destruct (start_ok env He m f' n' ver w0 Hs) as (H0 & Hi & Hv & ->).
  destruct (wallet_run_ok env m ops [] w0 He Hval Hpl H0) as [H Hv']; [lia|]. rewrite app_nil_r in H.
  destruct (reopen_ok env He m _ w n H Hn) as (pass & w' & Hp & Hr & Hk & Hm & HE & HC & _).
  exists pass, w'. rewrite <- Hv, <- Hv'. by split_and!.
Qed.

Lemma wallet_recovery_witness :
  let w := wallet_run toy_env toy_ops toy_w0 in
  exists pass w', pass = bytes_of_string "secret"
    /\ reopen toy_env (w_file w) 100 Byte.x00 pass = (Ok tt, w') /\ w_keys w' = w_keys w.
Proof.
  intros w.
  destruct (wallet_recovery toy_env [] Missing 1 Byte.x00 toy_w0 toy_ops) with (n := 100%nat) as (pass & w' & H1 & H2 & H3 & _).
  - exact toy_reliable.
  - left. reflexivity.
  - exact toy_started.
  - apply Z.ltb_lt. vm_compute. reflexivity.
  - apply (bool_decide_unpack _). vm_compute. exact I.
  - exists pass, w'. split; [|split; [exact H2|exact H3]].
    assert (IsEncrypted (wallet_run toy_env toy_ops toy_w0) = true) as E by (vm_compute; reflexivity).
    specialize (H1 E). apply list_elem_of_singleton in H1. exact H1.
Defined.

(** Looking at the lock changes nothing of the keys. *)
Lemma IsLocked_keys `{WO : WalletOps} env w : w_keys (snd (IsLocked env w)) = w_keys w
  /\ w_addrVersion (snd (IsLocked env w)) = w_addrVersion w.
Proof.
  unfold IsLocked. destruct (negb _); [done|]. destruct (lk_locked _); [done|].
  destruct (lk_unlockUntil _); [|done]. by destruct (_ >? _).
Qed.

Lemma DumpPrivKey_Ok `{WO : WalletOps} env a w s w' :
  DumpPrivKey env a w = (Ok s, w') ->
  exists dk, GetKeyForAddress a w = Some dk /\ s = EncodeWIF (priv_Serialize (dk_PrivKey dk)) (w_addrVersion w).
Proof.
  intros H. pose proof (IsLocked_keys env w) as [Hk Hv].
  unfold DumpPrivKey, sbind at 1 in H. pose proof (RequireUnlocked_locked env w) as E.
  destruct (RequireUnlocked env w) as [[[]|] w1]; [|done]. simpl in E. subst w1.
  unfold sbind, sget in H. rewrite Hk, Hv in H. unfold GetKeyForAddress.
  destruct (kr_keysByAddress (w_keys w) !! a) as [dk|]; [|done]. injection H as <- _. eauto.
Qed.

Lemma ImportPrivKey_spec `{WO : WalletOps} ver s k priv v :
  ring_inv ver v -> parse_privkey s = Ok k -> PrivKeyFromBytes k = Ok priv ->
  let h := PubKeyHash (SerializeCompressed (PubKey priv)) in
  exists v' dk, ImportPrivKey s v = (Ok (PubKeyHashToAddress h ver), v')
    /\ GetKeyForAddress (PubKeyHashToAddress h ver) v' = Some dk /\ dk_PubKeyHash dk = h /\ key_ok dk
    /\ w_file v' = w_file v /\ IsEncrypted v' = IsEncrypted v
    /\ forall b, is_Some (GetKeyForAddress b v) -> is_Some (GetKeyForAddress b v').
Proof.
  intros [Hv Hr] Hs Hp h. unfold ImportPrivKey, sbind, slift. rewrite Hs. cbn [rwrap]. rewrite Hp. cbn [rwrap sget].
  fold h. rewrite Hv. destruct (kr_keysByHash (w_keys v) !! h) as [dk|] eqn:E.
  - apply (ro_hash _ _ Hr) in E as [Hin Hh]. pose proof (ro_addr_in _ _ Hr _ Hin) as [dk' Hd]. rewrite Hh in Hd.
    exists v, dk'. pose proof (ro_addr _ _ Hr _ _ Hd) as [Hin' Ha]. pose proof (ro_keys _ _ Hr) as Hk.
    rewrite Forall_forall in Hk. split_and!; try done; [|by apply Hk]. by apply PubKeyHashToAddress_inj in Ha.
  - eexists _, _. split; [reflexivity|]. unfold GetKeyForAddress. cbn. rewrite Hv, lookup_insert_eq.
    split; [reflexivity|]. split_and!; try done. intros b Hb. rewrite lookup_insert. by case_decide.
Qed.

(** C27. The maps of every wallet that occurs, whatever its disk did and whatever was imported,
    are well formed: an address leads only to a key of the wallet whose private key makes
    that address, every listed address leads to a key, and a script is the wallet's
    exactly when it pays to the hash of one of its keys. *)
Theorem wallet_maps_wellformed `{WO : WalletOps} {EL : ECLaws EC} env ver w :
  wallet_reachable env ver w ->
  (forall a dk, GetKeyForAddress a w = Some dk -> dk ∈ all_keys (w_keys w)
     /\ PubKeyHashToAddress (PubKeyHash (SerializeCompressed (PubKey (dk_PrivKey dk)))) ver = a)
  /\ (forall a, a ∈ AllAddresses w -> is_Some (GetKeyForAddress a w))
  /\ (forall pk, IsOurScript pk w = true <-> exists dk, dk ∈ all_keys (w_keys w)
     /\ pk = MakeP2PKHScriptFromPubKey (SerializeCompressed (PubKey (dk_PrivKey dk)))).
Proof.
  intros Hw. apply wallet_reachable_ring in Hw as [Hv R]. pose proof (ro_keys _ _ R) as Hk. rewrite Forall_forall in Hk.
  split_and!.
  - intros a dk Ha. apply (ro_addr _ _ R) in Ha as [Hin Ha]. destruct (Hk _ Hin) as [Hp Hh].
    split; [exact Hin|]. by rewrite <- Hp, <- Hh.
  - intros a. unfold AllAddresses. rewrite <- map_app. change @map with @list_fmap. rewrite list_elem_of_fmap.
    intros (dk & -> & Hin). unfold key_address, GetKeyForAddress. rewrite Hv. by apply (ro_addr_in _ _ R).
  - intros pk. unfold IsOurScript. split.
    + destruct (ExtractP2PKHHash pk) as [h|] eqn:Hh; [|done]. apply ExtractP2PKHHash_Some in Hh as [_ ->].
      intros H. apply bool_decide_eq_true in H as [dk Hd]. apply (ro_hash _ _ R) in Hd as [Hin <-].
      exists dk. destruct (Hk _ Hin) as [<- Hh]. split; [exact Hin|]. unfold MakeP2PKHScriptFromPubKey. by rewrite Hh.
    + intros (dk & Hin & ->). destruct (Hk _ Hin) as [<- Hh]. unfold MakeP2PKHScriptFromPubKey.
      rewrite (proj2 (p2pkh_script_exact [])) by apply length_Hash160. apply bool_decide_eq_true.
      rewrite <- Hh. by apply (ro_hash_in _ _ R).
Qed.

(** Keys can be moved: what [DumpPrivKey] prints for an address of any wallet that
    occurs (whatever its disk did, and whatever was imported), [ImportPrivKey] accepts in
    any other wallet of the network; the other wallet then answers with the same address,
    finds the key under it, and has lost none of its own keys. *)
Theorem dump_import `{WL : WalletLaws} env env' ver a w s w1 v :
  wallet_reachable env ver w -> wallet_reachable env' ver v ->
  DumpPrivKey env a w = (Ok s, w1) ->
  exists v' dk, ImportPrivKey s v = (Ok a, v') /\ GetKeyForAddress a v' = Some dk
    /\ PubKeyHashToAddress (PubKeyHash (SerializeCompressed (PubKey (dk_PrivKey dk)))) ver = a
    /\ forall b, is_Some (GetKeyForAddress b v) -> is_Some (GetKeyForAddress b v').
Proof.
  intros Hw Hv H. apply wallet_reachable_ring in Hw as [Ew Rw], Hv as Rv.
  apply DumpPrivKey_Ok in H as (dk & Ha & ->). rewrite Ew.
  apply (ro_addr _ _ Rw) in Ha as [Hin Ha]. pose proof (ro_keys _ _ Rw) as Hk. rewrite Forall_forall in Hk.
  destruct (Hk _ Hin) as [Hp Hh]. rewrite Hh, Hp in Ha. clear Hk.
  destruct (ImportPrivKey_spec ver (EncodeWIF (priv_Serialize (dk_PrivKey dk)) ver) (priv_Serialize (dk_PrivKey dk))
    (dk_PrivKey dk) v Rv) as (v' & dk' & H1 & H2 & H3 & [H4 H5] & _ & _ & H6).
  - unfold parse_privkey. by rewrite DecodeWIF_EncodeWIF by apply priv_size.
  - unfold PrivKeyFromBytes. rewrite (priv_size (dk_PrivKey dk)), (priv_bytes (dk_PrivKey dk)). reflexivity.
  - rewrite Ha in H1, H2. exists v', dk'. split; [exact H1|]. split; [exact H2|]. split; [|exact H6].
    rewrite <- H4, <- H5, H3. exact Ha.
Qed.

Lemma NewHDWallet_missing `{WO : WalletOps} env n ver :
  we_read_fails env n = false -> NewHDWallet env Missing n ver = createNew env [] (blank Missing (S n) ver).
Proof. intros H. unfold NewHDWallet, ReadFile. cbn [blank w_tick w_file]. by rewrite H. Qed.

Lemma toy_reachable0 : wallet_reachable toy_env Byte.x00 toy_w0.
Proof. apply (wr_new toy_env Byte.x00 Missing 0). rewrite NewHDWallet_missing by exact eq_refl. exact toy_started. Qed.

Lemma run_reachable `{WO : WalletOps} env ver ops : forall w,
  wallet_reachable env ver w -> wallet_reachable env ver (wallet_run env ops w).
Proof. induction ops as [|o ops IH]; intros w Hw; [exact Hw|]. apply IH. by apply wr_step. Qed.

Lemma wallet_maps_wellformed_witness : is_Some (GetKeyForAddress (GetDefaultAddress toy_w0) toy_w0).
Proof.
  destruct (wallet_maps_wellformed (EL := toy_ec_laws) toy_env Byte.x00 toy_w0) as (_ & H & _).
  - exact toy_reachable0.
  - apply H. apply (bool_decide_unpack _). vm_compute. exact I.
Defined.

Definition toy_address (w : HDWallet) : list byte := List.last (AllAddresses w) [].

Definition toy_dump (w : HDWallet) : list byte :=
  match fst (DumpPrivKey toy_env (toy_address w) w) with Ok s => s | Err _ => [] end.
Lemma fst_get {S E A} (r : result E A * S) d :
  (match fst r with Ok _ => true | Err _ => false end) = true ->
  r = (Ok (match fst r with Ok s => s | Err _ => d end), snd r).
Proof. by destruct r as [[]]. Qed.

Lemma dump_import_witness :
  let w := wallet_run toy_env [OpNewAddress] toy_w0 in
  exists v' dk, ImportPrivKey (toy_dump w) toy_w0 = (Ok (toy_address w), v')
    /\ GetKeyForAddress (toy_address w) v' = Some dk.
Proof.
  intros w.
  destruct (dump_import toy_env toy_env Byte.x00 (toy_address w) w (toy_dump w)
    (snd (DumpPrivKey toy_env (toy_address w) w)) toy_w0) as (v' & dk & H1 & H2 & _).
  - exact (run_reachable toy_env Byte.x00 [OpNewAddress] toy_w0 toy_reachable0).
  - exact toy_reachable0.
  - assert ((match fst (DumpPrivKey toy_env (toy_address w) w) with Ok _ => true | Err _ => false end) = true) as E
      by (vm_compute; reflexivity).
    unfold toy_dump. exact (fst_get (DumpPrivKey toy_env (toy_address w) w) [] E).
  - exists v', dk. split; [exact H1|exact H2].
Defined.

Lemma signed_inputs_all l : (Z.of_nat (signed_inputs l) =? len l) = forallb (fun ti => negb (bool_decide (in_SignatureScript ti = []))) l.
Proof.
  assert (forall k, (signed_inputs k <= length k)%nat) as Hle by (intros k; apply length_filter).
  induction l as [|ti l IH]; [done|]. rewrite signed_inputs_cons. cbn [forallb length]. specialize (Hle l).
  case_bool_decide; cbn [negb andb].
  - apply Z.eqb_neq. lia.
  - rewrite <- IH. destruct (Z.eqb_spec (Z.of_nat (signed_inputs l)) (len l)); [apply Z.eqb_eq|apply Z.eqb_neq]; lia.
Qed.

(** [SignRawTransaction] signs what it can and says so truthfully: on an unlocked wallet
    it succeeds, changes nothing but empty input scripts, gives every input that spends
    a known output of the wallet a script that the script engine accepts for the final
    transaction, and leaves the others empty; its count is the number of inputs with a
    script, and [complete] holds exactly when no script is empty. *)
Theorem signed_inputs_verify `{WO : WalletOps} {EL : ECLaws EC} env ver prev tx w w1 :
  wallet_reachable env ver w -> RequireUnlocked env w = (Ok tt, w1) ->
  exists tx', SignRawTransaction env tx prev w
      = (Ok (Z.of_nat (signed_inputs (tx_Inputs tx')),
             forallb (fun ti => negb (bool_decide (in_SignatureScript ti = []))) (tx_Inputs tx')), tx', w1)
    /\ rescripted tx tx'
    /\ forall i ti ti', tx_Inputs tx !! i = Some ti -> tx_Inputs tx' !! i = Some ti' ->
         input_outcome prev w tx' i ti ti'.
Proof.
  intros Hw Hu. apply wallet_reachable_ring in Hw.
  pose proof (RequireUnlocked_locked env w) as E. rewrite Hu in E. cbn [snd] in E.
  pose proof (IsLocked_keys env w) as [Hk Hv]. rewrite <- E in Hk, Hv.
  assert (ring_inv ver w1) as Hw1 by (by eapply ring_inv_same).
  destruct (sign_raw_spec ver prev w1 Hw1 (length (tx_Inputs tx)) 0 tx 0) as (tx' & Hs & R & _ & O); [done|].
  exists tx'. split; [|split; [exact R|]].
  - unfold SignRawTransaction. rewrite Hu, Hs, drop_0, Z.add_0_l.
    rewrite <- (rescripted_length tx tx' R). by rewrite signed_inputs_all.
  - intros i ti ti' H1 H2. specialize (O i ti ti' ltac:(lia) H1 H2 tx' R).
    unfold input_outcome, IsOurScript in *. by rewrite Hk in O.
Qed.

Definition toy_script : list byte := match GetDefaultP2PKHScript toy_w0 with Some s => s | None => [] end.
Lemma signed_inputs_verify_witness :
  exists tx', SignRawTransaction toy_env example_tx (fun _ _ => Some toy_script) toy_w0
    = (Ok (Z.of_nat (signed_inputs (tx_Inputs tx')),
           forallb (fun ti => negb (bool_decide (in_SignatureScript ti = []))) (tx_Inputs tx')), tx', toy_w0).
Proof.
  destruct (signed_inputs_verify (EL := toy_ec_laws) toy_env Byte.x00 (fun _ _ => Some toy_script) example_tx toy_w0 toy_w0)
    as (tx' & H & _).
  - exact toy_reachable0.
  - unfold RequireUnlocked, sbind, sget. replace (IsEncrypted toy_w0) with false by (vm_compute; reflexivity). reflexivity.
  - exists tx'. exact H.
Defined.

(** Imported keys are not in the file: after [ImportPrivKey] of a key that is not the
    wallet's own the address is the wallet's, but once the node has been started again
    it is not, so the coins paid to it cannot be spent any more. *)
Theorem imported_key_lost `{WL : WalletLaws} env mn f0 n0 ver w0 ops s a w1 :
  reliable env -> mn = [] \/ Forall plain mn ->
  createNew env mn (blank f0 n0 ver) = (Ok tt, w0) -> len ops < 2^31 ->
  let w := wallet_run env ops w0 in
  NoDup (map dk_PubKeyHash (all_keys (w_keys w))) ->
  ImportPrivKey s w = (Ok a, w1) -> GetKeyForAddress a w = None ->
  is_Some (GetKeyForAddress a w1)
  /\ forall n, exists pass w2, reopen env (w_file w1) n ver pass = (Ok tt, w2)
     /\ GetKeyForAddress a w2 = None.
Proof.
  intros He Hmn Hc Hops w Hn Hi Ha.
  destruct (createNew_start env mn f0 n0 ver w0 Hmn Hc) as (m & f' & n' & Hval & Hpl & _ & Hs).
  destruct (start_ok env He m f' n' ver w0 Hs) as (H0 & Hi0 & Hv & _).
  destruct (wallet_run_ok env m ops [] w0 He Hval Hpl H0) as [H Hv']; [lia|]. fold w in H, Hv'.
  assert (ring_inv ver w) as Hr by (split; [congruence|]; rewrite <- Hv, <- Hv'; apply (wo_ring _ _ _ H)).
  assert (exists k priv, parse_privkey s = Ok k /\ PrivKeyFromBytes k = Ok priv) as (k & priv & Hp & Hk).
  { unfold ImportPrivKey, sbind, slift in Hi. destruct (parse_privkey s) as [k|]; [|done]. cbn [rwrap] in Hi.
    destruct (PrivKeyFromBytes k) as [priv|] eqn:E; [|done]. eauto. }
  destruct (ImportPrivKey_spec ver s k priv w Hr Hp Hk) as (v' & dk & Hi' & Hg & _ & _ & Hf & He' & _).
  rewrite Hi' in Hi. injection Hi as <- <-. split; [by eexists|]. intros n.
  destruct (reopen_ok env He m _ w n H Hn) as (pass & w2 & _ & Hre & Hkeys & _).
  rewrite Hv', Hv in Hre. exists pass, w2. rewrite Hf. split; [exact Hre|].
    unfold GetKeyForAddress in *. rewrite Hkeys. exact Ha.
Qed.

(** The key 9, in WIF, is not one of the toy wallet's. *)
Definition toy_foreign : list byte := EncodeWIF (Byte.x09 :: replicate 31 Byte.x00) Byte.x00.
Abbreviation toy_imported := (ImportPrivKey toy_foreign (wallet_run toy_env [OpNewAddress] toy_w0)).
Definition toy_foreign_address : list byte := PubKeyHashToAddress (PubKeyHash (replicate 33 Byte.x09)) Byte.x00.

Lemma imported_key_lost_witness :
  is_Some (GetKeyForAddress toy_foreign_address (snd toy_imported))
  /\ exists pass w2, reopen toy_env (w_file (snd toy_imported)) 50 Byte.x00 pass = (Ok tt, w2)
     /\ GetKeyForAddress toy_foreign_address w2 = None.
Proof.
  destruct (imported_key_lost toy_env [] Missing 1 Byte.x00 toy_w0 [OpNewAddress] toy_foreign toy_foreign_address (snd toy_imported))
    as [H1 H2].
  - exact toy_reliable.
  - left. reflexivity.
  - exact toy_started.
  - apply Z.ltb_lt. vm_compute. reflexivity.
  - apply (bool_decide_unpack _). vm_compute. exact I.
  - apply fst_ok. vm_compute. reflexivity.
  - vm_compute. reflexivity.
  - split; [exact H1|exact (H2 50%nat)].
Defined.

(** The mnemonic does not come back: locking clears it and overwrites the seed with
    zeros, but unlocking loads them only when the seed is empty, so an unlocked wallet
    that was locked before answers [Mnemonic] with the empty string. *)
Theorem mnemonic_lost_after_relock `{WO : WalletOps} env pass w w1 w2 :
  w_seed w <> [] -> WalletLock w = (Ok tt, w1) -> WalletPassphrase env pass 0 w1 = (Ok tt, w2) ->
  RequireUnlocked env w2 = (Ok tt, w2) /\ Mnemonic env w2 = (Ok [], w2).
Proof.
  intros Hs Hl. unfold WalletLock, sbind, sget in Hl. destruct (lk_encrypted (w_lock w)) eqn:He; [|done].
  cbn [negb smod] in Hl. injection Hl as <-. unfold WalletPassphrase, sbind at 1, sget. cbn [wipe set_lock set_secret w_lock lk_encrypted].
  rewrite He. cbn [negb]. unfold sbind at 1. destruct (ReadFile env _) as [[f|] w3] eqn:E; [|done].
  assert (w_mnemonic w3 = [] /\ lk_encrypted (w_lock w3) = true) as [Hm3 He3].
  { unfold ReadFile in E. destruct (we_read_fails _ _); [done|].
    destruct (w_file _); [done|..]; injection E as _ <-; by split. }
  unfold sbind at 1, slift. destruct (rwrap _ _) as [wd|]; [|done]. unfold sbind at 1.
  destruct (rwrap _ (open_file wd pass)) as [[[m hx] key]|]; [|done]. cbn [wipe w_seed set_lock set_secret]. rewrite length_replicate.
  destruct (Nat.eqb_spec (length (w_seed w)) 0) as [H0|_]; [by destruct (w_seed w)|].
  intros [= <-]. unfold RequireUnlocked, Mnemonic, IsLocked, IsEncrypted, sbind, sget. cbn. rewrite He3. cbn. by rewrite Hm3.
Qed.

Lemma mnemonic_lost_after_relock_witness :
  let w := wallet_run toy_env [OpEncrypt (bytes_of_string "secret")] toy_w0 in
  let r1 := WalletLock w in let r2 := WalletPassphrase toy_env (bytes_of_string "secret") 0 (snd r1) in
  Mnemonic toy_env (snd r2) = (Ok [], snd r2).
Proof.
  intros w r1 r2.
  assert (w_seed w <> []) as H0 by (apply (bool_decide_unpack _); vm_compute; exact I).
  assert (fst r1 = Ok tt) as H1 by (vm_compute; reflexivity).
  assert (fst r2 = Ok tt) as H2 by (vm_compute; reflexivity).
  exact (proj2 (mnemonic_lost_after_relock toy_env (bytes_of_string "secret") w (snd r1) (snd r2)
    H0 (fst_ok r1 tt H1) (fst_ok r2 tt H2))).
Defined.
