(* ===== verification/TxValidation.v ===== *)
(** * Transaction validation against the unspent outputs

    Models [src/internal/consensus/txvalidation.go].  [valid_spend] is the declarative
    rule for one transaction and [valid_block_txs] the rule for the transactions of a
    block; the two validators are shown to accept exactly what the rules allow. *)
From S2P Require Import Prelude Types Sha256 Crypto Target Params Script Utxo.

Inductive TxErr :=
| CoinbaseZeroValue (outIdx : Z)
| NoInputs (txIdx : Z) | NoOutputs (txIdx : Z)
| DupInput (tx : Hash) (inIdx : Z) (o : OutPoint)
| DoubleSpendInBlock (tx : Hash) (inIdx : Z) (o : OutPoint)
| MissingInput (tx : Hash) (inIdx : Z) (o : OutPoint)
| CoinbaseFromFuture (tx : Hash) (inIdx : Z)
| NotMature (tx : Hash) (inIdx : Z) (need have : Z)
| InputOverflow (tx : Hash) (inIdx : Z)
| ZeroValue (tx : Hash) (outIdx : Z)
| AboveMaxMoney (tx : Hash) (outIdx : Z) (v : Z)
| OutputOverflow (tx : Hash) (outIdx : Z)
| InsufficientInput (tx : Hash) (totalIn totalOut : Z)
| ScriptFailed (tx : Hash) (inIdx : Z) (e : ScriptErr)
| FeesOverflow (txIdx : Z)
| SubsidyOverflow (subsidy fees : Z)
| CoinbaseOverflow (outIdx : Z)
| CoinbaseTooLarge (v max : Z)
| IndexPanic                                  (** [block.Transactions[0]] of an empty block *)
| CoinbaseNotAllowed.

Section txvalidation.
Context `{EC : ECOps}.

(** ** Operations *)

(** The maturity and overflow checks of the input loop: the new [totalIn]. *)
Definition check_entry (p : ChainParams) (height : Z) (txHash : Hash) (inIdx totalIn : Z)
    (entry : UtxoEntry) : result TxErr Z :=
  let* _ :=
    if ue_IsCoinbase entry then
      check height <? ue_Height entry else CoinbaseFromFuture txHash inIdx;
      let maturityDepth := sub32 height (ue_Height entry) in
      check maturityDepth <? p_CoinbaseMaturity p
        else NotMature txHash inIdx (p_CoinbaseMaturity p) maturityDepth;
      Ok tt
    else Ok tt in
  check add64 totalIn (ue_Value entry) <? totalIn else InputOverflow txHash inIdx;
  Ok (add64 totalIn (ue_Value entry)).

(** One input in [ValidateTransactionInputs]: the state is [totalIn], [seenInputs] and
    [spentInBlock]. *)
Definition block_input (s : UtxoSet) (height : Z) (p : ChainParams) (txHash : Hash)
    (acc : Z * gset outpoint_key * gset outpoint_key) (inIdx : Z) (ti : TxInput)
  : result TxErr (Z * gset outpoint_key * gset outpoint_key) :=
  let '(totalIn, seenInputs, spentInBlock) := acc in
  let prev := in_PreviousOutPoint ti in
  let opKey := op_key prev in
  check bool_decide (opKey ∈ seenInputs) else DupInput txHash inIdx prev;
  let seenInputs := {[opKey]} ∪ seenInputs in
  check bool_decide (opKey ∈ spentInBlock) else DoubleSpendInBlock txHash inIdx prev;
  match Get s (op_Hash prev) (op_Index prev) with
  | None => Err (MissingInput txHash inIdx prev)
  | Some entry =>
      let* totalIn := check_entry p height txHash inIdx totalIn entry in
      Ok (totalIn, seenInputs, {[opKey]} ∪ spentInBlock)
  end.

(** One output: the new [totalOut]. *)
Definition check_output (txHash : Hash) (totalOut outIdx : Z) (out : TxOutput) : result TxErr Z :=
  check out_Value out =? 0 else ZeroValue txHash outIdx;
  check out_Value out >? MaxMoneyValue else AboveMaxMoney txHash outIdx (out_Value out);
  check add64 totalOut (out_Value out) <? totalOut else OutputOverflow txHash outIdx;
  Ok (add64 totalOut (out_Value out)).

(** The script loop over the inputs. *)
Definition verify_input (s : UtxoSet) (tx : Transaction) (_ : unit) (inIdx : Z) (ti : TxInput)
  : result TxErr unit :=
  let prev := in_PreviousOutPoint ti in
  match Get s (op_Hash prev) (op_Index prev) with
  | None => Ok tt
  | Some entry =>
      if IsLegacyUnvalidatedScript (ue_PkScript entry) then Ok tt
      else rwrap (ScriptFailed (HashTransaction tx) inIdx)
             (Verify (in_SignatureScript ti) (ue_PkScript entry) tx inIdx)
  end.

Definition coinbase_output (_ : unit) (outIdx : Z) (out : TxOutput) : result TxErr unit :=
  check out_Value out =? 0 else CoinbaseZeroValue outIdx; Ok tt.

(** One iteration of the transaction loop: the state is [totalFees] and [spentInBlock]. *)
Definition validate_block_tx (s : UtxoSet) (height : Z) (p : ChainParams)
    (acc : Z * gset outpoint_key) (txIdx : Z) (tx : Transaction)
  : result TxErr (Z * gset outpoint_key) :=
  let '(totalFees, spentInBlock) := acc in
  if tx_IsCoinbase tx then
    let* _ := foldMi coinbase_output 0 tt (tx_Outputs tx) in
    Ok (totalFees, spentInBlock)
  else
    check len (tx_Inputs tx) =? 0 else NoInputs txIdx;
    check len (tx_Outputs tx) =? 0 else NoOutputs txIdx;
    let txHash := HashTransaction tx in
    let* (totalIn, _, spentInBlock) :=
      foldMi (block_input s height p txHash) 0 (0, ∅, spentInBlock) (tx_Inputs tx) in
    let* totalOut := foldMi (check_output txHash) 0 0 (tx_Outputs tx) in
    check totalIn <? totalOut else InsufficientInput txHash totalIn totalOut;
    let* _ := foldMi (verify_input s tx) 0 tt (tx_Inputs tx) in
    let fee := sub64 totalIn totalOut in
    check add64 totalFees fee <? totalFees else FeesOverflow txIdx;
    Ok (add64 totalFees fee, spentInBlock).

Definition coinbase_sum (coinbaseValue outIdx : Z) (out : TxOutput) : result TxErr Z :=
  check add64 coinbaseValue (out_Value out) <? coinbaseValue else CoinbaseOverflow outIdx;
  Ok (add64 coinbaseValue (out_Value out)).

Definition ValidateTransactionInputs (block : Block) (s : UtxoSet) (height : Z) (p : ChainParams)
  : result TxErr Z :=
  let* (totalFees, _) := foldMi (validate_block_tx s height p) 0 (0, ∅) (blk_Transactions block) in
  let subsidy := CalcSubsidy p height in
  let maxCoinbase := add64 subsidy totalFees in
  check maxCoinbase <? subsidy else SubsidyOverflow subsidy totalFees;
  match blk_Transactions block with
  | [] => Err IndexPanic
  | coinbase :: _ =>
      let* coinbaseValue := foldMi coinbase_sum 0 0 (tx_Outputs coinbase) in
      check coinbaseValue >? maxCoinbase else CoinbaseTooLarge coinbaseValue maxCoinbase;
      Ok totalFees
  end.

(** One input in [ValidateSingleTransaction]: the state is [totalIn] and [seenInputs]. *)
Definition single_input (s : UtxoSet) (spendHeight : Z) (p : ChainParams) (txHash : Hash)
    (acc : Z * gset outpoint_key) (inIdx : Z) (ti : TxInput)
  : result TxErr (Z * gset outpoint_key) :=
  let '(totalIn, seenInputs) := acc in
  let prev := in_PreviousOutPoint ti in
  let opKey := op_key prev in
  check bool_decide (opKey ∈ seenInputs) else DupInput txHash inIdx prev;
  let seenInputs := {[opKey]} ∪ seenInputs in
  match Get s (op_Hash prev) (op_Index prev) with
  | None => Err (MissingInput txHash inIdx prev)
  | Some entry =>
      let* totalIn := check_entry p spendHeight txHash inIdx totalIn entry in
      Ok (totalIn, seenInputs)
  end.

Definition ValidateSingleTransaction (tx : Transaction) (s : UtxoSet) (tipHeight : Z) (p : ChainParams)
  : result TxErr Z :=
  check tx_IsCoinbase tx else CoinbaseNotAllowed;
  check len (tx_Inputs tx) =? 0 else NoInputs 0;
  check len (tx_Outputs tx) =? 0 else NoOutputs 0;
  let txHash := HashTransaction tx in
  let spendHeight := add32 tipHeight 1 in
  let* (totalIn, _) := foldMi (single_input s spendHeight p txHash) 0 (0, ∅) (tx_Inputs tx) in
  let* totalOut := foldMi (check_output txHash) 0 0 (tx_Outputs tx) in
  check totalIn <? totalOut else InsufficientInput txHash totalIn totalOut;
  let* _ := foldMi (verify_input s tx) 0 tt (tx_Inputs tx) in
  Ok (sub64 totalIn totalOut).

(** [CalcTxFee]: [None] is the early [return 0] on overflow. *)
Definition fee_in (s : UtxoSet) (acc : option Z) (ti : TxInput) : option Z :=
  match acc with
  | None => None
  | Some totalIn =>
      match Get s (op_Hash (in_PreviousOutPoint ti)) (op_Index (in_PreviousOutPoint ti)) with
      | None => Some totalIn
      | Some entry =>
          let t := add64 totalIn (ue_Value entry) in
          if t <? totalIn then None else Some t
      end
  end.
Definition fee_out (acc : option Z) (out : TxOutput) : option Z :=
  match acc with
  | None => None
  | Some totalOut =>
      let t := add64 totalOut (out_Value out) in
      if t <? totalOut then None else Some t
  end.
Definition CalcTxFee (tx : Transaction) (s : UtxoSet) : Z :=
  if tx_IsCoinbase tx then 0
  else
    match fold_left (fee_in s) (tx_Inputs tx) (Some 0) with
    | None => 0
    | Some totalIn =>
        match fold_left fee_out (tx_Outputs tx) (Some 0) with
        | None => 0
        | Some totalOut =>
            if totalIn <=? totalOut then 0 else sub64 totalIn totalOut
        end
    end.

(** ** Rules *)

Definition in_key (ti : TxInput) : outpoint_key := op_key (in_PreviousOutPoint ti).
Definition mature (p : ChainParams) (height : Z) (e : UtxoEntry) : Prop :=
  ue_IsCoinbase e = true -> ue_Height e <= height /\ p_CoinbaseMaturity p <= height - ue_Height e.
Definition in_value (s : UtxoSet) (ti : TxInput) : Z := from_option ue_Value 0 (s !! in_key ti).
Definition tx_in (s : UtxoSet) (tx : Transaction) : Z := sumZ (map (in_value s) (tx_Inputs tx)).
Definition tx_out (tx : Transaction) : Z := sumZ (map out_Value (tx_Outputs tx)).

(** The rule for one transaction spending from [s] at [height], paying [fee]. *)
Record valid_spend (s : UtxoSet) (height : Z) (p : ChainParams) (tx : Transaction) (fee : Z) : Prop := {
  vs_not_coinbase : tx_IsCoinbase tx = false;
  vs_inputs : tx_Inputs tx <> [];
  vs_outputs : tx_Outputs tx <> [];
  vs_distinct : NoDup (map in_key (tx_Inputs tx));
  vs_unspent : Forall (fun ti => exists e, s !! in_key ti = Some e /\ mature p height e) (tx_Inputs tx);
  vs_values : Forall (fun o => 0 < out_Value o <= MaxMoneyValue) (tx_Outputs tx);
  vs_fits : tx_in s tx < 2^64;
  vs_covered : tx_out tx <= tx_in s tx;
  vs_scripts : forall i ti e, tx_Inputs tx !! i = Some ti -> s !! in_key ti = Some e ->
    Verify (in_SignatureScript ti) (ue_PkScript e) tx (Z.of_nat i) = Ok tt;
  vs_fee : fee = tx_in s tx - tx_out tx }.

(** The rule for the transactions of a block. *)
Record valid_block_txs (s : UtxoSet) (height : Z) (p : ChainParams) (txs : list Transaction)
    (fees : Z) : Prop := {
  vb_spends : Forall (fun tx => tx_IsCoinbase tx = true /\ Forall (fun o => out_Value o <> 0) (tx_Outputs tx)
                      \/ exists fee, valid_spend s height p tx fee) txs;
  vb_distinct : NoDup (spends txs);
  vb_fees : fees = sumZ (map (fun tx => if tx_IsCoinbase tx then 0 else tx_in s tx - tx_out tx) txs);
  vb_fits : CalcSubsidy p height + fees < 2^64;
  vb_coinbase : exists cb rest, txs = cb :: rest /\ tx_out cb < 2^64
                  /\ tx_out cb <= CalcSubsidy p height + fees }.
End txvalidation.

(** ** The loops, exactly *)

Section loops.
Context `{EC : ECOps}.
Context (s : UtxoSet) (height : Z) (p : ChainParams) (h : Hash).
Context (Hs : wf_utxo s) (Hh : is_u32 height).

Lemma check_entry_Ok e i t t' :
  is_u64 t -> wf_entry e ->
  check_entry p height h i t e = Ok t'
  <-> mature p height e /\ t' = t + ue_Value e /\ t + ue_Value e < 2^64.
Proof.
  intros Ht [Hv He]. unfold check_entry, mature. destruct (ue_IsCoinbase e).
  - destruct (Z.ltb_spec height (ue_Height e)); cbn [rbind].
    { split; [done|]. intros [Hm _]. specialize (Hm eq_refl). lia. }
    rewrite sub32_ge by done.
    destruct (Z.ltb_spec (height - ue_Height e) (p_CoinbaseMaturity p)); cbn [rbind].
    { split; [done|]. intros [Hm _]. specialize (Hm eq_refl). lia. }
    rewrite add64_step by done. split; [intros [-> ?]; done|by intros [_ ?]].
  - cbn [rbind]. rewrite add64_step by done. split; [by intros [-> ?]|by intros [_ ?]].
Qed.

Lemma in_value_nonneg l : 0 <= sumZ (map (in_value s) l).
Proof.
  apply sumZ_nonneg, Forall_map, Forall_forall. intros ti _. unfold in_value.
  destruct (s !! in_key ti) as [e|] eqn:E; simpl; [|lia].
  destruct (Hs _ _ E) as [Hv _]. unfold is_u64 in Hv. lia.
Qed.

(** What the input loops require of the inputs, starting from [t] with [seen] excluded. *)
Definition inputs_ok (ins : list TxInput) (t : Z) (seen : gset outpoint_key) : Prop :=
  Forall (fun ti => exists e, s !! in_key ti = Some e /\ mature p height e) ins
  /\ NoDup (map in_key ins)
  /\ Forall (fun k => k ∉ seen) (map in_key ins)
  /\ t + sumZ (map (in_value s) ins) < 2^64.

Lemma inputs_ok_cons ti ins t seen e :
  s !! in_key ti = Some e -> is_u64 t ->
  inputs_ok (ti :: ins) t seen <->
  in_key ti ∉ seen /\ mature p height e /\ t + ue_Value e < 2^64
  /\ inputs_ok ins (t + ue_Value e) ({[in_key ti]} ∪ seen).
Proof.
  intros He Ht. unfold inputs_ok. cbn [map sumZ]. rewrite !Forall_cons, NoDup_cons.
  assert (in_value s ti = ue_Value e) as -> by (unfold in_value; by rewrite He).
  pose proof (in_value_nonneg ins). rewrite Z.add_assoc.
  assert ((exists e0, s !! in_key ti = Some e0 /\ mature p height e0) <-> mature p height e) as ->
    by (split; [intros (? & ? & ?); by simplify_eq|eauto]).
  assert (Forall (fun k => k ∉ {[in_key ti]} ∪ seen) (map in_key ins)
    <-> in_key ti ∉ map in_key ins /\ Forall (fun k => k ∉ seen) (map in_key ins)) as ->.
  { rewrite !Forall_forall. set_solver. }
  intuition lia.
Qed.

Lemma block_inputs_Ok ins i t seen spent r :
  is_u64 t ->
  foldMi (block_input s height p h) i (t, seen, spent) ins = Ok r
  <-> inputs_ok ins t (seen ∪ spent)
      /\ r = (t + sumZ (map (in_value s) ins), list_to_set (map in_key ins) ∪ seen,
              list_to_set (map in_key ins) ∪ spent).
Proof.
  revert i t seen spent. induction ins as [|ti ins IH]; intros i t seen spent Ht.
  - simpl. unfold inputs_ok, is_u64 in *; simpl. rewrite Z.add_0_r, !union_empty_l_L.
    split; [intros [= <-]; repeat split; (constructor || lia || done)|by intros [_ ->]].
  - cbn [foldMi]. unfold block_input at 1. fold (in_key ti).
    change (Get s _ _) with (s !! in_key ti).
    destruct (s !! in_key ti) as [e|] eqn:He.
    2:{ split; [intros H; repeat case_bool_decide; done|].
        intros [(Hf & _) _]. apply Forall_cons in Hf as [(e & He' & _) _]. congruence. }
    rewrite (inputs_ok_cons ti ins t _ e) by done.
    destruct (decide (in_key ti ∈ seen)).
    { rewrite bool_decide_true by done. cbn [rbind]. split; [done|]. intros [[? _] _]. set_solver. }
    destruct (decide (in_key ti ∈ spent)).
    { rewrite bool_decide_false, bool_decide_true by done. cbn [rbind]. split; [done|].
      intros [[? _] _]. set_solver. }
    rewrite !bool_decide_false by done.
    assert (wf_entry e) as Hwe by (by apply (Hs (in_key ti))).
    destruct (check_entry p height h i t e) as [t1|err] eqn:Hc; cbn [rbind].
    + apply check_entry_Ok in Hc as (Hm & -> & Hlt); [|done|done].
      rewrite IH by (destruct Hwe; unfold is_u64 in *; lia).
      replace ({[in_key ti]} ∪ seen ∪ ({[in_key ti]} ∪ spent)) with ({[in_key ti]} ∪ (seen ∪ spent))
        by set_solver.
      cbn [map sumZ]. rewrite !list_to_set_cons.
      assert (in_value s ti = ue_Value e) as -> by (unfold in_value; by rewrite He).
      rewrite !Z.add_assoc.
      replace (list_to_set (map in_key ins) ∪ ({[in_key ti]} ∪ seen))
        with ({[in_key ti]} ∪ list_to_set (map in_key ins) ∪ seen) by set_solver.
      replace (list_to_set (map in_key ins) ∪ ({[in_key ti]} ∪ spent))
        with ({[in_key ti]} ∪ list_to_set (map in_key ins) ∪ spent) by set_solver.
      set_solver.
    + split; [done|]. intros [(_ & Hm & Hlt & _) _].
      assert (check_entry p height h i t e = Ok (t + ue_Value e)) as Hc'
        by (by apply check_entry_Ok). congruence.
Qed.

(** Without a block to consider, the input loop is the same with [spentInBlock] the
    inputs already seen. *)
Lemma single_inputs_block ins i t seen :
  foldMi (single_input s height p h) i (t, seen) ins
  = let* (t, seen, _) := foldMi (block_input s height p h) i (t, seen, seen) ins in Ok (t, seen).
Proof.
  revert i t seen. induction ins as [|ti ins IH]; intros i t seen; [done|].
  cbn [foldMi]. unfold single_input at 1, block_input at 1.
  case_bool_decide; [done|]. destruct (Get s _ _) as [e|]; [|done].
  destruct (check_entry p height h i t e) as [t1|]; [|done]. cbn [rbind]. apply IH.
Qed.

Lemma single_inputs_Ok ins i t seen r :
  is_u64 t ->
  foldMi (single_input s height p h) i (t, seen) ins = Ok r
  <-> inputs_ok ins t seen
      /\ r = (t + sumZ (map (in_value s) ins), list_to_set (map in_key ins) ∪ seen).
Proof.
  intros Ht. rewrite single_inputs_block, rbind_Ok. split.
  - intros ([[t1 seen1] spent1] & H & E). apply block_inputs_Ok in H as [H [= -> -> ->]]; [|done].
    rewrite union_idemp_L in H. by injection E as <-.
  - intros [H ->]. eexists (_, _, _). split; [|reflexivity].
    apply block_inputs_Ok; [done|]. rewrite union_idemp_L. split; [done|reflexivity].
Qed.
End loops.

Section outputs.
Context `{EC : ECOps}.

Lemma out_values_nonneg outs : Forall wf_output outs -> 0 <= sumZ (map out_Value outs).
Proof.
  intros H. apply sumZ_u64, Forall_map. eapply Forall_impl; [done|]. by intros ? [? _].
Qed.

Lemma check_outputs_Ok h outs i t r :
  Forall wf_output outs -> is_u64 t ->
  foldMi (check_output h) i t outs = Ok r
  <-> Forall (fun o => 0 < out_Value o <= MaxMoneyValue) outs
      /\ t + sumZ (map out_Value outs) < 2^64 /\ r = t + sumZ (map out_Value outs).
Proof.
  intros Hwf. revert i t. induction Hwf as [|o outs [Hv Hsc] Hwf IH]; intros i t Ht.
  - cbn [foldMi map sumZ]. rewrite Z.add_0_r. unfold is_u64 in Ht.
    split; [intros [= <-]; split_and!; (constructor || lia || done)|by intros (_ & _ & ->)].
  - cbn [foldMi map sumZ]. rewrite Forall_cons. unfold check_output at 1.
    pose proof (out_values_nonneg outs Hwf). pose proof Hv as Hv'. unfold is_u64 in Hv'.
    destruct (Z.eqb_spec (out_Value o) 0); [cbn [rbind]; split; [done|lia]|].
    rewrite Z.gtb_ltb. destruct (Z.ltb_spec MaxMoneyValue (out_Value o));
      [cbn [rbind]; split; [done|lia]|].
    destruct (if _ <? t then _ else _) as [t1|err] eqn:Hc; cbn [rbind].
    + apply add64_step in Hc as [-> Hlt]; [|done|done].
      rewrite IH by (unfold is_u64 in *; lia). rewrite Z.add_assoc. intuition lia.
    + split; [done|]. intros (_ & Hlt & _).
      assert ((if add64 t (out_Value o) <? t then Err (OutputOverflow h i) else Ok (add64 t (out_Value o)))
        = Ok (t + out_Value o)) by (apply add64_step; [done|done|split; [done|lia]]). congruence.
Qed.

Lemma coinbase_sum_Ok outs i t r :
  Forall wf_output outs -> is_u64 t ->
  foldMi coinbase_sum i t outs = Ok r
  <-> t + sumZ (map out_Value outs) < 2^64 /\ r = t + sumZ (map out_Value outs).
Proof.
  intros Hwf. revert i t. induction Hwf as [|o outs [Hv Hsc] Hwf IH]; intros i t Ht.
  - cbn [foldMi map sumZ]. rewrite Z.add_0_r. unfold is_u64 in Ht.
    split; [intros [= <-]; split_and!; (lia || done)|by intros (_ & ->)].
  - cbn [foldMi map sumZ]. unfold coinbase_sum at 1.
    pose proof (out_values_nonneg outs Hwf). pose proof Hv as Hv'. unfold is_u64 in Hv'.
    destruct (if _ <? t then _ else _) as [t1|err] eqn:Hc; cbn [rbind].
    + apply add64_step in Hc as [-> Hlt]; [|done|done].
      rewrite IH by (unfold is_u64 in *; lia). by rewrite Z.add_assoc.
    + split; [done|]. intros (Hlt & _).
      assert ((if add64 t (out_Value o) <? t then Err (CoinbaseOverflow i) else Ok (add64 t (out_Value o)))
        = Ok (t + out_Value o)) by (apply add64_step; [done|done|split; [done|lia]]). congruence.
Qed.

Lemma coinbase_outputs_Ok outs i r :
  foldMi coinbase_output i tt outs = Ok r <-> Forall (fun o => out_Value o <> 0) outs.
Proof.
  revert i. induction outs as [|o outs IH]; intros i; cbn [foldMi].
  - destruct r. split; [constructor|done].
  - rewrite Forall_cons. unfold coinbase_output at 1.
    destruct (Z.eqb_spec (out_Value o) 0); cbn [rbind]; [split; [done|tauto]|]. rewrite IH. tauto.
Qed.

Lemma verify_inputs_Ok s tx ins i r :
  foldMi (verify_input s tx) i tt ins = Ok r
  <-> forall k ti e, ins !! k = Some ti -> s !! in_key ti = Some e ->
        Verify (in_SignatureScript ti) (ue_PkScript e) tx (i + Z.of_nat k) = Ok tt.
Proof.
  revert i. induction ins as [|ti ins IH]; intros i; cbn [foldMi].
  - destruct r. split; [done|done].
  - assert (verify_input s tx tt i ti = Ok tt <-> forall e, s !! in_key ti = Some e ->
      Verify (in_SignatureScript ti) (ue_PkScript e) tx i = Ok tt) as Hstep.
    { unfold verify_input. change (Get s _ _) with (s !! in_key ti).
      destruct (s !! in_key ti) as [e|]; simpl; [|split; done].
      rewrite rwrap_Ok. split; [by intros ? ? [= <-]|auto]. }
    rewrite rbind_Ok. split.
    + intros ([] & H1 & H2). rewrite Hstep in H1. rewrite IH in H2.
      intros [|k] ti' e Hk He; simpl in Hk.
      * simplify_eq. rewrite Z.add_0_r. auto.
      * replace (i + Z.of_nat (S k)) with (i + 1 + Z.of_nat k) by lia. eauto.
    + intros H. exists tt. rewrite Hstep, IH. split.
      * intros e He. rewrite <- (Z.add_0_r i). by apply (H O).
      * intros k ti' e Hk He. replace (i + 1 + Z.of_nat k) with (i + Z.of_nat (S k)) by lia.
        by apply (H (S k)).
Qed.
End outputs.

(** ** The validators accept exactly what the rules allow *)

Section exact.
Context `{EC : ECOps}.
Context (s : UtxoSet) (p : ChainParams) (Hs : wf_utxo s).

Lemma len_zero {A} (l : list A) : (len l =? 0) = false <-> l <> [].
Proof. destruct l; simpl; split; congruence. Qed.

Lemma tx_in_nonneg tx : 0 <= tx_in s tx.
Proof. by apply in_value_nonneg. Qed.
Lemma tx_out_nonneg tx : Forall wf_output (tx_Outputs tx) -> 0 <= tx_out tx.
Proof. apply out_values_nonneg. Qed.

Lemma tx_outputs_Ok h tx r :
  Forall wf_output (tx_Outputs tx) ->
  foldMi (check_output h) 0 0 (tx_Outputs tx) = Ok r
  <-> (Forall (fun o => 0 < out_Value o <= MaxMoneyValue) (tx_Outputs tx) /\ tx_out tx < 2^64)
      /\ r = tx_out tx.
Proof. intros Hwf. rewrite check_outputs_Ok by done. rewrite Z.add_0_l. unfold tx_out. tauto. Qed.

(** The checks after the emptiness tests, as the rule. *)
Lemma valid_spend_checks height tx fee :
  Forall wf_output (tx_Outputs tx) ->
  valid_spend s height p tx fee <->
  tx_IsCoinbase tx = false /\ tx_Inputs tx <> [] /\ tx_Outputs tx <> []
  /\ inputs_ok s height p (tx_Inputs tx) 0 ∅
  /\ (Forall (fun o => 0 < out_Value o <= MaxMoneyValue) (tx_Outputs tx) /\ tx_out tx < 2^64)
  /\ tx_out tx <= tx_in s tx
  /\ (forall i ti e, tx_Inputs tx !! i = Some ti -> s !! in_key ti = Some e ->
        Verify (in_SignatureScript ti) (ue_PkScript e) tx (0 + Z.of_nat i) = Ok tt)
  /\ fee = tx_in s tx - tx_out tx.
Proof.
  intros Hwf. unfold inputs_ok. rewrite Z.add_0_l. fold (tx_in s tx). split.
  - intros [? ? ? ? ? ? ? ? ? ?]. split_and!; try done; try lia.
    apply Forall_forall. set_solver.
  - intros (? & ? & ? & (? & ? & _ & ?) & (? & ?) & ? & ? & ?). by constructor.
Qed.

Lemma ValidateSingleTransaction_exact tx tip fee :
  Forall wf_output (tx_Outputs tx) ->
  ValidateSingleTransaction tx s tip p = Ok fee <-> valid_spend s (add32 tip 1) p tx fee.
Proof.
  intros Hwf. rewrite valid_spend_checks by done. unfold ValidateSingleTransaction.
  pose proof (u32_range (tip + 1)) as Hh. fold (add32 tip 1) in Hh.
  pose proof (tx_in_nonneg tx) as Hin0. pose proof (tx_out_nonneg tx Hwf) as Hout0.
  destruct (tx_IsCoinbase tx); [split; [done|by intros [? _]]|].
  rewrite <- !len_zero. destruct (len (tx_Inputs tx) =? 0); [split; [done|by intros (_ & ? & _)]|].
  destruct (len (tx_Outputs tx) =? 0); [split; [done|by intros (_ & _ & ? & _)]|].
  rewrite rbind_Ok. split.
  - intros ([ti seen] & H1 & H). apply single_inputs_Ok in H1 as [H1 [= -> ->]]; [|done|done|done].
    apply rbind_Ok in H as (to & H2 & H). apply tx_outputs_Ok in H2 as ([H2 H3] & ->); [|done].
    rewrite !Z.add_0_l in *. fold (tx_in s tx) in *. fold (tx_out tx) in *.
    destruct (Z.ltb_spec (tx_in s tx) (tx_out tx)); [done|].
    apply rbind_Ok in H as (u & H4 & H). rewrite verify_inputs_Ok in H4.
    injection H as <-. split_and!; try done.
    destruct H1 as (_ & _ & _ & H1). rewrite Z.add_0_l in H1. fold (tx_in s tx) in H1.
    apply sub64_ge; unfold is_u64; lia.
  - intros (_ & _ & _ & H1 & H2 & H3 & H4 & ->).
    eexists (_, _). split; [apply single_inputs_Ok; [done|done|done|split; [done|reflexivity]]|].
    rewrite rbind_Ok. exists (tx_out tx). split; [by apply tx_outputs_Ok|].
    rewrite Z.add_0_l. fold (tx_in s tx). rewrite (proj2 (Z.ltb_ge _ _)) by lia.
    rewrite rbind_Ok. exists tt. split; [by apply verify_inputs_Ok|].
    destruct H1 as (_ & _ & _ & H1). rewrite Z.add_0_l in H1. fold (tx_in s tx) in H1.
    f_equal. apply sub64_ge; unfold is_u64; lia.
Qed.

Lemma inputs_ok_spent height ins t spent :
  inputs_ok s height p ins t (∅ ∪ spent)
  <-> inputs_ok s height p ins t ∅ /\ Forall (fun k => k ∉ spent) (map in_key ins).
Proof.
  unfold inputs_ok. rewrite union_empty_l_L.
  assert (Forall (fun k => k ∉ (∅ : gset outpoint_key)) (map in_key ins)) by (apply Forall_forall; set_solver).
  tauto.
Qed.

Lemma tx_spends_inputs tx : tx_IsCoinbase tx = false -> tx_spends tx = map in_key (tx_Inputs tx).
Proof. intros H. unfold tx_spends. by rewrite H. Qed.

Definition tx_fee (tx : Transaction) : Z := if tx_IsCoinbase tx then 0 else tx_in s tx - tx_out tx.
Definition tx_ok (height : Z) (tx : Transaction) : Prop :=
  tx_IsCoinbase tx = true /\ Forall (fun o => out_Value o <> 0) (tx_Outputs tx)
  \/ exists fee, valid_spend s height p tx fee.

Lemma tx_fee_nonneg height tx : tx_ok height tx -> 0 <= tx_fee tx < 2^64.
Proof.
  intros [[Hcb _]|[fee [Hcb _ _ _ _ Hv Hf Hc _ _]]]; unfold tx_fee; rewrite Hcb; [lia|].
  assert (0 <= tx_out tx); [|lia].
  apply sumZ_nonneg, Forall_map. eapply Forall_impl; [exact Hv|]. simpl. lia.
Qed.

(** One iteration of the transaction loop, on a spending transaction. *)
Lemma validate_spend_fwd height tx i fees spent r :
  is_u32 height -> Forall wf_output (tx_Outputs tx) -> is_u64 fees -> tx_IsCoinbase tx = false ->
  validate_block_tx s height p (fees, spent) i tx = Ok r ->
  (exists fee, valid_spend s height p tx fee) /\ Forall (fun k => k ∉ spent) (map in_key (tx_Inputs tx))
  /\ fees + (tx_in s tx - tx_out tx) < 2^64
  /\ r = (fees + (tx_in s tx - tx_out tx), list_to_set (map in_key (tx_Inputs tx)) ∪ spent).
Proof.
  intros Hh Hwf Hf Hcb H. unfold validate_block_tx in H. rewrite Hcb in H.
  repeat inv_ok_step. destruct_and?.
  apply block_inputs_Ok in Hx as [H1 [= ->]]; [|done|done|done]. repeat inv_ok_step.
  apply inputs_ok_spent in H1 as [H1 Hsp].
  match goal with H : foldMi (check_output _) _ _ _ = Ok _ |- _ =>
    apply tx_outputs_Ok in H as ([H2 H3] & ->); [|done] end.
  match goal with H : foldMi (verify_input _ _) _ _ _ = Ok _ |- _ =>
    rewrite verify_inputs_Ok in H end.
  rewrite ?Z.add_0_l in *. fold (tx_in s tx) (tx_out tx) in *. bool_to_prop.
  pose proof (tx_out_nonneg tx Hwf).
  assert (tx_in s tx < 2^64) as Hin by (destruct H1 as (_ & _ & _ & H1); by rewrite Z.add_0_l in H1).
  assert (sub64 (tx_in s tx) (tx_out tx) = tx_in s tx - tx_out tx) as Efee
    by (apply sub64_ge; unfold is_u64; lia).
  rewrite Efee in *.
  match goal with H : fees <= add64 _ _ |- _ => apply Z.ltb_ge in H;
    apply add64_checked in H as [-> Hlt]; [|done|unfold is_u64; lia] end.
  split_and!; try done. eexists. apply valid_spend_checks; [done|].
  by split_and!; try (apply len_zero, Z.eqb_neq).
Qed.

Lemma validate_spend_bwd height tx i fees spent fee :
  is_u32 height -> Forall wf_output (tx_Outputs tx) -> is_u64 fees ->
  valid_spend s height p tx fee -> Forall (fun k => k ∉ spent) (map in_key (tx_Inputs tx)) ->
  fees + fee < 2^64 ->
  validate_block_tx s height p (fees, spent) i tx
  = Ok (fees + fee, list_to_set (map in_key (tx_Inputs tx)) ∪ spent).
Proof.
  intros Hh Hwf Hf Hv Hsp Hlt.
  apply valid_spend_checks in Hv as (Hcb & Hi & Ho & H1 & [H2 H3] & H4 & H5 & ->); [|done].
  unfold validate_block_tx. rewrite Hcb. apply len_zero in Hi, Ho. rewrite Hi, Ho.
  pose proof (tx_out_nonneg tx Hwf).
  assert (tx_in s tx < 2^64) as Hin by (destruct H1 as (_ & _ & _ & H1'); by rewrite Z.add_0_l in H1').
  rewrite rbind_Ok. eexists (_, _, _). split.
  { apply block_inputs_Ok; [done|done|done|]. rewrite inputs_ok_spent. split; [done|reflexivity]. }
  rewrite rbind_Ok. exists (tx_out tx). split; [by apply tx_outputs_Ok|].
  rewrite Z.add_0_l. fold (tx_in s tx). rewrite (proj2 (Z.ltb_ge _ _)) by lia.
  rewrite rbind_Ok. exists tt. split; [by apply verify_inputs_Ok|].
  rewrite sub64_ge by (unfold is_u64; lia).
  assert (add64 fees (tx_in s tx - tx_out tx) = fees + (tx_in s tx - tx_out tx)) as ->
    by (apply u64_small; unfold is_u64 in *; lia).
  by rewrite (proj2 (Z.ltb_ge _ _)) by lia.
Qed.

Lemma validate_block_tx_Ok height tx i fees spent r :
  is_u32 height -> Forall wf_output (tx_Outputs tx) -> is_u64 fees ->
  validate_block_tx s height p (fees, spent) i tx = Ok r
  <-> tx_ok height tx /\ Forall (fun k => k ∉ spent) (tx_spends tx)
      /\ fees + tx_fee tx < 2^64 /\ r = (fees + tx_fee tx, list_to_set (tx_spends tx) ∪ spent).
Proof.
  intros Hh Hwf Hf. unfold tx_ok, tx_fee. destruct (tx_IsCoinbase tx) eqn:Hcb.
  - unfold validate_block_tx, tx_spends. rewrite Hcb. simpl.
    rewrite union_empty_l_L, Z.add_0_r, rbind_Ok. unfold is_u64 in Hf. split.
    + intros (u & H & [= <-]). apply coinbase_outputs_Ok in H. split_and!; try done; [by left|lia].
    + intros ([[_ H]|[fee H]] & _ & _ & ->); [|by apply vs_not_coinbase in H; congruence].
      exists tt. by rewrite coinbase_outputs_Ok.
  - rewrite tx_spends_inputs by done. split.
    + intros H. apply validate_spend_fwd in H as (? & ? & ? & ?); try done. split_and!; try done. by right.
    + intros ([[? _]|[fee Hv]] & Hsp & Hlt & ->); [done|].
      assert (fee = tx_in s tx - tx_out tx) as E by apply Hv. rewrite <- E in *.
      by apply validate_spend_bwd.
Qed.

Lemma tx_ok_distinct height tx : tx_ok height tx -> NoDup (tx_spends tx).
Proof.
  intros [[Hcb _]|[fee Hv]].
  - unfold tx_spends. rewrite Hcb. constructor.
  - rewrite tx_spends_inputs by apply Hv. apply Hv.
Qed.

Lemma spends_cons tx txs : spends (tx :: txs) = tx_spends tx ++ spends txs.
Proof. done. Qed.

Lemma validate_txs_Ok height txs i fees spent r :
  is_u32 height -> Forall (fun tx => Forall wf_output (tx_Outputs tx)) txs -> is_u64 fees ->
  foldMi (validate_block_tx s height p) i (fees, spent) txs = Ok r
  <-> Forall (tx_ok height) txs /\ NoDup (spends txs) /\ Forall (fun k => k ∉ spent) (spends txs)
      /\ fees + sumZ (map tx_fee txs) < 2^64
      /\ r = (fees + sumZ (map tx_fee txs), list_to_set (spends txs) ∪ spent).
Proof.
  intros Hh Hwf. revert i fees spent.
  induction Hwf as [|tx txs Htx Hwf IH]; intros i fees spent Hf.
  - simpl. rewrite Z.add_0_r, union_empty_l_L. unfold is_u64 in Hf.
    split; [intros [= <-]; split_and!; (constructor || lia || done)|by intros (_ & _ & _ & _ & ->)].
  - cbn [foldMi map sumZ]. rewrite spends_cons, Forall_cons, Forall_app, NoDup_app, rbind_Ok.
    rewrite list_to_set_app_L, <- (union_assoc_L (list_to_set (tx_spends tx))).
    assert (forall txs', Forall (tx_ok height) txs' -> 0 <= sumZ (map tx_fee txs')) as Hnn.
    { intros txs' H. apply sumZ_nonneg, Forall_map. eapply Forall_impl; [done|].
      intros tx' Htx'. simpl. by apply tx_fee_nonneg in Htx' as [? _]. }
    split.
    + intros ([fees1 spent1] & H1 & H2).
      apply validate_block_tx_Ok in H1 as (Hok & Hsp & Hlt & [= -> ->]); [|done..].
      pose proof (tx_fee_nonneg _ _ Hok). pose proof (tx_ok_distinct _ _ Hok).
      apply IH in H2 as (Hoks & Hnd & Hsps & Hlts & ->); [|unfold is_u64 in *; lia].
      rewrite Z.add_assoc. rewrite Forall_forall in Hsps. split_and!; try done; try lia.
      * intros k Hk Hk'. apply (Hsps k Hk'). set_solver.
      * apply Forall_forall. intros k Hk. specialize (Hsps k Hk). set_solver.
      * f_equal. set_solver.
    + intros ((Hok & Hoks) & (_ & Hd & Hnd) & (Hsp & Hsps) & Hlt & ->).
      pose proof (tx_fee_nonneg _ _ Hok). specialize (Hnn txs Hoks).
      eexists. split; [apply validate_block_tx_Ok; [done..|split_and!; [done|done|lia|reflexivity]]|].
      apply IH; [unfold is_u64 in *; lia|]. rewrite Z.add_assoc in *. split_and!; try done.
      * rewrite Forall_forall in *. intros k Hk. specialize (Hsps k Hk). specialize (Hd k). set_solver.
      * f_equal. set_solver.
Qed.

Lemma ValidateTransactionInputs_exact b height fees :
  is_u32 height -> wf_params p ->
  Forall (fun tx => Forall wf_output (tx_Outputs tx)) (blk_Transactions b) ->
  ValidateTransactionInputs b s height p = Ok fees
  <-> valid_block_txs s height p (blk_Transactions b) fees.
Proof.
  intros Hh Hp Hwf. unfold ValidateTransactionInputs.
  pose proof (CalcSubsidy_u64 p height ltac:(unfold is_u32 in Hh; lia) Hp) as Hsub.
  rewrite rbind_Ok. set (txs := blk_Transactions b) in *. split.
  - intros ([tf sp] & H1 & H). apply validate_txs_Ok in H1 as (Hok & Hnd & _ & Hlt & [= -> ->]); [|done..].
    rewrite Z.add_0_l in *. fold (tx_fee) in *. set (tf := sumZ (map tx_fee txs)) in *.
    assert (0 <= tf) as Htf.
    { apply sumZ_nonneg, Forall_map. eapply Forall_impl; [done|].
      intros tx' Htx'. simpl. by apply tx_fee_nonneg in Htx' as [? _]. }
    destruct (add64 (CalcSubsidy p height) tf <? CalcSubsidy p height) eqn:Hov; [done|].
    apply add64_checked in Hov as [Eov Hov]; [|done|unfold is_u64; lia]. rewrite Eov in H.
    destruct txs as [|cb rest] eqn:Htxs; [done|]. apply Forall_cons in Hwf as [Hcb Hwf].
    apply rbind_Ok in H as (cv & H2 & H).
    apply coinbase_sum_Ok in H2 as [H2 ->]; [|done|unfold is_u64; lia].
    rewrite Z.add_0_l in *. fold (tx_out cb) in *. repeat inv_ok_step. bool_to_prop.
    constructor; try done. exists cb, rest. done.
  - intros [Hok Hnd Hfees Hfit (cb & rest & Htxs & Hcb64 & Hcb)].
    assert (0 <= sumZ (map tx_fee txs)) as Htf.
    { apply sumZ_nonneg, Forall_map. eapply Forall_impl; [exact Hok|].
      intros tx' Htx'. simpl. by apply tx_fee_nonneg in Htx' as [? _]. }
    change (fees = sumZ (map tx_fee txs)) in Hfees. rewrite <- Hfees in Htf.
    unfold is_u64 in Hsub. eexists. split.
    { apply validate_txs_Ok; [done|done|unfold is_u64; lia|]. rewrite <- Hfees.
      split_and!; [exact Hok|done| |lia|reflexivity]. apply Forall_forall. set_solver. }
    cbv beta iota. rewrite Z.add_0_l.
    assert (add64 (CalcSubsidy p height) fees = CalcSubsidy p height + fees) as ->
      by (apply u64_small; unfold is_u64; lia).
    rewrite (proj2 (Z.ltb_ge _ _)) by lia. rewrite Htxs in *. apply Forall_cons in Hwf as [Hwcb _].
    rewrite rbind_Ok. exists (tx_out cb). split.
    { apply coinbase_sum_Ok; [done|unfold is_u64; lia|]. by rewrite Z.add_0_l. }
    rewrite Z.gtb_ltb. by rewrite (proj2 (Z.ltb_ge _ _)) by lia.
Qed.
End exact.

(** ** Consequences of the rules *)

Section consequences.
Context `{EC : ECOps}.
Context (s : UtxoSet) (p : ChainParams) (Hs : wf_utxo s).

Lemma valid_block_present height txs fees :
  valid_block_txs s height p txs fees -> Forall (fun k => is_Some (s !! k)) (spends txs).
Proof.
  intros [Hok _ _ _ _]. unfold spends. induction Hok as [|tx txs Htx Hok IH]; [constructor|].
  simpl. apply Forall_app. split; [|done]. destruct Htx as [[Hcb _]|[fee Hv]].
  - unfold tx_spends. rewrite Hcb. constructor.
  - rewrite tx_spends_inputs by apply Hv. apply Forall_map.
    eapply Forall_impl; [apply (vs_unspent _ _ _ _ _ Hv)|]. intros ti (e & He & _). simpl. eauto.
Qed.

Lemma spent_value tx :
  sumZ (map (fun k => from_option ue_Value 0 (s !! k)) (tx_spends tx))
  = if tx_IsCoinbase tx then 0 else tx_in s tx.
Proof.
  unfold tx_spends. destruct (tx_IsCoinbase tx); [done|]. unfold tx_in. rewrite map_map. done.
Qed.

Lemma spends_value txs :
  Forall (fun tx => tx_IsCoinbase tx = false) txs ->
  sumZ (map (fun k => from_option ue_Value 0 (s !! k)) (spends txs)) = sumZ (map (tx_in s) txs).
Proof.
  induction 1 as [|tx txs Htx H IH]; [done|].
  rewrite spends_cons, map_app, sumZ_app, IH, spent_value, Htx. done.
Qed.

Lemma tx_entries_value height tx : entries_value (tx_entries height tx) = tx_out tx.
Proof.
  unfold entries_value, tx_entries, tx_out. f_equal.
  change (map ?f (imap ?g ?l)) with (f <$> imap g l). rewrite fmap_imap. unfold compose. simpl.
  generalize (tx_Outputs tx) as l. induction l as [|o l IH]; [done|]. simpl. by f_equal.
Qed.

Lemma creates_value height txs : entries_value (creates height txs) = sumZ (map tx_out txs).
Proof.
  unfold creates. induction txs as [|tx txs IH]; [done|]. simpl.
  unfold entries_value in *. rewrite map_app, sumZ_app, IH. f_equal. apply tx_entries_value.
Qed.

Lemma fees_value txs :
  Forall (fun tx => tx_IsCoinbase tx = false) txs ->
  sumZ (map (fun tx => if tx_IsCoinbase tx then 0 else tx_in s tx - tx_out tx) txs)
  = sumZ (map (tx_in s) txs) - sumZ (map tx_out txs).
Proof. induction 1 as [|tx txs Htx H IH]; [done|]. simpl. rewrite Htx, IH. lia. Qed.

(** Only the first transaction is a coinbase ([ValidateBlockStructure]). *)
Definition coinbase_first (txs : list Transaction) : Prop :=
  exists cb rest, txs = cb :: rest /\ tx_IsCoinbase cb = true
    /\ Forall (fun tx => tx_IsCoinbase tx = false) rest.

Lemma valid_block_conserves b height fees s' undo :
  is_u32 height ->
  Forall (fun tx => Forall wf_output (tx_Outputs tx)) (blk_Transactions b) ->
  coinbase_first (blk_Transactions b) ->
  valid_block_txs s height p (blk_Transactions b) fees ->
  ConnectBlock s b height = Ok (s', undo) ->
  wf_utxo s' /\ utxo_sum s' <= utxo_sum s + CalcSubsidy p height.
Proof.
  intros Hh Hwf (cb & rest & Htxs & Hcb & Hrest) Hv Hc.
  apply ConnectBlock_sum in Hc as [Hs' Hle]; [|done|done|done|by eapply valid_block_present].
  split; [done|]. destruct Hv as [_ _ Hfees _ (cb' & rest' & Htxs' & _ & Hmax)].
  rewrite Htxs in *. injection Htxs' as <- <-.
  rewrite creates_value, spends_cons, map_app, sumZ_app, spent_value, Hcb in Hle.
  rewrite spends_value in Hle by done. simpl in Hle, Hfees. rewrite Hcb, fees_value in Hfees by done. lia.
Qed.

(** Transactions that each pass the single-transaction rule and do not conflict make,
    with a coinbase that claims at most the subsidy and their fees, a valid block. *)
Lemma template_valid height cb txs fees :
  tx_IsCoinbase cb = true -> Forall (fun o => out_Value o <> 0) (tx_Outputs cb) ->
  Forall2 (valid_spend s height p) txs fees -> NoDup (spends txs) ->
  CalcSubsidy p height + sumZ fees < 2^64 ->
  tx_out cb <= CalcSubsidy p height + sumZ fees ->
  valid_block_txs s height p (cb :: txs) (sumZ fees).
Proof.
  intros Hcb Hnz Hv Hnd Hfit Hmax. constructor.
  - constructor; [by left|]. apply Forall_forall. intros tx Htx.
    apply list_elem_of_lookup in Htx as [i Hi].
    destruct (Forall2_lookup_l _ _ _ _ _ Hv Hi) as (fee & _ & Hf). right. eauto.
  - rewrite spends_cons. unfold tx_spends. by rewrite Hcb.
  - simpl. rewrite Hcb, Z.add_0_l. clear -Hv.
    induction Hv as [|tx fee txs fees H Hv IH]; [done|]. simpl.
    rewrite (vs_not_coinbase _ _ _ _ _ H), <- IH, (vs_fee _ _ _ _ _ H). done.
  - done.
  - exists cb, txs. split; [done|]. split; [lia|done].
Qed.

(** On a valid transaction [CalcTxFee] is the fee. *)
Lemma fee_in_sum ins t :
  is_u64 t -> t + sumZ (map (in_value s) ins) < 2^64 ->
  fold_left (fee_in s) ins (Some t) = Some (t + sumZ (map (in_value s) ins)).
Proof.
  revert t. induction ins as [|ti ins IH]; intros t Ht Hlt; simpl; [by rewrite Z.add_0_r|].
  change (Get s _ _) with (s !! in_key ti). simpl in Hlt.
  change (in_value s ti) with (from_option ue_Value 0 (s !! in_key ti)) in *. pose proof (in_value_nonneg s Hs ins).
  destruct (s !! in_key ti) as [e|] eqn:E; simpl in *.
  - destruct (Hs _ _ E) as [Hv _].
    assert (add64 t (ue_Value e) = t + ue_Value e) as -> by (apply u64_small; unfold is_u64 in *; lia).
    rewrite (proj2 (Z.ltb_ge _ _)) by (unfold is_u64 in *; lia).
    rewrite IH by (unfold is_u64 in *; lia). f_equal. lia.
  - by rewrite IH by (done || lia).
Qed.

Lemma fee_out_sum outs t :
  Forall wf_output outs -> is_u64 t -> t + sumZ (map out_Value outs) < 2^64 ->
  fold_left fee_out outs (Some t) = Some (t + sumZ (map out_Value outs)).
Proof.
  intros Hwf. revert t. induction Hwf as [|o outs [Hv _] Hwf IH]; intros t Ht Hlt; simpl; [by rewrite Z.add_0_r|].
  simpl in Hlt. pose proof (out_values_nonneg outs Hwf).
  assert (add64 t (out_Value o) = t + out_Value o) as -> by (apply u64_small; unfold is_u64 in *; lia).
  rewrite (proj2 (Z.ltb_ge _ _)) by (unfold is_u64 in *; lia).
  rewrite IH by (unfold is_u64 in *; lia). f_equal. lia.
Qed.

Lemma CalcTxFee_valid height tx fee :
  Forall wf_output (tx_Outputs tx) -> valid_spend s height p tx fee -> CalcTxFee tx s = fee.
Proof.
  intros Hwf [Hcb _ _ _ _ _ Hfit Hcov _ ->]. unfold CalcTxFee. rewrite Hcb.
  pose proof (tx_in_nonneg s Hs tx). pose proof (tx_out_nonneg tx Hwf). unfold tx_in, tx_out in *.
  rewrite fee_in_sum by (unfold is_u64; lia). rewrite fee_out_sum by (done || unfold is_u64; lia).
  rewrite !Z.add_0_l. destruct (Z.leb_spec (sumZ (map (in_value s) (tx_Inputs tx)))
    (sumZ (map out_Value (tx_Outputs tx)))); [lia|].
  apply sub64_ge; unfold is_u64; lia.
Qed.
End consequences.

(** ** Properties *)

(** Mempool admission implements the spending rule exactly: [ValidateSingleTransaction]
    returns [fee] if and only if the transaction is no coinbase, has inputs and outputs,
    spends distinct existing and mature outputs at the next height, creates outputs of
    values in [1, MaxMoneyValue], does not overflow, does not create value, satisfies
    every spent script, and pays exactly [fee], which [CalcTxFee] then computes too. *)
Theorem single_tx_exact `{EC : ECOps} s p tx tip fee :
  wf_utxo s -> Forall wf_output (tx_Outputs tx) ->
  (ValidateSingleTransaction tx s tip p = Ok fee <-> valid_spend s (add32 tip 1) p tx fee)
  /\ (ValidateSingleTransaction tx s tip p = Ok fee -> CalcTxFee tx s = fee).
Proof.
  intros Hs Hwf. split; [by apply ValidateSingleTransaction_exact|].
  rewrite ValidateSingleTransaction_exact by done. by apply CalcTxFee_valid.
Qed.

Import ToyEC.
Lemma wf_example : wf_utxo example_utxo /\ Forall wf_output (tx_Outputs example_tx).
Proof.
  split; [by apply map_Forall_singleton|]. constructor; [|constructor].
  split; [by vm_compute|unfold wf_script, MaxScriptSize; simpl; lia].
Qed.

Lemma single_tx_exact_witness :
  valid_spend (EC := toy_ec) example_utxo 10 Mainnet example_tx 500 /\ CalcTxFee example_tx example_utxo = 500.
Proof.
  destruct wf_example as [Hs Hwf].
  destruct (single_tx_exact (EC := toy_ec) example_utxo Mainnet example_tx 9 500 Hs Hwf) as [H1 H2].
  assert (ValidateSingleTransaction (EC := toy_ec) example_tx example_utxo 9 Mainnet = Ok 500) as E
    by (vm_compute; reflexivity).
  split; [apply H1, E|apply H2, E].
Defined.

(** C6. Block validation implements the block rule exactly: [ValidateTransactionInputs]
    returns [fees] if and only if every transaction is a coinbase without zero outputs or
    a valid spend, no outpoint is spent twice in the block, the fees add up to [fees]
    without overflow, and the first transaction claims at most subsidy plus fees. *)
Theorem block_txs_exact `{EC : ECOps} s p b height fees :
  wf_utxo s -> is_u32 height -> wf_params p ->
  Forall (fun tx => Forall wf_output (tx_Outputs tx)) (blk_Transactions b) ->
  ValidateTransactionInputs b s height p = Ok fees
  <-> valid_block_txs s height p (blk_Transactions b) fees.
Proof. intros. by apply ValidateTransactionInputs_exact. Qed.

Lemma wf_example_block :
  Forall (fun tx => Forall wf_output (tx_Outputs tx)) (blk_Transactions example_block).
Proof.
  repeat constructor; try (by vm_compute); unfold wf_script, MaxScriptSize; simpl; lia.
Qed.

Lemma block_txs_exact_witness :
  valid_block_txs (EC := toy_ec) example_utxo 9 Mainnet [example_coinbase; example_tx] 500.
Proof.
  apply (block_txs_exact (EC := toy_ec) example_utxo Mainnet example_block 9 500).
  - apply wf_example.
  - by vm_compute.
  - pose proof wf_networks as H. by inversion H.
  - apply wf_example_block.
  - vm_compute. reflexivity.
Defined.

(** What validation accepts, the unspent set can apply: after a successful
    [ValidateTransactionInputs], [ConnectBlock] on the same set never fails. *)
Theorem validated_block_connects `{EC : ECOps} s p b height fees :
  wf_utxo s -> is_u32 height -> wf_params p ->
  Forall (fun tx => Forall wf_output (tx_Outputs tx)) (blk_Transactions b) ->
  ValidateTransactionInputs b s height p = Ok fees ->
  exists s' undo, ConnectBlock s b height = Ok (s', undo).
Proof.
  intros Hs Hh Hp Hwf H. apply ValidateTransactionInputs_exact in H; [|done..].
  apply ConnectBlock_succeeds; [apply H|by eapply valid_block_present].
Qed.

Lemma validated_block_connects_witness :
  exists s' undo, ConnectBlock example_utxo example_block 9 = Ok (s', undo).
Proof.
  apply (validated_block_connects (EC := toy_ec) example_utxo Mainnet example_block 9 500).
  - apply wf_example.
  - by vm_compute.
  - pose proof wf_networks as H. by inversion H.
  - apply wf_example_block.
  - vm_compute. reflexivity.
Defined.
