(* ===== verification/BlockValidation.v ===== *)
(** * Block structure and header timestamps

    Models [src/internal/consensus/validation.go].  [getAncestor] returns [None] where the
    Go callback returns [nil]. *)
From S2P Require Import Prelude Types Sha256 Crypto Target Params Utxo TxValidation.
From Stdlib Require Import Sorted.
From Equations Require Import Equations.

Inductive BlockErr :=
| NoTransactions | FirstNotCoinbase
| CoinbaseScript (e : BlockErr)
| ScriptSigTooShort (n : Z) | ScriptSigTooLong (n : Z)
| HeightPushLength (n : Z) | HeightPushShort (need have : Z) | HeightMismatch (enc height : Z)
| UnexpectedCoinbase (i : Z)
| TooManyTransactions (n max : Z)
| DuplicateTxID (id : Hash) (i : Z)
| MerkleMismatch (header computed : Hash)
| BlockTooLarge (n max : Z)
| CoinbaseValueOverflow
| TooFarInFuture (ts max : Z) | NotAfterParent (ts parent : Z) | NotAfterMedian (ts median : Z)
| UnknownTimestampRule (rule : string).

(** ** Block structure *)

(** [for i := 0; i < pushLen; i++ { encodedHeight |= uint32(scriptSig[1+i]) << (8*uint(i)) }] *)
Fixpoint height_loop (n : nat) (i : nat) (scriptSig : list byte) (encodedHeight : Z) : Z :=
  match n with
  | O => encodedHeight
  | S n =>
      height_loop n (S i) scriptSig
        (Z.lor encodedHeight (u32 (Z.shiftl (byte_at scriptSig (1 + i)) (8 * Z.of_nat i))))
  end.

Definition validateCoinbaseScriptSig (scriptSig : list byte) (height : Z) : result BlockErr unit :=
  check len scriptSig <? 2 else ScriptSigTooShort (len scriptSig);
  check len scriptSig >? 100 else ScriptSigTooLong (len scriptSig);
  let pushLen := byte_at scriptSig 0 in
  check (pushLen <? 1) || (pushLen >? 4) else HeightPushLength pushLen;
  check len scriptSig <? 1 + pushLen else HeightPushShort (1 + pushLen) (len scriptSig);
  let encodedHeight := height_loop (Z.to_nat pushLen) 0 scriptSig 0 in
  check negb (encodedHeight =? height) else HeightMismatch encodedHeight height;
  Ok tt.

Definition reject_coinbase (_ : unit) (i : Z) (tx : Transaction) : result BlockErr unit :=
  check tx_IsCoinbase tx else UnexpectedCoinbase i; Ok tt.

Definition check_txid (txIDs : gset Hash) (i : Z) (tx : Transaction) : result BlockErr (gset Hash) :=
  let txID := HashTransaction tx in
  check bool_decide (txID ∈ txIDs) else DuplicateTxID txID i;
  Ok ({[txID]} ∪ txIDs).

Definition coinbase_overflow (coinbaseValue : Z) (out : TxOutput) : result BlockErr Z :=
  check add64 coinbaseValue (out_Value out) <? coinbaseValue else CoinbaseValueOverflow;
  Ok (add64 coinbaseValue (out_Value out)).

Definition ValidateBlockStructure (block : Block) (height : Z) (p : ChainParams) : result BlockErr unit :=
  match blk_Transactions block with
  | [] => Err NoTransactions
  | coinbase :: rest =>
      check negb (tx_IsCoinbase coinbase) else FirstNotCoinbase;
      let* _ :=
        if height >? 0 then
          match tx_Inputs coinbase with
          | [] => Err FirstNotCoinbase          (* a coinbase has one input *)
          | ti :: _ => rwrap CoinbaseScript (validateCoinbaseScriptSig (in_SignatureScript ti) height)
          end
        else Ok tt in
      let* _ := foldMi reject_coinbase 1 tt rest in
      let n := u32 (len (blk_Transactions block)) in
      check n >? p_MaxBlockTxCount p else TooManyTransactions n (p_MaxBlockTxCount p);
      let* _ := foldMi check_txid 0 ∅ (blk_Transactions block) in
      let merkle := ComputeMerkleRoot (blk_Transactions block) in
      check negb (bool_decide (merkle = hdr_MerkleRoot (blk_Header block)))
        else MerkleMismatch (hdr_MerkleRoot (blk_Header block)) merkle;
      let blockBytes := blk_Serialize block in
      check u32 (len blockBytes) >? p_MaxBlockSize p
        else BlockTooLarge (len blockBytes) (p_MaxBlockSize p);
      let* _ := foldM coinbase_overflow 0 (tx_Outputs coinbase) in
      Ok tt
  end.

(** ** Timestamps *)

(** [for i := uint32(0); i < medianCount && tipHeight >= i; i++]; [n] counts down from
    [medianCount]. *)
Fixpoint collect_timestamps (n : nat) (i : Z) (tipHeight : Z) (getAncestor : Z -> option BlockHeader)
  : list Z :=
  match n with
  | O => []
  | S n =>
      if tipHeight <? i then []
      else match getAncestor (tipHeight - i) with
           | None => []
           | Some h => hdr_Timestamp h :: collect_timestamps n (i + 1) tipHeight getAncestor
           end
  end.

(** The inner loop of the insertion sort, on the sorted prefix read from its right end:
    elements above [key] move one place up. *)
Fixpoint shift_up (key : Z) (rprefix : list Z) : list Z :=
  match rprefix with
  | [] => [key]
  | x :: r => if x >? key then x :: shift_up key r else key :: x :: r
  end.

Definition insertion_sort (timestamps : list Z) : list Z :=
  match timestamps with
  | [] => []
  | x :: rest => rev (fold_left (fun rprefix key => shift_up key rprefix) rest [x])
  end.

Definition medianCount : nat := 11.

Definition calcMedianTimePast (tipHeight : Z) (getAncestor : Z -> option BlockHeader) : Z :=
  let timestamps := collect_timestamps medianCount 0 tipHeight getAncestor in
  if len timestamps =? 0 then 0
  else nth (length timestamps / 2) (insertion_sort timestamps) 0.

Definition ValidateHeaderTimestamp (header parent : BlockHeader) (nowUnix : Z)
    (getAncestor : Z -> option BlockHeader) (tipHeight : Z) (p : ChainParams) : result BlockErr unit :=
  let maxFuture := add32 nowUnix (u32 (Z.quot (p_MaxTimeFutureDrift p) time_Second)) in
  check hdr_Timestamp header >? maxFuture else TooFarInFuture (hdr_Timestamp header) maxFuture;
  if bool_decide (p_MinTimestampRule p = "prev+1"%string) then
    check hdr_Timestamp header <=? hdr_Timestamp parent
      else NotAfterParent (hdr_Timestamp header) (hdr_Timestamp parent);
    Ok tt
  else if bool_decide (p_MinTimestampRule p = "median-11"%string) then
    let median := calcMedianTimePast tipHeight getAncestor in
    check hdr_Timestamp header <=? median else NotAfterMedian (hdr_Timestamp header) median;
    Ok tt
  else Err (UnknownTimestampRule (p_MinTimestampRule p)).

(** ** Lemmas: the height in the coinbase *)

Lemma height_loop_spec n i ss acc :
  (i + n <= 4)%nat -> (1 + i + n <= length ss)%nat -> 0 <= acc < 2^(8 * Z.of_nat i) ->
  height_loop n i ss acc = acc + le_combine (slice (1 + i) (1 + i + n) ss) * 2^(8 * Z.of_nat i).
Proof.
  revert i acc. induction n as [|n IH]; intros i acc Hi Hl Ha; cbn [height_loop].
  - unfold slice. rewrite Nat.add_0_r, Nat.sub_diag. rewrite take_0. change (le_combine []) with 0. lia.
  - destruct (lookup_lt_is_Some_2 ss (1 + i)) as [b Hb]; [lia|].
    assert (slice (1 + i) (1 + i + S n) ss = b :: slice (1 + S i) (1 + S i + n) ss) as ->.
    { unfold slice. rewrite (drop_S ss b (1 + i)) by done.
      replace (1 + i + S n - (1 + i))%nat with (S n) by lia.
      replace (1 + S i + n - (1 + S i))%nat with n by lia. done. }
    assert (byte_at ss (1 + i) = byte.unsigned b) as ->
      by (unfold byte_at; by rewrite (nth_lookup_Some _ _ _ b)).
    pose proof (byte.unsigned_range b) as Rb.
    assert (0 < 2^(8 * Z.of_nat i)) as Hp by lia.
    assert (2^(8 * Z.of_nat i) <= 2^24) as Hp24 by (apply Z.pow_le_mono_r; lia).
    rewrite u32_small by (unfold is_u32; rewrite Z.shiftl_mul_pow2 by lia; nia).
    rewrite lor_shiftl_add by lia.
    assert (2^(8 * Z.of_nat (S i)) = 256 * 2^(8 * Z.of_nat i)) as E.
    { rewrite Nat2Z.inj_succ, Z.mul_succ_r, Z.pow_add_r by lia. lia. }
    rewrite IH by (rewrite ?E; nia || lia). rewrite le_combine_cons, E. lia.
Qed.

Lemma validateCoinbaseScriptSig_Ok ss height :
  validateCoinbaseScriptSig ss height = Ok tt <->
  2 <= len ss <= 100 /\ 1 <= byte_at ss 0 <= 4 /\ 1 + byte_at ss 0 <= len ss
  /\ le_combine (slice 1 (1 + Z.to_nat (byte_at ss 0)) ss) = height.
Proof.
  unfold validateCoinbaseScriptSig. set (n := byte_at ss 0).
  destruct (Z.ltb_spec (len ss) 2); [split; [done|lia]|].
  rewrite !Z.gtb_ltb. destruct (Z.ltb_spec 100 (len ss)); [split; [done|lia]|].
  destruct (Z.ltb_spec n 1); [split; [done|lia]|]. destruct (Z.ltb_spec 4 n); [split; [done|lia]|].
  simpl orb. cbv iota. destruct (Z.ltb_spec (len ss) (1 + n)); [split; [done|lia]|].
  rewrite height_loop_spec by (simpl; lia). rewrite Z.mul_1_r, Z.add_0_l.
  destruct (Z.eqb_spec (le_combine (slice (1 + 0) (1 + 0 + Z.to_nat n) ss)) height); simpl in *.
  - split; [intros _; split_and!; done || lia|done].
  - split; [done|tauto].
Qed.

(** ** Lemmas: one transaction list per Merkle root

    With the ids of a list distinct, the root determines the list, without assuming
    that the two lists have the same length: a list and its padded copy are told apart by
    the duplicate, and trees of different depth by the 64 bytes an inner node hashes. *)

Module MerkleUnique.
Import Merkle MerkleFacts.

Definition hd_hash (l : list Hash) : Hash := hd ZeroHash l.

(** The left-most nodes of the levels above [l]. *)
Equations? inner_heads (l : list Hash) : list Hash by wf (length l) lt :=
  inner_heads [] := [];
  inner_heads [h] := [];
  inner_heads (a :: b :: rest) :=
    hd_hash (next (a :: b :: rest)) :: inner_heads (next (a :: b :: rest)).
Proof. apply next_shorter. Defined.

Fixpoint evens (l : list Hash) : list Hash :=
  match l with
  | a :: _ :: l => a :: evens l
  | [a] => [a]
  | [] => []
  end.

Lemma evens_sublist l : evens l `sublist_of` l.
Proof.
  induction l as [|a|a b l IH] using list_pair_ind; simpl; [done|done|].
  by apply sublist_skip, sublist_cons.
Qed.

Lemma evens_pad l : evens (pad l) = evens l.
Proof.
  unfold pad. generalize (List.last l ZeroHash) as z. intros z.
  destruct (Nat.odd (length l)) eqn:Ho; [|done]. revert Ho.
  induction l as [|a|a b l IH] using list_pair_ind; intros Ho; [done|done|].
  simpl. f_equal. by apply IH.
Qed.

Lemma in_combine_pairs x l :
  Nat.even (length l) = true -> x ∈ combine_pairs l ->
  exists a b, x = DoubleSHA256 (a ++ b) /\ a ∈ evens l /\ (a ++ b) ∈ pair_preimages l.
Proof.
  induction l as [|a|a b l IH] using list_pair_ind; simpl; intros He Hx; [set_solver|done|].
  apply elem_of_cons in Hx as [->|Hx].
  - exists a, b. set_solver.
  - destruct (IH He Hx) as (a' & b' & ? & ? & ?). exists a', b'. set_solver.
Qed.

Lemma wf_evens l : Forall wf_hash l -> Forall wf_hash (evens l).
Proof.
  induction l as [|a|a b l IH] using list_pair_ind; simpl; intros H; [done|done|].
  inversion H as [|?? Ha H1]; inversion H1; subst. constructor; auto.
Qed.

(** Distinct left children make distinct nodes. *)
Lemma combine_pairs_NoDup l :
  Forall wf_hash l -> Nat.even (length l) = true -> NoDup (evens l) ->
  collision_free (pair_preimages l) -> NoDup (combine_pairs l).
Proof.
  induction l as [|a|a b l IH] using list_pair_ind; simpl; intros W He Hn C; [constructor|done|].
  inversion W as [|?? Wa W1]; inversion W1 as [|?? Wb W2]; subst. apply NoDup_cons in Hn as [Ha Hn].
  constructor.
  - intros Hin. apply in_combine_pairs in Hin as (a' & b' & Hh & Ha' & Hp); [|done].
    apply C in Hh; [|set_solver|set_solver].
    pose proof (wf_evens l W2) as We. rewrite Forall_forall in We. specialize (We a' Ha').
    apply app_inj_1 in Hh as [-> _]; [done|unfold wf_hash in *; congruence].
  - apply IH; try done. eapply collision_free_mono; [exact C|set_solver].
Qed.

Lemma next_NoDup l :
  Forall wf_hash l -> NoDup l -> collision_free (pair_preimages (pad l)) -> NoDup (next l).
Proof.
  intros W Hn C. apply combine_pairs_NoDup; auto using wf_pad, even_pad.
  rewrite evens_pad. eapply sublist_NoDup; [done|apply evens_sublist].
Qed.

Lemma pad_NoDup_inj l1 l2 : NoDup l1 -> NoDup l2 -> pad l1 = pad l2 -> l1 = l2.
Proof.
  assert (forall l, Nat.odd (length l) = true -> ~ NoDup (l ++ [List.last l ZeroHash])) as Hdup.
  { intros l Ho Hn. destruct l as [|x l _] using rev_ind; [done|].
    rewrite List.last_last in Hn. apply NoDup_app in Hn as (_ & Hd & _). apply (Hd x); set_solver. }
  intros N1 N2. unfold pad.
  destruct (Nat.odd (length l1)) eqn:O1, (Nat.odd (length l2)) eqn:O2; intros E.
  - by apply app_inj_2 in E as [? _].
  - exfalso. apply (Hdup l1 O1). by rewrite E.
  - exfalso. apply (Hdup l2 O2). by rewrite <- E.
  - done.
Qed.

Lemma length_even_half (l1 l2 : list Hash) :
  Nat.even (length l1) = true -> Nat.even (length l2) = true ->
  Nat.div2 (length l1) = Nat.div2 (length l2) -> length l1 = length l2.
Proof.
  intros E1 E2 E. apply Nat.even_spec in E1, E2.
  rewrite (Nat.Even_double _ E1), (Nat.Even_double _ E2), E. done.
Qed.

Lemma next_NoDup_inj l1 l2 :
  Forall wf_hash l1 -> Forall wf_hash l2 -> NoDup l1 -> NoDup l2 ->
  collision_free (pair_preimages (pad l1) ++ pair_preimages (pad l2)) ->
  next l1 = next l2 -> l1 = l2.
Proof.
  intros W1 W2 N1 N2 C E. apply pad_NoDup_inj; [done|done|].
  apply combine_pairs_inj; auto using wf_pad, even_pad.
  apply length_even_half; auto using even_pad. rewrite <- !length_combine_pairs. unfold next in E. by rewrite E.
Qed.

(** A left-most node is the hash of the left-most node below it and its sibling. *)
Lemma hd_next a b r :
  exists y, hd_hash (next (a :: b :: r)) = DoubleSHA256 (a ++ y)
    /\ (a ++ y) ∈ pair_preimages (pad (a :: b :: r)).
Proof. exists b. unfold next, pad. destruct (Nat.odd _); simpl; set_solver. Qed.

Lemma inner_heads_spec h l :
  h ∈ inner_heads l ->
  exists x y, h = DoubleSHA256 (x ++ y) /\ (x = hd_hash l \/ x ∈ inner_heads l)
    /\ (x ++ y) ∈ preimages l.
Proof.
  revert h. induction l as [l IH] using list_length_ind.
  intros h Hh. destruct l as [|a [|b r]]; simp inner_heads in Hh; [set_solver|set_solver|].
  simp preimages. apply elem_of_cons in Hh as [->|Hh].
  - destruct (hd_next a b r) as (y & -> & Hy). exists a, y. set_solver.
  - destruct (IH (next (a :: b :: r)) (next_shorter a b r) h Hh) as (x & y & -> & Hx & Hp).
    exists x, y. split; [done|]. split; [|set_solver]. right. simp inner_heads.
    destruct Hx as [->|Hx]; set_solver.
Qed.

Lemma loop_inner_heads l : (1 < length l)%nat -> loop l ∈ inner_heads l.
Proof.
  induction l as [l IH] using list_length_ind.
  intros Hl. destruct l as [|a [|b r]]; simpl in Hl; try lia. simp loop inner_heads.
  pose proof (length_next (a :: b :: r)) as Hn. cbn [length] in Hn.
  destruct (next (a :: b :: r)) as [|x [|y t]] eqn:E; simpl in Hn.
  - lia.
  - simp loop. simpl. set_solver.
  - right. rewrite <- E. apply IH; [apply next_shorter|]. rewrite E. simpl. lia.
Qed.

(** No left-most node of one tree is a higher left-most node of the other, one level up. *)
Lemma heads_apart_next l1 l2 :
  (1 < length l1)%nat -> (1 < length l2)%nat -> Forall wf_hash l1 -> Forall wf_hash l2 ->
  collision_free (preimages l1 ++ preimages l2) ->
  hd_hash l1 ∉ inner_heads l2 -> hd_hash (next l1) ∉ inner_heads (next l2).
Proof.
  intros L1 L2 W1 W2 C Hap Hin.
  destruct l1 as [|a [|b r]], l2 as [|c [|d t]]; simpl in L1, L2; try lia.
  destruct (inner_heads_spec _ _ Hin) as (x & y & Hxy & Hx & Hp).
  destruct (hd_next a b r) as (z & Hz & Hpz). rewrite Hz in Hxy.
  apply C in Hxy; [| simp preimages; set_solver | simp preimages; set_solver].
  assert (x ∈ inner_heads (c :: d :: t)) as Hx' by (simp inner_heads; destruct Hx as [->|Hx]; set_solver).
  assert (wf_hash x).
  { destruct (inner_heads_spec _ _ Hx') as (? & ? & -> & _). apply wf_DoubleSHA256. }
  apply app_inj_1 in Hxy as [-> _]; [done|]. inversion W1; subst. unfold wf_hash in *. congruence.
Qed.

Lemma loop_unique n l1 l2 :
  (length l1 + length l2 <= n)%nat -> l1 <> [] -> l2 <> [] ->
  Forall wf_hash l1 -> Forall wf_hash l2 -> NoDup l1 -> NoDup l2 ->
  collision_free (preimages l1 ++ preimages l2) ->
  hd_hash l1 ∉ inner_heads l2 -> hd_hash l2 ∉ inner_heads l1 ->
  loop l1 = loop l2 -> l1 = l2.
Proof.
  revert l1 l2. induction n as [|n IH]; intros l1 l2 Hn E1 E2 W1 W2 N1 N2 C A1 A2 H.
  { destruct l1; [done|simpl in Hn; lia]. }
  destruct l1 as [|a [|b r]]; [done| |]; destruct l2 as [|c [|d t]]; try done.
  - simp loop in H. by subst.
  - exfalso. pose proof (loop_inner_heads (c :: d :: t) ltac:(simpl; lia)) as Hin.
    rewrite <- H in Hin. simp loop in Hin. done.
  - exfalso. pose proof (loop_inner_heads (a :: b :: r) ltac:(simpl; lia)) as Hin.
    rewrite H in Hin. simp loop in Hin. done.
  - pose proof (next_shorter a b r). pose proof (next_shorter c d t).
    set (m1 := a :: b :: r) in *. set (m2 := c :: d :: t) in *.
    assert (preimages m1 = pair_preimages (pad m1) ++ preimages (next m1)) as P1 by (subst m1; by simp preimages).
    assert (preimages m2 = pair_preimages (pad m2) ++ preimages (next m2)) as P2 by (subst m2; by simp preimages).
    assert (next m1 <> [] /\ next m2 <> []) as [X1 X2].
    { pose proof (length_next m1). pose proof (length_next m2). subst m1 m2. simpl in *.
      split; intros X; rewrite X in *; simpl in *; lia. }
    apply next_NoDup_inj; [done|done|done|done| |].
    + eapply collision_free_mono; [exact C|]. rewrite P1, P2. set_solver.
    + apply IH; try done.
      * lia.
      * apply wf_combine_pairs.
      * apply wf_combine_pairs.
      * apply next_NoDup; [done|done|]. eapply collision_free_mono; [exact C|]. rewrite P1. set_solver.
      * apply next_NoDup; [done|done|]. eapply collision_free_mono; [exact C|]. rewrite P2. set_solver.
      * eapply collision_free_mono; [exact C|]. rewrite P1, P2. set_solver.
      * apply heads_apart_next; try done; subst m1 m2; simpl; lia.
      * apply heads_apart_next; try done; try (subst m1 m2; simpl; lia).
        eapply collision_free_mono; [exact C|]. set_solver.
      * revert H. subst m1 m2. by simp loop.
Qed.
End MerkleUnique.

(** ** Lemmas: what an accepted block satisfies *)

Lemma reject_coinbase_Ok txs i r :
  foldMi reject_coinbase i tt txs = Ok r -> Forall (fun tx => tx_IsCoinbase tx = false) txs.
Proof.
  revert i. induction txs as [|tx txs IH]; intros i H; [constructor|].
  cbn [foldMi] in H. apply rbind_Ok in H as ([] & H1 & H2). unfold reject_coinbase in H1.
  repeat inv_ok_step. constructor; eauto.
Qed.

Lemma check_txid_Ok txs i seen r :
  foldMi check_txid i seen txs = Ok r ->
  NoDup (map HashTransaction txs) /\ Forall (fun h => h ∉ seen) (map HashTransaction txs).
Proof.
  revert i seen. induction txs as [|tx txs IH]; intros i seen H; [split; constructor|].
  cbn [foldMi] in H. apply rbind_Ok in H as (seen' & H1 & H2). unfold check_txid in H1.
  repeat inv_ok_step. bool_to_prop. apply IH in H2 as [Hn Hf]. cbn [map].
  rewrite Forall_forall in Hf. split.
  - apply NoDup_cons. split; [|done]. intros Hin. apply (Hf _ Hin). set_solver.
  - apply Forall_cons. split; [done|]. apply Forall_forall. intros h Hh. specialize (Hf h Hh). set_solver.
Qed.

Lemma reject_coinbase_pass txs i :
  Forall (fun tx => tx_IsCoinbase tx = false) txs -> foldMi reject_coinbase i tt txs = Ok tt.
Proof.
  intros H. revert i. induction H as [|tx txs Htx _ IH]; intros i; [done|].
  cbn [foldMi]. unfold reject_coinbase at 1. rewrite Htx. apply IH.
Qed.

Lemma check_txid_pass txs i seen :
  NoDup (map HashTransaction txs) -> Forall (fun h => h ∉ seen) (map HashTransaction txs) ->
  exists r, foldMi check_txid i seen txs = Ok r.
Proof.
  revert i seen. induction txs as [|tx txs IH]; intros i seen Hn Hf; [by eexists|].
  cbn [map] in *. apply NoDup_cons in Hn as [Hx Hn]. apply Forall_cons in Hf as [Hs Hf].
  cbn [foldMi]. unfold check_txid at 1. rewrite bool_decide_false by done. cbn [rbind]. apply IH; [done|].
  apply Forall_forall. rewrite Forall_forall in Hf. intros h Hh. specialize (Hf h Hh). set_solver.
Qed.

(** The height push of the miner's coinbase is accepted for that height. *)
Lemma height_push_valid h extra :
  is_u32 h -> len extra <= 95 ->
  validateCoinbaseScriptSig (byte.of_Z 4 :: PutUint32LE h ++ extra) h = Ok tt.
Proof.
  intros Hh He. apply validateCoinbaseScriptSig_Ok.
  rewrite byte_at_of_Z by lia. cbn [length]. rewrite length_app, length_PutUint32LE.
  split_and!; try lia.
  rewrite (slice_at _ _ _ [byte.of_Z 4] (PutUint32LE h) extra); [|done|done|by rewrite length_PutUint32LE].
  by apply ReadUintLE_Put32.
Qed.

(** What is enough for a block to have a valid structure. *)
Lemma ValidateBlockStructure_pass b height p cb rest ti o :
  blk_Transactions b = cb :: rest -> tx_Inputs cb = [ti] -> tx_Outputs cb = [o] -> is_u64 (out_Value o) ->
  tx_IsCoinbase cb = true -> validateCoinbaseScriptSig (in_SignatureScript ti) height = Ok tt ->
  Forall (fun tx => tx_IsCoinbase tx = false) rest ->
  NoDup (map HashTransaction (cb :: rest)) ->
  ComputeMerkleRoot (cb :: rest) = hdr_MerkleRoot (blk_Header b) ->
  u32 (len (cb :: rest)) <= p_MaxBlockTxCount p -> u32 (len (blk_Serialize b)) <= p_MaxBlockSize p ->
  ValidateBlockStructure b height p = Ok tt.
Proof.
  intros Ht Hi Ho Hv Hcb Hh Hr Hn Hm Hc Hz. unfold ValidateBlockStructure. rewrite Ht, Hcb, Hi, Hh. cbn [negb].
  replace (if height >? 0 then rwrap CoinbaseScript (Ok tt) else Ok tt) with (Ok (E := BlockErr) tt) by (by destruct (height >? 0)).
  cbn [rbind]. rewrite reject_coinbase_pass by done. cbn [rbind].
  rewrite Z.gtb_ltb, (proj2 (Z.ltb_ge _ _)) by done.
  destruct (check_txid_pass (cb :: rest) 0 ∅ Hn) as [r Hx]; [apply Forall_forall; set_solver|]. rewrite Hx. cbn [rbind].
  rewrite bool_decide_true by done. cbn [negb]. rewrite Z.gtb_ltb, (proj2 (Z.ltb_ge _ _)) by done.
  rewrite Ho. cbn [foldM]. unfold coinbase_overflow. unfold is_u64 in Hv.
  rewrite add64_overflow by (unfold is_u64; lia). rewrite (proj2 (Z.ltb_lt _ _)) by lia. done.
Qed.

Lemma ValidateBlockStructure_Ok b height p :
  ValidateBlockStructure b height p = Ok tt ->
  let txs := blk_Transactions b in
  coinbase_first txs
  /\ NoDup (map HashTransaction txs)
  /\ ComputeMerkleRoot txs = hdr_MerkleRoot (blk_Header b)
  /\ u32 (len txs) <= p_MaxBlockTxCount p
  /\ u32 (len (blk_Serialize b)) <= p_MaxBlockSize p
  /\ (0 < height -> exists cb rest ti, txs = cb :: rest /\ tx_Inputs cb = [ti]
        /\ validateCoinbaseScriptSig (in_SignatureScript ti) height = Ok tt).
Proof.
  intros H txs. unfold ValidateBlockStructure in H. fold txs in H.
  destruct txs as [|cb rest] eqn:Htxs; [done|].
  destruct (tx_IsCoinbase cb) eqn:Hcb; [|done]. simpl negb in H. cbv iota in H.
  apply rbind_Ok in H as ([] & Hh & H). apply rbind_Ok in H as ([] & Hr & H).
  destruct (_ >? p_MaxBlockTxCount p) eqn:Hn; [done|]. apply rbind_Ok in H as (ids & Hi & H).
  destruct (negb _) eqn:Hm; [done|]. destruct (_ >? p_MaxBlockSize p) eqn:Hz; [done|].
  bool_to_prop. apply reject_coinbase_Ok in Hr. apply check_txid_Ok in Hi as [Hi _].
  split_and!; try done; [by exists cb, rest|].
  intros Hpos. exists cb, rest. rewrite Z.gtb_ltb, (proj2 (Z.ltb_lt _ _)) in Hh by done.
  unfold tx_IsCoinbase in Hcb. destruct (tx_Inputs cb) as [|ti [|]]; try done.
  exists ti. split_and!; try done. by apply rwrap_Ok in Hh.
Qed.

(** ** Lemmas: the median *)

Lemma shift_up_perm key r : shift_up key r ≡ₚ key :: r.
Proof.
  induction r as [|x r IH]; simpl; [done|]. destruct (x >? key); [|done]. rewrite IH. apply perm_swap.
Qed.

Lemma shift_up_sorted key r : StronglySorted Z.ge r -> StronglySorted Z.ge (shift_up key r).
Proof.
  induction 1 as [|x r Hr IH Hx]; simpl; [repeat constructor|].
  rewrite Z.gtb_ltb. destruct (Z.ltb_spec key x).
  - constructor; [done|]. rewrite Forall_forall in *. intros y Hy. rewrite shift_up_perm in Hy.
    apply elem_of_cons in Hy as [->|Hy]; [lia|auto].
  - constructor; [by constructor|]. constructor; [lia|]. eapply Forall_impl; [done|]. simpl. lia.
Qed.

Lemma insertion_fold rest acc :
  StronglySorted Z.ge acc ->
  let r := fold_left (fun rprefix key => shift_up key rprefix) rest acc in
  StronglySorted Z.ge r /\ r ≡ₚ rest ++ acc.
Proof.
  revert acc. induction rest as [|x rest IH]; intros acc Ha; simpl; [done|].
  destruct (IH (shift_up x acc)) as [H1 H2]; [by apply shift_up_sorted|].
  split; [done|]. rewrite H2, shift_up_perm. by rewrite Permutation_middle.
Qed.

Lemma sorted_rev l : StronglySorted Z.ge l -> StronglySorted Z.le (rev l).
Proof.
  induction 1 as [|x l Hl IH Hx]; simpl; [constructor|].
  clear Hl. revert IH Hx. rewrite <- (rev_involutive l) at 2. generalize (rev l) as m. intros m Hm.
  induction Hm as [|y m Hm IH Hy]; intros Hx; simpl; [repeat constructor|].
  simpl in Hx. apply Forall_app in Hx as [Hx Hyx]. inversion Hyx; subst.
  constructor; [auto|]. apply Forall_app. split; [done|]. constructor; [lia|constructor].
Qed.

Lemma insertion_sort_spec l : StronglySorted Z.le (insertion_sort l) /\ insertion_sort l ≡ₚ l.
Proof.
  destruct l as [|x rest]; [split; [constructor|done]|]. unfold insertion_sort.
  destruct (insertion_fold rest [x]) as [H1 H2]; [repeat constructor|].
  split; [by apply sorted_rev|]. rewrite <- Permutation_rev, H2. by rewrite Permutation_app_comm.
Qed.

(** The number of elements below [x]. *)
Definition count_below (x : Z) (l : list Z) : nat := length (filter (fun t => t < x) l).

Lemma sorted_count l k x :
  StronglySorted Z.le l -> (k < length l)%nat -> nth k l 0 < x <-> (k < count_below x l)%nat.
Proof.
  intros Hl. revert k. unfold count_below. induction Hl as [|y l Hl IH Hy]; intros k Hk; simpl in *; [lia|].
  rewrite filter_cons. destruct k as [|k].
  - destruct (decide (y < x)); simpl; [lia|].
    split; [lia|]. intros Hc. destruct (filter _ l) as [|z t] eqn:E; simpl in Hc; [lia|].
    assert (z ∈ filter (fun t => t < x) l) as Hz by (rewrite E; set_solver).
    apply list_elem_of_filter in Hz as [Hzx Hz]. rewrite Forall_forall in Hy. specialize (Hy z Hz). lia.
  - rewrite IH by lia. destruct (decide (y < x)); simpl; [lia|].
    split; [|lia]. intros Hc. destruct (filter _ l) as [|z t] eqn:E; simpl in Hc; [lia|].
    assert (z ∈ filter (fun t => t < x) l) as Hz by (rewrite E; set_solver).
    apply list_elem_of_filter in Hz as [Hzx Hz]. rewrite Forall_forall in Hy. specialize (Hy z Hz). lia.
Qed.

Lemma median_count tip anc x :
  let ts := collect_timestamps medianCount 0 tip anc in
  ts <> [] -> calcMedianTimePast tip anc < x <-> (length ts / 2 < count_below x ts)%nat.
Proof.
  intros ts Hts. unfold calcMedianTimePast. fold ts.
  destruct (Z.eqb_spec (len ts) 0) as [E|_]; [destruct ts; [done|simpl in E; lia]|].
  destruct (insertion_sort_spec ts) as [H1 H2].
  pose proof (Permutation_length H2) as HL.
  rewrite sorted_count; [|done|].
  - unfold count_below. by rewrite (filter_Permutation _ _ _ H2).
  - rewrite HL. destruct ts; [done|]. apply Nat.div_lt; simpl; lia.
Qed.

(** ** Properties *)

Import Merkle MerkleFacts MerkleUnique.

(** Every string that is hashed to relate a block's transactions to its Merkle root. *)
Definition hashed_strings (txs : list Transaction) : list (list byte) :=
  map tx_Serialize txs ++ preimages (map HashTransaction txs).

Lemma pair_preimage_length l z :
  Forall wf_hash l -> z ∈ pair_preimages l -> length z = 64%nat.
Proof.
  revert z. induction l as [|a|a b l IH] using list_pair_ind; intros z W Hz; simpl in Hz;
    [set_solver|set_solver|].
  inversion W as [|?? Wa W1]; inversion W1 as [|?? Wb W2]; subst.
  apply elem_of_cons in Hz as [->|Hz]; [|by apply IH].
  rewrite length_app. unfold wf_hash, HashSize in *. lia.
Qed.

(** Inner nodes hash 64 bytes. *)
Lemma preimage_length l z : Forall wf_hash l -> z ∈ preimages l -> length z = 64%nat.
Proof.
  induction l as [l IH] using list_length_ind. intros W Hz.
  destruct l as [|a [|b r]]; simp preimages in Hz; [set_solver|set_solver|].
  apply elem_of_app in Hz as [Hz|Hz].
  - by apply (pair_preimage_length (pad (a :: b :: r))); [apply wf_pad|].
  - apply (IH (next (a :: b :: r))); [apply next_shorter|apply wf_combine_pairs|done].
Qed.

Lemma leaf_apart txs1 txs2 :
  txs1 <> [] -> Forall (fun tx => length (tx_Serialize tx) <> 64%nat) txs1 ->
  collision_free (hashed_strings txs1 ++ hashed_strings txs2) ->
  hd_hash (map HashTransaction txs1) ∉ inner_heads (map HashTransaction txs2).
Proof.
  intros Hne H64 C Hin. destruct txs1 as [|tx txs1]; [done|].
  destruct (inner_heads_spec _ _ Hin) as (x & y & Hxy & Hx & Hp).
  assert (tx_Serialize tx = x ++ y) as E.
  { apply C; [unfold hashed_strings; set_solver|unfold hashed_strings; set_solver|exact Hxy]. }
  apply Forall_cons in H64 as [H64 _]. apply H64. rewrite E.
  apply (preimage_length (map HashTransaction txs2)); [|done].
  apply Forall_map, Forall_forall. intros. apply wf_DoubleSHA256.
Qed.

Lemma HashTransaction_inj txs1 txs2 :
  Forall wf_tx txs1 -> Forall wf_tx txs2 ->
  collision_free (map tx_Serialize txs1 ++ map tx_Serialize txs2) ->
  map HashTransaction txs1 = map HashTransaction txs2 -> txs1 = txs2.
Proof.
  intros W1. revert txs2. induction W1 as [|tx txs1 Wt W1 IH]; intros [|tx2 txs2] W2 C E;
    try discriminate E; [done|].
  cbn [map] in E. apply cons_eq_inv in E as [E1 E2]. apply Forall_cons in W2 as [Wt2 W2].
  assert (tx_Serialize tx = tx_Serialize tx2) as Es by (apply C; [set_solver|set_solver|exact E1]).
  rewrite <- (app_nil_r (tx_Serialize tx)), <- (app_nil_r (tx_Serialize tx2)) in Es.
  apply (encode_prefix_free (dec := tx_Deserialize)) in Es as [-> _]; [|done|done].
  f_equal. apply IH; [done| |done]. eapply collision_free_mono; [exact C|set_solver].
Qed.

(** Two structurally valid blocks with the same Merkle root have the same transactions. *)
Lemma structure_commits b1 b2 h1 h2 p :
  ValidateBlockStructure b1 h1 p = Ok tt -> ValidateBlockStructure b2 h2 p = Ok tt ->
  hdr_MerkleRoot (blk_Header b1) = hdr_MerkleRoot (blk_Header b2) ->
  Forall wf_tx (blk_Transactions b1) -> Forall wf_tx (blk_Transactions b2) ->
  Forall (fun tx => length (tx_Serialize tx) <> 64%nat) (blk_Transactions b1 ++ blk_Transactions b2) ->
  collision_free (hashed_strings (blk_Transactions b1) ++ hashed_strings (blk_Transactions b2)) ->
  blk_Transactions b1 = blk_Transactions b2.
Proof.
  intros V1 V2 Hm W1 W2 H64 C.
  apply ValidateBlockStructure_Ok in V1 as ((c1 & r1 & E1 & _) & N1 & M1 & _).
  apply ValidateBlockStructure_Ok in V2 as ((c2 & r2 & E2 & _) & N2 & M2 & _).
  set (t1 := blk_Transactions b1) in *. set (t2 := blk_Transactions b2) in *.
  apply Forall_app in H64 as [H641 H642].
  assert (t1 <> [] /\ t2 <> []) as [X1 X2] by (rewrite E1, E2; done).
  apply HashTransaction_inj; [done|done| |].
  { eapply collision_free_mono; [exact C|]. unfold hashed_strings. set_solver. }
  apply (loop_unique (length (map HashTransaction t1) + length (map HashTransaction t2))); try done.
  - by destruct t1.
  - by destruct t2.
  - apply Forall_map, Forall_forall. intros. apply wf_DoubleSHA256.
  - apply Forall_map, Forall_forall. intros. apply wf_DoubleSHA256.
  - eapply collision_free_mono; [exact C|]. unfold hashed_strings. set_solver.
  - by apply leaf_apart.
  - apply leaf_apart; [done|done|]. eapply collision_free_mono; [exact C|]. set_solver.
  - rewrite <- Hm, <- M1 in M2. unfold ComputeMerkleRoot, MerkleRoot in M2.
    rewrite !length_map in M2. by destruct t1, t2.
Qed.

(** C23. A header commits to one list of transactions: two blocks that pass
    [ValidateBlockStructure] and carry the same Merkle root have the same transactions,
    even of different number, if no SHA-256 collision occurs among the strings hashed and
    no transaction is exactly 64 bytes long (the size of an inner node).  This is what
    rejecting duplicate ids before the root comparison achieves. *)
Theorem header_commits_to_txs b1 b2 h1 h2 p :
  ValidateBlockStructure b1 h1 p = Ok tt -> ValidateBlockStructure b2 h2 p = Ok tt ->
  hdr_MerkleRoot (blk_Header b1) = hdr_MerkleRoot (blk_Header b2) ->
  Forall wf_tx (blk_Transactions b1) -> Forall wf_tx (blk_Transactions b2) ->
  Forall (fun tx => length (tx_Serialize tx) <> 64%nat) (blk_Transactions b1 ++ blk_Transactions b2) ->
  collision_free (hashed_strings (blk_Transactions b1) ++ hashed_strings (blk_Transactions b2)) ->
  blk_Transactions b1 = blk_Transactions b2.
Proof. apply structure_commits. Qed.

Lemma wf_example_txs : Forall wf_tx (blk_Transactions example_block).
Proof.
  repeat constructor; try (by vm_compute); simpl; unfold wf_script, MaxScriptSize; simpl; lia.
Qed.

(** The block sealed again, and a block with another payment. *)
Definition resealed_block : Block := {|
  blk_Header := {| hdr_Version := 2; hdr_PrevBlock := ZeroHash;
                   hdr_MerkleRoot := ComputeMerkleRoot [example_coinbase; example_tx];
                   hdr_Timestamp := 600; hdr_Bits := 0; hdr_Nonce := 77 |};
  blk_Transactions := [example_coinbase; example_tx] |}.
Definition other_block : Block := {|
  blk_Header := {| hdr_Version := 1; hdr_PrevBlock := ZeroHash;
                   hdr_MerkleRoot := ComputeMerkleRoot [example_coinbase; overpaid_tx];
                   hdr_Timestamp := 0; hdr_Bits := 0; hdr_Nonce := 0 |};
  blk_Transactions := [example_coinbase; overpaid_tx] |}.
Lemma wf_other_txs : Forall wf_tx (blk_Transactions other_block).
Proof. repeat (apply Forall_cons; split); [exact (Forall_inv wf_example_txs)|apply wf_variants|constructor]. Qed.

(** Two blocks with the same root, and two whose roots must differ. *)
Lemma header_commits_to_txs_witness :
  (resealed_block <> example_block /\ blk_Transactions example_block = blk_Transactions resealed_block)
  /\ hdr_MerkleRoot (blk_Header example_block) <> hdr_MerkleRoot (blk_Header other_block).
Proof.
  split; [split; [discriminate|]|intros E].
  - apply (header_commits_to_txs example_block resealed_block 9 9 Mainnet);
      [vm_compute; reflexivity|vm_compute; reflexivity|reflexivity|apply wf_example_txs|apply wf_example_txs|
       refine (bool_decide_unpack _ _); vm_compute; exact I..].
  - assert (blk_Transactions example_block = blk_Transactions other_block) as F; [|discriminate F].
    apply (header_commits_to_txs example_block other_block 9 9 Mainnet);
      [vm_compute; reflexivity|vm_compute; reflexivity|exact E|apply wf_example_txs|apply wf_other_txs|
       refine (bool_decide_unpack _ _); vm_compute; exact I..].
Defined.

(** The coinbase script commits to the height (BIP34): a script accepted at two heights
    means the heights are equal, so coinbases of different heights differ; and the
    miner's encoding, a 4-byte little-endian push, is accepted at every height. *)
Theorem coinbase_height_unique ss h1 h2 extra :
  (validateCoinbaseScriptSig ss h1 = Ok tt -> validateCoinbaseScriptSig ss h2 = Ok tt -> h1 = h2)
  /\ (is_u32 h1 -> len extra <= 95 ->
      validateCoinbaseScriptSig (byte.of_Z 4 :: PutUint32LE h1 ++ extra) h1 = Ok tt).
Proof.
  split.
  - intros H1 H2. apply validateCoinbaseScriptSig_Ok in H1 as (_ & _ & _ & <-).
    by apply validateCoinbaseScriptSig_Ok in H2 as (_ & _ & _ & <-).
  - apply height_push_valid.
Qed.

(** The median-time rule: on a network with the ["median-11"] rule a header is accepted
    exactly when its timestamp is not beyond the allowed drift and a strict majority of
    the timestamps of the last up to eleven blocks is below it. *)
Theorem median_time_rule header parent now anc tip p :
  p_MinTimestampRule p = "median-11"%string ->
  let ts := collect_timestamps medianCount 0 tip anc in
  ts <> [] ->
  ValidateHeaderTimestamp header parent now anc tip p = Ok tt <->
  hdr_Timestamp header <= add32 now (u32 (Z.quot (p_MaxTimeFutureDrift p) time_Second))
  /\ (length ts / 2 < count_below (hdr_Timestamp header) ts)%nat.
Proof.
  intros Hr ts Hts. unfold ValidateHeaderTimestamp. rewrite Hr.
  rewrite bool_decide_false, bool_decide_true by done.
  pose proof (median_count tip anc (hdr_Timestamp header) Hts) as Hmc. fold ts in Hmc. rewrite <- Hmc.
  rewrite Z.gtb_ltb. set (mx := add32 now _).
  destruct (Z.ltb_spec mx (hdr_Timestamp header)); [split; [done|lia]|].
  destruct (Z.leb_spec (hdr_Timestamp header) (calcMedianTimePast tip anc)); [split; [done|lia]|].
  split; [split; lia|done].
Qed.

(** A chain of three headers with timestamps out of order. *)
Definition example_header (ts : Z) : BlockHeader :=
  {| hdr_Version := 1; hdr_PrevBlock := ZeroHash; hdr_MerkleRoot := ZeroHash;
     hdr_Timestamp := ts; hdr_Bits := 0; hdr_Nonce := 0 |}.
Definition example_ancestor (h : Z) : option BlockHeader :=
  if h =? 0 then Some (example_header 100) else if h =? 1 then Some (example_header 300)
  else if h =? 2 then Some (example_header 200) else None.

Lemma median_time_rule_witness :
  ValidateHeaderTimestamp (example_header 201) (example_header 200) 500 example_ancestor 2 Mainnet = Ok tt
  /\ ~ ValidateHeaderTimestamp (example_header 200) (example_header 200) 500 example_ancestor 2 Mainnet = Ok tt.
Proof.
  split.
  - apply median_time_rule; [reflexivity|vm_compute; discriminate|]. vm_compute. split; [discriminate|lia].
  - rewrite median_time_rule; [|reflexivity|vm_compute; discriminate]. vm_compute. intros [_ H]. lia.
Defined.
