(* ===== verification/Pow.v ===== *)
(** * The consensus engine interface and the proof-of-work engine

    Models [src/internal/consensus/engine.go] (the class [Engine]) and
    [src/internal/consensus/pow/engine.go] (its instance [pow_engine]).  The engine divides by
    [RetargetInterval] and by the target timespan in seconds, which are positive on
    every network; with zero the Go code would panic. *)
From S2P Require Import Prelude Types Sha256 Crypto Target Params Utxo TxValidation.
From S2P Require Import BlockValidation.

Inductive HeaderErr :=
| PrevHashMismatch (header expected : Hash)
| WrongBits (height got expected : Z)
| PowFailed (height : Z) (e : PowErr).

(** ** The pluggable interface *)

(** [SealHeader] updates the nonce of the header it is given. *)
Class Engine := {
  ValidateHeader (header parent : BlockHeader) (height : Z)
    (getAncestor : Z -> option BlockHeader) (p : ChainParams) : result HeaderErr unit;
  ValidateBlock (block : Block) (height : Z) (p : ChainParams) : result BlockErr unit;
  CalcNextBits (tip : BlockHeader) (tipHeight : Z)
    (getAncestor : Z -> option BlockHeader) (p : ChainParams) : Z;
  PrepareHeader (header parent : BlockHeader) (parentHeight : Z)
    (getAncestor : Z -> option BlockHeader) (p : ChainParams) : BlockHeader;
  SealHeader (header : BlockHeader) (target : Hash) (maxIterations : nat) : bool * BlockHeader;
  Name : string }.

(** ** Proof of work *)

Definition with_bits (h : BlockHeader) (bits : Z) : BlockHeader :=
  {| hdr_Version := hdr_Version h; hdr_PrevBlock := hdr_PrevBlock h; hdr_MerkleRoot := hdr_MerkleRoot h;
     hdr_Timestamp := hdr_Timestamp h; hdr_Bits := bits; hdr_Nonce := hdr_Nonce h |}.
Definition with_nonce (h : BlockHeader) (nonce : Z) : BlockHeader :=
  {| hdr_Version := hdr_Version h; hdr_PrevBlock := hdr_PrevBlock h; hdr_MerkleRoot := hdr_MerkleRoot h;
     hdr_Timestamp := hdr_Timestamp h; hdr_Bits := hdr_Bits h; hdr_Nonce := nonce |}.
Definition with_merkle (h : BlockHeader) (root : Hash) : BlockHeader :=
  {| hdr_Version := hdr_Version h; hdr_PrevBlock := hdr_PrevBlock h; hdr_MerkleRoot := root;
     hdr_Timestamp := hdr_Timestamp h; hdr_Bits := hdr_Bits h; hdr_Nonce := hdr_Nonce h |}.

Definition pow_CalcNextBits (tip : BlockHeader) (tipHeight : Z)
    (getAncestor : Z -> option BlockHeader) (p : ChainParams) : Z :=
  if p_NoRetarget p then p_InitialBits p
  else
    let nextHeight := add32 tipHeight 1 in
    if negb (nextHeight mod p_RetargetInterval p =? 0) then hdr_Bits tip
    else
      let windowStart := sub32 tipHeight (sub32 (p_RetargetInterval p) 1) in
      match getAncestor windowStart with
      | None => hdr_Bits tip
      | Some firstHeader =>
          let actualTimespan := hdr_Timestamp tip - hdr_Timestamp firstHeader in
          let targetTimespan := Z.quot (p_TargetTimespan p) time_Second in
          let actualTimespan :=
            if actualTimespan <? Z.quot targetTimespan 4 then Z.quot targetTimespan 4
            else actualTimespan in
          let actualTimespan :=
            if actualTimespan >? targetTimespan * 4 then targetTimespan * 4 else actualTimespan in
          let oldTarget := CompactToBig (hdr_Bits tip) in
          let newTarget := (oldTarget * actualTimespan) / targetTimespan in
          let maxTarget := CompactToBig (p_MinBits p) in
          let newTarget := if newTarget >? maxTarget then maxTarget else newTarget in
          BigToCompact newTarget
      end.

Definition pow_ValidateHeader (header parent : BlockHeader) (height : Z)
    (getAncestor : Z -> option BlockHeader) (p : ChainParams) : result HeaderErr unit :=
  let parentHash := HashBlockHeader parent in
  check negb (bool_decide (hdr_PrevBlock header = parentHash))
    else PrevHashMismatch (hdr_PrevBlock header) parentHash;
  let expectedBits := pow_CalcNextBits parent (sub32 height 1) getAncestor p in
  check negb (hdr_Bits header =? expectedBits) else WrongBits height (hdr_Bits header) expectedBits;
  let headerHash := HashBlockHeader header in
  let* _ := rwrap (PowFailed height) (ValidateProofOfWork headerHash (hdr_Bits header)) in
  Ok tt.

Definition pow_PrepareHeader (header parent : BlockHeader) (parentHeight : Z)
    (getAncestor : Z -> option BlockHeader) (p : ChainParams) : BlockHeader :=
  with_bits header (pow_CalcNextBits parent parentHeight getAncestor p).

(** [for i := uint64(0); i < maxIterations; i++]: whether a nonce was found, and the
    header as it was left. *)
Fixpoint pow_SealHeader (header : BlockHeader) (target : Hash) (maxIterations : nat) : bool * BlockHeader :=
  match maxIterations with
  | O => (false, header)
  | S n =>
      let hash := HashBlockHeader header in
      if LessOrEqual hash target then (true, header)
      else
        let header := with_nonce header (add32 (hdr_Nonce header) 1) in
        if hdr_Nonce header =? 0 then (false, header)
        else pow_SealHeader header target n
  end.

#[export] Instance pow_engine : Engine := {|
  ValidateHeader := pow_ValidateHeader;
  ValidateBlock := ValidateBlockStructure;
  CalcNextBits := pow_CalcNextBits;
  PrepareHeader := pow_PrepareHeader;
  SealHeader := pow_SealHeader;
  Name := "pow" |}.

(** [MineGenesis] loops until a nonce is found or the nonce wraps; [None] is running out
    of fuel, excluded by [mine_loop_total]. *)
Fixpoint mine_loop (fuel : nat) (header : BlockHeader) (target : Hash) : option (bool * BlockHeader) :=
  match fuel with
  | O => None
  | S fuel =>
      let hash := HashBlockHeader header in
      if LessOrEqual hash target then Some (true, header)
      else
        let header := with_nonce header (add32 (hdr_Nonce header) 1) in
        if hdr_Nonce header =? 0 then Some (false, header)
        else mine_loop fuel header target
  end.

Definition MineGenesis (fuel : nat) (block : Block) : option (bool * Block) :=
  let header := with_merkle (blk_Header block) (ComputeMerkleRoot (blk_Transactions block)) in
  let target := CompactToHash (hdr_Bits header) in
  match mine_loop fuel header target with
  | None => None
  | Some (found, header) =>
      Some (found, {| blk_Header := header; blk_Transactions := blk_Transactions block |})
  end.

(** ** Lemmas: searching for a nonce *)

(** Nonce [n] makes [header] meet [target]. *)
Definition nonce_ok (header : BlockHeader) (target : Hash) (n : Z) : bool :=
  LessOrEqual (HashBlockHeader (with_nonce header n)) target.

Lemma with_nonce_same h : with_nonce h (hdr_Nonce h) = h.
Proof. by destruct h. Qed.
Lemma with_nonce_twice h a b : with_nonce (with_nonce h a) b = with_nonce h b.
Proof. done. Qed.

Lemma next_nonce n : is_u32 n -> add32 n 1 = if n =? 2^32 - 1 then 0 else n + 1.
Proof.
  intros Hn. destruct (Z.eqb_spec n (2^32 - 1)) as [->|]; [done|].
  apply u32_small. unfold is_u32 in *. lia.
Qed.

(** The search tries the nonces upwards from the header's and stops at the first hit, at
    the wrap-around or when the iterations are used up. *)
Lemma pow_SealHeader_spec n header target :
  is_u32 (hdr_Nonce header) ->
  let start := hdr_Nonce header in
  let stop := Z.min (start + Z.of_nat n) (2^32) in
  match pow_SealHeader header target n with
  | (true, h) => exists k, start <= k < stop /\ h = with_nonce header k /\ nonce_ok header target k = true
                 /\ forall j, start <= j < k -> nonce_ok header target j = false
  | (false, h) => forall j, start <= j < stop -> nonce_ok header target j = false
  end.
Proof.
  revert header. induction n as [|n IH]; intros header Hn start stop; cbn [pow_SealHeader].
  { intros j Hj. subst stop. lia. }
  subst start stop. set (st := hdr_Nonce header) in *.
  assert (nonce_ok header target st = LessOrEqual (HashBlockHeader header) target) as Hst
    by (unfold nonce_ok, st; by rewrite with_nonce_same).
  destruct (LessOrEqual (HashBlockHeader header) target) eqn:Hle.
  - exists st. rewrite Hst. unfold is_u32 in Hn. split_and!; [lia|lia|by rewrite with_nonce_same|done|lia].
  - cbn [hdr_Nonce with_nonce]. rewrite next_nonce by done.
    destruct (Z.eqb_spec st (2^32 - 1)) as [E|Hne].
    + intros j Hj. assert (j = st) as -> by (unfold is_u32 in Hn; lia). done.
    + destruct (Z.eqb_spec (st + 1) 0); [unfold is_u32 in Hn; lia|].
      specialize (IH (with_nonce header (st + 1))). cbn [hdr_Nonce with_nonce] in IH.
      assert (is_u32 (st + 1)) as Hn1 by (unfold is_u32 in *; lia). specialize (IH Hn1).
      destruct (pow_SealHeader _ target n) as [[|] h].
      * destruct IH as (k & Hk & -> & Hok & Hmin). exists k.
        split; [lia|]. split; [done|]. split; [exact Hok|].
        intros j Hj. destruct (Z.eq_dec j st) as [->|]; [by rewrite Hst|]. apply Hmin. lia.
      * intros j Hj. destruct (Z.eq_dec j st) as [->|]; [by rewrite Hst|]. apply IH. lia.
Qed.

(** Enough fuel for every remaining nonce makes the genesis loop the same search. *)
Lemma mine_loop_total fuel header target :
  is_u32 (hdr_Nonce header) -> 2^32 - hdr_Nonce header <= Z.of_nat fuel ->
  mine_loop fuel header target = Some (pow_SealHeader header target fuel).
Proof.
  revert header. induction fuel as [|fuel IH]; intros header Hn Hf; cbn [mine_loop pow_SealHeader].
  { unfold is_u32 in Hn. lia. }
  destruct (LessOrEqual _ _); [done|]. cbn [hdr_Nonce with_nonce]. rewrite next_nonce by done.
  destruct (Z.eqb_spec (hdr_Nonce header) (2^32 - 1)); [done|].
  destruct (_ =? 0); [done|]. apply IH; cbn [hdr_Nonce with_nonce]; unfold is_u32 in *; lia.
Qed.

Lemma ValidateHeader_Ok header parent height anc p :
  pow_ValidateHeader header parent height anc p = Ok tt <->
  hdr_PrevBlock header = HashBlockHeader parent
  /\ hdr_Bits header = pow_CalcNextBits parent (sub32 height 1) anc p
  /\ HashToBig (HashBlockHeader header) <= Z.abs (CompactToBig (hdr_Bits header)) mod 2^256.
Proof.
  unfold pow_ValidateHeader.
  destruct (decide (hdr_PrevBlock header = HashBlockHeader parent));
    [rewrite bool_decide_true by done|rewrite bool_decide_false by done; simpl; split; [done|tauto]]. simpl negb. cbv iota.
  set (eb := pow_CalcNextBits _ _ _ _). destruct (Z.eqb_spec (hdr_Bits header) eb); simpl negb; cbv iota;
    [|split; [done|tauto]].
  rewrite rbind_Ok. setoid_rewrite rwrap_Ok. split.
  - intros ([] & H & _). apply ValidateProofOfWork_Ok in H; [done|apply wf_DoubleSHA256].
  - intros (_ & _ & H). exists tt. split; [|done]. apply ValidateProofOfWork_Ok; [apply wf_DoubleSHA256|done].
Qed.

(** ** Lemmas: retargeting *)

(** The timespan after clamping to a factor of four. *)
Definition clamp (actual target : Z) : Z :=
  let a := if actual <? Z.quot target 4 then Z.quot target 4 else actual in
  if a >? target * 4 then target * 4 else a.

Lemma clamp_bounds a t : 0 < t -> Z.quot t 4 <= clamp a t <= 4 * t.
Proof.
  intros Ht. unfold clamp. rewrite Z.gtb_ltb.
  assert (Z.quot t 4 <= t * 4) by (rewrite Z.quot_div_nonneg by lia; apply Z.div_le_upper_bound; lia).
  ztest; lia.
Qed.

(** The new target before it is encoded. *)
Definition retarget (old actual target max : Z) : Z :=
  Z.min ((old * clamp actual target) / target) max.

Lemma CalcNextBits_retarget tip h anc p first :
  p_NoRetarget p = false -> add32 h 1 mod p_RetargetInterval p = 0 ->
  anc (sub32 h (sub32 (p_RetargetInterval p) 1)) = Some first ->
  pow_CalcNextBits tip h anc p
  = BigToCompact (retarget (CompactToBig (hdr_Bits tip)) (hdr_Timestamp tip - hdr_Timestamp first)
      (Z.quot (p_TargetTimespan p) time_Second) (CompactToBig (p_MinBits p))).
Proof.
  intros Hn Hm Ha. unfold pow_CalcNextBits. rewrite Hn, Hm, Ha. simpl negb. cbv iota zeta.
  fold (clamp (hdr_Timestamp tip - hdr_Timestamp first) (Z.quot (p_TargetTimespan p) time_Second)).
  unfold retarget. f_equal. rewrite Z.gtb_ltb. ztest; lia.
Qed.

Lemma retarget_bounds old actual t max :
  0 < t -> 0 < old -> 0 < max ->
  let r := retarget old actual t max in
  0 <= r <= max /\ r <= 4 * old /\ Z.min (old * (t / 4) / t) max <= r.
Proof.
  intros Ht Ho Hm r. subst r. unfold retarget. pose proof (clamp_bounds actual t Ht) as Hc.
  rewrite Z.quot_div_nonneg in Hc by lia.
  assert (0 <= t / 4) by (apply Z.div_pos; lia).
  assert (0 <= old * clamp actual t / t) by (apply Z.div_pos; nia).
  assert (old * clamp actual t / t <= 4 * old) by (apply Z.div_le_upper_bound; nia).
  assert (old * (t / 4) / t <= old * clamp actual t / t) by (apply Z.div_le_mono; nia).
  lia.
Qed.

(** The bits that are returned decode to a target between the two clamps, up to the
    precision of the encoding. *)
Lemma CompactToBig_encoded r : 0 <= r < 2^2039 ->
  let d := CompactToBig (BigToCompact r) in 0 <= d <= r /\ 2^15 * (r - d) <= r.
Proof.
  intros Hr d. subst d. destruct (Z.eq_dec r 0) as [->|Hne]; [vm_compute; done|].
  rewrite CompactToBig_BigToCompact by lia. destruct (truncate_error r) as [H1 H2]; [lia|]. lia.
Qed.

(** ** Properties *)

(** C24. Retargeting is bounded whatever timestamps miners choose: at an interval boundary
    the new target is at most the network's maximum target and at most four times the
    old one, and at least a quarter of it (or the maximum target), up to the one part in
    [2^15] that the compact encoding drops. *)
Theorem retarget_bounded tip h anc p first :
  let old := CompactToBig (hdr_Bits tip) in
  let span := Z.quot (p_TargetTimespan p) time_Second in
  let max := CompactToBig (p_MinBits p) in
  p_NoRetarget p = false -> add32 h 1 mod p_RetargetInterval p = 0 ->
  anc (sub32 h (sub32 (p_RetargetInterval p) 1)) = Some first ->
  0 < old -> 0 < span -> 0 < max < 2^2039 ->
  let new := CompactToBig (pow_CalcNextBits tip h anc p) in
  new <= max /\ new <= 4 * old
  /\ (2^15 - 1) * Z.min (old * (span / 4) / span) max <= 2^15 * new.
Proof.
  intros old span max Hn Hm Ha Ho Hs Hx new. subst new.
  rewrite (CalcNextBits_retarget tip h anc p first) by done. fold old span max.
  destruct (retarget_bounds old (hdr_Timestamp tip - hdr_Timestamp first) span max) as (H1 & H2 & H3); [lia..|].
  set (r := retarget _ _ _ _) in *.
  destruct (CompactToBig_encoded r) as [H4 H5]; [lia|]. lia.
Qed.

Lemma retarget_bounded_witness :
  let tip := {| hdr_Version := 1; hdr_PrevBlock := ZeroHash; hdr_MerkleRoot := ZeroHash;
                hdr_Timestamp := 1000000; hdr_Bits := 0x1d00ffff; hdr_Nonce := 0 |} in
  CompactToBig (pow_CalcNextBits tip 143 (fun _ => Some (example_header 999000)) Mainnet)
  <= 4 * CompactToBig 0x1d00ffff.
Proof.
  intros tip.
  apply (retarget_bounded tip 143 (fun _ => Some (example_header 999000)) Mainnet (example_header 999000));
    by vm_compute.
Defined.

(** Sealing searches exactly: [SealHeader] succeeds with the first nonce, counting up
    from the header's, whose header hash meets the target, and fails only when none of
    the nonces it could try (up to [maxIterations], or to the wrap-around) does; nothing but the nonce changes. *)
Theorem seal_header_exact n header target :
  is_u32 (hdr_Nonce header) ->
  let start := hdr_Nonce header in
  let stop := Z.min (start + Z.of_nat n) (2^32) in
  match pow_SealHeader header target n with
  | (true, h) => exists k, start <= k < stop /\ h = with_nonce header k /\ nonce_ok header target k = true
                 /\ forall j, start <= j < k -> nonce_ok header target j = false
  | (false, h) => forall j, start <= j < stop -> nonce_ok header target j = false
  end.
Proof. apply pow_SealHeader_spec. Qed.

Lemma seal_header_exact_witness :
  exists k, 0 <= k < 8 /\ nonce_ok (example_header 5) (CompactToHash 0x207fffff) k = true.
Proof.
  pose proof (seal_header_exact 8 (example_header 5) (CompactToHash 0x207fffff) ltac:(by vm_compute)) as H.
  cbv zeta in H.
  destruct (pow_SealHeader (example_header 5) (CompactToHash 0x207fffff) 8) as [[|] h] eqn:E.
  - destruct H as (k & Hk & _ & Hok & _). exists k. simpl in Hk. split; [lia|exact Hok].
  - exfalso. apply (f_equal fst) in E. vm_compute in E. discriminate E.
Defined.

(** Mining and validation agree: a header that extends [parent], is prepared by
    [PrepareHeader] and sealed against its own bits passes [ValidateHeader], and a header
    passes only if it extends the parent, carries the computed bits and its hash, as
    a number, is within the target. *)
Theorem sealed_header_validates header parent h anc p n hdr' :
  is_u32 (hdr_Nonce header) -> is_u32 h -> h < 2^32 - 1 -> hdr_PrevBlock header = HashBlockHeader parent ->
  let prepared := PrepareHeader header parent h anc p in
  SealHeader prepared (CompactToHash (hdr_Bits prepared)) n = (true, hdr') ->
  ValidateHeader hdr' parent (h + 1) anc p = Ok tt
  /\ (forall x height, ValidateHeader x parent height anc p = Ok tt ->
       hdr_PrevBlock x = HashBlockHeader parent
       /\ hdr_Bits x = CalcNextBits parent (sub32 height 1) anc p
       /\ HashToBig (HashBlockHeader x) <= Z.abs (CompactToBig (hdr_Bits x)) mod 2^256).
Proof.
  intros Hn Hh Hlt Hp prepared Hs. split; [|intros x height; apply ValidateHeader_Ok].
  pose proof (pow_SealHeader_spec n prepared (CompactToHash (hdr_Bits prepared)) Hn) as H.
  cbn [SealHeader pow_engine] in Hs. rewrite Hs in H. destruct H as (k & _ & -> & Hok & _).
  apply ValidateHeader_Ok. cbn [hdr_PrevBlock hdr_Bits with_nonce].
  assert (sub32 (h + 1) 1 = h) as -> by (unfold sub32; rewrite Z.add_simpl_r; by apply u32_small).
  split; [done|]. split; [done|]. unfold nonce_ok in Hok.
  rewrite LessOrEqual_numeric in Hok by (apply wf_DoubleSHA256 || apply wf_CompactToHash).
  apply Z.leb_le in Hok. by rewrite <- HashToBig_CompactToHash.
Qed.

Definition example_child : BlockHeader :=
  {| hdr_Version := 1; hdr_PrevBlock := HashBlockHeader (example_header 5);
     hdr_MerkleRoot := ZeroHash; hdr_Timestamp := 6; hdr_Bits := 0; hdr_Nonce := 0 |}.

Lemma sealed_header_validates_witness :
  exists hdr', ValidateHeader hdr' (example_header 5) (0 + 1) (fun _ => None) Regtest = Ok tt.
Proof.
  pose proof (fun h => sealed_header_validates example_child (example_header 5) 0 (fun _ => None) Regtest 16 h) as H.
  cbv zeta in H.
  destruct (SealHeader (PrepareHeader example_child (example_header 5) 0 (fun _ => None) Regtest) _ 16)
    as [[|] h] eqn:E.
  - exists h. specialize (H h).
    assert (is_u32 (hdr_Nonce example_child)) as H1 by (unfold is_u32; simpl; lia).
    assert (is_u32 0) as H2 by (unfold is_u32; lia).
    assert (0 < 2^32 - 1) as H3 by lia.
    assert (hdr_PrevBlock example_child = HashBlockHeader (example_header 5)) as H4 by reflexivity.
    exact (proj1 (H H1 H2 H3 H4 eq_refl)).
  - exfalso. clear H. apply (f_equal fst) in E. vm_compute in E. discriminate E.
Defined.

(** Mining a genesis block terminates: with fuel for the [2^32] nonces [MineGenesis]
    returns, either a block whose header commits to the transactions and meets its own
    target, or the report that no nonce above the starting one does. *)
Theorem mine_genesis_terminates fuel block :
  is_u32 (hdr_Nonce (blk_Header block)) -> 2^32 <= Z.of_nat fuel ->
  exists found block', MineGenesis fuel block = Some (found, block')
    /\ blk_Transactions block' = blk_Transactions block
    /\ (found = true ->
         hdr_MerkleRoot (blk_Header block') = ComputeMerkleRoot (blk_Transactions block')
         /\ ValidateProofOfWork (HashBlockHeader (blk_Header block')) (hdr_Bits (blk_Header block')) = Ok tt)
    /\ (found = false -> forall k, hdr_Nonce (blk_Header block) <= k < 2^32 ->
         nonce_ok (with_merkle (blk_Header block) (ComputeMerkleRoot (blk_Transactions block)))
           (CompactToHash (hdr_Bits (blk_Header block))) k = false).
Proof.
  intros Hn Hf. unfold MineGenesis.
  set (hd0 := with_merkle _ _). set (tg := CompactToHash _).
  assert (is_u32 (hdr_Nonce hd0)) as Hn0 by done.
  rewrite mine_loop_total by (done || (unfold is_u32 in *; lia)).
  pose proof (pow_SealHeader_spec fuel hd0 tg Hn0) as H.
  destruct (pow_SealHeader hd0 tg fuel) as [[|] h]; eexists _, _; (split; [done|]); (split; [done|]).
  - split; [|done]. intros _. destruct H as (k & _ & -> & Hok & _). split; [done|].
    unfold nonce_ok in Hok. unfold ValidateProofOfWork. cbn [blk_Header with_nonce hdr_Bits].
    fold tg. by rewrite Hok.
  - split; [done|]. intros _ k Hk. apply H. unfold is_u32 in *. cbn [hd0 hdr_Nonce with_merkle] in *. lia.
Qed.

Lemma mine_genesis_terminates_witness :
  exists found block', MineGenesis (Z.to_nat (2^32)) example_block = Some (found, block').
Proof.
  destruct (mine_genesis_terminates (Z.to_nat (2^32)) example_block) as (f & b & H & _).
  - by vm_compute.
  - rewrite Z2Nat.id; lia.
  - exists f, b. exact H.
Defined.
