(* ===== verification/Ledger.v ===== *)
(** * The money supply along a chain of validated blocks

    Ties together block structure ([validation.go]), input validation
    ([txvalidation.go]), the unspent set ([utxo.go]) and the issuance schedule ([params.go]):
    [connect_step] is the sequence of checks and updates by which the chain manager
    accepts a block on its tip ([chain.go], [ProcessBlock] and [reorg]), [ledger] the
    states reachable by it from the genesis block, and [replay] the state after a given
    list of blocks.  The history of a replay shows that transaction ids never repeat,
    although no operation checks that, and so that blocks can always be disconnected. *)
From S2P Require Import Prelude Types Sha256 Crypto Target Params Script Utxo TxValidation.
From S2P Require Import BlockValidation.

Section ledger.
Context `{EC : ECOps}.

(** One block accepted on top of [s] at [height]. *)
Definition connect_step (p : ChainParams) (s : UtxoSet) (height : Z) (b : Block) : option UtxoSet :=
  match ValidateBlockStructure b height p with
  | Err _ => None
  | Ok _ =>
      match ValidateTransactionInputs b s height p with
      | Err _ => None
      | Ok _ =>
          match ConnectBlock s b height with
          | Err _ => None
          | Ok (s', _) => Some s'
          end
      end
  end.

Inductive ledger (p : ChainParams) : nat -> UtxoSet -> Prop :=
| ledger_genesis : ledger p 0 (ConnectGenesis NewSet (p_GenesisBlock p))
| ledger_block n s b s' :
    ledger p n s -> Z.of_nat (S n) < 2^32 ->
    Forall wf_tx (blk_Transactions b) ->
    connect_step p s (Z.of_nat (S n)) b = Some s' ->
    ledger p (S n) s'.

Lemma wf_txs_outputs txs : Forall wf_tx txs -> Forall (fun tx => Forall wf_output (tx_Outputs tx)) txs.
Proof. intros H. eapply Forall_impl; [exact H|]. by intros tx (_ & _ & _ & _ & ? & _). Qed.

Lemma connect_step_sum p s height b s' :
  wf_utxo s -> wf_params p -> is_u32 height -> Forall wf_tx (blk_Transactions b) ->
  connect_step p s height b = Some s' ->
  wf_utxo s' /\ utxo_sum s' <= utxo_sum s + CalcSubsidy p height.
Proof.
  intros Hs Hp Hh Hwf H. unfold connect_step in H.
  destruct (ValidateBlockStructure b height p) as [[]|] eqn:HB; [|done].
  destruct (ValidateTransactionInputs b s height p) as [fees|] eqn:HV; [|done].
  destruct (ConnectBlock s b height) as [[s1 undo]|] eqn:HC; [|done]. injection H as <-.
  pose proof (wf_txs_outputs _ Hwf) as Ho.
  apply ValidateTransactionInputs_exact in HV; [|done..].
  apply ValidateBlockStructure_Ok in HB as [Hcb _].
  by eapply valid_block_conserves.
Qed.

Lemma ledger_sum p n s :
  wf_params p -> wf_utxo (ConnectGenesis NewSet (p_GenesisBlock p)) ->
  ledger p n s ->
  wf_utxo s /\
  utxo_sum s + CalcSubsidy p 0
  <= utxo_sum (ConnectGenesis NewSet (p_GenesisBlock p)) + total_subsidy p (S n).
Proof.
  intros Hp Hg H. induction H as [|n s b s' H IH Hn Hwf Hc].
  - split; [done|]. cbn [total_subsidy]. change (Z.of_nat 0) with 0. lia.
  - destruct IH as [Hs IH]. apply connect_step_sum in Hc as [Hs' Hle]; [|done|done|unfold is_u32; lia|done].
    split; [done|]. change (total_subsidy p (S (S n))) with (total_subsidy p (S n) + CalcSubsidy p (Z.of_nat (S n))).
    lia.
Qed.

End ledger.

(** ** Replaying a list of blocks *)

Import MerkleFacts.

Abbreviation wf_txs bs := (Forall (fun b => Forall wf_tx (blk_Transactions b)) bs).

Section history.
Context `{EC : ECOps} (p : ChainParams).

Fixpoint replay_from (s : UtxoSet) (height : Z) (bs : list Block) : option UtxoSet :=
  match bs with
  | [] => Some s
  | b :: bs =>
      match connect_step p s height b with
      | Some s' => replay_from s' (height + 1) bs
      | None => None
      end
  end.

(** The unspent set after the blocks [bs] above the genesis block. *)
Definition replay (bs : list Block) : option UtxoSet :=
  replay_from (ConnectGenesis NewSet (p_GenesisBlock p)) 1 bs.

Lemma replay_from_app s h bs1 bs2 :
  replay_from s h (bs1 ++ bs2)
  = match replay_from s h bs1 with Some s' => replay_from s' (h + len bs1) bs2 | None => None end.
Proof.
  revert s h. induction bs1 as [|b bs1 IH]; intros s h; simpl; [f_equal; lia|].
  destruct (connect_step p s h b); [|done]. rewrite IH.
  destruct (replay_from _ _ bs1); [f_equal; lia|done].
Qed.

Lemma replay_snoc bs b :
  replay (bs ++ [b]) = match replay bs with Some s => connect_step p s (len bs + 1) b | None => None end.
Proof.
  unfold replay. rewrite replay_from_app. destruct (replay_from _ _ bs) as [s|]; [|done].
  cbn [replay_from]. rewrite Z.add_comm. by destruct (connect_step p s (len bs + 1) b).
Qed.

Lemma replay_prefix bs1 bs2 s :
  replay (bs1 ++ bs2) = Some s -> exists s1, replay bs1 = Some s1.
Proof. unfold replay. rewrite replay_from_app. destruct (replay_from _ _ bs1); [eauto|done]. Qed.

Lemma replay_ledger bs s :
  replay bs = Some s -> Forall (fun b => Forall wf_tx (blk_Transactions b)) bs -> len bs < 2^32 ->
  ledger p (length bs) s.
Proof.
  revert s. induction bs as [|b bs IH] using rev_ind; intros s H Hw Hl.
  - injection H as <-. constructor.
  - rewrite length_app in *. cbn [length] in *. rewrite Nat.add_1_r in *. rewrite replay_snoc in H.
    destruct (replay bs) as [s0|]; [|done]. apply Forall_app in Hw as [Hw Hb].
    apply Forall_cons in Hb as [Hb _].
    apply (ledger_block p (length bs) s0 b s); [apply IH; [done|done|lia]|done|done|].
    by replace (Z.of_nat (S (length bs))) with (len bs + 1) by lia.
Qed.

(** *** Transaction ids along a chain *)

Definition block_txs (bs : list Block) : list Transaction := concat (map blk_Transactions bs).
(** All transactions, the genesis block's included. *)
Definition history (bs : list Block) : list Transaction := block_txs (p_GenesisBlock p :: bs).

(** A genesis block whose coinbase cannot be mistaken for that of a later block. *)
Record genesis_ok : Prop := {
  go_coinbase : Forall (fun tx => tx_IsCoinbase tx = true) (blk_Transactions (p_GenesisBlock p));
  go_height : Forall (fun tx => Forall (fun ti => ~ 1 <= byte_at (in_SignatureScript ti) 0 <= 4)
                (tx_Inputs tx)) (blk_Transactions (p_GenesisBlock p));
  go_ids : NoDup (map HashTransaction (blk_Transactions (p_GenesisBlock p)));
  go_wf : Forall wf_tx (blk_Transactions (p_GenesisBlock p)) }.

Definition key_ids (k : outpoint_key) : Hash := take 32 k.

Lemma key_ids_key h i : wf_hash h -> key_ids (OutpointKey h i) = h.
Proof. intros Hh. unfold key_ids, OutpointKey. rewrite take_app_le by (unfold wf_hash, HashSize in Hh; lia). by rewrite take_ge by (unfold wf_hash, HashSize in Hh; lia). Qed.

(** What holds of the unspent set [s] after the transactions [txs], the last of them at
    a height below [n]. *)
Record hist_inv (n : Z) (txs : list Transaction) (s : UtxoSet) : Prop := {
  hi_ids : NoDup (map HashTransaction txs);
  hi_keys : forall k, is_Some (s !! k) -> key_ids k ∈ map HashTransaction txs;
  hi_spent : forall k, k ∈ spends txs -> s !! k = None /\ key_ids k ∈ map HashTransaction txs;
  hi_coinbase : forall tx, tx ∈ txs -> tx_IsCoinbase tx = true -> forall ti h, ti ∈ tx_Inputs tx ->
    validateCoinbaseScriptSig (in_SignatureScript ti) h = Ok tt -> h < n }.

Lemma create_ids height txs k :
  k ∈ map fst (creates height txs) -> key_ids k ∈ map HashTransaction txs.
Proof.
  intros Hk. apply list_elem_of_fmap in Hk as ([k' e] & -> & Hk). unfold creates in Hk.
  apply list_elem_of_In, in_concat in Hk as (l & Hl & Hk). apply in_map_iff in Hl as (tx & <- & Htx).
  apply list_elem_of_In in Hk. unfold tx_entries in Hk.
  apply elem_of_lookup_imap_1 in Hk as (i & o & E & _). injection E as -> _. cbn [fst].
  rewrite key_ids_key by apply wf_DoubleSHA256. apply list_elem_of_In. by apply in_map.
Qed.

Lemma created_key height txs k :
  is_Some (created_map height txs !! k) -> k ∈ map fst (creates height txs).
Proof.
  intros H. destruct (decide (k ∈ map fst (creates height txs))) as [|Hn]; [done|].
  rewrite created_map_None in H by done. by destruct H.
Qed.

Lemma genesis_keys (txs : list Transaction) (s : UtxoSet) k :
  is_Some (fold_left (fun s tx =>
    fold_left (fun s '(key, entry) =>
      if isLegacyPlaceholder (ue_PkScript entry) then s else <[key := entry]> s)
      (tx_entries 0 tx) s) txs s !! k) ->
  is_Some (s !! k) \/ k ∈ map fst (creates 0 txs).
Proof.
  assert (forall l (s : UtxoSet), is_Some (fold_left (fun s '(key, entry) =>
      if isLegacyPlaceholder (ue_PkScript entry) then s else <[key := entry]> s) l s !! k) ->
    is_Some (s !! k) \/ k ∈ map fst l) as Hl.
  { induction l as [|[k' e] l IH]; intros s0 H; [by left|]. cbn [fold_left] in H.
    apply IH in H as [H|H]; [|right; set_solver].
    destruct (isLegacyPlaceholder _); [by left|].
    destruct (decide (k' = k)) as [->|]; [right; set_solver|]. rewrite lookup_insert_ne in H by done. by left. }
  revert s. induction txs as [|tx txs IH]; intros s H; [by left|]. cbn [fold_left] in H.
  apply IH in H as [H|H].
  - apply Hl in H as [H|H]; [by left|]. right. unfold creates. cbn [map concat]. rewrite map_app. set_solver.
  - right. unfold creates in *. cbn [map concat]. rewrite map_app. set_solver.
Qed.

Lemma spends_coinbases txs : Forall (fun tx => tx_IsCoinbase tx = true) txs -> spends txs = [].
Proof.
  induction 1 as [|tx txs H _ IH]; [done|]. rewrite spends_cons, IH. unfold tx_spends. by rewrite H.
Qed.

Lemma hist_genesis :
  genesis_ok -> hist_inv 1 (history []) (ConnectGenesis NewSet (p_GenesisBlock p)).
Proof.
  intros [Hc Hh Hi Hw]. unfold history, block_txs. cbn [map concat]. rewrite app_nil_r.
  constructor.
  - done.
  - intros k Hk. unfold ConnectGenesis in Hk. apply genesis_keys in Hk as [[? Hk]|Hk].
    + unfold NewSet in Hk. by rewrite lookup_empty in Hk.
    + by eapply create_ids.
  - intros k Hk. rewrite spends_coinbases in Hk by done. set_solver.
  - intros tx Htx _ ti h Hti Hv. exfalso. rewrite Forall_forall in Hh. specialize (Hh tx Htx).
    rewrite Forall_forall in Hh. apply (Hh ti Hti). by apply validateCoinbaseScriptSig_Ok in Hv as (_ & ? & _).
Qed.

(** No transaction of a block accepted on [s] has an id of the history of [s]. *)
Lemma accepted_ids_new n txs s b fees :
  hist_inv n txs s -> valid_block_txs s n p (blk_Transactions b) fees ->
  ValidateBlockStructure b n p = Ok tt -> 0 < n ->
  Forall wf_tx txs -> Forall wf_tx (blk_Transactions b) ->
  collision_free (map tx_Serialize (txs ++ blk_Transactions b)) ->
  forall tx, tx ∈ blk_Transactions b -> HashTransaction tx ∉ map HashTransaction txs.
Proof.
  intros Hi Hv HB Hn Wt Wb C tx Htx Hin. apply list_elem_of_fmap in Hin as (tx0 & E & Htx0).
  rewrite Forall_forall in Wt, Wb.
  assert (tx = tx0) as <-.
  { assert ([tx] = [tx0]) as [= ->]; [|done].
    apply HashTransaction_inj; [by apply Forall_singleton, Wb|by apply Forall_singleton, Wt| |cbn [map]; by rewrite E].
    eapply collision_free_mono; [exact C|]. rewrite map_app. intros x Hx. cbn [map app] in Hx.
    rewrite elem_of_app. apply elem_of_cons in Hx as [->|Hx]; [right|left].
    - apply list_elem_of_fmap; eauto.
    - apply list_elem_of_singleton in Hx as ->. apply list_elem_of_fmap; eauto. }
  clear E. pose proof (vb_spends _ _ _ _ _ Hv) as Hsp. rewrite Forall_forall in Hsp.
  destruct (Hsp tx Htx) as [[Hcb _]|[fee Hs]].
  - apply ValidateBlockStructure_Ok in HB as ((cb & rest & Eb & _ & Hrest) & _ & _ & _ & _ & Hh).
    destruct (Hh Hn) as (cb' & rest' & ti & Eb' & Ei & Hval). rewrite Eb in Eb'. injection Eb' as <- <-.
    rewrite Eb in Htx. apply elem_of_cons in Htx as [->|Htx].
    + pose proof (hi_coinbase _ _ _ Hi cb Htx0 Hcb ti n ltac:(rewrite Ei; set_solver) Hval). lia.
    + rewrite Forall_forall in Hrest. specialize (Hrest tx Htx). congruence.
  - pose proof (vs_inputs _ _ _ _ _ Hs) as Hne. pose proof (vs_unspent _ _ _ _ _ Hs) as Hu.
    destruct (tx_Inputs tx) as [|ti ins] eqn:Ei; [done|]. apply Forall_cons in Hu as [(e & He & _) _].
    destruct (hi_spent _ _ _ Hi (in_key ti)) as [Hnone _]; [|congruence].
    unfold spends. apply list_elem_of_In, in_concat. exists (tx_spends tx). split.
    + apply in_map. by apply list_elem_of_In.
    + rewrite tx_spends_inputs by apply Hs. rewrite Ei. by left.
Qed.

Lemma connect_step_Ok s h b s' :
  connect_step p s h b = Some s' ->
  ValidateBlockStructure b h p = Ok tt
  /\ (exists fees, ValidateTransactionInputs b s h p = Ok fees)
  /\ (exists undo, ConnectBlock s b h = Ok (s', undo)).
Proof.
  unfold connect_step. destruct (ValidateBlockStructure b h p) as [[]|]; [|done].
  destruct (ValidateTransactionInputs b s h p) as [fees|]; [|done].
  destruct (ConnectBlock s b h) as [[s1 undo]|]; [|done]. intros [= ->]. eauto.
Qed.

Lemma wf_genesis (txs : list Transaction) (s : UtxoSet) :
  Forall wf_tx txs -> wf_utxo s ->
  wf_utxo (fold_left (fun s tx =>
    fold_left (fun s '(key, entry) =>
      if isLegacyPlaceholder (ue_PkScript entry) then s else <[key := entry]> s)
      (tx_entries 0 tx) s) txs s).
Proof.
  intros W. revert s. induction W as [|tx txs Hw W IH]; intros s Hs; [done|]. cbn [fold_left]. apply IH.
  assert (Forall (fun kv => wf_entry kv.2) (tx_entries 0 tx)) as He.
  { rewrite <- creates_singleton. apply wf_creates; [unfold is_u32; lia|].
    apply wf_txs_outputs. by apply Forall_singleton. }
  clear -He Hs. revert s Hs. induction He as [|[k e] l Hk He IH]; intros s Hs; [done|]. cbn [fold_left].
  apply IH. destruct (isLegacyPlaceholder _); [done|]. by apply wf_utxo_insert.
Qed.

Context (Hg : genesis_ok) (Hp : wf_params p).

Lemma replay_wf bs s :
  replay bs = Some s -> Forall (fun b => Forall wf_tx (blk_Transactions b)) bs -> len bs < 2^32 ->
  wf_utxo s.
Proof.
  intros H Hw Hl. eapply ledger_sum; [exact Hp| |by apply replay_ledger].
  unfold ConnectGenesis. apply wf_genesis; [apply Hg|]. unfold NewSet. apply map_Forall_empty.
Qed.

(** A block accepted after the history [txs]: its outputs are new and unspent. *)
Section accept.
Context (n : Z) (txs : list Transaction) (s : UtxoSet) (b : Block) (s' : UtxoSet).
Context (Hi : hist_inv n txs s) (Hs : wf_utxo s) (Hn : 0 < n < 2^32).
Context (Wt : Forall wf_tx txs) (Wb : Forall wf_tx (blk_Transactions b)).
Context (C : collision_free (map tx_Serialize (txs ++ blk_Transactions b))).
Context (Hc : connect_step p s n b = Some s').

Lemma accept_valid : exists fees, valid_block_txs s n p (blk_Transactions b) fees.
Proof.
  apply connect_step_Ok in Hc as (_ & [fees Hv] & _). exists fees.
  apply ValidateTransactionInputs_exact in Hv; [done|done|unfold is_u32; lia|done|by apply wf_txs_outputs].
Qed.

Lemma accept_spends k : k ∈ spends (blk_Transactions b) -> is_Some (s !! k).
Proof.
  destruct accept_valid as [fees Hv]. apply valid_block_present in Hv.
  rewrite Forall_forall in Hv. apply Hv.
Qed.

Lemma accept_ids tx : tx ∈ blk_Transactions b -> HashTransaction tx ∉ map HashTransaction txs.
Proof.
  destruct accept_valid as [fees Hv]. apply connect_step_Ok in Hc as (HB & _ & _).
  intros Htx. eapply accepted_ids_new; try done. lia.
Qed.

Lemma accept_new k : k ∈ map fst (creates n (blk_Transactions b)) -> s !! k = None.
Proof.
  intros Hk. destruct (s !! k) as [e|] eqn:E; [|done]. exfalso.
  apply create_ids in Hk. apply list_elem_of_fmap in Hk as (tx & Ek & Htx).
  apply (accept_ids tx Htx). rewrite <- Ek. apply (hi_keys _ _ _ Hi). by rewrite E.
Qed.

Lemma accept_fresh :
  Forall (fun k => s !! k = None /\ k ∉ spends (blk_Transactions b))
    (map fst (creates n (blk_Transactions b))).
Proof.
  apply Forall_forall. intros k Hk. pose proof (accept_new k Hk) as E. split; [done|].
  intros Hsp. apply accept_spends in Hsp. rewrite E in Hsp. by destruct Hsp.
Qed.

Lemma hist_step : hist_inv (n + 1) (txs ++ blk_Transactions b) s'.
Proof.
  pose proof accept_ids as Hids. pose proof accept_spends as Hsp. pose proof accept_new as Hnew.
  apply connect_step_Ok in Hc as (HB & _ & [undo HC]). apply ConnectBlock_Ok in HC as (_ & _ & _ & Hs').
  apply ValidateBlockStructure_Ok in HB as ((cb & rest & Eb & _ & Hrest) & Hnd & _ & _ & _ & Hh).
  destruct (Hh ltac:(lia)) as (cb' & rest' & ti0 & Eb' & Ei & Hval).
  assert (forall k, key_ids k ∈ map HashTransaction txs -> k ∉ map fst (creates n (blk_Transactions b))) as Hold.
  { intros k Hk Hin. apply create_ids in Hin. apply list_elem_of_fmap in Hin as (tx & E & Htx).
    apply (Hids tx Htx). by rewrite <- E. }
  constructor.
  - rewrite map_app. apply NoDup_app. split_and!; [apply Hi| |done].
    intros h Hh1 Hh2. apply list_elem_of_fmap in Hh2 as (tx & -> & Htx). by apply (Hids tx Htx).
  - intros k Hk. rewrite Hs' in Hk. destruct (bool_decide _); [by destruct Hk|].
    rewrite map_app, elem_of_app. rewrite lookup_union in Hk.
    destruct (created_map n (blk_Transactions b) !! k) as [e|] eqn:E.
    + right. apply (create_ids n). apply created_key. by rewrite E.
    + left. apply (hi_keys _ _ _ Hi). by destruct (s !! k).
  - intros k Hk. rewrite spends_app, elem_of_app in Hk. rewrite Hs', map_app, elem_of_app.
    destruct Hk as [Hk|Hk].
    + destruct (hi_spent _ _ _ Hi k Hk) as [E Hid]. split; [|by left].
      destruct (bool_decide _); [done|]. rewrite lookup_union, created_map_None by auto. by rewrite E.
    + rewrite bool_decide_true by done. split; [done|]. left. apply (hi_keys _ _ _ Hi). auto.
  - intros tx Htx Hcb ti h Hti Hv. apply elem_of_app in Htx as [Htx|Htx].
    + pose proof (hi_coinbase _ _ _ Hi tx Htx Hcb ti h Hti Hv). lia.
    + rewrite Eb in Eb', Htx. injection Eb' as <- <-. apply elem_of_cons in Htx as [->|Htx].
      * rewrite Ei in Hti. apply list_elem_of_singleton in Hti as ->.
        apply validateCoinbaseScriptSig_Ok in Hval as (_ & _ & _ & <-).
        apply validateCoinbaseScriptSig_Ok in Hv as (_ & _ & _ & <-). lia.
      * rewrite Forall_forall in Hrest. specialize (Hrest tx Htx). congruence.
Qed.

End accept.

Lemma history_snoc bs b : history (bs ++ [b]) = history bs ++ blk_Transactions b.
Proof.
  unfold history, block_txs. rewrite !map_cons, map_app. cbn [map concat].
  rewrite concat_app. cbn [concat]. by rewrite app_nil_r, app_assoc.
Qed.

Lemma wf_history bs : wf_txs bs -> Forall wf_tx (history bs).
Proof.
  intros H. unfold history, block_txs. cbn [map concat]. apply Forall_app. split; [apply Hg|].
  induction H; simpl; [constructor|]. by apply Forall_app.
Qed.

Lemma replay_hist bs s :
  replay bs = Some s -> wf_txs bs -> len bs < 2^32 ->
  collision_free (map tx_Serialize (history bs)) ->
  hist_inv (len bs + 1) (history bs) s.
Proof.
  revert s. induction bs as [|b bs IH] using rev_ind; intros s H Hw Hl C.
  { injection H as <-. by apply hist_genesis. }
  rewrite replay_snoc in H. destruct (replay bs) as [s0|] eqn:E; [|done].
  pose proof Hw as Hw'. apply Forall_app in Hw' as [Hw0 Hb]. apply Forall_cons in Hb as [Hb _].
  rewrite history_snoc in *. rewrite length_app in *. cbn [length] in *.
  replace (Z.of_nat (length bs + 1) + 1) with ((len bs + 1) + 1) by lia.
  eapply hist_step; [|by eapply replay_wf; [done|done|lia]|lia|by apply wf_history|done|done|done].
  apply IH; [done|done|lia|]. eapply collision_free_mono; [exact C|]. rewrite map_app. set_solver.
Qed.

(** Disconnecting the last block of a replay with its undo data gives the state before. *)
Lemma replay_disconnect bs b s s' undo :
  replay bs = Some s -> connect_step p s (len bs + 1) b = Some s' ->
  ConnectBlock s b (len bs + 1) = Ok (s', undo) ->
  wf_txs (bs ++ [b]) -> len bs + 1 < 2^32 ->
  collision_free (map tx_Serialize (history (bs ++ [b]))) ->
  DisconnectBlock s' b undo = s.
Proof.
  intros H Hc HC Hw Hl C. apply Forall_app in Hw as [Hw Hb]. apply Forall_cons in Hb as [Hb _].
  rewrite history_snoc in C. eapply disconnect_connect; [exact HC|].
  eapply accept_fresh; [|by eapply replay_wf; [done|done|lia]|lia|by apply wf_history|done|done|done].
  apply replay_hist; [done|done|lia|]. eapply collision_free_mono; [exact C|]. rewrite map_app. set_solver.
Qed.

(** *** Coins as stored *)

Definition coin_ok (k : outpoint_key) (e : UtxoEntry) : Prop :=
  length k = 36%nat /\ wf_entry e /\ wf_script (ue_PkScript e).

Lemma coin_ok_creates height txs :
  is_u32 height -> Forall wf_tx txs -> Forall (fun kv => coin_ok kv.1 kv.2) (creates height txs).
Proof.
  intros Hh Hw. apply Forall_forall. intros [k e] Hk. unfold creates in Hk.
  apply list_elem_of_In, in_concat in Hk as (l & Hl & Hk). apply in_map_iff in Hl as (tx & <- & Htx).
  apply list_elem_of_In in Hk, Htx. rewrite Forall_forall in Hw. pose proof (Hw tx Htx) as Hwt.
  destruct Hwt as (_ & _ & _ & _ & Ho & _). unfold tx_entries in Hk.
  apply elem_of_lookup_imap_1 in Hk as (i & o & E & Hi). injection E as -> ->.
  rewrite Forall_lookup in Ho. destruct (Ho i o Hi) as [Hv Hsc]. split_and!; try done.
  unfold OutpointKey. cbn [fst]. rewrite length_app, length_PutUint32LE.
  pose proof (wf_DoubleSHA256 (tx_SerializeToBytes tx)) as L. unfold wf_hash, HashSize in L.
  unfold HashTransaction. lia.
Qed.

(** What holds of all outputs that blocks create holds of the unspent set. *)
Lemma replay_entries (P : outpoint_key -> UtxoEntry -> Prop) bs s :
  (forall height txs, is_u32 height -> Forall wf_tx txs -> Forall (fun kv => P kv.1 kv.2) (creates height txs)) ->
  replay bs = Some s -> wf_txs bs -> len bs < 2^32 -> map_Forall P s.
Proof.
  intros HP. revert s. induction bs as [|b bs IH] using rev_ind; intros s H Hw Hl.
  - injection H as <-. unfold ConnectGenesis, NewSet.
    assert (Forall wf_tx (blk_Transactions (p_GenesisBlock p))) as Hgw by apply Hg.
    assert (map_Forall P (∅ : UtxoSet)) as H0 by apply map_Forall_empty.
    revert H0. generalize (∅ : UtxoSet). induction Hgw as [|tx txs Hwt Hgw IH]; intros s Hs; [done|].
    cbn [fold_left]. apply IH.
    assert (Forall (fun kv => P kv.1 kv.2) (tx_entries 0 tx)) as He.
    { rewrite <- creates_singleton. apply HP; [unfold is_u32; lia|by apply Forall_singleton]. }
    clear -He Hs. revert s Hs. induction He as [|[k e] l Hk He IH]; intros s Hs; [done|]. cbn [fold_left].
    apply IH. destruct (isLegacyPlaceholder _); [done|]. by apply map_Forall_insert_2.
  - rewrite replay_snoc in H. destruct (replay bs) as [s0|] eqn:E; [|done].
    apply Forall_app in Hw as [Hw Hb]. apply Forall_cons in Hb as [Hb _].
    rewrite length_app in *. cbn [length] in *.
    apply connect_step_Ok in H as (_ & _ & [undo H]). eapply connect_Forall; [exact H|apply IH; [done|done|lia]|].
    apply HP; [unfold is_u32; lia|done].
Qed.

Lemma replay_coins bs s :
  replay bs = Some s -> wf_txs bs -> len bs < 2^32 -> map_Forall coin_ok s.
Proof. apply replay_entries, coin_ok_creates. Qed.

(** No output has the index of the null outpoint. *)
Lemma replay_not_null bs s :
  replay bs = Some s -> wf_txs bs -> len bs < 2^32 -> s !! op_key CoinbaseOutPoint = None.
Proof.
  intros H Hw Hl. destruct (s !! op_key CoinbaseOutPoint) as [e|] eqn:E; [|done]. exfalso.
  refine (replay_entries (fun k _ => drop 32 k <> PutUint32LE 0xFFFFFFFF) bs s _ H Hw Hl _ e E eq_refl).
  intros height txs _ Htxs. apply Forall_forall. intros [k e'] Hk. unfold creates in Hk.
  apply list_elem_of_In, in_concat in Hk as (l & Hin & Hk). apply in_map_iff in Hin as (tx & <- & Htx).
  apply list_elem_of_In in Hk, Htx. rewrite Forall_forall in Htxs. destruct (Htxs tx Htx) as (_ & _ & _ & _ & _ & Ho).
  unfold tx_entries in Hk. apply elem_of_lookup_imap_1 in Hk as (i & o & Ek & Hi). injection Ek as -> _.
  apply lookup_lt_Some in Hi. cbn [fst]. unfold OutpointKey.
  pose proof (wf_DoubleSHA256 (tx_SerializeToBytes tx)) as Hh. unfold wf_hash, HashSize in Hh.
  rewrite drop_app_length' by (unfold HashTransaction; lia). intros EE. apply (f_equal ReadUintLE) in EE.
  unfold MaxTxOutputs in Ho. rewrite u32_small, !ReadUintLE_Put32 in EE by (unfold is_u32; lia). lia.
Qed.

Lemma spends_length txs : Forall wf_tx txs -> len (spends txs) <= MaxTxInputs * len txs.
Proof.
  induction 1 as [|tx txs Hw _ IH]; [simpl; lia|]. rewrite spends_cons, length_app. cbn [length].
  destruct Hw as (_ & _ & _ & Hi & _). unfold tx_spends, MaxTxInputs in *.
  destruct (tx_IsCoinbase tx); rewrite ?length_map; simpl length; lia.
Qed.

Lemma undo_length undo :
  Forall (fun so => wf_spent so /\ wf_script (ue_PkScript (so_Entry so))) undo ->
  len (concat (map so_Serialize undo)) <= 10100 * len undo.
Proof.
  induction 1 as [|so undo [[[Hh _] Hs] Hsc] _ IH]; [simpl; lia|]. cbn [map concat length].
  rewrite length_app. enough (len (so_Serialize so) <= 10100) by lia.
  unfold so_Serialize. rewrite !length_app, length_PutUint32LE.
  pose proof (len_ue_Serialize _ Hs) as L. unfold wf_hash, HashSize, wf_script, MaxScriptSize in *.
  pose proof (VarIntSize_bounds (len (ue_PkScript (so_Entry so)))).
  pose proof (VarIntSize_bounds (len (ue_Serialize (so_Entry so)))).
  pose proof (length_PutVarInt (len (ue_Serialize (so_Entry so))) ltac:(unfold is_u64; lia)). lia.
Qed.

Lemma replay_undo_entries bs b s s' undo :
  replay bs = Some s -> ConnectBlock s b (len bs + 1) = Ok (s', undo) ->
  wf_txs bs -> wf_block b -> len bs + 1 < 2^32 ->
  Forall (fun so => wf_spent so /\ wf_script (ue_PkScript (so_Entry so))) undo.
Proof.
  intros H HC Hw (_ & Hb & Hn) Hl.
  pose proof (replay_coins bs s H Hw ltac:(lia)) as Hco.
  eapply connect_Forall in Hco as [_ Hu]; [|exact HC|apply coin_ok_creates; [unfold is_u32; lia|done]].
  assert (Forall (fun so => wf_outpoint (so_OutPoint so)) undo) as Ho.
  { eapply connect_undo_outpoints; [exact HC|]. eapply Forall_impl; [exact Hb|].
    intros tx (_ & _ & Hi & _). eapply Forall_impl; [exact Hi|]. by intros ti [? _]. }
  apply Forall_forall. intros so Hso. rewrite Forall_forall in Hu, Ho.
  destruct (Hu so Hso) as (_ & [Hv Hh] & Hsc). split; [|done]. split; [auto|].
  unfold wf_stored, wf_script, MaxScriptSize in *. split_and!; [done|done|lia].
Qed.

(** The undo data of an accepted block survives its storage. *)
Lemma replay_undo bs b s s' undo :
  replay bs = Some s -> ConnectBlock s b (len bs + 1) = Ok (s', undo) ->
  wf_txs bs -> wf_block b -> len bs + 1 < 2^32 ->
  DeserializeUndoData (SerializeUndoData undo) = Ok undo.
Proof.
  intros H HC Hw Hwb Hl. pose proof (replay_undo_entries bs b s s' undo H HC Hw Hwb Hl) as Hsp.
  apply undo_roundtrip; [eapply Forall_impl; [exact Hsp|]; by intros so [? _]|].
  apply undo_length in Hsp. unfold SerializeUndoData. rewrite length_app. destruct Hwb as (_ & Hb & Hn).
  apply ConnectBlock_Ok in HC as (_ & Hk & _ & _). apply (f_equal length) in Hk. rewrite length_map in Hk.
  pose proof (spends_length _ Hb) as Hlen. unfold MaxTxInputs, MaxBlockTxCount in *.
  pose proof (VarIntSize_bounds (len undo)).
  pose proof (length_PutVarInt (len undo) ltac:(unfold is_u64; lia)). lia.
Qed.

End history.

(** ** Properties *)

(** C5. No inflation on mainnet: in every state reachable from the genesis block by
    blocks that pass validation, the values of all unspent outputs together are at most
    the subsidies of the blocks above genesis, hence less than [MaxMoneyValue]. *)
Theorem mainnet_no_inflation `{EC : ECOps} n s :
  ledger Mainnet n s ->
  utxo_sum s <= total_subsidy Mainnet (S n) - CalcSubsidy Mainnet 0
  /\ utxo_sum s < MaxMoneyValue.
Proof.
  intros H. pose proof wf_networks as Hw. inversion Hw as [|?? Hp _]; subst.
  assert (ConnectGenesis NewSet (p_GenesisBlock Mainnet) = ∅) as Hg by (vm_compute; reflexivity).
  destruct (ledger_sum Mainnet n s Hp) as [_ Hle]; [rewrite Hg; apply map_Forall_empty|done|].
  rewrite Hg, utxo_sum_empty in Hle.
  pose proof (total_subsidy_bound Mainnet eq_refl ltac:(done) (S n)) as Hb.
  assert (era_total Mainnet 64 = MaxMoneyValue) as E by (vm_compute; done).
  assert (CalcSubsidy Mainnet 0 = 5000000000) as E0 by (vm_compute; done). lia.
Qed.

(** The first block above the mainnet genesis, with only its coinbase. *)
Definition example_coinbase1 : Transaction := {|
  tx_Version := 1;
  tx_Inputs := [{| in_PreviousOutPoint := CoinbaseOutPoint;
                   in_SignatureScript := bytes_of [4; 1; 0; 0; 0]; in_Sequence := 0xFFFFFFFF |}];
  tx_Outputs := [{| out_Value := 5000000000; out_PkScript := [Byte.x51] |}];
  tx_LockTime := 0 |}.
Definition example_block1 : Block := {|
  blk_Header := {| hdr_Version := 1; hdr_PrevBlock := ZeroHash;
                   hdr_MerkleRoot := ComputeMerkleRoot [example_coinbase1];
                   hdr_Timestamp := 0; hdr_Bits := 0; hdr_Nonce := 0 |};
  blk_Transactions := [example_coinbase1] |}.

Lemma mainnet_no_inflation_witness :
  exists s, size s = 1%nat /\ utxo_sum s < MaxMoneyValue.
Proof.
  destruct (connect_step (EC := ToyEC.toy_ec) Mainnet ∅ 1 example_block1) as [s|] eqn:E.
  - exists s. split.
    + apply (f_equal (fun o => match o with Some s => size s | None => O end)) in E.
      vm_compute in E. exact (eq_sym E).
    + refine (proj2 (mainnet_no_inflation (EC := ToyEC.toy_ec) 1 s _)).
      apply (ledger_block (EC := ToyEC.toy_ec) Mainnet 0 ∅ example_block1 s).
      * assert (ConnectGenesis NewSet (p_GenesisBlock Mainnet) = ∅) as <- by (vm_compute; reflexivity).
        apply ledger_genesis.
      * simpl. lia.
      * repeat constructor; try (by vm_compute); simpl; unfold wf_script, MaxScriptSize; simpl; lia.
      * exact E.
  - exfalso. apply (f_equal (fun o => match o with Some _ => true | None => false end)) in E.
    vm_compute in E. discriminate E.
Defined.

Lemma mainnet_genesis_ok : genesis_ok Mainnet.
Proof.
  constructor.
  - repeat constructor.
  - repeat constructor. vm_compute. intros [_ H]. by apply H.
  - apply NoDup_singleton.
  - repeat constructor; try (by vm_compute); simpl; unfold wf_script, MaxScriptSize; simpl; lia.
Qed.

(** C7. A chain of accepted blocks can be rolled back exactly: along it no transaction id
    repeats (no operation checks that; it follows from the height in the coinbase script
    and from every spent output being gone), so the last block, disconnected with the undo
    data read back from storage, leaves the unspent set of the chain without it.  The one
    assumption on the hash is that no two transactions of the chain collide. *)
Theorem rollback_exact `{EC : ECOps} p bs b s' :
  genesis_ok p -> wf_params p -> Forall wf_block (bs ++ [b]) -> len bs + 1 < 2^32 ->
  collision_free (map tx_Serialize (history p (bs ++ [b]))) ->
  replay p (bs ++ [b]) = Some s' ->
  NoDup (map HashTransaction (history p (bs ++ [b])))
  /\ exists s undo, replay p bs = Some s
    /\ ConnectBlock s b (len bs + 1) = Ok (s', undo)
    /\ (let* undo' := DeserializeUndoData (SerializeUndoData undo) in Ok (DisconnectBlock s' b undo')) = Ok s.
Proof.
  intros Hg Hp Hw Hl C H.
  assert (wf_txs (bs ++ [b])) as Hwt by (eapply Forall_impl; [exact Hw|]; by intros x (_ & ? & _)).
  split.
  - eapply hi_ids. apply replay_hist; try done. rewrite length_app. simpl. lia.
  - rewrite replay_snoc in H. destruct (replay p bs) as [s|] eqn:E; [|done].
    pose proof H as Hc. apply connect_step_Ok in Hc as (_ & _ & [undo HC]). exists s, undo.
    split; [done|]. split; [done|]. apply Forall_app in Hw as [Hw Hb]. apply Forall_cons in Hb as [Hb _].
    rewrite (replay_undo p Hg bs b s s' undo); [|done|done| |done|done].
    + simpl. f_equal. by eapply (replay_disconnect p Hg Hp bs).
    + by apply Forall_app in Hwt as [? _].
Qed.

Lemma rollback_exact_witness :
  exists s' undo, ConnectBlock ∅ example_block1 (0 + 1) = Ok (s', undo) /\ size s' = 1%nat
    /\ (let* undo' := DeserializeUndoData (SerializeUndoData undo) in Ok (DisconnectBlock s' example_block1 undo')) = Ok ∅.
Proof.
  assert (ConnectGenesis NewSet (p_GenesisBlock Mainnet) = ∅) as Eg by (vm_compute; reflexivity).
  destruct (replay (EC := ToyEC.toy_ec) Mainnet ([] ++ [example_block1])) as [s'|] eqn:E.
  - destruct (rollback_exact (EC := ToyEC.toy_ec) Mainnet [] example_block1 s') as (_ & s & undo & Hr & Hc & Hd).
    + apply mainnet_genesis_ok.
    + pose proof wf_networks as Hw. by inversion Hw.
    + repeat constructor; try (by vm_compute); simpl; unfold wf_script, MaxScriptSize; simpl; lia.
    + simpl. lia.
    + refine (bool_decide_unpack _ _). vm_compute. exact I.
    + exact E.
    + unfold replay in Hr. rewrite Eg in Hr. injection Hr as Es. subst s.
      exists s', undo. split; [exact Hc|]. split; [|exact Hd].
      apply (f_equal (fun o => match o with Some s => size s | None => O end)) in E.
      vm_compute in E. exact (eq_sym E).
  - exfalso. apply (f_equal (fun o => match o with Some _ => true | None => false end)) in E.
    vm_compute in E. discriminate E.
Defined.
