(* ===== verification/Store.v ===== *)
(** * Block storage

    Models [src/internal/store]: the [BlockStore] interface the chain manager is written
    against ([store.go]), the block index records ([blockindex.go]), the chainstate
    batches ([chainstate.go]), the [blk*.dat] and [rev*.dat] flat files ([blockfile.go])
    and the composite [FileStore] ([filestore.go]).

    LevelDB is a third-party library: class [LevelDB] lists the operations used and
    [LevelDBLaws] what its documentation promises (a map with atomic batches, where any
    call may fail and then changes nothing).  [BlockStoreLaws] states what the chain
    manager relies on, which [FileLaws.v] shows of [FileStore]. *)
From S2P Require Import Prelude Types Sha256 Crypto Target Utxo.

(** ** Block index records ([blockindex.go]) *)

Definition StatusValidHeader : Z := 1.
Definition StatusValidTree : Z := 2.
Definition StatusValidTx : Z := 4.
Definition StatusValidChain : Z := 8.
Definition StatusHaveData : Z := 16.
Definition StatusHaveUndo : Z := 32.

(** [ChainWork] is a pointer: [None] is nil. *)
Record DiskBlockIndex := {
  bi_Header : BlockHeader; bi_Height : Z; bi_Status : Z; bi_TxCount : Z;
  bi_FileNum : Z; bi_DataPos : Z; bi_DataSize : Z;
  bi_UndoFile : Z; bi_UndoPos : Z; bi_UndoSize : Z;
  bi_ChainWork : option Z }.

Inductive LdbErr := LdbNotFound | LdbIO (code : Z).

Inductive StoreErr :=
| DBErr (e : LdbErr)
| IndexTooShort (n : Z)
| IndexHeader (e : DecodeErr)
| WorkPanic                          (** [workBytes[32-len(b):]] with [len(b) > 32] *)
| NotInIndex (hash : Hash) (e : StoreErr)
| NoData (hash : Hash)
| NoSuchFile (fileNum : Z)
| ReadFrame (e : DecodeErr)
| InvalidMagic (fileNum offset : Z)
| SizeMismatch (frame index : Z)
| ReadData (e : DecodeErr)
| DecodeBlock (e : DecodeErr)
| ReadChecksum (e : DecodeErr)
| ChecksumMismatch (fileNum offset : Z)
| DiskFull
| CorruptTip (n : Z)
| CorruptBest (n : Z).

Definition bi_Serialize (d : DiskBlockIndex) : result StoreErr (list byte) :=
  let fixed :=
    PutUint32LE (bi_Height d) ++ PutUint32LE (bi_Status d) ++ PutUint32LE (bi_TxCount d)
    ++ PutUint32LE (bi_FileNum d) ++ PutUint32LE (bi_DataPos d) ++ PutUint32LE (bi_DataSize d)
    ++ PutUint32LE (bi_UndoFile d) ++ PutUint32LE (bi_UndoPos d) ++ PutUint32LE (bi_UndoSize d) in
  let* workBytes :=
    match bi_ChainWork d with
    | None => Ok (replicate 32 Byte.x00)
    | Some w =>
        let b := big_Bytes w in
        check (32 <? len b) else WorkPanic;
        Ok (replicate (32 - length b) Byte.x00 ++ b)
    end in
  Ok (fixed ++ hdr_SerializeToBytes (bi_Header d) ++ workBytes).

Definition DeserializeDiskBlockIndex (data : list byte) : result StoreErr DiskBlockIndex :=
  check len data <? 36 + 80 + 32 else IndexTooShort (len data);
  let u32_at i := ReadUintLE (slice i (i + 4) data) in
  let* (header, r) := rwrap IndexHeader (hdr_Deserialize (drop 36 data)) in
  let workBytes := take 32 r in
  Ok {| bi_Header := header; bi_Height := u32_at 0%nat; bi_Status := u32_at 4%nat;
        bi_TxCount := u32_at 8%nat; bi_FileNum := u32_at 12%nat; bi_DataPos := u32_at 16%nat;
        bi_DataSize := u32_at 20%nat; bi_UndoFile := u32_at 24%nat; bi_UndoPos := u32_at 28%nat;
        bi_UndoSize := u32_at 32%nat; bi_ChainWork := Some (le_combine (rev workBytes)) |}.

Definition blockIndexKey (hash : Hash) : list byte := Byte.x62 :: hash.
Definition keyChainTip : list byte := [Byte.x54].
Definition keyBestBlock : list byte := [Byte.x42].
Definition utxoKey (txHash : Hash) (index : Z) : list byte := Byte.x43 :: txHash ++ PutUint32LE index.

(** ** LevelDB *)

Inductive batch_op := BatchPut (k v : list byte) | BatchDelete (k : list byte).

Definition apply_batch (ops : list batch_op) (m : gmap (list byte) (list byte))
  : gmap (list byte) (list byte) :=
  fold_left (fun m op => match op with BatchPut k v => <[k := v]> m | BatchDelete k => delete k m end) ops m.

Class LevelDB (DB : Type) := {
  db_Get : DB -> list byte -> result LdbErr (list byte);
  db_Has : DB -> list byte -> result LdbErr bool;
  db_Put : DB -> list byte -> list byte -> result LdbErr unit * DB;
  db_Write : DB -> list batch_op -> result LdbErr unit * DB;
  (** the pairs an iterator over a key prefix visits, in key order, and its final error *)
  db_Iter : DB -> list byte -> list (list byte * list byte) * option LdbErr }.

Class LevelDBLaws (DB : Type) `{LevelDB DB} := {
  db_map : DB -> gmap (list byte) (list byte);
  db_Get_sound : forall d k v, db_Get d k = Ok v -> db_map d !! k = Some v;
  db_Get_absent : forall d k, db_Get d k = Err LdbNotFound -> db_map d !! k = None;
  db_Put_Ok : forall d k v d', db_Put d k v = (Ok tt, d') -> db_map d' = <[k := v]> (db_map d);
  db_Put_Err : forall d k v d' e, db_Put d k v = (Err e, d') -> db_map d' = db_map d;
  db_Write_Ok : forall d ops d', db_Write d ops = (Ok tt, d') -> db_map d' = apply_batch ops (db_map d);
  db_Write_Err : forall d ops d' e, db_Write d ops = (Err e, d') -> db_map d' = db_map d;
  db_Iter_all : forall d pre l, db_Iter d pre = (l, None) ->
    l ≡ₚ filter (fun kv => take (length pre) kv.1 = pre) (map_to_list (db_map d)) }.

(** ** Chainstate batches ([chainstate.go]) *)

Definition ChainstateWriteBatch := list batch_op.
Definition wb_PutUtxo (wb : ChainstateWriteBatch) (txHash : Hash) (index : Z) (data : list byte)
  : ChainstateWriteBatch := wb ++ [BatchPut (utxoKey txHash index) data].
Definition wb_DeleteUtxo (wb : ChainstateWriteBatch) (txHash : Hash) (index : Z)
  : ChainstateWriteBatch := wb ++ [BatchDelete (utxoKey txHash index)].
Definition wb_PutBestBlock (wb : ChainstateWriteBatch) (hash : Hash) : ChainstateWriteBatch :=
  wb ++ [BatchPut keyBestBlock hash].

(** ** The interface ([store.go])

    Reads are functions of the store; writes return the new store next to the error.  The
    [ForEach] methods give the pairs their callback is applied to, and the error with
    which the iteration ends. *)

Class BlockStore (S : Type) := {
  HasBlock : S -> Hash -> result StoreErr bool;
  WriteBlock : S -> Hash -> Block -> result StoreErr (Z * Z * Z) * S;
  WriteUndo : S -> Z -> list byte -> result StoreErr (Z * Z) * S;
  ReadUndo : S -> Z -> Z -> Z -> result StoreErr (list byte);
  PutBlockIndex : S -> Hash -> DiskBlockIndex -> result StoreErr unit * S;
  GetBlockIndex : S -> Hash -> result StoreErr DiskBlockIndex;
  ForEachBlockIndex : S -> list (Hash * DiskBlockIndex) * option StoreErr;
  GetChainTip : S -> result StoreErr (Hash * Z);
  PutChainTip : S -> Hash -> Z -> result StoreErr unit * S;
  FlushUtxoBatch : S -> ChainstateWriteBatch -> result StoreErr unit * S;
  GetBestBlock : S -> result StoreErr Hash;
  ForEachUtxo : S -> list (Hash * Z * list byte) * option StoreErr;
  GetBlock : S -> Hash -> result StoreErr Block;
  GetHeader : S -> Hash -> result StoreErr BlockHeader }.

(** What a store holds besides the flat files. *)
Record StoreView := {
  v_index : gmap Hash DiskBlockIndex;
  v_tip : option (Hash * Z);
  v_chainstate : gmap (list byte) (list byte) }.

Definition set_index (v : StoreView) (i : gmap Hash DiskBlockIndex) : StoreView :=
  {| v_index := i; v_tip := v_tip v; v_chainstate := v_chainstate v |}.
Definition set_chainstate (v : StoreView) (m : gmap (list byte) (list byte)) : StoreView :=
  {| v_index := v_index v; v_tip := v_tip v; v_chainstate := m |}.

(** A record whose fields fit their types. *)
Definition wf_index (r : DiskBlockIndex) : Prop :=
  wf_header (bi_Header r) /\ is_u32 (bi_Height r) /\ is_u32 (bi_Status r) /\ is_u32 (bi_TxCount r)
  /\ is_u32 (bi_FileNum r) /\ is_u32 (bi_DataPos r) /\ is_u32 (bi_DataSize r)
  /\ is_u32 (bi_UndoFile r) /\ is_u32 (bi_UndoPos r) /\ is_u32 (bi_UndoSize r)
  /\ exists w, bi_ChainWork r = Some w /\ 0 <= w.

(** A block that fits a stored frame. *)
Definition storable (b : Block) : Prop := wf_block b /\ len (blk_Serialize b) < 2^32.

(** What the chain manager relies on.  [st_live] excludes a store that has run out of
    addressable space (or whose disk has failed), which no operation can undo; [st_data]
    and [st_undo] are the blocks and undo data that have been stored at a position, and
    stay there.  A read may fail; when it succeeds, it returns what was stored. *)
Class BlockStoreLaws (S : Type) `{BlockStore S} := {
  st_live : S -> Prop;
  st_ok : S -> Prop;
  st_view : S -> StoreView;
  st_data : S -> Z -> Z -> option Block;
  st_undo : S -> Z -> Z -> option (list byte);
  GetBlockIndex_sound : forall s h r, st_ok s -> GetBlockIndex s h = Ok r -> v_index (st_view s) !! h = Some r;
  GetHeader_sound : forall s h hd, st_ok s -> GetHeader s h = Ok hd ->
    exists r, v_index (st_view s) !! h = Some r /\ bi_Header r = hd;
  GetBlock_sound : forall s h b, st_ok s -> GetBlock s h = Ok b ->
    exists r, v_index (st_view s) !! h = Some r
      /\ forall b', st_data s (bi_FileNum r) (bi_DataPos r) = Some b' -> b = b';
  GetChainTip_sound : forall s h n, st_ok s -> GetChainTip s = Ok (h, n) -> v_tip (st_view s) = Some (h, n);
  GetBestBlock_sound : forall s h, st_ok s -> GetBestBlock s = Ok h ->
    v_chainstate (st_view s) !! keyBestBlock = Some h;
  ForEachBlockIndex_all : forall s l, st_ok s -> ForEachBlockIndex s = (l, None) ->
    (forall h r, (h, r) ∈ l -> v_index (st_view s) !! h = Some r)
    /\ (forall h r, wf_hash h -> v_index (st_view s) !! h = Some r -> (h, r) ∈ l);
  ForEachUtxo_all : forall s l, st_ok s -> ForEachUtxo s = (l, None) -> forall h i data,
    (h, i, data) ∈ l <-> wf_hash h /\ is_u32 i /\ v_chainstate (st_view s) !! utxoKey h i = Some data;
  ReadUndo_sound : forall s f o n bs bs', st_ok s -> ReadUndo s f o n = Ok bs ->
    st_undo s f o = Some bs' -> bs = bs';
  WriteBlock_law : forall s h b res s', WriteBlock s h b = (res, s') -> st_live s' ->
    st_live s /\ (st_ok s -> storable b ->
      st_ok s' /\ st_view s' = st_view s
      /\ (forall f o x, st_data s f o = Some x -> st_data s' f o = Some x)
      /\ (forall f o x, st_undo s f o = Some x -> st_undo s' f o = Some x)
      /\ (forall f o n, res = Ok (f, o, n) ->
            is_u32 f /\ is_u32 o /\ is_u32 n /\ st_data s' f o = Some b));
  WriteUndo_law : forall s f bs res s', WriteUndo s f bs = (res, s') -> st_live s' ->
    st_live s /\ (st_ok s -> len bs < 2^32 ->
      st_ok s' /\ st_view s' = st_view s
      /\ (forall f o x, st_data s f o = Some x -> st_data s' f o = Some x)
      /\ (forall f o x, st_undo s f o = Some x -> st_undo s' f o = Some x)
      /\ (forall o n, res = Ok (o, n) -> is_u32 o /\ is_u32 n /\ st_undo s' f o = Some bs));
  PutBlockIndex_law : forall s h r res s', PutBlockIndex s h r = (res, s') -> st_live s' ->
    st_live s /\ (st_ok s -> wf_index r ->
      st_ok s' /\ st_data s' = st_data s /\ st_undo s' = st_undo s
      /\ st_view s' = if is_ok res then set_index (st_view s) (<[h := r]> (v_index (st_view s)))
                      else st_view s);
  PutChainTip_law : forall s h n res s', PutChainTip s h n = (res, s') -> st_live s' ->
    st_live s /\ (st_ok s ->
      st_ok s' /\ st_data s' = st_data s /\ st_undo s' = st_undo s
      /\ v_index (st_view s') = v_index (st_view s)
      /\ v_chainstate (st_view s') = v_chainstate (st_view s)
      /\ (wf_hash h -> v_tip (st_view s') = if is_ok res then Some (h, u32 n) else v_tip (st_view s)));
  FlushUtxoBatch_law : forall s wb res s', FlushUtxoBatch s wb = (res, s') -> st_live s' ->
    st_live s /\ (st_ok s ->
      st_ok s' /\ st_data s' = st_data s /\ st_undo s' = st_undo s
      /\ st_view s' = if is_ok res
                      then set_chainstate (st_view s) (apply_batch wb (v_chainstate (st_view s)))
                      else st_view s) }.

(** What survives a restart besides the blocks, the index and the undo data: the recorded
    tip and the chainstate.  Each write changes one of them or none. *)
Definition persisted {S} `{BlockStoreLaws S} (s : S) : option (Hash * Z) * gmap (list byte) (list byte) :=
  (v_tip (st_view s), v_chainstate (st_view s)).

Class PersistLaws (S : Type) `{BlockStoreLaws S} : Prop := {
  WriteBlock_persist : forall s h b res s', WriteBlock s h b = (res, s') -> persisted s' = persisted s;
  WriteUndo_persist : forall s f bs res s', WriteUndo s f bs = (res, s') -> persisted s' = persisted s;
  PutBlockIndex_persist : forall s h r res s', PutBlockIndex s h r = (res, s') -> persisted s' = persisted s;
  PutChainTip_persist : forall s h n res s', PutChainTip s h n = (res, s') -> wf_hash h ->
    persisted s' = if is_ok res then (Some (h, u32 n), (persisted s).2) else persisted s;
  FlushUtxoBatch_persist : forall s wb res s', FlushUtxoBatch s wb = (res, s') ->
    persisted s' = if is_ok res then ((persisted s).1, apply_batch wb (persisted s).2) else persisted s }.

(** ** The flat files ([blockfile.go])

    A file is its bytes.  [d_free] is the space left on the device, [None] for no limit: a
    write that does not fit stores a prefix and fails.  Other failures of the operating
    system are not represented.  [bf_curFile] is kept unbounded; the [uint32] of the code
    is [u32 bf_curFile], which is what every use takes. *)

Definition maxBlockFileSize : Z := 128 * 1024 * 1024.

Record BlockFileManager := {
  bf_magic : list byte;
  bf_blk : gmap Z (list byte);
  bf_rev : gmap Z (list byte);
  bf_free : option Z;
  bf_curFile : Z;
  bf_curSize : Z }.

Definition file_bytes (files : gmap Z (list byte)) (n : Z) : list byte := default [] (files !! n).

(** Successive [f.Write] calls on a file opened for appending: whether all succeeded, the
    file, and the space left. *)
Fixpoint os_Writes (chunks : list (list byte)) (file : list byte) (free : option Z)
  : bool * list byte * option Z :=
  match chunks with
  | [] => (true, file, free)
  | data :: chunks =>
      match free with
      | None => os_Writes chunks (file ++ data) None
      | Some n =>
          if len data <=? n then os_Writes chunks (file ++ data) (Some (n - len data))
          else (false, file ++ take (Z.to_nat n) data, Some 0)
      end
  end.

Definition set_blk (b : BlockFileManager) (n : Z) (file : list byte) (free : option Z) : BlockFileManager :=
  {| bf_magic := bf_magic b; bf_blk := <[n := file]> (bf_blk b); bf_rev := bf_rev b; bf_free := free;
     bf_curFile := bf_curFile b; bf_curSize := bf_curSize b |}.
Definition set_rev (b : BlockFileManager) (n : Z) (file : list byte) (free : option Z) : BlockFileManager :=
  {| bf_magic := bf_magic b; bf_blk := bf_blk b; bf_rev := <[n := file]> (bf_rev b); bf_free := free;
     bf_curFile := bf_curFile b; bf_curSize := bf_curSize b |}.
Definition set_cur (b : BlockFileManager) (file size : Z) : BlockFileManager :=
  {| bf_magic := bf_magic b; bf_blk := bf_blk b; bf_rev := bf_rev b; bf_free := bf_free b;
     bf_curFile := file; bf_curSize := size |}.

Definition frame_header (magic : list byte) (n : Z) : list byte := magic ++ PutUint32LE (u32 n).

Definition bf_WriteBlock (b : BlockFileManager) (block : Block)
  : result StoreErr (Z * Z * Z) * BlockFileManager :=
  let data := blk_Serialize block in
  let frameSize := 8 + len data in
  let b :=
    if (bf_curSize b >? 0) && (bf_curSize b + frameSize >? maxBlockFileSize)
    then set_cur b (bf_curFile b + 1) 0 else b in
  let fileNum := u32 (bf_curFile b) in
  let offset := u32 (bf_curSize b) in
  let size := u32 (len data) in
  let '(ok, file, free) :=
    os_Writes [frame_header (bf_magic b) (len data); data] (file_bytes (bf_blk b) fileNum) (bf_free b) in
  let b := set_blk b fileNum file free in
  if ok then (Ok (fileNum, offset, size), set_cur b (bf_curFile b) (bf_curSize b + frameSize))
  else (Err DiskFull, b).

(** The frame at [offset]: magic, size, data; what follows it. *)
Definition read_frame (magic file : list byte) (fileNum offset size : Z)
  : result StoreErr (list byte * list byte) :=
  let r := drop (Z.to_nat offset) file in
  let* (frame, r) := rwrap ReadFrame (ReadFull 8 r) in
  check negb (bool_decide (take 4 frame = magic)) else InvalidMagic fileNum offset;
  let dataSize := ReadUintLE (drop 4 frame) in
  check (size >? 0) && negb (dataSize =? size) else SizeMismatch dataSize size;
  rwrap ReadData (ReadFull (Z.to_nat dataSize) r).

Definition bf_ReadBlock (b : BlockFileManager) (fileNum offset size : Z) : result StoreErr Block :=
  match bf_blk b !! fileNum with
  | None => Err (NoSuchFile fileNum)
  | Some file =>
      let* (data, _) := read_frame (bf_magic b) file fileNum offset size in
      let* (block, _) := rwrap DecodeBlock (blk_Deserialize data) in
      Ok block
  end.

Definition bf_WriteUndo (b : BlockFileManager) (fileNum : Z) (undoData : list byte)
  : result StoreErr (Z * Z) * BlockFileManager :=
  let file := file_bytes (bf_rev b) fileNum in
  let checksum := DoubleSHA256 undoData in
  let '(ok, file', free) :=
    os_Writes [frame_header (bf_magic b) (len undoData); undoData; checksum] file (bf_free b) in
  let b := set_rev b fileNum file' free in
  if ok then (Ok (u32 (len file), u32 (len undoData)), b) else (Err DiskFull, b).

Definition bf_ReadUndo (b : BlockFileManager) (fileNum offset size : Z) : result StoreErr (list byte) :=
  match bf_rev b !! fileNum with
  | None => Err (NoSuchFile fileNum)
  | Some file =>
      let* (data, r) := read_frame (bf_magic b) file fileNum offset size in
      let* (storedChecksum, _) := rwrap ReadChecksum (ReadFull 32 r) in
      check negb (bool_decide (storedChecksum = DoubleSHA256 data)) else ChecksumMismatch fileNum offset;
      Ok data
  end.

(** ** The composite store ([filestore.go]) *)

Record FileStore (DB : Type) := {
  fs_files : BlockFileManager; fs_index : DB; fs_chainstate : DB }.
Arguments fs_files {DB}. Arguments fs_index {DB}. Arguments fs_chainstate {DB}.

Section filestore.
Context {DB : Type} `{LDB : LevelDB DB}.
Implicit Types s : FileStore DB.

Definition set_files s (b : BlockFileManager) : FileStore DB :=
  {| fs_files := b; fs_index := fs_index s; fs_chainstate := fs_chainstate s |}.
Definition set_index_db s (d : DB) : FileStore DB :=
  {| fs_files := fs_files s; fs_index := d; fs_chainstate := fs_chainstate s |}.
Definition set_chainstate_db s (d : DB) : FileStore DB :=
  {| fs_files := fs_files s; fs_index := fs_index s; fs_chainstate := d |}.

Definition fs_HasBlock s (hash : Hash) : result StoreErr bool :=
  rwrap DBErr (db_Has (fs_index s) (blockIndexKey hash)).
Definition fs_WriteBlock s (hash : Hash) (block : Block) : result StoreErr (Z * Z * Z) * FileStore DB :=
  let '(r, b) := bf_WriteBlock (fs_files s) block in (r, set_files s b).
Definition fs_WriteUndo s (fileNum : Z) (data : list byte) : result StoreErr (Z * Z) * FileStore DB :=
  let '(r, b) := bf_WriteUndo (fs_files s) fileNum data in (r, set_files s b).
Definition fs_ReadUndo s (fileNum offset size : Z) : result StoreErr (list byte) :=
  bf_ReadUndo (fs_files s) fileNum offset size.

Definition fs_PutBlockIndex s (hash : Hash) (rec : DiskBlockIndex) : result StoreErr unit * FileStore DB :=
  match bi_Serialize rec with
  | Err e => (Err e, s)
  | Ok data =>
      let '(r, d) := db_Put (fs_index s) (blockIndexKey hash) data in
      (rwrap DBErr r, set_index_db s d)
  end.
Definition fs_GetBlockIndex s (hash : Hash) : result StoreErr DiskBlockIndex :=
  let* data := rwrap DBErr (db_Get (fs_index s) (blockIndexKey hash)) in
  DeserializeDiskBlockIndex data.

(** The records decoded before the first that does not decode. *)
Fixpoint index_records (l : list (list byte * list byte)) : list (Hash * DiskBlockIndex) * option StoreErr :=
  match l with
  | [] => ([], None)
  | (key, v) :: l =>
      if negb (len key =? 33) then index_records l
      else match DeserializeDiskBlockIndex v with
           | Err e => ([], Some e)
           | Ok rec => let '(recs, err) := index_records l in ((drop 1 key, rec) :: recs, err)
           end
  end.
Definition fs_ForEachBlockIndex s : list (Hash * DiskBlockIndex) * option StoreErr :=
  let '(l, err) := db_Iter (fs_index s) [Byte.x62] in
  let '(recs, e) := index_records l in
  (recs, match e with Some e => Some e | None => DBErr <$> err end).

(** hash, then the height in big-endian order *)
Definition fs_GetChainTip s : result StoreErr (Hash * Z) :=
  let* data := rwrap DBErr (db_Get (fs_index s) keyChainTip) in
  check negb (len data =? 36) else CorruptTip (len data);
  Ok (take 32 data, ReadUintLE (rev (drop 32 data))).
Definition fs_PutChainTip s (hash : Hash) (height : Z) : result StoreErr unit * FileStore DB :=
  let '(r, d) := db_Put (fs_index s) keyChainTip (hash ++ rev (PutUint32LE height)) in
  (rwrap DBErr r, set_index_db s d).

Definition fs_FlushUtxoBatch s (wb : ChainstateWriteBatch) : result StoreErr unit * FileStore DB :=
  let '(r, d) := db_Write (fs_chainstate s) wb in (rwrap DBErr r, set_chainstate_db s d).
Definition fs_GetBestBlock s : result StoreErr Hash :=
  let* data := rwrap DBErr (db_Get (fs_chainstate s) keyBestBlock) in
  check negb (len data =? 32) else CorruptBest (len data);
  Ok data.
Definition fs_ForEachUtxo s : list (Hash * Z * list byte) * option StoreErr :=
  let '(l, err) := db_Iter (fs_chainstate s) [Byte.x43] in
  (map (fun '(key, v) => (slice 1 33 key, ReadUintLE (drop 33 key), v))
     (filter (fun kv => len kv.1 = 37) l), DBErr <$> err).

Definition fs_GetBlock s (hash : Hash) : result StoreErr Block :=
  let* rec := rwrap (NotInIndex hash) (fs_GetBlockIndex s hash) in
  check (Z.land (bi_Status rec) StatusHaveData =? 0) else NoData hash;
  bf_ReadBlock (fs_files s) (bi_FileNum rec) (bi_DataPos rec) (bi_DataSize rec).
Definition fs_GetHeader s (hash : Hash) : result StoreErr BlockHeader :=
  let* rec := rwrap (NotInIndex hash) (fs_GetBlockIndex s hash) in
  Ok (bi_Header rec).
End filestore.

#[export] Instance FileStore_BlockStore {DB} `{LDB : LevelDB DB} : BlockStore (FileStore DB) := {|
  HasBlock := fs_HasBlock; WriteBlock := fs_WriteBlock; WriteUndo := fs_WriteUndo;
  ReadUndo := fs_ReadUndo; PutBlockIndex := fs_PutBlockIndex; GetBlockIndex := fs_GetBlockIndex;
  ForEachBlockIndex := fs_ForEachBlockIndex; GetChainTip := fs_GetChainTip;
  PutChainTip := fs_PutChainTip; FlushUtxoBatch := fs_FlushUtxoBatch;
  GetBestBlock := fs_GetBestBlock; ForEachUtxo := fs_ForEachUtxo;
  GetBlock := fs_GetBlock; GetHeader := fs_GetHeader |}.

(** ** A LevelDB that keeps its promises

    [mem_db] never fails; [flaky_db] fails the writes its schedule says. *)

Module MemDB.
Definition mem_db := gmap (list byte) (list byte).

#[export] Instance mem_leveldb : LevelDB mem_db := {|
  db_Get := fun d k => match d !! k with Some v => Ok v | None => Err LdbNotFound end;
  db_Has := fun d k => Ok (bool_decide (is_Some (d !! k)));
  db_Put := fun d k v => (Ok tt, <[k := v]> d);
  db_Write := fun d ops => (Ok tt, apply_batch ops d);
  db_Iter := fun d pre => (filter (fun kv => take (length pre) kv.1 = pre) (map_to_list d), None) |}.

#[export] Instance mem_leveldb_laws : LevelDBLaws mem_db.
Proof.
  refine {| db_map := fun d => d |}; simpl.
  - intros d k v. by destruct (d !! k) as [x|] eqn:E; intros [= <-].
  - intros d k. by destruct (d !! k).
  - by intros d k v d' [= <-].
  - done.
  - by intros d ops d' [= <-].
  - done.
  - by intros d pre l [= <-].
Defined.

Record flaky_db := { fl_map : gmap (list byte) (list byte); fl_fails : list bool }.

(** Consume one entry of the schedule. *)
Definition flaky_write (d : flaky_db) (m : gmap (list byte) (list byte)) : result LdbErr unit * flaky_db :=
  match fl_fails d with
  | true :: l => (Err (LdbIO 5), {| fl_map := fl_map d; fl_fails := l |})
  | l => (Ok tt, {| fl_map := m; fl_fails := tail l |})
  end.

#[export] Instance flaky_leveldb : LevelDB flaky_db := {|
  db_Get := fun d k => match fl_map d !! k with Some v => Ok v | None => Err LdbNotFound end;
  db_Has := fun d k => Ok (bool_decide (is_Some (fl_map d !! k)));
  db_Put := fun d k v => flaky_write d (<[k := v]> (fl_map d));
  db_Write := fun d ops => flaky_write d (apply_batch ops (fl_map d));
  db_Iter := fun d pre => (filter (fun kv => take (length pre) kv.1 = pre) (map_to_list (fl_map d)), None) |}.

#[export] Instance flaky_leveldb_laws : LevelDBLaws flaky_db.
Proof.
  refine {| db_map := fl_map |}; simpl.
  - intros d k v. by destruct (fl_map d !! k) as [x|] eqn:E; intros [= <-].
  - intros d k. by destruct (fl_map d !! k).
  - intros d k v d'. unfold flaky_write. by destruct (fl_fails d) as [|[]]; intros [= <-].
  - intros d k v d' e. unfold flaky_write. by destruct (fl_fails d) as [|[]]; intros [= <- <-].
  - intros d ops d'. unfold flaky_write. by destruct (fl_fails d) as [|[]]; intros [= <-].
  - intros d ops d' e. unfold flaky_write. by destruct (fl_fails d) as [|[]]; intros [= <- <-].
  - by intros d pre l [= <-].
Defined.
End MemDB.
