(* ===== verification/FileLaws.v ===== *)
(** * The file store keeps its promises

    [FileStore] over any LevelDB satisfies [BlockStoreLaws]: index records and blocks are
    read back as written, and what is stored at a position stays there.  The store is live
    while the disk has room and file numbers and undo offsets fit in 32 bits. *)
From S2P Require Import Prelude Types Sha256 Crypto Target Utxo Store.

(** ** Index records *)

Lemma le_combine_padded l n : le_combine (rev (replicate n Byte.x00 ++ l)) = le_combine (rev l).
Proof.
  induction n as [|n IH]; [done|]. change (replicate (S n) Byte.x00 ++ l) with (Byte.x00 :: replicate n Byte.x00 ++ l).
  cbn [rev]. rewrite le_combine_snoc, IH. change (byte.unsigned Byte.x00) with 0. lia.
Qed.

Lemma big_Bytes_value w : 0 <= w -> le_combine (rev (big_Bytes w)) = w.
Proof.
  intros Hw. pose proof (big_Bytes_bound w) as H. unfold big_Bytes in *. rewrite rev_involutive, le_combine_split.
  rewrite length_rev, length_le_split in H. rewrite Z.abs_eq in * by done.
  apply Z.mod_small. by rewrite Z.mul_comm in H.
Qed.

(** The [k]-th word of a sequence of words. *)
Lemma slice_put k x l : slice (4 + k) (4 + k + 4) (PutUint32LE x ++ l) = slice k (k + 4) l.
Proof.
  unfold slice. replace (4 + k + 4 - (4 + k))%nat with (k + 4 - k)%nat by lia.
  rewrite <- drop_drop. by rewrite drop_app_length' by (by rewrite length_PutUint32LE).
Qed.
Lemma slice_put_0 x l : slice 0 4 (PutUint32LE x ++ l) = PutUint32LE x.
Proof. by apply (slice_at 0 4 _ [] (PutUint32LE x) l); [| |rewrite length_PutUint32LE]. Qed.

Lemma index_roundtrip r data :
  wf_index r -> bi_Serialize r = Ok data -> DeserializeDiskBlockIndex data = Ok r.
Proof.
  destruct r as [hd ht st tc fn dp ds uf up us cw]. unfold wf_index, bi_Serialize. simpl.
  intros (Hhd & H1 & H2 & H3 & H4 & H5 & H6 & H7 & H8 & H9 & w & -> & Hw).
  destruct (Z.ltb_spec 32 (len (big_Bytes w))) as [|Hl]; [done|]. simpl. intros [= <-].
  set (W := replicate _ _ ++ _). assert (length W = 32%nat) as HW.
  { subst W. rewrite length_app, length_replicate. lia. }
  set (F := PutUint32LE ht ++ _) at 1. assert (length F = 36%nat) as HF.
  { subst F. rewrite !length_app, !length_PutUint32LE. done. }
  assert (length (hdr_SerializeToBytes hd) = 80%nat) as HH by (by apply length_hdr_SerializeToBytes).
  unfold DeserializeDiskBlockIndex. rewrite !length_app, HF, HH, HW. simpl.
  rewrite drop_app_length' by done. rewrite (decode_encode (dec := hdr_Deserialize)) by done. simpl.
  rewrite (take_ge W 32) by lia. subst W. rewrite le_combine_padded, big_Bytes_value by done.
  subst F. rewrite <- !app_assoc.
  repeat match goal with |- context [slice ?k ?j (PutUint32LE ?x ++ ?l)] =>
    match k with
    | O => change (slice k j) with (@slice byte 0 4); rewrite (slice_put_0 x l)
    | S (S (S (S ?m))) => change (slice k j) with (@slice byte (4 + m) (4 + m + 4)); rewrite (slice_put m x l)
    end end.
  by rewrite !ReadUintLE_Put32 by done.
Qed.

(** ** The index as a map *)

Definition index_entry (kv : list byte * list byte) : option (Hash * DiskBlockIndex) :=
  match kv with
  | (Byte.x62 :: h, v) => match DeserializeDiskBlockIndex v with Ok r => Some (h, r) | Err _ => None end
  | _ => None
  end.

Definition index_view (m : gmap (list byte) (list byte)) : gmap Hash DiskBlockIndex :=
  list_to_map (omap index_entry (map_to_list m)).

Lemma index_entry_Some k v h r :
  index_entry (k, v) = Some (h, r) <-> k = blockIndexKey h /\ DeserializeDiskBlockIndex v = Ok r.
Proof.
  unfold index_entry, blockIndexKey. split.
  - destruct k as [|[] k]; try done. destruct (DeserializeDiskBlockIndex v); [|done]. by intros [= -> ->].
  - by intros [-> ->].
Qed.

Lemma NoDup_index_entries l :
  NoDup l.*1 -> NoDup (omap index_entry l).*1.
Proof.
  induction l as [|[k v] l IH]; cbn [omap list_omap fmap list_fmap]; intros Hnd; [constructor|].
  apply NoDup_cons in Hnd as [Hni Hnd]. destruct (index_entry (k, v)) as [[h r]|] eqn:E; [|by apply IH].
  cbn [fmap list_fmap]. apply NoDup_cons. split; [|by apply IH]. intros Hin.
  apply list_elem_of_fmap in Hin as ([h' r'] & Eh & Hin). simpl in Eh. subst h'.
  apply list_elem_of_omap in Hin as ([k' v'] & Hin & E').
  apply index_entry_Some in E as [-> _]. apply index_entry_Some in E' as [-> _].
  apply Hni. apply list_elem_of_fmap. by exists (blockIndexKey h, v').
Qed.

Lemma index_view_Some m h r :
  index_view m !! h = Some r <-> exists v, m !! blockIndexKey h = Some v /\ DeserializeDiskBlockIndex v = Ok r.
Proof.
  unfold index_view. rewrite <- elem_of_list_to_map by apply NoDup_index_entries, NoDup_fst_map_to_list.
  rewrite list_elem_of_omap. split.
  - intros ([k v] & Hin & E). apply index_entry_Some in E as [-> E]. apply elem_of_map_to_list in Hin. eauto.
  - intros (v & Hv & E). exists (blockIndexKey h, v). rewrite elem_of_map_to_list, index_entry_Some. done.
Qed.

Lemma index_view_put m h r v :
  DeserializeDiskBlockIndex v = Ok r -> index_view (<[blockIndexKey h := v]> m) = <[h := r]> (index_view m).
Proof.
  intros E. apply map_eq. intros h'. apply option_eq. intros r'. rewrite index_view_Some, lookup_insert_Some, index_view_Some.
  setoid_rewrite lookup_insert_Some. split.
  - intros (v' & [[Ek <-]|[Hne Hv']] & E'); [left|right].
    + injection Ek as <-. split; [done|congruence].
    + split; [congruence|eauto].
  - intros [[<- <-]|[Hne (v' & Hv' & E')]]; [by exists v; split; [left|]|].
    exists v'. split; [|done]. right. split; [|done]. by intros [= ->].
Qed.

Lemma index_view_other m k v :
  (forall h, k <> blockIndexKey h) -> index_view (<[k := v]> m) = index_view m.
Proof.
  intros Hk. apply map_eq. intros h'. apply option_eq. intros r'. rewrite !index_view_Some.
  by setoid_rewrite lookup_insert_ne; [|by apply Hk].
Qed.

(** ** Flat files *)

(** Appending keeps what can be read. *)
Lemma ReadFull_more n r bs r' more : ReadFull n r = Ok (bs, r') -> ReadFull n (r ++ more) = Ok (bs, r' ++ more).
Proof. intros H. apply ReadFull_Ok in H as [-> Hl]. rewrite <- app_assoc. by apply ReadFull_app. Qed.

Lemma drop_more n (l more : list byte) : (n <= length l)%nat -> drop n (l ++ more) = drop n l ++ more.
Proof. apply drop_app_le. Qed.

Lemma read_frame_more magic file f o n data r more :
  read_frame magic file f o n = Ok (data, r) -> read_frame magic (file ++ more) f o n = Ok (data, r ++ more).
Proof.
  unfold read_frame. intros H. apply rbind_Ok in H as ([frame r1] & H1 & H). apply rwrap_Ok in H1.
  assert (Z.to_nat o <= length file)%nat as Hle.
  { destruct (decide (Z.to_nat o <= length file)%nat); [done|].
    rewrite drop_ge in H1 by lia. apply ReadFull_Ok in H1 as [E Hl]. by destruct frame. }
  rewrite drop_more by done. rewrite (ReadFull_more _ _ _ _ _ H1). cbn [rwrap rbind].
  destruct (negb _); [done|]. destruct (_ && _); [done|]. apply rwrap_Ok in H.
  by rewrite (ReadFull_more _ _ _ _ _ H).
Qed.

Lemma read_frame_any magic file f o n x : read_frame magic file f o n = Ok x -> read_frame magic file f o 0 = Ok x.
Proof.
  unfold read_frame. destruct (rwrap ReadFrame _) as [[frame r1]|]; [|done]. cbn [rbind].
  destruct (negb _); [done|]. cbn [Z.gtb Z.compare andb]. by destruct (_ && _).
Qed.

(** The frame just appended. *)
Lemma read_frame_new magic file data f n :
  length magic = 4%nat -> len data < 2^32 -> n = 0 \/ n = len data -> forall more,
  read_frame magic (file ++ frame_header magic (len data) ++ data ++ more) f (len file) n = Ok (data, more).
Proof.
  intros Hm Hl Hn more. unfold read_frame, frame_header. rewrite Nat2Z.id, drop_app_length.
  rewrite ReadFull_app by (rewrite length_app, Hm, length_PutUint32LE; done). cbn [rwrap rbind].
  rewrite take_app_length', drop_app_length' by done. rewrite bool_decide_true by done. cbn [negb].
  rewrite u32_small by (unfold is_u32; lia). rewrite ReadUintLE_Put32 by (unfold is_u32; lia).
  assert ((n >? 0) && negb (len data =? n) = false) as ->.
  { destruct Hn as [-> | ->]; [done|]. by rewrite Z.eqb_refl, andb_false_r. }
  by rewrite ReadFull_app by lia.
Qed.

Lemma os_Writes_None chunks file ok file' free :
  os_Writes chunks file None = (ok, file', free) -> ok = true /\ file' = file ++ concat chunks /\ free = None.
Proof.
  revert file. induction chunks as [|c chunks IH]; intros file; cbn [os_Writes concat].
  - intros [= <- <- <-]. by rewrite app_nil_r.
  - intros H. apply IH in H as (-> & -> & ->). by rewrite <- app_assoc.
Qed.

Lemma os_Writes_Some chunks file n : exists n', (os_Writes chunks file (Some n)).2 = Some n'.
Proof.
  revert file n. induction chunks as [|c chunks IH]; intros file n; cbn [os_Writes]; [by exists n|].
  destruct (_ <=? _); [apply IH|by exists 0].
Qed.

Lemma os_Writes_live chunks file free ok file' :
  os_Writes chunks file free = (ok, file', None) -> free = None /\ ok = true /\ file' = file ++ concat chunks.
Proof.
  destruct free as [n|]; intros H.
  - destruct (os_Writes_Some chunks file n) as [n' E]. rewrite H in E. done.
  - by apply os_Writes_None in H as (-> & -> & _).
Qed.

(** What a file holds at a position. *)
Definition frame_at (magic : list byte) (files : gmap Z (list byte)) (f o : Z) : option (list byte) :=
  match files !! f with
  | None => None
  | Some file => match read_frame magic file f o 0 with Ok (data, _) => Some data | Err _ => None end
  end.

Definition block_at (b : BlockFileManager) (f o : Z) : option Block :=
  match frame_at (bf_magic b) (bf_blk b) f o with
  | None => None
  | Some data => match blk_Deserialize data with Ok (block, _) => Some block | Err _ => None end
  end.

Definition undo_at (b : BlockFileManager) (f o : Z) : option (list byte) := frame_at (bf_magic b) (bf_rev b) f o.

(** Files grow at their end. *)
Definition grows (files files' : gmap Z (list byte)) : Prop :=
  forall f file, files !! f = Some file -> exists more, files' !! f = Some (file ++ more).

Lemma frame_at_grows magic files files' f o data :
  grows files files' -> frame_at magic files f o = Some data -> frame_at magic files' f o = Some data.
Proof.
  intros Hg. unfold frame_at. destruct (files !! f) as [file|] eqn:E; [|done].
  destruct (Hg f file E) as [more ->]. destruct (read_frame magic file f o 0) as [[d r]|] eqn:Er; [|done].
  by rewrite (read_frame_more _ _ _ _ _ _ _ more Er).
Qed.

Lemma grows_append files n more : grows files (<[n := file_bytes files n ++ more]> files).
Proof.
  intros f file Hf. destruct (decide (n = f)) as [<-|Hne].
  - exists more. rewrite lookup_insert_eq. unfold file_bytes. by rewrite Hf.
  - exists []. by rewrite lookup_insert_ne, app_nil_r.
Qed.

Lemma grows_refl files : grows files files.
Proof. intros f file Hf. exists []. by rewrite app_nil_r. Qed.

Lemma bf_ReadBlock_at b f o n x : bf_ReadBlock b f o n = Ok x -> block_at b f o = Some x.
Proof.
  unfold bf_ReadBlock, block_at, frame_at. destruct (bf_blk b !! f) as [file|]; [|done].
  intros H. apply rbind_Ok in H as ([data rest] & Hf & H). rewrite (read_frame_any _ _ _ _ _ _ Hf).
  apply rbind_Ok in H as ([b' r'] & Hb & [= <-]). apply rwrap_Ok in Hb. by rewrite Hb.
Qed.

Lemma bf_ReadBlock_grows b b' f o n x :
  bf_magic b' = bf_magic b -> grows (bf_blk b) (bf_blk b') -> bf_ReadBlock b f o n = Ok x -> bf_ReadBlock b' f o n = Ok x.
Proof.
  intros Em Hg. unfold bf_ReadBlock. rewrite Em. destruct (bf_blk b !! f) as [file|] eqn:E; [|done].
  destruct (Hg f file E) as [more ->]. intros H. apply rbind_Ok in H as ([data rest] & Hf & H).
  by rewrite (read_frame_more _ _ _ _ _ _ _ more Hf).
Qed.

(** The size the manager remembers is that of the current file, and there is none above. *)
Record files_ok (b : BlockFileManager) : Prop := {
  fo_magic : length (bf_magic b) = 4%nat;
  fo_cur : 0 <= bf_curFile b;
  fo_size : bf_curSize b = len (file_bytes (bf_blk b) (bf_curFile b));
  fo_above : forall n, bf_curFile b < n -> bf_blk b !! n = None }.

Definition files_live (b : BlockFileManager) : Prop :=
  bf_free b = None /\ bf_curFile b < 2^32 /\ forall n, len (file_bytes (bf_rev b) n) < 2^32.

(** The state in which the frame is appended. *)
Definition rotated (b : BlockFileManager) (frameSize : Z) : BlockFileManager :=
  if (bf_curSize b >? 0) && (bf_curSize b + frameSize >? maxBlockFileSize)
  then set_cur b (bf_curFile b + 1) 0 else b.

Lemma rotated_ok b n : files_ok b -> 0 <= n -> files_ok (rotated b n)
  /\ (bf_curSize (rotated b n) < 2^32) /\ bf_curFile b <= bf_curFile (rotated b n).
Proof.
  intros [Hm Hc Hs Ha] Hn. unfold rotated, maxBlockFileSize.
  destruct (Z.gtb_spec (bf_curSize b) 0); cbn [andb].
  - destruct (Z.gtb_spec (bf_curSize b + n) (128 * 1024 * 1024)); [|split_and!; [by constructor|lia|lia]].
    split_and!; simpl; [|lia|lia]. constructor; simpl; try done; [lia| |intros; apply Ha; lia].
    unfold file_bytes. by rewrite Ha by lia.
  - split_and!; [by constructor|lia|lia].
Qed.

Lemma bf_WriteBlock_law b block res b' :
  bf_WriteBlock b block = (res, b') -> files_live b' ->
  files_live b /\ (files_ok b -> storable block ->
    files_ok b' /\ bf_magic b' = bf_magic b /\ bf_rev b' = bf_rev b /\ grows (bf_blk b) (bf_blk b')
    /\ forall f o n, res = Ok (f, o, n) -> is_u32 f /\ is_u32 o /\ is_u32 n /\ bf_ReadBlock b' f o n = Ok block).
Proof.
  unfold bf_WriteBlock. set (data := blk_Serialize block). fold (rotated b (8 + len data)).
  assert (bf_magic (rotated b (8 + len data)) = bf_magic b /\ bf_blk (rotated b (8 + len data)) = bf_blk b
    /\ bf_rev (rotated b (8 + len data)) = bf_rev b /\ bf_free (rotated b (8 + len data)) = bf_free b
    /\ bf_curFile b <= bf_curFile (rotated b (8 + len data))) as (Em & Eb & Er & Ef & Ec).
  { unfold rotated. destruct (_ && _); simpl; split_and!; done || lia. }
  set (b1 := rotated b (8 + len data)) in *. set (n := u32 (bf_curFile b1)).
  destruct (os_Writes _ _ _) as [[ok file] free] eqn:Ew. intros H L.
  assert (free = None /\ bf_curFile b1 < 2^32 /\ forall k, len (file_bytes (bf_rev b1) k) < 2^32) as (-> & Hc & Hr).
  { destruct ok; injection H as _ <-; by destruct L as (? & ? & ?). }
  apply os_Writes_live in Ew as (E0 & -> & ->). injection H as <- <-.
  split; [unfold files_live; rewrite <- Ef, <- Er; split_and!; [done|lia|done]|].
  intros Hok [Hwf Hlen]. destruct (rotated_ok b (8 + len data) Hok ltac:(lia)) as ([Hm H0 Hs Ha] & H32 & _). fold b1 in Hm, H0, Hs, Ha, H32.
  assert (n = bf_curFile b1) as En by (apply u32_small; unfold is_u32; lia). rewrite En in *. clear n En.
  fold data in Hlen. rewrite Em in *. split_and!.
  - constructor; simpl; [by rewrite Em|done| |].
    + rewrite Hs. unfold file_bytes at 2. rewrite lookup_insert_eq. cbn [default]. unfold id.
      rewrite length_app. cbn [concat]. rewrite app_nil_r, length_app.
      unfold frame_header. rewrite length_app, Hm, length_PutUint32LE. lia.
    + intros k Hk. rewrite lookup_insert_ne by lia. by apply Ha.
  - done.
  - done.
  - simpl. rewrite <- Eb. apply grows_append.
  - intros f o k [= <- <- <-]. split_and!; try apply u32_range; [unfold is_u32; lia|].
    unfold bf_ReadBlock. simpl. rewrite lookup_insert_eq. rewrite !u32_small by (unfold is_u32; lia).
    rewrite Hs, Em. cbn [concat]. rewrite (read_frame_new (bf_magic b) _ data (bf_curFile b1) (len data) Hm Hlen (or_intror eq_refl) []).
    cbn [rbind]. rewrite <- (app_nil_r data). unfold data. by rewrite (decode_encode (dec := blk_Deserialize)).
Qed.

Lemma bf_WriteUndo_law b f bs res b' :
  bf_WriteUndo b f bs = (res, b') -> files_live b' ->
  files_live b /\ (files_ok b -> len bs < 2^32 ->
    files_ok b' /\ bf_magic b' = bf_magic b /\ bf_blk b' = bf_blk b /\ grows (bf_rev b) (bf_rev b')
    /\ forall o n, res = Ok (o, n) -> is_u32 o /\ is_u32 n /\ undo_at b' f o = Some bs).
Proof.
  unfold bf_WriteUndo. destruct (os_Writes _ _ _) as [[ok file] free] eqn:Ew. intros H L.
  assert (free = None /\ bf_curFile b < 2^32 /\ forall k, len (file_bytes (<[f := file]> (bf_rev b)) k) < 2^32) as (-> & Hc & Hr).
  { destruct ok; injection H as _ <-; by destruct L as (? & ? & ?). }
  apply os_Writes_live in Ew as (E0 & -> & ->). injection H as <- <-.
  assert (forall k, len (file_bytes (bf_rev b) k) < 2^32) as Hr0.
  { intros k. specialize (Hr k). destruct (decide (k = f)) as [->|Hne].
    - unfold file_bytes at 1 in Hr. rewrite lookup_insert_eq in Hr. cbn [default] in Hr. unfold id in Hr.
      rewrite length_app in Hr. lia.
    - unfold file_bytes in *. by rewrite lookup_insert_ne in Hr. }
  split; [done|]. intros [Hm H0 Hs Ha] Hlen. split_and!; try done; [apply grows_append|].
  intros o n [= <- <-]. split_and!; try apply u32_range. unfold undo_at, frame_at. simpl. rewrite lookup_insert_eq.
  rewrite u32_small by (split; [lia|apply Hr0]). cbn [concat]. rewrite app_nil_r.
  by rewrite (read_frame_new (bf_magic b) _ bs f 0 Hm Hlen (or_introl eq_refl)).
Qed.

(** ** The composite store *)

Section laws.
Context {DB : Type} `{LDB : LevelDB DB} {LL : LevelDBLaws DB}.
Implicit Types s : FileStore DB.

(** The tip as the index database holds it. *)
Definition tip_view (m : gmap (list byte) (list byte)) : option (Hash * Z) :=
  match m !! keyChainTip with
  | Some data => if len data =? 36 then Some (take 32 data, ReadUintLE (rev (drop 32 data))) else None
  | None => None
  end.

Definition fs_view s : StoreView :=
  {| v_index := index_view (db_map (fs_index s)); v_tip := tip_view (db_map (fs_index s));
     v_chainstate := db_map (fs_chainstate s) |}.

Lemma fs_GetBlockIndex_sound s h r : fs_GetBlockIndex s h = Ok r -> index_view (db_map (fs_index s)) !! h = Some r.
Proof.
  unfold fs_GetBlockIndex. intros H. apply rbind_Ok in H as (v & Hv & E). apply rwrap_Ok, db_Get_sound in Hv.
  apply index_view_Some. eauto.
Qed.

Lemma fs_GetBlock_sound s h b :
  fs_GetBlock s h = Ok b -> exists r, index_view (db_map (fs_index s)) !! h = Some r
    /\ block_at (fs_files s) (bi_FileNum r) (bi_DataPos r) = Some b.
Proof.
  unfold fs_GetBlock. intros H. apply rbind_Ok in H as (r & Hr & H). apply rwrap_Ok in Hr.
  destruct (_ =? 0); [done|]. exists r. split; [by apply fs_GetBlockIndex_sound|].
  by eapply bf_ReadBlock_at.
Qed.

Lemma fs_ReadUndo_sound s f o n bs : fs_ReadUndo s f o n = Ok bs -> undo_at (fs_files s) f o = Some bs.
Proof.
  unfold fs_ReadUndo, bf_ReadUndo, undo_at, frame_at. destruct (bf_rev (fs_files s) !! f) as [file|]; [|done].
  intros H. apply rbind_Ok in H as ([data rest] & Hf & H). rewrite (read_frame_any _ _ _ _ _ _ Hf).
  apply rbind_Ok in H as ([chk r'] & _ & H). by destruct (negb _); [|injection H as <-].
Qed.

Lemma block_at_grows b b' f o x :
  bf_magic b' = bf_magic b -> grows (bf_blk b) (bf_blk b') -> block_at b f o = Some x -> block_at b' f o = Some x.
Proof.
  intros Em Hg. unfold block_at. rewrite Em. destruct (frame_at _ (bf_blk b) f o) as [data|] eqn:E; [|done].
  by rewrite (frame_at_grows _ _ _ _ _ _ Hg E).
Qed.

Lemma fs_WriteBlock_sound s h b res s' :
  fs_WriteBlock s h b = (res, s') -> files_live (fs_files s') ->
  files_live (fs_files s) /\ (files_ok (fs_files s) -> storable b ->
    files_ok (fs_files s') /\ fs_view s' = fs_view s
    /\ (forall f o x, block_at (fs_files s) f o = Some x -> block_at (fs_files s') f o = Some x)
    /\ (forall f o x, undo_at (fs_files s) f o = Some x -> undo_at (fs_files s') f o = Some x)
    /\ (forall f o n, res = Ok (f, o, n) ->
          is_u32 f /\ is_u32 o /\ is_u32 n /\ block_at (fs_files s') f o = Some b)).
Proof.
  unfold fs_WriteBlock. destruct (bf_WriteBlock (fs_files s) b) as [r b'] eqn:E. intros [= <- <-] L.
  destruct (bf_WriteBlock_law _ _ _ _ E L) as [L0 H]. split; [done|]. intros Ho Hb.
  destruct (H Ho Hb) as (Ho' & Em & Er & Hg & Hres). split_and!; try done.
  - intros f o x. by apply block_at_grows.
  - intros f o x. unfold undo_at. simpl. by rewrite Em, Er.
  - intros f o n Hr. destruct (Hres f o n Hr) as (? & ? & ? & ?). split_and!; try done. by eapply bf_ReadBlock_at.
Qed.

Lemma fs_WriteUndo_sound s f bs res s' :
  fs_WriteUndo s f bs = (res, s') -> files_live (fs_files s') ->
  files_live (fs_files s) /\ (files_ok (fs_files s) -> len bs < 2^32 ->
    files_ok (fs_files s') /\ fs_view s' = fs_view s
    /\ (forall f o x, block_at (fs_files s) f o = Some x -> block_at (fs_files s') f o = Some x)
    /\ (forall f o x, undo_at (fs_files s) f o = Some x -> undo_at (fs_files s') f o = Some x)
    /\ (forall o n, res = Ok (o, n) -> is_u32 o /\ is_u32 n /\ undo_at (fs_files s') f o = Some bs)).
Proof.
  unfold fs_WriteUndo. destruct (bf_WriteUndo (fs_files s) f bs) as [r b'] eqn:E. intros [= <- <-] L.
  destruct (bf_WriteUndo_law _ _ _ _ _ E L) as [L0 H]. split; [done|]. intros Ho Hb.
  destruct (H Ho Hb) as (Ho' & Em & Er & Hg & Hres). split_and!; try done.
  - intros f' o x. apply block_at_grows; [done|]. simpl. rewrite Er. apply grows_refl.
  - intros f' o x. unfold undo_at. simpl. rewrite Em. by apply frame_at_grows.
Qed.

Lemma fs_PutBlockIndex_sound s h r res s' :
  fs_PutBlockIndex s h r = (res, s') -> fs_files s' = fs_files s
  /\ (wf_index r -> fs_view s' = if is_ok res then set_index (fs_view s) (<[h := r]> (v_index (fs_view s)))
                                 else fs_view s).
Proof.
  unfold fs_PutBlockIndex. destruct (bi_Serialize r) as [data|e] eqn:E; [|by intros [= <- <-]].
  destruct (db_Put _ _ _) as [[[]|e] d] eqn:Ed; intros [= <- <-]; (split; [done|]); intros W.
  - apply db_Put_Ok in Ed. unfold fs_view, set_index. cbn [fs_index fs_chainstate set_index_db v_index v_tip v_chainstate is_ok rwrap].
    rewrite Ed. f_equal.
    + apply index_view_put. by apply index_roundtrip.
    + unfold tip_view. by rewrite lookup_insert_ne.
  - apply db_Put_Err in Ed. unfold fs_view. simpl. by rewrite Ed.
Qed.

Lemma fs_PutChainTip_sound s h n res s' :
  fs_PutChainTip s h n = (res, s') -> fs_files s' = fs_files s
  /\ v_index (fs_view s') = v_index (fs_view s) /\ v_chainstate (fs_view s') = v_chainstate (fs_view s)
  /\ (wf_hash h -> v_tip (fs_view s') = if is_ok res then Some (h, u32 n) else v_tip (fs_view s)).
Proof.
  unfold fs_PutChainTip. destruct (db_Put _ _ _) as [[[]|e] d] eqn:Ed; intros [= <- <-]; (split; [done|]).
  - apply db_Put_Ok in Ed. cbn [fs_view v_index v_chainstate v_tip fs_index fs_chainstate set_index_db is_ok rwrap].
    rewrite Ed. split_and!; [by apply index_view_other|done|]. intros Hh.
    unfold tip_view. rewrite lookup_insert_eq. unfold wf_hash, HashSize in Hh.
    rewrite length_app, length_rev, length_PutUint32LE, Hh. simpl Z.eqb. cbv iota.
    rewrite take_app_length', drop_app_length', rev_involutive by done. by rewrite ReadUintLE_wrap32.
  - apply db_Put_Err in Ed. cbn [fs_view v_index v_chainstate v_tip fs_index fs_chainstate set_index_db is_ok rwrap].
    by rewrite Ed.
Qed.

(** *** What the iterators visit *)

Lemma fs_GetChainTip_sound s h n : fs_GetChainTip s = Ok (h, n) -> v_tip (fs_view s) = Some (h, n).
Proof.
  unfold fs_GetChainTip. intros H. apply rbind_Ok in H as (data & Hd & H). apply rwrap_Ok, db_Get_sound in Hd.
  simpl. unfold tip_view. rewrite Hd. destruct (len data =? 36); [|done]. by injection H as <- <-.
Qed.

Lemma fs_GetBestBlock_sound s h :
  fs_GetBestBlock s = Ok h -> v_chainstate (fs_view s) !! keyBestBlock = Some h.
Proof.
  unfold fs_GetBestBlock. intros H. apply rbind_Ok in H as (data & Hd & H). apply rwrap_Ok, db_Get_sound in Hd.
  destruct (len data =? 32); [|done]. by injection H as <-.
Qed.

Lemma index_records_elem l recs h r :
  index_records l = (recs, None) ->
  (h, r) ∈ recs <-> exists k v, (k, v) ∈ l /\ len k = 33 /\ h = drop 1 k /\ DeserializeDiskBlockIndex v = Ok r.
Proof.
  revert recs. induction l as [|[k v] l IH]; intros recs; cbn [index_records].
  { intros [= <-]. split; [by intros H%elem_of_nil|by intros (?&?&H%elem_of_nil&_)]. }
  setoid_rewrite elem_of_cons. destruct (Z.eqb_spec (len k) 33) as [El|Hne]; cbn [negb].
  - destruct (DeserializeDiskBlockIndex v) as [rec|e] eqn:Ev; [|done].
    destruct (index_records l) as [rs err]. intros [= <- ->]. rewrite elem_of_cons, (IH rs eq_refl). split.
    + intros [[= -> ->]|(k' & v' & ? & ?)]; [by exists k, v; auto|]. exists k', v'. auto.
    + intros (k' & v' & [[= -> ->]|Hin] & Hl & -> & Hd); [left; congruence|right; eauto 6].
  - intros H. rewrite (IH recs H). split; intros (k' & v' & Hin & Hl & ?).
    + exists k', v'. auto.
    + destruct Hin as [[= -> ->]|Hin]; [done|]. by exists k', v'.
Qed.

(** The pairs an iteration without error visits. *)
Lemma iter_elem (d : DB) pre l k v :
  db_Iter d pre = (l, None) -> (k, v) ∈ l <-> take (length pre) k = pre /\ db_map d !! k = Some v.
Proof. intros H. rewrite (db_Iter_all d pre l H), list_elem_of_filter, elem_of_map_to_list. done. Qed.

Lemma fs_ForEachBlockIndex_all s l :
  fs_ForEachBlockIndex s = (l, None) ->
  (forall h r, (h, r) ∈ l -> v_index (fs_view s) !! h = Some r)
  /\ (forall h r, wf_hash h -> v_index (fs_view s) !! h = Some r -> (h, r) ∈ l).
Proof.
  unfold fs_ForEachBlockIndex. destruct (db_Iter _ _) as [l0 err] eqn:Ei.
  destruct (index_records l0) as [recs [e|]] eqn:Er; [done|]. destruct err; [done|]. intros [= <-].
  pose proof (fun k v => iter_elem _ _ _ k v Ei) as Hin. split.
  - intros h r H. apply (index_records_elem _ _ _ _ Er) in H as (k & v & H & Hl & -> & Hd).
    apply Hin in H as [Ht Hk]. apply index_view_Some. exists v. split; [|done].
    destruct k as [|x k]; [done|]. cbn [take length] in Ht. by injection Ht as ->.
  - intros h r Hh H. apply index_view_Some in H as (v & Hv & Hd). apply (index_records_elem _ _ _ _ Er).
    exists (blockIndexKey h), v. split_and!; try done; [by apply Hin|].
    unfold blockIndexKey. unfold wf_hash, HashSize in Hh. cbn [length]. lia.
Qed.

Lemma utxoKey_split k :
  len k = 37 -> take 1 k = [Byte.x43] -> k = utxoKey (slice 1 33 k) (ReadUintLE (drop 33 k)).
Proof.
  intros Hl Ht. destruct k as [|x k]; [done|]. cbn [take] in Ht. injection Ht as ->. unfold utxoKey, slice.
  cbn [length] in Hl. cbn [drop Nat.sub]. rewrite Put32_ReadUintLE by (rewrite length_drop; lia).
  by rewrite take_drop.
Qed.

Lemma utxoKey_parts h i : wf_hash h -> is_u32 i ->
  slice 1 33 (utxoKey h i) = h /\ ReadUintLE (drop 33 (utxoKey h i)) = i.
Proof.
  intros Hh Hi. unfold wf_hash, HashSize in Hh. assert (length h = 32%nat) as Hl by lia.
  split; [change (take 32 (h ++ PutUint32LE i) = h)|change (ReadUintLE (drop 32 (h ++ PutUint32LE i)) = i)].
  - by rewrite take_app_length'.
  - by rewrite drop_app_length', ReadUintLE_Put32.
Qed.

Lemma fs_ForEachUtxo_all s l :
  fs_ForEachUtxo s = (l, None) -> forall h i data,
  (h, i, data) ∈ l <-> wf_hash h /\ is_u32 i /\ v_chainstate (fs_view s) !! utxoKey h i = Some data.
Proof.
  unfold fs_ForEachUtxo. destruct (db_Iter _ _) as [l0 [err|]] eqn:Ei; [done|]. intros [= <-] h i data.
  pose proof (fun k v => iter_elem _ _ _ k v Ei) as Hin.
  rewrite list_elem_of_fmap. setoid_rewrite list_elem_of_filter. split.
  - intros ([k v] & E & Hl & H). cbn [fst] in Hl. injection E as -> -> ->. apply Hin in H as [Ht Hk].
    rewrite <- utxoKey_split by done. split_and!; try done.
    + unfold wf_hash, HashSize, slice. rewrite length_take, length_drop. lia.
    + apply ReadUintLE_u32. rewrite length_drop. lia.
  - intros (Hh & Hi & Hk). destruct (utxoKey_parts h i Hh Hi) as [E1 E2]. exists (utxoKey h i, data).
    rewrite E1, E2. split; [done|]. split; [|by apply Hin]. cbn [fst]. unfold utxoKey.
    unfold wf_hash, HashSize in Hh. cbn [length]. rewrite length_app, length_PutUint32LE. lia.
Qed.

#[export] Instance FileStore_laws : BlockStoreLaws (FileStore DB).
Proof.
  refine {| st_live := fun s => files_live (fs_files s); st_ok := fun s => files_ok (fs_files s);
            st_view := fs_view; st_data := fun s => block_at (fs_files s);
            st_undo := fun s => undo_at (fs_files s) |}.
  - intros s h r _. apply fs_GetBlockIndex_sound.
  - intros s h hd _ H. apply rbind_Ok in H as (r & Hr & [= <-]). apply rwrap_Ok, fs_GetBlockIndex_sound in Hr.
    by exists r.
  - intros s h b _ H. apply fs_GetBlock_sound in H as (r & Hr & Hb). exists r. split; [done|]. congruence.
  - intros s h n _. apply fs_GetChainTip_sound.
  - intros s h _. apply fs_GetBestBlock_sound.
  - intros s l _. apply fs_ForEachBlockIndex_all.
  - intros s l _. apply fs_ForEachUtxo_all.
  - intros s f o n bs bs' _ H. apply fs_ReadUndo_sound in H. congruence.
  - intros s h b res s' H L. by apply (fs_WriteBlock_sound s h b).
  - intros s f bs res s' H L. by apply (fs_WriteUndo_sound s f bs).
  - intros s h r res s' H L. apply fs_PutBlockIndex_sound in H as [Ef Hv]. rewrite Ef in *.
    split; [done|]. intros Ho W. by rewrite (Hv W).
  - intros s h n res s' H L. apply fs_PutChainTip_sound in H as (Ef & Hv). rewrite Ef in *. done.
  - intros s wb res s' H L. simpl in H. unfold fs_FlushUtxoBatch in H.
    destruct (db_Write _ _) as [[[]|e] d] eqn:Ed; injection H as <- <-; (split; [done|]); intros Ho; (split_and!; [done..|]).
    + apply db_Write_Ok in Ed. unfold fs_view, set_chainstate. simpl. by rewrite Ed.
    + apply db_Write_Err in Ed. unfold fs_view. simpl. by rewrite Ed.
Defined.

#[export] Instance FileStore_persist : PersistLaws (FileStore DB).
Proof.
  constructor.
  - intros s h b res s' H. simpl in H. unfold fs_WriteBlock in H.
    destruct (bf_WriteBlock _ _) as [r b']. by injection H as <- <-.
  - intros s f bs res s' H. simpl in H. unfold fs_WriteUndo in H.
    destruct (bf_WriteUndo _ _ _) as [r b']. by injection H as <- <-.
  - intros s h r res s' H. simpl in H. unfold fs_PutBlockIndex in H.
    destruct (bi_Serialize r) as [data|e]; [|by injection H as <- <-].
    destruct (db_Put _ _ _) as [[[]|e] d] eqn:Ed; injection H as <- <-;
      [apply db_Put_Ok in Ed|apply db_Put_Err in Ed]; unfold persisted; simpl; rewrite Ed; [|done].
    unfold tip_view. by rewrite lookup_insert_ne.
  - intros s h n res s' H Hh. apply fs_PutChainTip_sound in H as (_ & _ & Hc & Ht).
    specialize (Ht Hh). unfold persisted. simpl in *. rewrite Hc, Ht. by destruct (is_ok res).
  - intros s wb res s' H. simpl in H. unfold fs_FlushUtxoBatch in H.
    destruct (db_Write _ _) as [[[]|e] d] eqn:Ed; injection H as <- <-;
      [apply db_Write_Ok in Ed|apply db_Write_Err in Ed]; unfold persisted; simpl; by rewrite Ed.
Qed.
End laws.

(** ** Properties *)

(** C38. Blocks written to the flat files are read back: on a consistent manager with room
    on the disk, the position [WriteBlock] returns leads [ReadBlock] to the same block,
    across the rotation to a new file, and still does after another block is appended. *)
Theorem block_file_roundtrip b block f o n b1 :
  files_ok b -> storable block -> bf_WriteBlock b block = (Ok (f, o, n), b1) -> files_live b1 ->
  files_ok b1 /\ bf_ReadBlock b1 f o n = Ok block
  /\ forall block2 res b2, storable block2 -> bf_WriteBlock b1 block2 = (res, b2) -> files_live b2 ->
     bf_ReadBlock b2 f o n = Ok block.
Proof.
  intros Hok Hb E L. destruct (bf_WriteBlock_law _ _ _ _ E L) as [_ H].
  destruct (H Hok Hb) as (Ho1 & Em & _ & Hg & Hres). destruct (Hres f o n eq_refl) as (_ & _ & _ & Hr).
  split_and!; try done. intros block2 res b2 Hb2 E2 L2. destruct (bf_WriteBlock_law _ _ _ _ E2 L2) as [_ H2].
  destruct (H2 Ho1 Hb2) as (_ & Em2 & _ & Hg2 & _). by eapply bf_ReadBlock_grows.
Qed.

Definition example_files : BlockFileManager :=
  {| bf_magic := bytes_of_string "test"; bf_blk := ∅; bf_rev := ∅; bf_free := None;
     bf_curFile := 0; bf_curSize := 0 |}.
Definition example_stored : Block := {|
  blk_Header := {| hdr_Version := 1; hdr_PrevBlock := ZeroHash; hdr_MerkleRoot := ZeroHash;
                   hdr_Timestamp := 7; hdr_Bits := 0; hdr_Nonce := 3 |};
  blk_Transactions := [] |}.

Lemma storable_decode b :
  blk_Deserialize (blk_Serialize b) = Ok (b, []) -> len (blk_Serialize b) <? 2^32 = true -> storable b.
Proof. intros H Hl. apply decode_canonical in H as [_ Hw]. split; [done|]. by apply Z.ltb_lt. Qed.

Lemma example_storable : storable example_stored.
Proof. apply storable_decode; vm_compute; reflexivity. Qed.

Lemma block_file_roundtrip_witness :
  bf_ReadBlock (bf_WriteBlock example_files example_stored).2 0 0 81 = Ok example_stored.
Proof.
  destruct (block_file_roundtrip example_files example_stored 0 0 81 (bf_WriteBlock example_files example_stored).2)
    as (_ & H & _).
  - by constructor.
  - apply example_storable.
  - vm_compute. reflexivity.
  - split_and!; [done|done|]. intros n. done.
  - exact H.
Defined.

(** Index records are stored without loss: whenever a record whose fields fit their
    types can be encoded (its chain work fits in 32 bytes), decoding gives it back, flags,
    file positions and work included. *)
Theorem index_record_roundtrip r data :
  wf_index r -> bi_Serialize r = Ok data ->
  DeserializeDiskBlockIndex data = Ok r /\ len data = 148.
Proof.
  intros Hw H. split; [by apply index_roundtrip|]. pose proof Hw as (Hh & _).
  unfold bi_Serialize in H. apply rbind_Ok in H as (W & HW & [= <-]).
  rewrite !length_app, !length_PutUint32LE, length_hdr_SerializeToBytes by done.
  enough (length W = 32%nat) as -> by done. destruct (bi_ChainWork r) as [w|]; [|by injection HW as <-].
  destruct (Z.ltb_spec 32 (len (big_Bytes w))); [done|]. injection HW as <-.
  rewrite length_app, length_replicate. lia.
Qed.

Definition example_record : DiskBlockIndex :=
  {| bi_Header := blk_Header example_stored; bi_Height := 7; bi_Status := 49; bi_TxCount := 2; bi_FileNum := 1;
     bi_DataPos := 4096; bi_DataSize := 300; bi_UndoFile := 1; bi_UndoPos := 12; bi_UndoSize := 90;
     bi_ChainWork := Some (2^70) |}.

Lemma index_record_roundtrip_witness :
  (let* data := bi_Serialize example_record in DeserializeDiskBlockIndex data) = Ok example_record.
Proof.
  destruct (bi_Serialize example_record) as [data|e] eqn:E; [|vm_compute in E; discriminate E].
  apply (index_record_roundtrip example_record data); [|exact E].
  unfold wf_index. split_and!; try (by vm_compute). by eexists.
Defined.
