(* ===== verification/Chain.v ===== *)
(** * The chain manager: state and operations

    Models [src/internal/chain/chain.go] over any [BlockStore] and [Engine].  A [Chain] is
    the struct's fields; the lock is not represented, every exported method holding it
    from start to end.  [c_sets] is the heap of [utxo.Set] objects and [c_utxoSet] the
    pointer to the current one, because the mempool keeps a copy of that pointer and a
    failed reorganisation replaces it.  [c_tick] counts the calls to the clocks and to the
    map iterator, whose answers are the arguments [env_*].

    An operation maps a chain to a result and the chain it leaves, also when it fails.
    Log messages and metrics are left out. *)
From stdpp Require Import sorting.
From S2P Require Import Prelude Types Sha256 Crypto Target Params Script Utxo TxValidation.
From S2P Require Import BlockValidation Pow Ledger Store.
#[local] Open Scope Z_scope.
#[local] Open Scope go_scope.

Definition MaxOrphanBlocks : Z := 100.
Definition OrphanExpiry : Z := 20 * time_Minute.

Record orphanBlock := { ob_block : Block; ob_addedAt : Z }.

Record Chain (St : Type) := {
  c_params : ChainParams;
  c_store : St;
  c_tipHash : Hash;
  c_tipHeight : Z;
  c_tipWork : Z;
  c_heightByHash : gmap Hash Z;
  c_hashByHeight : gmap Z Hash;
  c_orphans : gmap Hash orphanBlock;
  c_sets : list UtxoSet;
  c_utxoSet : nat;
  c_tick : nat }.
Arguments c_params {St}. Arguments c_store {St}. Arguments c_tipHash {St}. Arguments c_tipHeight {St}.
Arguments c_tipWork {St}. Arguments c_heightByHash {St}. Arguments c_hashByHeight {St}.
Arguments c_orphans {St}. Arguments c_sets {St}. Arguments c_utxoSet {St}. Arguments c_tick {St}.

(** What the environment decides: [TimeSource.Now], [time.Now] (nanoseconds), and which
    entry Go's randomized map iteration yields first. *)
Record Env := { env_now : nat -> Z; env_wall : nat -> Z; env_pick : nat -> nat }.

Inductive ChainErr :=
| AlreadyInChain (h : Hash)
| OrphanInPool (h : Hash)                       (** [ErrOrphanBlock] *)
| OrphanPoW (e : PowErr)
| OrphanStored (h parent : Hash)                (** [ErrOrphanBlock] *)
| LoadParentHeader (e : StoreErr)
| HeaderInvalid (height : Z) (e : HeaderErr)
| TimestampInvalid (e : BlockErr)
| BlockInvalid (height : Z) (e : BlockErr)
| ParentWork (e : StoreErr)
| NilChainWork (h : Hash)
| StoreBlock (e : StoreErr)
| TxInputsInvalid (height : Z) (e : TxErr)
| ConnectFailed (e : UtxoErr)
| StoreUndo (e : StoreErr)
| StoreIndex (e : StoreErr)
| PersistUtxo (e : StoreErr)
| StoreTip (e : StoreErr)
| SideChainBlock (height : Z)                   (** [ErrSideChain], with the height *)
| SideChainDeep (height : Z) (e : ChainErr)     (** [ErrSideChain], with the height *)
| ReorgFailed (h : Hash) (e : ChainErr)
| ReorgTooDeep (depth limit fork : Z)           (** [ErrReorgTooDeep] *)
| LoadBlock (e : StoreErr)
| LoadIndex (height : Z) (e : StoreErr)
| NoUndoData (height : Z)
| ReadUndoFailed (height : Z) (e : StoreErr)
| UndoCorrupt (height : Z) (e : UtxoErr)
| WalkDiverges                                  (** the fuel of [reorg_walk] ran out *)
| NilBlockPanic
| MissingHash (height : Z)
| IterateIndex (e : StoreErr)
| IterateUtxo (e : StoreErr)
| CorruptUtxo (txHash : Hash) (index : Z) (e : UtxoErr)
| GenesisMismatch (computed expected : Hash)
| NoBlockAt (height : Z)
| NotOnChain (h : Hash).

(** ** State and errors *)

Abbreviation cM St A := (stM (Chain St) ChainErr A).

Abbreviation cret := sret.
Abbreviation cfail := sfail.
Abbreviation cbind := sbind.
Abbreviation cget := sget.
Abbreviation cmod := smod.
Abbreviation clift := slift.
Abbreviation cfor := sfor.

Section fields.
Context {St : Type}.
Implicit Types c : Chain St.

Definition set_store (s : St) c : Chain St :=
  {| c_params := c_params c; c_store := s; c_tipHash := c_tipHash c; c_tipHeight := c_tipHeight c;
     c_tipWork := c_tipWork c; c_heightByHash := c_heightByHash c; c_hashByHeight := c_hashByHeight c;
     c_orphans := c_orphans c; c_sets := c_sets c; c_utxoSet := c_utxoSet c; c_tick := c_tick c |}.
Definition set_main (tipHash : Hash) (tipHeight tipWork : Z) (hbh : gmap Hash Z) (bhh : gmap Z Hash)
    c : Chain St :=
  {| c_params := c_params c; c_store := c_store c; c_tipHash := tipHash; c_tipHeight := tipHeight;
     c_tipWork := tipWork; c_heightByHash := hbh; c_hashByHeight := bhh;
     c_orphans := c_orphans c; c_sets := c_sets c; c_utxoSet := c_utxoSet c; c_tick := c_tick c |}.
Definition set_orphans (o : gmap Hash orphanBlock) c : Chain St :=
  {| c_params := c_params c; c_store := c_store c; c_tipHash := c_tipHash c; c_tipHeight := c_tipHeight c;
     c_tipWork := c_tipWork c; c_heightByHash := c_heightByHash c; c_hashByHeight := c_hashByHeight c;
     c_orphans := o; c_sets := c_sets c; c_utxoSet := c_utxoSet c; c_tick := c_tick c |}.
Definition set_sets (sets : list UtxoSet) (ptr : nat) c : Chain St :=
  {| c_params := c_params c; c_store := c_store c; c_tipHash := c_tipHash c; c_tipHeight := c_tipHeight c;
     c_tipWork := c_tipWork c; c_heightByHash := c_heightByHash c; c_hashByHeight := c_hashByHeight c;
     c_orphans := c_orphans c; c_sets := sets; c_utxoSet := ptr; c_tick := c_tick c |}.
Definition tick c : Chain St :=
  {| c_params := c_params c; c_store := c_store c; c_tipHash := c_tipHash c; c_tipHeight := c_tipHeight c;
     c_tipWork := c_tipWork c; c_heightByHash := c_heightByHash c; c_hashByHeight := c_hashByHeight c;
     c_orphans := c_orphans c; c_sets := c_sets c; c_utxoSet := c_utxoSet c; c_tick := S (c_tick c) |}.

Definition set_heights (hbh : gmap Hash Z) (bhh : gmap Z Hash) c : Chain St :=
  set_main (c_tipHash c) (c_tipHeight c) (c_tipWork c) hbh bhh c.

(** The set a pointer refers to, and the current one. *)
Definition set_at c (ptr : nat) : UtxoSet := c_sets c !!! ptr.
Definition UtxoSet_of c : UtxoSet := set_at c (c_utxoSet c).
Definition set_utxo (s : UtxoSet) c : Chain St :=
  set_sets (<[c_utxoSet c := s]> (c_sets c)) (c_utxoSet c) c.
End fields.

(** ** Operations *)

Section chain.
Context {St : Type} `{BS : BlockStore St} `{EN : Engine} `{EC : ECOps}.
Context (env : Env).
Implicit Types c : Chain St.

(** Reads and writes of the store, with the error wrapped. *)
Definition sread {A} (w : StoreErr -> ChainErr) (f : St -> result StoreErr A) : cM St A :=
  fun c => (rwrap w (f (c_store c)), c).
Definition swrite {A} (w : StoreErr -> ChainErr) (f : St -> result StoreErr A * St) : cM St A :=
  fun c => let '(r, s) := f (c_store c) in (rwrap w r, set_store s c).

Definition Now : cM St Z := fun c => (Ok (env_now env (c_tick c)), tick c).
Definition WallNow : cM St Z := fun c => (Ok (env_wall env (c_tick c)), tick c).

Definition New (p : ChainParams) (s : St) : Chain St :=
  {| c_params := p; c_store := s; c_tipHash := ZeroHash; c_tipHeight := 0; c_tipWork := 0;
     c_heightByHash := ∅; c_hashByHeight := ∅; c_orphans := ∅;
     c_sets := [NewSet]; c_utxoSet := 0; c_tick := 0 |}.

(** *** Queries *)

Definition Tip c : Hash * Z := (c_tipHash c, c_tipHeight c).
Definition TipHeader c : result StoreErr BlockHeader := GetHeader (c_store c) (c_tipHash c).

Definition GetHeaderByHeight c (height : Z) : result ChainErr BlockHeader :=
  match c_hashByHeight c !! height with
  | None => Err (NoBlockAt height)
  | Some hash => rwrap LoadBlock (GetHeader (c_store c) hash)
  end.

Definition GetBlockByHeight c (height : Z) : result ChainErr (Block * Hash) :=
  match c_hashByHeight c !! height with
  | None => Err (NoBlockAt height)
  | Some hash =>
      let* block := rwrap LoadBlock (GetBlock (c_store c) hash) in
      Ok (block, hash)
  end.

(** [GetAncestor] and, without the lock, [getAncestorUnsafe]. *)
Definition getAncestorUnsafe c (height : Z) : option BlockHeader :=
  match c_hashByHeight c !! height with
  | None => None
  | Some hash => match GetHeader (c_store c) hash with Ok h => Some h | Err _ => None end
  end.
Definition GetAncestor c (height : Z) : option BlockHeader := getAncestorUnsafe c height.

Definition GetBlockHeight c (hash : Hash) : result ChainErr Z :=
  match c_heightByHash c !! hash with
  | None => Err (NotOnChain hash)
  | Some height => Ok height
  end.

(** [step] is a [uint32]; the number of entries so far decides when it doubles.  [None] is
    running out of fuel, excluded by [locator_loop_spec] in [ChainProps.v]. *)
Fixpoint locator_loop (fuel : nat) c (height step : Z) (locator : list Hash) : option (list Hash) :=
  match fuel with
  | O => None
  | S fuel =>
      match c_hashByHeight c !! height with
      | None => Some locator
      | Some hash =>
          let locator := locator ++ [hash] in
          if height =? 0 then Some locator
          else
            let height := if height <? step then 0 else height - step in
            let step := if len locator >? 10 then u32 (step * 2) else step in
            locator_loop fuel c height step locator
      end
  end.

Definition BlockLocator c : list Hash :=
  default [] (locator_loop 64 c (c_tipHeight c) 1 []).

Definition FindMainChainHash c (hash : Hash) : Z * bool :=
  match c_heightByHash c !! hash with
  | None => (0, false)
  | Some height =>
      match c_hashByHeight c !! height with
      | Some mainHash => if bool_decide (mainHash = hash) then (height, true) else (0, false)
      | None => (0, false)
      end
  end.

Definition chain_HasBlock c (hash : Hash) : bool :=
  match c_heightByHash c !! hash, c_orphans c !! hash with
  | Some _, _ => true
  | _, Some _ => true
  | None, None => match HasBlock (c_store c) hash with Ok b => b | Err _ => false end
  end.

Definition HasBlockOnChain c (hash : Hash) : bool :=
  match c_heightByHash c !! hash with Some _ => true | None => false end.

Record TxOutSetInfoResult := {
  os_Height : Z; os_BestHash : Hash; os_TxOuts : Z; os_TotalValue : Z }.
Definition TxOutSetInfo c : TxOutSetInfoResult :=
  {| os_Height := c_tipHeight c; os_BestHash := c_tipHash c;
     os_TxOuts := Count (UtxoSet_of c); os_TotalValue := TotalValue (UtxoSet_of c) |}.

(** *** Side-chain aware ancestors *)

(** The loop of [buildAncestorLookup]; [n] is [h] as a natural number, so it is spent
    exactly when the loop ends with [h == 0]. *)
Fixpoint ancestor_walk (n : nat) c (current : Hash) (h : Z) (ancestors : gmap Z BlockHeader)
  : gmap Z BlockHeader :=
  if bool_decide (c_hashByHeight c !! h = Some current) then ancestors
  else
    match GetHeader (c_store c) current with
    | Err _ => ancestors
    | Ok header =>
        let ancestors := <[h := header]> ancestors in
        if IsZero (hdr_PrevBlock header) then ancestors
        else
          match n with
          | O => ancestors
          | S n => ancestor_walk n c (hdr_PrevBlock header) (h - 1) ancestors
          end
    end.

Definition buildAncestorLookup c (parentHash : Hash) (parentHeight : Z) : Z -> option BlockHeader :=
  let ancestors := ancestor_walk (Z.to_nat parentHeight) c parentHash parentHeight ∅ in
  fun height => match ancestors !! height with
                | Some hdr => Some hdr
                | None => getAncestorUnsafe c height
                end.

Definition workForParentChain (blockHash : Hash) : cM St Z :=
  do rec <- sread ParentWork (fun s => GetBlockIndex s blockHash);
  match bi_ChainWork rec with
  | None => cfail (NilChainWork blockHash)
  | Some w => cret w
  end.

(** *** Persisting the unspent set *)

Definition connect_batch (us : UtxoSet) (block : Block) (undo : BlockUndoData) (blockHash : Hash)
  : ChainstateWriteBatch :=
  let wb := fold_left (fun wb tx =>
      fold_left (fun wb i =>
        match Get us (HashTransaction tx) (u32 (Z.of_nat i)) with
        | Some entry => wb_PutUtxo wb (HashTransaction tx) (u32 (Z.of_nat i)) (ue_Serialize entry)
        | None => wb
        end) (seq 0 (length (tx_Outputs tx))) wb) (blk_Transactions block) [] in
  let wb := fold_left (fun wb spent =>
      wb_DeleteUtxo wb (op_Hash (so_OutPoint spent)) (op_Index (so_OutPoint spent))) undo wb in
  wb_PutBestBlock wb blockHash.

Definition persistUtxoChanges (block : Block) (undo : BlockUndoData) (blockHash : Hash) : cM St unit :=
  do c <- cget;
  swrite PersistUtxo (fun s => FlushUtxoBatch s (connect_batch (UtxoSet_of c) block undo blockHash)).

Definition disconnect_batch (block : Block) (undo : BlockUndoData) (newBestHash : Hash)
  : ChainstateWriteBatch :=
  let wb := fold_left (fun wb tx =>
      fold_left (fun wb i => wb_DeleteUtxo wb (HashTransaction tx) (u32 (Z.of_nat i)))
        (seq 0 (length (tx_Outputs tx))) wb) (blk_Transactions block) [] in
  let wb := fold_left (fun wb spent =>
      wb_PutUtxo wb (op_Hash (so_OutPoint spent)) (op_Index (so_OutPoint spent))
        (ue_Serialize (so_Entry spent))) undo wb in
  wb_PutBestBlock wb newBestHash.

Definition persistUtxoDisconnect (block : Block) (undo : BlockUndoData) (newBestHash : Hash)
  : cM St unit :=
  swrite PersistUtxo (fun s => FlushUtxoBatch s (disconnect_batch block undo newBestHash)).

Definition flushUtxoSetToChainstate : cM St unit :=
  do c <- cget;
  let wb := fold_left (fun wb '(txHash, index, entry) => wb_PutUtxo wb txHash index (ue_Serialize entry))
              (ForEach (UtxoSet_of c)) [] in
  swrite PersistUtxo (fun s => FlushUtxoBatch s (wb_PutBestBlock wb (c_tipHash c))).

Definition extendChain (hash : Hash) (height work : Z) : cM St unit :=
  do _ <- swrite StoreTip (fun s => PutChainTip s hash height);
  cmod (fun c => set_main hash height work (<[hash := height]> (c_heightByHash c))
                   (<[height := hash]> (c_hashByHeight c)) c).

(** [cloneUtxoSet]: a new set with the same entries. *)
Definition clone_entries (us : UtxoSet) : UtxoSet :=
  fold_left (fun dst '(key, entry) => Add dst (take 32 key) (ReadUintLE (drop 32 key)) entry)
    (map_to_list (Entries us)) NewSet.

(** The new object's address. *)
Definition cloneUtxoSet : cM St nat :=
  fun c => (Ok (length (c_sets c)),
            set_sets (c_sets c ++ [clone_entries (UtxoSet_of c)]) (c_utxoSet c) c).

(** *** Reorganisation *)

(** Walking back from the new tip to the first block whose parent is on the main chain;
    the hashes from the new tip down.  [WalkDiverges] is running out of fuel, excluded by
    [walk_terminates] in [Reorg.v]. *)
Fixpoint reorg_walk (fuel : nat) c (current : Hash) (newChain : list Hash)
  : result ChainErr (list Hash) :=
  match fuel with
  | O => Err WalkDiverges
  | S fuel =>
      let* block := rwrap LoadBlock (GetBlock (c_store c) current) in
      let prevHash := hdr_PrevBlock (blk_Header block) in
      let on_main :=
        match c_heightByHash c !! prevHash with
        | Some parentHeight =>
            bool_decide (default ZeroHash (c_hashByHeight c !! parentHeight) = prevHash)
        | None => false
        end in
      if on_main then Ok newChain
      else reorg_walk fuel c prevHash (newChain ++ [prevHash])
  end.

(** [hi, hi-1, ..., lo+1] and [lo+1, ..., hi]. *)
Definition heights_down (hi lo : Z) : list Z :=
  map (fun i => hi - Z.of_nat i) (seq 0 (Z.to_nat (hi - lo))).
Definition heights_up (lo hi : Z) : list Z :=
  map (fun i => lo + 1 + Z.of_nat i) (seq 0 (Z.to_nat (hi - lo))).

Definition has_flag (status flag : Z) : bool := negb (Z.land status flag =? 0).

(** One block of the old main chain disconnected. *)
Definition disconnect_at (h : Z) : cM St unit :=
  do c <- cget;
  match c_hashByHeight c !! h with
  | None => cret tt
  | Some hash =>
      do block <- sread LoadBlock (fun s => GetBlock s hash);
      do rec <- sread (LoadIndex h) (fun s => GetBlockIndex s hash);
      if negb (has_flag (bi_Status rec) StatusHaveUndo) then cfail (NoUndoData h)
      else
        do undoBytes <- sread (ReadUndoFailed h)
             (fun s => ReadUndo s (bi_UndoFile rec) (bi_UndoPos rec) (bi_UndoSize rec));
        do undoData <- clift (UndoCorrupt h) (DeserializeUndoData undoBytes);
        do _ <- cmod (fun c => set_utxo (DisconnectBlock (UtxoSet_of c) block undoData) c);
        persistUtxoDisconnect block undoData (hdr_PrevBlock (blk_Header block))
  end.

(** The entries of the old main chain above the fork deleted. *)
Definition unlink_at (h : Z) : cM St unit :=
  cmod (fun c => match c_hashByHeight c !! h with
                 | Some hash => set_heights (delete hash (c_heightByHash c)) (delete h (c_hashByHeight c)) c
                 | None => c
                 end).

(** One block of the new chain validated and connected; its undo data. *)
Definition connect_at (h : Z) (blockHash : Hash) : cM St BlockUndoData :=
  do block <- sread LoadBlock (fun s => GetBlock s blockHash);
  do c <- cget;
  do _ <- clift (TxInputsInvalid h) (ValidateTransactionInputs block (UtxoSet_of c) h (c_params c));
  do (us, undoData) <- clift ConnectFailed (ConnectBlock (UtxoSet_of c) block h);
  do _ <- cmod (set_utxo us);
  do _ <- persistUtxoChanges block undoData blockHash;
  do _ <- cmod (fun c => set_heights (<[blockHash := h]> (c_heightByHash c))
                           (<[h := blockHash]> (c_hashByHeight c)) c);
  cret undoData.

(** [connected] accumulates the hashes and undo data. *)
Fixpoint connect_all (h : Z) (hashes : list Hash) (connected : list (Hash * BlockUndoData))
  : cM St (list (Hash * BlockUndoData)) :=
  match hashes with
  | [] => cret connected
  | hash :: hashes =>
      do undoData <- connect_at h hash;
      connect_all (add32 h 1) hashes (connected ++ [(hash, undoData)])
  end.

Definition with_undo (rec : DiskBlockIndex) (file pos size : Z) : DiskBlockIndex :=
  {| bi_Header := bi_Header rec; bi_Height := bi_Height rec;
     bi_Status := Z.lor (bi_Status rec) (Z.lor StatusHaveUndo StatusValidTx);
     bi_TxCount := bi_TxCount rec; bi_FileNum := bi_FileNum rec; bi_DataPos := bi_DataPos rec;
     bi_DataSize := bi_DataSize rec; bi_UndoFile := file; bi_UndoPos := pos; bi_UndoSize := size;
     bi_ChainWork := bi_ChainWork rec |}.

(** The undo data of a connected block written, and its index record updated. *)
Definition record_undo (entry : Hash * BlockUndoData) : cM St unit :=
  let '(hash, undoData) := entry in
  do rec <- sread LoadBlock (fun s => GetBlockIndex s hash);
  do (undoOffset, undoSize) <- swrite StoreUndo
       (fun s => WriteUndo s (bi_FileNum rec) (SerializeUndoData undoData));
  swrite StoreIndex (fun s => PutBlockIndex s hash (with_undo rec (bi_FileNum rec) undoOffset undoSize)).

Definition reorg_body (newTipHash : Hash) (newTipHeight newWork : Z) : cM St unit :=
  do c <- cget;
  do newChain <- clift (fun e => e)
       (reorg_walk (S (Z.to_nat newTipHeight)) c newTipHash [newTipHash]);
  match GetBlock (c_store c) (List.last newChain newTipHash) with
  | Err _ => cfail NilBlockPanic
  | Ok forkBlock =>
      let forkParentHeight := default 0 (c_heightByHash c !! hdr_PrevBlock (blk_Header forkBlock)) in
      let oldTipHeight := c_tipHeight c in
      let reorgDepth := sub32 oldTipHeight forkParentHeight in
      let limit := p_MaxReorgDepth (c_params c) in
      if (limit >? 0) && (reorgDepth >? limit)
      then cfail (ReorgTooDeep reorgDepth limit forkParentHeight)
      else
        do _ <- cfor (heights_down oldTipHeight forkParentHeight) disconnect_at;
        do _ <- cfor (heights_up forkParentHeight oldTipHeight) unlink_at;
        do connected <- connect_all (add32 forkParentHeight 1) (rev newChain) [];
        do _ <- swrite StoreTip (fun s => PutChainTip s newTipHash newTipHeight);
        do _ <- cmod (fun c => set_main newTipHash newTipHeight newWork
                                 (c_heightByHash c) (c_hashByHeight c) c);
        cfor connected record_undo
  end.

(** On any error the deferred [restoreSnapshot] puts back the in-memory fields as they
    were, with the clone in place of the set that was modified. *)
Definition reorg (newTipHash : Hash) (newTipHeight newWork : Z) : cM St unit :=
  fun c0 =>
    match cloneUtxoSet c0 with
    | (Err e, c1) => (Err e, c1)
    | (Ok snapshot, c1) =>
        match reorg_body newTipHash newTipHeight newWork c1 with
        | (Ok _, c2) => (Ok tt, c2)
        | (Err e, c2) =>
            (Err e, set_sets (c_sets c2) snapshot
                      (set_main (c_tipHash c0) (c_tipHeight c0) (c_tipWork c0)
                         (c_heightByHash c0) (c_hashByHeight c0) c2))
        end
    end.

(** *** Accepting blocks *)

(** [bytes.Compare(a, b) < 0]. *)
Fixpoint bytes_lt (a b : list byte) : bool :=
  match a, b with
  | _, [] => false
  | [], _ :: _ => true
  | x :: a, y :: b =>
      if byte.unsigned x =? byte.unsigned y then bytes_lt a b
      else byte.unsigned x <? byte.unsigned y
  end.

(** The comparison that makes a side chain the main chain. *)
Definition heavier c (newWork : Z) (blockHash : Hash) : bool :=
  (newWork >? c_tipWork c) || ((newWork =? c_tipWork c) && bytes_lt blockHash (c_tipHash c)).

Definition new_record (block : Block) (height : Z) (loc : Z * Z * Z) (work : Z) : DiskBlockIndex :=
  let '(fileNum, offset, size) := loc in
  {| bi_Header := blk_Header block; bi_Height := height;
     bi_Status := Z.lor StatusHaveData StatusValidHeader;
     bi_TxCount := u32 (len (blk_Transactions block));
     bi_FileNum := fileNum; bi_DataPos := offset; bi_DataSize := size;
     bi_UndoFile := 0; bi_UndoPos := 0; bi_UndoSize := 0; bi_ChainWork := Some work |}.

(** The transactions of a block on the tip validated and applied; its undo data. *)
Definition connect_tip (block : Block) (newHeight : Z) : cM St BlockUndoData :=
  do c <- cget;
  do _ <- clift (TxInputsInvalid newHeight)
       (ValidateTransactionInputs block (UtxoSet_of c) newHeight (c_params c));
  do (us, undoData) <- clift ConnectFailed (ConnectBlock (UtxoSet_of c) block newHeight);
  do _ <- cmod (set_utxo us);
  cret undoData.

(** [c.utxoSet.DisconnectBlock(block, undoData)] when [m] fails. *)
Definition or_disconnect {A} (block : Block) (undoData : BlockUndoData) (m : cM St A) : cM St A :=
  fun c => match m c with
           | (Ok a, c') => (Ok a, c')
           | (Err e, c') => (Err e, set_utxo (DisconnectBlock (UtxoSet_of c') block undoData) c')
           end.

(** The branch of [ProcessBlock] that extends the tip. *)
Definition extend_tip (block : Block) (blockHash : Hash) (newHeight newWork : Z) (rec : DiskBlockIndex)
  : cM St unit :=
  do undoData <- connect_tip block newHeight;
  do (undoOffset, undoSize) <- or_disconnect block undoData
       (swrite StoreUndo (fun s => WriteUndo s (bi_FileNum rec) (SerializeUndoData undoData)));
  let rec := with_undo rec (bi_FileNum rec) undoOffset undoSize in
  do _ <- or_disconnect block undoData (swrite StoreIndex (fun s => PutBlockIndex s blockHash rec));
  do _ <- or_disconnect block undoData (persistUtxoChanges block undoData blockHash);
  extendChain blockHash newHeight newWork.

Definition known_at (hash : Hash) (height : Z) : cM St unit :=
  cmod (fun c => set_heights (<[hash := height]> (c_heightByHash c)) (c_hashByHeight c) c).

(** The header against the ancestors of its parent, then its time and the structure. *)
Definition check_header (block : Block) (parentHeader : BlockHeader) (parentHeight newHeight : Z)
  : cM St unit :=
  do c <- cget;
  let getAncestor := buildAncestorLookup c (hdr_PrevBlock (blk_Header block)) parentHeight in
  clift (HeaderInvalid newHeight)
    (ValidateHeader (blk_Header block) parentHeader newHeight getAncestor (c_params c)).

Definition check_block (block : Block) (parentHeader : BlockHeader) (parentHeight newHeight nowUnix : Z)
  : cM St unit :=
  do c <- cget;
  let getAncestor := buildAncestorLookup c (hdr_PrevBlock (blk_Header block)) parentHeight in
  do _ <- clift TimestampInvalid
       (ValidateHeaderTimestamp (blk_Header block) parentHeader nowUnix getAncestor parentHeight (c_params c));
  clift (BlockInvalid newHeight) (ValidateBlock block newHeight (c_params c)).

(** The work of the chain that ends in [block]. *)
Definition chain_work (block : Block) : cM St Z :=
  do parentWork <- workForParentChain (hdr_PrevBlock (blk_Header block));
  cret (parentWork + CalcWork (hdr_Bits (blk_Header block))).

(** *** Orphans *)

Definition evictExpiredOrphans : cM St unit :=
  do now <- WallNow;
  cmod (fun c => set_orphans
    (filter (fun kv => ~ now - ob_addedAt kv.2 > OrphanExpiry) (c_orphans c)) c).

(** The first entry of a randomized iteration is any entry. *)
Definition evictRandomOrphan : cM St unit :=
  fun c =>
    let keys := map fst (map_to_list (c_orphans c)) in
    match keys !! (env_pick env (c_tick c) mod length keys)%nat with
    | Some hash => (Ok tt, tick (set_orphans (delete hash (c_orphans c)) c))
    | None => (Ok tt, tick c)
    end.

Definition add_orphan (block : Block) (blockHash : Hash) : cM St unit :=
  do _ <- evictExpiredOrphans;
  do c <- cget;
  do _ <- (if Z.of_nat (size (c_orphans c)) >=? MaxOrphanBlocks then evictRandomOrphan else cret tt);
  do now <- WallNow;
  cmod (fun c => set_orphans (<[blockHash := {| ob_block := block; ob_addedAt := now |}]> (c_orphans c)) c).

(** What happens to an orphan whose parent has arrived: dropped ([continue]), accepted
    and queued, or made the new tip by a reorganisation (the queue restarts with it). *)
Inductive orphan_outcome := Dropped | Queued | Restart.

(** The branches of [processOrphans]; an error drops the orphan. *)
Definition orphan_extend (block : Block) (blockHash : Hash) (newHeight newWork : Z)
    (rec : DiskBlockIndex) : cM St unit :=
  do undoData <- connect_tip block newHeight;
  do rec <- (fun c =>
    let '(r, s) := WriteUndo (c_store c) (bi_FileNum rec) (SerializeUndoData undoData) in
    (Ok match r with
        | Ok (undoOffset, undoSize) => with_undo rec (bi_FileNum rec) undoOffset undoSize
        | Err _ => rec
        end, set_store s c));
  do _ <- or_disconnect block undoData (swrite StoreIndex (fun s => PutBlockIndex s blockHash rec));
  do _ <- or_disconnect block undoData (persistUtxoChanges block undoData blockHash);
  extendChain blockHash newHeight newWork.

(** [_ = c.store.PutBlockIndex(blockHash, rec)] *)
Definition put_index_ignore (blockHash : Hash) (rec : DiskBlockIndex) : cM St unit :=
  fun c => let '(_, s) := PutBlockIndex (c_store c) blockHash rec in (Ok tt, set_store s c).

Definition is_too_deep (e : ChainErr) : bool :=
  match e with ReorgTooDeep _ _ _ => true | _ => false end.

Definition orphan_reorg (blockHash : Hash) (newHeight newWork : Z) (rec : DiskBlockIndex) : cM St unit :=
  do _ <- put_index_ignore blockHash rec;
  do _ <- known_at blockHash newHeight;
  fun c => match reorg blockHash newHeight newWork c with
           | (Ok _, c') => (Ok tt, c')
           | (Err e, c') =>
               (Err e, if is_too_deep e then c'
                       else set_heights (delete blockHash (c_heightByHash c')) (c_hashByHeight c') c')
           end.

Definition process_orphan (blockHash : Hash) (orphan : Block) : cM St orphan_outcome :=
  let parent := hdr_PrevBlock (blk_Header orphan) in
  do c <- cget;
  match c_heightByHash c !! parent with
  | None => cret Dropped
  | Some parentHeight =>
      let newHeight := add32 parentHeight 1 in
      do parentHeader <- sread LoadParentHeader (fun s => GetHeader s parent);
      do _ <- check_header orphan parentHeader parentHeight newHeight;
      do now <- Now;
      do _ <- check_block orphan parentHeader parentHeight newHeight (u32 now);
      do newWork <- chain_work orphan;
      do loc <- swrite StoreBlock (fun s => WriteBlock s blockHash orphan);
      let rec := new_record orphan newHeight loc newWork in
      do c <- cget;
      if bool_decide (parent = c_tipHash c) then
        do _ <- orphan_extend orphan blockHash newHeight newWork rec; cret Queued
      else if heavier c newWork blockHash then
        do _ <- orphan_reorg blockHash newHeight newWork rec; cret Restart
      else
        do _ <- put_index_ignore blockHash rec;
        do _ <- known_at blockHash newHeight; cret Queued
  end.

(** The candidates of one parent, in order of hash, [deleted] from the pool. *)
Definition hash_before (a b : Hash * orphanBlock) : Prop := bytes_lt b.1 a.1 = false.
#[export] Instance hash_before_dec : RelDecision hash_before.
Proof. intros a b. unfold hash_before. apply _. Defined.

Definition is_child (parent : Hash) (kv : Hash * orphanBlock) : Prop :=
  hdr_PrevBlock (blk_Header (ob_block kv.2)) = parent.
#[export] Instance is_child_dec parent kv : Decision (is_child parent kv).
Proof. unfold is_child. apply _. Defined.

Definition take_children (parent : Hash) : cM St (list (Hash * orphanBlock)) :=
  fun c =>
    (Ok (merge_sort hash_before (filter (is_child parent) (map_to_list (c_orphans c)))),
     set_orphans (filter (fun kv => ~ is_child parent kv) (c_orphans c)) c).

Fixpoint orphan_batch c (toProcess : list (Hash * orphanBlock)) (queue : list Hash)
  : list Hash * Chain St :=
  match toProcess with
  | [] => (queue, c)
  | (hash, ob) :: rest =>
      match process_orphan hash (ob_block ob) c with
      | (Ok Queued, c') => orphan_batch c' rest (queue ++ [hash])
      | (Ok Restart, c') => ([hash], c')
      | (_, c') => orphan_batch c' rest queue
      end
  end.

(** The loop over the queue; the queue left when the fuel runs out, empty by
    [orphan_loop_ends] in [ChainSafety.v]. *)
Fixpoint orphan_loop (fuel : nat) c (queue : list Hash) : list Hash * Chain St :=
  match fuel, queue with
  | _, [] => ([], c)
  | O, _ => (queue, c)
  | S fuel, parent :: queue =>
      match take_children parent c with
      | (Ok toProcess, c') =>
          let '(queue, c'') := orphan_batch c' toProcess queue in
          orphan_loop fuel c'' queue
      | (Err _, c') => (queue, c')
      end
  end.

Definition processOrphans (parentHash : Hash) : cM St unit :=
  fun c => (Ok tt, snd (orphan_loop (S (size (c_orphans c))) c [parentHash])).

(** *** [ProcessBlock] *)

(** The block's height and no error, or an error; the two side-chain errors of the code
    carry the height they are returned with. *)
Definition ProcessBlock (block : Block) : cM St Z :=
  let blockHash := HashBlockHeader (blk_Header block) in
  let parent := hdr_PrevBlock (blk_Header block) in
  do c <- cget;
  match c_heightByHash c !! blockHash, c_orphans c !! blockHash, c_heightByHash c !! parent with
  | Some _, _, _ => cfail (AlreadyInChain blockHash)
  | None, Some _, _ => cfail (OrphanInPool blockHash)
  | None, None, None =>
      do _ <- clift OrphanPoW (ValidateProofOfWork blockHash (hdr_Bits (blk_Header block)));
      do _ <- add_orphan block blockHash;
      cfail (OrphanStored blockHash parent)
  | None, None, Some parentHeight =>
      let newHeight := add32 parentHeight 1 in
      do parentHeader <- sread LoadParentHeader (fun s => GetHeader s parent);
      do now <- Now;
      do _ <- check_header block parentHeader parentHeight newHeight;
      do _ <- check_block block parentHeader parentHeight newHeight (u32 now);
      do newWork <- chain_work block;
      do loc <- swrite StoreBlock (fun s => WriteBlock s blockHash block);
      let rec := new_record block newHeight loc newWork in
      if bool_decide (parent = c_tipHash c) then
        do _ <- extend_tip block blockHash newHeight newWork rec;
        do _ <- processOrphans blockHash;
        cret newHeight
      else if heavier c newWork blockHash then
        do _ <- swrite StoreIndex (fun s => PutBlockIndex s blockHash rec);
        fun c1 =>
          match reorg blockHash newHeight newWork c1 with
          | (Ok _, c2) => (do _ <- processOrphans blockHash; cret newHeight) c2
          | (Err e, c2) =>
              if is_too_deep e then
                (do _ <- known_at blockHash newHeight;
                 do _ <- processOrphans blockHash;
                 cfail (SideChainDeep newHeight e)) c2
              else (Err (ReorgFailed blockHash e), c2)
          end
      else
        do _ <- swrite StoreIndex (fun s => PutBlockIndex s blockHash rec);
        do _ <- known_at blockHash newHeight;
        do _ <- processOrphans blockHash;
        cfail (SideChainBlock newHeight)
  end.

(** *** Start-up *)

Definition initGenesis : cM St unit :=
  do c <- cget;
  let p := c_params c in
  let genesis := p_GenesisBlock p in
  let genesisHash := HashBlockHeader (blk_Header genesis) in
  if negb (IsZero (p_GenesisHash p)) && negb (bool_decide (genesisHash = p_GenesisHash p))
  then cfail (GenesisMismatch genesisHash (p_GenesisHash p))
  else
    do (fileNum, offset, size) <- swrite StoreBlock (fun s => WriteBlock s genesisHash genesis);
    let genesisWork := CalcWork (hdr_Bits (blk_Header genesis)) in
    let rec :=
      {| bi_Header := blk_Header genesis; bi_Height := 0;
         bi_Status := Z.lor (Z.lor StatusHaveData StatusValidHeader) StatusValidTx;
         bi_TxCount := u32 (len (blk_Transactions genesis));
         bi_FileNum := fileNum; bi_DataPos := offset; bi_DataSize := size;
         bi_UndoFile := 0; bi_UndoPos := 0; bi_UndoSize := 0; bi_ChainWork := Some genesisWork |} in
    do _ <- swrite StoreIndex (fun s => PutBlockIndex s genesisHash rec);
    do _ <- swrite StoreTip (fun s => PutChainTip s genesisHash 0);
    do _ <- cmod (fun c => set_main genesisHash 0 genesisWork (<[genesisHash := 0]> (c_heightByHash c))
                             (<[0 := genesisHash]> (c_hashByHeight c)) c);
    do _ <- cmod (fun c => set_utxo (ConnectGenesis (UtxoSet_of c) genesis) c);
    flushUtxoSetToChainstate.

(** One block of the replay, [h == 0] being the genesis block. *)
Definition rebuild_at (h : Z) : cM St unit :=
  do c <- cget;
  match c_hashByHeight c !! h with
  | None => cfail (MissingHash h)
  | Some hash =>
      do block <- sread LoadBlock (fun s => GetBlock s hash);
      if h =? 0 then cmod (fun c => set_utxo (ConnectGenesis (UtxoSet_of c) block) c)
      else
        do (us, _) <- clift ConnectFailed (ConnectBlock (UtxoSet_of c) block h);
        cmod (set_utxo us)
  end.

Definition rebuildUtxoSet : cM St unit :=
  do c <- cget;
  do _ <- cfor (heights_up (-1) (c_tipHeight c)) rebuild_at;
  flushUtxoSetToChainstate.

Definition loadUtxoSetFromChainstate : cM St unit :=
  do c <- cget;
  let '(entries, err) := ForEachUtxo (c_store c) in
  do _ <- cfor entries (fun '(txHash, index, data) =>
    do entry <- clift (CorruptUtxo txHash index) (DeserializeUtxoEntry data);
    cmod (fun c => set_utxo (Add (UtxoSet_of c) txHash index entry) c));
  match err with Some e => cfail (IterateUtxo e) | None => cret tt end.

(** The walk from [current] at height [h] down to height 0, filling [hashByHeight] and
    adding up [tipWork]; [n] is [h] as a natural number. *)
Fixpoint index_walk (n : nat) (h : Z) (current : Hash) : cM St unit :=
  do _ <- cmod (fun c => set_heights (c_heightByHash c) (<[h := current]> (c_hashByHeight c)) c);
  do rec <- sread (LoadIndex h) (fun s => GetBlockIndex s current);
  do _ <- cmod (fun c => set_main (c_tipHash c) (c_tipHeight c)
                           (c_tipWork c + CalcWork (hdr_Bits (bi_Header rec)))
                           (c_heightByHash c) (c_hashByHeight c) c);
  match n with
  | O => cret tt
  | S n => index_walk n (h - 1) (hdr_PrevBlock (bi_Header rec))
  end.

(** A failed load falls back to a rebuild. *)
Definition load_or_rebuild : cM St unit :=
  fun c => match loadUtxoSetFromChainstate c with
           | (Ok _, c') => (Ok tt, c')
           | (Err _, c') => rebuildUtxoSet c'
           end.

Definition Init : cM St unit :=
  do c <- cget;
  match GetChainTip (c_store c) with
  | Err _ => initGenesis
  | Ok (tipHash, tipHeight) =>
      let '(records, err) := ForEachBlockIndex (c_store c) in
      do _ <- cmod (fun c => set_main tipHash tipHeight 0
             (fold_left (fun m '(hash, rec) =>
                if has_flag (bi_Status rec) StatusHaveData then <[hash := bi_Height rec]> m else m)
                records (c_heightByHash c)) (c_hashByHeight c) c);
      do _ <- match err with Some e => cfail (IterateIndex e) | None => cret tt end;
      do _ <- index_walk (Z.to_nat tipHeight) tipHeight tipHash;
      match GetBestBlock (c_store c) with
      | Err _ => rebuildUtxoSet
      | Ok bestBlock =>
          if negb (bool_decide (bestBlock = tipHash)) then
            do c <- cget;
            match c_heightByHash c !! bestBlock with
            | Some bestBlockHeight =>
                if bestBlockHeight >? tipHeight then
                  do _ <- cmod (fun c => set_main (c_tipHash c) (c_tipHeight c) 0 (c_heightByHash c) ∅ c);
                  do _ <- index_walk (Z.to_nat bestBlockHeight) bestBlockHeight bestBlock;
                  do _ <- cmod (fun c => set_main bestBlock bestBlockHeight (c_tipWork c)
                                           (c_heightByHash c) (c_hashByHeight c) c);
                  do _ <- swrite StoreTip (fun s => PutChainTip s bestBlock bestBlockHeight);
                  load_or_rebuild
                else rebuildUtxoSet
            | None => rebuildUtxoSet
            end
          else load_or_rebuild
      end
  end.
End chain.
