(* ===== verification/ChainInv.v ===== *)
(** * The chain manager keeps the ledger of its active chain

    The invariant of [Chain.v] and its preservation by every operation that changes the
    chain, for any store that satisfies [BlockStoreLaws] and the proof-of-work engine.
    The main statement is that the in-memory unspent set is always the replay of the
    blocks of the active chain, whatever sequence of extensions, side chains, orphans and
    reorganisations (successful or failed) led to it. *)
From stdpp Require Import sorting.
From S2P Require Import Prelude Types Sha256 Crypto Target Params Script Utxo TxValidation.
From S2P Require Import BlockValidation Pow Ledger Store Chain.
#[local] Open Scope Z_scope.
#[local] Open Scope go_scope.
Import MerkleFacts.

Abbreviation block_hash b := (HashBlockHeader (blk_Header b)).

(** ** The blocks under consideration *)

(** The strings hashed for a block: its header, and those that tie its transactions to
    the Merkle root. *)
Definition block_strings (b : Block) : list (list byte) :=
  hdr_SerializeToBytes (blk_Header b) :: hashed_strings (blk_Transactions b).

(** A finite universe of blocks, large enough to contain every block submitted, in which
    the hash function shows no collision. *)
Record universe (p : ChainParams) (U : list Block) : Prop := {
  un_storable : Forall storable U;
  un_collisions : collision_free (concat (map block_strings U));
  un_leaves : Forall (fun b => Forall (fun tx => length (tx_Serialize tx) <> 64%nat) (blk_Transactions b)) U;
  un_nonzero : Forall (fun b => block_hash b <> ZeroHash) U;
  un_size : len U < 2^32 - 1;
  un_genesis : p_GenesisBlock p ∈ U;
  un_genesis_prev : hdr_PrevBlock (blk_Header (p_GenesisBlock p)) = ZeroHash;
  un_genesis_ok : genesis_ok p;
  un_genesis_valid : ValidateBlockStructure (p_GenesisBlock p) 0 p = Ok tt;
  un_params : wf_params p;
  un_block_size : p_MaxBlockSize p <= 4000000 }.

Section universe.
Context {p : ChainParams} {U : list Block} (HU : universe p U).

Lemma un_elem b s : b ∈ U -> s ∈ block_strings b -> s ∈ concat (map block_strings U).
Proof.
  intros Hb Hs. apply list_elem_of_In, in_concat. exists (block_strings b).
  split; [by apply in_map, list_elem_of_In|by apply list_elem_of_In].
Qed.

Lemma un_wf b : b ∈ U -> wf_block b.
Proof. intros Hb. pose proof (un_storable _ _ HU) as H. rewrite Forall_forall in H. by apply (H b Hb). Qed.

(** Blocks with the same header hash have the same header, and if they are valid they are
    equal. *)
Lemma header_unique b1 b2 :
  b1 ∈ U -> b2 ∈ U -> block_hash b1 = block_hash b2 -> blk_Header b1 = blk_Header b2.
Proof.
  intros H1 H2 E. pose proof (un_collisions _ _ HU) as C.
  assert (hdr_SerializeToBytes (blk_Header b1) = hdr_SerializeToBytes (blk_Header b2)) as Es.
  { apply C; [apply (un_elem b1)|apply (un_elem b2)|exact E]; try done; unfold block_strings; set_solver. }
  rewrite <- (app_nil_r (hdr_SerializeToBytes (blk_Header b1))),
          <- (app_nil_r (hdr_SerializeToBytes (blk_Header b2))) in Es.
  apply (encode_prefix_free (dec := hdr_Deserialize)) in Es as [? _]; [done|apply (un_wf b1 H1)|apply (un_wf b2 H2)].
Qed.

Lemma block_unique b1 b2 h1 h2 :
  b1 ∈ U -> b2 ∈ U -> ValidateBlockStructure b1 h1 p = Ok tt -> ValidateBlockStructure b2 h2 p = Ok tt ->
  block_hash b1 = block_hash b2 -> b1 = b2.
Proof.
  intros H1 H2 V1 V2 E. pose proof (un_collisions _ _ HU) as C.
  pose proof (header_unique b1 b2 H1 H2 E) as Eh.
  assert (blk_Transactions b1 = blk_Transactions b2) as Et.
  { eapply structure_commits; [exact V1|exact V2|by rewrite Eh|apply (un_wf b1 H1)|apply (un_wf b2 H2)| |].
    - pose proof (un_leaves _ _ HU) as L. rewrite Forall_forall in L. apply Forall_app. auto.
    - eapply collision_free_mono; [exact C|]. intros s Hs. apply elem_of_app in Hs as [Hs|Hs].
      + apply (un_elem b1); [done|]. unfold block_strings. set_solver.
      + apply (un_elem b2); [done|]. unfold block_strings. set_solver. }
  destruct b1, b2. simpl in *. congruence.
Qed.

Lemma un_txs bs : Forall (fun b => b ∈ U) bs -> wf_txs bs.
Proof. intros H. eapply Forall_impl; [exact H|]. intros b Hb. apply (un_wf b Hb). Qed.

Lemma un_history bs : Forall (fun b => b ∈ U) bs -> collision_free (map tx_Serialize (history p bs)).
Proof.
  intros H. eapply collision_free_mono; [apply (un_collisions _ _ HU)|]. intros s Hs.
  apply list_elem_of_fmap in Hs as (tx & -> & Htx). unfold history, block_txs in Htx.
  apply list_elem_of_In, in_concat in Htx as (txs & Htxs & Htx).
  apply in_map_iff in Htxs as (b & <- & Hb). apply (un_elem b).
  - apply list_elem_of_In in Hb. apply elem_of_cons in Hb as [->|Hb]; [apply (un_genesis _ _ HU)|].
    rewrite Forall_forall in H. auto.
  - unfold block_strings, hashed_strings. apply elem_of_cons. right. apply elem_of_app. left.
    apply list_elem_of_In. by apply in_map.
Qed.
End universe.

(** ** The invariant *)

Section inv.
Context {St : Type} `{BS : BlockStore St} {BL : BlockStoreLaws St} `{EC : ECOps}.
Context (p : ChainParams) (U : list Block).
#[local] Abbreviation genesis := (p_GenesisBlock p).
#[local] Abbreviation idx s := (v_index (st_view s)).
Implicit Types (s : St) (c : Chain St).

(** A record of the index: its block is stored, and its height and work follow from
    those of its parent, which is in the index too. *)
Record rec_ok s (h : Hash) (r : DiskBlockIndex) (b : Block) : Prop := {
  ro_data : st_data s (bi_FileNum r) (bi_DataPos r) = Some b;
  ro_in : b ∈ U;
  ro_hash : block_hash b = h;
  ro_header : bi_Header r = blk_Header b;
  ro_wf : wf_index r;
  ro_valid : ValidateBlockStructure b (bi_Height r) p = Ok tt;
  ro_have : has_flag (bi_Status r) StatusHaveData = true;
  ro_parent : (b = genesis /\ bi_Height r = 0
      /\ bi_ChainWork r = Some (CalcWork (hdr_Bits (blk_Header genesis))))
    \/ exists pr w, idx s !! hdr_PrevBlock (blk_Header b) = Some pr
         /\ bi_Height r = bi_Height pr + 1 /\ bi_ChainWork pr = Some w
         /\ bi_ChainWork r = Some (w + CalcWork (hdr_Bits (blk_Header b))) }.

Definition index_ok s : Prop := forall h r, idx s !! h = Some r -> exists b, rec_ok s h r b.

(** [heightByHash] has heights at which the blocks are valid. *)
Definition heights_ok (hbh : gmap Hash Z) : Prop :=
  forall h n, hbh !! h = Some n ->
    (h = block_hash genesis /\ n = 0)
    \/ h <> block_hash genesis /\ 0 < n
       /\ exists b, b ∈ U /\ block_hash b = h /\ ValidateBlockStructure b n p = Ok tt.

(** Blocks on top of each other from height [n], above the block [prev], all in the index. *)
Fixpoint linked s (prev : Hash) (n : Z) (bs : list Block) : Prop :=
  match bs with
  | [] => True
  | b :: bs =>
      hdr_PrevBlock (blk_Header b) = prev /\ b ∈ U /\ ValidateBlockStructure b n p = Ok tt
      /\ (exists r, idx s !! block_hash b = Some r /\ bi_Height r = n)
      /\ linked s (block_hash b) (n + 1) bs
  end.

Definition last_hash (prev : Hash) (bs : list Block) : Hash := List.last (map (fun b => block_hash b) bs) prev.

(** The undo data on disk of the block at position [i], if the index says there is any. *)
Definition undo_ok s (bs : list Block) (i : nat) (b : Block) : Prop :=
  forall r, idx s !! block_hash b = Some r -> has_flag (bi_Status r) StatusHaveUndo = true ->
  exists us us' undo, replay p (take i bs) = Some us
    /\ ConnectBlock us b (Z.of_nat i + 1) = Ok (us', undo)
    /\ st_undo s (bi_UndoFile r) (bi_UndoPos r) = Some (SerializeUndoData undo).

(** [bs] are the blocks of the active chain above the genesis block, as the in-memory maps
    and the unspent set have them. *)
Record active s (hbh : gmap Hash Z) (bhh : gmap Z Hash) (us : UtxoSet) (bs : list Block) : Prop := {
  ac_genesis : exists r, idx s !! block_hash genesis = Some r /\ bi_Height r = 0;
  ac_linked : linked s (block_hash genesis) 1 bs;
  ac_bhh : forall z, bhh !! z = if z <? 0 then None
                                else (fun b => block_hash b) <$> ((genesis :: bs) !! Z.to_nat z);
  ac_hbh : forall i b, (genesis :: bs) !! i = Some b -> hbh !! block_hash b = Some (Z.of_nat i);
  ac_replay : replay p bs = Some us }.

Record chain_inv c : Prop := {
  ci_params : c_params c = p;
  ci_store : st_ok (c_store c);
  ci_index : index_ok (c_store c);
  ci_heights : heights_ok (c_heightByHash c);
  ci_ptr : (c_utxoSet c < length (c_sets c))%nat;
  ci_orphans : forall h ob, c_orphans c !! h = Some ob -> ob_block ob ∈ U /\ block_hash (ob_block ob) = h;
  ci_main : exists bs,
    active (c_store c) (c_heightByHash c) (c_hashByHeight c) (UtxoSet_of c) bs
    /\ c_tipHeight c = len bs /\ c_tipHash c = last_hash (block_hash genesis) bs
    /\ (forall r, idx (c_store c) !! c_tipHash c = Some r -> bi_ChainWork r = Some (c_tipWork c))
    /\ forall i b, bs !! i = Some b -> undo_ok (c_store c) bs i b }.

(** ** Changes of the store that keep the chains in it *)

(** Same block, height and work. *)
Definition same_core (r r' : DiskBlockIndex) : Prop :=
  bi_Header r' = bi_Header r /\ bi_Height r' = bi_Height r /\ bi_FileNum r' = bi_FileNum r
  /\ bi_DataPos r' = bi_DataPos r /\ bi_ChainWork r' = bi_ChainWork r
  /\ (has_flag (bi_Status r) StatusHaveData = true -> has_flag (bi_Status r') StatusHaveData = true).

(** [s'] has the records of [s], those of [keep] untouched. *)
Record store_rel (keep : Hash -> Prop) s s' : Prop := {
  sr_ok : st_ok s';
  sr_data : forall f o b, st_data s f o = Some b -> st_data s' f o = Some b;
  sr_undo : forall f o b, st_undo s f o = Some b -> st_undo s' f o = Some b;
  sr_index : forall h r, idx s !! h = Some r ->
    exists r', idx s' !! h = Some r' /\ same_core r r' /\ wf_index r' /\ (keep h -> r' = r);
  sr_none : forall h r', idx s' !! h = Some r' -> exists r, idx s !! h = Some r }.

Lemma same_core_refl r : same_core r r.
Proof. by repeat split. Qed.

Lemma store_rel_refl keep s : st_ok s -> index_ok s -> store_rel keep s s.
Proof.
  intros Ho Hi. constructor; try done; [|eauto]. intros h r H. exists r.
  destruct (Hi h r H) as [b Hb]. split_and!; [done|apply same_core_refl|apply Hb|done].
Qed.

Lemma store_rel_trans keep s1 s2 s3 : store_rel keep s1 s2 -> store_rel keep s2 s3 -> store_rel keep s1 s3.
Proof.
  intros R1 R2. constructor.
  - apply R2.
  - intros f o b H. by apply (sr_data _ _ _ R2), (sr_data _ _ _ R1).
  - intros f o b H. by apply (sr_undo _ _ _ R2), (sr_undo _ _ _ R1).
  - intros h r H. destruct (sr_index _ _ _ R1 h r H) as (r1 & H1 & (E1 & E2 & E3 & E4 & E5 & E6) & _ & K1).
    destruct (sr_index _ _ _ R2 h r1 H1) as (r2 & H2 & (F1 & F2 & F3 & F4 & F5 & F6) & W & K2).
    exists r2. split_and!; [done|unfold same_core; split_and!; congruence || auto|done|].
    intros Hk. rewrite K2, K1 by done. done.
  - intros h r H. destruct (sr_none _ _ _ R2 h r H) as [r1 H1]. apply (sr_none _ _ _ R1 h r1 H1).
Qed.

Lemma store_rel_weaken (keep keep' : Hash -> Prop) s s' :
  (forall h, keep' h -> keep h) -> store_rel keep s s' -> store_rel keep' s s'.
Proof.
  intros Hk R. constructor; try apply R. intros h r H.
  destruct (sr_index _ _ _ R h r H) as (r' & ? & ? & ? & K). exists r'. split_and!; auto.
Qed.

(** A store with the same index and more data. *)
Lemma store_rel_same keep s s' :
  index_ok s -> st_ok s' -> idx s' = idx s ->
  (forall f o b, st_data s f o = Some b -> st_data s' f o = Some b) ->
  (forall f o b, st_undo s f o = Some b -> st_undo s' f o = Some b) -> store_rel keep s s'.
Proof.
  intros Hi Ho E Hd Hu. constructor; try done; [|intros h r; rewrite E; eauto].
  intros h r H. exists r. rewrite E. destruct (Hi h r H) as [b Hb].
  split_and!; [done|apply same_core_refl|apply Hb|done].
Qed.

Lemma rel_rec_ok keep s s' h r r' b :
  store_rel keep s s' -> rec_ok s h r b -> idx s' !! h = Some r' -> same_core r r' -> wf_index r' ->
  rec_ok s' h r' b.
Proof.
  intros R [Hd Hin Hh He Hw Hv Hfl Hp] H' (E1 & E2 & E3 & E4 & E5 & E6) W'. constructor; try done.
  - rewrite E3, E4. by apply (sr_data _ _ _ R).
  - congruence.
  - congruence.
  - auto.
  - destruct Hp as [(-> & Hz & Hz')|(pr & w & Hpr & Hht & Hw1 & Hw2)]; [left; split_and!; congruence|right].
    destruct (sr_index _ _ _ R _ _ Hpr) as (pr' & Hpr' & (_ & F2 & _ & _ & F5 & _) & _ & _).
    exists pr', w. split_and!; congruence.
Qed.

Lemma rel_index_ok keep s s' : store_rel keep s s' -> index_ok s -> index_ok s'.
Proof.
  intros R Hi h r' H'. destruct (sr_none _ _ _ R h r' H') as [r H].
  destruct (sr_index _ _ _ R h r H) as (r1 & H1 & Hc & W & _). rewrite H' in H1. injection H1 as <-.
  destruct (Hi h r H) as [b Hb]. exists b. by eapply rel_rec_ok.
Qed.

Lemma rel_height keep s s' h r' :
  store_rel keep s s' -> idx s' !! h = Some r' -> exists r, idx s !! h = Some r
    /\ bi_Height r' = bi_Height r /\ bi_ChainWork r' = bi_ChainWork r.
Proof.
  intros R H'. destruct (sr_none _ _ _ R h r' H') as [r H]. exists r. split; [done|].
  destruct (sr_index _ _ _ R h r H) as (r1 & H1 & (_ & ? & _ & _ & ? & _) & _ & _). rewrite H' in H1.
  by injection H1 as <-.
Qed.

Lemma rel_stored keep s s' h n :
  store_rel keep s s' -> (exists r, idx s !! h = Some r /\ bi_Height r = n) ->
  exists r, idx s' !! h = Some r /\ bi_Height r = n.
Proof.
  intros R (r & H & Hn). destruct (sr_index _ _ _ R h r H) as (r' & H' & (_ & ? & _) & _). exists r'.
  split; [done|congruence].
Qed.

Lemma rel_linked keep s s' prev n bs : store_rel keep s s' -> linked s prev n bs -> linked s' prev n bs.
Proof.
  intros R. revert prev n. induction bs as [|b bs IH]; intros prev n; [done|]. cbn [linked].
  intros (? & ? & ? & Hst & ?). split_and!; try done; [by eapply rel_stored|auto].
Qed.

Lemma rel_active keep s s' hbh bhh us bs :
  store_rel keep s s' -> active s hbh bhh us bs -> active s' hbh bhh us bs.
Proof.
  intros R [Hg Hl Hb Hh Hr]. constructor; try done; [by eapply rel_stored|by eapply rel_linked].
Qed.

Lemma rel_undo_ok (keep : Hash -> Prop) s s' bs i b :
  store_rel keep s s' -> keep (block_hash b) -> undo_ok s bs i b -> undo_ok s' bs i b.
Proof.
  intros R Hk Hu r' H' Hf. destruct (sr_none _ _ _ R _ _ H') as [r H].
  destruct (sr_index _ _ _ R _ _ H) as (r1 & H1 & _ & _ & K). rewrite H' in H1. injection H1 as <-.
  rewrite (K Hk) in *. destruct (Hu r H Hf) as (us & us' & undo & E1 & E2 & E3).
  exists us, us', undo. split_and!; try done. by apply (sr_undo _ _ _ R).
Qed.

(** ** Chains of blocks *)

Lemma last_hash_cons prev b bs : last_hash prev (b :: bs) = last_hash (block_hash b) bs.
Proof.
  unfold last_hash. destruct bs as [|b1 bs _] using rev_ind; [done|].
  rewrite map_cons, map_app. cbn [map]. by rewrite app_comm_cons, !last_last.
Qed.

Lemma linked_app s prev n bs1 bs2 :
  linked s prev n (bs1 ++ bs2) <-> linked s prev n bs1 /\ linked s (last_hash prev bs1) (n + len bs1) bs2.
Proof.
  revert prev n. induction bs1 as [|b bs1 IH]; intros prev n; cbn [linked app].
  { unfold last_hash. simpl. rewrite Z.add_0_r. naive_solver. }
  rewrite IH. replace (n + 1 + len bs1) with (n + len (b :: bs1)) by (cbn [length]; lia).
  rewrite last_hash_cons. naive_solver.
Qed.

Lemma last_hash_snoc prev bs b : last_hash prev (bs ++ [b]) = block_hash b.
Proof. unfold last_hash. rewrite map_app. apply last_last. Qed.

Lemma last_hash_app prev bs1 bs2 : last_hash prev (bs1 ++ bs2) = last_hash (last_hash prev bs1) bs2.
Proof.
  destruct bs2 as [|b bs2 _] using rev_ind; [by rewrite app_nil_r|].
  by rewrite app_assoc, !last_hash_snoc.
Qed.

Lemma linked_lookup s prev n bs i b :
  linked s prev n bs -> bs !! i = Some b ->
  b ∈ U /\ ValidateBlockStructure b (n + Z.of_nat i) p = Ok tt
  /\ exists r, idx s !! block_hash b = Some r /\ bi_Height r = n + Z.of_nat i.
Proof.
  intros Hl Hi. rewrite <- (take_drop_middle bs i b Hi) in Hl. apply linked_app in Hl as [_ Hl].
  rewrite length_take_le in Hl by (apply lookup_lt_Some in Hi; lia). by destruct Hl as (_ & ? & ? & ? & _).
Qed.

Lemma linked_Forall s prev n bs : linked s prev n bs -> Forall (fun b => b ∈ U) bs.
Proof. intros Hl. apply Forall_lookup. intros i b Hi. by eapply linked_lookup. Qed.

Lemma GetBlock_rec s h b :
  st_ok s -> index_ok s -> GetBlock s h = Ok b -> exists r, idx s !! h = Some r /\ rec_ok s h r b.
Proof.
  intros Ho Hi H. apply GetBlock_sound in H as (r & Hr & Hd); [|done]. exists r. split; [done|].
  destruct (Hi h r Hr) as [b' Hb']. by rewrite (Hd b') by apply Hb'.
Qed.

Section known.
Context (HU : universe p U).

Lemma rec_unique s h r b b' n :
  rec_ok s h r b -> b' ∈ U -> ValidateBlockStructure b' n p = Ok tt -> block_hash b' = h -> b = b'.
Proof.
  intros Hb Hin Hv Hh. eapply (block_unique HU); [apply Hb|exact Hin|apply Hb|exact Hv|].
  rewrite Hh. apply Hb.
Qed.

Lemma valid_height b n m :
  ValidateBlockStructure b n p = Ok tt -> ValidateBlockStructure b m p = Ok tt -> 0 < n -> 0 < m -> n = m.
Proof.
  intros Hn Hm Hn0 Hm0. apply ValidateBlockStructure_Ok in Hn as (_ & _ & _ & _ & _ & Hn).
  apply ValidateBlockStructure_Ok in Hm as (_ & _ & _ & _ & _ & Hm).
  destruct (Hn Hn0) as (cb & rest & ti & E1 & E2 & V1), (Hm Hm0) as (cb' & rest' & ti' & F1 & F2 & V2).
  rewrite E1 in F1. injection F1 as <- <-. rewrite E2 in F2. injection F2 as <-.
  apply validateCoinbaseScriptSig_Ok in V1 as (_ & _ & _ & <-).
  by apply validateCoinbaseScriptSig_Ok in V2 as (_ & _ & _ & <-).
Qed.

(** [heightByHash] agrees with the index. *)
Lemma heights_rec s hbh h n r :
  index_ok s -> (exists g, idx s !! block_hash genesis = Some g /\ bi_Height g = 0) ->
  heights_ok hbh -> hbh !! h = Some n -> idx s !! h = Some r -> bi_Height r = n.
Proof.
  intros Hi (g & Hg & Hg0) Hh Hn Hr. destruct (Hh h n Hn) as [[-> ->]|(Hne & Hpos & b & Hb & Hbh & Hv)].
  { congruence. }
  destruct (Hi h r Hr) as [b' Hrec]. assert (b' = b) as -> by (by eapply rec_unique).
  eapply valid_height; [apply Hrec|exact Hv| |done].
  destruct (ro_parent _ _ _ _ Hrec) as [[E _]|(pr & w & Hpr & -> & _)].
  - exfalso. apply Hne. rewrite <- Hbh. by rewrite E.
  - destruct (Hi _ _ Hpr) as [pb Hp]. destruct (ro_wf _ _ _ _ Hp) as (_ & [? _] & _). lia.
Qed.

Lemma rec_height_nonneg s h r : index_ok s -> idx s !! h = Some r -> 0 <= bi_Height r.
Proof. intros Hi H. destruct (Hi h r H) as [b Hb]. destruct (ro_wf _ _ _ _ Hb) as (_ & [? _] & _). done. Qed.

(** The ancestors of a block are distinct. *)
Lemma ancestors s : index_ok s -> forall n h r, idx s !! h = Some r -> bi_Height r = Z.of_nat n ->
  exists l, length l = S n /\ NoDup l /\ Forall (fun b => b ∈ U) l
    /\ Forall (fun b => exists r', idx s !! block_hash b = Some r' /\ bi_Height r' <= Z.of_nat n) l.
Proof.
  intros Hi. induction n as [|n IH]; intros h r H Hn; destruct (Hi h r H) as [b Hb].
  - exists [b]. split_and!; [done|apply NoDup_singleton|apply Forall_singleton, Hb|apply Forall_singleton].
    exists r. rewrite (ro_hash _ _ _ _ Hb). split; [done|lia].
  - destruct (ro_parent _ _ _ _ Hb) as [[_ Hz]|(pr & w & Hpr & Hh & _)]; [lia|].
    destruct (IH _ pr Hpr ltac:(lia)) as (l & Hl & Hnd & HlU & Hle). exists (b :: l). split_and!.
    + cbn [length]. lia.
    + apply NoDup_cons. split; [|done]. intros Hin. rewrite Forall_forall in Hle.
      destruct (Hle b Hin) as (r' & Hr' & Hn'). rewrite (ro_hash _ _ _ _ Hb) in Hr'.
      rewrite H in Hr'. injection Hr' as <-. lia.
    + apply Forall_cons. split; [apply Hb|done].
    + apply Forall_cons. split; [exists r; rewrite (ro_hash _ _ _ _ Hb); split; [done|lia]|].
      eapply Forall_impl; [exact Hle|]. intros x (r' & ? & ?). exists r'. split; [done|lia].
Qed.

Lemma height_bound s h r : index_ok s -> idx s !! h = Some r -> 0 <= bi_Height r < 2^32 - 2.
Proof.
  intros Hi H. pose proof (rec_height_nonneg s h r Hi H) as H0.
  destruct (ancestors s Hi (Z.to_nat (bi_Height r)) h r H ltac:(lia)) as (l & Hl & Hnd & HlU & _).
  assert (length l <= length U)%nat as Hle.
  { apply submseteq_length, NoDup_submseteq; [done|]. by apply Forall_forall. }
  pose proof (un_size _ _ HU). lia.
Qed.
End known.
End inv.

(** ** Reasoning about operations

    [wp m Q c]: if the store is live after [m], then [Q] holds of the result.  Liveness of
    the store goes backwards through every operation ([Mono]), so it is available at each
    step of a composite operation. *)

Section wp.
Context {St : Type} `{BS : BlockStore St} {BL : BlockStoreLaws St}.
Implicit Types (c : Chain St).

Definition live c : Prop := st_live (c_store c).

Class Mono {A} (m : cM St A) : Prop := mono : forall c, live (m c).2 -> live c.

Definition wp {A} (m : cM St A) (Q : result ChainErr A -> Chain St -> Prop) c : Prop :=
  live (m c).2 -> Q (m c).1 (m c).2.

Lemma wp_bind {A B} (m : cM St A) (k : A -> cM St B) Q c :
  (forall a, Mono (k a)) ->
  wp m (fun r c' => match r with Ok a => wp (k a) Q c' | Err e => Q (Err e) c' end) c ->
  wp (cbind m k) Q c.
Proof.
  intros Hk H L. unfold wp, cbind in *. destruct (m c) as [[a|e] c'] eqn:E; cbn [fst snd] in *.
  - apply H; [by eapply Hk|done].
  - by apply H.
Qed.

Lemma wp_conseq {A} (m : cM St A) (Q Q' : result ChainErr A -> Chain St -> Prop) c :
  wp m Q c -> (forall r c', Q r c' -> Q' r c') -> wp m Q' c.
Proof. intros H HQ L. by apply HQ, H. Qed.

#[global] Instance mono_cret {A} (a : A) : Mono (cret a).
Proof. by intros c. Qed.
#[global] Instance mono_cfail {A} e : Mono (cfail e : cM St A).
Proof. by intros c. Qed.
#[global] Instance mono_cget : Mono cget.
Proof. by intros c. Qed.
#[global] Instance mono_clift {E A} (w : E -> ChainErr) (r : result E A) : Mono (clift w r).
Proof. by intros c. Qed.
#[global] Instance mono_sread {A} w (f : St -> result StoreErr A) : Mono (sread w f).
Proof. by intros c. Qed.
#[global] Instance mono_now env : Mono (Now env).
Proof. by intros c. Qed.
#[global] Instance mono_wall env : Mono (WallNow env).
Proof. by intros c. Qed.

Lemma mono_cmod f : (forall c, c_store (f c) = c_store c) -> Mono (cmod f).
Proof. intros Hf c. unfold live, cmod. cbn [snd]. by rewrite Hf. Qed.

#[global] Instance mono_bind {A B} (m : cM St A) (k : A -> cM St B) :
  Mono m -> (forall a, Mono (k a)) -> Mono (cbind m k).
Proof.
  intros Hm Hk c. unfold cbind. specialize (Hm c). destruct (m c) as [[a|e] c'] eqn:E; [|done].
  cbn [snd] in *. intros L. apply Hm. by eapply Hk.
Qed.

#[global] Instance mono_cfor {A} (l : list A) (body : A -> cM St unit) :
  (forall x, Mono (body x)) -> Mono (cfor l body).
Proof. intros Hb. induction l as [|x l IH]; cbn [cfor]; apply _. Qed.

Lemma mono_swrite {A} w (f : St -> result StoreErr A * St) :
  (forall s, st_live (f s).2 -> st_live s) -> Mono (swrite w f).
Proof. intros Hf c. unfold live, swrite. specialize (Hf (c_store c)). by destruct (f (c_store c)). Qed.

#[global] Instance mono_WriteBlock w h b : Mono (swrite w (fun s => WriteBlock s h b)).
Proof. apply mono_swrite. intros s L. destruct (WriteBlock s h b) eqn:E. by eapply WriteBlock_law. Qed.
#[global] Instance mono_WriteUndo w f bs : Mono (swrite w (fun s => WriteUndo s f bs)).
Proof. apply mono_swrite. intros s L. destruct (WriteUndo s f bs) eqn:E. by eapply WriteUndo_law. Qed.
#[global] Instance mono_PutBlockIndex w h r : Mono (swrite w (fun s => PutBlockIndex s h r)).
Proof. apply mono_swrite. intros s L. destruct (PutBlockIndex s h r) eqn:E. by eapply PutBlockIndex_law. Qed.
#[global] Instance mono_PutChainTip w h n : Mono (swrite w (fun s => PutChainTip s h n)).
Proof. apply mono_swrite. intros s L. destruct (PutChainTip s h n) eqn:E. by eapply PutChainTip_law. Qed.
#[global] Instance mono_Flush w wb : Mono (swrite w (fun s => FlushUtxoBatch s wb)).
Proof. apply mono_swrite. intros s L. destruct (FlushUtxoBatch s wb) eqn:E. by eapply FlushUtxoBatch_law. Qed.
End wp.

(** Solves [Mono m] along the structure of [m]. *)
Ltac solve_mono :=
  lazymatch goal with
  | |- forall _, _ => intros; solve_mono
  | |- Mono (cbind _ _) => apply mono_bind; solve_mono
  | |- Mono (cmod _) => apply mono_cmod; intros; (reflexivity || (repeat case_match; reflexivity))
  | |- Mono (match ?x with _ => _ end) => destruct x; solve_mono
  | |- Mono (let '(_, _) := ?x in _) => destruct x; solve_mono
  | |- Mono (if ?x then _ else _) => destruct x; solve_mono
  | |- Mono (let _ := _ in _) => cbv zeta; solve_mono
  | |- Mono _ => apply _
  end.

Section mono.
Context {St : Type} `{BS : BlockStore St} {BL : BlockStoreLaws St} `{EN : Engine} `{EC : ECOps} (env : Env).

#[global] Instance mono_persist b u h : Mono (persistUtxoChanges b u h).
Proof. unfold persistUtxoChanges. solve_mono. Qed.
#[global] Instance mono_persist_disconnect b u h : Mono (persistUtxoDisconnect b u h).
Proof. unfold persistUtxoDisconnect. solve_mono. Qed.
#[global] Instance mono_work h : Mono (workForParentChain h).
Proof. unfold workForParentChain. solve_mono. Qed.
#[global] Instance mono_chain_work b : Mono (chain_work b).
Proof. unfold chain_work. solve_mono. Qed.
#[global] Instance mono_extendChain h n w : Mono (extendChain h n w).
Proof. unfold extendChain. solve_mono. Qed.
#[global] Instance mono_disconnect_at h : Mono (disconnect_at h).
Proof. unfold disconnect_at. solve_mono. Qed.
#[global] Instance mono_unlink_at h : Mono (unlink_at h).
Proof. unfold unlink_at. solve_mono. Qed.
#[global] Instance mono_connect_at h x : Mono (connect_at h x).
Proof. unfold connect_at. solve_mono. Qed.
#[global] Instance mono_connect_all h hs acc : Mono (connect_all h hs acc).
Proof. revert h acc. induction hs as [|x hs IH]; intros h acc; cbn [connect_all]; solve_mono. Qed.
#[global] Instance mono_record_undo e : Mono (record_undo e).
Proof. destruct e. unfold record_undo. solve_mono. Qed.
#[global] Instance mono_reorg_body h n w : Mono (reorg_body h n w).
Proof. unfold reorg_body. solve_mono. Qed.
#[global] Instance mono_reorg h n w : Mono (reorg h n w).
Proof.
  intros c. unfold reorg, cloneUtxoSet.
  set (c1 := set_sets _ _ _). pose proof (mono_reorg_body h n w c1) as H.
  destruct (reorg_body h n w c1) as [[[]|e] c2]; intros L; exact (H L).
Qed.
#[global] Instance mono_connect_tip b n : Mono (connect_tip b n).
Proof. unfold connect_tip. solve_mono. Qed.
#[global] Instance mono_or_disconnect {A} b u (m : cM St A) : Mono m -> Mono (or_disconnect b u m).
Proof. intros Hm c. unfold or_disconnect. specialize (Hm c). by destruct (m c) as [[]]. Qed.
#[global] Instance mono_extend_tip b h n w r : Mono (extend_tip b h n w r).
Proof. unfold extend_tip. solve_mono. Qed.
#[global] Instance mono_known_at h n : Mono (known_at h n).
Proof. unfold known_at. solve_mono. Qed.
#[global] Instance mono_check_header b ph n m : Mono (check_header b ph n m).
Proof. unfold check_header. solve_mono. Qed.
#[global] Instance mono_check_block b ph n m t : Mono (check_block b ph n m t).
Proof. unfold check_block. solve_mono. Qed.
#[global] Instance mono_put_ignore h r : Mono (put_index_ignore h r).
Proof.
  intros c. unfold put_index_ignore, live. destruct (PutBlockIndex (c_store c) h r) eqn:E. simpl. intros L.
  by eapply PutBlockIndex_law.
Qed.
#[global] Instance mono_orphan_reorg h n w r : Mono (orphan_reorg h n w r).
Proof.
  unfold orphan_reorg. apply mono_bind; [apply _|]. intros _. apply mono_bind; [apply _|]. intros _ c.
  pose proof (mono_reorg h n w c) as H. destruct (reorg h n w c) as [[[]|e] c2]; [done|].
  intros L. apply H. by destruct (is_too_deep e).
Qed.
#[global] Instance mono_orphan_extend b h n w r : Mono (orphan_extend b h n w r).
Proof.
  unfold orphan_extend. apply mono_bind; [apply _|]. intros u. apply mono_bind; [|solve_mono].
  intros c. unfold live. destruct (WriteUndo _ _ _) as [res s'] eqn:E. simpl. intros L. by eapply WriteUndo_law.
Qed.
#[global] Instance mono_process_orphan h b : Mono (process_orphan env h b).
Proof. unfold process_orphan. solve_mono. Qed.
End mono.

(** *** Rules for the first step of a sequence *)

Section rules.
Context {St : Type} `{BS : BlockStore St} {BL : BlockStoreLaws St}.
Implicit Types (c : Chain St).

Lemma wp_ret {A} (a : A) Q c : Q (Ok a) c -> wp (cret a) Q c.
Proof. by intros H L. Qed.
Lemma wp_fail {A} e (Q : result ChainErr A -> Chain St -> Prop) c : Q (Err e) c -> wp (cfail e) Q c.
Proof. by intros H L. Qed.
Lemma wp_mod f Q c : Q (Ok tt) (f c) -> wp (cmod f) Q c.
Proof. by intros H L. Qed.
Lemma wp_bind_get {A} (k : Chain St -> cM St A) Q c : wp (k c) Q c -> wp (cbind cget k) Q c.
Proof. done. Qed.
Lemma wp_bind_mod {A} f (k : unit -> cM St A) Q c : wp (k tt) Q (f c) -> wp (cbind (cmod f) k) Q c.
Proof. done. Qed.

Lemma wp_bind_read {A B} w (f : St -> result StoreErr A) (k : A -> cM St B) Q c :
  (forall a, f (c_store c) = Ok a -> wp (k a) Q c) ->
  (forall e, f (c_store c) = Err e -> Q (Err (w e)) c) -> wp (cbind (sread w f) k) Q c.
Proof.
  intros Ha He. unfold wp, cbind, sread. destruct (f (c_store c)) as [a|e]; simpl.
  - by apply Ha.
  - intros _. by apply He.
Qed.

Lemma wp_bind_lift {E A B} w (r : result E A) (k : A -> cM St B) Q c :
  (forall a, r = Ok a -> wp (k a) Q c) -> (forall e, r = Err e -> Q (Err (w e)) c) ->
  wp (cbind (clift w r) k) Q c.
Proof.
  intros Ha He. unfold wp, cbind, clift. destruct r as [a|e]; simpl; [by apply Ha|intros _; by apply He].
Qed.

Lemma wp_write {A} w (f : St -> result StoreErr A * St) Q c :
  (forall r s', f (c_store c) = (r, s') -> st_live s' -> Q (rwrap w r) (set_store s' c)) ->
  wp (swrite w f) Q c.
Proof. intros H. unfold wp, swrite, live. destruct (f (c_store c)) as [r s']. simpl. intros L. by apply H. Qed.

Lemma wp_bind_write {A B} w (f : St -> result StoreErr A * St) (k : A -> cM St B) Q c :
  (forall a, Mono (k a)) ->
  (forall r s', f (c_store c) = (r, s') -> st_live s' ->
     match r with
     | Ok a => wp (k a) Q (set_store s' c)
     | Err e => Q (Err (w e)) (set_store s' c)
     end) -> wp (cbind (swrite w f) k) Q c.
Proof.
  intros Hk H. apply wp_bind; [done|]. apply wp_write. intros r s' E L. specialize (H r s' E L). by destruct r.
Qed.

(** A sequence of steps that share an invariant indexed by the part done. *)
Lemma wp_cfor {A} (l : list A) (body : A -> cM St unit) (I : nat -> Chain St -> Prop)
    (Q : result ChainErr unit -> Chain St -> Prop) c :
  (forall x, Mono (body x)) ->
  (forall i x c, l !! i = Some x -> I i c ->
     wp (body x) (fun r c' => match r with Ok _ => I (S i) c' | Err e => Q (Err e) c' end) c) ->
  (forall c, I (length l) c -> Q (Ok tt) c) -> I 0%nat c -> wp (cfor l body) Q c.
Proof.
  intros Hm. revert I c. induction l as [|x l IH]; intros I c Hb HQ H0; cbn [cfor].
  { apply wp_ret. by apply HQ. }
  apply wp_bind; [intros; by apply mono_cfor|].
  eapply wp_conseq; [by apply (Hb 0%nat x)|].
  intros [[]|e] c' H; [|done]. apply (IH (fun i => I (S i))); [|done|done].
  intros i y c1 Hi. by apply (Hb (S i)).
Qed.
End rules.
