(* ===== verification/Reorg.v ===== *)
(** * Reorganisations keep the ledger

    [chain.go]'s [reorg]: the blocks of the old branch are disconnected with their stored
    undo data, those of the new branch validated and connected, and a failure at any point
    restores the fields that were changed.  Either way the invariant of [ChainInv.v]
    holds afterwards. *)
From stdpp Require Import sorting.
From S2P Require Import Prelude Types Sha256 Crypto Target Params Script Utxo TxValidation.
From S2P Require Import BlockValidation Pow Ledger Store Chain ChainInv.
#[local] Open Scope Z_scope.
#[local] Open Scope go_scope.
Import MerkleFacts.

(** ** Stores after a write *)

Section writes.
Context {St : Type} `{BS : BlockStore St} {BL : BlockStoreLaws St} `{EC : ECOps}.
Context (p : ChainParams) (U : list Block).
Implicit Types (s : St).

Lemma flush_rel keep s wb r s' :
  st_ok s -> index_ok p U s -> FlushUtxoBatch s wb = (r, s') -> st_live s' -> store_rel keep s s'.
Proof.
  intros Ho Hi E L. destruct (FlushUtxoBatch_law _ _ _ _ E L) as [_ Hl].
  destruct (Hl Ho) as (Ho' & Hd & Hu & Hv). eapply store_rel_same; [done|done| |by rewrite Hd|by rewrite Hu].
  rewrite Hv. by destruct (is_ok r).
Qed.

Lemma tip_rel keep s h n r s' :
  st_ok s -> index_ok p U s -> PutChainTip s h n = (r, s') -> st_live s' -> store_rel keep s s'.
Proof.
  intros Ho Hi E L. destruct (PutChainTip_law _ _ _ _ _ E L) as [_ Hl].
  destruct (Hl Ho) as (Ho' & Hd & Hu & Hv & _). by eapply store_rel_same; [| | |rewrite Hd|rewrite Hu].
Qed.

Lemma undo_rel keep s f bs r s' :
  st_ok s -> index_ok p U s -> len bs < 2^32 -> WriteUndo s f bs = (r, s') -> st_live s' ->
  store_rel keep s s' /\ forall o n, r = Ok (o, n) -> is_u32 o /\ is_u32 n /\ st_undo s' f o = Some bs.
Proof.
  intros Ho Hi Hb E L. destruct (WriteUndo_law _ _ _ _ _ E L) as [_ Hl].
  destruct (Hl Ho Hb) as (Ho' & Hv & Hd & Hu & Hr). split; [|done].
  eapply store_rel_same; [done|done| |done|done]. by rewrite Hv.
Qed.

Lemma block_rel keep s h b r s' :
  st_ok s -> index_ok p U s -> storable b -> WriteBlock s h b = (r, s') -> st_live s' ->
  store_rel keep s s' /\ forall f o n, r = Ok (f, o, n) ->
    is_u32 f /\ is_u32 o /\ is_u32 n /\ st_data s' f o = Some b.
Proof.
  intros Ho Hi Hb E L. destruct (WriteBlock_law _ _ _ _ _ E L) as [_ Hl].
  destruct (Hl Ho Hb) as (Ho' & Hv & Hd & Hu & Hr). split; [|done].
  eapply store_rel_same; [done|done| |done|done]. by rewrite Hv.
Qed.
End writes.

(** ** Fields *)

Section fields.
Context {St : Type}.
Implicit Types (c : Chain St).

Lemma UtxoSet_of_set us c s :
  (c_utxoSet c < length (c_sets c))%nat -> UtxoSet_of (set_store s (set_utxo us c)) = us.
Proof.
  intros H. unfold UtxoSet_of, set_at. simpl. apply list_lookup_total_insert_eq. done.
Qed.

Lemma set_utxo_set us us' c s :
  set_utxo us' (set_store s (set_utxo us c)) = set_store s (set_utxo us' c).
Proof. destruct c. unfold set_utxo, set_store, set_sets. simpl. by rewrite list_insert_insert_eq. Qed.

Lemma set_store_set s s' c : set_store s' (set_store s c) = set_store s' c.
Proof. done. Qed.

Lemma set_utxo_same c : set_store (c_store c) (set_utxo (UtxoSet_of c) c) = c.
Proof.
  destruct c as [pp st th ht w hbh bhh o sets ptr tk]. unfold set_utxo, set_store, set_sets, UtxoSet_of, set_at. simpl.
  f_equal. destruct (decide (ptr < length sets)%nat) as [H|H].
  - apply list_insert_id. by apply list_lookup_lookup_total_lt.
  - apply list_insert_ge. lia.
Qed.
End fields.

Lemma length_heights_down hi lo : length (heights_down hi lo) = Z.to_nat (hi - lo).
Proof. unfold heights_down. by rewrite length_map, length_seq. Qed.

Lemma heights_down_lookup hi lo j x :
  heights_down hi lo !! j = Some x -> x = hi - Z.of_nat j /\ Z.of_nat j < hi - lo.
Proof.
  unfold heights_down. change (map ?f ?l) with (f <$> l). rewrite list_lookup_fmap_Some.
  intros (i & -> & Hi). apply lookup_seq in Hi as [-> Hj]. split; [f_equal|]; lia.
Qed.

(** ** Disconnecting the old branch *)

Section disconnect.
Context {St : Type} `{BS : BlockStore St} {BL : BlockStoreLaws St} `{EC : ECOps}.
Context (p : ChainParams) (U : list Block) (HU : universe p U).
#[local] Abbreviation genesis := (p_GenesisBlock p).
#[local] Abbreviation idx s := (v_index (st_view s)).
Implicit Types (s : St) (c : Chain St).

(** The hashes of a chain above the genesis block. *)
Definition on_chain (bs : list Block) (h : Hash) : Prop := exists b, b ∈ genesis :: bs /\ block_hash b = h.

Lemma linked_length s prev bs : index_ok p U s -> linked p U s prev 1 bs -> len bs < 2^32 - 2.
Proof.
  intros Hi. destruct bs as [|b bs _] using rev_ind; [simpl; lia|]. intros Hl.
  apply linked_app in Hl as [_ (_ & _ & _ & (r & Hr & Hn) & _)].
  pose proof (height_bound p U HU _ _ _ Hi Hr). rewrite length_app. simpl. lia.
Qed.

Context (c1 : Chain St) (bs : list Block).
Context (Hptr : (c_utxoSet c1 < length (c_sets c1))%nat).
Context (Hok : st_ok (c_store c1)) (Hidx : index_ok p U (c_store c1)).
Context (Hact : active p U (c_store c1) (c_heightByHash c1) (c_hashByHeight c1) (UtxoSet_of c1) bs).
Context (Hundo : forall i b, bs !! i = Some b -> undo_ok p (c_store c1) bs i b).

(** [c] is [c1] but for the store and the unspent set. *)
Definition rolled (us : UtxoSet) c : Prop :=
  exists s, c = set_store s (set_utxo us c1) /\ store_rel (on_chain bs) (c_store c1) s.

Lemma chain_length : len bs < 2^32 - 2.
Proof. eapply linked_length; [exact Hidx|apply (ac_linked _ _ _ _ _ _ _ Hact)]. Qed.

Lemma chain_in : Forall (fun b => b ∈ U) bs.
Proof. eapply linked_Forall. apply (ac_linked _ _ _ _ _ _ _ Hact). Qed.

Lemma bhh_above i b : bs !! i = Some b -> c_hashByHeight c1 !! (Z.of_nat i + 1) = Some (block_hash b).
Proof.
  intros Hi. rewrite (ac_bhh _ _ _ _ _ _ _ Hact). destruct (Z.ltb_spec (Z.of_nat i + 1) 0); [lia|].
  replace (Z.to_nat (Z.of_nat i + 1)) with (S i) by lia. simpl. by rewrite Hi.
Qed.

Lemma disconnect_at_wp i b us c :
  bs !! i = Some b -> replay p (take (S i) bs) = Some us -> rolled us c ->
  wp (disconnect_at (Z.of_nat i + 1))
    (fun r c' => exists us', rolled us' c' /\ (r = Ok tt -> replay p (take i bs) = Some us')) c.
Proof.
  intros Hi Hr (s & -> & R). pose proof (rel_index_ok _ _ _ _ _ R Hidx) as Hidx'.
  pose proof (sr_ok _ _ _ R) as Hok'. pose proof chain_length as Hlen.
  destruct (linked_lookup _ _ _ _ _ _ _ _ (ac_linked _ _ _ _ _ _ _ Hact) Hi) as (Hin & Hv & _).
  unfold disconnect_at. apply wp_bind_get. change (c_hashByHeight (set_store s _)) with (c_hashByHeight c1).
  rewrite (bhh_above i b Hi).
  assert (forall e : ChainErr, exists us', rolled us' (set_store s (set_utxo us c1))
    /\ (Err e = Ok tt -> replay p (take i bs) = Some us')) as Hfail.
  { intros e. exists us. split; [by exists s|done]. }
  apply wp_bind_read; [|intros; apply Hfail]. intros b' Hb'.
  destruct (GetBlock_rec p U s _ _ Hok' Hidx' Hb') as (r & Hir & Hrec).
  assert (b' = b) as -> by (eapply (rec_unique p U HU); [exact Hrec|exact Hin|exact Hv|done]).
  apply wp_bind_read; [|intros; apply Hfail]. intros r' Hr'. apply GetBlockIndex_sound in Hr'; [|done].
  assert (r' = r) as -> by (simpl in Hr'; congruence).
  destruct (has_flag (bi_Status r) StatusHaveUndo) eqn:Hflag; cbn [negb]; [|apply wp_fail, Hfail].
  assert (undo_ok p s bs i b) as Hu.
  { eapply rel_undo_ok; [exact R| |by apply Hundo]. exists b. split; [|done].
    apply elem_of_cons. right. by eapply list_elem_of_lookup_2. }
  destruct (Hu r Hir Hflag) as (us0 & us0' & undo & E0 & EC0 & Hun).
  apply wp_bind_read; [|intros; apply Hfail]. intros bytes Hbytes.
  eapply ReadUndo_sound in Hbytes; [|done|exact Hun]. subst bytes.
  assert (length (take i bs) = i) as Hti by (apply length_take_le; apply lookup_lt_Some in Hi; lia).
  assert (Z.of_nat i < len bs) as Hil by (apply lookup_lt_Some in Hi; lia).
  pose proof chain_in as HinU.
  rewrite (replay_undo p (un_genesis_ok _ _ HU) (take i bs) b us0 us0' undo);
    [|done|by rewrite Hti|apply (un_txs HU), Forall_take, HinU|by apply (un_wf HU)|rewrite Hti; lia].
  apply wp_bind_lift; [|intros; apply Hfail]. intros undo' [= <-]. apply wp_bind_mod.
  rewrite UtxoSet_of_set by done. rewrite set_utxo_set.
  rewrite (take_S_r _ _ b Hi), replay_snoc, E0, Hti in Hr.
  pose proof Hr as Hc. apply connect_step_Ok in Hc as (_ & _ & [undo2 EC2]).
  rewrite EC0 in EC2. injection EC2 as -> _.
  rewrite (replay_disconnect p (un_genesis_ok _ _ HU) (un_params _ _ HU) (take i bs) b us0 us undo);
    try (rewrite ?Hti; done || lia).
  2:{ rewrite <- (take_S_r _ _ b Hi). apply (un_txs HU), Forall_take, HinU. }
  2:{ rewrite <- (take_S_r _ _ b Hi). apply (un_history HU), Forall_take, HinU. }
  unfold persistUtxoDisconnect. apply wp_write. intros res s' Ew L. exists us0. split; [|done].
  exists s'. split; [done|]. eapply store_rel_trans; [exact R|]. by eapply flush_rel.
Qed.


Lemma disconnect_all_wp k :
  (k <= length bs)%nat ->
  wp (cfor (heights_down (len bs) (Z.of_nat k)) disconnect_at)
    (fun r c' => exists us, rolled us c' /\ (r = Ok tt -> replay p (take k bs) = Some us)) c1.
Proof.
  intros Hk.
  apply (wp_cfor _ _ (fun j c => exists us, rolled us c /\ replay p (take (length bs - j) bs) = Some us)).
  - apply _.
  - intros j h c Hj (us & Hrl & Hr). apply heights_down_lookup in Hj as [-> Hj].
    destruct (bs !! (length bs - j - 1)%nat) as [b|] eqn:Hb; [|apply lookup_ge_None in Hb; lia].
    replace (len bs - Z.of_nat j) with (Z.of_nat (length bs - j - 1) + 1) by lia.
    eapply wp_conseq; [eapply disconnect_at_wp; [exact Hb| |exact Hrl]|].
    + by replace (S (length bs - j - 1)) with (length bs - j)%nat by lia.
    + intros [[]|e] c' (us' & Hrl' & Hr'); [|by exists us'].
      exists us'. split; [done|]. replace (length bs - S j)%nat with (length bs - j - 1)%nat by lia. by apply Hr'.
  - intros c (us & Hrl & Hr). exists us. split; [done|]. intros _.
    rewrite length_heights_down in Hr. by replace (length bs - _)%nat with k in Hr by lia.
  - exists (UtxoSet_of c1). split.
    + exists (c_store c1). split; [symmetry; apply set_utxo_same|]. by eapply store_rel_refl.
    + rewrite Nat.sub_0_r, take_ge by done. apply (ac_replay _ _ _ _ _ _ _ Hact).
Qed.
End disconnect.

(** ** Finding the fork *)

Section walk.
Context {St : Type} `{BS : BlockStore St} {BL : BlockStoreLaws St} `{EC : ECOps}.
Context (p : ChainParams) (U : list Block) (HU : universe p U).
#[local] Abbreviation genesis := (p_GenesisBlock p).
#[local] Abbreviation idx s := (v_index (st_view s)).
Implicit Types (s : St) (c : Chain St).

Context (c : Chain St) (bs : list Block) (us : UtxoSet).
Context (Hok : st_ok (c_store c)) (Hidx : index_ok p U (c_store c)).
Context (Hhts : heights_ok p U (c_heightByHash c)).
Context (Hact : active p U (c_store c) (c_heightByHash c) (c_hashByHeight c) us bs).

Lemma chain_index h : on_chain p bs h <-> exists z, c_hashByHeight c !! z = Some h.
Proof.
  split.
  - intros (b & Hb & <-). apply list_elem_of_lookup in Hb as [i Hi]. exists (Z.of_nat i).
    rewrite (ac_bhh _ _ _ _ _ _ _ Hact). destruct (Z.ltb_spec (Z.of_nat i) 0); [lia|].
    by rewrite Nat2Z.id, Hi.
  - intros [z Hz]. rewrite (ac_bhh _ _ _ _ _ _ _ Hact) in Hz. destruct (z <? 0); [done|].
    destruct ((genesis :: bs) !! Z.to_nat z) as [b|] eqn:E; [|done]. injection Hz as <-.
    exists b. split; [by eapply list_elem_of_lookup_2|done].
Qed.

Lemma main_test h :
  match c_heightByHash c !! h with
  | Some n => bool_decide (default ZeroHash (c_hashByHeight c !! n) = h)
  | None => false
  end = true ->
  (exists r, idx (c_store c) !! h = Some r) ->
  exists k, c_heightByHash c !! h = Some (Z.of_nat k) /\ (k <= length bs)%nat
    /\ last_hash (block_hash genesis) (take k bs) = h.
Proof.
  intros H [r Hr]. destruct (c_heightByHash c !! h) as [n|] eqn:En; [|done]. bool_to_prop.
  rewrite (ac_bhh _ _ _ _ _ _ _ Hact) in H.
  assert (h <> ZeroHash) as Hnz.
  { destruct (Hidx h r Hr) as [b Hb]. rewrite <- (ro_hash _ _ _ _ _ _ Hb).
    pose proof (un_nonzero _ _ HU) as Hz. rewrite Forall_forall in Hz. apply Hz, Hb. }
  destruct (Z.ltb_spec n 0); [done|]. exists (Z.to_nat n). rewrite Z2Nat.id by done. split; [done|].
  destruct (Z.to_nat n) as [|k] eqn:Ek; simpl in H.
  - split; [lia|]. done.
  - destruct (bs !! k) as [b|] eqn:Eb; simpl in H; [|done]. split; [apply lookup_lt_Some in Eb; lia|].
    by rewrite (take_S_r _ _ b Eb), last_hash_snoc.
Qed.

Lemma main_test_false h :
  match c_heightByHash c !! h with
  | Some n => bool_decide (default ZeroHash (c_hashByHeight c !! n) = h)
  | None => false
  end = false -> ~ on_chain p bs h.
Proof.
  intros H (b & Hb & <-). apply list_elem_of_lookup in Hb as [i Hi].
  rewrite (ac_hbh _ _ _ _ _ _ _ Hact i b Hi), (ac_bhh _ _ _ _ _ _ _ Hact) in H.
  destruct (Z.ltb_spec (Z.of_nat i) 0); [lia|]. rewrite Nat2Z.id, Hi in H. simpl in H.
  by rewrite bool_decide_true in H.
Qed.

(** A stored block off the chain has a stored parent one below it. *)
Lemma off_chain_parent h r b :
  idx (c_store c) !! h = Some r -> rec_ok p U (c_store c) h r b -> ~ on_chain p bs h ->
  exists pr, idx (c_store c) !! hdr_PrevBlock (blk_Header b) = Some pr /\ bi_Height r = bi_Height pr + 1.
Proof.
  intros Hr Hb Hoff. destruct (ro_parent _ _ _ _ _ _ Hb) as [[-> _]|(pr & w & ? & ? & _)]; [|eauto].
  exfalso. apply Hoff. exists genesis. split; [set_solver|apply Hb].
Qed.

Lemma walk_spec fuel cur acc nc :
  reorg_walk fuel c cur (acc ++ [cur]) = Ok nc -> ~ on_chain p bs cur ->
  exists nbs k, nc = acc ++ rev (map (fun b => block_hash b) nbs) /\ nbs <> []
    /\ last_hash ZeroHash nbs = cur /\ (k <= length bs)%nat
    /\ linked p U (c_store c) (last_hash (block_hash genesis) (take k bs)) (Z.of_nat k + 1) nbs
    /\ (forall b0 rest, nbs = b0 :: rest ->
          c_heightByHash c !! hdr_PrevBlock (blk_Header b0) = Some (Z.of_nat k))
    /\ Forall (fun b => ~ on_chain p bs (block_hash b)) nbs.
Proof.
  revert cur acc nc. induction fuel as [|fuel IH]; intros cur acc nc H Hoff; cbn [reorg_walk] in H; [done|].
  apply rbind_Ok in H as (b & Hb & H). apply rwrap_Ok in Hb.
  destruct (GetBlock_rec p U _ _ _ Hok Hidx Hb) as (r & Hr & Hrec).
  destruct (off_chain_parent cur r b Hr Hrec Hoff) as (pr & Hpr & Hh).
  pose proof (ro_hash _ _ _ _ _ _ Hrec) as Hcur. set (prev := hdr_PrevBlock (blk_Header b)) in *.
  destruct (match c_heightByHash c !! prev with Some _ => _ | None => _ end) eqn:Et.
  - injection H as <-. destruct (main_test prev Et) as (k & Hk & Hle & Hlast); [eauto|].
    pose proof (heights_rec p U HU _ _ _ _ _ Hidx (ac_genesis _ _ _ _ _ _ _ Hact) Hhts Hk Hpr) as Hhp. exists [b], k. cbn [map rev app linked].
    split_and!; try done.
    + by rewrite Hcur.
    + apply Hrec.
    + rewrite <- Hhp, <- Hh. apply Hrec.
    + exists r. rewrite Hcur. split; [done|lia].
    + by intros b0 rest [= <- <-].
    + apply Forall_singleton. by rewrite Hcur.
  - apply IH in H as (nbs & k & -> & Hne & Hlast & Hk & Hl & Hf & Hoffs); [|by apply main_test_false].
    assert (last_hash (last_hash (block_hash genesis) (take k bs)) nbs = prev) as Hlast'.
    { destruct nbs as [|x nbs _] using rev_ind; [done|]. by rewrite last_hash_snoc in *. }
    assert (bi_Height pr = Z.of_nat k + len nbs) as Hhp.
    { destruct nbs as [|x nbs _] using rev_ind; [done|]. rewrite last_hash_snoc in Hlast.
      apply linked_app in Hl as [_ (_ & _ & _ & (rx & Hrx & Hhx) & _)].
      rewrite Hlast in Hrx. rewrite length_app. simpl length. assert (rx = pr) as <- by congruence. lia. }
    exists (nbs ++ [b]), k. split_and!.
    + rewrite map_app, rev_app_distr. cbn [map rev app]. by rewrite Hcur, <- app_assoc.
    + by destruct nbs.
    + by rewrite last_hash_snoc.
    + done.
    + apply linked_app. split; [done|]. cbn [linked]. rewrite Hlast'.
      replace (Z.of_nat k + 1 + len nbs) with (bi_Height r) by lia.
      split_and!; [done|apply Hrec|apply Hrec|exists r; by rewrite Hcur|done].
    + intros b0 rest E. destruct nbs as [|x nbs]; [done|]. injection E as <- _. by eapply Hf.
    + apply Forall_app. split; [done|]. apply Forall_singleton. by rewrite Hcur.
Qed.

Lemma walk_terminates fuel cur acc r :
  idx (c_store c) !! cur = Some r -> ~ on_chain p bs cur -> bi_Height r < Z.of_nat fuel ->
  reorg_walk fuel c cur acc <> Err WalkDiverges.
Proof.
  revert cur acc r. induction fuel as [|fuel IH]; intros cur acc r Hr Hoff Hlt; cbn [reorg_walk].
  { pose proof (rec_height_nonneg p U _ _ _ Hidx Hr). lia. }
  destruct (GetBlock (c_store c) cur) as [b|e] eqn:Hb; [|done]. cbn [rwrap rbind].
  destruct (GetBlock_rec p U _ _ _ Hok Hidx Hb) as (r' & Hr' & Hrec).
  assert (r' = r) as -> by congruence.
  destruct (off_chain_parent cur r b Hr Hrec Hoff) as (pr & Hpr & Hh).
  destruct (match c_heightByHash c !! _ with Some _ => _ | None => _ end) eqn:Et; [done|].
  eapply IH; [exact Hpr|by apply main_test_false|lia].
Qed.
End walk.

(** ** The size of undo data *)

Lemma in_Serialize_length i : wf_input i -> 41 <= len (in_Serialize i).
Proof.
  intros ([Hh _] & Hs & _). unfold in_Serialize. rewrite !length_app, !length_PutUint32LE.
  unfold wf_hash, HashSize in Hh. pose proof (VarIntSize_bounds (len (in_SignatureScript i))).
  pose proof (length_PutVarInt (len (in_SignatureScript i)) ltac:(by apply script_len_u64)). lia.
Qed.

Lemma spends_size txs :
  Forall wf_tx txs -> 41 * len (spends txs) <= len (concat (map tx_Serialize txs)).
Proof.
  induction 1 as [|tx txs Hw _ IH]; [simpl; lia|]. rewrite spends_cons. cbn [map concat]. rewrite !length_app.
  enough (41 * len (tx_spends tx) <= len (tx_Serialize tx)) by lia.
  destruct Hw as (_ & _ & Hi & _). unfold tx_spends, tx_Serialize. rewrite !length_app.
  assert (41 * len (tx_Inputs tx) <= len (concat (map in_Serialize (tx_Inputs tx)))) as Hl.
  { clear -Hi. induction Hi as [|i l Hw _ IH]; [simpl; lia|]. cbn [map concat length]. rewrite length_app.
    pose proof (in_Serialize_length i Hw). lia. }
  destruct (tx_IsCoinbase tx); rewrite ?length_map; simpl length; lia.
Qed.

Section undo_size.
Context `{EC : ECOps} (p : ChainParams) (U : list Block) (HU : universe p U).

Lemma undo_bytes_small bs b us us' undo :
  Forall (fun b => b ∈ U) bs -> b ∈ U -> len bs + 1 < 2^32 ->
  ValidateBlockStructure b (len bs + 1) p = Ok tt ->
  replay p bs = Some us -> ConnectBlock us b (len bs + 1) = Ok (us', undo) ->
  len (SerializeUndoData undo) < 2^32.
Proof.
  intros Hbs Hb Hl Hv Hr HC.
  pose proof (un_storable _ _ HU) as Hst. rewrite Forall_forall in Hst. destruct (Hst b Hb) as [Hw Hsz].
  pose proof (replay_undo_entries p (un_genesis_ok _ _ HU) bs b us us' undo Hr HC (un_txs HU bs Hbs) Hw Hl) as Hsp.
  apply undo_length in Hsp. apply ConnectBlock_Ok in HC as (_ & Hk & _ & _).
  apply (f_equal length) in Hk. rewrite length_map in Hk.
  apply ValidateBlockStructure_Ok in Hv as (_ & _ & _ & _ & Hmax & _).
  rewrite u32_small in Hmax by (unfold is_u32; lia). pose proof (un_block_size _ _ HU).
  destruct Hw as (_ & Hwt & _). pose proof (spends_size _ Hwt) as Hs41.
  unfold blk_Serialize in Hmax. rewrite !length_app in Hmax.
  unfold SerializeUndoData. rewrite length_app.
  pose proof (VarIntSize_bounds (len undo)).
  pose proof (length_PutVarInt (len undo) ltac:(unfold is_u64; lia)). lia.
Qed.
End undo_size.

(** ** Connecting the new branch *)

Section connect.
Context {St : Type} `{BS : BlockStore St} {BL : BlockStoreLaws St} `{EC : ECOps}.
Context (p : ChainParams) (U : list Block) (HU : universe p U).
#[local] Abbreviation genesis := (p_GenesisBlock p).
#[local] Abbreviation idx s := (v_index (st_view s)).
Implicit Types (s : St) (c : Chain St).

(** [c'] differs from [c] at most in the current unspent set, the tip and the maps of
    heights, and in the store as [store_rel] allows. *)
Record touched (keep : Hash -> Prop) c c' : Prop := {
  to_params : c_params c' = c_params c;
  to_orphans : c_orphans c' = c_orphans c;
  to_ptr : c_utxoSet c' = c_utxoSet c;
  to_len : length (c_sets c') = length (c_sets c);
  to_sets : forall i, i <> c_utxoSet c -> c_sets c' !! i = c_sets c !! i;
  to_store : store_rel keep (c_store c) (c_store c') }.

Lemma touched_trans keep c1 c2 c3 : touched keep c1 c2 -> touched keep c2 c3 -> touched keep c1 c3.
Proof.
  intros [P1 O1 T1 L1 S1 R1] [P2 O2 T2 L2 S2 R2]. constructor; try congruence.
  - intros i Hi. rewrite S2 by congruence. by apply S1.
  - by eapply store_rel_trans.
Qed.

Lemma rolled_touched c1 bs us c : rolled p c1 bs us c -> touched (on_chain p bs) c1 c.
Proof.
  intros (s & -> & R). constructor; try done; simpl.
  - apply length_insert.
  - intros i Hi. by apply list_lookup_insert_ne.
Qed.

Lemma heights_touched keep c hbh bhh :
  st_ok (c_store c) -> index_ok p U (c_store c) -> touched keep c (set_heights hbh bhh c).
Proof. intros Ho Hi. constructor; try done. by eapply store_rel_refl. Qed.

Lemma unlink_wp c bs k :
  st_ok (c_store c) -> index_ok p U (c_store c) -> (k <= length bs)%nat ->
  (forall i b, bs !! i = Some b -> c_hashByHeight c !! (Z.of_nat i + 1) = Some (block_hash b)) ->
  wp (cfor (heights_up (Z.of_nat k) (len bs)) unlink_at)
    (fun r c' => r = Ok tt /\ exists hbh bhh, c' = set_heights hbh bhh c
       /\ (forall z, bhh !! z = if (Z.of_nat k <? z) && (z <=? len bs) then None else c_hashByHeight c !! z)
       /\ (forall h, hbh !! h = if bool_decide (h ∈ map (fun b => block_hash b) (drop k bs)) then None
                                else c_heightByHash c !! h)) c.
Proof.
  intros Ho Hi Hk Hb.
  apply (wp_cfor _ _ (fun j c' => exists hbh bhh, c' = set_heights hbh bhh c
     /\ (forall z, bhh !! z = if (Z.of_nat k <? z) && (z <=? Z.of_nat (k + j)) then None else c_hashByHeight c !! z)
     /\ (forall h, hbh !! h = if bool_decide (h ∈ map (fun b => block_hash b) (take j (drop k bs))) then None
                              else c_heightByHash c !! h))).
  - apply _.
  - intros j z c' Hj (hbh & bhh & -> & Hz & Hh). unfold heights_up in Hj.
    change (map ?f ?l) with (f <$> l) in Hj. apply list_lookup_fmap_Some in Hj as (i & -> & Hj).
    apply lookup_seq in Hj as [-> Hj]. simpl in Hj. unfold unlink_at. apply wp_mod. cbn [c_hashByHeight set_heights set_main].
    destruct (bs !! (k + j)%nat) as [b|] eqn:Eb; [|apply lookup_ge_None in Eb; lia].
    replace (Z.of_nat k + 1 + Z.of_nat (0 + j)) with (Z.of_nat (k + j) + 1) by lia.
    rewrite Hz. destruct (Z.leb_spec (Z.of_nat (k + j) + 1) (Z.of_nat (k + j))); [lia|].
    rewrite andb_false_r, (Hb _ _ Eb). eexists _, _. split; [reflexivity|]. split.
    + intros z. destruct (decide (z = Z.of_nat (k + j) + 1)) as [->|Hne].
      * rewrite lookup_delete_eq. destruct (Z.ltb_spec (Z.of_nat k) (Z.of_nat (k + j) + 1)); [|lia].
        by destruct (Z.leb_spec (Z.of_nat (k + j) + 1) (Z.of_nat (k + S j))); [|lia].
      * rewrite lookup_delete_ne, Hz by done.
        destruct (Z.leb_spec z (Z.of_nat (k + j))), (Z.leb_spec z (Z.of_nat (k + S j))); try done; lia.
    + intros h. assert (drop k bs !! j = Some b) as Ed by (by rewrite lookup_drop).
      rewrite (take_S_r _ _ b Ed), map_app. cbn [map].
      destruct (decide (h = block_hash b)) as [->|Hne].
      * rewrite lookup_delete_eq, bool_decide_true; [done|]. apply elem_of_app. right. set_solver.
      * rewrite lookup_delete_ne, Hh by done. erewrite bool_decide_ext; [done|]. rewrite elem_of_app. set_solver.
  - intros c' (hbh & bhh & -> & Hz & Hh). split; [done|]. exists hbh, bhh. split; [done|].
    unfold heights_up in Hz, Hh. rewrite length_map, length_seq in Hz, Hh.
    replace (k + Z.to_nat (len bs - Z.of_nat k))%nat with (length bs) in Hz by lia. split; [done|].
    intros h. rewrite Hh. by rewrite take_ge by (rewrite length_drop; lia).
  - exists (c_heightByHash c), (c_hashByHeight c). split; [by destruct c|]. split; [|done].
    intros z. destruct (Z.ltb_spec (Z.of_nat k) z), (Z.leb_spec z (Z.of_nat (k + 0))); try done; lia.
Qed.

(** The maps after the old branch is unlinked describe the part below the fork. *)
Lemma active_unlink s hbh bhh us us' bs k hbh' bhh' :
  active p U s hbh bhh us bs -> (k <= length bs)%nat -> replay p (take k bs) = Some us' ->
  (forall z, bhh' !! z = if (Z.of_nat k <? z) && (z <=? len bs) then None else bhh !! z) ->
  (forall h, hbh' !! h = if bool_decide (h ∈ map (fun b => block_hash b) (drop k bs)) then None else hbh !! h) ->
  active p U s hbh' bhh' us' (take k bs).
Proof.
  intros [Hg Hl Hb Hh Hr] Hk Hr' Hz Hh'. constructor; try done.
  - rewrite <- (take_drop k bs) in Hl. by apply linked_app in Hl as [? _].
  - intros z. rewrite Hz, Hb. destruct (Z.ltb_spec z 0).
    { by destruct (_ && _). }
    destruct (Z.ltb_spec (Z.of_nat k) z) as [Hkz|Hkz]; cbn [andb].
    + rewrite (lookup_ge_None_2 (genesis :: take k bs)) by (cbn [length]; rewrite length_take; lia).
      destruct (Z.leb_spec z (len bs)); [done|].
      by rewrite (lookup_ge_None_2 (genesis :: bs)) by (cbn [length]; lia).
    + destruct (Z.to_nat z) as [|i] eqn:Ei; [done|].
      change ((fun b => block_hash b) <$> bs !! i = (fun b => block_hash b) <$> take k bs !! i).
      by rewrite lookup_take_lt by lia.
  - intros i b Hi.
    assert ((genesis :: bs) !! i = Some b) as Hi'.
    { destruct i as [|i]; [done|]. change (take k bs !! i = Some b) in Hi. change (bs !! i = Some b).
      by apply lookup_take_Some in Hi as []. }
    rewrite Hh'. rewrite bool_decide_false; [by apply Hh|]. intros Hin.
    apply list_elem_of_fmap in Hin as (b' & E & Hb'). apply list_elem_of_lookup in Hb' as [j Hj].
    rewrite lookup_drop in Hj. pose proof (Hh (S (k + j)) b' Hj) as H1.
    pose proof (Hh i b Hi') as H2. rewrite E in H2. rewrite H1 in H2. injection H2 as H2.
    assert (i <= k)%nat; [|lia].
    destruct i as [|i]; [lia|]. change (take k bs !! i = Some b) in Hi. apply lookup_lt_Some in Hi.
    rewrite length_take in Hi. lia.
Qed.

(** *** One block on top *)

Lemma active_heights s hbh bhh us bs i b :
  active p U s hbh bhh us bs -> (genesis :: bs) !! i = Some b ->
  exists r, idx s !! block_hash b = Some r /\ bi_Height r = Z.of_nat i.
Proof.
  intros Ha Hi. destruct i as [|i].
  - injection Hi as <-. apply (ac_genesis _ _ _ _ _ _ _ Ha).
  - destruct (linked_lookup _ _ _ _ _ _ _ _ (ac_linked _ _ _ _ _ _ _ Ha) Hi) as (_ & _ & r & ? & ?).
    exists r. split; [done|lia].
Qed.

Lemma heights_ok_insert hbh b n :
  heights_ok p U hbh -> b ∈ U -> block_hash b <> block_hash genesis -> 0 < n ->
  ValidateBlockStructure b n p = Ok tt -> heights_ok p U (<[block_hash b := n]> hbh).
Proof.
  intros H Hb Hne Hn Hv h' n' Hl. destruct (decide (block_hash b = h')) as [<-|].
  - rewrite lookup_insert_eq in Hl. injection Hl as <-. right. split_and!; [done|done|by exists b].
  - rewrite lookup_insert_ne in Hl by done. by apply H.
Qed.

Lemma active_snoc s hbh bhh us us' bs b :
  active p U s hbh bhh us bs ->
  linked p U s (last_hash (block_hash genesis) bs) (len bs + 1) [b] ->
  connect_step p us (len bs + 1) b = Some us' ->
  active p U s (<[block_hash b := len bs + 1]> hbh) (<[len bs + 1 := block_hash b]> bhh) us' (bs ++ [b]).
Proof.
  intros Ha Hlb Hc. pose proof Ha as [Hg Hl Hb Hh Hr]. pose proof Hlb as (_ & _ & _ & (r & Hri & Hrh) & _).
  constructor; try done.
  - apply linked_app. split; [done|]. by rewrite Z.add_comm.
  - intros z. destruct (decide (z = len bs + 1)) as [->|Hne].
    + rewrite lookup_insert_eq. destruct (Z.ltb_spec (len bs + 1) 0); [lia|].
      replace (Z.to_nat (len bs + 1)) with (length (genesis :: bs)) by (cbn [length]; lia).
      rewrite app_comm_cons, list_lookup_middle by done. done.
    + rewrite lookup_insert_ne, Hb by done. destruct (Z.ltb_spec z 0); [done|].
      destruct (decide (z < len bs + 1)).
      * by rewrite app_comm_cons, lookup_app_l by (cbn [length]; lia).
      * by rewrite !lookup_ge_None_2 by (cbn [length]; rewrite ?length_app; simpl; lia).
  - intros i b' Hi. rewrite app_comm_cons in Hi. apply lookup_app_Some in Hi as [Hi|[Hle Hi]].
    + rewrite lookup_insert_ne; [by apply Hh|]. intros E.
      destruct (active_heights _ _ _ _ _ _ _ Ha Hi) as (r' & Hr' & Hh'). rewrite <- E in Hr'.
      apply lookup_lt_Some in Hi. cbn [length] in Hi. assert (r' = r) as -> by congruence. lia.
    + apply list_lookup_singleton_Some in Hi as [Hi <-]. rewrite lookup_insert_eq. f_equal.
      cbn [length] in *. lia.
  - rewrite replay_snoc, Hr. done.
Qed.

Record conn_state c (bs : list Block) : Prop := {
  cn_params : c_params c = p;
  cn_store : st_ok (c_store c);
  cn_index : index_ok p U (c_store c);
  cn_heights : heights_ok p U (c_heightByHash c);
  cn_ptr : (c_utxoSet c < length (c_sets c))%nat;
  cn_active : active p U (c_store c) (c_heightByHash c) (c_hashByHeight c) (UtxoSet_of c) bs }.

Lemma touched_utxo keep c us s :
  store_rel keep (c_store c) s -> touched keep c (set_store s (set_utxo us c)).
Proof.
  intros R. constructor; try done; simpl; [apply length_insert|].
  intros i Hi. by apply list_lookup_insert_ne.
Qed.

Lemma conn_refl keep c bs : conn_state c bs -> touched keep c c.
Proof. intros H. constructor; try done. eapply store_rel_refl; [apply H|apply H]. Qed.

Definition undo_for (bs : list Block) (b : Block) (undo : BlockUndoData) : Prop :=
  exists us us', replay p bs = Some us /\ ConnectBlock us b (len bs + 1) = Ok (us', undo).

Lemma connect_at_wp keep c bs b :
  conn_state c bs -> linked p U (c_store c) (last_hash (block_hash genesis) bs) (len bs + 1) [b] ->
  wp (connect_at (len bs + 1) (block_hash b))
    (fun r c' => touched keep c c' /\ forall undo, r = Ok undo ->
       conn_state c' (bs ++ [b]) /\ undo_for bs b undo) c.
Proof.
  intros Hc Hl. pose proof Hc as [Hp Ho Hi Hh Hpt Ha]. pose proof Hl as (_ & Hin & Hv & (r & Hri & Hrh) & _).
  unfold connect_at. apply wp_bind_read; [|intros; split; [by eapply conn_refl|done]].
  intros b' Hb'. destruct (GetBlock_rec p U _ _ _ Ho Hi Hb') as (r' & Hr' & Hrec).
  assert (b' = b) as -> by (eapply (rec_unique p U HU); [exact Hrec|exact Hin|exact Hv|done]).
  apply wp_bind_get. apply wp_bind_lift; [|intros; split; [by eapply conn_refl|done]]. intros fees Hfees.
  apply wp_bind_lift; [|intros; split; [by eapply conn_refl|done]]. intros [us' undo] HC.
  assert (connect_step p (UtxoSet_of c) (len bs + 1) b = Some us') as Hstep.
  { unfold connect_step. rewrite Hv. rewrite Hp in Hfees. by rewrite Hfees, HC. }
  apply wp_bind_mod. unfold persistUtxoChanges. apply wp_bind; [intros; solve_mono|]. apply wp_bind_get.
  apply wp_write. intros res s' Ew L. simpl in Ew.
  pose proof (flush_rel p U keep _ _ _ _ Ho Hi Ew L) as R.
  assert (touched keep c (set_store s' (set_utxo us' c))) as Ht by (by apply touched_utxo).
  destruct res as [[]|e]; cbn [rwrap]; [|by split]. apply wp_bind_mod, wp_ret. split.
  { destruct Ht. by constructor. }
  intros undo' [= <-]. split; [|by exists (UtxoSet_of c), us'; split; [apply Ha|]].
  pose proof (UtxoSet_of_set us' c s' Hpt) as Eu.
  constructor; try done.
  - apply R.
  - by eapply rel_index_ok.
  - apply heights_ok_insert; try done; [|lia]. intros E. rewrite E in Hri.
    destruct (ac_genesis _ _ _ _ _ _ _ Ha) as (g & Hg & Hg0). assert (r = g) as -> by congruence. lia.
  - simpl. by rewrite length_insert.
  - change (UtxoSet_of (set_heights _ _ _)) with (UtxoSet_of (set_store s' (set_utxo us' c))). rewrite Eu.
    eapply active_snoc; [by eapply rel_active| |exact Hstep]. by eapply rel_linked.
Qed.

Fixpoint undos_for (bs nbs : list Block) (con : list (Hash * BlockUndoData)) : Prop :=
  match nbs, con with
  | [], [] => True
  | b :: nbs, (h, undo) :: con => h = block_hash b /\ undo_for bs b undo /\ undos_for (bs ++ [b]) nbs con
  | _, _ => False
  end.

Lemma connect_all_wp keep nbs : forall c bs acc,
  conn_state c bs -> linked p U (c_store c) (last_hash (block_hash genesis) bs) (len bs + 1) nbs ->
  wp (connect_all (len bs + 1) (map (fun b => block_hash b) nbs) acc)
    (fun r c' => touched keep c c' /\ forall con, r = Ok con ->
       conn_state c' (bs ++ nbs) /\ exists con', con = acc ++ con' /\ undos_for bs nbs con') c.
Proof.
  induction nbs as [|b nbs IH]; intros c bs acc Hc Hl; cbn [map connect_all].
  { apply wp_ret. split; [by eapply conn_refl|]. intros con [= <-]. rewrite app_nil_r. split; [done|].
    exists []. by rewrite app_nil_r. }
  change (b :: nbs) with ([b] ++ nbs) in Hl. apply linked_app in Hl as [Hl1 Hl2].
  apply wp_bind; [intros; apply mono_connect_all|]. eapply wp_conseq; [by apply (connect_at_wp keep)|].
  intros [undo|e] c1 [Ht Hok]; [|by split]. destruct (Hok undo eq_refl) as [Hc1 Hu].
  pose proof (linked_length p U HU _ _ _ (cn_index _ _ Hc1) (ac_linked _ _ _ _ _ _ _ (cn_active _ _ Hc1))) as Hlen.
  rewrite length_app in Hlen. simpl length in Hlen.
  assert (add32 (len bs + 1) 1 = len (bs ++ [b]) + 1) as ->.
  { rewrite length_app. simpl length. unfold add32. rewrite u32_small; unfold is_u32; lia. }
  eapply wp_conseq; [apply (IH c1 (bs ++ [b])); [done|]|].
  - rewrite length_app, last_hash_snoc. simpl length.
    replace (Z.of_nat (length bs + 1) + 1) with (len bs + 1 + len [b]) by (simpl; lia).
    eapply rel_linked; [apply (to_store _ _ _ Ht)|exact Hl2].
  - intros r c2 [Ht2 Hok2]. split; [by eapply touched_trans|]. intros con ->.
    destruct (Hok2 con eq_refl) as [Hc2 (con' & -> & Hus)]. rewrite <- app_assoc in Hc2. split; [done|].
    exists ((block_hash b, undo) :: con'). split; [by rewrite <- app_assoc|done].
Qed.

(** *** Recording the undo data *)

Lemma put_core_rel (keep : Hash -> Prop) s h r r' res s' :
  st_ok s -> index_ok p U s -> idx s !! h = Some r -> same_core r r' -> wf_index r' -> ~ keep h ->
  PutBlockIndex s h r' = (res, s') -> st_live s' ->
  store_rel keep s s' /\ (is_ok res = true -> idx s' !! h = Some r').
Proof.
  intros Ho Hi Hr Hc W Hk E L. destruct (PutBlockIndex_law _ _ _ _ _ E L) as [_ Hl].
  destruct (Hl Ho W) as (Ho' & Hd & Hu & Hv). destruct (is_ok res) eqn:Er.
  - split; [|intros _; rewrite Hv; simpl; apply lookup_insert_eq].
    constructor; [done|by rewrite Hd|by rewrite Hu| |].
    + intros h' r1 H1. rewrite Hv. simpl. destruct (decide (h = h')) as [<-|Hne].
      * exists r'. rewrite lookup_insert_eq. assert (r1 = r) as -> by congruence. split_and!; try done.
      * exists r1. rewrite lookup_insert_ne by done. destruct (Hi h' r1 H1) as [b Hb].
        split_and!; [done|apply same_core_refl|apply Hb|done].
    + intros h' r1. rewrite Hv. simpl. destruct (decide (h = h')) as [<-|Hne]; [eauto|].
      rewrite lookup_insert_ne by done. eauto.
  - split; [|done]. eapply store_rel_same; [done|done|by rewrite Hv|by rewrite Hd|by rewrite Hu].
Qed.

Lemma is_u32_lor a b : is_u32 a -> is_u32 b -> is_u32 (Z.lor a b).
Proof.
  intros [Ha0 Ha] [Hb0 Hb]. split; [by apply Z.lor_nonneg|].
  destruct (decide (Z.lor a b = 0)) as [->|Hne]; [lia|]. apply Z.log2_lt_pow2.
  - assert (0 <= Z.lor a b) by (by apply Z.lor_nonneg). lia.
  - rewrite Z.log2_lor by done. apply Z.max_lub_lt.
    + destruct (decide (a = 0)) as [->|]; [by vm_compute|]. apply Z.log2_lt_pow2; lia.
    + destruct (decide (b = 0)) as [->|]; [by vm_compute|]. apply Z.log2_lt_pow2; lia.
Qed.

Lemma has_flag_lor a b f : has_flag a f = true -> has_flag (Z.lor a b) f = true.
Proof.
  unfold has_flag. rewrite !negb_true_iff, !Z.eqb_neq, Z.land_lor_distr_l, Z.lor_eq_0_iff. tauto.
Qed.

Lemma wf_with_undo r f o n :
  wf_index r -> is_u32 f -> is_u32 o -> is_u32 n -> wf_index (with_undo r f o n).
Proof.
  intros (? & ? & ? & ? & ? & ? & ? & ? & ? & ? & ?) Hf Ho Hn. unfold wf_index, with_undo. simpl.
  split_and!; try done. apply is_u32_lor; [done|]. by vm_compute.
Qed.

Lemma conn_state_rel keep c bs s :
  conn_state c bs -> store_rel keep (c_store c) s -> conn_state (set_store s c) bs.
Proof.
  intros [? ? ? ? ? ?] R. constructor; try done.
  - apply R.
  - by eapply rel_index_ok.
  - by eapply rel_active.
Qed.

Lemma undo_for_ok bs bs' b undo s r :
  undo_for bs b undo -> idx s !! block_hash b = Some r ->
  st_undo s (bi_UndoFile r) (bi_UndoPos r) = Some (SerializeUndoData undo) ->
  undo_ok p s (bs ++ b :: bs') (length bs) b.
Proof.
  intros (us & us' & Hr & HC) Hi Hu r' Hr' _. assert (r' = r) as -> by congruence.
  exists us, us', undo. rewrite take_app_length. done.
Qed.

Lemma record_undo_wp (keep : Hash -> Prop) c bs b bs' undo :
  conn_state c (bs ++ b :: bs') -> undo_for bs b undo -> ~ keep (block_hash b) ->
  wp (record_undo (block_hash b, undo))
    (fun r c' => exists s', c' = set_store s' c /\ store_rel keep (c_store c) s'
       /\ (r = Ok tt -> undo_ok p s' (bs ++ b :: bs') (length bs) b)) c.
Proof.
  intros Hc Hu Hk. pose proof Hc as [_ Ho Hi _ _ Ha].
  assert (store_rel keep (c_store c) (c_store c)) as R0 by (by eapply store_rel_refl).
  unfold record_undo. apply wp_bind_read; [|intros; exists (c_store c); split_and!; [by destruct c|done|done]].
  intros r Hr. apply GetBlockIndex_sound in Hr; [|done]. destruct (Hi _ _ Hr) as [b' Hrec].
  pose proof (linked_length p U HU _ _ _ Hi (ac_linked _ _ _ _ _ _ _ Ha)) as Hlen.
  rewrite length_app in Hlen. cbn [length] in Hlen.
  assert (len (SerializeUndoData undo) < 2^32) as Hsz.
  { destruct Hu as (us & us' & Hru & HC).
    destruct (linked_lookup _ _ _ _ _ _ (length bs) b (ac_linked _ _ _ _ _ _ _ Ha)) as (Hin & Hv & _).
    { by apply list_lookup_middle. }
    eapply (undo_bytes_small p U HU bs b); [|done|lia| |exact Hru|exact HC].
    - pose proof (linked_Forall _ _ _ _ _ _ (ac_linked _ _ _ _ _ _ _ Ha)) as HF. by apply Forall_app in HF as [? _].
    - by rewrite Z.add_comm. }
  apply wp_bind_write; [solve_mono|]. intros res s1 E1 L1.
  destruct (undo_rel p U keep _ _ _ _ _ Ho Hi Hsz E1 L1) as [R1 Hres].
  destruct res as [[o n]|e]; [|by exists s1]. destruct (Hres o n eq_refl) as (Hou & Hnu & Hst).
  apply wp_write. intros res s2 E2 L2. simpl in E2. exists s2. split; [done|].
  destruct (sr_index _ _ _ R1 _ _ Hr) as (r1 & Hr1 & (F1 & F2 & F3 & F4 & F5 & F6) & _ & _).
  pose proof (ro_wf _ _ _ _ _ _ Hrec) as W.
  destruct (put_core_rel keep s1 (block_hash b) r1 (with_undo r (bi_FileNum r) o n) res s2) as [R2 H2]; try done.
  - apply R1.
  - by eapply rel_index_ok.
  - unfold same_core. split_and!; try done. intros _. apply has_flag_lor, (ro_have _ _ _ _ _ _ Hrec).
  - apply wf_with_undo; try done. apply W.
  - split; [by eapply store_rel_trans|]. intros Hr2. destruct res as [[]|]; [|done].
    eapply undo_for_ok; [exact Hu|by apply H2|]. simpl. by apply (sr_undo _ _ _ R2).
Qed.

Lemma record_undos_wp nbs : forall (keep : Hash -> Prop) c bs con bs',
  bs' = bs ++ nbs -> conn_state c bs' -> undos_for bs nbs con ->
  Forall (fun b => ~ keep (block_hash b)) nbs -> NoDup (map (fun b => block_hash b) nbs) ->
  wp (cfor con record_undo)
    (fun r c' => exists s', c' = set_store s' c /\ store_rel keep (c_store c) s'
       /\ (r = Ok tt -> forall j b, nbs !! j = Some b -> undo_ok p s' bs' (length bs + j) b)) c.
Proof.
  induction nbs as [|b nbs IH]; intros keep c bs con bs' -> Hc Hu Hk Hnd; destruct con as [|[h undo] con];
    try done; cbn [cfor].
  { apply wp_ret. exists (c_store c). split_and!; [by destruct c|eapply store_rel_refl; apply Hc|done]. }
  destruct Hu as (-> & Hu & Hus). apply Forall_cons in Hk as [Hk Hks]. cbn [map] in Hnd.
  apply NoDup_cons in Hnd as [Hni Hnd]. apply wp_bind; [intros; apply mono_cfor; apply _|].
  eapply wp_conseq; [by eapply (record_undo_wp keep)|].
  intros [[]|e] c1 (s1 & -> & R1 & Hok); [|by exists s1].
  specialize (Hok eq_refl). pose proof (conn_state_rel _ _ _ _ Hc R1) as Hc1.
  eapply wp_conseq; [apply (IH (fun h => keep h \/ h = block_hash b) (set_store s1 c) (bs ++ [b]) con (bs ++ b :: nbs))|].
  - by rewrite <- app_assoc.
  - done.
  - done.
  - apply Forall_forall. intros x Hx [Hkx|E].
    + rewrite Forall_forall in Hks. by apply (Hks x Hx).
    + apply Hni. rewrite <- E. apply list_elem_of_fmap. by exists x.
  - done.
  - intros r c2 (s2 & -> & R2 & Hrest). exists s2. split; [done|]. simpl in R2. split.
    + eapply store_rel_trans; [exact R1|]. eapply store_rel_weaken; [|exact R2]. by left.
    + intros Hr j x Hj. destruct j as [|j].
      * injection Hj as <-. rewrite Nat.add_0_r. eapply rel_undo_ok; [exact R2|by right|done].
      * specialize (Hrest Hr j x Hj). rewrite length_app in Hrest. simpl in Hrest.
        by replace (length bs + S j)%nat with (length bs + 1 + j)%nat by lia.
Qed.
End connect.

(** ** The whole reorganisation *)

Section reorg.
Context {St : Type} `{BS : BlockStore St} {BL : BlockStoreLaws St} `{EC : ECOps}.
Context (p : ChainParams) (U : list Block) (HU : universe p U).
#[local] Abbreviation genesis := (p_GenesisBlock p).
#[local] Abbreviation idx s := (v_index (st_view s)).
Implicit Types (s : St) (c : Chain St).

Lemma linked_NoDup s prev n bs : linked p U s prev n bs -> NoDup (map (fun b => block_hash b) bs).
Proof.
  intros Hl. apply NoDup_alt. intros i j h Hi Hj. change (map ?f ?l) with (f <$> l) in *.
  apply list_lookup_fmap_Some in Hi as (b & -> & Hi). apply list_lookup_fmap_Some in Hj as (b' & E & Hj).
  destruct (linked_lookup _ _ _ _ _ _ _ _ Hl Hi) as (_ & _ & r & Hr & Hh).
  destruct (linked_lookup _ _ _ _ _ _ _ _ Hl Hj) as (_ & _ & r' & Hr' & Hh'). rewrite <- E in Hr'.
  assert (r' = r) as -> by congruence. lia.
Qed.

Lemma undo_ok_prefix s bs1 bs2 bs2' i b :
  (i < length bs1)%nat -> undo_ok p s (bs1 ++ bs2) i b -> undo_ok p s (bs1 ++ bs2') i b.
Proof.
  intros Hi Hu r Hr Hf. destruct (Hu r Hr Hf) as (us & us' & undo & E & H). exists us, us', undo.
  split; [|done]. rewrite take_app_le in * by lia. done.
Qed.

(** What is needed of the new tip: it is off the active chain, and its record, if there is
    one, has the given height and work. *)
Record candidate c (h : Hash) (n w : Z) : Prop := {
  ca_off : forall z, c_hashByHeight c !! z <> Some h;
  ca_rec : forall r, idx (c_store c) !! h = Some r -> bi_Height r = n /\ bi_ChainWork r = Some w }.

Definition main_of c (bs : list Block) : Prop :=
  active p U (c_store c) (c_heightByHash c) (c_hashByHeight c) (UtxoSet_of c) bs
  /\ c_tipHeight c = len bs /\ c_tipHash c = last_hash (block_hash genesis) bs
  /\ (forall r, idx (c_store c) !! c_tipHash c = Some r -> bi_ChainWork r = Some (c_tipWork c))
  /\ forall i b, bs !! i = Some b -> undo_ok p (c_store c) bs i b.

Lemma conn_of c bs : chain_inv p U c -> main_of c bs -> conn_state p U c bs.
Proof. intros [? ? ? ? ? ? _] (Ha & _). by constructor. Qed.

(** The chain after the old branch is gone. *)
Lemma unlinked_conn c bs k us s hbh bhh :
  chain_inv p U c -> main_of c bs -> (k <= length bs)%nat ->
  replay p (take k bs) = Some us -> store_rel (on_chain p bs) (c_store c) s ->
  (forall z, bhh !! z = if (Z.of_nat k <? z) && (z <=? len bs) then None else c_hashByHeight c !! z) ->
  (forall h, hbh !! h = if bool_decide (h ∈ map (fun b => block_hash b) (drop k bs)) then None
                        else c_heightByHash c !! h) ->
  conn_state p U (set_heights hbh bhh (set_store s (set_utxo us c))) (take k bs).
Proof.
  intros Hc (Ha & _) Hk Hr R Hz Hh. pose proof Hc as [Hp Ho Hi Hht Hpt _ _]. constructor; try done.
  - apply R.
  - by eapply rel_index_ok.
  - intros h n Hn. simpl in Hn. rewrite Hh in Hn. destruct (bool_decide _); [done|]. by apply Hht.
  - simpl. by rewrite length_insert.
  - change (UtxoSet_of (set_heights _ _ _)) with (UtxoSet_of (set_store s (set_utxo us c))).
    rewrite UtxoSet_of_set by done. simpl. eapply rel_active; [exact R|]. by eapply active_unlink.
Qed.

(** The new chain, once its undo data is recorded, satisfies the invariant. *)
Lemma relinked_inv c bs k nbs h n w s c5 s' :
  chain_inv p U c -> main_of c bs -> (k <= length bs)%nat ->
  touched (on_chain p bs) c c5 -> conn_state p U c5 (take k bs ++ nbs) ->
  candidate c h n w -> linked p U (c_store c) (last_hash (block_hash genesis) (take k bs)) (Z.of_nat k + 1) nbs ->
  nbs <> [] -> last_hash ZeroHash nbs = h ->
  store_rel (on_chain p bs) (c_store c5) s -> store_rel (on_chain p bs) s s' ->
  (forall j b, nbs !! j = Some b -> undo_ok p s' (take k bs ++ nbs) (length (take k bs) + j) b) ->
  chain_inv p U (set_store s' (set_main h n w (c_heightByHash c5) (c_hashByHeight c5) (set_store s c5))).
Proof.
  intros Hc (Ha & _ & _ & _ & Hu) Hk Ht Hc5 Hcand Hl Hne Hlast R R' Hnew.
  pose proof (store_rel_trans _ _ _ _ R R') as R5. pose proof (conn_state_rel _ _ _ _ _ _ Hc5 R5) as Hcn.
  pose proof (store_rel_trans _ _ _ _ (to_store _ _ _ Ht) R5) as Rall.
  pose proof Hcn as [H1 H2 H3 H4 H5 H6]. constructor; try done.
  - intros x ob. simpl. rewrite (to_orphans _ _ _ Ht). apply (ci_orphans _ _ _ Hc).
  - exists (take k bs ++ nbs). split; [exact H6|].
    assert (last_hash (block_hash genesis) (take k bs ++ nbs) = h) as Hlh.
    { destruct nbs as [|x nbs _] using rev_ind; [done|]. rewrite app_assoc, last_hash_snoc.
      by rewrite last_hash_snoc in Hlast. }
    split_and!; simpl.
    + destruct nbs as [|x nbs _] using rev_ind; [done|]. rewrite last_hash_snoc in Hlast.
      apply linked_app in Hl as [_ (_ & _ & _ & (r & Hr & Hrh) & _)]. rewrite Hlast in Hr.
      destruct (ca_rec _ _ _ _ Hcand r Hr) as [<- _]. rewrite !length_app, length_take. simpl length. lia.
    + done.
    + intros r Hr. destruct (rel_height _ _ _ _ _ Rall Hr) as (r0 & Hr0 & _ & ->).
      by apply (ca_rec _ _ _ _ Hcand).
    + intros i b Hi. apply lookup_app_Some in Hi as [Hi|[Hge Hi]].
      * apply (undo_ok_prefix _ _ (drop k bs)); [by eapply lookup_lt_Some|]. rewrite take_drop.
        apply lookup_take_Some in Hi as [Hi _]. eapply rel_undo_ok; [exact Rall| |by apply Hu].
        exists b. split; [apply elem_of_cons; right; by eapply list_elem_of_lookup_2|done].
      * replace i with (length (take k bs) + (i - length (take k bs)))%nat by lia. by apply Hnew.
Qed.

Lemma reorg_body_wp c bs h n w :
  chain_inv p U c -> main_of c bs -> candidate c h n w ->
  wp (reorg_body h n w)
    (fun r c' => touched (on_chain p bs) c c'
       /\ (r = Ok tt -> chain_inv p U c' /\ c_tipHash c' = h /\ c_tipWork c' = w)) c.
Proof.
  intros Hc Hm Hcand. pose proof Hc as [Hp Ho Hi Hht Hpt Hor _]. pose proof Hm as (Ha & Hth & _ & _ & Hu).
  pose proof (conn_refl p U (on_chain p bs) c bs (conn_of c bs Hc Hm)) as Hrefl.
  assert (~ on_chain p bs h) as Hoff.
  { intros Hon. apply (chain_index p U c bs _ Ha) in Hon as [z Hz]. by apply (ca_off _ _ _ _ Hcand z). }
  unfold reorg_body. apply wp_bind_get. apply wp_bind_lift; [|by split]. intros nc Hnc.
  apply (walk_spec p U HU c bs _ Ho Hi Hht Ha _ _ []) in Hnc as
    (nbs & k & -> & Hne & Hlast & Hk & Hl & Hpk & Hoffs); [|done]. cbn [app].
  destruct nbs as [|b0 nbs0] eqn:Enbs; [done|].
  assert (List.last (rev (map (fun b => block_hash b) (b0 :: nbs0))) h = block_hash b0) as ->.
  { cbn [map rev]. apply last_last. }
  destruct (GetBlock (c_store c) (block_hash b0)) as [fb|e] eqn:Efb; [|by apply wp_fail].
  assert (fb = b0) as ->.
  { destruct (GetBlock_rec p U _ _ _ Ho Hi Efb) as (r & Hr & Hrec). destruct Hl as (_ & Hin & Hv & _).
    by eapply (rec_unique p U HU). }
  rewrite (Hpk b0 nbs0 eq_refl). change (default 0 (Some (Z.of_nat k))) with (Z.of_nat k). rewrite <- Enbs in *. clear Enbs Hpk b0 nbs0 Efb.
  cbv zeta. destruct (_ && _); [by apply wp_fail|]. rewrite Hth.
  apply wp_bind; [solve_mono|]. eapply wp_conseq; [by apply (disconnect_all_wp p U HU c bs)|].
  intros [[]|e] c2 (us & Hrl & Hr); [|split; [by eapply rolled_touched|done]]. specialize (Hr eq_refl).
  pose proof (rolled_touched p c bs us c2 Hrl) as Ht2. destruct Hrl as (s2 & -> & R2).
  apply wp_bind; [solve_mono|]. eapply wp_conseq;
    [apply (unlink_wp p U HU _ bs k); [apply R2|by eapply rel_index_ok|done|simpl; intros; by eapply bhh_above]|].
  intros r c3 (-> & hbh & bhh & -> & Hz & Hh). simpl in Hz, Hh. cbv beta iota.
  pose proof (unlinked_conn c bs k us s2 hbh bhh Hc Hm Hk Hr R2 Hz Hh) as Hc3.
  set (c3 := set_heights hbh bhh _) in *.
  assert (touched (on_chain p bs) c c3) as Ht3 by (destruct Ht2; by constructor).
  pose proof (linked_length p U HU _ _ _ Hi (ac_linked _ _ _ _ _ _ _ Ha)) as Hlen.
  assert (len (take k bs) = Z.of_nat k) as Hlk by (rewrite length_take; lia).
  assert (add32 (Z.of_nat k) 1 = len (take k bs) + 1) as ->
    by (rewrite Hlk; unfold add32; apply u32_small; unfold is_u32; lia).
  rewrite rev_involutive. apply wp_bind; [solve_mono|].
  eapply wp_conseq; [apply (connect_all_wp p U HU (on_chain p bs) nbs c3 (take k bs) [] Hc3)|].
  { rewrite Hlk. eapply rel_linked; [apply (to_store _ _ _ Ht3)|exact Hl]. }
  intros [con|e] c4 [Ht4 Hcon]; [|split; [by eapply touched_trans|done]].
  destruct (Hcon con eq_refl) as [Hc4 (con' & -> & Hund)]. cbn [app].
  pose proof (touched_trans _ _ _ _ Ht3 Ht4) as Ht04.
  apply wp_bind_write; [solve_mono|]. intros res s5 E5 L5.
  pose proof (tip_rel p U (on_chain p bs) _ _ _ _ _ (cn_store _ _ _ _ Hc4) (cn_index _ _ _ _ Hc4) E5 L5) as R5.
  assert (touched (on_chain p bs) c (set_store s5 c4)) as Ht5.
  { destruct Ht04. constructor; try done. by eapply store_rel_trans. }
  destruct res as [[]|e]; [|by split]. apply wp_bind_mod.
  set (c5 := set_main h n w _ _ _).
  assert (conn_state p U c5 (take k bs ++ nbs)) as Hc5
    by (pose proof (conn_state_rel _ _ _ _ _ _ Hc4 R5) as []; by constructor).
  eapply wp_conseq; [apply (record_undos_wp p U HU nbs (on_chain p bs) c5 (take k bs) con' _ eq_refl Hc5 Hund Hoffs);
    by eapply linked_NoDup|].
  intros r c6 (s6 & -> & R6 & Hrec). split.
  - destruct Ht5. constructor; try done. by eapply store_rel_trans.
  - intros ->. split; [|done].
    exact (relinked_inv c bs k nbs h n w s5 c4 s6 Hc Hm Hk Ht04 Hc4 Hcand Hl Hne Hlast R5 R6 (Hrec eq_refl)).
Qed.

Lemma clone_entries_id us : map_Forall (fun k _ => length k = 36%nat) us -> clone_entries us = us.
Proof.
  intros Hk. unfold clone_entries, Entries. rewrite map_fmap_id. unfold NewSet.
  assert (forall l (m : UtxoSet), Forall (fun kv => length kv.1 = 36%nat) l ->
    fold_left (fun dst '(key, entry) => Add dst (take 32 key) (ReadUintLE (drop 32 key)) entry) l m
    = list_to_map (rev l) ∪ m) as Hf.
  { induction l as [|[k e] l IH]; intros m Hl; [symmetry; apply map_empty_union|].
    apply Forall_cons in Hl as [H36 Hl]. cbn [fold_left rev]. rewrite IH by done. cbn [fst] in H36.
    assert (Add m (take 32 k) (ReadUintLE (drop 32 k)) e = <[k := e]> m) as ->.
    { unfold Add, OutpointKey. rewrite Put32_ReadUintLE by (rewrite length_drop; lia). by rewrite take_drop. }
    rewrite list_to_map_app. cbn [list_to_map foldr]. rewrite <- map_union_assoc. f_equal.
    cbn [fst snd]. by rewrite <- insert_union_l, map_empty_union. }
  rewrite Hf.
  - rewrite map_union_empty. rewrite <- (list_to_map_to_list us) at 2. apply list_to_map_proper.
    + change (?f <$> rev ?l) with (map f (rev l)). rewrite map_rev. apply NoDup_ListNoDup, NoDup_rev, NoDup_ListNoDup.
      apply NoDup_fst_map_to_list.
    + symmetry. apply Permutation_rev.
  - apply Forall_forall. intros [k e] Hin. apply elem_of_map_to_list in Hin. by apply (Hk k e).
Qed.

Lemma active_coins s hbh bhh us bs :
  index_ok p U s -> active p U s hbh bhh us bs -> map_Forall coin_ok us.
Proof.
  intros Hi Ha. pose proof (linked_length p U HU _ _ _ Hi (ac_linked _ _ _ _ _ _ _ Ha)).
  apply (replay_coins p (un_genesis_ok _ _ HU) bs us); [apply Ha|apply (un_txs HU)|lia].
  eapply linked_Forall. apply (ac_linked _ _ _ _ _ _ _ Ha).
Qed.

(** The map of heights determines the blocks of the active chain. *)
Lemma active_unique s s' hbh hbh' bhh us us' bs bs' :
  active p U s hbh bhh us bs -> active p U s' hbh' bhh us' bs' -> bs = bs'.
Proof.
  intros Ha Ha'. apply list_eq. intros i.
  pose proof (ac_bhh _ _ _ _ _ _ _ Ha (Z.of_nat i + 1)) as H.
  rewrite (ac_bhh _ _ _ _ _ _ _ Ha') in H. destruct (Z.ltb_spec (Z.of_nat i + 1) 0); [lia|].
  replace (Z.to_nat (Z.of_nat i + 1)) with (S i) in H by lia.
  change ((fun b => block_hash b) <$> bs' !! i = (fun b => block_hash b) <$> bs !! i) in H.
  destruct (bs !! i) as [b|] eqn:Eb, (bs' !! i) as [b'|] eqn:Eb'; try done. injection H as H.
  destruct (linked_lookup _ _ _ _ _ _ _ _ (ac_linked _ _ _ _ _ _ _ Ha) Eb) as (Hin & Hv & _).
  destruct (linked_lookup _ _ _ _ _ _ _ _ (ac_linked _ _ _ _ _ _ _ Ha') Eb') as (Hin' & Hv' & _).
  f_equal. by eapply (block_unique HU).
Qed.

(** The fields by which the active chain is known. *)
Definition same_main c c' : Prop :=
  c_tipHash c' = c_tipHash c /\ c_tipHeight c' = c_tipHeight c /\ c_tipWork c' = c_tipWork c
  /\ c_heightByHash c' = c_heightByHash c /\ c_hashByHeight c' = c_hashByHeight c.

(** Changing the store, the heap and the tick around an unchanged active chain. *)
Lemma inv_frame c c' bs :
  chain_inv p U c -> main_of c bs -> store_rel (on_chain p bs) (c_store c) (c_store c') ->
  c_params c' = c_params c -> same_main c c' -> UtxoSet_of c' = UtxoSet_of c ->
  (c_utxoSet c' < length (c_sets c'))%nat ->
  (forall h ob, c_orphans c' !! h = Some ob -> ob_block ob ∈ U /\ block_hash (ob_block ob) = h) ->
  chain_inv p U c' /\ main_of c' bs.
Proof.
  intros Hc (Ha & Hth & Hti & Hw & Hu) R Ep (E1 & E2 & E3 & E4 & E5) Eu Hpt Hor.
  pose proof Hc as [Hp Ho Hi Hht _ _ _].
  assert (main_of c' bs) as Hm'.
  { unfold main_of. rewrite E1, E2, E3, E4, E5, Eu. split_and!; try done.
    - by eapply rel_active.
    - intros r Hr. destruct (rel_height _ _ _ _ _ R Hr) as (r0 & Hr0 & _ & ->). by apply Hw.
    - intros i b Hb. eapply rel_undo_ok; [exact R| |by apply Hu]. exists b.
      split; [apply elem_of_cons; right; by eapply list_elem_of_lookup_2|done]. }
  split; [|done]. constructor; try done.
  - congruence.
  - apply R.
  - by eapply rel_index_ok.
  - by rewrite E4.
  - by exists bs.
Qed.

Lemma reorg_wp c bs h n w :
  chain_inv p U c -> main_of c bs -> candidate c h n w ->
  wp (reorg h n w)
    (fun r c' => chain_inv p U c' /\ c_orphans c' = c_orphans c
       /\ match r with
          | Ok _ => c_tipHash c' = h /\ c_tipWork c' = w
          | Err _ => same_main c c' /\ store_rel (on_chain p bs) (c_store c) (c_store c')
          end) c.
Proof.
  intros Hc Hm Hcand. pose proof Hc as [Hp Ho Hi Hht Hpt Hor _]. pose proof Hm as (Ha & _).
  intros L. unfold reorg, cloneUtxoSet in *. set (c1 := set_sets _ _ c) in *.
  assert (UtxoSet_of c1 = UtxoSet_of c) as Eu.
  { unfold UtxoSet_of, set_at, c1. simpl. by rewrite lookup_total_app_l. }
  destruct (inv_frame c c1 bs) as [Hc1 Hm1]; try done.
  { by eapply store_rel_refl. }
  { simpl. rewrite length_app. lia. }
  assert (candidate c1 h n w) as Hcand1 by (by destruct Hcand).
  pose proof (reorg_body_wp c1 bs h n w Hc1 Hm1 Hcand1) as Hwp.
  destruct (reorg_body h n w c1) as [[[]|e] c2] eqn:E; unfold wp in Hwp; rewrite E in Hwp; cbn [fst snd] in *;
    destruct (Hwp L) as [Ht Hok]; clear Hwp; destruct Ht as [T1 T2 T3 T4 T5 T6].
  - destruct (Hok eq_refl) as (Hc2 & ? & ?). by split_and!.
  - assert (c_sets c2 !! length (c_sets c) = Some (UtxoSet_of c)) as Hsnap.
    { rewrite T5 by (simpl; lia). unfold c1. simpl. rewrite list_lookup_middle by done. f_equal.
      apply clone_entries_id. intros k e0 Hk. by apply (active_coins _ _ _ _ _ Hi Ha k e0). }
    simpl in T4. rewrite length_app in T4. simpl in T4.
    destruct (inv_frame c (set_sets (c_sets c2) (length (c_sets c))
      (set_main (c_tipHash c) (c_tipHeight c) (c_tipWork c) (c_heightByHash c) (c_hashByHeight c) c2)) bs)
      as [Hc' _]; try done.
    + unfold UtxoSet_of, set_at at 1. simpl. by apply list_lookup_total_correct.
    + simpl. lia.
    + simpl. by rewrite T2.
Qed.
End reorg.
