(* ===== verification/Accept.v ===== *)
(** * Accepting blocks keeps the ledger

    [chain.go]'s [ProcessBlock] and [processOrphans] on every branch (the tip extended, a
    side chain recorded, a reorganisation, an orphan pooled or processed, every failure):
    the invariant of [ChainInv.v] is preserved and the chain work never decreases. *)
From stdpp Require Import sorting.
From S2P Require Import Prelude Types Sha256 Crypto Target Params Script Utxo TxValidation.
From S2P Require Import BlockValidation Pow Ledger Store Chain ChainInv Reorg.
#[local] Open Scope Z_scope.
#[local] Open Scope go_scope.
Import MerkleFacts.

(** What the chain manager relies on from a consensus engine: the blocks it accepts have a
    valid structure. *)
Class EngineLaws `{EN : Engine} : Prop :=
  ValidateBlock_structure : forall b n p, ValidateBlock b n p = Ok tt -> ValidateBlockStructure b n p = Ok tt.

(** ** A new record in the index *)

Section fresh.
Context {St : Type} `{BS : BlockStore St} {BL : BlockStoreLaws St} `{EC : ECOps}.
Context (p : ChainParams) (U : list Block) (HU : universe p U).
#[local] Abbreviation genesis := (p_GenesisBlock p).
#[local] Abbreviation idx s := (v_index (st_view s)).
Implicit Types (s : St) (c : Chain St).

(** [b] has passed the checks of a header and a block, at height [n] with work [w]. *)
Record fresh s (b : Block) (n w : Z) : Prop := {
  fr_in : b ∈ U;
  fr_new : block_hash b <> block_hash genesis;
  fr_valid : ValidateBlockStructure b n p = Ok tt;
  fr_parent : exists pr w0, idx s !! hdr_PrevBlock (blk_Header b) = Some pr /\ n = bi_Height pr + 1
    /\ bi_ChainWork pr = Some w0 /\ w = w0 + CalcWork (hdr_Bits (blk_Header b)) }.

Lemma fresh_rel keep s s' b n w : store_rel keep s s' -> fresh s b n w -> fresh s' b n w.
Proof.
  intros R [Hin Hne Hv (pr & w0 & Hpr & -> & Hw & ->)]. constructor; try done.
  destruct (sr_index _ _ _ R _ _ Hpr) as (pr' & Hpr' & (_ & E & _ & _ & F & _) & _).
  exists pr', w0. split_and!; congruence.
Qed.

Lemma fresh_known s b n w r :
  index_ok p U s -> fresh s b n w -> idx s !! block_hash b = Some r ->
  bi_Height r = n /\ bi_ChainWork r = Some w.
Proof.
  intros Hi [Hin Hne Hv (pr & w0 & Hpr & -> & Hw & ->)] Hr. destruct (Hi _ _ Hr) as [b' Hrec].
  assert (b' = b) as -> by (by eapply (rec_unique p U HU)).
  destruct (ro_parent _ _ _ _ _ _ Hrec) as [[E _]|(pr' & w' & Hpr' & Hh' & Hw' & Hw2)].
  - exfalso. apply Hne. by rewrite E.
  - assert (pr' = pr) as -> by congruence. assert (w' = w0) as -> by congruence. done.
Qed.

Lemma fresh_height s b n w : index_ok p U s -> fresh s b n w -> 0 < n < 2^32 - 1.
Proof.
  intros Hi [_ _ _ (pr & w0 & Hpr & -> & _)]. pose proof (height_bound p U HU _ _ _ Hi Hpr). lia.
Qed.

Lemma fresh_work s b n w : index_ok p U s -> fresh s b n w -> 0 <= w.
Proof.
  intros Hi [_ _ _ (pr & w0 & Hpr & _ & Hw & ->)]. destruct (Hi _ _ Hpr) as [pb Hrec].
  destruct (ro_wf _ _ _ _ _ _ Hrec) as (_ & _ & _ & _ & _ & _ & _ & _ & _ & _ & w' & Hw' & H0).
  assert (w' = w0) as -> by congruence. pose proof (CalcWork_nonneg (hdr_Bits (blk_Header b))). lia.
Qed.

(** [r] is a record for [b]. *)
Record record_for s (b : Block) (n w : Z) (r : DiskBlockIndex) : Prop := {
  rf_header : bi_Header r = blk_Header b;
  rf_height : bi_Height r = n;
  rf_work : bi_ChainWork r = Some w;
  rf_wf : wf_index r;
  rf_have : has_flag (bi_Status r) StatusHaveData = true;
  rf_data : st_data s (bi_FileNum r) (bi_DataPos r) = Some b }.

Lemma record_for_new s b n w f o k :
  index_ok p U s -> fresh s b n w -> is_u32 f -> is_u32 o -> is_u32 k -> st_data s f o = Some b ->
  record_for s b n w (new_record b n (f, o, k) w).
Proof.
  intros Hi Hf Hfu Hou Hku Hd. pose proof (fresh_height _ _ _ _ Hi Hf). pose proof (fresh_work _ _ _ _ Hi Hf).
  constructor; try done. unfold wf_index, new_record. simpl. split_and!; try done.
  - apply (un_wf HU). apply Hf.
  - unfold is_u32. lia.
  - apply u32_range.
  - by exists w.
Qed.

(** [s'] is [s] with a record for [h] added or replaced by one of the same height and work. *)
Record grown (h : Hash) s s' : Prop := {
  gw_ok : st_ok s';
  gw_index_ok : index_ok p U s';
  gw_undo : forall f o b, st_undo s f o = Some b -> st_undo s' f o = Some b;
  gw_other : forall h', h' <> h -> idx s' !! h' = idx s !! h';
  gw_same : forall r, idx s !! h = Some r ->
    exists r', idx s' !! h = Some r' /\ bi_Height r' = bi_Height r /\ bi_ChainWork r' = bi_ChainWork r }.

Lemma grown_core h s s' h' r :
  grown h s s' -> idx s !! h' = Some r ->
  exists r', idx s' !! h' = Some r' /\ bi_Height r' = bi_Height r /\ bi_ChainWork r' = bi_ChainWork r.
Proof.
  intros G Hr. destruct (decide (h' = h)) as [->|Hne]; [by apply (gw_same _ _ _ G)|].
  exists r. by rewrite (gw_other _ _ _ G).
Qed.

Lemma put_fresh s b n w r res s' :
  st_ok s -> index_ok p U s -> fresh s b n w -> record_for s b n w r ->
  PutBlockIndex s (block_hash b) r = (res, s') -> st_live s' ->
  grown (block_hash b) s s' /\ (is_ok res = true -> idx s' !! block_hash b = Some r).
Proof.
  intros Ho Hi Hf [Eh En Ew W Hfl Hd] E L. destruct (PutBlockIndex_law _ _ _ _ _ E L) as [_ Hl].
  destruct (Hl Ho W) as (Ho' & Hd' & Hu' & Hv). destruct (is_ok res) eqn:Er.
  2:{ split; [|done]. constructor; [done| | |by rewrite Hv|rewrite Hv; eauto].
      - intros h r' Hr'. rewrite Hv in Hr'. destruct (Hi h r' Hr') as [b' [? ? ? ? ? ? ? ?]]. exists b'.
        constructor; try done; [by rewrite Hd'|by rewrite Hv].
      - by rewrite Hu'. }
  split; [|intros _; rewrite Hv; apply lookup_insert_eq].
  assert (forall h' r', idx s !! h' = Some r' -> exists r'', idx s' !! h' = Some r''
    /\ bi_Height r'' = bi_Height r' /\ bi_ChainWork r'' = bi_ChainWork r') as Hcore.
  { intros h' r' Hr'. rewrite Hv. simpl. destruct (decide (block_hash b = h')) as [<-|Hne].
    - rewrite lookup_insert_eq. exists r. destruct (fresh_known s b n w r' Hi Hf Hr') as [-> ->]. by split_and!.
    - rewrite lookup_insert_ne by done. by exists r'. }
  constructor; [done| |by rewrite Hu'| |eauto].
  - intros h r' Hr'. rewrite Hv in Hr'. simpl in Hr'. destruct (decide (block_hash b = h)) as [<-|Hne].
    + rewrite lookup_insert_eq in Hr'. injection Hr' as <-. exists b. pose proof Hf as [Hin Hnew Hvb (pr & w0 & Hpr & Hn & Hw0 & ->)].
      constructor; try done; [by rewrite Hd'|by rewrite En|]. right.
      destruct (Hcore _ _ Hpr) as (pr' & Hpr' & F1 & F2). exists pr', w0. split_and!; congruence.
    + rewrite lookup_insert_ne in Hr' by done. destruct (Hi h r' Hr') as [b' [? ? ? ? ? ? ? Hp]]. exists b'.
      constructor; try done; [by rewrite Hd'|]. destruct Hp as [?|(pr & w0 & Hpr & ? & ? & ?)]; [by left|right].
      destruct (Hcore _ _ Hpr) as (pr' & Hpr' & F1 & F2). exists pr', w0. split_and!; congruence.
  - intros h' Hne. rewrite Hv. simpl. by rewrite lookup_insert_ne.
Qed.
End fresh.

(** ** The tip extended *)

Section extend.
Context {St : Type} `{BS : BlockStore St} {BL : BlockStoreLaws St} `{EC : ECOps}.
Context (p : ChainParams) (U : list Block) (HU : universe p U).
#[local] Abbreviation genesis := (p_GenesisBlock p).
#[local] Abbreviation idx s := (v_index (st_view s)).
Implicit Types (s : St) (c : Chain St).

Lemma grown_linked h s s' prev n bs :
  grown p U h s s' -> linked p U s prev n bs -> linked p U s' prev n bs.
Proof.
  intros G. revert prev n. induction bs as [|b bs IH]; intros prev n; [done|]. cbn [linked].
  intros (? & ? & ? & (r & Hr & Hh) & ?). destruct (grown_core _ _ _ _ _ _ _ G Hr) as (r' & Hr' & E & _).
  split_and!; try done; [exists r'; split; [done|lia]|auto].
Qed.

Lemma grown_main c bs s' h :
  chain_inv p U c -> main_of p U c bs -> ~ on_chain p bs h -> grown p U h (c_store c) s' ->
  chain_inv p U (set_store s' c) /\ main_of p U (set_store s' c) bs.
Proof.
  intros Hc (Ha & Hth & Hti & Hw & Hu) Hoff G. pose proof Hc as [Hp Ho Hi Hht Hpt Hor _].
  assert (forall b, b ∈ genesis :: bs -> idx s' !! block_hash b = idx (c_store c) !! block_hash b) as Hsame.
  { intros b Hb. apply (gw_other _ _ _ _ _ G). intros E. apply Hoff. by exists b. }
  assert (exists b, b ∈ genesis :: bs /\ block_hash b = c_tipHash c) as (tb & Htb & Htip).
  { rewrite Hti. destruct bs as [|x bs _] using rev_ind; [exists genesis; split; [set_solver|done]|].
    exists x. rewrite last_hash_snoc. split; [set_solver|done]. }
  assert (main_of p U (set_store s' c) bs) as Hm'.
  { unfold main_of. simpl. split_and!; try done.
    - destruct Ha as [(g & Hg & Hg0) Hl Hb Hh Hr]. constructor; try done; [|by eapply grown_linked].
      exists g. rewrite Hsame by set_solver. done.
    - intros r Hr. apply Hw. by rewrite <- Htip, Hsame, Htip in Hr.
    - intros i b Hb r Hr Hfl. rewrite Hsame in Hr
        by (apply elem_of_cons; right; by eapply list_elem_of_lookup_2).
      destruct (Hu i b Hb r Hr Hfl) as (us & us' & undo & ? & ? & Hun). exists us, us', undo.
      split_and!; try done. by apply (gw_undo _ _ _ _ _ G). }
  split; [|done]. constructor; try done; [apply G|apply G|by exists bs].
Qed.

Lemma tip_record c bs :
  main_of p U c bs -> exists r, idx (c_store c) !! c_tipHash c = Some r /\ bi_Height r = len bs.
Proof.
  intros (Ha & _ & -> & _). destruct bs as [|x bs _] using rev_ind; [apply (ac_genesis _ _ _ _ _ _ _ Ha)|].
  rewrite last_hash_snoc. destruct (active_heights p U _ _ _ _ _ (S (length bs)) x Ha) as (r & Hr & Hh).
  { change ((bs ++ [x]) !! length bs = Some x). by apply list_lookup_middle. }
  exists r. split; [done|]. rewrite length_app. simpl. lia.
Qed.

(** A fresh block on the tip. *)
Lemma fresh_tip c bs b n w :
  chain_inv p U c -> main_of p U c bs -> fresh p U (c_store c) b n w ->
  hdr_PrevBlock (blk_Header b) = c_tipHash c ->
  n = len bs + 1 /\ w = c_tipWork c + CalcWork (hdr_Bits (blk_Header b)) /\ ~ on_chain p bs (block_hash b).
Proof.
  intros Hc Hm Hf Hprev. pose proof Hc as [_ _ Hi _ _ _ _]. pose proof Hm as (Ha & _ & _ & Hw & _).
  destruct (tip_record c bs Hm) as (tr & Htr & Hth). pose proof Hf as [_ _ _ (pr & w0 & Hpr & Hn & Hw0 & Hww)].
  rewrite Hprev in Hpr. assert (tr = pr) as -> by congruence. specialize (Hw pr Hpr).
  split_and!; [lia|congruence|]. intros (x & Hx & E). apply list_elem_of_lookup in Hx as [i Hx].
  destruct (active_heights p U _ _ _ _ _ _ _ Ha Hx) as (r & Hr & Hh). rewrite E in Hr.
  destruct (fresh_known p U HU _ _ _ _ _ Hi Hf Hr) as [Hh' _]. apply lookup_lt_Some in Hx. simpl in Hx. lia.
Qed.

Lemma extend_inv c bs b n w us' undo r :
  chain_inv p U c -> main_of p U c bs -> fresh p U (c_store c) b n w ->
  hdr_PrevBlock (blk_Header b) = c_tipHash c -> idx (c_store c) !! block_hash b = Some r ->
  connect_step p (UtxoSet_of c) n b = Some us' -> ConnectBlock (UtxoSet_of c) b n = Ok (us', undo) ->
  (has_flag (bi_Status r) StatusHaveUndo = true ->
   st_undo (c_store c) (bi_UndoFile r) (bi_UndoPos r) = Some (SerializeUndoData undo)) ->
  chain_inv p U (set_main (block_hash b) n w (<[block_hash b := n]> (c_heightByHash c))
                   (<[n := block_hash b]> (c_hashByHeight c)) (set_utxo us' c)).
Proof.
  intros Hc Hm Hf Hprev Hr Hst HC Hun. destruct (fresh_tip c bs b n w Hc Hm Hf Hprev) as (-> & _ & _).
  pose proof Hc as [Hp Ho Hi Hht Hpt Hor _]. pose proof Hm as (Ha & Hth & Hti & Hw & Hu).
  destruct (fresh_known p U HU _ _ _ _ _ Hi Hf Hr) as [Hrh Hrw]. pose proof Hf as [Hin Hne Hv _].
  constructor; try done.
  - apply heights_ok_insert; try done. lia.
  - simpl. by rewrite length_insert.
  - exists (bs ++ [b]). split_and!; simpl.
    + change (UtxoSet_of _) with (UtxoSet_of (set_store (c_store c) (set_utxo us' c))).
      rewrite UtxoSet_of_set by done. eapply active_snoc; [exact Ha| |exact Hst]. cbn [linked].
      split_and!; try done; [by rewrite Hprev|by exists r].
    + rewrite length_app. simpl. lia.
    + by rewrite last_hash_snoc.
    + intros r' Hr'. assert (r' = r) as -> by congruence. done.
    + intros i x Hx. apply lookup_app_Some in Hx as [Hx|[Hge Hx]].
      * apply (undo_ok_prefix p (c_store c) bs [] [b]); [by eapply lookup_lt_Some|]. rewrite app_nil_r. by apply Hu.
      * apply list_lookup_singleton_Some in Hx as [Hx <-]. replace i with (length bs) by lia.
        intros r' Hr' Hfl. assert (r' = r) as -> by congruence. rewrite take_app_length.
        exists (UtxoSet_of c), us', undo. split_and!; [apply Ha|done|by apply Hun].
Qed.

(** The chain advances: the invariant holds and no work is lost. *)
Definition advances c c' : Prop := chain_inv p U c' /\ c_tipWork c <= c_tipWork c'.

Definition on_main c (h : Hash) : Prop := exists z, c_hashByHeight c !! z = Some h.

Lemma on_main_chain c bs h : main_of p U c bs -> on_main c h <-> on_chain p bs h.
Proof. intros (Ha & _). symmetry. by eapply chain_index. Qed.

(** Writing with the unspent set already advanced: on failure the block is disconnected. *)
Lemma or_disconnect_wp {A} b undo us' (m : cM St A) w f Q c s :
  (forall c, m c = swrite w (f c) c) ->
  (c_utxoSet c < length (c_sets c))%nat -> DisconnectBlock us' b undo = UtxoSet_of c ->
  (forall res s', f (set_store s (set_utxo us' c)) s = (res, s') -> st_live s' ->
     match res with
     | Ok a => Q (Ok a) (set_store s' (set_utxo us' c))
     | Err e => Q (Err (w e)) (set_store s' c)
     end) -> wp (or_disconnect b undo m) Q (set_store s (set_utxo us' c)).
Proof.
  intros Hm Hpt Hd H. unfold wp, or_disconnect. rewrite Hm. unfold swrite. simpl.
  destruct (f _ s) as [[a|e] s'] eqn:E; simpl; intros L; specialize (H _ _ eq_refl L); [done|].
  change (set_store s' (set_store s (set_utxo us' c))) with (set_store s' (set_utxo us' c)).
  rewrite UtxoSet_of_set by done. rewrite Hd, set_utxo_set.
  assert (set_utxo (UtxoSet_of c) c = c) as ->; [|done].
  etransitivity; [|apply set_utxo_same]. by destruct c.
Qed.
End extend.

(** ** The branch of [ProcessBlock] and of [processOrphans] on the tip *)

Section on_tip.
Context {St : Type} `{BS : BlockStore St} {BL : BlockStoreLaws St} `{EC : ECOps}.
Context (p : ChainParams) (U : list Block) (HU : universe p U).
Context (Htip : forall (s : St) h n, (PutChainTip s h n).1 = Ok tt).
#[local] Abbreviation genesis := (p_GenesisBlock p).
#[local] Abbreviation idx s := (v_index (st_view s)).
Implicit Types (s : St) (c : Chain St).

(** The result of a step that may put the block with hash [h] on the tip. *)
Definition extended c (h : Hash) (r : result ChainErr unit) c' : Prop :=
  advances p U c c'
  /\ match r with
     | Ok _ => c_tipHash c' = h /\ forall h', on_main c' h' -> on_main c h' \/ h' = h
     | Err _ => c_hashByHeight c' = c_hashByHeight c
     end.

Lemma extended_store c h e s :
  chain_inv p U (set_store s c) -> extended c h (Err e) (set_store s c).
Proof. intros H. by split; [split; [|done]|]. Qed.

(** Recording the block, persisting the unspent set and moving the tip. *)
Definition finish (b : Block) (undo : BlockUndoData) (n w : Z) (r : DiskBlockIndex) : cM St unit :=
  do _ <- or_disconnect b undo (swrite StoreIndex (fun s => PutBlockIndex s (block_hash b) r));
  do _ <- or_disconnect b undo (persistUtxoChanges b undo (block_hash b));
  extendChain (block_hash b) n w.

Lemma finish_wp c bs b n w us' undo r s :
  chain_inv p U c -> main_of p U c bs -> store_rel (on_chain p bs) (c_store c) s ->
  fresh p U (c_store c) b n w -> hdr_PrevBlock (blk_Header b) = c_tipHash c ->
  record_for s b n w r ->
  connect_step p (UtxoSet_of c) n b = Some us' -> ConnectBlock (UtxoSet_of c) b n = Ok (us', undo) ->
  DisconnectBlock us' b undo = UtxoSet_of c ->
  (has_flag (bi_Status r) StatusHaveUndo = true ->
   st_undo s (bi_UndoFile r) (bi_UndoPos r) = Some (SerializeUndoData undo)) ->
  wp (finish b undo n w r) (extended c (block_hash b)) (set_store s (set_utxo us' c)).
Proof.
  intros Hc Hm R Hf Hprev Hrec Hst HC Hd Hun.
  destruct (fresh_tip p U HU c bs b n w Hc Hm Hf Hprev) as (Hn & Hw & Hoff). pose proof (ci_ptr _ _ _ Hc) as Hpt.
  destruct (inv_frame p U c (set_store s c) bs) as [Hc0 Hm0]; try done; [apply Hc|].
  pose proof (fresh_rel p U _ _ _ _ _ _ R Hf) as Hf0.
  unfold finish. apply wp_bind; [solve_mono|]. eapply (or_disconnect_wp _ _ us' _ _ (fun _ _ => _)); [reflexivity|done|done|].
  intros res s1 E1 L1. destruct (put_fresh p U HU s b n w r res s1) as [G Hput]; try done; [apply R|apply Hc0|].
  destruct (grown_main p U HU (set_store s c) bs s1 _ Hc0 Hm0 Hoff G) as [Hc1 Hm1].
  change (set_store s1 (set_store s c)) with (set_store s1 c) in *.
  destruct res as [[]|e]; [|by apply extended_store]. specialize (Hput eq_refl).
  apply wp_bind; [solve_mono|]. eapply (or_disconnect_wp _ _ us'); [reflexivity|done|done|].
  intros res s2 E2 L2. simpl in E2.
  pose proof (flush_rel p U (fun _ => True) _ _ _ _ (ci_store _ _ _ Hc1) (ci_index _ _ _ Hc1) E2 L2) as R2.
  destruct (inv_frame p U (set_store s1 c) (set_store s2 c) bs) as [Hc2 Hm2]; try done;
    [by apply (store_rel_weaken (fun _ => True))|apply Hc|].
  destruct res as [[]|e]; [|by apply extended_store].
  unfold extendChain. apply wp_bind_write; [solve_mono|]. intros res s3 E3 L3. simpl in E3.
  pose proof (Htip s2 (block_hash b) n) as Hok. rewrite E3 in Hok. simpl in Hok. subst res.
  pose proof (tip_rel p U (fun _ => True) _ _ _ _ _ (ci_store _ _ _ Hc2) (ci_index _ _ _ Hc2) E3 L3) as R3.
  destruct (inv_frame p U (set_store s2 c) (set_store s3 c) bs) as [Hc3 Hm3]; try done;
    [by apply (store_rel_weaken (fun _ => True))|apply Hc|].
  apply wp_mod. pose proof (store_rel_trans _ _ _ _ R2 R3) as R23.
  destruct (sr_index _ _ _ R23 _ _ Hput) as (r' & Hr' & _ & _ & K). rewrite K in Hr' by done.
  assert (fresh p U s1 b n w) as Hf1.
  { destruct Hf0 as [? ? ? (pr & w0 & Hpr & -> & Hw0 & ->)]. constructor; try done.
    destruct (grown_core _ _ _ _ _ _ _ G Hpr) as (pr' & Hpr' & E & F). exists pr', w0. split_and!; congruence. }
  split.
  - split; [|simpl; rewrite Hw; pose proof (CalcWork_nonneg (hdr_Bits (blk_Header b))); lia].
    apply (extend_inv p U HU (set_store s3 c) bs b n w us' undo r Hc3 Hm3); try done.
    + by eapply fresh_rel.
    + intros Hfl. apply (sr_undo _ _ _ R23), (gw_undo _ _ _ _ _ G). by apply Hun.
  - split; [done|]. intros h' [z Hz]. simpl in Hz. destruct (decide (z = n)) as [->|Hne].
    + rewrite lookup_insert_eq in Hz. injection Hz as <-. by right.
    + rewrite lookup_insert_ne in Hz by done. left. by exists z.
Qed.

(** What [connect_tip] does to a chain on whose tip [b] belongs. *)
Lemma connect_tip_wp c bs b n w :
  chain_inv p U c -> main_of p U c bs -> fresh p U (c_store c) b n w ->
  hdr_PrevBlock (blk_Header b) = c_tipHash c ->
  wp (connect_tip b n)
    (fun r c' => match r with
       | Err _ => c' = c
       | Ok undo => exists us', c' = set_utxo us' c /\ connect_step p (UtxoSet_of c) n b = Some us'
           /\ ConnectBlock (UtxoSet_of c) b n = Ok (us', undo) /\ DisconnectBlock us' b undo = UtxoSet_of c
           /\ len (SerializeUndoData undo) < 2^32
       end) c.
Proof.
  intros Hc Hm Hf Hprev. destruct (fresh_tip p U HU c bs b n w Hc Hm Hf Hprev) as (-> & _ & _).
  pose proof Hc as [Hp Ho Hi Hht Hpt Hor _]. pose proof Hm as (Ha & _). pose proof Hf as [Hin _ Hv _].
  pose proof (linked_length p U HU _ _ _ Hi (ac_linked _ _ _ _ _ _ _ Ha)) as Hlen.
  pose proof (linked_Forall _ _ _ _ _ _ (ac_linked _ _ _ _ _ _ _ Ha)) as HinU.
  assert (Forall (fun x => x ∈ U) (bs ++ [b])) as HinU' by (apply Forall_app; split; [done|by apply Forall_singleton]).
  unfold connect_tip. apply wp_bind_get. apply wp_bind_lift; [|done]. intros fees Hfees.
  apply wp_bind_lift; [|done]. intros [us' undo] HC. apply wp_bind_mod, wp_ret. exists us'.
  assert (connect_step p (UtxoSet_of c) (len bs + 1) b = Some us') as Hst.
  { unfold connect_step. rewrite Hv. rewrite Hp in Hfees. by rewrite Hfees, HC. }
  split_and!; try done.
  - eapply (replay_disconnect p (un_genesis_ok _ _ HU) (un_params _ _ HU) bs b); try done;
      [apply Ha|by apply (un_txs HU)|lia|by apply (un_history HU)].
  - eapply (undo_bytes_small p U HU bs b); try done; [lia|apply Ha].
Qed.

Lemma record_with_undo s s' b n w r o k undo keep :
  record_for s b n w r -> store_rel keep s s' -> is_u32 o -> is_u32 k ->
  st_undo s' (bi_FileNum r) o = Some (SerializeUndoData undo) ->
  record_for s' b n w (with_undo r (bi_FileNum r) o k)
  /\ (has_flag (bi_Status (with_undo r (bi_FileNum r) o k)) StatusHaveUndo = true ->
      st_undo s' (bi_UndoFile (with_undo r (bi_FileNum r) o k)) (bi_UndoPos (with_undo r (bi_FileNum r) o k))
      = Some (SerializeUndoData undo)).
Proof.
  intros [Eh En Ew W Hfl Hd] R Ho Hk Hu. split; [|done]. constructor; try done; simpl.
  - apply wf_with_undo; try done. apply W.
  - by apply has_flag_lor.
  - by apply (sr_data _ _ _ R).
Qed.

Lemma extend_tip_wp c bs b n w r :
  chain_inv p U c -> main_of p U c bs -> fresh p U (c_store c) b n w ->
  hdr_PrevBlock (blk_Header b) = c_tipHash c -> record_for (c_store c) b n w r ->
  wp (extend_tip b (block_hash b) n w r) (extended c (block_hash b)) c.
Proof.
  intros Hc Hm Hf Hprev Hrec. pose proof Hc as [_ Ho Hi _ Hpt _ _].
  unfold extend_tip. apply wp_bind; [solve_mono|]. eapply wp_conseq; [by eapply connect_tip_wp|].
  intros [undo|e] c1; [|intros ->; by split; [split|]].
  intros (us' & -> & Hst & HC & Hd & Hsz). apply wp_bind; [solve_mono|].
  change (set_utxo us' c) with (set_store (c_store c) (set_utxo us' c)).
  eapply (or_disconnect_wp _ _ us' _ _ (fun _ _ => _)); [reflexivity|done|done|]. intros res s1 E1 L1.
  destruct (undo_rel p U (on_chain p bs) _ _ _ _ _ Ho Hi Hsz E1 L1) as [R1 Hres].
  destruct res as [[o k]|e].
  - destruct (Hres o k eq_refl) as (Hou & Hku & Hu).
    destruct (record_with_undo _ s1 b n w r o k undo _ Hrec R1 Hou Hku Hu) as [Hrec1 Hun].
    by apply (finish_wp c bs b n w us' undo).
  - apply extended_store. destruct (inv_frame p U c (set_store s1 c) bs) as [Hc1 _]; try done. apply Hc.
Qed.

Lemma no_undo_flag b n loc w : has_flag (bi_Status (new_record b n loc w)) StatusHaveUndo = false.
Proof. by destruct loc as [[? ?] ?]. Qed.

Lemma orphan_extend_wp c bs b n w r :
  chain_inv p U c -> main_of p U c bs -> fresh p U (c_store c) b n w ->
  hdr_PrevBlock (blk_Header b) = c_tipHash c -> record_for (c_store c) b n w r ->
  has_flag (bi_Status r) StatusHaveUndo = false ->
  wp (orphan_extend b (block_hash b) n w r) (extended c (block_hash b)) c.
Proof.
  intros Hc Hm Hf Hprev Hrec Hnf. pose proof Hc as [_ Ho Hi _ Hpt _ _].
  unfold orphan_extend. apply wp_bind.
  { intros u. apply mono_bind; [|solve_mono]. intros c0. unfold live.
    destruct (WriteUndo _ _ _) as [res s'] eqn:E. simpl. intros L. by eapply WriteUndo_law. }
  eapply wp_conseq; [by eapply connect_tip_wp|].
  intros [undo|e] c1; [|intros ->; by split; [split|]].
  intros (us' & -> & Hst & HC & Hd & Hsz). apply wp_bind; [solve_mono|].
  unfold wp, live. simpl. destruct (WriteUndo (c_store c) _ _) as [res s1] eqn:E1. simpl. intros L1.
  destruct (undo_rel p U (on_chain p bs) _ _ _ _ _ Ho Hi Hsz E1 L1) as [R1 Hres].
  destruct res as [[o k]|e].
  - destruct (Hres o k eq_refl) as (Hou & Hku & Hu).
    destruct (record_with_undo _ s1 b n w r o k undo _ Hrec R1 Hou Hku Hu) as [Hrec1 Hun].
    by apply (finish_wp c bs b n w us' undo).
  - apply (finish_wp c bs b n w us' undo); try done; [|by rewrite Hnf].
    destruct Hrec as [? ? ? ? ? ?]. constructor; try done. by apply (sr_data _ _ _ R1).
Qed.
End on_tip.

(** ** Side chains and reorganisations *)

Section side.
Context {St : Type} `{BS : BlockStore St} {BL : BlockStoreLaws St} `{EC : ECOps}.
Context (p : ChainParams) (U : list Block) (HU : universe p U).
#[local] Abbreviation genesis := (p_GenesisBlock p).
#[local] Abbreviation idx s := (v_index (st_view s)).
Implicit Types (s : St) (c : Chain St).

(** Changing [heightByHash] off the active chain. *)
Lemma heights_inv c bs hbh :
  chain_inv p U c -> main_of p U c bs -> heights_ok p U hbh ->
  (forall h, on_chain p bs h -> hbh !! h = c_heightByHash c !! h) ->
  chain_inv p U (set_heights hbh (c_hashByHeight c) c)
  /\ main_of p U (set_heights hbh (c_hashByHeight c) c) bs.
Proof.
  intros Hc Hm Hh Hsame. pose proof Hm as ([Hg Hl Hb Hhb Hr] & Hrest). pose proof Hc as [? ? ? ? ? ? _].
  assert (main_of p U (set_heights hbh (c_hashByHeight c) c) bs) as Hm'.
  { split; [|exact Hrest]. constructor; try done. intros i b Hi. simpl. rewrite Hsame; [by apply Hhb|].
    exists b. split; [by eapply list_elem_of_lookup_2|done]. }
  split; [|done]. constructor; try done. by exists bs.
Qed.

Lemma known_inv c bs b n w :
  chain_inv p U c -> main_of p U c bs -> fresh p U (c_store c) b n w -> ~ on_chain p bs (block_hash b) ->
  let c' := set_heights (<[block_hash b := n]> (c_heightByHash c)) (c_hashByHeight c) c in
  chain_inv p U c' /\ main_of p U c' bs.
Proof.
  intros Hc Hm Hf Hoff. apply heights_inv; try done.
  - pose proof (fresh_height p U HU _ _ _ _ (ci_index _ _ _ Hc) Hf). pose proof Hf as [? ? ? _].
    apply heights_ok_insert; try done; [apply Hc|lia].
  - intros h Hon. apply lookup_insert_ne. by intros <-.
Qed.

Lemma unknown_inv c h :
  chain_inv p U c -> ~ on_main c h ->
  chain_inv p U (set_heights (delete h (c_heightByHash c)) (c_hashByHeight c) c).
Proof.
  intros Hc Hoff. pose proof (ci_main _ _ _ Hc) as [bs Hm].
  apply (heights_inv c bs); try done.
  - intros h' n Hn. apply lookup_delete_Some in Hn as [_ Hn]. by apply (ci_heights _ _ _ Hc).
  - intros h' Hon. apply lookup_delete_ne. intros <-. by apply Hoff, (on_main_chain p U c bs).
Qed.

Lemma fresh_candidate c bs b n w :
  chain_inv p U c -> main_of p U c bs -> fresh p U (c_store c) b n w -> ~ on_chain p bs (block_hash b) ->
  candidate c (block_hash b) n w.
Proof.
  intros Hc Hm Hf Hoff. constructor.
  - intros z Hz. apply Hoff, (on_main_chain p U c bs); [done|by exists z].
  - intros r Hr. by eapply (fresh_known p U HU); [apply Hc|exact Hf|].
Qed.

Lemma heavier_le c w h : heavier c w h = true -> c_tipWork c <= w.
Proof. unfold heavier. rewrite orb_true_iff, andb_true_iff, Z.gtb_lt, Z.eqb_eq. lia. Qed.

(** The result of a step that may reorganise to the block with hash [h]. *)
Definition reorganised c (h : Hash) (r : result ChainErr unit) c' : Prop :=
  advances p U c c'
  /\ match r with
     | Ok _ => c_tipHash c' = h
     | Err _ => c_hashByHeight c' = c_hashByHeight c
     end.

Lemma reorg_step c bs b n w :
  chain_inv p U c -> main_of p U c bs -> fresh p U (c_store c) b n w -> ~ on_chain p bs (block_hash b) ->
  heavier c w (block_hash b) = true -> wp (reorg (block_hash b) n w) (reorganised c (block_hash b)) c.
Proof.
  intros Hc Hm Hf Hoff Hh. apply heavier_le in Hh.
  eapply wp_conseq; [eapply (reorg_wp p U HU); [exact Hc|exact Hm|by eapply fresh_candidate]|].
  intros [[]|e] c' (Hc' & _ & H).
  - destruct H as [Ht Hw]. split; [split; [done|lia]|done].
  - destruct H as [(E1 & E2 & E3 & E4 & E5) _]. split; [split; [done|lia]|done].
Qed.

(** A record of a fresh block off the active chain. *)
Lemma put_side c bs b n w r res s' :
  chain_inv p U c -> main_of p U c bs -> fresh p U (c_store c) b n w -> ~ on_chain p bs (block_hash b) ->
  record_for (c_store c) b n w r -> PutBlockIndex (c_store c) (block_hash b) r = (res, s') -> st_live s' ->
  chain_inv p U (set_store s' c) /\ main_of p U (set_store s' c) bs /\ fresh p U s' b n w.
Proof.
  intros Hc Hm Hf Hoff Hrec E L.
  destruct (put_fresh p U HU _ b n w r res s' (ci_store _ _ _ Hc) (ci_index _ _ _ Hc) Hf Hrec E L) as [G _].
  destruct (grown_main p U HU c bs s' _ Hc Hm Hoff G) as [Hc' Hm']. split_and!; try done.
  destruct Hf as [? ? ? (pr & w0 & Hpr & -> & Hw0 & ->)]. constructor; try done.
  destruct (grown_core _ _ _ _ _ _ _ G Hpr) as (pr' & Hpr' & E1 & E2). exists pr', w0. split_and!; congruence.
Qed.

Lemma put_ignore_wp c bs b n w r :
  chain_inv p U c -> main_of p U c bs -> fresh p U (c_store c) b n w -> ~ on_chain p bs (block_hash b) ->
  record_for (c_store c) b n w r ->
  wp (put_index_ignore (block_hash b) r)
    (fun res c' => res = Ok tt /\ exists s', c' = set_store s' c /\ chain_inv p U c' /\ main_of p U c' bs
       /\ fresh p U s' b n w) c.
Proof.
  intros Hc Hm Hf Hoff Hrec L. unfold put_index_ignore, live in *.
  destruct (PutBlockIndex (c_store c) (block_hash b) r) as [res s'] eqn:E. simpl in *. split; [done|].
  exists s'. split; [done|]. by eapply put_side.
Qed.

Lemma orphan_reorg_wp c bs b n w r :
  chain_inv p U c -> main_of p U c bs -> fresh p U (c_store c) b n w -> ~ on_chain p bs (block_hash b) ->
  record_for (c_store c) b n w r -> heavier c w (block_hash b) = true ->
  wp (orphan_reorg (block_hash b) n w r) (reorganised c (block_hash b)) c.
Proof.
  intros Hc Hm Hf Hoff Hrec Hh. unfold orphan_reorg. apply wp_bind.
  { intros []. apply mono_bind; [apply _|]. intros [] c0.
    pose proof (mono_reorg (block_hash b) n w c0) as H. destruct (reorg _ _ _ c0) as [[[]|e] c2]; [done|].
    intros L. apply H. by destruct (is_too_deep e). }
  eapply wp_conseq; [by eapply put_ignore_wp|]. intros res c1 (-> & s' & -> & Hc1 & Hm1 & Hf1).
  destruct (known_inv _ bs b n w Hc1 Hm1 Hf1 Hoff) as [Hc2 Hm2]. unfold known_at. apply wp_bind_mod.
  set (c2 := set_heights _ _ (set_store s' c)) in *.
  pose proof (reorg_step c2 bs b n w Hc2 Hm2 Hf1 Hoff Hh) as Hwp. unfold wp in *.
  destruct (reorg (block_hash b) n w c2) as [[[]|e] c3]; cbn [fst snd] in *.
  - intros L. by apply Hwp.
  - intros L. assert (live c3) as L3 by (by destruct (is_too_deep e)). destruct (Hwp L3) as [[Hc3 Hw3] Hb3].
    destruct (is_too_deep e); [by split|]. split; [|done]. split; [|done].
    apply unknown_inv; [done|]. intros [z Hz]. rewrite Hb3 in Hz.
    apply Hoff, (on_main_chain p U c bs); [done|by exists z].
Qed.
End side.
