(* ===== verification/Ancestors.v ===== *)
(** * The ancestors of a block

    [chain.go]'s [buildAncestorLookup], which the header checks use: on a consistent chain
    whose headers can be read it gives, at every height up to the parent, the header of the
    block's own branch, whether it is on the main chain or not ([ancestors_exact]). *)
From S2P Require Import Prelude Types Sha256 Crypto Target Params Script Utxo TxValidation.
From S2P Require Import BlockValidation Pow Ledger Store Chain ChainInv Reorg.
#[local] Open Scope Z_scope.
#[local] Open Scope go_scope.

Section ancestors.
Context {St : Type} `{BS : BlockStore St} {BL : BlockStoreLaws St} `{EC : ECOps}.
Context (p : ChainParams) (U : list Block) (HU : universe p U).
#[local] Abbreviation genesis := (p_GenesisBlock p).
#[local] Abbreviation ghash := (block_hash (p_GenesisBlock p)).
#[local] Abbreviation idx s := (v_index (st_view s)).
Implicit Types (s : St) (c : Chain St).

(** Blocks on top of each other, above the block [prev]. *)
Fixpoint on_top (prev : Hash) (bs : list Block) : Prop :=
  match bs with
  | [] => True
  | b :: bs => hdr_PrevBlock (blk_Header b) = prev /\ on_top (block_hash b) bs
  end.

Lemma on_top_snoc prev bs b :
  on_top prev (bs ++ [b]) <-> on_top prev bs /\ hdr_PrevBlock (blk_Header b) = last_hash prev bs.
Proof.
  revert prev. induction bs as [|x bs IH]; intros prev; cbn [on_top app].
  - unfold last_hash. simpl. tauto.
  - rewrite IH, last_hash_cons. tauto.
Qed.

Lemma linked_on_top s prev n bs : linked p U s prev n bs -> on_top prev bs.
Proof. revert prev n. induction bs as [|b bs IH]; intros prev n; [done|]. intros (? & _ & _ & _ & ?). split; [done|by eapply IH]. Qed.

(** Blocks of [U], each valid at some height. *)
Definition valid_blocks (bs : list Block) : Prop :=
  Forall (fun b => b ∈ U /\ exists n, ValidateBlockStructure b n p = Ok tt) bs.

Lemma replay_valid bs us : Forall (fun b => b ∈ U) bs -> replay p bs = Some us -> valid_blocks bs.
Proof.
  revert us. induction bs as [|b bs IH] using rev_ind; intros us Hin Hr; [constructor|].
  apply Forall_app in Hin as [Hin Hb]. rewrite replay_snoc in Hr. destruct (replay p bs) as [us0|]; [|done].
  apply Forall_app. split; [by eapply IH|]. apply connect_step_Ok in Hr as (Hv & _). apply Forall_singleton.
  split; [exact (Forall_inv Hb)|by eexists].
Qed.

Lemma linked_valid s prev n bs : linked p U s prev n bs -> valid_blocks bs.
Proof.
  revert prev n. induction bs as [|b bs IH]; intros prev n; [constructor|]. intros (_ & ? & ? & _ & ?).
  apply Forall_cons. split; [by split; [|eexists]|by eapply IH].
Qed.

(** The hash of a chain's last block is that of a block of [U], so it is not zero. *)
Lemma last_nonzero bs : valid_blocks bs -> last_hash ghash bs <> ZeroHash.
Proof.
  intros Hv. pose proof (un_nonzero _ _ HU) as Hz. rewrite Forall_forall in Hz.
  destruct bs as [|b bs _] using rev_ind; [apply Hz, (un_genesis _ _ HU)|].
  rewrite last_hash_snoc. apply Hz. apply Forall_app in Hv as [_ Hb]. by destruct (Forall_inv Hb).
Qed.

(** A chain is determined by its length and its last hash. *)
Lemma chain_unique bs1 : forall bs2, valid_blocks bs1 -> valid_blocks bs2 ->
  on_top ghash bs1 -> on_top ghash bs2 -> length bs1 = length bs2 -> last_hash ghash bs1 = last_hash ghash bs2 ->
  bs1 = bs2.
Proof.
  induction bs1 as [|b bs1 IH] using rev_ind; intros bs2 V1 V2 T1 T2 Hl Hh.
  { by destruct bs2. }
  destruct bs2 as [|b2 bs2 _] using rev_ind; [rewrite length_app in Hl; simpl in Hl; lia|].
  rewrite !last_hash_snoc in Hh. rewrite !length_app in Hl. cbn [length] in Hl.
  apply Forall_app in V1 as [V1 B1], V2 as [V2 B2]. destruct (Forall_inv B1) as (I1 & n1 & H1), (Forall_inv B2) as (I2 & n2 & H2).
  assert (b = b2) as -> by (by eapply (block_unique HU)).
  apply on_top_snoc in T1 as [T1 E1], T2 as [T2 E2]. f_equal. apply IH; try done; [lia|congruence].
Qed.

(** When the index knows the last block of a chain, it has the whole chain. *)
Lemma index_has_chain s bs r :
  index_ok p U s -> valid_blocks bs -> on_top ghash bs -> idx s !! last_hash ghash bs = Some r ->
  bi_Height r = len bs /\ forall i b, (genesis :: bs) !! i = Some b ->
    exists r', idx s !! block_hash b = Some r' /\ bi_Header r' = blk_Header b.
Proof.
  intros Hi. revert r. induction bs as [|b bs IH] using rev_ind; intros r Hv Ht Hr.
  - destruct (Hi _ _ Hr) as [g Hg].
    assert (g = genesis) as -> by (eapply (rec_unique p U HU); [exact Hg|apply (un_genesis _ _ HU)|apply (un_genesis_valid _ _ HU)|done]).
    split; [|intros i b Hb; apply list_lookup_singleton_Some in Hb as [_ <-]; exists r; split; [done|apply Hg]].
    destruct (ro_parent _ _ _ _ _ _ Hg) as [(_ & -> & _)|(pr & w & Hpr & _)]; [done|].
    exfalso. rewrite (un_genesis_prev _ _ HU) in Hpr. destruct (Hi _ _ Hpr) as [z Hz].
    pose proof (un_nonzero _ _ HU) as Hn. rewrite Forall_forall in Hn.
    by apply (Hn z (ro_in _ _ _ _ _ _ Hz)), (ro_hash _ _ _ _ _ _ Hz).
  - rewrite last_hash_snoc in Hr. apply Forall_app in Hv as [Hv Hb]. destruct (Forall_inv Hb) as (Hin & n & Hvb).
    apply on_top_snoc in Ht as [Ht Hprev]. destruct (Hi _ _ Hr) as [b' Hrec].
    assert (b' = b) as -> by (by eapply (rec_unique p U HU)).
    destruct (ro_parent _ _ _ _ _ _ Hrec) as [(-> & _)|(pr & w & Hpr & Hh & _)].
    { rewrite (un_genesis_prev _ _ HU) in Hprev. by destruct (last_nonzero bs Hv). }
    rewrite Hprev in Hpr. destruct (IH pr Hv Ht Hpr) as [Hp Hall]. split; [rewrite Hh, length_app; simpl; lia|].
    intros i x Hx. rewrite app_comm_cons in Hx. apply lookup_app_Some in Hx as [Hx|[_ Hx]]; [by apply (Hall i)|].
    apply list_lookup_singleton_Some in Hx as [_ <-]. exists r. split; [done|apply Hrec].
Qed.

(** Every header in the index can be read. *)
Definition readable s : Prop := forall h r, idx s !! h = Some r -> is_ok (GetHeader s h) = true.

Lemma read_header s h r : st_ok s -> readable s -> idx s !! h = Some r -> GetHeader s h = Ok (bi_Header r).
Proof.
  intros Ho Hr Hh. specialize (Hr h r Hh). destruct (GetHeader s h) as [hd|] eqn:E; [|done].
  apply GetHeader_sound in E as (r' & Hr' & <-); [|done]. congruence.
Qed.

(** The header at height [z] of the chain. *)
Definition header_at (bs : list Block) (z : Z) : option BlockHeader :=
  (fun b => blk_Header b) <$> ((genesis :: bs) !! Z.to_nat z).

(** The main chain at a height where it has the last block of [bs]. *)
Lemma main_ancestor c bs bm z :
  st_ok (c_store c) -> index_ok p U (c_store c) -> readable (c_store c) -> main_of p U c bm ->
  valid_blocks bs -> on_top ghash bs -> c_hashByHeight c !! len bs = Some (last_hash ghash bs) -> 0 <= z <= len bs ->
  getAncestorUnsafe c z = header_at bs z.
Proof.
  intros Ho Hi Hrd (Ha & _) Hv Ht Hm Hz. pose proof (ac_bhh _ _ _ _ _ _ _ Ha) as Hb. pose proof (ac_linked _ _ _ _ _ _ _ Ha) as Hl.
  rewrite Hb in Hm. destruct (Z.ltb_spec (len bs) 0); [lia|]. rewrite Nat2Z.id in Hm.
  destruct ((genesis :: bm) !! length bs) as [t|] eqn:Et; [|done]. injection Hm as Hm.
  assert (length bs <= length bm)%nat as Hle by (apply lookup_lt_Some in Et; simpl in Et; lia).
  assert (take (length bs) bm = bs) as E.
  { rewrite <- (take_drop (length bs) bm) in Hl. apply linked_app in Hl as [Hl _].
    apply chain_unique; [by eapply linked_valid|done|by eapply linked_on_top|done|by rewrite length_take; lia|].
    rewrite <- Hm. destruct bs as [|x bs _] using rev_ind; [by injection Et as <-|].
    rewrite length_app, Nat.add_comm in Et |- *. cbn [length Nat.add] in Et |- *. change ((genesis :: bm) !! S (length bs)) with (bm !! length bs) in Et.
    by rewrite (take_S_r _ _ _ Et), last_hash_snoc. }
  unfold getAncestorUnsafe, header_at. rewrite Hb. destruct (Z.ltb_spec z 0); [lia|].
  assert ((genesis :: bm) !! Z.to_nat z = (genesis :: bs) !! Z.to_nat z) as ->.
  { rewrite <- E. change (genesis :: take (length bs) bm) with (take (S (length bs)) (genesis :: bm)).
    by rewrite lookup_take_lt by lia. }
  destruct (lookup_lt_is_Some_2 (genesis :: bs) (Z.to_nat z)) as [x Hx]; [simpl; lia|]. rewrite Hx. cbn [fmap option_fmap option_map].
  assert (exists rt, idx (c_store c) !! last_hash ghash bs = Some rt) as [rt Hrt].
  { rewrite <- Hm. destruct (active_heights p U _ _ _ _ _ _ _ Ha Et) as (rt & Hrt & _). by exists rt. }
  destruct (index_has_chain _ _ _ Hi Hv Ht Hrt) as [_ Hall]. destruct (Hall _ _ Hx) as (r & Hr & Hh).
  by rewrite (read_header _ _ _ Ho Hrd Hr), Hh.
Qed.
Lemma header_at_snoc bs b z :
  header_at (bs ++ [b]) z = if bool_decide (z = len bs + 1) then Some (blk_Header b) else if bool_decide (0 <= z <= len bs) then header_at bs z else header_at (bs ++ [b]) z.
Proof.
  unfold header_at. rewrite app_comm_cons. destruct (bool_decide (z = len bs + 1)) eqn:E1; bool_to_prop.
  - subst z. rewrite lookup_app_r by (simpl; lia). replace (Z.to_nat (len bs + 1) - length (genesis :: bs))%nat with 0%nat by (simpl; lia). done.
  - destruct (bool_decide (0 <= z <= len bs)) eqn:E2; [|done]. bool_to_prop. by rewrite lookup_app_l by (simpl; lia).
Qed.

(** The walk adds the headers of the branch down to the main chain. *)
Lemma walk_exact c bm :
  st_ok (c_store c) -> index_ok p U (c_store c) -> readable (c_store c) -> main_of p U c bm ->
  forall bs r anc, valid_blocks bs -> on_top ghash bs -> idx (c_store c) !! last_hash ghash bs = Some r ->
    (forall z, z <= len bs -> anc !! z = None) ->
    let m := ancestor_walk (length bs) c (last_hash ghash bs) (len bs) anc in
    (forall z, len bs < z -> m !! z = anc !! z) /\
    (forall z, 0 <= z <= len bs ->
       match m !! z with Some hd => Some hd | None => getAncestorUnsafe c z end = header_at bs z).
Proof.
  intros Ho Hi Hrd Hm bs. induction bs as [|b bs IH] using rev_ind; intros r anc Hv Ht Hr Hanc; cbv zeta.
  - cbn [length ancestor_walk]. destruct (bool_decide _) eqn:Ed; bool_to_prop.
    { split; [done|]. intros z Hz. rewrite Hanc by lia. by eapply main_ancestor. }
    rewrite (read_header _ _ _ Ho Hrd Hr). destruct (index_has_chain _ _ _ Hi Hv Ht Hr) as [_ Hall].
    destruct (Hall 0%nat genesis eq_refl) as (r' & Hr' & Hh). change (last_hash ghash []) with ghash in Hr.
    assert (r' = r) as -> by congruence. rewrite Hh, (un_genesis_prev _ _ HU).
    assert (IsZero ZeroHash = true) as -> by reflexivity. split; intros z Hz.
    + by rewrite lookup_insert_ne by (simpl in Hz; lia).
    + assert (z = 0) as -> by (simpl in Hz; lia). by rewrite lookup_insert_eq.
  - rewrite length_app, Nat.add_comm. cbn [length Nat.add].
    assert (len (bs ++ [b]) = len bs + 1) as El by (rewrite length_app; simpl; lia).
    replace (Z.of_nat (S (length bs))) with (len bs + 1) by lia. rewrite El in Hanc. cbn [ancestor_walk].
    destruct (bool_decide _) eqn:Ed; bool_to_prop.
    { split; [done|]. intros z Hz. rewrite Hanc by lia. rewrite <- El in Ed. eapply main_ancestor; try done. lia. }
    rewrite (read_header _ _ _ Ho Hrd Hr). destruct (index_has_chain _ _ _ Hi Hv Ht Hr) as [_ Hall].
    destruct (Hall (S (length bs)) b) as (r' & Hr' & Hh).
    { change (genesis :: bs ++ [b]) with ((genesis :: bs) ++ [b]). rewrite lookup_app_r by (simpl; lia). simpl. by rewrite Nat.sub_diag. }
    rewrite last_hash_snoc in Hr. assert (r' = r) as -> by congruence. rewrite Hh.
    apply Forall_app in Hv as [Hv Hb]. apply on_top_snoc in Ht as [Ht Hprev]. rewrite Hprev.
    assert (exists r0, idx (c_store c) !! last_hash ghash bs = Some r0) as [r0 Hr0].
    { destruct bs as [|x bs' _] using rev_ind; [by destruct (Hall 0%nat genesis eq_refl) as (r0 & ? & _); exists r0|].
      destruct (Hall (S (length bs')) x) as (r0 & ? & _); [|rewrite last_hash_snoc; by exists r0].
      change (genesis :: (bs' ++ [x]) ++ [b]) with (((genesis :: bs') ++ [x]) ++ [b]).
      rewrite lookup_app_l by (rewrite length_app; simpl; lia). rewrite lookup_app_r by (simpl; lia). simpl. by rewrite Nat.sub_diag. }
    destruct (IsZero _) eqn:Ez.
    { exfalso. apply (last_nonzero bs Hv). unfold IsZero in Ez. by bool_to_prop. }
    replace (len bs + 1 - 1) with (len bs) by lia.
    destruct (IH r0 (<[len bs + 1 := blk_Header b]> anc) Hv Ht Hr0) as [Hhi Hlo].
    { intros z Hz. rewrite lookup_insert_ne by lia. apply Hanc. lia. }
    split; intros z Hz.
    + rewrite Hhi by lia. by rewrite lookup_insert_ne by lia.
    + rewrite header_at_snoc. destruct (bool_decide (z = len bs + 1)) eqn:E1; bool_to_prop.
      * subst z. by rewrite Hhi, lookup_insert_eq by lia.
      * rewrite bool_decide_eq_true_2 by lia. apply Hlo. lia.
Qed.

(** [buildAncestorLookup] finds every ancestor, on any branch the index knows. *)
Lemma ancestors_exact c bm bs r z :
  st_ok (c_store c) -> index_ok p U (c_store c) -> readable (c_store c) -> main_of p U c bm ->
  valid_blocks bs -> on_top ghash bs -> idx (c_store c) !! last_hash ghash bs = Some r -> 0 <= z <= len bs ->
  buildAncestorLookup c (last_hash ghash bs) (len bs) z = header_at bs z.
Proof.
  intros Ho Hi Hrd Hm Hv Ht Hr Hz. unfold buildAncestorLookup. rewrite Nat2Z.id.
  by apply (walk_exact c bm Ho Hi Hrd Hm bs r ∅ Hv Ht Hr).
Qed.
End ancestors.
