(* ===== verification/ChainSafety.v ===== *)
(** * The chain manager is safe

    [ProcessBlock] with the orphan queue, start-up on an empty store, and the states
    reachable from it: whatever blocks are submitted in whatever order, and whichever
    writes fail, the in-memory unspent set is the replay of the active chain.  Two
    assumptions besides the universe of blocks: the store stays within its address space
    ([live]) and [PutChainTip] does not fail ([tip_failure_desyncs] shows why). *)
From stdpp Require Import sorting.
From S2P Require Import Prelude Types Sha256 Crypto Target Params Script Utxo TxValidation.
From S2P Require Import BlockValidation Pow Ledger Store Chain ChainInv Reorg Accept Ancestors.
#[local] Open Scope Z_scope.
#[local] Open Scope go_scope.
Import MerkleFacts.

(** ** Checks before a block is stored *)

Section checks.
Context {St : Type} `{BS : BlockStore St} {BL : BlockStoreLaws St} `{EN : Engine} {EL : EngineLaws} `{EC : ECOps}.
Context (p : ChainParams) (U : list Block) (HU : universe p U).
#[local] Abbreviation genesis := (p_GenesisBlock p).
#[local] Abbreviation idx s := (v_index (st_view s)).
Implicit Types (s : St) (c : Chain St).

Lemma check_header_wp b ph n m c :
  wp (check_header b ph n m)
    (fun r c' => c' = c /\ (r = Ok tt ->
       ValidateHeader (blk_Header b) ph m (buildAncestorLookup c (hdr_PrevBlock (blk_Header b)) n) (c_params c) = Ok tt)) c.
Proof.
  unfold check_header. apply wp_bind_get. unfold wp, clift. simpl. intros _. split; [done|].
  by destruct (ValidateHeader _ _ _ _ _) as [[]|] eqn:E.
Qed.

Lemma check_block_wp b ph n m t c :
  wp (check_block b ph n m t)
    (fun r c' => c' = c /\ (r = Ok tt -> ValidateBlockStructure b m (c_params c) = Ok tt
       /\ ValidateHeaderTimestamp (blk_Header b) ph t (buildAncestorLookup c (hdr_PrevBlock (blk_Header b)) n) n
            (c_params c) = Ok tt)) c.
Proof.
  unfold check_block. apply wp_bind_get. apply wp_bind_lift; [|done]. intros [] Ht.
  unfold wp, clift. simpl. intros _. split; [done|].
  destruct (ValidateBlock b m (c_params c)) as [[]|] eqn:E; [|done]. intros _.
  split; [by apply ValidateBlock_structure|done].
Qed.

Lemma chain_work_wp b c :
  st_ok (c_store c) ->
  wp (chain_work b)
    (fun r c' => c' = c /\ forall w, r = Ok w -> exists pr w0,
       idx (c_store c) !! hdr_PrevBlock (blk_Header b) = Some pr /\ bi_ChainWork pr = Some w0
       /\ w = w0 + CalcWork (hdr_Bits (blk_Header b))) c.
Proof.
  intros Ho L. unfold chain_work, workForParentChain, cbind, sread in *. simpl in *.
  destruct (GetBlockIndex (c_store c) _) as [pr|e] eqn:E; simpl in *; [|done].
  apply GetBlockIndex_sound in E; [|done]. destruct (bi_ChainWork pr) as [w0|] eqn:Ew; simpl in *; [|done].
  split; [done|]. intros w [= <-]. by exists pr, w0.
Qed.

(** A block that passed the checks is fresh. *)
Lemma checked_fresh c bs b ph pr w0 :
  chain_inv p U c -> main_of p U c bs -> b ∈ U -> block_hash b <> block_hash genesis ->
  c_heightByHash c !! hdr_PrevBlock (blk_Header b) = Some ph ->
  idx (c_store c) !! hdr_PrevBlock (blk_Header b) = Some pr -> bi_ChainWork pr = Some w0 ->
  ValidateBlockStructure b (add32 ph 1) p = Ok tt ->
  fresh p U (c_store c) b (add32 ph 1) (w0 + CalcWork (hdr_Bits (blk_Header b))).
Proof.
  intros Hc (Ha & _) Hin Hne Hph Hpr Hw Hv. pose proof Hc as [_ Ho Hi Hh _ _ _].
  pose proof (heights_rec p U HU _ _ _ _ _ Hi (ac_genesis _ _ _ _ _ _ _ Ha) Hh Hph Hpr) as Eh.
  pose proof (height_bound p U HU _ _ _ Hi Hpr). constructor; try done. exists pr, w0.
  split_and!; try done. rewrite Eh in *. unfold add32. apply u32_small. unfold is_u32. lia.
Qed.

Lemma chain_inv_tick c : chain_inv p U c -> chain_inv p U (tick c).
Proof. intros [? ? ? ? ? ? ?]. by constructor. Qed.

Lemma off_genesis c bs h : main_of p U c bs -> ~ on_main c h -> h <> block_hash genesis.
Proof.
  intros Hm Hoff ->. apply Hoff, (on_main_chain p U c bs); [done|]. exists genesis. split; [set_solver|done].
Qed.

(** The block written: the chain keeps its invariant and there is a record to put. *)
Lemma write_block_wp c bs b n w :
  chain_inv p U c -> main_of p U c bs -> fresh p U (c_store c) b n w ->
  wp (swrite StoreBlock (fun s => WriteBlock s (block_hash b) b))
    (fun r c' => exists s', c' = set_store s' c /\ chain_inv p U c' /\ main_of p U c' bs
       /\ forall loc, r = Ok loc -> fresh p U s' b n w /\ record_for s' b n w (new_record b n loc w)) c.
Proof.
  intros Hc Hm Hf. pose proof Hc as [_ Ho Hi _ Hpt Hor _].
  apply wp_write. intros res s' E L. exists s'. split; [done|].
  pose proof (un_storable _ _ HU) as Hst. rewrite Forall_forall in Hst. specialize (Hst b (fr_in _ _ _ _ _ _ Hf)).
  destruct (block_rel p U (on_chain p bs) _ _ _ _ _ Ho Hi Hst E L) as [R Hres].
  destruct (inv_frame p U c (set_store s' c) bs) as [Hc' Hm']; try done. split_and!; try done.
  intros [[f o] k] Hloc. destruct res as [[[f' o'] k']|]; [|done]. injection Hloc as -> -> ->.
  destruct (Hres f o k eq_refl) as (? & ? & ? & ?). pose proof (fresh_rel p U _ _ _ _ _ _ R Hf) as Hf'.
  split; [done|]. apply (record_for_new p U HU); try done. apply Hc'.
Qed.
End checks.

(** ** One orphan *)

Section orphans.
Context {St : Type} `{BS : BlockStore St} {BL : BlockStoreLaws St} `{EN : Engine} {EL : EngineLaws} `{EC : ECOps}.
Context (env : Env) (p : ChainParams) (U : list Block) (HU : universe p U).
Context (Htip : forall (s : St) h n, (PutChainTip s h n).1 = Ok tt).
#[local] Abbreviation genesis := (p_GenesisBlock p).
#[local] Abbreviation idx s := (v_index (st_view s)).
Implicit Types (s : St) (c : Chain St).

(** No block but the one with hash [h] joins the active chain, unless the queue restarts. *)
Definition orphan_post c (h : Hash) (r : result ChainErr orphan_outcome) c' : Prop :=
  advances p U c c'
  /\ match r with
     | Ok Restart => c_tipHash c' = h
     | Ok Queued => (forall h', on_main c' h' -> on_main c h' \/ h' = h) /\ (c_tipHash c' = h \/ ~ on_main c' h)
     | _ => forall h', on_main c' h' -> on_main c h'
     end.

Lemma orphan_post_same c h r c' :
  advances p U c c' -> c_hashByHeight c' = c_hashByHeight c ->
  match r with Ok Restart => False | Ok Queued => ~ on_main c h | _ => True end -> orphan_post c h r c'.
Proof.
  intros Ha E Hr. split; [done|]. assert (forall h', on_main c' h' <-> on_main c h') as Hi.
  { intros h'. unfold on_main. by rewrite E. }
  destruct r as [[]|]; try done; intros; try (by apply Hi). split; [intros h' Hh'; left; by apply Hi|].
  right. by rewrite Hi.
Qed.

Lemma advances_refl c : chain_inv p U c -> advances p U c c.
Proof. by split. Qed.

(** The three ways a stored orphan is taken. *)
Lemma take_orphan_wp c bs b n w r :
  chain_inv p U c -> main_of p U c bs -> fresh p U (c_store c) b n w -> ~ on_main c (block_hash b) ->
  record_for (c_store c) b n w r -> has_flag (bi_Status r) StatusHaveUndo = false ->
  wp (do c1 <- cget;
      if bool_decide (hdr_PrevBlock (blk_Header b) = c_tipHash c1) then
        do _ <- orphan_extend b (block_hash b) n w r; cret Queued
      else if heavier c1 w (block_hash b) then
        do _ <- orphan_reorg (block_hash b) n w r; cret Restart
      else
        do _ <- put_index_ignore (block_hash b) r;
        do _ <- known_at (block_hash b) n; cret Queued)
    (orphan_post c (block_hash b)) c.
Proof.
  intros Hc Hm Hf Hoff Hrec Hnf. apply wp_bind_get.
  assert (~ on_chain p bs (block_hash b)) as Hoff' by (by rewrite <- (on_main_chain p U c bs)).
  destruct (bool_decide _) eqn:Et; [|destruct (heavier c w (block_hash b)) eqn:Eh].
  - bool_to_prop. apply wp_bind; [solve_mono|].
    eapply wp_conseq; [by apply (orphan_extend_wp p U HU Htip c bs)|].
    intros [[]|e] c' [Ha H]; [|by apply orphan_post_same]. apply wp_ret. split; [done|].
    destruct H as [Ht Hom]. split; [done|]. by left.
  - apply wp_bind; [solve_mono|]. eapply wp_conseq; [by apply (orphan_reorg_wp p U HU c bs)|].
    intros [[]|e] c' [Ha H]; [|by apply orphan_post_same]. apply wp_ret. by split.
  - apply wp_bind; [solve_mono|]. eapply wp_conseq; [by apply (put_ignore_wp p U HU c bs b n w)|].
    intros res c' (-> & s' & -> & Hc1 & Hm1 & Hf1). unfold known_at. apply wp_bind_mod, wp_ret.
    destruct (known_inv p U HU _ bs b n w Hc1 Hm1 Hf1 Hoff') as [Hc2 _].
    by apply orphan_post_same.
Qed.

Lemma process_orphan_wp c bs b :
  chain_inv p U c -> main_of p U c bs -> b ∈ U -> ~ on_main c (block_hash b) ->
  wp (process_orphan env (block_hash b) b) (orphan_post c (block_hash b)) c.
Proof.
  intros Hc Hm Hin Hoff. pose proof (advances_refl c Hc) as Hr.
  unfold process_orphan. apply wp_bind_get.
  destruct (c_heightByHash c !! hdr_PrevBlock (blk_Header b)) as [ph|] eqn:Hph;
    [|by apply wp_ret, orphan_post_same].
  apply wp_bind_read; [|intros; by apply orphan_post_same]. intros hd _.
  apply wp_bind; [solve_mono|]. eapply wp_conseq; [apply check_header_wp|].
  intros [[]|e] c0 [-> _]; [|by apply orphan_post_same].
  apply wp_bind; [solve_mono|]. unfold Now at 1, wp at 1. simpl. intros _.
  pose proof (chain_inv_tick p U c Hc) as Hct.
  apply wp_bind; [solve_mono|]. eapply wp_conseq; [apply check_block_wp|].
  intros [[]|e] c0 [-> Hv]; [|by apply orphan_post_same]. destruct (Hv eq_refl) as [Hv1 _]. clear Hv. rename Hv1 into Hv. simpl in Hv.
  rewrite (ci_params _ _ _ Hc) in Hv.
  apply wp_bind; [solve_mono|]. eapply wp_conseq; [apply chain_work_wp, Hct|].
  intros [w|e] c0 [-> Hw]; [|by apply orphan_post_same].
  destruct (Hw w eq_refl) as (pr & w0 & Hpr & Hpw & ->).
  assert (fresh p U (c_store (tick c)) b (add32 ph 1) (w0 + CalcWork (hdr_Bits (blk_Header b)))) as Hf.
  { eapply (checked_fresh p U HU (tick c) bs); try done. by eapply off_genesis. }
  apply wp_bind; [solve_mono|]. eapply wp_conseq; [by apply (write_block_wp p U HU (tick c) bs)|].
  intros [loc|e] c0 (s' & -> & Hc' & Hm' & Hloc); [|by apply orphan_post_same].
  destruct (Hloc loc eq_refl) as [Hf' Hrec].
  eapply wp_conseq; [apply (take_orphan_wp (set_store s' (tick c)) bs); try done; apply no_undo_flag|].
  done.
Qed.
End orphans.

(** ** The orphan pool is only changed by the pool's own operations *)

Section pool.
Context {St : Type} `{BS : BlockStore St} `{EN : Engine} `{EC : ECOps} (env : Env).
Implicit Types (c : Chain St).

Class KeepsPool {A} (m : cM St A) : Prop := keeps_pool : forall c, c_orphans (m c).2 = c_orphans c.

#[global] Instance pool_cret {A} (a : A) : KeepsPool (cret a).
Proof. by intros c. Qed.
#[global] Instance pool_cfail {A} e : KeepsPool (cfail e : cM St A).
Proof. by intros c. Qed.
#[global] Instance pool_cget : KeepsPool cget.
Proof. by intros c. Qed.
#[global] Instance pool_clift {E A} (w : E -> ChainErr) (r : result E A) : KeepsPool (clift w r).
Proof. by intros c. Qed.
#[global] Instance pool_sread {A} w (f : St -> result StoreErr A) : KeepsPool (sread w f).
Proof. by intros c. Qed.
#[global] Instance pool_swrite {A} w (f : St -> result StoreErr A * St) : KeepsPool (swrite w f).
Proof. intros c. unfold swrite. by destruct (f (c_store c)). Qed.
#[global] Instance pool_now : KeepsPool (Now env).
Proof. by intros c. Qed.
Lemma pool_cmod f : (forall c, c_orphans (f c) = c_orphans c) -> KeepsPool (cmod f).
Proof. intros Hf c. apply Hf. Qed.
#[global] Instance pool_bind {A B} (m : cM St A) (k : A -> cM St B) :
  KeepsPool m -> (forall a, KeepsPool (k a)) -> KeepsPool (cbind m k).
Proof.
  intros Hm Hk c. unfold cbind. specialize (Hm c). destruct (m c) as [[a|e] c'] eqn:E; [|done].
  cbn [snd] in *. rewrite <- Hm. apply Hk.
Qed.
#[global] Instance pool_cfor {A} (l : list A) (body : A -> cM St unit) :
  (forall x, KeepsPool (body x)) -> KeepsPool (cfor l body).
Proof. intros Hb. induction l as [|x l IH]; cbn [cfor]; apply _. Qed.
End pool.

Ltac solve_pool :=
  lazymatch goal with
  | |- forall _, _ => intros; solve_pool
  | |- KeepsPool (cbind _ _) => apply pool_bind; solve_pool
  | |- KeepsPool (cmod _) => apply pool_cmod; intros; (reflexivity || (repeat case_match; reflexivity))
  | |- KeepsPool (match ?x with _ => _ end) => destruct x; solve_pool
  | |- KeepsPool (let '(_, _) := ?x in _) => destruct x; solve_pool
  | |- KeepsPool (if ?x then _ else _) => destruct x; solve_pool
  | |- KeepsPool (let _ := _ in _) => cbv zeta; solve_pool
  | |- KeepsPool _ => apply _
  end.

Section pool_ops.
Context {St : Type} `{BS : BlockStore St} `{EN : Engine} `{EC : ECOps} (env : Env).
Implicit Types (c : Chain St).

#[global] Instance pool_persist b u h : KeepsPool (persistUtxoChanges b u h).
Proof. unfold persistUtxoChanges. solve_pool. Qed.
#[global] Instance pool_disconnect_at h : KeepsPool (disconnect_at h).
Proof. unfold disconnect_at, persistUtxoDisconnect. solve_pool. Qed.
#[global] Instance pool_unlink_at h : KeepsPool (unlink_at (St := St) h).
Proof. unfold unlink_at. solve_pool. Qed.
#[global] Instance pool_connect_at h x : KeepsPool (connect_at h x).
Proof. unfold connect_at. solve_pool. Qed.
#[global] Instance pool_connect_all h hs acc : KeepsPool (connect_all h hs acc).
Proof. revert h acc. induction hs as [|x hs IH]; intros h acc; cbn [connect_all]; solve_pool. Qed.
#[global] Instance pool_record_undo e : KeepsPool (record_undo e).
Proof. destruct e. unfold record_undo. solve_pool. Qed.
#[global] Instance pool_reorg h n w : KeepsPool (reorg h n w).
Proof.
  intros c. unfold reorg, cloneUtxoSet. assert (KeepsPool (reorg_body h n w)) as H.
  { unfold reorg_body. solve_pool. }
  specialize (H (set_sets (c_sets c ++ [clone_entries (UtxoSet_of c)]) (c_utxoSet c) c)).
  by destruct (reorg_body h n w _) as [[[]|e] c2].
Qed.
#[global] Instance pool_or_disconnect {A} b u (m : cM St A) : KeepsPool m -> KeepsPool (or_disconnect b u m).
Proof. intros Hm c. unfold or_disconnect. specialize (Hm c). by destruct (m c) as [[]]. Qed.
#[global] Instance pool_extendChain h n w : KeepsPool (extendChain h n w).
Proof. unfold extendChain. solve_pool. Qed.
#[global] Instance pool_put_ignore h r : KeepsPool (put_index_ignore h r).
Proof. intros c. unfold put_index_ignore. by destruct (PutBlockIndex _ _ _). Qed.
#[global] Instance pool_orphan_extend b h n w r : KeepsPool (orphan_extend b h n w r).
Proof.
  unfold orphan_extend, connect_tip. apply pool_bind; [solve_pool|]. intros u. apply pool_bind; [|solve_pool].
  intros c. by destruct (WriteUndo _ _ _).
Qed.
#[global] Instance pool_orphan_reorg h n w r : KeepsPool (orphan_reorg h n w r).
Proof.
  unfold orphan_reorg, known_at. apply pool_bind; [solve_pool|]. intros _. apply pool_bind; [solve_pool|].
  intros _ c. pose proof (pool_reorg h n w c) as H. destruct (reorg h n w c) as [[[]|e] c2]; [done|].
  by destruct (is_too_deep e).
Qed.
#[global] Instance pool_process_orphan h b : KeepsPool (process_orphan env h b).
Proof.
  unfold process_orphan, check_header, check_block, chain_work, workForParentChain, known_at. solve_pool.
Qed.
End pool_ops.

(** ** The orphan queue *)

Lemma map_to_list_filter_perm {A} (P : Hash * A -> Prop) `{forall x, Decision (P x)} (m : gmap Hash A) :
  map_to_list (filter P m) ≡ₚ filter P (map_to_list m).
Proof.
  apply NoDup_Permutation; [apply NoDup_map_to_list|apply NoDup_filter, NoDup_map_to_list|].
  intros [k x]. rewrite elem_of_map_to_list, map_lookup_filter_Some, list_elem_of_filter, elem_of_map_to_list.
  naive_solver.
Qed.

Section queue.
Context {St : Type} `{BS : BlockStore St} `{EN : Engine} `{EC : ECOps} (env : Env).
Implicit Types (c : Chain St).

Lemma take_children_spec (parent : Hash) c :
  exists l, take_children parent c
      = (Ok l, set_orphans (filter (fun kv => ~ is_child parent kv) (c_orphans c)) c)
    /\ l ≡ₚ filter (is_child parent) (map_to_list (c_orphans c)).
Proof. eexists. split; [reflexivity|]. apply merge_sort_Permutation. Qed.

Lemma take_children_size (parent : Hash) (m : gmap Hash orphanBlock) :
  (length (filter (is_child parent) (map_to_list m))
   + size (filter (fun kv => ~ is_child parent kv) m))%nat = size m.
Proof.
  rewrite <- (map_to_list_filter_perm (is_child parent) m), length_map_to_list.
  rewrite <- map_size_disj_union by apply map_disjoint_filter_complement.
  by rewrite map_filter_union_complement.
Qed.

Lemma orphan_batch_pool l : forall c q,
  c_orphans (orphan_batch env c l q).2 = c_orphans c
  /\ (length (orphan_batch env c l q).1 <= length q + length l)%nat.
Proof.
  induction l as [|[h ob] l IH]; intros c q; cbn [orphan_batch]; [split; [done|simpl; lia]|].
  pose proof (pool_process_orphan env h (ob_block ob) c) as Hp.
  destruct (process_orphan env h (ob_block ob) c) as [[[]|e] c'] eqn:E; cbn [snd] in Hp;
    try (destruct (IH c' q) as [H1 H2]; simpl length; split; [congruence|lia]).
  - destruct (IH c' (q ++ [h])) as [H1 H2]. rewrite length_app in H2. simpl in *. split; [congruence|lia].
  - simpl. split; [done|lia].
Qed.

Lemma orphan_loop_ends fuel : forall c q,
  (length q + size (c_orphans c) <= fuel)%nat -> (orphan_loop env fuel c q).1 = [].
Proof.
  induction fuel as [|fuel IH]; intros c q Hf; destruct q as [|parent q]; try done; [simpl in Hf; lia|].
  cbn [orphan_loop]. destruct (take_children_spec parent c) as (l & -> & Hl).
  set (c' := set_orphans _ c). destruct (orphan_batch_pool l c' q) as [Hp Hlen].
  destruct (orphan_batch env c' l q) as [q' c''] eqn:E. cbn [fst snd] in *. apply IH.
  rewrite Hp. simpl. apply Permutation_length in Hl. pose proof (take_children_size parent (c_orphans c)).
  simpl in Hf. lia.
Qed.

(** [processOrphans] ends with an empty queue: the fuel is enough. *)
Lemma processOrphans_terminates c parent :
  (orphan_loop env (S (size (c_orphans c))) c [parent]).1 = [].
Proof. apply orphan_loop_ends. simpl. lia. Qed.
End queue.

Section queue_inv.
Context {St : Type} `{BS : BlockStore St} {BL : BlockStoreLaws St} `{EN : Engine} {EL : EngineLaws} `{EC : ECOps}.
Context (env : Env) (p : ChainParams) (U : list Block) (HU : universe p U).
Context (Htip : forall (s : St) h n, (PutChainTip s h n).1 = Ok tt).
#[local] Abbreviation genesis := (p_GenesisBlock p).
#[local] Abbreviation idx s := (v_index (st_view s)).
Implicit Types (s : St) (c : Chain St).

Lemma batch_mono l : forall c q, live (orphan_batch env c l q).2 -> live c.
Proof.
  induction l as [|[h ob] l IH]; intros c q; cbn [orphan_batch]; [done|].
  pose proof (mono_process_orphan env h (ob_block ob) c) as Hm.
  destruct (process_orphan env h (ob_block ob) c) as [[[]|e] c']; intros L; apply Hm; try done; by eapply IH.
Qed.

Lemma loop_mono fuel : forall c q, live (orphan_loop env fuel c q).2 -> live c.
Proof.
  induction fuel as [|fuel IH]; intros c q; destruct q as [|parent q]; try done. cbn [orphan_loop].
  destruct (take_children_spec parent c) as (l & -> & _). set (c' := set_orphans _ c).
  destruct (orphan_batch env c' l q) as [q' c''] eqn:E. intros L. apply IH in L.
  change (live c). change (live c'). apply (batch_mono l c' q). by rewrite E.
Qed.

(** Children of the tip, or of a block off the active chain, are off the active chain. *)
Lemma children_off c q b :
  chain_inv p U c -> c_tipHash c = q \/ ~ on_main c q -> q <> ZeroHash ->
  b ∈ U -> hdr_PrevBlock (blk_Header b) = q -> ~ on_main c (block_hash b).
Proof.
  intros Hc Hq Hz Hb Hprev Hon. pose proof (ci_main _ _ _ Hc) as [bs Hm].
  pose proof Hm as (Ha & _ & Hti & _). pose proof (proj1 (on_main_chain p U c bs _ Hm) Hon) as (x & Hx & E).
  apply list_elem_of_lookup in Hx as [i Hx].
  assert (x ∈ U) as HxU.
  { destruct i; [injection Hx as <-; apply (un_genesis _ _ HU)|]. by eapply linked_lookup; [apply Ha|exact Hx]. }
  pose proof (header_unique HU x b HxU Hb E) as Eh. rewrite <- Eh in Hprev. clear Eh.
  destruct i as [|i]; [injection Hx as <-; rewrite (un_genesis_prev _ _ HU) in Hprev; congruence|].
  change (bs !! i = Some x) in Hx. pose proof (ac_linked _ _ _ _ _ _ _ Ha) as Hl.
  rewrite <- (take_drop_middle bs i x Hx) in Hl. apply linked_app in Hl as [_ (Hpx & _)].
  assert ((genesis :: bs) !! i = Some (List.last (genesis :: take i bs) genesis)
    /\ block_hash (List.last (genesis :: take i bs) genesis) = q) as [Hi Hq'].
  { destruct i as [|i]; [split; [done|by transitivity (hdr_PrevBlock (blk_Header x))]|].
    destruct (bs !! i) as [y|] eqn:Ey; [|apply lookup_ge_None in Ey; apply lookup_lt_Some in Hx; lia].
    rewrite (take_S_r _ _ y Ey), app_comm_cons, last_last in *. rewrite last_hash_snoc in Hpx.
    split; [done|congruence]. }
  destruct Hq as [Hq|Hq].
  - destruct (tip_record p U c bs Hm) as (r & Hr & Hh). rewrite Hq in Hr.
    destruct (active_heights p U _ _ _ _ _ _ _ Ha Hi) as (r' & Hr' & Hh'). rewrite Hq' in Hr'.
    assert (r' = r) as -> by congruence. apply lookup_lt_Some in Hx. lia.
  - apply Hq, (on_main_chain p U c bs); [done|]. eexists. split; [by eapply list_elem_of_lookup_2|done].
Qed.

(** The waiting children of the queued blocks are off the active chain. *)
Definition queue_ok c (q : list Hash) : Prop :=
  forall parent h ob, parent ∈ q -> c_orphans c !! h = Some ob -> is_child parent (h, ob) -> ~ on_main c h.

Lemma queue_ok_head c b0 :
  chain_inv p U c -> b0 ∈ U -> c_tipHash c = block_hash b0 \/ ~ on_main c (block_hash b0) ->
  queue_ok c [block_hash b0].
Proof.
  intros Hc Hb0 Hq parent h ob Hp Ho Hch. apply list_elem_of_singleton in Hp as ->.
  destruct (ci_orphans _ _ _ Hc h ob Ho) as [HbU <-]. eapply children_off; try done.
  pose proof (un_nonzero _ _ HU) as Hz. rewrite Forall_forall in Hz. by apply Hz.
Qed.

Definition batch_ok c (l : list (Hash * orphanBlock)) : Prop :=
  NoDup (map fst l) /\ Forall (fun kv => ob_block kv.2 ∈ U /\ block_hash (ob_block kv.2) = kv.1
                                         /\ ~ on_main c kv.1 /\ c_orphans c !! kv.1 = None) l.

Lemma advances_trans c1 c2 c3 : advances p U c1 c2 -> advances p U c2 c3 -> advances p U c1 c3.
Proof. intros [_ H1] [H2 H3]. split; [done|lia]. Qed.

Lemma orphan_batch_inv l : forall c q,
  chain_inv p U c -> batch_ok c l -> queue_ok c q -> live (orphan_batch env c l q).2 ->
  advances p U c (orphan_batch env c l q).2
  /\ queue_ok (orphan_batch env c l q).2 (orphan_batch env c l q).1.
Proof.
  induction l as [|[h ob] l IH]; intros c q Hc [Hnd Hall] Hq; cbn [orphan_batch]; [by split; [split|]|].
  cbn [map fst] in Hnd. apply NoDup_cons in Hnd as [Hni Hnd]. apply Forall_cons in Hall as [(HbU & Hh & Hoff & Hno) Hall].
  cbn [fst snd] in *. pose proof (ci_main _ _ _ Hc) as [bs Hm].
  pose proof (process_orphan_wp env p U HU Htip c bs (ob_block ob) Hc Hm HbU) as Hwp.
  rewrite Hh in Hwp. specialize (Hwp Hoff). unfold wp in Hwp.
  pose proof (pool_process_orphan env h (ob_block ob) c) as Hp.
  destruct (process_orphan env h (ob_block ob) c) as [r c'] eqn:E. cbn [fst snd] in *.
  assert (forall q', live c' -> (forall h', on_main c' h' -> on_main c h' \/ h' = h) ->
    advances p U c c' -> queue_ok c' q' -> live (orphan_batch env c' l q').2 ->
    advances p U c (orphan_batch env c' l q').2
    /\ queue_ok (orphan_batch env c' l q').2 (orphan_batch env c' l q').1) as Hrest.
  { intros q' L' Hom Ha Hq' L. destruct (IH c' q') as [Ha2 Hq2]; try done; [apply Ha| |].
    - split; [done|]. rewrite Forall_forall in Hall |- *. intros [h2 ob2] Hin.
      destruct (Hall _ Hin) as (? & ? & ? & ?). cbn [fst snd] in *. split_and!; try done; [|congruence].
      intros Hon. destruct (Hom h2 Hon) as [?| ->]; [done|]. apply Hni.
      apply list_elem_of_fmap. by exists (h, ob2).
    - split; [by eapply advances_trans|done]. }
  assert (forall q', (forall h', on_main c' h' -> on_main c h' \/ h' = h) -> queue_ok c q' -> queue_ok c' q') as Hqk.
  { intros q' Hom Hq' parent x ox Hpar Hx Hch Hon. rewrite Hp in Hx.
    destruct (Hom x Hon) as [Hx'|Ex]; [by apply (Hq' parent x ox)|subst x; congruence]. }
  destruct r as [[]|e]; cbn [fst snd]; intros L; pose proof L as L'; try apply batch_mono in L';
    destruct (Hwp L') as [Ha Hpost].
  - apply Hrest; try done; [by left; apply Hpost|]. apply Hqk; [|done]. by left; apply Hpost.
  - destruct Hpost as [Hom Ht]. apply Hrest; try done. intros parent x ox Hpar.
    apply elem_of_app in Hpar as [Hpar|Hpar]; [by apply (Hqk q)|]. rewrite <- Hh in Hpar, Ht.
    by apply (queue_ok_head c' (ob_block ob)); [apply Ha| | |].
  - split; [done|]. rewrite <- Hh. apply queue_ok_head; [apply Ha|done|left; congruence].
  - apply Hrest; try done; [by left; apply Hpost|]. apply Hqk; [|done]. by left; apply Hpost.
Qed.

Lemma set_orphans_inv c o :
  chain_inv p U c ->
  (forall h ob, o !! h = Some ob -> ob_block ob ∈ U /\ block_hash (ob_block ob) = h) ->
  chain_inv p U (set_orphans o c).
Proof. intros [? ? ? ? ? _ ?] Ho. by constructor. Qed.

Lemma taken_ok c parent q l :
  chain_inv p U c -> queue_ok c (parent :: q) -> l ≡ₚ filter (is_child parent) (map_to_list (c_orphans c)) ->
  let c' := set_orphans (filter (fun kv => ~ is_child parent kv) (c_orphans c)) c in
  chain_inv p U c' /\ batch_ok c' l /\ queue_ok c' q.
Proof.
  intros Hc Hq Hl c'. split_and!.
  - apply set_orphans_inv; [done|]. intros h ob Ho. apply map_lookup_filter_Some in Ho as [Ho _].
    by apply (ci_orphans _ _ _ Hc).
  - rewrite <- map_to_list_filter_perm in Hl. split.
    + change (map fst l) with (fst <$> l). rewrite Hl. apply NoDup_fst_map_to_list.
    + apply Forall_forall. intros [h ob] Hin. rewrite Hl, elem_of_map_to_list, map_lookup_filter_Some in Hin.
      destruct Hin as [Ho Hch]. destruct (ci_orphans _ _ _ Hc h ob Ho) as [HbU Hh]. cbn [fst snd].
      split_and!; try done; [apply (Hq parent h ob); try done; by left|].
      apply map_lookup_filter_None. right. intros x Hx. simpl in Hx. assert (x = ob) as -> by congruence. naive_solver.
  - intros par h ob Hpar Ho Hch. apply map_lookup_filter_Some in Ho as [Ho _].
    apply (Hq par h ob); try done. by right.
Qed.

Lemma orphan_loop_inv fuel : forall c q,
  chain_inv p U c -> queue_ok c q -> live (orphan_loop env fuel c q).2 ->
  advances p U c (orphan_loop env fuel c q).2.
Proof.
  induction fuel as [|fuel IH]; intros c q Hc Hq; destruct q as [|parent q]; try (by split).
  cbn [orphan_loop]. destruct (take_children_spec parent c) as (l & -> & Hl).
  destruct (taken_ok c parent q l Hc Hq Hl) as (Hc' & Hb & Hq'). set (c' := set_orphans _ c) in *.
  pose proof (orphan_batch_inv l c' q Hc' Hb Hq') as Hi.
  destruct (orphan_batch env c' l q) as [q' c''] eqn:E. cbn [fst snd] in Hi. intros L.
  destruct (Hi (loop_mono _ _ _ L)) as [Ha Hq'']. eapply advances_trans; [exact Ha|]. by apply IH; [apply Ha| |].
Qed.

#[global] Instance mono_processOrphans h : Mono (processOrphans env h).
Proof. intros c. apply loop_mono. Qed.

Lemma processOrphans_wp c b0 :
  chain_inv p U c -> b0 ∈ U -> c_tipHash c = block_hash b0 \/ ~ on_main c (block_hash b0) ->
  wp (processOrphans env (block_hash b0)) (fun r c' => r = Ok tt /\ advances p U c c') c.
Proof.
  intros Hc Hb Hq L. split; [done|]. apply orphan_loop_inv; [done|by apply queue_ok_head|done].
Qed.
End queue_inv.

(** ** [ProcessBlock] *)

Section process.
Context {St : Type} `{BS : BlockStore St} {BL : BlockStoreLaws St} `{EN : Engine} {EL : EngineLaws} `{EC : ECOps}.
Context (env : Env) (p : ChainParams) (U : list Block) (HU : universe p U).
Context (Htip : forall (s : St) h n, (PutChainTip s h n).1 = Ok tt).
#[local] Abbreviation genesis := (p_GenesisBlock p).
#[local] Abbreviation idx s := (v_index (st_view s)).
Implicit Types (s : St) (c : Chain St).

#[local] Instance mono_add_orphan b h : Mono (add_orphan env b h).
Proof.
  unfold add_orphan, evictExpiredOrphans. apply mono_bind; [solve_mono|]. intros _. apply mono_bind; [apply _|].
  intros c1. apply mono_bind; [|solve_mono]. destruct (_ >=? _); [|apply _].
  intros c. unfold evictRandomOrphan. by destruct (_ !! _).
Qed.

Lemma add_orphan_wp c b :
  chain_inv p U c -> b ∈ U -> wp (add_orphan env b (block_hash b)) (fun _ c' => advances p U c c') c.
Proof.
  intros Hc Hb L. pose proof (ci_orphans _ _ _ Hc) as Ho.
  assert (forall c1, chain_inv p U c1 -> c_tipWork c1 = c_tipWork c -> forall now,
    advances p U c (set_orphans (<[block_hash b := {| ob_block := b; ob_addedAt := now |}]> (c_orphans c1)) (tick c1)))
    as Hadd.
  { intros c1 Hc1 E now. split; [|simpl; lia]. apply set_orphans_inv; [by apply chain_inv_tick|].
    intros h ob. rewrite lookup_insert_Some. intros [[<- <-]|[_ Hx]]; [done|by apply (ci_orphans _ _ _ Hc1)]. }
  unfold add_orphan, evictExpiredOrphans, cbind, WallNow, cmod, cget in *. cbn [snd fst] in *.
  set (c1 := set_orphans (filter _ _) (tick c)) in *.
  assert (chain_inv p U c1) as Hc1.
  { apply set_orphans_inv; [by apply chain_inv_tick|]. intros h ob Hx.
    apply map_lookup_filter_Some in Hx as [Hx _]. by apply Ho. }
  destruct (Z.of_nat (size (c_orphans c1)) >=? MaxOrphanBlocks); [|by apply (Hadd c1 Hc1)].
  unfold evictRandomOrphan. destruct (_ !! _) as [h|]; [|by apply (Hadd (tick c1)); [apply chain_inv_tick|]].
  apply (Hadd (tick (set_orphans (delete h (c_orphans c1)) c1))); [|done]. apply chain_inv_tick, set_orphans_inv; [done|].
  intros h' ob Hx. apply lookup_delete_Some in Hx as [_ Hx]. by apply (ci_orphans _ _ _ Hc1).
Qed.

(** The blocks [bs] are on top of each other above genesis, each obeys every rule on top of
    the ones before, and so does [b] on top of them. *)
Definition connects (bs : list Block) (b : Block) : Prop :=
  Forall (fun b => b ∈ U) bs /\ on_top (block_hash genesis) (bs ++ [b])
  /\ exists us us', replay p bs = Some us /\ connect_step p us (len bs + 1) b = Some us'.

Definition accepted (b : Block) : Prop := exists bs, connects bs b.

(** The header of [b] passed the engine's checks and those of its time, at the height above
    the blocks [bs], against the last of them as its parent and, when the store can read
    the headers it indexes, with exactly the headers of [bs] as its ancestors. *)
Definition header_checked (s : St) (now : Z) (bs : list Block) (b : Block) : Prop :=
  let parent := blk_Header (List.last bs genesis) in
  exists getAncestor,
    ValidateHeader (blk_Header b) parent (len bs + 1) getAncestor p = Ok tt
    /\ ValidateHeaderTimestamp (blk_Header b) parent now getAncestor (len bs) p = Ok tt
    /\ (readable s -> forall z, 0 <= z <= len bs ->
          getAncestor z = (fun x => blk_Header x) <$> ((genesis :: bs) !! Z.to_nat z)).

(** The tip of a consistent chain was accepted. *)
Lemma tip_accepted c b n :
  chain_inv p U c -> b ∈ U -> ValidateBlockStructure b n p = Ok tt ->
  block_hash b <> block_hash genesis -> c_tipHash c = block_hash b -> accepted b.
Proof.
  intros Hc Hin Hv Hne Ht. destruct (ci_main _ _ _ Hc) as [bs (Ha & _ & Hti & _)]. rewrite Ht in Hti.
  destruct bs as [|b' bs _] using rev_ind; [done|]. rewrite last_hash_snoc in Hti.
  pose proof (ac_linked _ _ _ _ _ _ _ Ha) as Hl. pose proof (ac_replay _ _ _ _ _ _ _ Ha) as Hr.
  destruct (linked_lookup p U _ _ _ (bs ++ [b']) (length bs) b' Hl) as (Hin' & Hv' & _); [by apply list_lookup_middle|].
  assert (b' = b) as -> by (by eapply (block_unique HU)).
  rewrite replay_snoc in Hr. destruct (replay p bs) as [us|] eqn:Er; [|done].
  exists bs. split_and!; [|by eapply linked_on_top|by exists us, (UtxoSet_of c)].
  apply linked_Forall, Forall_app in Hl. apply Hl.
Qed.

(** What [ProcessBlock] does once a side block is recorded. *)
Definition side_reorg (h : Hash) (n w : Z) : cM St Z := fun c1 =>
  match reorg h n w c1 with
  | (Ok _, c2) => (do _ <- processOrphans env h; cret n) c2
  | (Err e, c2) =>
      if is_too_deep e then
        (do _ <- known_at h n; do _ <- processOrphans env h; cfail (SideChainDeep n e)) c2
      else (Err (ReorgFailed h e), c2)
  end.

#[local] Abbreviation known h n c2 := (set_heights (<[h := n]> (c_heightByHash c2)) (c_hashByHeight c2) c2).

#[local] Instance mono_side_reorg h n w : Mono (side_reorg h n w).
Proof.
  intros c. unfold side_reorg. pose proof (mono_reorg h n w c) as H.
  destruct (reorg h n w c) as [[[]|e] c2]; cbn [snd] in H;
    [intros L; exact (H (loop_mono env _ c2 [h] L))|].
  destruct (is_too_deep e); [|done]. intros L. exact (H (loop_mono env _ (known h n c2) [h] L)).
Qed.

Lemma side_reorg_wp c bs b n w :
  chain_inv p U c -> main_of p U c bs -> fresh p U (c_store c) b n w -> ~ on_chain p bs (block_hash b) ->
  heavier c w (block_hash b) = true ->
  wp (side_reorg (block_hash b) n w) (fun r c' => advances p U c c' /\ (is_ok r = true -> accepted b)) c.
Proof.
  intros Hc Hm Hf Hoff Hh. pose proof (fr_in _ _ _ _ _ _ Hf) as Hin.
  pose proof (reorg_step p U HU c bs b n w Hc Hm Hf Hoff Hh) as Hwp.
  pose proof (reorg_wp p U HU c bs _ n w Hc Hm (fresh_candidate p U HU c bs b n w Hc Hm Hf Hoff)) as Hwp2.
  unfold side_reorg, wp in *. destruct (reorg (block_hash b) n w c) as [[[]|e] c2]; cbn [fst snd] in *.
  - intros L. pose proof (loop_mono env _ c2 [block_hash b] L) as L2. destruct (Hwp L2) as [Ha Ht].
    destruct (processOrphans_wp env p U HU Htip c2 b (proj1 Ha) Hin (or_introl Ht) L) as [_ Ha2].
    split; [by eapply advances_trans|intros _]. by eapply tip_accepted; [apply Ha| |apply Hf|apply Hf|].
  - destruct (is_too_deep e) eqn:Ed.
    2:{ intros L. split; [by apply Hwp|done]. }
    intros L. pose proof (loop_mono env _ (known (block_hash b) n c2) [block_hash b] L) as L2. destruct (Hwp L2) as [Ha Ht].
    destruct (Hwp2 L2) as (_ & _ & (E1 & E2 & E3 & E4 & E5) & R).
    pose proof (ci_main _ _ _ (proj1 Ha)) as [bs2 Hm2].
    assert (~ on_main c2 (block_hash b)) as Hoff2.
    { intros [z Hz]. rewrite Ht in Hz. apply Hoff, (on_main_chain p U c bs); [done|by exists z]. }
    destruct (known_inv p U HU c2 bs2 b n w (proj1 Ha) Hm2) as [Hc3 _].
    { by eapply fresh_rel. }
    { by rewrite <- (on_main_chain p U c2 bs2). }
    destruct (processOrphans_wp env p U HU Htip _ b Hc3 Hin (or_intror Hoff2) L) as [_ Ha2].
    split; [by eapply advances_trans; [exact Ha|exact Ha2]|done].
Qed.

Lemma side_record_wp c bs b n w r :
  chain_inv p U c -> main_of p U c bs -> fresh p U (c_store c) b n w -> ~ on_chain p bs (block_hash b) ->
  record_for (c_store c) b n w r ->
  wp (swrite StoreIndex (fun s => PutBlockIndex s (block_hash b) r))
    (fun _ c' => exists s', c' = set_store s' c /\ chain_inv p U c' /\ main_of p U c' bs /\ fresh p U s' b n w) c.
Proof.
  intros Hc Hm Hf Hoff Hrec. apply wp_write. intros res s' E L. exists s'. split; [done|]. by eapply put_side.
Qed.

(** The three branches of [ProcessBlock] for a block whose parent is known. *)
Definition accept (c0 : Chain St) (block : Block) (n w : Z) (r : DiskBlockIndex) : cM St Z :=
  let h := block_hash block in
  if bool_decide (hdr_PrevBlock (blk_Header block) = c_tipHash c0) then
    do _ <- extend_tip block h n w r; do _ <- processOrphans env h; cret n
  else if heavier c0 w h then
    do _ <- swrite StoreIndex (fun s => PutBlockIndex s h r); side_reorg h n w
  else
    do _ <- swrite StoreIndex (fun s => PutBlockIndex s h r);
    do _ <- known_at h n; do _ <- processOrphans env h; cfail (SideChainBlock n).

#[local] Instance mono_accept c0 b n w r : Mono (accept c0 b n w r).
Proof. unfold accept. solve_mono. Qed.

Lemma accept_wp c0 c bs b n w r :
  chain_inv p U c -> main_of p U c bs -> fresh p U (c_store c) b n w -> ~ on_main c (block_hash b) ->
  record_for (c_store c) b n w r -> c_tipHash c0 = c_tipHash c -> c_tipWork c0 = c_tipWork c ->
  wp (accept c0 b n w r) (fun r c' => advances p U c c' /\ (is_ok r = true -> accepted b)) c.
Proof.
  intros Hc Hm Hf Hoff Hrec Et Ew. pose proof (fr_in _ _ _ _ _ _ Hf) as Hin.
  assert (~ on_chain p bs (block_hash b)) as Hoff' by (by rewrite <- (on_main_chain p U c bs)).
  unfold accept. rewrite Et. destruct (bool_decide _) eqn:Ed; [|destruct (heavier c0 w (block_hash b)) eqn:Eh].
  - bool_to_prop. apply wp_bind; [solve_mono|].
    eapply wp_conseq; [by apply (extend_tip_wp p U HU Htip c bs)|].
    intros [[]|e] c1 [Ha H]; [|done]. destruct H as [Ht _]. apply wp_bind; [solve_mono|].
    eapply wp_conseq; [apply (processOrphans_wp env p U HU Htip c1 b (proj1 Ha) Hin (or_introl Ht))|].
    intros r1 c2 [-> Ha2]. apply wp_ret. split; [by eapply advances_trans|intros _].
    by eapply tip_accepted; [apply Ha| |apply Hf|apply Hf|].
  - apply wp_bind; [solve_mono|]. eapply wp_conseq; [by apply (side_record_wp c bs b n w)|].
    intros [[]|e] c1 (s' & -> & Hc1 & Hm1 & Hf1); [|by split].
    eapply wp_conseq; [apply (side_reorg_wp (set_store s' c) bs b); try done|done].
    unfold heavier in *. simpl. by rewrite <- Et, <- Ew.
  - apply wp_bind; [solve_mono|]. eapply wp_conseq; [by apply (side_record_wp c bs b n w)|].
    intros [[]|e] c1 (s' & -> & Hc1 & Hm1 & Hf1); [|by split].
    destruct (known_inv p U HU _ bs b n w Hc1 Hm1 Hf1 Hoff') as [Hc2 _].
    unfold known_at. apply wp_bind_mod, wp_bind; [solve_mono|].
    eapply wp_conseq; [apply (processOrphans_wp env p U HU Htip _ b Hc2 Hin (or_intror Hoff))|].
    intros r1 c3 [-> Ha2]. by apply wp_fail.
Qed.

Lemma off_unknown c bs h : main_of p U c bs -> c_heightByHash c !! h = None -> ~ on_main c h.
Proof.
  intros Hm Hn Hon. apply (on_main_chain p U c bs) in Hon as (b & Hb & <-); [|done].
  apply list_elem_of_lookup in Hb as [i Hb]. destruct Hm as (Ha & _).
  by rewrite (ac_hbh _ _ _ _ _ _ _ Ha i b Hb) in Hn.
Qed.

(** What the maps and the store say of the parent of a block that connects. *)
Lemma parent_facts c bs b ph hd :
  chain_inv p U c -> connects bs b -> c_heightByHash c !! hdr_PrevBlock (blk_Header b) = Some ph ->
  GetHeader (c_store c) (hdr_PrevBlock (blk_Header b)) = Ok hd ->
  ph = len bs /\ add32 ph 1 = len bs + 1 /\ hd = blk_Header (List.last bs genesis)
  /\ (readable (c_store c) -> forall z, 0 <= z <= len bs ->
        buildAncestorLookup c (hdr_PrevBlock (blk_Header b)) ph z = (fun x => blk_Header x) <$> ((genesis :: bs) !! Z.to_nat z)).
Proof.
  intros Hc (Hbs & Ht & us & us' & Hr & _) Hph Hhd. pose proof Hc as [_ Ho Hi Hh _ _ (bm & Hm)].
  pose proof (replay_valid p U _ _ Hbs Hr) as Hv. apply on_top_snoc in Ht as [Ht Hprev]. rewrite Hprev in *.
  apply GetHeader_sound in Hhd as (r & Hidx & <-); [|done].
  destruct (index_has_chain p U HU _ _ _ Hi Hv Ht Hidx) as [Eh Hall].
  pose proof (heights_rec p U HU _ _ _ _ _ Hi (ac_genesis _ _ _ _ _ _ _ (proj1 Hm)) Hh Hph Hidx) as E.
  pose proof (height_bound p U HU _ _ _ Hi Hidx). assert (ph = len bs) as -> by congruence.
  split_and!; [done| | |intros Hrd z Hz; by eapply (ancestors_exact p U HU)].
  - unfold add32. apply u32_small. unfold is_u32. lia.
  - destruct (Hall (length bs) (List.last bs genesis)) as (r' & Hr' & <-).
    { destruct bs as [|x bs _] using rev_ind; [done|]. rewrite List.last_last, app_comm_cons.
      apply list_lookup_middle. rewrite length_app. simpl. lia. }
    f_equal. assert (block_hash (List.last bs genesis) = last_hash (block_hash genesis) bs) as E2; [|congruence].
    destruct bs as [|x bs _] using rev_ind; [done|]. by rewrite List.last_last, last_hash_snoc.
Qed.

Lemma ProcessBlock_accepted c b :
  chain_inv p U c -> b ∈ U ->
  wp (ProcessBlock env b)
    (fun r c' => advances p U c c' /\ (is_ok r = true ->
       exists bs, connects bs b /\ header_checked (c_store c) (u32 (env_now env (c_tick c))) bs b)) c.
Proof.
  intros Hc Hin. pose proof (advances_refl p U c Hc) as Hr. pose proof (ci_main _ _ _ Hc) as [bs Hm].
  unfold ProcessBlock. apply wp_bind_get.
  destruct (c_heightByHash c !! block_hash b) as [|] eqn:Hnew; [by apply wp_fail|].
  destruct (c_orphans c !! block_hash b); [by apply wp_fail|].
  destruct (c_heightByHash c !! hdr_PrevBlock (blk_Header b)) as [ph|] eqn:Hph.
  2:{ apply wp_bind_lift; [|done]. intros [] _. apply wp_bind; [solve_mono|].
      eapply wp_conseq; [by apply add_orphan_wp|]. intros [[]|e] c' Ha; [by apply wp_fail|done]. }
  pose proof (off_unknown c bs _ Hm Hnew) as Hoff.
  change (fun c1 => match reorg (block_hash b) ?n ?w c1 with (Ok _, _) => _ | (Err _, _) => _ end)
    with (side_reorg (block_hash b) n w) in *.
  apply wp_bind_read; [|done]. intros hd Hhd. apply wp_bind; [intros; solve_mono|].
  unfold Now at 1, wp at 1. simpl. intros _. pose proof (chain_inv_tick p U c Hc) as Hct.
  apply wp_bind; [solve_mono|]. eapply wp_conseq; [apply check_header_wp|].
  intros [[]|e] c0 [-> Hh]; [|done]. pose proof (Hh eq_refl) as Hanc. simpl in Hanc.
  rewrite (ci_params _ _ _ Hc) in Hanc. apply wp_bind; [solve_mono|]. eapply wp_conseq; [apply check_block_wp|].
  intros [[]|e] c0 [-> Hvt]; [|done]. destruct (Hvt eq_refl) as [Hv Ht]. simpl in Hv, Ht. rewrite (ci_params _ _ _ Hc) in Hv, Ht.
  apply wp_bind; [solve_mono|]. eapply wp_conseq; [apply chain_work_wp, Hct|].
  intros [w|e] c0 [-> Hw]; [|done]. destruct (Hw w eq_refl) as (pr & w0 & Hpr & Hpw & ->).
  assert (fresh p U (c_store (tick c)) b (add32 ph 1) (w0 + CalcWork (hdr_Bits (blk_Header b)))) as Hf.
  { eapply (checked_fresh p U HU (tick c) bs); try done. by eapply off_genesis. }
  apply wp_bind; [solve_mono|]. eapply wp_conseq; [by apply (write_block_wp p U HU (tick c) bs)|].
  intros [loc|e] c0 (s' & -> & Hc' & Hm' & Hloc); [|by split].
  destruct (Hloc loc eq_refl) as [Hf' Hrec].
  eapply wp_conseq; [by apply (accept_wp c (set_store s' (tick c)) bs)|].
  intros r c' [Ha Hacc]. split; [exact Ha|]. intros Hok. destruct (Hacc Hok) as [bs' Hb]. exists bs'. split; [done|].
  destruct (parent_facts (tick c) bs' b ph hd Hct Hb Hph Hhd) as (E1 & E2 & E3 & E4). rewrite E2 in Hanc. rewrite E3 in Hanc, Ht.
  exists (buildAncestorLookup (tick c) (hdr_PrevBlock (blk_Header b)) ph). split; [exact Hanc|]. split; [|exact E4].
  rewrite E1 in Ht |- *. exact Ht.
Qed.
Lemma ProcessBlock_wp c b :
  chain_inv p U c -> b ∈ U -> wp (ProcessBlock env b) (fun _ c' => advances p U c c') c.
Proof. intros Hc Hb. eapply wp_conseq; [by apply ProcessBlock_accepted|]. by intros r c' [? _]. Qed.
End process.

(** ** Start-up and reachable states *)

Section start.
Context {St : Type} `{BS : BlockStore St} {BL : BlockStoreLaws St} `{EN : Engine} {EL : EngineLaws} `{EC : ECOps}.
Context (env : Env) (p : ChainParams) (U : list Block) (HU : universe p U).
Context (Htip : forall (s : St) h n, (PutChainTip s h n).1 = Ok tt).
#[local] Abbreviation genesis := (p_GenesisBlock p).
#[local] Abbreviation idx s := (v_index (st_view s)).
Implicit Types (s : St) (c : Chain St).

(** A store without blocks. *)
Definition empty_store s : Prop :=
  st_ok s /\ idx s = ∅ /\ exists e, GetChainTip s = Err e.

(** The record [initGenesis] writes. *)
Definition genesis_record (f o k : Z) : DiskBlockIndex :=
  {| bi_Header := blk_Header genesis; bi_Height := 0;
     bi_Status := Z.lor (Z.lor StatusHaveData StatusValidHeader) StatusValidTx;
     bi_TxCount := u32 (len (blk_Transactions genesis));
     bi_FileNum := f; bi_DataPos := o; bi_DataSize := k;
     bi_UndoFile := 0; bi_UndoPos := 0; bi_UndoSize := 0;
     bi_ChainWork := Some (CalcWork (hdr_Bits (blk_Header genesis))) |}.

Lemma genesis_index s r :
  st_data s (bi_FileNum r) (bi_DataPos r) = Some genesis -> wf_index r ->
  bi_Header r = blk_Header genesis -> bi_Height r = 0 -> has_flag (bi_Status r) StatusHaveData = true ->
  bi_ChainWork r = Some (CalcWork (hdr_Bits (blk_Header genesis))) ->
  idx s = {[block_hash genesis := r]} -> index_ok p U s.
Proof.
  intros Hd Hw Eh E0 Hfl Ew Hi h r' Hr'. rewrite Hi in Hr'. apply lookup_singleton_Some in Hr' as [<- <-].
  exists genesis. constructor; try done; [apply (un_genesis _ _ HU)| |by left].
  rewrite E0. apply (un_genesis_valid _ _ HU).
Qed.

Lemma genesis_record_wf f o k : is_u32 f -> is_u32 o -> is_u32 k -> wf_index (genesis_record f o k).
Proof.
  intros Hf Ho Hk. unfold wf_index, genesis_record. simpl. split_and!; try done.
  - apply (un_wf HU), (un_genesis _ _ HU).
  - apply u32_range.
  - eexists. split; [done|]. apply CalcWork_nonneg.
Qed.

(** The chain with only the genesis block. *)
Lemma genesis_inv s r tick0 :
  st_ok s -> st_data s (bi_FileNum r) (bi_DataPos r) = Some genesis -> wf_index r ->
  bi_Header r = blk_Header genesis -> bi_Height r = 0 -> has_flag (bi_Status r) StatusHaveData = true ->
  bi_ChainWork r = Some (CalcWork (hdr_Bits (blk_Header genesis))) -> idx s = {[block_hash genesis := r]} ->
  chain_inv p U
    {| c_params := p; c_store := s; c_tipHash := block_hash genesis; c_tipHeight := 0;
       c_tipWork := CalcWork (hdr_Bits (blk_Header genesis));
       c_heightByHash := {[block_hash genesis := 0]}; c_hashByHeight := {[0 := block_hash genesis]};
       c_orphans := ∅; c_sets := [ConnectGenesis NewSet genesis]; c_utxoSet := 0; c_tick := tick0 |}.
Proof.
  intros Ho Hd Hw Eh E0 Hfl Ew Hi. constructor; try done; simpl.
  - by eapply genesis_index.
  - intros h n Hn. apply lookup_singleton_Some in Hn as [<- <-]. by left.
  - lia.
  - exists []. split_and!; try done.
    + constructor; try done.
      * exists r. rewrite Hi. split; [apply lookup_singleton_eq|done].
      * intros z. destruct (Z.ltb_spec z 0) as [Hz|Hz]; [apply lookup_singleton_ne; lia|].
        destruct (decide (z = 0)) as [->|Hne]; [apply lookup_singleton_eq|].
        rewrite lookup_singleton_ne by done. by rewrite (lookup_ge_None_2 [genesis]) by (simpl; lia).
      * intros i b Hb. apply list_lookup_singleton_Some in Hb as [-> <-]. apply lookup_singleton_eq.
    + intros r' Hr'. rewrite Hi in Hr'. apply lookup_singleton_Some in Hr' as [_ <-]. done.
Qed.

Lemma Init_empty s c :
  empty_store s -> Init (New p s) = (Ok tt, c) -> live c -> chain_inv p U c.
Proof.
  intros (Ho & Hi & e & Et) H L. unfold Init, cbind, cget in H. cbn [c_store New] in H. rewrite Et in H.
  unfold initGenesis, cbind, cget in H. cbn [c_params New] in H. destruct (_ && _); [done|]. unfold swrite in H. simpl in H.
  destruct (WriteBlock s _ _) as [[[[f o] k]|] s1] eqn:E1; simpl in H; [|done].
  fold (genesis_record f o k) in H.
  destruct (PutBlockIndex s1 _ _) as [[[]|] s2] eqn:E2; simpl in H; [|done].
  destruct (PutChainTip s2 _ _) as [[[]|] s3] eqn:E3; simpl in H; [|done].
  unfold flushUtxoSetToChainstate, cbind, swrite, cget in H. simpl in H.
  destruct (FlushUtxoBatch s3 _) as [[[]|] s4] eqn:E4; simpl in H; [|done]. injection H as <-.
  unfold live in L. simpl in L. destruct (FlushUtxoBatch_law _ _ _ _ E4 L) as [L3 H4].
  destruct (PutChainTip_law _ _ _ _ _ E3 L3) as [L2 H3]. destruct (PutBlockIndex_law _ _ _ _ _ E2 L2) as [L1 H2].
  destruct (WriteBlock_law _ _ _ _ _ E1 L1) as [_ H1].
  pose proof (un_storable _ _ HU) as Hst. rewrite Forall_forall in Hst.
  destruct (H1 Ho (Hst _ (un_genesis _ _ HU))) as (Ho1 & Hv1 & _ & _ & Hloc).
  destruct (Hloc f o k eq_refl) as (Hf & Hoff & Hk & Hd). pose proof (genesis_record_wf f o k Hf Hoff Hk) as W.
  destruct (H2 Ho1 W) as (Ho2 & Hd2 & _ & Hv2). destruct (H3 Ho2) as (Ho3 & Hd3 & _ & Hv3 & _).
  destruct (H4 Ho3) as (Ho4 & Hd4 & _ & Hv4). simpl in Hv2, Hv3, Hv4.
  apply (genesis_inv s4 (genesis_record f o k)); try done.
  - by rewrite Hd4, Hd3, Hd2.
  - rewrite Hv4. simpl. rewrite Hv3, Hv2. simpl. by rewrite Hv1, Hi, insert_empty.
Qed.

(** States of a node that started on an empty store and was given blocks of [U]. *)
Inductive reach (s0 : St) : Chain St -> Prop :=
| reach_init c : Init (New p s0) = (Ok tt, c) -> reach s0 c
| reach_block c b : reach s0 c -> b ∈ U -> reach s0 (ProcessBlock env b c).2.

#[global] Instance mono_ProcessBlock b : Mono (ProcessBlock env b).
Proof.
  unfold ProcessBlock. apply mono_bind; [apply _|]. intros c0.
  destruct (c_heightByHash c0 !! _); [apply _|]. destruct (c_orphans c0 !! _); [apply _|].
  destruct (c_heightByHash c0 !! _).
  2:{ apply mono_bind; [apply _|]. intros _. apply mono_bind; [apply mono_add_orphan|]. apply _. }
  change (fun c1 => match reorg (block_hash b) ?n ?w c1 with (Ok _, _) => _ | (Err _, _) => _ end)
    with (side_reorg env (block_hash b) n w).
  do 6 (apply mono_bind; [solve_mono|intros]). apply mono_accept.
Qed.

Lemma reach_inv s0 c : empty_store s0 -> reach s0 c -> live c -> chain_inv p U c.
Proof.
  intros He Hr. induction Hr as [c Hc|c b Hr IH Hb]; intros L; [by eapply Init_empty|].
  assert (live c) as Lc by (by eapply mono_ProcessBlock).
  by destruct (ProcessBlock_wp env p U HU Htip c b (IH Lc) Hb L).
Qed.
End start.
