(* ===== verification/Mempool.v ===== *)
(** * The mempool

    Models [src/internal/mempool/mempool.go].  The lock is not represented: every method is
    one critical section.  The shared unspent set that the pool points to is the argument
    [s] of the operations that read it.  Iteration over a Go map has no fixed order:
    where the result could depend on it, the order is that of [map_to_list] and a lemma
    shows that it does not matter. *)
From S2P Require Import Prelude Types Sha256 Crypto Target Params Script Utxo TxValidation.
From stdpp Require Import sorting.
#[local] Open Scope Z_scope.
#[local] Open Scope go_scope.

Record TxEntry := {
  te_Tx : Transaction; te_Hash : Hash; te_Fee : Z; te_FeeRate : Z; te_Size : Z }.

Record Mempool := {
  mp_txs : gmap Hash TxEntry;
  mp_p : ChainParams;
  mp_spentOutpoints : gmap outpoint_key Hash;
  mp_tipHeight : Z }.

Inductive MempoolErr :=
| MpCoinbase | MpNoInputs | MpNoOutputs
| MpExists (h : Hash) | MpFull (n : Z)
| MpDoubleSpend (h : Hash) (o : OutPoint) (conflict : Hash)
| MpInvalid (e : TxErr)
| MpLowFee (fee min : Z).

(** ** Operations *)

Definition mp_New (p : ChainParams) : Mempool :=
  {| mp_txs := ∅; mp_p := p; mp_spentOutpoints := ∅; mp_tipHeight := 0 |}.

Definition SetTipHeight (m : Mempool) (height : Z) : Mempool :=
  {| mp_txs := mp_txs m; mp_p := mp_p m; mp_spentOutpoints := mp_spentOutpoints m; mp_tipHeight := height |}.

Definition check_conflict (m : Mempool) (txHash : Hash) (_ : unit) (ti : TxInput) : result MempoolErr unit :=
  match mp_spentOutpoints m !! in_key ti with
  | Some conflictTx => Err (MpDoubleSpend txHash (in_PreviousOutPoint ti) conflictTx)
  | None => Ok tt
  end.

Definition mark_spent (txHash : Hash) (spent : gmap outpoint_key Hash) (ins : list TxInput)
  : gmap outpoint_key Hash :=
  fold_left (fun spent ti => <[in_key ti := txHash]> spent) ins spent.

(** The entry [AddTx] stores. *)
Definition make_entry (tx : Transaction) (fee : Z) : TxEntry :=
  let txSize := tx_SerializeSize tx in
  let txSize := if txSize =? 0 then 1 else txSize in
  {| te_Tx := tx; te_Hash := HashTransaction tx; te_Fee := fee;
     te_FeeRate := fee / txSize; te_Size := txSize |}.

Section mempool.
Context `{EC : ECOps}.

(** [AddTx] returns the new pool and the hash; on an error the pool is unchanged. *)
Definition AddTx (m : Mempool) (s : UtxoSet) (tx : Transaction) : result MempoolErr (Mempool * Hash) :=
  check tx_IsCoinbase tx else MpCoinbase;
  check len (tx_Inputs tx) =? 0 else MpNoInputs;
  check len (tx_Outputs tx) =? 0 else MpNoOutputs;
  let txHash := HashTransaction tx in
  match mp_txs m !! txHash with
  | Some _ => Err (MpExists txHash)
  | None =>
      check p_MaxMempoolSize (mp_p m) <=? u32 (Z.of_nat (size (mp_txs m)))
        else MpFull (Z.of_nat (size (mp_txs m)));
      let* _ := foldM (check_conflict m txHash) tt (tx_Inputs tx) in
      let* fee := rwrap MpInvalid (ValidateSingleTransaction tx s (mp_tipHeight m) (mp_p m)) in
      check (p_MinRelayTxFee (mp_p m) >? 0) && (fee <? p_MinRelayTxFee (mp_p m))
        else MpLowFee fee (p_MinRelayTxFee (mp_p m));
      let entry := make_entry tx fee in
      Ok ({| mp_txs := <[txHash := entry]> (mp_txs m);
             mp_p := mp_p m;
             mp_spentOutpoints := mark_spent txHash (mp_spentOutpoints m) (tx_Inputs tx);
             mp_tipHeight := mp_tipHeight m |}, txHash)
  end.
End mempool.

Definition GetTx (m : Mempool) (hash : Hash) : option Transaction := te_Tx <$> mp_txs m !! hash.
Definition GetTxEntry (m : Mempool) (hash : Hash) : option TxEntry := mp_txs m !! hash.
Definition HasTx (m : Mempool) (hash : Hash) : bool := bool_decide (is_Some (mp_txs m !! hash)).

Definition removeTxUnsafe (m : Mempool) (hash : Hash) : Mempool :=
  match mp_txs m !! hash with
  | None => m
  | Some entry =>
      {| mp_txs := delete hash (mp_txs m);
         mp_p := mp_p m;
         mp_spentOutpoints :=
           fold_left (fun spent ti => delete (in_key ti) spent) (tx_Inputs (te_Tx entry)) (mp_spentOutpoints m);
         mp_tipHeight := mp_tipHeight m |}
  end.
Definition RemoveTx (m : Mempool) (hash : Hash) : Mempool := removeTxUnsafe m hash.
Definition RemoveTxs (m : Mempool) (hashes : list Hash) : Mempool := fold_left removeTxUnsafe hashes m.

(** [hashLess], the same loop as [Hash.Less]. *)
Definition hashLess (a b : Hash) : bool := Less_from HashSize a b.

(** The comparison given to [sort.Slice]. *)
Definition entry_less (a b : TxEntry) : bool :=
  if negb (te_FeeRate a =? te_FeeRate b) then te_FeeRate a >? te_FeeRate b
  else hashLess (te_Hash a) (te_Hash b).

(** [sort.Slice] sorts by the comparison; which sorting algorithm it uses is immaterial
    ([sort_entries_unique]). *)
Definition entry_le (a b : TxEntry) : Prop := entry_less b a = false.
#[global] Instance entry_le_dec a b : Decision (entry_le a b).
Proof. unfold entry_le. apply _. Defined.
Definition sort_entries (l : list TxEntry) : list TxEntry := merge_sort entry_le l.

(** [for i, e := range entries { txs[i] = e.Tx; ... break }]: the slots after a [break]
    stay [nil]. *)
Fixpoint template_loop (entries : list TxEntry) (totalFees : Z) : list (option Transaction) * Z :=
  match entries with
  | [] => ([], totalFees)
  | e :: rest =>
      let total := add64 totalFees (te_Fee e) in
      if total <? totalFees then (Some (te_Tx e) :: map (fun _ => None) rest, totalFees)
      else let '(txs, total) := template_loop rest total in (Some (te_Tx e) :: txs, total)
  end.

Record BlockTemplateResult := { bt_Transactions : list (option Transaction); bt_TotalFees : Z }.

Definition GetAllEntries (m : Mempool) : list TxEntry := sort_entries (map snd (map_to_list (mp_txs m))).
Definition BlockTemplate (m : Mempool) : BlockTemplateResult :=
  let '(txs, totalFees) := template_loop (GetAllEntries m) 0 in
  {| bt_Transactions := txs; bt_TotalFees := totalFees |}.
Definition GetAll (m : Mempool) : list (option Transaction) := bt_Transactions (BlockTemplate m).

Definition hash_le (a b : Hash) : Prop := hashLess b a = false.
#[global] Instance hash_le_dec a b : Decision (hash_le a b).
Proof. unfold hash_le. apply _. Defined.
Definition GetTxHashes (m : Mempool) : list Hash := merge_sort hash_le (map fst (map_to_list (mp_txs m))).

Definition TotalFees (m : Mempool) : Z :=
  fold_left (fun total kv => add64 total (te_Fee kv.2)) (map_to_list (mp_txs m)) 0.
Definition TotalSize (m : Mempool) : Z :=
  fold_left (fun total kv => i64 (total + te_Size kv.2)) (map_to_list (mp_txs m)) 0.
Definition mp_Count (m : Mempool) : Z := Z.of_nat (size (mp_txs m)).

(** The scan of [EvictLowestFeeRate]; [None] is [first]. *)
Definition evict_step (acc : option (Hash * Z)) (e : TxEntry) : option (Hash * Z) :=
  match acc with
  | None => Some (te_Hash e, te_FeeRate e)
  | Some (lowestHash, lowestRate) =>
      if (te_FeeRate e <? lowestRate)
         || ((te_FeeRate e =? lowestRate) && hashLess (te_Hash e) lowestHash)
      then Some (te_Hash e, te_FeeRate e) else acc
  end.
Definition EvictLowestFeeRate (m : Mempool) : Mempool * bool :=
  if (size (mp_txs m) =? 0)%nat then (m, false)
  else
    match fold_left evict_step (map snd (map_to_list (mp_txs m))) None with
    | None => (m, true)
    | Some (lowestHash, _) => (removeTxUnsafe m lowestHash, true)
    end.

Definition IsOutpointSpent (m : Mempool) (txHash : Hash) (index : Z) : bool :=
  bool_decide (is_Some (mp_spentOutpoints m !! OutpointKey txHash index)).

(** [nil] and the empty slice are the same bytes. *)
Definition DumpToBytes (m : Mempool) : list byte :=
  if (size (mp_txs m) =? 0)%nat then []
  else PutVarInt (Z.of_nat (size (mp_txs m)))
       ++ concat (map (fun kv => tx_SerializeToBytes (te_Tx kv.2)) (map_to_list (mp_txs m))).

Section load.
Context `{EC : ECOps}.

(** [for i := uint64(0); i < count; i++]; [rest] is [data[offset:]]. *)
Fixpoint load_loop (n : nat) (rest : list byte) (s : UtxoSet) (m : Mempool) (loaded : Z) : Mempool * Z :=
  match n with
  | O => (m, loaded)
  | S n =>
      if len rest <=? 0 then (m, loaded)
      else match tx_Deserialize rest with
           | Err _ => (m, loaded)
           | Ok (tx, rest) =>
               match AddTx m s tx with
               | Ok (m, _) => load_loop n rest s m (loaded + 1)
               | Err _ => load_loop n rest s m loaded
               end
           end
  end.

Definition LoadFromBytes (m : Mempool) (s : UtxoSet) (data : list byte) : Mempool * Z :=
  if len data =? 0 then (m, 0)
  else match ReadVarIntFromBytes data with
       | Err _ => (m, 0)
       | Ok count =>
           let offset := VarIntSize count in
           load_loop (Z.to_nat count) (drop (Z.to_nat offset) data) s m 0
       end.
End load.

(** ** The invariant *)

Record mp_inv (m : Mempool) : Prop := {
  mi_entry : forall h e, mp_txs m !! h = Some e ->
    h = HashTransaction (te_Tx e) /\ e = make_entry (te_Tx e) (te_Fee e)
    /\ p_MinRelayTxFee (mp_p m) <= Z.max 0 (te_Fee e) /\ NoDup (map in_key (tx_Inputs (te_Tx e)));
  mi_spent : forall k h, mp_spentOutpoints m !! k = Some h <->
    exists e, mp_txs m !! h = Some e /\ k ∈ map in_key (tx_Inputs (te_Tx e));
  mi_size : Z.of_nat (size (mp_txs m)) <= p_MaxMempoolSize (mp_p m) }.

(** The network's limit is a [uint32]; [mp_p] is the network. *)
Definition mp_limit (p : ChainParams) : Prop := is_u32 (p_MaxMempoolSize p).

Lemma lookup_mark_spent h spent ins k :
  mark_spent h spent ins !! k = if bool_decide (k ∈ map in_key ins) then Some h else spent !! k.
Proof.
  unfold mark_spent. revert spent. induction ins as [|ti ins IH]; intros spent; simpl; [done|].
  rewrite IH. destruct (decide (k ∈ map in_key ins)).
  - rewrite !bool_decide_true by set_solver. done.
  - rewrite bool_decide_false by done. destruct (decide (k = in_key ti)) as [->|].
    + rewrite lookup_insert_eq, bool_decide_true by set_solver. done.
    + rewrite lookup_insert_ne, bool_decide_false by set_solver. done.
Qed.

Lemma lookup_unmark (spent : gmap outpoint_key Hash) ins k :
  fold_left (fun spent ti => delete (in_key ti) spent) ins spent !! k
  = if bool_decide (k ∈ map in_key ins) then None else spent !! k.
Proof.
  revert spent. induction ins as [|ti ins IH]; intros spent; simpl; [done|].
  rewrite IH. destruct (decide (k ∈ map in_key ins)).
  - rewrite !bool_decide_true by set_solver. done.
  - rewrite bool_decide_false by done. destruct (decide (k = in_key ti)) as [->|].
    + rewrite lookup_delete_eq, bool_decide_true by set_solver. done.
    + rewrite lookup_delete_ne, bool_decide_false by set_solver. done.
Qed.

Lemma check_conflicts_Ok m h ins r :
  foldM (check_conflict m h) tt ins = Ok r <-> Forall (fun k => mp_spentOutpoints m !! k = None) (map in_key ins).
Proof.
  induction ins as [|ti ins IH]; cbn [foldM map].
  - destruct r. split; [constructor|done].
  - rewrite Forall_cons. unfold check_conflict at 1.
    destruct (mp_spentOutpoints m !! in_key ti); cbn [rbind]; [split; [done|by intros [? _]]|].
    rewrite IH. tauto.
Qed.

(** No two transactions of the pool spend the same outpoint. *)
Lemma mp_no_conflict m h1 h2 e1 e2 k :
  mp_inv m -> mp_txs m !! h1 = Some e1 -> mp_txs m !! h2 = Some e2 ->
  k ∈ map in_key (tx_Inputs (te_Tx e1)) -> k ∈ map in_key (tx_Inputs (te_Tx e2)) -> h1 = h2.
Proof.
  intros Hi H1 H2 K1 K2.
  assert (mp_spentOutpoints m !! k = Some h1) by (apply Hi; eauto).
  assert (mp_spentOutpoints m !! k = Some h2) by (apply Hi; eauto). congruence.
Qed.

Lemma mp_inv_new p : 0 <= p_MaxMempoolSize p -> mp_inv (mp_New p).
Proof.
  intros Hp. constructor; simpl; [done| |by rewrite map_size_empty].
  intros k h. split; [by rewrite lookup_empty|]. intros (e & He & _). by rewrite lookup_empty in He.
Qed.

Section ops.
Context `{EC : ECOps}.

(** What a successful [AddTx] checked and did. *)
Lemma AddTx_Ok m s tx r :
  AddTx m s tx = Ok r <->
  exists fee,
    tx_Inputs tx <> [] /\ tx_Outputs tx <> [] /\ mp_txs m !! HashTransaction tx = None
    /\ u32 (Z.of_nat (size (mp_txs m))) < p_MaxMempoolSize (mp_p m)
    /\ Forall (fun k => mp_spentOutpoints m !! k = None) (map in_key (tx_Inputs tx))
    /\ ValidateSingleTransaction tx s (mp_tipHeight m) (mp_p m) = Ok fee
    /\ (p_MinRelayTxFee (mp_p m) <= 0 \/ p_MinRelayTxFee (mp_p m) <= fee)
    /\ r = ({| mp_txs := <[HashTransaction tx := make_entry tx fee]> (mp_txs m);
               mp_p := mp_p m;
               mp_spentOutpoints := mark_spent (HashTransaction tx) (mp_spentOutpoints m) (tx_Inputs tx);
               mp_tipHeight := mp_tipHeight m |}, HashTransaction tx).
Proof.
  unfold AddTx. split.
  - intros H. destruct (tx_IsCoinbase tx); [done|].
    destruct (len (tx_Inputs tx) =? 0) eqn:E1; [done|]. destruct (len (tx_Outputs tx) =? 0) eqn:E2; [done|].
    destruct (mp_txs m !! HashTransaction tx) eqn:E3; [done|].
    destruct (_ <=? u32 _) eqn:E4; [done|]. apply rbind_Ok in H as (u & E5 & H).
    apply rbind_Ok in H as (fee & E6 & H). rewrite rwrap_Ok in E6.
    destruct ((p_MinRelayTxFee (mp_p m) >? 0) && _) eqn:E7; [done|]. injection H as <-.
    exists fee. apply len_zero in E1, E2. apply Z.leb_gt in E4. apply check_conflicts_Ok in E5.
    apply andb_false_iff in E7. split_and!; try done. destruct E7; bool_to_prop; lia.
  - intros (fee & E1 & E2 & E3 & E4 & E5 & E6 & E7 & ->).
    assert (tx_IsCoinbase tx = false) as ->.
    { unfold ValidateSingleTransaction in E6. by destruct (tx_IsCoinbase tx). }
    apply len_zero in E1, E2. rewrite E1, E2, E3. apply Z.leb_gt in E4. rewrite E4.
    rewrite rbind_Ok. exists tt. split; [by apply check_conflicts_Ok|].
    rewrite E6. cbn [rwrap rbind].
    assert ((p_MinRelayTxFee (mp_p m) >? 0) && (fee <? p_MinRelayTxFee (mp_p m)) = false) as ->; [|done].
    apply andb_false_iff. rewrite Z.gtb_ltb.
    destruct E7; [left; apply Z.ltb_ge; lia|right; apply Z.ltb_ge; lia].
Qed.

Lemma ValidateSingle_distinct tx s tip p fee :
  ValidateSingleTransaction tx s tip p = Ok fee -> NoDup (map in_key (tx_Inputs tx)).
Proof.
  intros H. unfold ValidateSingleTransaction in H. repeat inv_ok_step. clear -Hx.
  revert Hx. generalize (add32 tip 1) as ht. intros ht.
  assert (forall ins i t seen r, foldMi (single_input s ht p (HashTransaction tx)) i (t, seen) ins = Ok r ->
    NoDup (map in_key ins) /\ Forall (fun k => k ∉ seen) (map in_key ins)) as Hl.
  { induction ins as [|ti ins IH]; intros i t seen r H; [split; constructor|].
    cbn [foldMi] in H. apply rbind_Ok in H as ([t1 seen1] & H1 & H2). unfold single_input in H1.
    fold (in_key ti) in H1. repeat inv_ok_step. destruct (Get _ _ _); [|done]. repeat inv_ok_step. bool_to_prop.
    apply IH in H2 as [Hn Hf]. cbn [map]. rewrite Forall_forall in Hf. split.
    - apply NoDup_cons. split; [|done]. intros Hin. apply (Hf _ Hin). set_solver.
    - apply Forall_cons. split; [done|]. apply Forall_forall. intros k Hk. specialize (Hf k Hk). set_solver. }
  intros Hx. by apply Hl in Hx as [? _].
Qed.

Lemma mp_inv_AddTx m s tx m' h :
  mp_limit (mp_p m) -> mp_inv m -> AddTx m s tx = Ok (m', h) -> mp_inv m'.
Proof.
  intros Hlim Hi H. apply AddTx_Ok in H as (fee & _ & _ & Hnew & Hsz & Hfree & Hv & Hmin & [= -> ->]).
  pose proof (mi_size m Hi) as Hs0. rewrite u32_small in Hsz by (unfold mp_limit, is_u32 in *; lia).
  rewrite Forall_forall in Hfree. constructor; simpl.
  - intros h e He. apply lookup_insert_Some in He as [[<- <-]|[_ He]]; [|by apply Hi].
    split_and!; try done; [simpl; lia|]. by eapply ValidateSingle_distinct.
  - intros k h. rewrite lookup_mark_spent. destruct (decide (k ∈ map in_key (tx_Inputs tx))) as [Hk|Hk].
    + rewrite bool_decide_true by done. split.
      * intros [= <-]. exists (make_entry tx fee). by rewrite lookup_insert_eq.
      * intros (e & He & Hke). apply lookup_insert_Some in He as [[<- _]|[_ He]]; [done|].
        assert (mp_spentOutpoints m !! k = Some h) by (apply Hi; eauto). rewrite Hfree in *; done.
    + rewrite bool_decide_false by done. rewrite (mi_spent m Hi). split.
      * intros (e & He & Hke). exists e. rewrite lookup_insert_ne; [done|congruence].
      * intros (e & He & Hke). apply lookup_insert_Some in He as [[<- <-]|[_ He]]; [done|eauto].
  - rewrite map_size_insert_None by done. lia.
Qed.

Lemma mp_inv_remove m h : mp_inv m -> mp_inv (removeTxUnsafe m h).
Proof.
  intros Hi. unfold removeTxUnsafe. destruct (mp_txs m !! h) as [e0|] eqn:He0; [|done].
  constructor; simpl.
  - intros h' e He. apply lookup_delete_Some in He as [_ He]. by apply Hi.
  - intros k h'. rewrite lookup_unmark. destruct (decide (k ∈ map in_key (tx_Inputs (te_Tx e0)))) as [Hk|Hk].
    + rewrite bool_decide_true by done. split; [done|]. intros (e & He & Hke).
      apply lookup_delete_Some in He as [Hne He]. destruct Hne. by eapply (mp_no_conflict m h h').
    + rewrite bool_decide_false by done. rewrite (mi_spent m Hi). split; intros (e & He & Hke); exists e.
      * split; [|done]. apply lookup_delete_Some. split; [|done]. intros ->. congruence.
      * by apply lookup_delete_Some in He as [_ He].
  - pose proof (mi_size m Hi). rewrite map_size_delete, He0. simpl. lia.
Qed.

Lemma removeTxUnsafe_params m h : mp_p (removeTxUnsafe m h) = mp_p m.
Proof. unfold removeTxUnsafe. by destruct (_ !! _). Qed.

Lemma mp_inv_RemoveTxs m hs : mp_inv m -> mp_inv (RemoveTxs m hs).
Proof.
  unfold RemoveTxs. revert m. induction hs as [|h hs IH]; intros m Hi; simpl; [done|].
  by apply IH, mp_inv_remove.
Qed.

Lemma mp_inv_evict m : mp_inv m -> mp_inv (EvictLowestFeeRate m).1.
Proof.
  intros Hi. unfold EvictLowestFeeRate. destruct (_ =? 0)%nat; [done|].
  destruct (fold_left _ _ _) as [[h r]|]; [by apply mp_inv_remove|done].
Qed.

Lemma load_loop_inv n rest s m loaded :
  mp_limit (mp_p m) -> mp_inv m ->
  mp_inv (load_loop n rest s m loaded).1 /\ mp_p (load_loop n rest s m loaded).1 = mp_p m.
Proof.
  revert rest m loaded. induction n as [|n IH]; intros rest m loaded Hl Hi; simpl; [done|].
  destruct (_ <=? 0); [done|]. destruct (tx_Deserialize rest) as [[tx rest']|]; [|done].
  destruct (AddTx m s tx) as [[m' h]|] eqn:E; [|by apply IH].
  assert (mp_p m' = mp_p m) as Hp by (by apply AddTx_Ok in E as (? & ? & ? & ? & ? & ? & ? & ? & [= -> ->])).
  rewrite <- Hp. apply IH; [by rewrite Hp|]. by eapply mp_inv_AddTx.
Qed.
End ops.

(** ** The order of block templates *)

(** A hash as a number, whatever its length. *)
Definition hnum (h : Hash) : Z := le_combine (take HashSize (h ++ replicate HashSize Byte.x00)).

Lemma byte_at_pad h i : (i < HashSize)%nat -> byte_at (take HashSize (h ++ replicate HashSize Byte.x00)) i = byte_at h i.
Proof.
  intros Hi. unfold byte_at. f_equal. rewrite !nth_lookup, lookup_take_lt by done.
  destruct (Nat.lt_ge_cases i (length h)) as [Hl|Hl].
  - by rewrite lookup_app_l.
  - rewrite lookup_app_r, (lookup_ge_None_2 h) by done.
    destruct (replicate HashSize Byte.x00 !! (i - length h)%nat) as [x|] eqn:E; [|done].
    apply lookup_replicate in E as [-> _]. done.
Qed.

Lemma Less_from_ext n a b a' b' :
  (forall i, (i < n)%nat -> byte_at a i = byte_at a' i /\ byte_at b i = byte_at b' i) ->
  Less_from n a b = Less_from n a' b'.
Proof.
  induction n as [|n IH]; intros H; simpl; [done|].
  destruct (H n ltac:(lia)) as [-> ->]. rewrite IH; [done|]. intros i Hi. apply H. lia.
Qed.

Lemma hashLess_num a b : hashLess a b = (hnum a <? hnum b).
Proof.
  assert (forall h, length (take HashSize (h ++ replicate HashSize Byte.x00)) = HashSize) as L
    by (intros h; rewrite length_take, length_app, length_replicate; lia).
  unfold hashLess, hnum.
  rewrite (Less_from_ext _ a b (take HashSize (a ++ replicate HashSize Byte.x00))
    (take HashSize (b ++ replicate HashSize Byte.x00))) by (intros i Hi; by rewrite !byte_at_pad).
  rewrite Less_from_spec by (by rewrite L). by rewrite !take_take, Nat.min_id.
Qed.

Lemma entry_le_num a b :
  entry_le a b <-> te_FeeRate b < te_FeeRate a \/ te_FeeRate a = te_FeeRate b /\ hnum (te_Hash a) <= hnum (te_Hash b).
Proof.
  unfold entry_le, entry_less. rewrite hashLess_num.
  destruct (Z.eqb_spec (te_FeeRate b) (te_FeeRate a)); simpl.
  - rewrite Z.ltb_ge. lia.
  - rewrite Z.gtb_ltb, Z.ltb_ge. lia.
Qed.

#[global] Instance entry_le_total : Total entry_le.
Proof. intros a b. rewrite !entry_le_num. lia. Qed.
#[global] Instance entry_le_trans : Transitive entry_le.
Proof. intros a b c. rewrite !entry_le_num. lia. Qed.

Lemma sort_entries_spec l : StronglySorted entry_le (sort_entries l) /\ sort_entries l ≡ₚ l.
Proof. split; [apply (StronglySorted_merge_sort entry_le)|apply merge_sort_Permutation]. Qed.

Lemma hnum_inj a b : wf_hash a -> wf_hash b -> hnum a = hnum b -> a = b.
Proof.
  intros Ha Hb. unfold hnum. rewrite !take_app_length' by done. intros E.
  apply le_combine_inj; [|done]. unfold wf_hash in *. congruence.
Qed.

(** Any sorting of the pool's entries by the comparison gives the same list. *)
Lemma sort_entries_unique l l' :
  l' ≡ₚ l -> StronglySorted entry_le l' ->
  Forall (fun e => wf_hash (te_Hash e)) l -> NoDup (map te_Hash l) -> l' = sort_entries l.
Proof.
  destruct (sort_entries_spec l) as [H1 H2]. generalize dependent (sort_entries l). intros k Hk Pk Pl Hl Hw Hn.
  assert (k ≡ₚ l') as Pkl by (by rewrite Pk, Pl).
  assert (Forall (fun e => wf_hash (te_Hash e)) l') as Hw' by (by rewrite Pl).
  assert (NoDup (map te_Hash l')) as Hn' by (by rewrite Pl). clear -Hk Hl Pkl Hw' Hn'.
  revert k Hk Pkl. induction Hl as [|x l' Hl IH Hx]; intros k Hk P.
  - by apply Permutation_nil_r in P.
  - destruct k as [|y k]; [by apply Permutation_nil_l in P|].
    inversion Hk as [|?? Hk' Hy]; subst. apply Forall_cons in Hw' as [Wx Ww]. simpl in Hn'.
    apply NoDup_cons in Hn' as [Hnx Hn'].
    assert (y = x) as ->.
    { assert (y ∈ x :: l') as Hyin by (rewrite <- P; set_solver).
      assert (x ∈ y :: k) as Hxin by (rewrite P; set_solver).
      apply elem_of_cons in Hyin as [->|Hyin]; [done|]. apply elem_of_cons in Hxin as [->|Hxin]; [done|].
      rewrite Forall_forall in Hx, Hy, Ww. specialize (Hx y Hyin). specialize (Hy x Hxin).
      rewrite entry_le_num in Hx, Hy. exfalso. apply Hnx.
      assert (te_Hash x = te_Hash y) as -> by (apply hnum_inj; auto; lia).
      by apply (list_elem_of_fmap_2 te_Hash). }
    f_equal. apply IH; [done|done|done|]. by apply Permutation_cons_inv in P.
Qed.

Lemma template_loop_spec entries t :
  is_u64 t -> Forall (fun e => is_u64 (te_Fee e)) entries ->
  t + sumZ (map te_Fee entries) < 2^64 ->
  template_loop entries t = (map (fun e => Some (te_Tx e)) entries, t + sumZ (map te_Fee entries)).
Proof.
  intros Ht Hf. revert t Ht. induction Hf as [|e entries He Hf IH]; intros t Ht Hlt; simpl.
  - by rewrite Z.add_0_r.
  - simpl in Hlt. assert (0 <= sumZ (map te_Fee entries)) by (apply sumZ_u64; by apply Forall_map).
    assert (add64 t (te_Fee e) = t + te_Fee e) as -> by (apply u64_small; unfold is_u64 in *; lia).
    rewrite (proj2 (Z.ltb_ge _ _)) by (unfold is_u64 in *; lia).
    rewrite IH by (unfold is_u64 in *; lia). by rewrite Z.add_assoc.
Qed.

(** ** Dumping and loading *)

(** Every entry is what [AddTx] computes for it now. *)
Definition mp_valid `{EC : ECOps} (m : Mempool) (s : UtxoSet) : Prop :=
  forall h e, mp_txs m !! h = Some e ->
    wf_tx (te_Tx e) /\ ValidateSingleTransaction (te_Tx e) s (mp_tipHeight m) (mp_p m) = Ok (te_Fee e).

Section load_dump.
Context `{EC : ECOps}.

(** The pool holding the entries of a list. *)
Definition pool_of (m : Mempool) (l : list (Hash * TxEntry)) : Mempool :=
  {| mp_txs := list_to_map l; mp_p := mp_p m;
     mp_spentOutpoints := foldr (fun kv spent => mark_spent kv.1 spent (tx_Inputs (te_Tx kv.2))) ∅ l;
     mp_tipHeight := mp_tipHeight m |}.

Lemma pool_of_spent m l k h :
  mp_spentOutpoints (pool_of m l) !! k = Some h -> exists e, (h, e) ∈ l /\ k ∈ map in_key (tx_Inputs (te_Tx e)).
Proof.
  induction l as [|[h0 e0] l IH]; simpl; [by rewrite lookup_empty|].
  rewrite lookup_mark_spent. destruct (decide (k ∈ map in_key (tx_Inputs (te_Tx e0)))) as [Hk|Hk].
  - rewrite bool_decide_true by done. intros [= <-]. exists e0. set_solver.
  - rewrite bool_decide_false by done. intros H. destruct (IH H) as (e & ? & ?). exists e. set_solver.
Qed.

Lemma ValidateSingle_nonempty tx s tip p fee :
  ValidateSingleTransaction tx s tip p = Ok fee -> tx_Inputs tx <> [] /\ tx_Outputs tx <> [].
Proof. intros H. unfold ValidateSingleTransaction in H. repeat inv_ok_step. by rewrite <- !len_zero. Qed.

(** Adding one more entry of [m] to a pool of some of its entries. *)
Lemma AddTx_pool_of m s l h e :
  mp_limit (mp_p m) -> mp_inv m -> mp_valid m s ->
  NoDup (map fst ((h, e) :: l)) -> (forall kv, kv ∈ (h, e) :: l -> mp_txs m !! kv.1 = Some kv.2) ->
  Z.of_nat (S (length l)) <= p_MaxMempoolSize (mp_p m) ->
  AddTx (pool_of m l) s (te_Tx e) = Ok (pool_of m ((h, e) :: l), h).
Proof.
  intros Hlim Hi Hv Hn Hin Hsz. simpl in Hn. apply NoDup_cons in Hn as [Hh Hn].
  pose proof (Hin (h, e) ltac:(set_solver)) as He. simpl in He.
  destruct (mi_entry m Hi h e He) as (-> & Ee & Hmin & _). destruct (Hv _ e He) as [_ Hval].
  destruct (ValidateSingle_nonempty _ _ _ _ _ Hval) as [Hi0 Ho0].
  apply AddTx_Ok. exists (te_Fee e). split_and!; try done.
  - simpl. by apply not_elem_of_list_to_map_1.
  - simpl. rewrite map_size_list_to_map by done. rewrite u32_small; [lia|].
    unfold mp_limit, is_u32 in *. lia.
  - apply Forall_forall. intros k Hk. destruct (mp_spentOutpoints (pool_of m l) !! k) as [h'|] eqn:E; [|done].
    apply pool_of_spent in E as (e' & Hl & Hk').
    pose proof (Hin (h', e') ltac:(set_solver)) as He'. simpl in He'.
    assert (HashTransaction (te_Tx e) = h') as <- by (by eapply (mp_no_conflict m _ _ e e' k)).
    exfalso. apply Hh. apply list_elem_of_fmap. by exists (HashTransaction (te_Tx e), e').
  - simpl. lia.
  - simpl. by rewrite <- Ee.
Qed.

Lemma load_loop_pool m s l done_ loaded rest :
  mp_limit (mp_p m) -> mp_inv m -> mp_valid m s ->
  NoDup (map fst (rev l ++ done_)) -> (forall kv, kv ∈ rev l ++ done_ -> mp_txs m !! kv.1 = Some kv.2) ->
  Z.of_nat (length l + length done_) <= p_MaxMempoolSize (mp_p m) ->
  load_loop (length l) (concat (map (fun kv => tx_SerializeToBytes (te_Tx kv.2)) l) ++ rest) s (pool_of m done_) loaded
  = (pool_of m (rev l ++ done_), loaded + len l).
Proof.
  intros Hlim Hi Hv. revert done_ loaded. induction l as [|[h e] l IH]; intros done_ loaded Hn Hin Hsz.
  - simpl. by rewrite Z.add_0_r.
  - cbn [length load_loop map concat snd]. simpl rev in *. rewrite <- !app_assoc in *. simpl app in *.
    pose proof (Hin (h, e) ltac:(set_solver)) as He. simpl in He. destruct (Hv _ _ He) as [Hwf _].
    unfold tx_SerializeToBytes at 1 2. set (tail := concat _ ++ rest).
    assert ((len (tx_Serialize (te_Tx e) ++ tail) <=? 0) = false) as ->.
    { apply Z.leb_gt. rewrite length_app. unfold tx_Serialize. rewrite length_app, length_PutUint32LE. lia. }
    rewrite (decode_encode (dec := tx_Deserialize)) by done.
    rewrite (AddTx_pool_of m s done_ h e); try done.
    + subst tail. rewrite IH; [|done|done|simpl in *; lia]. f_equal. lia.
    + change (map fst ((h, e) :: done_)) with (fst <$> ((h, e) :: done_)).
      change (map fst ?x) with (fst <$> x) in Hn. rewrite fmap_app in Hn.
      apply NoDup_app in Hn as (_ & _ & Hn). done.
    + intros kv Hkv. apply Hin. set_solver.
    + simpl in Hsz. lia.
Qed.

(** A pool is determined by its transactions. *)
Lemma mp_inv_ext m m' :
  mp_inv m -> mp_inv m' -> mp_txs m = mp_txs m' -> mp_p m = mp_p m' -> mp_tipHeight m = mp_tipHeight m' -> m = m'.
Proof.
  intros Hi Hi' Ht Hp Hh. destruct m as [t p sp h], m' as [t' p' sp' h']. simpl in *. subst. f_equal.
  apply map_eq. intros k. apply option_eq. intros hh.
  pose proof (mi_spent _ Hi k hh) as H1. pose proof (mi_spent _ Hi' k hh) as H2. simpl in *. by rewrite H1, H2.
Qed.
End load_dump.

(** ** Eviction *)

Definition lowest (acc : option (Hash * Z)) (l : list TxEntry) : Prop :=
  match acc with
  | None => l = []
  | Some (h, r) => (exists e, e ∈ l /\ te_Hash e = h /\ te_FeeRate e = r)
                   /\ Forall (fun e => r < te_FeeRate e \/ r = te_FeeRate e /\ hnum h <= hnum (te_Hash e)) l
  end.

Lemma evict_scan_lowest l : lowest (fold_left evict_step l None) l.
Proof.
  assert (forall pre acc, lowest acc pre -> lowest (fold_left evict_step l acc) (pre ++ l)) as H.
  { induction l as [|e l IH]; intros pre acc Ha; simpl; [by rewrite app_nil_r|].
    replace (pre ++ e :: l) with ((pre ++ [e]) ++ l) by (by rewrite <- app_assoc). apply IH.
    destruct acc as [[h r]|]; simpl in *.
    - destruct Ha as [(e0 & He0 & Hh0 & Hr0) Hmin]. rewrite hashLess_num.
      destruct (Z.ltb_spec (te_FeeRate e) r); [|destruct (Z.eqb_spec (te_FeeRate e) r)]; simpl;
        try (destruct (Z.ltb_spec (hnum (te_Hash e)) (hnum h)); simpl).
      all: split; [|apply Forall_app; split; [eapply Forall_impl; [exact Hmin|]; simpl; lia
                                            |constructor; [lia|constructor]]].
      all: first [exists e; set_solver | exists e0; set_solver].
    - subst. split; [exists e; set_solver|]. constructor; [lia|constructor]. }
  apply (H [] None). done.
Qed.

(** ** Reachable pools *)

(** One call on the pool; the unspent set can be any at each call, as the chain moves on
    between calls. *)
Inductive mp_step `{EC : ECOps} : Mempool -> Mempool -> Prop :=
| step_add m s tx m' h : AddTx m s tx = Ok (m', h) -> mp_step m m'
| step_remove m h : mp_step m (RemoveTx m h)
| step_removes m hs : mp_step m (RemoveTxs m hs)
| step_evict m : mp_step m (EvictLowestFeeRate m).1
| step_tip m height : mp_step m (SetTipHeight m height)
| step_load m s data : mp_step m (LoadFromBytes m s data).1.

Inductive mp_reachable `{EC : ECOps} (p : ChainParams) : Mempool -> Prop :=
| reach_new : mp_reachable p (mp_New p)
| reach_step m m' : mp_reachable p m -> mp_step m m' -> mp_reachable p m'.

Lemma RemoveTxs_params m hs : mp_p (RemoveTxs m hs) = mp_p m.
Proof.
  unfold RemoveTxs. revert m. induction hs as [|h hs IH]; intros m; simpl; [done|].
  by rewrite IH, removeTxUnsafe_params.
Qed.

Lemma mp_step_inv `{EC : ECOps} m m' :
  mp_limit (mp_p m) -> mp_inv m -> mp_step m m' -> mp_inv m' /\ mp_p m' = mp_p m.
Proof.
  intros Hl Hi H. destruct H as [m s tx m' h H|m h|m hs|m|m height|m s data].
  - split; [by eapply mp_inv_AddTx|]. by apply AddTx_Ok in H as (? & ? & ? & ? & ? & ? & ? & ? & [= -> ->]).
  - split; [by apply mp_inv_remove|apply removeTxUnsafe_params].
  - split; [by apply mp_inv_RemoveTxs|apply RemoveTxs_params].
  - split; [by apply mp_inv_evict|]. unfold EvictLowestFeeRate. destruct (_ =? 0)%nat; [done|].
    destruct (fold_left _ _ _) as [[h r]|]; [apply removeTxUnsafe_params|done].
  - split; [|done]. destruct Hi as [H1 H2 H3]. by constructor.
  - unfold LoadFromBytes. destruct (_ =? 0); [done|]. destruct (ReadVarIntFromBytes data); [|done].
    by apply load_loop_inv.
Qed.

Lemma mp_reachable_inv `{EC : ECOps} p m :
  is_u32 (p_MaxMempoolSize p) -> mp_reachable p m -> mp_inv m /\ mp_p m = p.
Proof.
  intros Hp H. induction H as [|m m' H [IH Ep] Hs].
  - split; [|done]. apply mp_inv_new. unfold is_u32 in Hp. lia.
  - subst p. destruct (mp_step_inv m m') as [Hi' Ep']; done.
Qed.

(** ** The order of a template *)

(** A list is sorted when any two positions are in order. *)
Lemma StronglySorted_lookup {A} (R : A -> A -> Prop) (l : list A) :
  StronglySorted R l <-> forall i j a b, (i < j)%nat -> l !! i = Some a -> l !! j = Some b -> R a b.
Proof.
  induction l as [|x l IH]; [split; [done|constructor]|]. rewrite StronglySorted_cons, IH, Forall_lookup. split.
  - intros [Hx Hl] [|i] [|j] a b Hij Ha Hb; try lia; [injection Ha as <-; by apply (Hx j)|apply (Hl i j); [lia|done..]].
  - intros H. split; [intros j b Hb; apply (H 0%nat (S j)); [lia|done..]|].
    intros i j a b Hij Ha Hb. apply (H (S i) (S j)); [lia|done..].
Qed.

(** The entries of a pool have distinct hashes of 32 bytes. *)
Lemma pool_hashes m : mp_inv m ->
  Forall (fun e => wf_hash (te_Hash e)) (map snd (map_to_list (mp_txs m)))
  /\ NoDup (map te_Hash (map snd (map_to_list (mp_txs m)))).
Proof.
  intros Hi.
  assert (forall kv, kv ∈ map_to_list (mp_txs m) -> kv.1 = HashTransaction (te_Tx kv.2) /\ te_Hash kv.2 = kv.1) as Hk.
  { intros [h e] H. apply elem_of_map_to_list in H. destruct (mi_entry m Hi h e H) as (-> & -> & _). done. }
  split.
  - apply Forall_map, Forall_forall. intros kv Hkv. destruct (Hk kv Hkv) as [E1 E2]. simpl.
    rewrite E2, E1. apply wf_DoubleSHA256.
  - rewrite map_map. replace (map (fun x => te_Hash x.2) (map_to_list (mp_txs m)))
      with (map fst (map_to_list (mp_txs m))); [apply NoDup_fst_map_to_list|].
    apply map_ext_in. intros kv Hkv. apply list_elem_of_In in Hkv. symmetry. by apply Hk.
Qed.

Lemma hnum_wf h : wf_hash h -> hnum h = le_combine h.
Proof. intros Hh. unfold hnum. by rewrite take_app_length'. Qed.

(** Sorted by the comparison means: by decreasing rate, then by increasing hash. *)
Lemma entries_in_order l :
  Forall (fun e => wf_hash (te_Hash e)) l -> NoDup (map te_Hash l) ->
  StronglySorted entry_le l <-> forall i j a b, (i < j)%nat -> l !! i = Some a -> l !! j = Some b ->
    te_FeeRate b < te_FeeRate a
    \/ te_FeeRate a = te_FeeRate b /\ le_combine (te_Hash a) < le_combine (te_Hash b).
Proof.
  intros Hw Hn. rewrite StronglySorted_lookup.
  assert (forall i j a b, (i < j)%nat -> l !! i = Some a -> l !! j = Some b -> entry_le a b <->
    te_FeeRate b < te_FeeRate a \/ te_FeeRate a = te_FeeRate b /\ le_combine (te_Hash a) < le_combine (te_Hash b)) as H.
  { intros i j a b Hij Ha Hb. rewrite entry_le_num. rewrite Forall_lookup in Hw.
    pose proof (Hw _ _ Ha) as Wa. pose proof (Hw _ _ Hb) as Wb. rewrite !hnum_wf by done.
    assert (le_combine (te_Hash a) <> le_combine (te_Hash b)); [|lia].
    rewrite <- !hnum_wf by done. intros E. apply hnum_inj in E; [|done..].
    assert (i = j); [|lia]. eapply (proj1 (NoDup_alt _) Hn i j (te_Hash b)); rewrite list_lookup_fmap.
    - by rewrite Ha, <- E.
    - by rewrite Hb. }
  split; intros G i j a b Hij Ha Hb; by apply (H i j a b Hij Ha Hb), (G i j).
Qed.

(** ** Properties *)

(** C22. The pool's invariant holds in every state reachable by its operations, whatever
    the chain does in between: entries are filed under their transaction hash with the fee
    rate and size of that transaction and at least the relay fee, the index of spent
    outpoints is exactly the inputs of the pool's transactions, no two of which spend the
    same outpoint, and the pool never exceeds [MaxMempoolSize]. *)
Theorem mempool_invariant `{EC : ECOps} p m :
  is_u32 (p_MaxMempoolSize p) -> mp_reachable p m ->
  mp_inv m /\
  (forall h1 h2 e1 e2 k, mp_txs m !! h1 = Some e1 -> mp_txs m !! h2 = Some e2 ->
     k ∈ map in_key (tx_Inputs (te_Tx e1)) -> k ∈ map in_key (tx_Inputs (te_Tx e2)) -> h1 = h2).
Proof.
  intros Hp H. destruct (mp_reachable_inv p m Hp H) as [Hi _].
  split; [done|]. intros *. by apply mp_no_conflict.
Qed.

Definition example_pool : Mempool :=
  match AddTx (EC := ToyEC.toy_ec) (SetTipHeight (mp_New Regtest) 9) example_utxo example_tx with
  | Ok (m, _) => m
  | Err _ => mp_New Regtest
  end.

Lemma example_pool_reachable : mp_reachable (EC := ToyEC.toy_ec) Regtest example_pool.
Proof.
  eapply reach_step; [eapply reach_step; [apply reach_new|apply (step_tip _ 9)]|].
  apply (step_add _ example_utxo example_tx _ (HashTransaction example_tx)).
  vm_compute. reflexivity.
Qed.

Lemma example_pool_inv : mp_inv example_pool.
Proof. exact (proj1 (mp_reachable_inv (EC := ToyEC.toy_ec) Regtest _ ltac:(done) example_pool_reachable)). Qed.

Lemma example_pool_added :
  AddTx (EC := ToyEC.toy_ec) (SetTipHeight (mp_New Regtest) 9) example_utxo example_tx
  = Ok (example_pool, HashTransaction example_tx).
Proof. vm_compute. reflexivity. Qed.

Lemma example_pool_valid : mp_valid (EC := ToyEC.toy_ec) example_pool example_utxo.
Proof.
  pose proof example_pool_added as H.
  apply (AddTx_Ok (EC := ToyEC.toy_ec)) in H as (fee & _ & _ & _ & _ & _ & Hv & _ & E).
  apply (f_equal fst) in E. cbn [fst] in E. intros h e He. rewrite E in He |- *.
  cbn [mp_txs mp_tipHeight mp_p SetTipHeight mp_New] in *.
  apply lookup_insert_Some in He as [[_ <-]|[_ He]]; [|by rewrite lookup_empty in He].
  split; [apply wf_example_tx|exact Hv].
Qed.

Lemma mempool_invariant_witness : size (mp_txs example_pool) = 1%nat /\ mp_inv example_pool.
Proof.
  split; [vm_compute; reflexivity|].
  refine (proj1 (mempool_invariant (EC := ToyEC.toy_ec) Regtest example_pool _ example_pool_reachable)).
  by vm_compute.
Defined.

(** C30. Block templates are deterministic and complete: while the fees of the pool fit in
    64 bits, the template lists every transaction of the pool exactly once, an entry before
    another only if its fee rate is higher, or the rates are equal and its hash, as a
    little-endian number, is smaller; and its fee total is the exact sum.  Any other list of
    the entries in that order is the same list. *)
Theorem block_template_exact m :
  mp_inv m -> Forall (fun kv => is_u64 (te_Fee kv.2)) (map_to_list (mp_txs m)) ->
  let entries := GetAllEntries m in
  let in_order := fun l : list TxEntry => forall i j a b, (i < j)%nat -> l !! i = Some a -> l !! j = Some b ->
    te_FeeRate b < te_FeeRate a
    \/ te_FeeRate a = te_FeeRate b /\ le_combine (te_Hash a) < le_combine (te_Hash b) in
  sumZ (map te_Fee entries) < 2^64 ->
  bt_Transactions (BlockTemplate m) = map (fun e => Some (te_Tx e)) entries
  /\ bt_TotalFees (BlockTemplate m) = sumZ (map te_Fee entries)
  /\ in_order entries
  /\ entries ≡ₚ map snd (map_to_list (mp_txs m))
  /\ (forall l, l ≡ₚ map snd (map_to_list (mp_txs m)) -> in_order l -> l = entries).
Proof.
  intros Hi Hf entries in_order Hsum. destruct (sort_entries_spec (map snd (map_to_list (mp_txs m)))) as [Hs Hp].
  fold (GetAllEntries m) in Hs, Hp. fold entries in Hs, Hp. destruct (pool_hashes m Hi) as [Hw Hn].
  unfold BlockTemplate. fold entries. rewrite template_loop_spec.
  - simpl. split_and!; try done.
    + refine (proj1 (entries_in_order entries _ _) Hs); by rewrite Hp.
    + intros l Hl Hls. apply sort_entries_unique; [done| |done|done]. refine (proj2 (entries_in_order l _ _) Hls); by rewrite Hl.
  - unfold is_u64. lia.
  - rewrite Hp. by apply Forall_map.
  - lia.
Qed.

(** Three spends of coins worth 1500 each. *)
Definition spend_of (i v : Z) : Transaction := {|
  tx_Version := 1;
  tx_Inputs := [{| in_PreviousOutPoint := {| op_Hash := ZeroHash; op_Index := i |};
                   in_SignatureScript := []; in_Sequence := 0xFFFFFFFF |}];
  tx_Outputs := [{| out_Value := v; out_PkScript := [Byte.x51] |}]; tx_LockTime := 0 |}.
Definition busy_pool : Mempool :=
  fold_left (fun m tx => match AddTx (EC := ToyEC.toy_ec) m
      (<[OutpointKey ZeroHash 8 := example_entry]> (<[OutpointKey ZeroHash 9 := example_entry]> example_utxo)) tx with
    | Ok (m, _) => m | Err _ => m end)
  [example_tx; spend_of 8 900; spend_of 9 900] (SetTipHeight (mp_New Regtest) 9).
Lemma busy_pool_inv : mp_inv busy_pool.
Proof.
  apply (mp_reachable_inv (EC := ToyEC.toy_ec) Regtest); [done|]. unfold busy_pool.
  assert (mp_reachable (EC := ToyEC.toy_ec) Regtest (SetTipHeight (mp_New Regtest) 9)) as H
    by (eapply reach_step; [apply reach_new|apply (step_tip _ 9)]).
  revert H. generalize (SetTipHeight (mp_New Regtest) 9). induction [example_tx; _; _] as [|tx l IH]; intros m Hm; [exact Hm|].
  cbn [fold_left]. apply IH. destruct (AddTx (EC := ToyEC.toy_ec) m _ tx) as [[m' h]|] eqn:E; [|exact Hm].
  eapply reach_step; [exact Hm|]. by eapply step_add.
Qed.

(** Two of the three pay the same rate: the smaller hash comes first. *)
Lemma block_template_exact_witness :
  map te_Fee (GetAllEntries busy_pool) = [600; 600; 500] /\ bt_TotalFees (BlockTemplate busy_pool) = 1700
  /\ exists a b, GetAllEntries busy_pool !! 0%nat = Some a /\ GetAllEntries busy_pool !! 1%nat = Some b
       /\ te_FeeRate a = te_FeeRate b /\ le_combine (te_Hash a) < le_combine (te_Hash b).
Proof.
  split; [vm_compute; reflexivity|].
  destruct (block_template_exact busy_pool) as (_ & -> & Ho & _).
  - exact busy_pool_inv.
  - refine (bool_decide_unpack _ _). vm_compute. exact I.
  - vm_compute. reflexivity.
  - split; [vm_compute; reflexivity|].
    assert (te_FeeRate <$> GetAllEntries busy_pool !! 0%nat = te_FeeRate <$> GetAllEntries busy_pool !! 1%nat) as E
      by (vm_compute; reflexivity).
    assert (bool_decide (is_Some (GetAllEntries busy_pool !! 1%nat)) = true) as E1 by (vm_compute; reflexivity).
    destruct (GetAllEntries busy_pool !! 1%nat) as [b|] eqn:Hb; [|discriminate E1].
    destruct (GetAllEntries busy_pool !! 0%nat) as [a|] eqn:Ha; [|discriminate E].
    exists a, b. split; [reflexivity|]. split; [reflexivity|]. apply (inj Some) in E. split; [exact E|].
    destruct (Ho 0%nat 1%nat a b ltac:(lia) Ha Hb) as [H|[_ H]]; [|exact H]. rewrite E in H. destruct (Z.lt_irrefl _ H).
Defined.

(** A dump of the pool restores it: if all its transactions are still valid at the
    same tip, loading [DumpToBytes] into a fresh pool re-admits all of them and
    rebuilds exactly the same pool, entries and index of spent outpoints included. *)
Theorem mempool_dump_roundtrip `{EC : ECOps} m s :
  is_u32 (p_MaxMempoolSize (mp_p m)) -> mp_inv m -> mp_valid m s ->
  LoadFromBytes (SetTipHeight (mp_New (mp_p m)) (mp_tipHeight m)) s (DumpToBytes m) = (m, mp_Count m).
Proof.
  intros Hlim Hi Hv. unfold DumpToBytes, mp_Count.
  set (m0 := SetTipHeight (mp_New (mp_p m)) (mp_tipHeight m)).
  assert (mp_inv m0) as Hi0.
  { pose proof (mp_inv_new (mp_p m) ltac:(unfold is_u32 in Hlim; lia)) as [H1 H2 H3]. by constructor. }
  destruct (Nat.eqb_spec (size (mp_txs m)) 0) as [E|Hne].
  { unfold LoadFromBytes. simpl. rewrite E. simpl. f_equal. apply mp_inv_ext; try done.
    apply map_size_empty_inv in E. by rewrite E. }
  set (l := map_to_list (mp_txs m)).
  assert (length l = size (mp_txs m)) as Hlen by (subst l; by rewrite length_map_to_list).
  pose proof (mi_size m Hi) as Hsz.
  assert (is_u64 (Z.of_nat (size (mp_txs m)))) as Hu by (unfold is_u64, is_u32 in *; lia).
  unfold LoadFromBytes. pose proof (length_PutVarInt _ Hu) as LN.
  pose proof (VarIntSize_bounds (Z.of_nat (size (mp_txs m)))) as Hvb.
  rewrite (proj2 (Z.eqb_neq _ _)) by (rewrite length_app; lia).
  rewrite ReadVarIntFromBytes_enc by done. rewrite drop_app_length' by lia.
  rewrite Nat2Z.id, <- Hlen, <- (app_nil_r (concat _)).
  assert (NoDup (map fst (rev l ++ []))) as HN.
  { rewrite app_nil_r, map_rev, <- Permutation_rev. apply NoDup_fst_map_to_list. }
  assert (forall kv, kv ∈ rev l ++ [] -> mp_txs m !! kv.1 = Some kv.2) as HL.
  { intros [h e] Hkv. rewrite app_nil_r in Hkv. apply list_elem_of_In, in_rev, list_elem_of_In in Hkv.
    by apply elem_of_map_to_list. }
  pose proof (load_loop_inv (length l) (concat (map (fun kv => tx_SerializeToBytes (te_Tx kv.2)) l) ++ [])
    s m0 0 Hlim Hi0) as [Hinv _].
  replace m0 with (pool_of m []) in * by done.
  rewrite load_loop_pool in * by (done || (simpl; lia)).
  rewrite Hlen, Z.add_0_l. f_equal. apply mp_inv_ext; [exact Hinv|done| |done|done].
  simpl. rewrite app_nil_r in *. apply map_eq. intros h. apply option_eq. intros e.
  rewrite <- elem_of_list_to_map by exact HN. rewrite list_elem_of_In, <- in_rev, <- list_elem_of_In.
  apply elem_of_map_to_list.
Qed.

Lemma mempool_dump_roundtrip_witness :
  (LoadFromBytes (EC := ToyEC.toy_ec) (SetTipHeight (mp_New Regtest) 9) example_utxo (DumpToBytes example_pool)).2 = 1.
Proof.
  change Regtest with (mp_p example_pool). change 9 with (mp_tipHeight example_pool).
  rewrite (mempool_dump_roundtrip (EC := ToyEC.toy_ec) example_pool example_utxo).
  - vm_compute. reflexivity.
  - by vm_compute.
  - apply example_pool_inv.
  - apply example_pool_valid.
Defined.

(** Eviction removes a transaction of the lowest fee rate in the pool (on a tie, the
    one with the smallest hash), whatever the order in which the map is scanned. *)
Theorem evict_removes_lowest m order :
  mp_inv m -> order ≡ₚ map snd (map_to_list (mp_txs m)) -> mp_txs m <> ∅ ->
  exists h e, mp_txs m !! h = Some e
    /\ EvictLowestFeeRate m = (removeTxUnsafe m h, true)
    /\ fst <$> fold_left evict_step order None = Some h
    /\ (forall h' e', mp_txs m !! h' = Some e' ->
         te_FeeRate e < te_FeeRate e' \/ te_FeeRate e = te_FeeRate e' /\ hnum h <= hnum h').
Proof.
  intros Hi Hp Hne.
  assert (forall h e, mp_txs m !! h = Some e -> te_Hash e = h) as Hkey.
  { intros h e H. destruct (mi_entry m Hi h e H) as (-> & -> & _). done. }
  assert (forall e, e ∈ map snd (map_to_list (mp_txs m)) <-> mp_txs m !! te_Hash e = Some e) as Hin.
  { intros e. rewrite list_elem_of_fmap. split.
    - intros ([h e'] & -> & H). apply elem_of_map_to_list in H. simpl.
      by rewrite (Hkey h e' H).
    - intros H. exists (te_Hash e, e). split; [done|]. by apply elem_of_map_to_list. }
  assert (forall l, l ≡ₚ map snd (map_to_list (mp_txs m)) ->
    exists h e, fold_left evict_step l None = Some (h, te_FeeRate e) /\ mp_txs m !! h = Some e
    /\ (forall h' e', mp_txs m !! h' = Some e' ->
         te_FeeRate e < te_FeeRate e' \/ te_FeeRate e = te_FeeRate e' /\ hnum h <= hnum h')) as Hscan.
  { intros l Hl. pose proof (evict_scan_lowest l) as H. destruct (fold_left evict_step l None) as [[h r]|].
    - destruct H as [(e & He & <- & <-) Hmin]. exists (te_Hash e), e. split; [done|].
      rewrite Hl, Hin in He. split; [done|]. intros h' e' He'. rewrite <- (Hkey h' e' He').
      rewrite Forall_forall in Hmin. apply Hmin. rewrite Hl, Hin. by rewrite (Hkey h' e' He').
    - simpl in H. subst l. exfalso. apply Hne. apply Permutation_nil_l in Hl.
      apply map_empty. intros i. destruct (mp_txs m !! i) as [e|] eqn:E; [|done].
      assert (e ∈ map snd (map_to_list (mp_txs m))) as He by (apply Hin; by rewrite (Hkey i e E)).
      rewrite <- Hl in He. set_solver. }
  destruct (Hscan _ (reflexivity _)) as (h & e & Hf & He & Hmin).
  destruct (Hscan order Hp) as (h' & e' & Hf' & He' & Hmin').
  exists h, e. split; [done|]. split.
  - unfold EvictLowestFeeRate. rewrite Hf. destruct (Nat.eqb_spec (size (mp_txs m)) 0) as [E|]; [|done].
    by apply map_size_empty_inv in E.
  - split; [|done]. rewrite Hf'. simpl. f_equal.
    destruct (mi_entry m Hi h e He) as [E1 _]. destruct (mi_entry m Hi h' e' He') as [E1' _].
    apply hnum_inj; [rewrite E1'; apply wf_DoubleSHA256|rewrite E1; apply wf_DoubleSHA256|].
    specialize (Hmin h' e' He'). specialize (Hmin' h e He). lia.
Qed.

Lemma evict_removes_lowest_witness :
  exists h e, mp_txs example_pool !! h = Some e /\ EvictLowestFeeRate example_pool = (removeTxUnsafe example_pool h, true).
Proof.
  destruct (evict_removes_lowest example_pool (map snd (map_to_list (mp_txs example_pool)))) as (h & e & H1 & H2 & _).
  - apply example_pool_inv.
  - reflexivity.
  - intros E. apply (f_equal size) in E. vm_compute in E. discriminate E.
  - exists h, e. split; [exact H1|exact H2].
Defined.
