(* ===== verification/WalletTx.v ===== *)
(** * Payments

    Models [src/internal/wallet/txbuilder.go]: the choice of coins, the estimation of fees
    and the construction of a signed transaction.  What the builder makes is shown to be
    accepted by the transaction validation of the node, and by its pool. *)
From S2P Require Import Prelude.
From S2P Require Import Types.
From S2P Require Import Sha256.
From S2P Require Import Crypto.
From S2P Require Import Params.
From S2P Require Import Script.
From S2P Require Import Target.
From S2P Require Import Base58.
From S2P Require Import Utxo.
From S2P Require Import Wallet.
From S2P Require Import WalletInv.
From S2P Require Import WalletProps.
From S2P Require Import TxValidation.
From S2P Require Import Mempool.
From stdpp Require Import sorting.
#[local] Open Scope Z_scope.
#[local] Open Scope go_scope.

(** ** The builder *)

Definition estimatedInputSize : Z := 148.
Definition estimatedOutputSize : Z := 34.
Definition txOverhead : Z := 10.
Definition DustThreshold : Z := 546.

Record SendRequest := { sr_ToAddress : list byte; sr_Amount : Z }.

(** [EstimateFee]; the builder raises a fee of zero to one. *)
Definition EstimateFee (numInputs numOutputs feePerByte : Z) : Z :=
  let size := txOverhead + numInputs * estimatedInputSize + numOutputs * estimatedOutputSize in
  mul64 (u64 size) feePerByte.
Definition fee_for (numInputs numOutputs feePerByte : Z) : Z :=
  let fee := EstimateFee numInputs numOutputs feePerByte in
  if fee <? 1 then 1 else fee.

(** The loop of [selectCoins]. *)
Fixpoint select_loop (targetAmount feePerByte : Z) (utxos selected : list UnspentOutput) (totalIn : Z)
  : result WalletErr (list UnspentOutput * Z) :=
  match utxos with
  | [] => Err (InsufficientFunds targetAmount totalIn)
  | u :: utxos =>
      let selected := selected ++ [u] in
      let totalIn := add64 totalIn (uo_Value u) in
      if totalIn >=? add64 targetAmount (fee_for (len selected) 2 feePerByte) then Ok (selected, totalIn)
      else select_loop targetAmount feePerByte utxos selected totalIn
  end.
Definition selectCoins (utxos : list UnspentOutput) (targetAmount feePerByte : Z)
  : result WalletErr (list UnspentOutput * Z) :=
  select_loop targetAmount feePerByte utxos [] 0.

Definition is_spendable (coinbaseMaturity tipHeight : Z) (u : UnspentOutput) : bool :=
  let confs := confirmations tipHeight (uo_Height u) in
  negb (confs <? 1) && negb (uo_IsCoinbase u && (confs <? coinbaseMaturity)).
Definition filterSpendable (utxos : list UnspentOutput) (coinbaseMaturity tipHeight : Z) : list UnspentOutput :=
  List.filter (is_spendable coinbaseMaturity tipHeight) utxos.

(** The order given to [sort.Slice], which leaves outputs of equal value in any order:
    every such order is that of [merge_sort] for some order of the input. *)
Definition by_value (a b : UnspentOutput) : Prop := uo_Value b <= uo_Value a.
#[export] Instance by_value_dec a b : Decision (by_value a b).
Proof. unfold by_value. apply _. Defined.
Definition sort_by_value (l : list UnspentOutput) : list UnspentOutput := merge_sort by_value l.

Definition payment_input (u : UnspentOutput) : TxInput :=
  {| in_PreviousOutPoint := {| op_Hash := uo_TxHash u; op_Index := uo_Index u |};
     in_SignatureScript := []; in_Sequence := 0xFFFFFFFF |}.

Section build.
Context `{WO : WalletOps} (env : WalletEnv).

(** [for i, utxo := range selectedInputs], signing in place. *)
Fixpoint sign_selected (w : HDWallet) (selected : list UnspentOutput) (i : nat) (tx : Transaction)
  : result WalletErr Transaction :=
  match selected with
  | [] => Ok tx
  | u :: selected =>
      match KeyForScript (uo_PkScript u) w with
      | None => Err (NoPrivateKey (Z.of_nat i) (uo_Address u))
      | Some dk =>
          let* sigScript := rwrap (SignInputErr (Z.of_nat i)) (SignInput tx (Z.of_nat i) (uo_PkScript u) (dk_PrivKey dk)) in
          sign_selected w selected (S i) (set_script i sigScript tx)
      end
  end.

(** [GetChangeAddress] with its error wrapped. *)
Definition change_address : wM (list byte) := fun w =>
  let '(r, w') := GetChangeAddress env w in (rwrap ChangeAddress r, w').

(** The outputs: the payment, and the change if it is above the dust threshold both before
    and after paying for its own output. *)
Definition payment_outputs (dest : TxOutput) (nIn totalIn feePerByte change : Z) : wM (list TxOutput) :=
  if change >? DustThreshold then
    do changeAddr <- change_address;
    do (_, changePKH) <- slift ChangeDecode (AddressToPubKeyHash changeAddr);
    let fee := fee_for nIn 2 feePerByte in
    let newChange := sub64 (sub64 totalIn (out_Value dest)) fee in
    if newChange >? DustThreshold
    then sret [dest; {| out_Value := newChange; out_PkScript := MakeP2PKHScript changePKH |}]
    else sret [dest]
  else sret [dest].

Definition BuildTransaction (req : SendRequest) (feePerByte : Z) (utxos : list UnspentOutput)
    (coinbaseMaturity tipHeight : Z) : wM Transaction :=
  do _ <- RequireUnlocked env;
  do w <- sget;
  if sr_Amount req =? 0 then sfail ZeroAmount
  else
    do (addrVer, destPKH) <- slift InvalidDestination (AddressToPubKeyHash (sr_ToAddress req));
    if negb (Byte.eqb addrVer (w_addrVersion w))
    then sfail (AddressVersionMismatch (byte.unsigned addrVer) (byte.unsigned (w_addrVersion w)))
    else
      let destScript := MakeP2PKHScript destPKH in
      let spendable := filterSpendable utxos coinbaseMaturity tipHeight in
      if len spendable =? 0 then sfail NoSpendable
      else
        do (selectedInputs, totalIn) <- slift (fun e => e) (selectCoins (sort_by_value spendable) (sr_Amount req) feePerByte);
        let dest := {| out_Value := sr_Amount req; out_PkScript := destScript |} in
        let fee := fee_for (len selectedInputs) 1 feePerByte in
        let remaining := sub64 totalIn (sr_Amount req) in
        if remaining <? fee then sfail (FeeTooLarge (sr_Amount req) fee totalIn)
        else
          do outputs <- payment_outputs dest (len selectedInputs) totalIn feePerByte (remaining - fee);
          do w <- sget;
          slift (fun e => e) (sign_selected w selectedInputs 0
            {| tx_Version := 1; tx_Inputs := map payment_input selectedInputs;
               tx_Outputs := outputs; tx_LockTime := tipHeight |}).
End build.

(** ** Fees *)

Section fees.
Context (rate : Z).

Definition size_for (nIn nOut : Z) : Z := txOverhead + nIn * estimatedInputSize + nOut * estimatedOutputSize.

Lemma fee_for_exact nIn nOut :
  0 <= nIn -> 0 <= nOut -> 0 <= rate -> size_for nIn nOut * Z.max 1 rate < 2^64 ->
  fee_for nIn nOut rate = Z.max 1 (size_for nIn nOut * rate).
Proof.
  intros Hi Ho Hr Hb. unfold fee_for, EstimateFee, mul64. fold (size_for nIn nOut).
  assert (0 < size_for nIn nOut) as Hs by (unfold size_for, txOverhead, estimatedInputSize, estimatedOutputSize; lia).
  rewrite (u64_small (size_for nIn nOut)) by (unfold is_u64; nia).
  rewrite u64_small by (unfold is_u64; nia). destruct (Z.ltb_spec (size_for nIn nOut * rate) 1); lia.
Qed.
End fees.

(** ** Selection *)

Definition value_of (l : list UnspentOutput) : Z := sumZ (map uo_Value l).

Lemma value_take all k :
  Forall (fun u => 0 <= uo_Value u) all -> 0 <= value_of (take k all) <= value_of all.
Proof.
  intros Hv.
  assert (value_of all = value_of (take k all) + value_of (drop k all)) as ->
    by (unfold value_of; by rewrite <- sumZ_app, <- map_app, take_drop).
  pose proof (sumZ_nonneg (map uo_Value (take k all)) ltac:(by apply Forall_map, Forall_take)).
  pose proof (sumZ_nonneg (map uo_Value (drop k all)) ltac:(by apply Forall_map, Forall_drop)).
  unfold value_of. lia.
Qed.

Section selection.
Context (target rate : Z) (all : list UnspentOutput).
Context (Ht : 0 <= target) (Hr : 0 <= rate) (Hv : Forall (fun u => 0 <= uo_Value u) all) (Hsum : value_of all < 2^64)
  (Hfee : target + size_for (len all) 2 * Z.max 1 rate < 2^64).

(** The first [k] outputs suffice for the payment with its change. *)
Definition suffices (k : nat) : Prop :=
  target + Z.max 1 (size_for (Z.of_nat k) 2 * rate) <= value_of (take k all).

Lemma fee_for_below k : (k <= length all)%nat ->
  fee_for (Z.of_nat k) 2 rate = Z.max 1 (size_for (Z.of_nat k) 2 * rate)
  /\ target + Z.max 1 (size_for (Z.of_nat k) 2 * rate) < 2^64.
Proof.
  intros Hk. unfold size_for, txOverhead, estimatedInputSize, estimatedOutputSize in *.
  split; [apply fee_for_exact; unfold size_for, txOverhead, estimatedInputSize, estimatedOutputSize; nia|nia].
Qed.

Lemma select_loop_spec rest : forall k, drop k all = rest -> (k <= length all)%nat ->
  (forall j, (0 < j <= k)%nat -> ~ suffices j) ->
  match select_loop target rate rest (take k all) (value_of (take k all)) with
  | Ok (sel, total) => exists j, (k < j <= length all)%nat /\ sel = take j all /\ total = value_of sel /\ suffices j
      /\ forall i, (0 < i < j)%nat -> ~ suffices i
  | Err e => (forall j, (0 < j <= length all)%nat -> ~ suffices j) /\ e = InsufficientFunds target (value_of all)
  end.
Proof.
  induction rest as [|u rest IH]; intros k Hd Hk Hno; cbn [select_loop].
  - assert (length all <= k)%nat by (apply (f_equal length) in Hd; rewrite length_drop in Hd; simpl in Hd; lia).
    rewrite take_ge by lia. split; [|done]. intros j Hj. apply Hno. lia.
  - assert (all !! k = Some u) as Hu by (rewrite <- (Nat.add_0_r k), <- lookup_drop, Hd; done).
    pose proof (lookup_lt_Some _ _ _ Hu) as Hlt. rewrite <- (take_S_r _ _ _ Hu).
    assert (value_of (take (S k) all) = value_of (take k all) + uo_Value u) as HS.
    { rewrite (take_S_r _ _ _ Hu). unfold value_of. rewrite map_app, sumZ_app. simpl. lia. }
    assert (0 <= value_of (take (S k) all) <= value_of all) as HB by (by apply value_take).
    assert (add64 (value_of (take k all)) (uo_Value u) = value_of (take (S k) all)) as ->
      by (unfold add64; rewrite HS, u64_small by (unfold is_u64; lia); done).
    rewrite length_take, Nat.min_l by lia. destruct (fee_for_below (S k) ltac:(lia)) as [-> Hf].
    unfold add64. rewrite u64_small by (unfold is_u64; lia).
    destruct (Z.geb_spec (value_of (take (S k) all)) (target + Z.max 1 (size_for (Z.of_nat (S k)) 2 * rate))).
    + exists (S k). split_and!; [lia|lia|done|done|unfold suffices; lia|]. intros i Hi. apply Hno. lia.
    + assert (drop (S k) all = rest) as Hd' by (rewrite (drop_S _ u k) in Hd by done; by injection Hd).
      assert (forall j, (0 < j <= S k)%nat -> ~ suffices j) as Hno'.
      { intros j Hj. destruct (decide (j = S k)) as [->|]; [unfold suffices; lia|apply Hno; lia]. }
      specialize (IH (S k) Hd' ltac:(lia) Hno'). destruct (select_loop _ _ _ _ _) as [[sel total]|e]; [|done].
        destruct IH as (j & Hj & ? & ? & ? & ?). exists j. split_and!; try done; lia.
Qed.

(** [selectCoins] takes the shortest sufficient prefix, and fails when there is none. *)
Lemma selectCoins_spec :
  match selectCoins all target rate with
  | Ok (sel, total) => exists j, (0 < j <= length all)%nat /\ sel = take j all /\ total = value_of sel /\ suffices j
      /\ forall i, (0 < i < j)%nat -> ~ suffices i
  | Err e => (forall j, (0 < j <= length all)%nat -> ~ suffices j) /\ e = InsufficientFunds target (value_of all)
  end.
Proof. apply (select_loop_spec all 0); [done|lia|intros; lia]. Qed.
End selection.

(** ** Coins of the wallet *)

(** The keys of an unspent set are hashes followed by four bytes, and none is the null
    outpoint of coinbase inputs. *)
Definition utxo_keys (s : UtxoSet) : Prop :=
  (forall k, is_Some (s !! k) -> length k = 36%nat) /\ s !! op_key CoinbaseOutPoint = None.

Definition coin_key (u : UnspentOutput) : outpoint_key := OutpointKey (uo_TxHash u) (uo_Index u).

(** [u] is an output of [s]. *)
Definition coin_of (s : UtxoSet) (u : UnspentOutput) : Prop :=
  exists e, s !! coin_key u = Some e /\ ue_Value e = uo_Value u /\ ue_PkScript e = uo_PkScript u
    /\ ue_Height e = uo_Height u /\ ue_IsCoinbase e = uo_IsCoinbase u.

Lemma in_key_payment u : in_key (payment_input u) = coin_key u.
Proof. done. Qed.

Lemma key_split k : length k = 36%nat -> OutpointKey (take 32 k) (ReadUintLE (drop 32 k)) = k.
Proof.
  intros Hk. unfold OutpointKey. rewrite Put32_ReadUintLE by (rewrite length_drop; lia). by rewrite take_drop.
Qed.

Section coins.
Context `{WO : WalletOps}.

Definition row_key (row : Hash * Z * UtxoEntry) : outpoint_key := let '(h, i, _) := row in OutpointKey h i.

Lemma ForEach_keys s : utxo_keys s -> map row_key (ForEach s) = map fst (map_to_list s).
Proof.
  intros [Hk _]. unfold ForEach. rewrite map_map. apply map_ext_in. intros [k e] Hin.
  apply list_elem_of_In, elem_of_map_to_list in Hin. apply key_split. by apply Hk.
Qed.

Lemma ForEach_elem s h i e : utxo_keys s -> (h, i, e) ∈ ForEach s -> s !! OutpointKey h i = Some e.
Proof.
  intros [Hk _] Hin. unfold ForEach in Hin. change @map with @list_fmap in Hin.
  apply list_elem_of_fmap in Hin as ([k e'] & [= -> -> ->] & Hin). apply elem_of_map_to_list in Hin.
  by rewrite key_split by (apply Hk; eauto).
Qed.

Lemma own_output_key tip w row u :
  own_output tip w row = Some u ->
  coin_key u = row_key row /\ is_Some (KeyForScript (uo_PkScript u) w)
  /\ let '(h, i, e) := row in uo_TxHash u = h /\ uo_Index u = i /\ ue_Value e = uo_Value u
     /\ ue_PkScript e = uo_PkScript u /\ ue_Height e = uo_Height u /\ ue_IsCoinbase e = uo_IsCoinbase u.
Proof.
  destruct row as [[h i] e]. unfold own_output, KeyForScript. destruct (ExtractP2PKHHash (ue_PkScript e)) as [pkh|] eqn:E; [|done].
  destruct (kr_keysByHash (w_keys w) !! pkh) as [dk|] eqn:K; [|done]. intros [= <-]. simpl. rewrite E, K. by split_and!.
Qed.

Lemma FindUnspent_keys rows tip w : sublist (map coin_key (FindUnspent rows tip w)) (map row_key rows).
Proof.
  unfold FindUnspent. induction rows as [|row rows IH]; simpl; [constructor|].
  destruct (own_output tip w row) as [u|] eqn:E; simpl; [|by constructor].
  apply own_output_key in E as [-> _]. by constructor.
Qed.

(** What [FindUnspent] lists: distinct outputs of the set, each with a key. *)
Lemma FindUnspent_coins s rows tip w :
  utxo_keys s -> rows ≡ₚ ForEach s ->
  NoDup (map coin_key (FindUnspent rows tip w))
  /\ Forall (fun u => coin_of s u /\ is_Some (KeyForScript (uo_PkScript u) w)) (FindUnspent rows tip w).
Proof.
  intros Hk Hp. split.
  - eapply sublist_NoDup; [|apply FindUnspent_keys].
    apply (Permutation_map row_key) in Hp. rewrite Hp, (ForEach_keys s Hk). apply NoDup_fst_map_to_list.
  - apply Forall_forall. intros u Hu. unfold FindUnspent in Hu. apply list_elem_of_omap in Hu as ([[h i] e] & Hin & Hu).
    rewrite Hp in Hin. apply (ForEach_elem s h i e Hk) in Hin.
    apply own_output_key in Hu as (Hkey & Hd & _ & _ & H1 & H2 & H3 & H4). split; [|done].
    exists e. rewrite Hkey. by split_and!.
Qed.
End coins.

Lemma utxo_sum_nonneg s : wf_utxo s -> 0 <= utxo_sum s.
Proof.
  induction s as [|k e m Hk IH] using map_ind; intros Hwf; [by rewrite utxo_sum_empty|].
  apply map_Forall_insert in Hwf as [[[? _] _] Hm]; [|done]. rewrite utxo_sum_insert_new by done. specialize (IH Hm). lia.
Qed.

Lemma coins_values s l : Forall (coin_of s) l ->
  value_of l = sumZ (map (fun k => from_option ue_Value 0 (s !! k)) (map coin_key l)).
Proof.
  unfold value_of. induction 1 as [|u l (e & He & Hv & _) _ IH]; simpl; [done|]. rewrite He, IH. simpl. lia.
Qed.

(** Distinct coins of a set are worth at most the set. *)
Lemma coins_bound s l :
  wf_utxo s -> NoDup (map coin_key l) -> Forall (coin_of s) l ->
  Forall (fun u => 0 <= uo_Value u) l /\ value_of l <= utxo_sum s /\ (length l <= size s)%nat.
Proof.
  intros Hwf Hn Hc. split; [|split].
  - eapply Forall_impl; [exact Hc|]. intros u (e & He & <- & _). apply Hwf in He as [[? _] _]. lia.
  - rewrite (coins_values s) by done. pose proof (utxo_sum_delete_keys s (map coin_key l) Hn) as E.
    pose proof (utxo_sum_nonneg _ (wf_delete_keys s (map coin_key l) Hwf)).
    rewrite E in *; [lia|]. apply Forall_map. eapply Forall_impl; [exact Hc|]. intros u (e & He & _). by eexists.
  - rewrite <- (length_map coin_key), <- size_dom, <- (size_list_to_set (C := gset outpoint_key)) by done.
    apply subseteq_size. intros k Hk. apply elem_of_list_to_set in Hk. apply elem_of_dom.
    change @map with @list_fmap in Hk. apply list_elem_of_fmap in Hk as (u & -> & Hu). rewrite Forall_forall in Hc.
    destruct (Hc u Hu) as (e & -> & _). by eexists.
Qed.

(** ** The coins the builder chooses from *)

(** [tip] is the height of the tip, the transaction is for the next block. *)
Definition spendable_coin (p : ChainParams) (tip : Z) (u : UnspentOutput) : Prop :=
  uo_Height u <= tip /\ (uo_IsCoinbase u = true -> p_CoinbaseMaturity p <= tip + 1 - uo_Height u).

Lemma is_spendable_spec p tip u :
  0 <= tip < 2^32 - 1 -> is_u32 (uo_Height u) ->
  is_spendable (p_CoinbaseMaturity p) tip u = true <-> spendable_coin p tip u.
Proof.
  intros Ht Hh. unfold is_spendable, spendable_coin, confirmations, is_u32 in *.
  destruct (Z.geb_spec tip (uo_Height u)) as [H|H].
  - unfold add32. rewrite sub32_ge by (unfold is_u32; lia). rewrite u32_small by (unfold is_u32; lia).
    destruct (Z.ltb_spec (tip - uo_Height u + 1) 1); [lia|]. cbn [negb andb].
    destruct (uo_IsCoinbase u); cbn [andb negb].
    + destruct (Z.ltb_spec (tip - uo_Height u + 1) (p_CoinbaseMaturity p)); cbn [negb].
      * split; [done|]. intros [_ Hm]. specialize (Hm eq_refl). lia.
      * split; [|done]. intros _. split; [lia|]. intros _. lia.
    + split; [|done]. intros _. split; [lia|done].
  - cbn [Z.ltb negb andb]. split; [done|]. lia.
Qed.

Section choices.
Context `{WO : WalletOps} (s : UtxoSet) (p : ChainParams) (tip : Z) (rows : list (Hash * Z * UtxoEntry)) (w : HDWallet).
Context (Hwf : wf_utxo s) (Hkeys : utxo_keys s) (Hrows : rows ≡ₚ ForEach s) (Htip : 0 <= tip < 2^32 - 1).

(** The sorted list of candidates. *)
Definition choices : list UnspentOutput :=
  sort_by_value (filterSpendable (FindUnspent rows tip w) (p_CoinbaseMaturity p) tip).

Lemma choices_perm : choices ≡ₚ filterSpendable (FindUnspent rows tip w) (p_CoinbaseMaturity p) tip.
Proof. apply merge_sort_Permutation. Qed.

Lemma choices_coins :
  NoDup (map coin_key choices)
  /\ Forall (fun u => coin_of s u /\ spendable_coin p tip u /\ is_Some (KeyForScript (uo_PkScript u) w)) choices.
Proof.
  destruct (FindUnspent_coins s rows tip w Hkeys Hrows) as [Hn Hf]. rewrite choices_perm. unfold filterSpendable. split.
  - eapply sublist_NoDup; [exact Hn|]. clear.
    induction (FindUnspent rows tip w) as [|u l IH]; simpl; [constructor|].
    destruct (is_spendable _ _ u); simpl; by constructor.
  - rewrite Forall_forall in *. intros u Hu. apply list_elem_of_In, filter_In in Hu as [Hu Hs].
    apply list_elem_of_In in Hu. destruct (Hf u Hu) as [Hc Hk]. split; [done|]. split; [|done].
    apply is_spendable_spec in Hs; [done|done|]. destruct Hc as (e & He & _ & _ & <- & _). by apply Hwf in He as [_ ?].
Qed.
End choices.

(** ** The change address *)

Section change.
Context `{WO : WalletOps} {EL : ECLaws EC} (env : WalletEnv) (ver : byte).
Implicit Types w : HDWallet.

Lemma save_keys w : w_keys (snd (save env w)) = w_keys w /\ w_addrVersion (snd (save env w)) = w_addrVersion w.
Proof.
  set (I w' := w_keys w' = w_keys w /\ w_addrVersion w' = w_addrVersion w).
  assert (keeps (E := WalletErr) I (ReadFile env)) as H1.
  { intros w' Hw. unfold ReadFile. destruct (we_read_fails env (w_tick w')); [done|]. by destruct (w_file w'). }
  assert (forall wd, keeps (E := WalletErr) I (WriteFile env wd)) as H2.
  { intros wd w' Hw. unfold WriteFile. by destruct (we_write env (w_tick w') (w_file w')). }
  assert (keeps I (save env)) as H.
  { unfold save, savePreservingEncryption. repeat (keeps_step || apply H1 || apply H2). }
  by apply H.
Qed.

(** A new key is entered, or the lists and maps stay as they are. *)
Lemma derive_next_keys b w :
  match derive_next env b w with
  | (Ok dk, w') => key_ok dk /\ dk_IsChange dk = b /\ w_keys w' = add_key (w_addrVersion w) dk (w_keys w)
  | (Err _, w') => w_keys w' = w_keys w
                   \/ exists dk, key_ok dk /\ w_keys w' = add_key (w_addrVersion w) dk (w_keys w)
  end /\ w_addrVersion (snd (derive_next env b w)) = w_addrVersion w.
Proof.
  destruct (derive_next env b w) as [r w'] eqn:E. unfold derive_next, sbind at 1 2, sget in E.
  pose proof (deriveKey_spec b (next_index b w) w) as H.
  destruct (chain_key b w) as [c|]; [|rewrite H in E; injection E as <- <-; by split; [left|]].
  destruct (derived c b (next_index b w)) as [dk|] eqn:Hd;
    [|destruct H as [e H]; rewrite H in E; injection E as <- <-; by split; [left|]].
  rewrite H in E. apply derived_ok in Hd as [Hk Hb]. unfold sbind, smod in E.
  set (w1 := bump b _) in E.
  assert (w_keys w1 = add_key (w_addrVersion w) dk (w_keys w) /\ w_addrVersion w1 = w_addrVersion w) as [E1 E2]
    by (unfold w1, bump; by destruct b).
  pose proof (save_keys w1) as [S1 S2]. destruct (save env w1) as [[[]|e] w2]; cbn [sret snd fst] in *; injection E as <- <-.
  - split; [|congruence]. split_and!; [done|done|congruence].
  - split; [|congruence]. right. exists dk. split; [done|congruence].
Qed.

Lemma add_key_finds dk k pk h : ExtractP2PKHHash pk = Some h ->
  is_Some (kr_keysByHash k !! h) -> is_Some (kr_keysByHash (add_key ver dk k) !! h).
Proof. intros _ H. simpl. rewrite lookup_insert. by case_decide. Qed.

Lemma KeyForScript_add dk w w' pk :
  w_keys w' = add_key ver dk (w_keys w) -> is_Some (KeyForScript pk w) -> is_Some (KeyForScript pk w').
Proof.
  intros E. unfold KeyForScript. destruct (ExtractP2PKHHash pk) as [h|] eqn:Hh; [|done]. rewrite E. by eapply add_key_finds.
Qed.

Lemma change_address_spec w : ring_inv ver w ->
  let w' := snd (change_address env w) in
  ring_inv ver w' /\ (forall pk, is_Some (KeyForScript pk w) -> is_Some (KeyForScript pk w'))
  /\ match fst (change_address env w) with
     | Ok a => exists h, a = PubKeyHashToAddress h ver /\ length h = PubKeyHashSize
                 /\ IsOurScript (MakeP2PKHScript h) w' = true
     | Err e => exists e', e = ChangeAddress e'
     end.
Proof.
  intros Hw. unfold change_address, GetChangeAddress, sbind, sget. rewrite derive_next_change.
  pose proof (ring_next env ver true w Hw) as Hr. destruct (derive_next_keys true w) as [H Hv].
  destruct Hw as [Ev _]. rewrite Ev in *.
  destruct (derive_next env true w) as [[dk|e] w']; cbn [fst snd rwrap sret] in *.
  - destruct H as (Hk & _ & E). split; [done|]. split; [intros pk; by eapply KeyForScript_add|].
    exists (dk_PubKeyHash dk). rewrite Hv. split; [done|]. destruct Hk as [_ Hh].
    assert (length (dk_PubKeyHash dk) = PubKeyHashSize) as Hl by (rewrite Hh; apply length_Hash160).
    split; [done|]. unfold IsOurScript. rewrite (proj2 (p2pkh_script_exact [])) by done. rewrite E. simpl.
    by rewrite lookup_insert_eq.
  - split; [done|]. split; [|by eexists]. intros pk. destruct H as [E|(dk & _ & E)].
    + unfold KeyForScript. by rewrite E.
    + by eapply KeyForScript_add.
Qed.
End change.

(** ** The parts of [BuildTransaction] *)

Section parts.
Context `{WO : WalletOps} {EL : ECLaws EC} (env : WalletEnv) (ver : byte).
Implicit Types w : HDWallet.

(** What the builder pays in fees, and the outputs after the payment. *)
Definition change_outputs (w : HDWallet) (dest : TxOutput) (nIn totalIn rate : Z) (outs : list TxOutput) : Prop :=
  (outs = [dest] /\ totalIn - out_Value dest <= Z.max 1 (size_for nIn 2 * rate) + DustThreshold)
  \/ exists pk, outs = [dest; {| out_Value := totalIn - out_Value dest - Z.max 1 (size_for nIn 2 * rate); out_PkScript := pk |}]
     /\ IsOurScript pk w = true /\ DustThreshold < totalIn - out_Value dest - Z.max 1 (size_for nIn 2 * rate).

Lemma payment_outputs_spec w dest nIn totalIn rate :
  ring_inv ver w -> 0 <= nIn -> 0 <= rate -> 0 <= out_Value dest -> totalIn < 2^64 ->
  size_for nIn 2 * Z.max 1 rate < 2^64 ->
  out_Value dest + Z.max 1 (size_for nIn 2 * rate) <= totalIn ->
  let change := sub64 totalIn (out_Value dest) - fee_for nIn 1 rate in
  let r := payment_outputs env dest nIn totalIn rate change w in
  ring_inv ver (snd r) /\ (forall pk, is_Some (KeyForScript pk w) -> is_Some (KeyForScript pk (snd r)))
  /\ match fst r with
     | Ok outs => change_outputs (snd r) dest nIn totalIn rate outs
     | Err e => exists e', e = ChangeAddress e'
     end.
Proof.
  intros Hw Hn Hr Hd Ht Hs Hle change r.
  assert (0 < size_for nIn 1 <= size_for nIn 2) as Hsz by (unfold size_for, txOverhead, estimatedInputSize, estimatedOutputSize; lia).
  assert (change = totalIn - out_Value dest - Z.max 1 (size_for nIn 1 * rate)) as Hch.
  { unfold change, sub64. rewrite u64_small by (unfold is_u64; lia). rewrite fee_for_exact; [done|lia..|nia]. }
  unfold r, payment_outputs. destruct (Z.gtb_spec change DustThreshold) as [Hc|Hc].
  - pose proof (change_address_spec env ver w Hw) as (H1 & H2 & H3). unfold sbind.
    destruct (change_address env w) as [[a|e] w']; cbn [fst snd] in *; [|done].
    destruct H3 as (h & -> & Hl & Hours). unfold slift. rewrite address_decode by done. cbn [rwrap].
    rewrite fee_for_exact by (lia || done). unfold sub64. rewrite (u64_small (totalIn - out_Value dest)) by (unfold is_u64; lia).
    rewrite u64_small by (unfold is_u64; lia).
    destruct (Z.gtb_spec (totalIn - out_Value dest - Z.max 1 (size_for nIn 2 * rate)) DustThreshold) as [Hg|Hg];
      cbn [sret fst snd]; split; [done|by split; [|right; eexists; split_and!]|done|by split; [|left; split; [|lia]]].
  - cbn [sret fst snd]. split; [done|]. split; [done|]. left. split; [done|]. nia.
Qed.

(** The loop that signs. *)
Lemma sign_selected_spec w selected : ring_inv ver w -> forall i tx,
  (i + length selected = length (tx_Inputs tx))%nat ->
  match sign_selected w selected i tx with
  | Ok tx' => rescripted tx tx' /\ take i (tx_Inputs tx') = take i (tx_Inputs tx)
      /\ forall j u, selected !! j = Some u -> exists ti, tx_Inputs tx' !! (i + j)%nat = Some ti
           /\ forall tx2, rescripted tx tx2 -> Verify (in_SignatureScript ti) (uo_PkScript u) tx2 (Z.of_nat (i + j)) = Ok tt
  | Err e => exists u, u ∈ selected /\ KeyForScript (uo_PkScript u) w = None
  end.
Proof.
  intros Hw. induction selected as [|u selected IH]; intros i tx Hi; cbn [sign_selected]; [by split_and!|].
  cbn [length] in Hi. destruct (KeyForScript (uo_PkScript u) w) as [dk|] eqn:Hk.
  2: { exists u. split; [by left|done]. }
  destruct (key_signs ver w (uo_PkScript u) dk tx i Hw Hk) as (s & -> & _ & HV); [lia|]. cbn [rwrap rbind].
  set (tx1 := set_script i s tx). assert (length (tx_Inputs tx1) = length (tx_Inputs tx)) as Hl by apply length_alter.
  specialize (IH (S i) tx1 ltac:(lia)). destruct (sign_selected w selected (S i) tx1) as [tx'|e].
  - destruct IH as (R & T & H). pose proof (set_script_rescripted i s tx) as R1. fold tx1 in R1.
    split; [by transitivity tx1|]. split.
    { apply (f_equal (take i)) in T. rewrite !take_take, Nat.min_l in T by lia. rewrite T. apply take_alter_ge. lia. }
    intros [|j] v Hv.
    + injection Hv as <-. rewrite Nat.add_0_r. apply (f_equal (.!! i)) in T. rewrite !lookup_take_lt in T by lia.
      rewrite T. unfold tx1, set_script. cbn [tx_Inputs]. rewrite list_lookup_alter_eq.
      destruct (lookup_lt_is_Some_2 (tx_Inputs tx) i) as [ti ->]; [lia|]. eexists. split; [reflexivity|]. exact HV.
    + destruct (H j v Hv) as (ti & Hti & HV'). rewrite <- Nat.add_succ_comm. exists ti. split; [exact Hti|].
      intros tx2 R2. apply HV'. destruct R1, R2. constructor; congruence.
  - destruct IH as (v & Hv & Hn). exists v. split; [by right|done].
Qed.
End parts.

(** ** The result of [BuildTransaction] *)

Section result.
Context `{WO : WalletOps} {EL : ECLaws EC} (env : WalletEnv) (ver : byte).
Context (s : UtxoSet) (p : ChainParams) (tip : Z) (rows : list (Hash * Z * UtxoEntry)) (w : HDWallet).
Context (req : SendRequest) (rate : Z).
Context (Hwf : wf_utxo s) (Hkeys : utxo_keys s) (Hrows : rows ≡ₚ ForEach s) (Htip : 0 <= tip < 2^32 - 1).

(** No sum the builder computes exceeds 64 bits: the set is worth at most the money supply,
    and a transaction that spends all of it has a fee below [2^63]. *)
Record no_overflow : Prop := {
  no_supply : utxo_sum s <= MaxMoneyValue;
  no_rate : 0 <= rate;
  no_fee : size_for (Z.of_nat (size s)) 2 * Z.max 1 rate < 2^63;
  no_amount : 0 <= sr_Amount req < 2^63 }.
Context (Hno : no_overflow) (Hw : ring_inv ver w).

#[local] Abbreviation coins := (choices p tip rows w).

Lemma choices_bound :
  NoDup (map coin_key coins) /\ Forall (fun u => 0 <= uo_Value u) coins
  /\ value_of coins <= MaxMoneyValue /\ len coins <= Z.of_nat (size s)
  /\ sr_Amount req + size_for (len coins) 2 * Z.max 1 rate < 2^64.
Proof.
  destruct (choices_coins s p tip rows w) as [Hn Hc]; [done..|].
  destruct (coins_bound s coins Hwf Hn) as (H1 & H2 & H3); [eapply Forall_impl; [exact Hc|tauto]|].
  destruct Hno as [S R F A]. split_and!; [done|done|lia|lia|].
  assert (size_for (len coins) 2 <= size_for (Z.of_nat (size s)) 2) as Hle
    by (unfold size_for, estimatedInputSize; lia). nia.
Qed.

(** The transaction as a function of the selection. *)
Definition pays (h : list byte) (j : nat) (w' : HDWallet) (tx : Transaction) : Prop :=
  let sel := take j coins in
  let dest := {| out_Value := sr_Amount req; out_PkScript := MakeP2PKHScript h |} in
  tx_LockTime tx = tip
  /\ map in_PreviousOutPoint (tx_Inputs tx) = map (fun u => in_PreviousOutPoint (payment_input u)) sel
  /\ change_outputs w' dest (Z.of_nat j) (value_of sel) rate (tx_Outputs tx)
  /\ forall i u ti, sel !! i = Some u -> tx_Inputs tx !! i = Some ti ->
       Verify (in_SignatureScript ti) (uo_PkScript u) tx (Z.of_nat i) = Ok tt.

Lemma signed_payment w2 j outs h :
  ring_inv ver w2 -> (forall pk, is_Some (KeyForScript pk w) -> is_Some (KeyForScript pk w2)) ->
  let dest := {| out_Value := sr_Amount req; out_PkScript := MakeP2PKHScript h |} in
  change_outputs w2 dest (Z.of_nat j) (value_of (take j coins)) rate outs ->
  exists tx, sign_selected w2 (take j coins) 0
      {| tx_Version := 1; tx_Inputs := map payment_input (take j coins); tx_Outputs := outs; tx_LockTime := tip |} = Ok tx
    /\ pays h j w2 tx.
Proof.
  intros Hw2 Hmono dest Ho. destruct (choices_coins s p tip rows w) as [_ Hc]; [done..|].
  set (tx0 := {| tx_Version := 1; tx_Inputs := _; tx_Outputs := _; tx_LockTime := _ |}).
  pose proof (sign_selected_spec ver w2 (take j coins) Hw2 0 tx0) as H.
  destruct (sign_selected _ _ _ _) as [tx|e]; specialize (H ltac:(cbn [tx0 tx_Inputs]; by rewrite length_map)).
  - destruct H as (R & _ & H). exists tx. split; [done|]. pose proof R as [_ H2 H3 H4].
    cbn [tx0 tx_Inputs tx_Outputs tx_LockTime] in H2, H3, H4. split_and!; [done| | |].
    + apply (f_equal (map fst)) in H4. rewrite !map_map in H4. exact H4.
    + rewrite H3. exact Ho.
    + intros i u ti Hu Hti. destruct (H i u Hu) as (ti' & Hti' & V). cbn [Nat.add] in Hti', V.
      rewrite Hti in Hti'. injection Hti' as <-. by apply V.
  - destruct H as (u & Hu & Hn). apply (elem_of_subseteq_take) in Hu || (apply list_elem_of_lookup in Hu as [i Hu]; apply lookup_take_Some in Hu as [Hu _]; apply list_elem_of_lookup_2 in Hu).
    rewrite Forall_forall in Hc. destruct (Hc u Hu) as (_ & _ & Hk). apply Hmono in Hk as [dk Hk]. congruence.
Qed.

(** A payment from the largest sufficient prefix of the coins; or there is none, or the
    change address could not be derived. *)
Definition built (h : list byte) (r : result WalletErr Transaction * HDWallet) : Prop :=
  match r with
  | (Ok tx, w') => exists j, (0 < j <= length coins)%nat /\ suffices (sr_Amount req) rate coins j /\ pays h j w' tx
  | (Err e, _) => (forall j, (0 < j <= length coins)%nat -> ~ suffices (sr_Amount req) rate coins j)
                  \/ exists e', e = ChangeAddress e'
  end.

Lemma BuildTransaction_spec w1 h :
  RequireUnlocked env w = (Ok tt, w1) -> 0 < sr_Amount req -> AddressToPubKeyHash (sr_ToAddress req) = Ok (ver, h) ->
  built h (BuildTransaction env req rate (FindUnspent rows tip w) (p_CoinbaseMaturity p) tip w).
Proof.
  intros Hu Ha Hd. pose proof Hno as [HS HR HF HA]. destruct choices_bound as (Hn & Hv & Hval & Hlen & Hfee).
  pose proof (RequireUnlocked_locked env w) as E. rewrite Hu in E. cbn [snd] in E.
  pose proof (IsLocked_keys env w) as [Ek Ev]. rewrite <- E in Ek, Ev.
  assert (ring_inv ver w1) as Hw1 by (by eapply ring_inv_same). pose proof Hw1 as [Ev1 _].
  unfold BuildTransaction. unfold sbind at 1. rewrite Hu. unfold sbind at 1, sget.
  destruct (Z.eqb_spec (sr_Amount req) 0); [lia|]. unfold sbind at 1, slift. rewrite Hd. cbn [rwrap]. rewrite Ev1.
  rewrite (proj2 (byte_eqb_eq ver ver) eq_refl). cbn [negb].
  change (sort_by_value (filterSpendable _ _ _)) with coins.
  assert (length (filterSpendable (FindUnspent rows tip w) (p_CoinbaseMaturity p) tip) = length coins) as ->
    by (symmetry; apply Permutation_length, choices_perm).
  destruct (Z.eqb_spec (len coins) 0) as [H0|H0]; [left; intros j Hj; lia|].
  pose proof (selectCoins_spec (sr_Amount req) rate coins ltac:(lia) HR Hv ltac:(unfold MaxMoneyValue in *; lia) Hfee) as Hsel.
  unfold sbind at 1, slift. destruct (selectCoins _ _ _) as [[sel total]|e]; cbn [rwrap fst snd]; [|by left; apply Hsel].
  destruct Hsel as (j & Hj & -> & -> & Hsuf & _).
  assert (len (take j coins) = Z.of_nat j) as -> by (rewrite length_take; lia).
  pose proof (value_take coins j Hv) as Hvj.
  assert (size_for (Z.of_nat j) 2 * Z.max 1 rate < 2^63) as Hfj.
  { assert (size_for (Z.of_nat j) 2 <= size_for (Z.of_nat (size s)) 2) by (unfold size_for, estimatedInputSize; lia). nia. }
  assert (0 < size_for (Z.of_nat j) 1 <= size_for (Z.of_nat j) 2) as Hsz by (unfold size_for, txOverhead, estimatedInputSize, estimatedOutputSize; lia).
  unfold suffices in Hsuf.
  assert (sub64 (value_of (take j coins)) (sr_Amount req) = value_of (take j coins) - sr_Amount req) as Hsub
    by (unfold sub64; apply u64_small; unfold is_u64, MaxMoneyValue in *; lia).
  rewrite Hsub, (fee_for_exact rate (Z.of_nat j) 1) by nia.
  destruct (Z.ltb_spec (value_of (take j coins) - sr_Amount req) (Z.max 1 (size_for (Z.of_nat j) 1 * rate))); [nia|].
  set (dest := {| out_Value := sr_Amount req; out_PkScript := MakeP2PKHScript h |}).
  pose proof (payment_outputs_spec env ver w1 dest (Z.of_nat j) (value_of (take j coins)) rate Hw1) as HO.
  change (out_Value dest) with (sr_Amount req) in HO. specialize (HO ltac:(lia) HR ltac:(lia) ltac:(unfold MaxMoneyValue in *; lia) ltac:(lia) Hsuf).
  cbv zeta in HO. rewrite Hsub, fee_for_exact in HO by nia. unfold sbind at 1.
  set (change := value_of _ - _ - _) in *.
  destruct (payment_outputs env dest (Z.of_nat j) (value_of (take j coins)) rate change w1) as [[outs|e] w2]; cbn [fst snd] in *; [|right; apply HO].
  destruct HO as (Hw2 & Hmono & Ho).
  destruct (signed_payment w2 j outs h Hw2) as (tx & Hs & Hp).
  - intros pk. unfold KeyForScript. rewrite <- Ek. apply Hmono.
  - exact Ho.
  - unfold sbind, slift. rewrite Hs. cbn [rwrap fst snd]. exists j. split_and!; [lia|lia|exact Hsuf|exact Hp].
Qed.
End result.

Lemma BuildTransaction_inv `{WO : WalletOps} env req rate utxos mat tip w tx w' ver :
  w_addrVersion w = ver -> 0 <= sr_Amount req ->
  BuildTransaction env req rate utxos mat tip w = (Ok tx, w') ->
  exists w1 h, RequireUnlocked env w = (Ok tt, w1) /\ 0 < sr_Amount req
    /\ AddressToPubKeyHash (sr_ToAddress req) = Ok (ver, h).
Proof.
  intros Hv Ha. unfold BuildTransaction, sbind at 1. pose proof (RequireUnlocked_locked env w) as E.
  destruct (RequireUnlocked env w) as [[[]|e] w1]; [|done]. cbn [snd] in E. unfold sbind at 1, sget.
  destruct (Z.eqb_spec (sr_Amount req) 0); [done|]. unfold sbind at 1, slift.
  destruct (AddressToPubKeyHash _) as [[v h]|] eqn:D; cbn [rwrap]; [|done].
  destruct (Byte.eqb v (w_addrVersion w1)) eqn:Ev; [|done]. intros _. exists w1, h.
  apply byte_eqb_eq in Ev as ->. pose proof (IsLocked_keys env w) as [_ Hk]. rewrite <- E in Hk.
  split_and!; [done|lia|congruence].
Qed.

Section accepted.
Context `{WO : WalletOps} {EL : ECLaws EC} (env : WalletEnv) (ver : byte).
Context (s : UtxoSet) (p : ChainParams) (tip : Z) (rows : list (Hash * Z * UtxoEntry)) (w : HDWallet).
Context (req : SendRequest) (rate : Z).
Context (Hwf : wf_utxo s) (Hkeys : utxo_keys s) (Hrows : rows ≡ₚ ForEach s) (Htip : 0 <= tip < 2^32 - 1).
Context (Hno : no_overflow s req rate) (Hw : ring_inv ver w).

Lemma map_in_key ins : map in_key ins = map op_key (map in_PreviousOutPoint ins).
Proof. by rewrite map_map. Qed.

(** What the builder makes, the rule for transactions allows. *)
Lemma pays_valid h j w' tx :
  (0 < j <= length (choices p tip rows w))%nat -> 0 < sr_Amount req ->
  suffices (sr_Amount req) rate (choices p tip rows w) j -> pays p tip rows w req rate h j w' tx ->
  let fee := value_of (take j (choices p tip rows w)) - tx_out tx in
  valid_spend s (tip + 1) p tx fee /\ Z.of_nat j = len (tx_Inputs tx)
  /\ Z.max 1 (size_for (Z.of_nat j) 2 * rate) <= fee <= Z.max 1 (size_for (Z.of_nat j) 2 * rate) + DustThreshold
  /\ (len (tx_Outputs tx) = 2 -> fee = Z.max 1 (size_for (Z.of_nat j) 2 * rate)).
Proof.
  intros Hj Ha Hsuf (_ & Hins & Hout & Hver) fee. set (coins := choices p tip rows w) in *.
  destruct (choices_bound s p tip rows w req rate) as (Hn & Hv & Hval & _ & _); [done..|]. fold coins in Hn, Hv, Hval.
  destruct (choices_coins s p tip rows w) as [_ Hc]; [done..|]. fold coins in Hc.
  assert (map in_key (tx_Inputs tx) = map coin_key (take j coins)) as Hk
    by (rewrite map_in_key, Hins, map_map; apply map_ext; intros u; by rewrite <- in_key_payment).
  assert (length (tx_Inputs tx) = j) as Hl by (apply (f_equal length) in Hk; rewrite !length_map, length_take in Hk; lia).
  assert (tx_in s tx = value_of (take j coins)) as Hti.
  { unfold tx_in. rewrite (coins_values s) by (apply Forall_take; eapply Forall_impl; [exact Hc|tauto]).
    rewrite <- Hk, map_map. done. }
  pose proof (value_take coins j Hv) as Hvj. unfold suffices in Hsuf.
  assert (Z.max 1 (size_for (Z.of_nat j) 2 * rate) <= fee <= Z.max 1 (size_for (Z.of_nat j) 2 * rate) + DustThreshold
    /\ Forall (fun o => 0 < out_Value o <= MaxMoneyValue) (tx_Outputs tx) /\ tx_Outputs tx <> []
    /\ (len (tx_Outputs tx) = 2 -> fee = Z.max 1 (size_for (Z.of_nat j) 2 * rate))) as (F1 & F2 & F3 & F4).
  { unfold fee, tx_out. destruct Hout as [[-> Hd]|(pk & -> & _ & Hd)]; cbn [map sumZ foldr out_Value length] in *; split_and!;
      try (unfold sumZ; simpl; lia); try done; repeat constructor; cbn [out_Value]; unfold DustThreshold in *; lia. }
  assert (forall ti, ti ∈ tx_Inputs tx -> exists e, s !! in_key ti = Some e /\ mature p (tip + 1) e) as Hun.
  { intros ti Hin0. assert (in_key ti ∈ map coin_key (take j coins)) as Hin.
    { rewrite <- Hk. change @map with @list_fmap. by apply list_elem_of_fmap_2. }
    change @map with @list_fmap in Hin. apply list_elem_of_fmap in Hin as (u & -> & Hu).
    apply list_elem_of_lookup in Hu as [i Hu]. apply lookup_take_Some in Hu as [Hu _]. apply list_elem_of_lookup_2 in Hu.
    rewrite Forall_forall in Hc. destruct (Hc u Hu) as ((e & He & _ & _ & H1 & H2) & [H3 H4] & _). exists e.
    split; [done|]. unfold mature. rewrite H1, H2. intros Hcb. specialize (H4 Hcb). lia. }
  split_and!; [|by rewrite Hl|lia|lia|exact F4]. constructor.
  - unfold tx_IsCoinbase. destruct (tx_Inputs tx) as [|ti [|]] eqn:Ei; [done| |done].
    destruct (in_IsCoinbase ti) eqn:Ec; [|done]. exfalso. destruct (Hun ti) as (e & He & _); [by left|].
    apply andb_prop in Ec as [Ez Ex]. apply Z.eqb_eq in Ex. apply bool_decide_eq_true in Ez.
    destruct Hkeys as [_ Hnull]. unfold in_key, op_key in He. rewrite Ez, Ex in He. unfold op_key in Hnull. simpl in Hnull. congruence.
  - intros E. rewrite E in Hl. simpl in Hl. lia.
  - exact F3.
  - rewrite Hk. rewrite <- firstn_map. eapply sublist_NoDup; [exact Hn|]. apply sublist_take.
  - apply Forall_forall. exact Hun.
  - exact F2.
  - rewrite Hti. unfold MaxMoneyValue in Hval. lia.
  - rewrite Hti. unfold fee in F1. lia.
  - intros i ti e Hi He. assert (exists u, take j coins !! i = Some u) as [u Hu].
    { apply lookup_lt_is_Some_2. apply lookup_lt_Some in Hi. rewrite length_take. lia. }
    assert (in_key ti = coin_key u) as Hku.
    { apply (f_equal (.!! i)) in Hk. change @map with @list_fmap in Hk. rewrite !list_lookup_fmap, Hi, Hu in Hk. by injection Hk. }
    assert (u ∈ coins) as Hin by (apply lookup_take_Some in Hu as [Hu _]; by apply list_elem_of_lookup_2 in Hu).
    rewrite Forall_forall in Hc. destruct (Hc u Hin) as ((e' & He' & _ & Hpk & _) & _).
    rewrite Hku, He' in He. injection He as <-. rewrite Hpk. by apply (Hver i u).
  - rewrite Hti. done.
Qed.

Lemma pays_wf h j w' tx :
  length h = PubKeyHashSize -> pays p tip rows w req rate h j w' tx -> value_of (take j (choices p tip rows w)) < 2^64 ->
  Forall wf_output (tx_Outputs tx).
Proof.
  intros Hh (_ & _ & Hout & _) Hv. destruct Hno as [_ _ _ HA].
  assert (forall x, length x = PubKeyHashSize -> wf_script (MakeP2PKHScript x)) as Hs.
  { intros x Hx. unfold wf_script, MakeP2PKHScript. rewrite !length_app, Hx. vm_compute. done. }
  destruct Hout as [[-> _]|(pk & -> & Ho & Hd)]; repeat constructor; cbn [out_Value out_PkScript] in *; try lia; try by apply Hs.
  all: try (unfold DustThreshold in *; lia).
  unfold IsOurScript in Ho. destruct (ExtractP2PKHHash pk) as [x|] eqn:E; [|done].
  apply ExtractP2PKHHash_Some in E as [Hx ->]. by apply Hs.
Qed.
End accepted.

(** What every payment has. *)
Definition good_payment `{WO : WalletOps} (ver : byte) (s : UtxoSet) (p : ChainParams) (tip : Z) (req : SendRequest)
    (rate : Z) (w' : HDWallet) (tx : Transaction) (h : list byte) (change : list TxOutput) (fee : Z) : Prop :=
  AddressToPubKeyHash (sr_ToAddress req) = Ok (ver, h)
  /\ tx_Outputs tx = {| out_Value := sr_Amount req; out_PkScript := MakeP2PKHScript h |} :: change
  /\ (change = [] \/ exists o, change = [o] /\ IsOurScript (out_PkScript o) w' = true /\ DustThreshold < out_Value o)
  /\ ValidateSingleTransaction tx s tip p = Ok fee
  /\ let estimate := Z.max 1 (size_for (len (tx_Inputs tx)) 2 * rate) in
     estimate <= fee <= estimate + DustThreshold /\ (change <> [] -> fee = estimate).

Lemma BuildTransaction_good `{WO : WalletOps} {EL : ECLaws EC} env ver s p tip rows w req rate tx w' :
  ring_inv ver w -> wf_utxo s -> utxo_keys s -> rows ≡ₚ ForEach s -> 0 <= tip < 2^32 - 1 -> no_overflow s req rate ->
  BuildTransaction env req rate (FindUnspent rows tip w) (p_CoinbaseMaturity p) tip w = (Ok tx, w') ->
  tx_Inputs tx <> [] /\ exists h change fee, good_payment ver s p tip req rate w' tx h change fee.
Proof.
  intros Hw Hwf Hkeys Hrows Htip Hno Hb. pose proof Hw as [Hver _].
  destruct (BuildTransaction_inv env req rate _ _ tip w tx w' ver Hver ltac:(apply Hno) Hb) as (w1 & h & Hu & Ha & Hd).
  pose proof (BuildTransaction_spec env ver s p tip rows w req rate Hwf Hkeys Hrows Htip Hno Hw w1 h Hu Ha Hd) as H.
  rewrite Hb in H. destruct H as (j & Hj & Hsuf & Hp).
  destruct (choices_bound s p tip rows w req rate) as (_ & Hv & Hval & _); [done..|].
  pose proof (value_take (choices p tip rows w) j Hv) as Hvj.
  destruct (pays_valid s p tip rows w req rate Hwf Hkeys Hrows Htip Hno h j w' tx Hj Ha Hsuf Hp) as (Hvs & Hlen & Hfee & Hexact).
  assert (Forall wf_output (tx_Outputs tx)) as Hwo.
  { eapply (pays_wf s p tip rows w req rate Hno h j w' tx); [|exact Hp|unfold MaxMoneyValue in *; lia].
    unfold AddressToPubKeyHash in Hd. apply rbind_Ok in Hd as ([v x] & _ & Hd).
    destruct (Z.eqb_spec (len x) (Z.of_nat PubKeyHashSize)); [|done]. injection Hd as _ <-. lia. }
  set (fee := value_of _ - tx_out tx) in *.
  assert (ValidateSingleTransaction tx s tip p = Ok fee) as HV.
  { apply ValidateSingleTransaction_exact; [done|done|]. unfold add32. by rewrite u32_small by (unfold is_u32; lia). }
  split; [intros E; rewrite E in Hlen; simpl in Hlen; lia|].
  destruct Hp as (_ & _ & Ho & _). unfold good_payment. rewrite <- Hlen.
  destruct Ho as [[Hc _]|(pk & Hc & H1 & H2)].
  - exists h, [], fee. rewrite Hc in *. split_and!; try done; [by left|lia|lia].
  - eexists h, [_], fee. rewrite Hc in *. split_and!; try done; [right; eexists; by split_and!|lia|lia|].
    intros _. by apply Hexact.
Qed.

(** *** The destination, with no assumption on the amounts *)

Lemma check_outputs_max h outs : forall i t r,
  foldMi (check_output h) i t outs = Ok r -> Forall (fun o => out_Value o <= MaxMoneyValue) outs.
Proof.
  induction outs as [|o outs IH]; intros i t r; cbn [foldMi]; [constructor|]. intros H.
  apply rbind_Ok in H as (t' & Ho & H). constructor; [|by eapply IH]. unfold check_output in Ho.
  destruct (_ =? 0) in Ho; [done|]. destruct (Z.gtb_spec (out_Value o) MaxMoneyValue) in Ho; [done|lia].
Qed.
Lemma pool_outputs_max `{EC : ECOps} m s tx r : AddTx m s tx = Ok r -> Forall (fun o => out_Value o <= MaxMoneyValue) (tx_Outputs tx).
Proof.
  intros H. apply AddTx_Ok in H as (fee & _ & _ & _ & _ & _ & HV & _). unfold ValidateSingleTransaction in HV.
  repeat (destruct (_ : bool) in HV; [done|]). apply rbind_Ok in HV as ([t seen] & _ & HV).
  apply rbind_Ok in HV as (out & HV & _). by eapply check_outputs_max.
Qed.

Lemma sign_selected_outputs `{WO : WalletOps} w sel : forall i tx tx',
  sign_selected w sel i tx = Ok tx' -> tx_Outputs tx' = tx_Outputs tx.
Proof.
  induction sel as [|u sel IH]; intros i tx tx'; cbn [sign_selected]; [by intros [= ->]|].
  destruct (KeyForScript _ w); [|done]. intros H. apply rbind_Ok in H as (s & _ & H). by rewrite (IH _ _ _ H).
Qed.

Lemma sbind_Ok {S E A B} (m : stM S E A) (k : A -> stM S E B) s b s' :
  sbind m k s = (Ok b, s') -> exists a s1, m s = (Ok a, s1) /\ k a s1 = (Ok b, s').
Proof. unfold sbind. destruct (m s) as [[a|e] s1]; [|done]. eauto. Qed.

Lemma payment_outputs_head `{WO : WalletOps} env dest nIn totalIn rate change w outs w' :
  payment_outputs env dest nIn totalIn rate change w = (Ok outs, w') -> exists l, outs = dest :: l.
Proof.
  unfold payment_outputs. destruct (_ >? _); [|intros [= <- _]; by eexists].
  intros H. apply sbind_Ok in H as (a & w1 & _ & H). apply sbind_Ok in H as ([v h] & w2 & _ & H).
  destruct (_ >? _) in H; injection H as <- _; by eexists.
Qed.

Lemma BuildTransaction_dest `{WO : WalletOps} env req rate utxos mat tip w tx w' :
  BuildTransaction env req rate utxos mat tip w = (Ok tx, w') ->
  exists o l, tx_Outputs tx = o :: l /\ out_Value o = sr_Amount req.
Proof.
  unfold BuildTransaction. intros H. apply sbind_Ok in H as (? & w1 & _ & H). apply sbind_Ok in H as (w2 & ? & _ & H).
  destruct (_ =? 0) in H; [done|]. apply sbind_Ok in H as ([v h] & w3 & _ & H). destruct (negb _) in H; [done|].
  destruct (_ =? 0) in H; [done|]. apply sbind_Ok in H as ([sel total] & w4 & _ & H). destruct (_ <? _) in H; [done|].
  apply sbind_Ok in H as (outs & w5 & Ho & H). apply sbind_Ok in H as (w6 & ? & _ & H).
  apply payment_outputs_head in Ho as [l ->]. unfold slift in H. destruct (sign_selected _ _ _ _) eqn:Es; [|done].
  injection H as <- _. apply sign_selected_outputs in Es. rewrite Es. by do 2 eexists.
Qed.

(** ** Properties *)

(** C13. Payments are valid: a transaction that [BuildTransaction] makes from what
    [FindUnspent] lists pays exactly the amount to the address, sends anything else back to
    an address of the wallet (above the dust threshold), pays a fee of at least the
    estimate for two outputs and at most the dust threshold more (exactly the estimate
    when there is change), obeys the node's rule for transactions in the next block, and is
    accepted by a pool at this tip that has room, knows no conflict and asks for no more.
    Assumed ([no_overflow]): the amount is below [2^63], the unspent set is worth at most the
    money supply, and the fee of spending every entry of it is below [2^63]; without it the
    sums wrap at 64 bits and an invalid payment is built ([huge_amount_built]). *)
Theorem payment_accepted `{WO : WalletOps} {EL : ECLaws EC} env ver s p tip rows w req rate tx w' :
  wallet_reachable env ver w -> wf_utxo s -> utxo_keys s -> rows ≡ₚ ForEach s -> 0 <= tip < 2^32 - 1 ->
  no_overflow s req rate ->
  BuildTransaction env req rate (FindUnspent rows tip w) (p_CoinbaseMaturity p) tip w = (Ok tx, w') ->
  exists h change fee, good_payment ver s p tip req rate w' tx h change fee
    /\ forall m, mp_p m = p -> mp_tipHeight m = tip -> mp_txs m !! HashTransaction tx = None ->
         u32 (Z.of_nat (size (mp_txs m))) < p_MaxMempoolSize p ->
         Forall (fun k => mp_spentOutpoints m !! k = None) (map in_key (tx_Inputs tx)) ->
         p_MinRelayTxFee p <= fee ->
         exists m', AddTx m s tx = Ok (m', HashTransaction tx).
Proof.
  intros Hr Hwf Hkeys Hrows Htip Hno Hb. apply wallet_reachable_ring in Hr as Hw.
  destruct (BuildTransaction_good env ver s p tip rows w req rate tx w') as (Hin & h & change & fee & H); [done..|].
  exists h, change, fee. split; [exact H|]. destruct H as (_ & Ho & _ & HV & _).
  intros m <- <- Hnew Hroom Hfree Hmin. eexists. apply AddTx_Ok. exists fee. rewrite Ho. split_and!; try done. by right.
Qed.

(** C14. Payments go through: on an unlocked wallet, for an address of the network and an amount
    above zero, [BuildTransaction] makes a transaction whenever the mature confirmed coins
    of the wallet cover the amount and the estimated fee of spending them all; only the
    derivation (or saving) of the change address can fail.  The bounds of
    [payment_accepted] are assumed, of which the one on the amount follows from the coins. *)
Theorem payment_complete `{WO : WalletOps} {EL : ECLaws EC} env ver s p tip rows w w1 req rate h :
  wallet_reachable env ver w -> wf_utxo s -> utxo_keys s -> rows ≡ₚ ForEach s -> 0 <= tip < 2^32 - 1 ->
  no_overflow s req rate ->
  RequireUnlocked env w = (Ok tt, w1) -> AddressToPubKeyHash (sr_ToAddress req) = Ok (ver, h) -> 0 < sr_Amount req ->
  let coins := List.filter (is_spendable (p_CoinbaseMaturity p) tip) (FindUnspent rows tip w) in
  sr_Amount req + Z.max 1 (size_for (len coins) 2 * rate) <= value_of coins ->
  match fst (BuildTransaction env req rate (FindUnspent rows tip w) (p_CoinbaseMaturity p) tip w) with
  | Ok tx => True
  | Err e => exists e', e = ChangeAddress e'
  end.
Proof.
  intros Hr Hwf Hkeys Hrows Htip Hno Hu Hd Ha coins Hle. apply wallet_reachable_ring in Hr as Hw.
  pose proof (BuildTransaction_spec env ver s p tip rows w req rate Hwf Hkeys Hrows Htip Hno Hw w1 h Hu Ha Hd) as H.
  pose proof (choices_perm p tip rows w) as Hp. change (filterSpendable _ _ _) with coins in Hp.
  pose proof (Permutation_length Hp) as Hl. assert (value_of (choices p tip rows w) = value_of coins) as Hv
    by (by apply sumZ_perm, Permutation_map).
  destruct (BuildTransaction _ _ _ _ _ _ _) as [[tx|e] w']; cbn [fst]; [done|]. destruct H as [H|H]; [exfalso|done].
  destruct (decide (length coins = 0%nat)) as [H0|H0].
  { apply nil_length_inv in H0. rewrite H0 in Hle. cbn in Hle. lia. }
  apply (H (length coins)); [lia|]. unfold suffices. rewrite take_ge by lia. by rewrite Hv.
Qed.

(** The default rate of one unit per byte is too low for the networks' own pools: a payment
    with change from at most six coins then pays less than the [MinRelayTxFee] of mainnet,
    and the node's pool refuses it whatever it holds. *)
Theorem default_fee_refused `{WO : WalletOps} {EL : ECLaws EC} env ver s tip rows w req tx w' m :
  wallet_reachable env ver w -> wf_utxo s -> utxo_keys s -> rows ≡ₚ ForEach s -> 0 <= tip < 2^32 - 1 ->
  no_overflow s req 1 ->
  BuildTransaction env req 1 (FindUnspent rows tip w) (p_CoinbaseMaturity Mainnet) tip w = (Ok tx, w') ->
  len (tx_Outputs tx) = 2 -> len (tx_Inputs tx) <= 6 -> mp_p m = Mainnet -> mp_tipHeight m = tip ->
  exists e, AddTx m s tx = Err e.
Proof.
  intros Hr Hwf Hkeys Hrows Htip Hno Hb Ho Hi Hm Ht. apply wallet_reachable_ring in Hr as Hw.
  destruct (BuildTransaction_good env ver s Mainnet tip rows w req 1 tx w') as (_ & h & change & fee & H); [done..|].
  destruct H as (_ & Hc & _ & HV & _ & Hfee). rewrite Hc in Ho. rewrite Hfee in HV by (intros ->; done). clear Hfee.
  destruct (AddTx m s tx) as [r|e] eqn:E; [exfalso|by exists e].
  apply AddTx_Ok in E as (fee' & _ & _ & _ & _ & _ & HV' & Hmin & _). rewrite Hm, Ht, HV in HV'. injection HV' as <-.
  rewrite Hm in Hmin. cbn [p_MinRelayTxFee Mainnet] in Hmin.
  unfold size_for, txOverhead, estimatedInputSize, estimatedOutputSize in Hmin. lia.
Qed.

(** ** A payment of the toy wallet *)

Import ToyEC ToyWallet.
Definition toy_coin : UtxoEntry :=
  {| ue_Value := 100000; ue_PkScript := toy_script; ue_Height := 1; ue_IsCoinbase := false |}.
Definition toy_coins : UtxoSet := {[ OutpointKey (replicate 32 Byte.x11) 0 := toy_coin ]}.
Definition toy_request : SendRequest := {| sr_ToAddress := GetDefaultAddress toy_w0; sr_Amount := 40000 |}.
Abbreviation toy_build p :=
  (BuildTransaction toy_env toy_request 1 (FindUnspent (ForEach toy_coins) 9 toy_w0) (p_CoinbaseMaturity p) 9 toy_w0).
Definition toy_payment (p : ChainParams) : Transaction := match fst (toy_build p) with Ok tx => tx | Err _ => example_tx end.
Lemma toy_built p : (match fst (toy_build p) with Ok _ => true | Err _ => false end) = true ->
  toy_build p = (Ok (toy_payment p), snd (toy_build p)).
Proof. apply fst_get. Qed.

Lemma toy_coins_wf : wf_utxo toy_coins.
Proof. apply map_Forall_singleton. split; [unfold is_u64|unfold is_u32]; simpl; lia. Qed.
Lemma toy_coins_keys : utxo_keys toy_coins.
Proof.
  split; [|vm_compute; reflexivity]. intros k [e H]. unfold toy_coins in H. apply lookup_singleton_Some in H as [<- _]. reflexivity.
Qed.
Lemma toy_no_overflow : no_overflow toy_coins toy_request 1.
Proof.
  unfold toy_coins. constructor; rewrite ?map_size_singleton; [|vm_compute; congruence|vm_compute; congruence|].
  - unfold utxo_sum. rewrite map_fold_singleton. vm_compute. congruence.
  - vm_compute. split; congruence.
Qed.
Lemma toy_tip : 0 <= 9 < 2^32 - 1.
Proof. lia. Qed.

Lemma payment_accepted_witness : exists fee, ValidateSingleTransaction (toy_payment Regtest) toy_coins 9 Regtest = Ok fee.
Proof.
  destruct (payment_accepted (EL := toy_ec_laws) toy_env Byte.x00 toy_coins Regtest 9 (ForEach toy_coins) toy_w0 toy_request 1
    (toy_payment Regtest) (snd (toy_build Regtest))) as (h & change & fee & (_ & _ & _ & H & _) & _).
  - exact toy_reachable0.
  - exact toy_coins_wf.
  - exact toy_coins_keys.
  - reflexivity.
  - exact toy_tip.
  - exact toy_no_overflow.
  - apply toy_built. vm_compute. reflexivity.
  - exists fee. exact H.
Defined.

Lemma toy_unlocked : RequireUnlocked toy_env toy_w0 = (Ok tt, toy_w0).
Proof.
  unfold RequireUnlocked, sbind, sget. replace (IsEncrypted toy_w0) with false by (vm_compute; reflexivity). reflexivity.
Qed.

Lemma payment_complete_witness :
  match fst (toy_build Regtest) with Ok tx => True | Err e => exists e', e = ChangeAddress e' end.
Proof.
  refine (payment_complete (EL := toy_ec_laws) toy_env Byte.x00 toy_coins Regtest 9 (ForEach toy_coins) toy_w0 toy_w0 toy_request 1
    (match GetDefaultP2PKHScript toy_w0 with Some s => slice 3 23 s | None => [] end) toy_reachable0 toy_coins_wf toy_coins_keys
    _ toy_tip toy_no_overflow toy_unlocked _ _ _).
  - reflexivity.
  - vm_compute. reflexivity.
  - vm_compute. reflexivity.
  - vm_compute. congruence.
Defined.

Lemma default_fee_refused_witness :
  exists e, AddTx (SetTipHeight (mp_New Mainnet) 9) toy_coins (toy_payment Mainnet) = Err e.
Proof.
  refine (default_fee_refused (EL := toy_ec_laws) toy_env Byte.x00 toy_coins 9 (ForEach toy_coins) toy_w0 toy_request
    (toy_payment Mainnet) (snd (toy_build Mainnet)) (SetTipHeight (mp_New Mainnet) 9)
    toy_reachable0 toy_coins_wf toy_coins_keys _ toy_tip toy_no_overflow _ _ _ _ _).
  - reflexivity.
  - apply toy_built. vm_compute. reflexivity.
  - vm_compute. reflexivity.
  - vm_compute. congruence.
  - reflexivity.
  - reflexivity.
Defined.

(** ** Amounts near [2^64] *)

Abbreviation toy_huge :=
  (BuildTransaction toy_env {| sr_ToAddress := GetDefaultAddress toy_w0; sr_Amount := 2^64 - 100 |} 1
     (FindUnspent (ForEach toy_coins) 9 toy_w0) (p_CoinbaseMaturity Regtest) 9 toy_w0).

(** The sum of amount and fee is not checked for overflow: for an amount just below
    [2^64] it wraps to a small number, the funds count as sufficient, and from one coin of
    100000 [BuildTransaction] makes and signs a transaction that pays [2^64 - 100] and
    gives change besides.  Only the pool's own check of output values stops it. *)
Theorem huge_amount_built :
  exists tx, fst toy_huge = Ok tx
    /\ map out_Value (tx_Outputs tx) = [2^64 - 100; 99874]
    /\ forall m s, exists e, AddTx m s tx = Err e.
Proof.
  assert (match fst toy_huge with
          | Ok tx => bool_decide (map out_Value (tx_Outputs tx) = [2^64 - 100; 99874])
          | Err _ => false end = true) as H by (vm_compute; reflexivity).
  destruct (fst toy_huge) as [tx|e]; [|discriminate H]. apply bool_decide_eq_true in H.
  exists tx. split; [reflexivity|]. split; [exact H|]. intros m s.
  destruct (AddTx m s tx) as [r|e] eqn:E; [exfalso|by exists e].
  apply pool_outputs_max in E. apply (Forall_map out_Value (fun v => v <= MaxMoneyValue)) in E.
  change list_fmap with @map in E. rewrite H in E. apply Forall_cons in E as [F _]. unfold MaxMoneyValue in F. lia.
Qed.
