(* ===== verification/Miner.v ===== *)
(** * The miner

    Models [src/internal/miner/miner.go]: [MineOne] and [buildCoinbase].  [Run] repeats
    [MineOne] and hands the blocks to the node; it has no logic of its own.  The tip, the
    mempool and the clock are read through their owners in Go; here they are arguments,
    [clock n] being the n-th reading of the time source.  The search runs in batches until a
    nonce is found or the context is cancelled; [batches] is the number of batches
    before the cancellation. *)
From S2P Require Import Prelude Types Sha256 Crypto Target Params Script Utxo TxValidation.
From S2P Require Import BlockValidation Pow Mempool.
From stdpp Require Import sorting.
#[local] Open Scope Z_scope.
#[local] Open Scope go_scope.

Inductive MinerErr := NilTransaction.       (** dereferencing a nil template slot *)

Definition coinbase_tag : list byte := bytes_of_string "fairchain".

Definition buildCoinbase (rewardScript : list byte) (height subsidy : Z) : Transaction :=
  let msg := [byte.of_Z 0x04] ++ PutUint32LE height ++ coinbase_tag in
  {| tx_Version := 1;
     tx_Inputs := [{| in_PreviousOutPoint := CoinbaseOutPoint; in_SignatureScript := msg;
                      in_Sequence := 0xFFFFFFFF |}];
     tx_Outputs := [{| out_Value := subsidy; out_PkScript := rewardScript |}];
     tx_LockTime := 0 |}.

(** [for _, tx := range tmpl.Transactions { txs = append(txs, *tx) }] *)
Fixpoint deref_all (l : list (option Transaction)) : result MinerErr (list Transaction) :=
  match l with
  | [] => Ok []
  | None :: _ => Err NilTransaction
  | Some tx :: l => let* txs := deref_all l in Ok (tx :: txs)
  end.

(** The timestamp after the adjustment to be above the parent's. *)
Definition block_time (now : Z) (tipHeader : BlockHeader) : Z :=
  let ts := u32 now in
  if ts <=? hdr_Timestamp tipHeader then add32 (hdr_Timestamp tipHeader) 1 else ts.

Definition with_time_merkle (h : BlockHeader) (ts : Z) (root : Hash) : BlockHeader :=
  {| hdr_Version := hdr_Version h; hdr_PrevBlock := hdr_PrevBlock h; hdr_MerkleRoot := root;
     hdr_Timestamp := ts; hdr_Bits := hdr_Bits h; hdr_Nonce := hdr_Nonce h |}.

Definition batchSize : nat := Z.to_nat 100000.

Section miner.
Context `{E : Engine}.

(** [for { ... SealHeader(&header, target, batchSize) ... }] *)
Fixpoint seal_loop (batches : nat) (clock : nat -> Z) (tick : nat) (batch : nat)
    (header tipHeader : BlockHeader) (target : Hash) (txs : list Transaction) : option Block :=
  match batches with
  | O => None
  | S batches =>
      let '(found, header) := SealHeader header target batch in
      if found then Some {| blk_Header := header; blk_Transactions := txs |}
      else if hdr_Nonce header =? 0 then
        let header := with_time_merkle header (block_time (clock tick) tipHeader) (ComputeMerkleRoot txs) in
        seal_loop batches clock (S tick) batch header tipHeader target txs
      else seal_loop batches clock tick batch header tipHeader target txs
  end.

(** The transactions and the prepared header of the block to be sealed. *)
Definition build_template (mp : Mempool) (p : ChainParams) (rewardScript : list byte)
    (tipHash : Hash) (tipHeight : Z) (tipHeader : BlockHeader)
    (getAncestor : Z -> option BlockHeader) (now : Z)
  : result MinerErr (BlockHeader * list Transaction) :=
  let newHeight := add32 tipHeight 1 in
  let subsidy := CalcSubsidy p newHeight in
  let tmpl := BlockTemplate mp in
  let coinbaseTx := buildCoinbase rewardScript newHeight (add64 subsidy (bt_TotalFees tmpl)) in
  let* rest := deref_all (bt_Transactions tmpl) in
  let txs := coinbaseTx :: rest in
  let merkle := ComputeMerkleRoot txs in
  let header := {| hdr_Version := 1; hdr_PrevBlock := tipHash; hdr_MerkleRoot := merkle;
                   hdr_Timestamp := block_time now tipHeader; hdr_Bits := 0; hdr_Nonce := 0 |} in
  Ok (PrepareHeader header tipHeader tipHeight getAncestor p, txs).

Definition MineOne (batches batch : nat) (clock : nat -> Z) (mp : Mempool) (p : ChainParams)
    (rewardScript : list byte) (tipHash : Hash) (tipHeight : Z) (tipHeader : BlockHeader)
    (getAncestor : Z -> option BlockHeader) : result MinerErr (option Block) :=
  let* (header, txs) := build_template mp p rewardScript tipHash tipHeight tipHeader getAncestor (clock 0%nat) in
  let target := CompactToHash (hdr_Bits header) in
  Ok (seal_loop batches clock 1 batch header tipHeader target txs).
End miner.

(** ** Lemmas *)

Lemma deref_all_Some txs : deref_all (map Some txs) = Ok txs.
Proof. induction txs as [|tx txs IH]; simpl; [done|]. by rewrite IH. Qed.

Lemma is_u32_add32 a b : is_u32 (add32 a b).
Proof. apply u32_range. Qed.

(** What a header being sealed keeps: everything but the timestamp and the nonce. *)
Definition same_work (h0 h : BlockHeader) : Prop :=
  hdr_Version h = hdr_Version h0 /\ hdr_PrevBlock h = hdr_PrevBlock h0
  /\ hdr_MerkleRoot h = hdr_MerkleRoot h0 /\ hdr_Bits h = hdr_Bits h0.

Lemma seal_loop_found batches clock tick batch h0 header tip txs b :
  hdr_MerkleRoot h0 = ComputeMerkleRoot txs ->
  same_work h0 header -> is_u32 (hdr_Nonce header) ->
  seal_loop batches clock tick batch header tip (CompactToHash (hdr_Bits h0)) txs = Some b ->
  blk_Transactions b = txs /\ same_work h0 (blk_Header b)
  /\ LessOrEqual (HashBlockHeader (blk_Header b)) (CompactToHash (hdr_Bits h0)) = true.
Proof.
  intros Hm. revert tick header. induction batches as [|n IH]; intros tick header Hs Hn H; [done|].
  cbn [seal_loop] in H. cbn [SealHeader pow_engine] in H.
  pose proof (pow_SealHeader_spec batch header (CompactToHash (hdr_Bits h0)) Hn) as Hsp.
  assert (forall hh, (pow_SealHeader header (CompactToHash (hdr_Bits h0)) batch).2 = hh ->
    same_work h0 hh /\ is_u32 (hdr_Nonce hh)) as Hkeep.
  { clear -Hs Hn. revert header Hs Hn. induction batch as [|k IHk]; intros header Hs Hn hh; simpl.
    - by intros <-.
    - destruct (LessOrEqual _ _); [by intros <-|]. destruct (_ =? 0).
      + intros <-. split; [done|apply is_u32_add32].
      + apply IHk; [done|apply is_u32_add32]. }
  destruct (pow_SealHeader header _ batch) as [[|] hh]; destruct (Hkeep hh eq_refl) as [Hs' Hn'].
  - injection H as <-. split; [done|]. split; [done|]. destruct Hsp as (k & _ & -> & Hok & _). exact Hok.
  - destruct (hdr_Nonce hh =? 0); [|by apply (IH tick hh)].
    apply (IH (S tick) (with_time_merkle hh (block_time (clock tick) tip) (ComputeMerkleRoot txs))); try done.
    destruct Hs' as (? & ? & ? & ?). unfold same_work. simpl. by rewrite <- Hm.
Qed.

(** The entries of a template are valid spends that do not conflict. *)
Lemma template_spends `{EC : ECOps} m s :
  wf_utxo s -> mp_inv m -> mp_valid m s ->
  let entries := GetAllEntries m in
  Forall2 (valid_spend s (add32 (mp_tipHeight m) 1) (mp_p m)) (map te_Tx entries) (map te_Fee entries)
  /\ NoDup (spends (map te_Tx entries))
  /\ Forall (fun tx => Forall wf_output (tx_Outputs tx)) (map te_Tx entries).
Proof.
  intros Hs Hi Hv entries.
  destruct (sort_entries_spec (map snd (map_to_list (mp_txs m)))) as [_ Hp].
  fold (GetAllEntries m) in Hp. fold entries in Hp.
  assert (forall e, e ∈ entries -> exists h, mp_txs m !! h = Some e) as Hin.
  { intros e He. rewrite Hp in He. apply list_elem_of_fmap in He as ([h e'] & -> & He).
    exists h. by apply elem_of_map_to_list. }
  assert (forall e, e ∈ entries -> Forall wf_output (tx_Outputs (te_Tx e))
    /\ valid_spend s (add32 (mp_tipHeight m) 1) (mp_p m) (te_Tx e) (te_Fee e)) as Hval.
  { intros e He. destruct (Hin e He) as [h Hh]. destruct (Hv h e Hh) as [(_ & _ & _ & _ & Ho & _) Hok].
    split; [done|]. by apply ValidateSingleTransaction_exact. }
  assert (NoDup (map te_Hash entries)) as Hnd.
  { rewrite Hp, map_map. replace (map (fun x => te_Hash x.2) (map_to_list (mp_txs m)))
      with (map fst (map_to_list (mp_txs m))); [apply NoDup_fst_map_to_list|].
    apply map_ext_in. intros [h e] Hkv. apply list_elem_of_In, elem_of_map_to_list in Hkv.
    destruct (mi_entry m Hi h e Hkv) as (-> & -> & _). done. }
  clearbody entries. clear Hp. split; [|split].
  - induction entries as [|e l IH]; constructor; [apply Hval; set_solver|].
    apply IH; [intros; apply Hin; set_solver|intros; apply Hval; set_solver|]. by apply NoDup_cons in Hnd as [_ ?].
  - induction entries as [|e l IH]; [constructor|]. cbn [map]. rewrite spends_cons.
    apply NoDup_cons in Hnd as [Hne Hnd].
    destruct (Hin e ltac:(set_solver)) as [h Hh]. destruct (mi_entry m Hi h e Hh) as (_ & _ & _ & Hnk).
    pose proof (Hval e ltac:(set_solver)) as [_ Hve].
    rewrite tx_spends_inputs by apply Hve. apply NoDup_app. split_and!; [done| |].
    + intros k Hk Hk'. unfold spends in Hk'. apply list_elem_of_In, in_concat in Hk' as (ks & Hks & Hk').
      apply in_map_iff in Hks as (tx & <- & Htx). apply in_map_iff in Htx as (e' & <- & He').
      apply list_elem_of_In in He', Hk'. destruct (Hin e' ltac:(set_solver)) as [h' Hh'].
      pose proof (Hval e' ltac:(set_solver)) as [_ Hve']. rewrite tx_spends_inputs in Hk' by apply Hve'.
      assert (h = h') as <- by (by eapply (mp_no_conflict m _ _ e e' k)).
      assert (e = e') as <- by congruence. apply Hne. by apply (list_elem_of_fmap_2 te_Hash).
    + apply IH; [intros; apply Hin; set_solver|intros; apply Hval; set_solver|done].
  - apply Forall_map, Forall_forall. intros e He. by apply Hval.
Qed.

Lemma coinbase_IsCoinbase script h v : tx_IsCoinbase (buildCoinbase script h v) = true.
Proof. done. Qed.

(** The block [build_template] prepares, for a pool whose fees fit. *)
Lemma build_template_Ok `{EC : ECOps} m s script tipHash tipHeight tip anc now :
  wf_utxo s -> mp_inv m -> mp_valid m s ->
  let fees := sumZ (map te_Fee (GetAllEntries m)) in
  fees < 2^64 ->
  exists header txs,
    build_template m (mp_p m) script tipHash tipHeight tip anc now = Ok (header, txs)
    /\ txs = buildCoinbase script (add32 tipHeight 1) (add64 (CalcSubsidy (mp_p m) (add32 tipHeight 1)) fees)
             :: map te_Tx (GetAllEntries m)
    /\ hdr_PrevBlock header = tipHash /\ hdr_MerkleRoot header = ComputeMerkleRoot txs
    /\ hdr_Bits header = CalcNextBits tip tipHeight anc (mp_p m) /\ hdr_Nonce header = 0.
Proof.
  intros Hs Hi Hv fees Hf. unfold build_template.
  destruct (template_spends m s Hs Hi Hv) as (H2 & _ & _).
  assert (Forall (fun e => is_u64 (te_Fee e)) (GetAllEntries m)) as Hu.
  { generalize dependent (GetAllEntries m). intros l _ _ H2.
    induction l as [|e l IH]; [constructor|]. cbn [map] in H2. inversion H2 as [|???? Hv1 H2']; subst.
    constructor; [|by apply IH]. destruct Hv1 as [_ _ _ _ _ Hvo Hfit Hcov _ Hfee].
    assert (0 <= tx_out (te_Tx e)); [|unfold is_u64; lia].
    apply sumZ_nonneg, Forall_map. eapply Forall_impl; [exact Hvo|]. simpl. lia. }
  unfold BlockTemplate. rewrite template_loop_spec by (done || unfold is_u64; lia).
  cbn [bt_TotalFees bt_Transactions]. rewrite Z.add_0_l. fold fees.
  rewrite <- (map_map te_Tx Some), deref_all_Some. cbn [rbind].
  eexists _, _. split; [reflexivity|]. done.
Qed.

Lemma template_no_coinbase `{EC : ECOps} s h p entries :
  Forall2 (valid_spend s h p) (map te_Tx entries) (map te_Fee entries) ->
  Forall (fun e => tx_IsCoinbase (te_Tx e) = false) entries.
Proof.
  induction entries as [|e l IH]; intros H; constructor; inversion_clear H as [|? ? ? ? Hv H'].
  - apply Hv.
  - by apply IH.
Qed.

(** A block that starts with the miner's coinbase has a valid structure. *)
Lemma coinbase_block_structure b script height v rest p :
  blk_Transactions b = buildCoinbase script height v :: rest -> is_u32 height -> is_u64 v ->
  Forall (fun tx => tx_IsCoinbase tx = false) rest ->
  NoDup (map HashTransaction (blk_Transactions b)) ->
  ComputeMerkleRoot (blk_Transactions b) = hdr_MerkleRoot (blk_Header b) ->
  u32 (len (blk_Transactions b)) <= p_MaxBlockTxCount p -> u32 (len (blk_Serialize b)) <= p_MaxBlockSize p ->
  ValidateBlockStructure b height p = Ok tt.
Proof.
  intros Ht Hh Hv Hr Hn Hm Hc Hz. rewrite Ht in Hn, Hm, Hc.
  eapply ValidateBlockStructure_pass; [exact Ht|reflexivity|reflexivity|exact Hv|done| |done..].
  by apply height_push_valid.
Qed.

(** ** Properties *)

(** C8. What the miner builds, consensus accepts: on a consistent pool whose transactions
    are valid at the tip, [MineOne] never dereferences an empty slot, and a block it
    returns has the pool's transactions after a coinbase whose one output pays exactly the
    subsidy of its height plus their fees to the given script; it passes header validation
    on the tip and, provided that sum is not zero and fits in 64 bits, transaction
    validation against the unspent set, which returns those fees; unless it
    is larger than the limits on blocks (which [MineOne] does not look at) or repeats an
    id, it passes structure validation, with the height in its coinbase. *)
Theorem mined_block_accepted `{EC : ECOps} batches batch clock m s script tipHeight tip anc :
  let p := mp_p m in
  let fees := sumZ (map te_Fee (GetAllEntries m)) in
  let height := tipHeight + 1 in
  wf_utxo s -> wf_params p -> mp_inv m -> mp_valid m s -> mp_tipHeight m = tipHeight ->
  0 <= tipHeight -> height < 2^32 -> wf_script script ->
  0 < CalcSubsidy p height + fees < 2^64 ->
  exists ob, MineOne batches batch clock m p script (HashBlockHeader tip) tipHeight tip anc = Ok ob
    /\ forall b, ob = Some b ->
       (exists coinbase, blk_Transactions b = coinbase :: map te_Tx (GetAllEntries m)
          /\ tx_Outputs coinbase = [{| out_Value := CalcSubsidy p height + fees; out_PkScript := script |}])
       /\ ValidateHeader (blk_Header b) tip height anc p = Ok tt
       /\ ValidateTransactionInputs b s height p = Ok fees
       /\ ComputeMerkleRoot (blk_Transactions b) = hdr_MerkleRoot (blk_Header b)
       /\ (NoDup (map HashTransaction (blk_Transactions b)) ->
           u32 (len (blk_Transactions b)) <= p_MaxBlockTxCount p ->
           u32 (len (blk_Serialize b)) <= p_MaxBlockSize p ->
           ValidateBlockStructure b height p = Ok tt).
Proof.
  intros p fees height Hs Hp Hi Hv Ht Hlo Hhi Hsc Hfit.
  assert (add32 tipHeight 1 = height) as Eh by (apply u32_small; unfold is_u32; lia).
  assert (sub32 height 1 = tipHeight) as Eh'
    by (unfold sub32, height; rewrite Z.add_simpl_r; apply u32_small; unfold is_u32; lia).
  pose proof (CalcSubsidy_u64 p height ltac:(lia) Hp) as Hsub. unfold is_u64 in Hsub.
  destruct (template_spends m s Hs Hi Hv) as (H2 & Hnd & Hwo). rewrite Ht, Eh in H2. fold p in H2.
  destruct (build_template_Ok m s script (HashBlockHeader tip) tipHeight tip anc (clock 0%nat) Hs Hi Hv)
    as (header & txs & Hb & Htxs & Hprev & Hroot & Hbits & Hnon); [fold fees; lia|].
  unfold MineOne. fold p in Hb, Htxs, Hbits. rewrite Hb. cbn [rbind]. eexists. split; [reflexivity|].
  intros b H.
  apply (seal_loop_found _ _ _ _ header) in H as (Hbt & (_ & Hbp & Hbm & Hbb) & Hle);
    [|done|done|rewrite Hnon; unfold is_u32; lia].
  fold fees in Htxs. rewrite Eh in Htxs.
  assert (add64 (CalcSubsidy p height) fees = CalcSubsidy p height + fees) as Ev
    by (apply u64_small; unfold is_u64; lia). rewrite Ev in Htxs.
  split; [|split; [|split]].
  - eexists. split; [by rewrite Hbt, Htxs|done].
  - apply ValidateHeader_Ok. rewrite Hbp, Hbb, Hprev, Eh'. split; [done|]. split; [exact Hbits|].
    rewrite LessOrEqual_numeric in Hle by (apply wf_DoubleSHA256 || apply wf_CompactToHash).
    apply Z.leb_le in Hle. by rewrite <- HashToBig_CompactToHash.
  - apply ValidateTransactionInputs_exact; [done|unfold is_u32; lia|done| |].
    + rewrite Hbt, Htxs. constructor; [|done]. constructor; [|constructor]. split; [unfold is_u64; simpl; lia|done].
    + rewrite Hbt, Htxs. unfold fees. apply template_valid; try done; fold fees; try lia.
      * constructor; [simpl; lia|constructor].
      * unfold tx_out. simpl. lia.
  - rewrite <- Hbt in Hroot. split; [by rewrite Hbm|]. intros Hn Hc Hz.
    apply (coinbase_block_structure b script height (CalcSubsidy p height + fees) (map te_Tx (GetAllEntries m)));
      try done; [by rewrite Hbt|unfold is_u32; lia|unfold is_u64; lia| |by rewrite Hbm].
    apply Forall_map. clear -H2. by eapply template_no_coinbase.
Qed.

Lemma wf_Regtest : wf_params Regtest.
Proof. pose proof wf_networks as H. rewrite Forall_forall in H. apply H. set_solver. Qed.

Lemma mined_block_accepted_witness :
  exists b, MineOne 1 64 (fun _ => 100) example_pool Regtest [Byte.x51] (HashBlockHeader (example_header 50)) 9
              (example_header 50) (fun _ => None) = Ok (Some b)
    /\ (exists coinbase, blk_Transactions b = [coinbase; example_tx] /\ map out_Value (tx_Outputs coinbase) = [5000000500])
    /\ ValidateHeader (blk_Header b) (example_header 50) (9 + 1) (fun _ => None) Regtest = Ok tt
    /\ ValidateTransactionInputs (EC := ToyEC.toy_ec) b example_utxo (9 + 1) Regtest
       = Ok (sumZ (map te_Fee (GetAllEntries example_pool))).
Proof.
  destruct (mined_block_accepted (EC := ToyEC.toy_ec) 1 64 (fun _ => 100) example_pool example_utxo
    [Byte.x51] 9 (example_header 50) (fun _ => None)) as (ob & Hm & Hok).
  - apply wf_example.
  - apply wf_Regtest.
  - apply example_pool_inv.
  - apply example_pool_valid.
  - vm_compute. reflexivity.
  - lia.
  - lia.
  - unfold wf_script, MaxScriptSize. simpl. lia.
  - vm_compute. done.
  - change (mp_p example_pool) with Regtest in Hm, Hok.
    destruct ob as [b|].
    + exists b. split; [exact Hm|]. destruct (Hok b eq_refl) as ((cb & Hb & Ho) & H1 & H2 & _).
      split; [|split; [exact H1|exact H2]]. exists cb. rewrite Hb, Ho. split; vm_compute; reflexivity.
    + exfalso. apply (f_equal (fun r => match r with Ok (Some _) => true | _ => false end)) in Hm.
      vm_compute in Hm. discriminate Hm.
Defined.

(** When neither subsidy nor fees are left the miner stalls: with an empty pool at a
    height of zero subsidy, the coinbase of [MineOne] has an output of value zero, which
    [ValidateTransactionInputs] rejects whatever the unspent set. *)
Theorem miner_stalls_without_subsidy `{EC : ECOps} p script tipHash tipHeight tip anc now s :
  CalcSubsidy p (add32 tipHeight 1) = 0 ->
  exists header txs,
    build_template (mp_New p) p script tipHash tipHeight tip anc now = Ok (header, txs)
    /\ forall height, ValidateTransactionInputs {| blk_Header := header; blk_Transactions := txs |} s height p
                     = Err (CoinbaseZeroValue 0).
Proof.
  intros Hz. unfold build_template. rewrite Hz.
  change (BlockTemplate (mp_New p)) with {| bt_Transactions := []; bt_TotalFees := 0 |}.
  eexists _, _. split; [reflexivity|]. intros height. done.
Qed.

Lemma miner_stalls_without_subsidy_witness :
  exists header txs,
    build_template (mp_New Regtest) Regtest [Byte.x51] ZeroHash 4949 (example_header 1) (fun _ => None) 2
    = Ok (header, txs)
    /\ forall height, ValidateTransactionInputs (EC := ToyEC.toy_ec)
         {| blk_Header := header; blk_Transactions := txs |} example_utxo height Regtest = Err (CoinbaseZeroValue 0).
Proof.
  apply (miner_stalls_without_subsidy (EC := ToyEC.toy_ec) Regtest [Byte.x51] ZeroHash 4949).
  vm_compute. reflexivity.
Defined.

Lemma RemoveTxs_keeps m hs h e :
  mp_txs m !! h = Some e -> h ∉ hs -> mp_txs (RemoveTxs m hs) !! h = Some e.
Proof.
  unfold RemoveTxs. revert m. induction hs as [|x hs IH]; intros m He Hh; simpl; [done|].
  apply IH; [|set_solver]. unfold removeTxUnsafe. destruct (mp_txs m !! x) eqn:E; [|done].
  simpl. rewrite lookup_delete_ne by set_solver. done.
Qed.

(** Confirmed conflicts stay in the pool: when a block spends an outpoint that a pool
    transaction spends too, removing the block's transaction ids from the pool (all the
    node does on a new block) leaves that transaction in it, and from then on every
    block that contains it fails validation, so every template built from the pool. *)
Theorem stale_conflict_stays `{EC : ECOps} m s s' b undo height p h e k :
  wf_params p ->
  mp_txs m !! h = Some e -> h ∉ map HashTransaction (blk_Transactions b) ->
  tx_IsCoinbase (te_Tx e) = false -> k ∈ map in_key (tx_Inputs (te_Tx e)) ->
  ConnectBlock s b height = Ok (s', undo) -> k ∈ spends (blk_Transactions b) -> wf_utxo s' ->
  mp_txs (RemoveTxs m (map HashTransaction (blk_Transactions b))) !! h = Some e
  /\ forall b' height' fees, is_u32 height' ->
     Forall (fun tx => Forall wf_output (tx_Outputs tx)) (blk_Transactions b') ->
     te_Tx e ∈ blk_Transactions b' ->
     ValidateTransactionInputs b' s' height' p <> Ok fees.
Proof.
  intros Hp He Hh Hcb Hk Hc Hspent Hs'. split; [by apply RemoveTxs_keeps|].
  intros b' height' fees Hh' Hwf Hin HV. apply ValidateTransactionInputs_exact in HV; [|done..].
  apply ConnectBlock_Ok in Hc as (_ & _ & _ & Hlook). specialize (Hlook k).
  rewrite bool_decide_true in Hlook by done.
  pose proof (valid_block_present s' p height' _ fees HV) as Hpres. rewrite Forall_forall in Hpres.
  destruct (Hpres k) as [x Hx]; [|congruence].
  unfold spends. apply list_elem_of_In, in_concat. exists (tx_spends (te_Tx e)). split.
  - apply in_map. by apply list_elem_of_In.
  - apply list_elem_of_In. by rewrite tx_spends_inputs.
Qed.

(** A transaction that conflicts with the example transaction. *)
Definition example_tx2 : Transaction := {|
  tx_Version := 1; tx_Inputs := tx_Inputs example_tx;
  tx_Outputs := [{| out_Value := 900; out_PkScript := [Byte.x51] |}]; tx_LockTime := 0 |}.
Definition example_block2 : Block := {|
  blk_Header := example_header 60; blk_Transactions := [example_coinbase; example_tx2] |}.

Lemma stale_conflict_stays_witness :
  exists s' undo, ConnectBlock example_utxo example_block2 10 = Ok (s', undo)
    /\ mp_txs (RemoveTxs example_pool (map HashTransaction (blk_Transactions example_block2)))
         !! HashTransaction example_tx = Some (make_entry example_tx 500).
Proof.
  destruct (ConnectBlock example_utxo example_block2 10) as [[s' undo]|e] eqn:E.
  2:{ exfalso. apply (f_equal is_ok) in E. vm_compute in E. discriminate E. }
  exists s', undo. split; [reflexivity|].
  refine (proj1 (stale_conflict_stays (EC := ToyEC.toy_ec) example_pool example_utxo s' example_block2 undo 10
    Regtest (HashTransaction example_tx) (make_entry example_tx 500) (OutpointKey ZeroHash 7)
    wf_Regtest _ _ _ _ E _ _)).
  - vm_compute. reflexivity.
  - refine (bool_decide_unpack _ _). vm_compute. exact I.
  - reflexivity.
  - refine (bool_decide_unpack _ _). vm_compute. exact I.
  - refine (bool_decide_unpack _ _). vm_compute. exact I.
  - refine (proj1 (ConnectBlock_sum _ _ _ _ _ E _ _ _ _)).
    + by vm_compute.
    + apply wf_example.
    + repeat constructor; try (by vm_compute); unfold wf_script, MaxScriptSize; simpl; lia.
    + refine (bool_decide_unpack _ _). vm_compute. exact I.
Defined.
