(* ===== verification/ChainProps.v ===== *)
(** * Properties of the chain manager

    The statements about [chain.go] in terms of its states, each from the invariant of
    [ChainInv.v], and runs of the model that show a defect. *)
From stdpp Require Import sorting.
From S2P Require Import Prelude Types Sha256 Crypto Target Params Script Utxo TxValidation.
From S2P Require Import BlockValidation Pow Ledger Store FileLaws Chain ChainInv Reorg Accept.
From S2P Require Import ChainSafety Miner.
#[local] Open Scope Z_scope.
#[local] Open Scope go_scope.
Import MerkleFacts.

#[export] Instance pow_engine_laws : EngineLaws (EN := pow_engine).
Proof. by intros b n p. Qed.

(** ** A small network

    Regression-test parameters, a genesis block, and a file store over an in-memory
    database that never fails. *)
Module Example.
Import ToyEC MemDB.

Definition genesis_coinbase : Transaction := {|
  tx_Version := 1;
  tx_Inputs := [{| in_PreviousOutPoint := CoinbaseOutPoint;
                   in_SignatureScript := bytes_of_string "regtest"; in_Sequence := 0xFFFFFFFF |}];
  tx_Outputs := [{| out_Value := 5000000000; out_PkScript := [Byte.x00] |}];
  tx_LockTime := 0 |}.
Definition genesis_block : Block := {|
  blk_Header := {| hdr_Version := 1; hdr_PrevBlock := ZeroHash;
                   hdr_MerkleRoot := ComputeMerkleRoot [genesis_coinbase];
                   hdr_Timestamp := 1000; hdr_Bits := 0x207fffff; hdr_Nonce := 0 |};
  blk_Transactions := [genesis_coinbase] |}.
Definition genesis_hash : Hash := Eval vm_compute in block_hash genesis_block.
Definition net : ChainParams := InitGenesis Regtest genesis_block genesis_hash.

Definition store0 : FileStore mem_db := {|
  fs_files := {| bf_magic := p_NetworkMagic net; bf_blk := ∅; bf_rev := ∅; bf_free := None;
                 bf_curFile := 0; bf_curSize := 0 |};
  fs_index := ∅; fs_chainstate := ∅ |}.
Definition env0 : Env := {| env_now := fun _ => 2000; env_wall := fun _ => 0; env_pick := fun _ => O |}.

(** A block with only a coinbase worth [value], mined on [prev]. *)
Definition coinbase_only (prev : Hash) (height ts value : Z) : Block :=
  let txs := [buildCoinbase [Byte.x51] height value] in
  let h := {| hdr_Version := 1; hdr_PrevBlock := prev; hdr_MerkleRoot := ComputeMerkleRoot txs;
              hdr_Timestamp := ts; hdr_Bits := 0x207fffff; hdr_Nonce := 0 |} in
  {| blk_Header := snd (pow_SealHeader h (CompactToHash 0x207fffff) 100); blk_Transactions := txs |}.

Definition A1 : Block := Eval vm_compute in coinbase_only genesis_hash 1 1001 5000000000.
Definition A2 : Block := Eval vm_compute in coinbase_only (block_hash A1) 2 1003 5000000000.
Definition B1 : Block := Eval vm_compute in coinbase_only genesis_hash 1 1002 4000000000.
Definition B2 : Block := Eval vm_compute in coinbase_only (block_hash B1) 2 1003 4500000000.
(** on [B1], claiming more than the subsidy *)
Definition X2 : Block := Eval vm_compute in coinbase_only (block_hash B1) 2 1004 6000000000.
Definition blocks : list Block := [genesis_block; A1; A2; B1; B2; X2].

Definition start : Chain (FileStore mem_db) := snd (Init (New net store0)).
Definition submit (bs : list Block) (c : Chain (FileStore mem_db)) : Chain (FileStore mem_db) :=
  fold_left (fun c b => snd (ProcessBlock env0 b c)) bs c.

Lemma blocks_universe : universe net blocks.
Proof.
  constructor.
  - do 6 (apply Forall_cons; split; [apply storable_decode; vm_compute; reflexivity|]). constructor.
  - refine (bool_decide_unpack _ _). vm_compute. exact I.
  - repeat constructor; vm_compute; discriminate.
  - repeat constructor; vm_compute; discriminate.
  - vm_compute. reflexivity.
  - by left.
  - reflexivity.
  - constructor.
    + repeat constructor.
    + repeat constructor. vm_compute. intros [_ H]. by apply H.
    + apply NoDup_singleton.
    + assert (storable genesis_block) as [(_ & Hw & _) _]
        by (apply storable_decode; vm_compute; reflexivity). exact Hw.
  - vm_compute. reflexivity.
  - pose proof wf_networks as Hw. rewrite !Forall_cons in Hw. by destruct Hw as (_ & _ & Hr & _).
  - vm_compute. discriminate.
Qed.

Lemma store0_empty : empty_store store0.
Proof. split; [|split; [done|by eexists]]. by constructor. Qed.

Lemma tip_writes (s : FileStore mem_db) h n : (PutChainTip s h n).1 = Ok tt.
Proof. reflexivity. Qed.

Lemma reach_submit bs c :
  Forall (fun b => b ∈ blocks) bs -> reach env0 net blocks store0 c -> reach env0 net blocks store0 (submit bs c).
Proof.
  intros Hbs. revert c. induction Hbs as [|b bs Hb _ IH]; intros c Hc; [done|]. cbn [submit fold_left].
  apply IH. by apply reach_block.
Qed.

Lemma start_Ok : (Init (New net store0)).1 = Ok tt.
Proof. vm_compute. reflexivity. Qed.

Lemma start_reach : reach env0 net blocks store0 start.
Proof. apply reach_init. rewrite <- start_Ok. apply surjective_pairing. Qed.
End Example.

(** ** Properties *)

Section chain_properties.
Context {St : Type} `{BS : BlockStore St} {BL : BlockStoreLaws St} `{EN : Engine} {EL : EngineLaws} `{EC : ECOps}.
Context (env : Env) (p : ChainParams) (U : list Block).
Implicit Types c : Chain St.

(** C4. The chain manager keeps the ledger of its active chain.  In every state reachable
    from an empty store by submitting blocks in any order (extensions, side chains,
    orphans, reorganisations, rejected blocks; any index, block, undo or chainstate write
    may fail), the in-memory unspent set is the replay of the blocks the height map lists
    from the genesis block to the tip, every one of them valid against the set before it;
    so the unspent outputs are worth no more than the genesis outputs and the subsidies
    issued.  Assumed: the blocks are hashed without collision and contain no 64-byte
    transaction ([universe]), the store stays within its address space ([live]; for the
    repository's own store this includes room on the disk for block and undo data), and
    [PutChainTip] does not fail. *)
Theorem chain_ledger s0 c :
  universe p U -> (forall (s : St) h n, (PutChainTip s h n).1 = Ok tt) ->
  empty_store s0 -> reach env p U s0 c -> live c ->
  exists bs, replay p bs = Some (UtxoSet_of c)
    /\ c_tipHeight c = len bs
    /\ (forall z, c_hashByHeight c !! z
          = if z <? 0 then None
            else (fun b => block_hash b) <$> ((p_GenesisBlock p :: bs) !! Z.to_nat z))
    /\ c_hashByHeight c !! c_tipHeight c = Some (c_tipHash c)
    /\ utxo_sum (UtxoSet_of c) + CalcSubsidy p 0
       <= utxo_sum (ConnectGenesis NewSet (p_GenesisBlock p)) + total_subsidy p (S (length bs)).
Proof.
  intros HU Htip He Hr L. pose proof (reach_inv env p U HU Htip s0 c He Hr L) as Hc.
  pose proof Hc as [_ _ Hi _ _ _ [bs (Ha & Hh & Ht & _)]]. exists bs.
  pose proof (linked_length p U HU _ _ _ Hi (ac_linked _ _ _ _ _ _ _ Ha)) as Hlen.
  pose proof (linked_Forall _ _ _ _ _ _ (ac_linked _ _ _ _ _ _ _ Ha)) as HinU.
  pose proof (un_txs HU bs HinU) as Hw. pose proof (ac_replay _ _ _ _ _ _ _ Ha) as Hrep.
  pose proof (ac_bhh _ _ _ _ _ _ _ Ha) as Hb. split_and!; try done.
  - rewrite Hb, Hh. destruct (Z.ltb_spec (len bs) 0); [lia|]. rewrite Nat2Z.id.
    destruct bs as [|x bs _] using rev_ind; [by rewrite Ht|]. rewrite Ht, last_hash_snoc.
    rewrite app_comm_cons, list_lookup_middle; [done|]. rewrite length_app. simpl. lia.
  - eapply ledger_sum; [apply (un_params _ _ HU)| |eapply replay_ledger; [exact Hrep|done|lia]].
    eapply (replay_wf p (un_genesis_ok _ _ HU) (un_params _ _ HU) []); [done|constructor|simpl; lia].
Qed.

(** C18. Submitting a block never loses work while the tip can be written: provided that
    [PutChainTip] does not fail ([tip_failure_desyncs] shows what happens when it does), that
    the store stays within its address space ([live]) and that the block is one of a
    universe of blocks without hash collisions and without 64-byte transactions, then
    whatever [ProcessBlock] returns, and whichever other write of the store fails, the state
    it leaves satisfies the invariant again and its tip has at least the work of the old
    tip, also when blocks waiting in the orphan pool are connected on the way. *)
Theorem process_block_monotone c b :
  universe p U -> (forall (s : St) h n, (PutChainTip s h n).1 = Ok tt) ->
  chain_inv p U c -> b ∈ U -> live (ProcessBlock env b c).2 ->
  chain_inv p U (ProcessBlock env b c).2 /\ c_tipWork c <= c_tipWork (ProcessBlock env b c).2.
Proof. intros HU Htip Hc Hb L. exact (ProcessBlock_wp env p U HU Htip c b Hc Hb L). Qed.

(** C17. A reorganisation is all or nothing in memory: if it succeeds, the tip is the new
    block with its work; if it fails, at whatever step, the tip, the maps of heights, the
    orphan pool and the contents of the unspent set are as before (in a new object). *)
Theorem reorg_atomic c bs h n w :
  universe p U -> chain_inv p U c -> main_of p U c bs -> candidate c h n w -> live (reorg h n w c).2 ->
  chain_inv p U (reorg h n w c).2 /\
  match (reorg h n w c).1 with
  | Ok _ => c_tipHash (reorg h n w c).2 = h /\ c_tipWork (reorg h n w c).2 = w
  | Err _ => same_main c (reorg h n w c).2 /\ UtxoSet_of (reorg h n w c).2 = UtxoSet_of c
             /\ c_orphans (reorg h n w c).2 = c_orphans c
  end.
Proof.
  intros HU Hc Hm Hca L. destruct (reorg_wp p U HU c bs h n w Hc Hm Hca L) as (Hc' & Ho & H). split; [done|].
  destruct (reorg h n w c) as [[[]|e] c']; cbn [fst snd] in *; [done|].
  destruct H as [Hsame R]. pose proof Hsame as (_ & E2 & _ & _ & E5). split_and!; try done.
  destruct Hm as (Ha & Hh & _). pose proof Hc' as [_ _ _ _ _ _ [bs' (Ha' & Hh' & _)]].
  assert (bs' = bs) as ->; [|pose proof (ac_replay _ _ _ _ _ _ _ Ha); pose proof (ac_replay _ _ _ _ _ _ _ Ha'); congruence].
  rewrite E5 in Ha'. by eapply (active_unique p U HU).
Qed.
End chain_properties.

(** ** Block locators *)

Section locator.
Context {St : Type}.
Implicit Types c : Chain St.

(** What the locator loop knows after [n] entries: it doubles the step from the eleventh
    entry on, and the distance already covered grows with it. *)
Definition locator_state (n height step : Z) : Prop :=
  0 <= height /\ 0 <= n /\
  (if n <=? 10 then step = 1 /\ height <= 2^32 - 1 - n
   else height = 0 \/ (step = 2^(n - 10) /\ height + 2^(n - 10) <= 2^32 - 9)).

Lemma locator_next n height step :
  locator_state n height step -> 0 < height ->
  locator_state (n + 1) (if height <? step then 0 else height - step)
    (if n + 1 >? 10 then u32 (step * 2) else step)
  /\ n + 1 <= 42 /\ 0 < step.
Proof.
  intros (H0 & Hn & H) Hpos. unfold locator_state. destruct (Z.leb_spec n 10) as [Hle|Hgt].
  - destruct H as [-> Hh]. destruct (Z.ltb_spec height 1); [lia|]. split; [|lia]. split_and!; [lia|lia|].
    destruct (Z.leb_spec (n + 1) 10); destruct (Z.gtb_spec (n + 1) 10); try lia.
    replace (n + 1) with 11 by lia. right. by split; [|simpl; lia].
  - destruct H as [->|[-> Hh]]; [lia|]. assert (n - 10 < 32) as Hlt.
    { apply (Z.pow_lt_mono_r_iff 2); lia. }
    assert (0 < 2^(n - 10)) by (apply Z.pow_pos_nonneg; lia). split; [|lia].
    destruct (Z.gtb_spec (n + 1) 10); [|lia]. destruct (Z.leb_spec (n + 1) 10); [lia|].
    assert (2^(n + 1 - 10) = 2 * 2^(n - 10)) as E2.
    { replace (n + 1 - 10) with (Z.succ (n - 10)) by lia. apply Z.pow_succ_r. lia. }
    split_and!; [destruct (Z.ltb_spec height (2^(n - 10))); lia|lia|].
    destruct (Z.ltb_spec height (2^(n - 10))) as [|Hge]; [by left|right].
    rewrite E2. split; [rewrite u32_small by (unfold is_u32; lia)|]; lia.
Qed.

Lemma locator_loop_spec c tip fuel : forall height step loc,
  (forall z, 0 <= z <= tip -> is_Some (c_hashByHeight c !! z)) -> height <= tip ->
  locator_state (len loc) height step -> 43 <= len loc + Z.of_nat fuel -> len loc <= 42 ->
  exists hs, locator_loop fuel c height step loc = Some (loc ++ map (fun z => c_hashByHeight c !!! z) hs)
    /\ head hs = Some height /\ last hs = Some 0 /\ StronglySorted Z.gt hs
    /\ Forall (fun z => 0 <= z <= height) hs /\ len loc + len hs <= 43.
Proof.
  induction fuel as [|fuel IH]; intros height step loc Htot Hle Hst Hf Hl; [lia|].
  cbn [locator_loop]. pose proof Hst as (H0 & _ & _).
  destruct (Htot height ltac:(lia)) as [h Hh]. rewrite Hh.
  assert (c_hashByHeight c !!! height = h) as Eh by (by apply lookup_total_correct).
  destruct (Z.eqb_spec height 0) as [->|Hne].
  { exists [0]. cbn [map head last]. rewrite Eh. cbn [length]. split_and!; try done; [|repeat constructor; lia|lia].
    by repeat constructor. }
  destruct (locator_next (len loc) height step Hst ltac:(lia)) as (Hst' & H42 & Hs).
  assert (len (loc ++ [h]) = len loc + 1) as El by (rewrite length_app; simpl; lia). rewrite El.
  set (height' := if height <? step then 0 else height - step) in *.
  assert (0 <= height' < height) as Hd by (subst height'; destruct (Z.ltb_spec height step); lia).
  destruct (IH height' (if len loc + 1 >? 10 then u32 (step * 2) else step) (loc ++ [h])) as
    (hs & E & Hhd & Hlast & Hsort & Hall & Hlen); try done; [lia|by rewrite El|rewrite El; lia|rewrite El; lia|].
  exists (height :: hs). rewrite E. cbn [map]. rewrite Eh, <- app_assoc. split_and!; try done.
  - by destruct hs.
  - constructor; [done|]. eapply Forall_impl; [exact Hall|]. simpl. lia.
  - apply Forall_cons. split; [lia|]. eapply Forall_impl; [exact Hall|]. simpl. lia.
  - rewrite El in Hlen. cbn [length]. lia.
Qed.
End locator.

Lemma locator_complete {St} `{BS : BlockStore St} {BL : BlockStoreLaws St} `{EC : ECOps} p U (c : Chain St) :
  universe p U -> chain_inv p U c ->
  exists hs, BlockLocator c = map (fun z => c_hashByHeight c !!! z) hs
    /\ Forall (fun z => is_Some (c_hashByHeight c !! z)) hs
    /\ head hs = Some (c_tipHeight c) /\ last hs = Some 0 /\ StronglySorted Z.gt hs /\ (length hs <= 43)%nat.
Proof.
  intros HU Hc. pose proof Hc as [_ _ Hi _ _ _ [bs (Ha & Hh & _)]].
  pose proof (linked_length p U HU _ _ _ Hi (ac_linked _ _ _ _ _ _ _ Ha)) as Hlen.
  assert (forall z, 0 <= z <= c_tipHeight c -> is_Some (c_hashByHeight c !! z)) as Htot.
  { intros z Hz. rewrite (ac_bhh _ _ _ _ _ _ _ Ha). destruct (Z.ltb_spec z 0); [lia|].
    apply fmap_is_Some, lookup_lt_is_Some. cbn [length]. lia. }
  destruct (locator_loop_spec c (c_tipHeight c) 64 (c_tipHeight c) 1 []) as (hs & E & Hhd & Hla & Hs & Hall & Hl);
    try done; [|simpl; lia..|].
  { unfold locator_state. simpl. lia. }
  exists hs. unfold BlockLocator. rewrite E. split_and!; try done; [|simpl in Hl; lia].
  eapply Forall_impl; [exact Hall|]. intros z Hz. by apply Htot.
Qed.

(** C31. The block locator is complete and short: it lists hashes of the active chain at
    strictly decreasing heights, from the tip to the genesis block, at most 43 of them
    for any chain of less than [2^32] blocks (the doubling step never wraps to zero, with
    which the loop would not end). *)
Theorem block_locator_exact {St} `{BS : BlockStore St} {BL : BlockStoreLaws St} `{EC : ECOps} p U (c : Chain St) :
  universe p U -> chain_inv p U c ->
  exists hs, BlockLocator c = map (fun z => c_hashByHeight c !!! z) hs
    /\ Forall (fun z => is_Some (c_hashByHeight c !! z)) hs
    /\ head hs = Some (c_tipHeight c) /\ last hs = Some 0 /\ StronglySorted Z.gt hs /\ (length hs <= 43)%nat.
Proof. apply locator_complete. Qed.

(** ** Runs of the small network *)

Lemma files_live_check b :
  (match bf_free b with None => true | Some _ => false end) && (bf_curFile b <? 2^32)
  && forallb (fun kv => len kv.2 <? 2^32) (map_to_list (bf_rev b)) = true -> files_live b.
Proof.
  rewrite !andb_true_iff, forallb_forall. intros [[Hf Hc] Hr]. bool_to_prop.
  split_and!; [by destruct (bf_free b)|done|]. intros n. unfold file_bytes.
  destruct (bf_rev b !! n) as [file|] eqn:E; [|simpl; lia]. change (default [] (Some file)) with file.
  apply elem_of_map_to_list, list_elem_of_In, Hr in E. by apply Z.ltb_lt in E.
Qed.

Import Example ToyEC MemDB.

Lemma submit_inv bs :
  Forall (fun b => b ∈ blocks) bs -> live (submit bs start) -> chain_inv net blocks (submit bs start).
Proof.
  intros Hbs L. apply (reach_inv env0 net blocks blocks_universe tip_writes store0); [apply store0_empty| |done].
  apply reach_submit; [done|apply start_reach].
Qed.

Lemma chain_ledger_witness :
  c_tipHash (submit [A1; B1; B2] start) = block_hash B2
  /\ exists bs, replay net bs = Some (UtxoSet_of (submit [A1; B1; B2] start)) /\ len bs = 2.
Proof.
  split; [vm_compute; reflexivity|].
  destruct (chain_ledger env0 net blocks store0 (submit [A1; B1; B2] start)) as (bs & Hr & Hh & _).
  - apply blocks_universe.
  - apply tip_writes.
  - apply store0_empty.
  - apply reach_submit; [|apply start_reach]. repeat constructor; refine (bool_decide_unpack _ _); vm_compute; exact I.
  - apply files_live_check. vm_compute. reflexivity.
  - exists bs. split; [exact Hr|]. rewrite <- Hh. vm_compute. reflexivity.
Defined.

Lemma run_A1_inv : chain_inv net blocks (submit [A1] start).
Proof.
  apply submit_inv; [|apply files_live_check; vm_compute; reflexivity].
  repeat constructor; refine (bool_decide_unpack _ _); vm_compute; exact I.
Qed.
Lemma run_A1_B1_inv : chain_inv net blocks (submit [A1; B1] start).
Proof.
  apply submit_inv; [|apply files_live_check; vm_compute; reflexivity].
  repeat constructor; refine (bool_decide_unpack _ _); vm_compute; exact I.
Qed.

Lemma process_block_monotone_witness :
  c_tipWork (submit [A1] start) <= c_tipWork (ProcessBlock env0 A2 (submit [A1] start)).2
  /\ c_tipHeight (ProcessBlock env0 A2 (submit [A1] start)).2 = 2.
Proof.
  split; [|vm_compute; reflexivity].
  apply (process_block_monotone env0 net blocks (submit [A1] start) A2).
  - apply blocks_universe.
  - apply tip_writes.
  - apply run_A1_inv.
  - do 2 apply list_elem_of_further. apply list_elem_of_here.
  - apply files_live_check. vm_compute. reflexivity.
Defined.

(** With the same work the block with the smaller hash wins. *)
Lemma reorg_atomic_witness :
  c_tipHash (reorg (block_hash B1) 1 4 (submit [A1; B1] start)).2 = block_hash B1.
Proof.
  pose proof (ci_main _ _ _ run_A1_B1_inv) as [bs Hm].
  assert ((reorg (block_hash B1) 1 4 (submit [A1; B1] start)).1 = Ok tt) as E by (vm_compute; reflexivity).
  destruct (reorg_atomic net blocks (submit [A1; B1] start) bs (block_hash B1) 1 4) as [_ H].
  - apply blocks_universe.
  - apply run_A1_B1_inv.
  - exact Hm.
  - constructor.
    + intros z Hz. apply elem_of_map_to_list, list_elem_of_In in Hz.
      assert (forallb (fun kv => negb (bool_decide (kv.2 = block_hash B1)))
        (map_to_list (c_hashByHeight (submit [A1; B1] start))) = true) as Hf by (vm_compute; reflexivity).
      rewrite forallb_forall in Hf. apply Hf in Hz. by rewrite bool_decide_true in Hz.
    + intros r Hr.
      assert ((fun r => (bi_Height r, bi_ChainWork r)) <$> v_index (st_view (c_store (submit [A1; B1] start))) !! block_hash B1
        = Some (1, Some 4)) as E' by (vm_compute; reflexivity).
      rewrite Hr in E'. clear Hr. cbv beta iota delta [fmap option_fmap option_map] in E'.
      injection E' as E1 E2. exact (conj E1 E2).
  - apply files_live_check. vm_compute. reflexivity.
  - rewrite E in H. apply H.
Defined.

Lemma block_locator_exact_witness :
  exists hs, BlockLocator (submit [A1] start) = map (fun z => c_hashByHeight (submit [A1] start) !!! z) hs
    /\ (length hs <= 43)%nat.
Proof.
  destruct (block_locator_exact net blocks (submit [A1] start)) as (hs & E & _ & _ & _ & _ & Hl).
  - apply blocks_universe.
  - apply run_A1_inv.
  - exists hs. exact (conj E Hl).
Defined.

(** A failed reorganisation corrupts the chainstate on disk.  After [A1], the branch
    [B1], [X2] with more work is tried; [X2] claims too much, so the memory is restored,
    but the chainstate keeps the coins of the branch.  The next block [A2] marks the
    chainstate as current, and a restart on that store succeeds with the same tip and a
    coin that does not exist on the active chain. *)
Example failed_reorg_corrupts_restart :
  let c := submit [A1; B1; X2; A2] start in
  let r := Init (New net (c_store c)) in
  let coin := OutpointKey (HashTransaction (nth 0 (blk_Transactions B1) genesis_coinbase)) 0 in
  c_tipHash c = block_hash A2 /\ r.1 = Ok tt /\ c_tipHash r.2 = block_hash A2
  /\ UtxoSet_of c !! coin = None
  /\ ue_Value <$> (UtxoSet_of r.2 !! coin) = Some 4000000000.
Proof. vm_compute. repeat split. Qed.

(** The same node over a database whose fourth write to the block index fails. *)
Definition flaky_store : FileStore flaky_db := {|
  fs_files := fs_files store0;
  fs_index := {| fl_map := ∅; fl_fails := [false; false; false; true] |};
  fs_chainstate := {| fl_map := ∅; fl_fails := [] |} |}.

(** A failed write of the tip leaves the unspent set ahead of the chain, with
    inflation: the block [A1] is rejected because [PutChainTip] fails, but stays applied
    to the unspent set; when the competing block [B1] is then accepted, the set holds the
    rewards of both, 9 billion at height 1 where the schedule issues 5 (the genesis
    output is unspendable). *)
Theorem tip_failure_desyncs :
  let c0 := (Init (New net flaky_store)).2 in
  let r1 := ProcessBlock env0 A1 c0 in
  let r2 := ProcessBlock env0 B1 r1.2 in
  r1.1 = Err (StoreTip (DBErr (LdbIO 5))) /\ c_tipHeight r1.2 = 0 /\ TotalValue (UtxoSet_of r1.2) = 5000000000
  /\ r2.1 = Ok 1 /\ c_tipHeight r2.2 = 1 /\ TotalValue (UtxoSet_of r2.2) = 9000000000
  /\ CalcSubsidy net 1 = 5000000000.
Proof. vm_compute. repeat split. Qed.
