(* ===== verification/Persist.v ===== *)
(** * What the chain manager leaves on disk

    [chain.go] keeps the unspent set twice: in memory, and as entries of the chainstate
    database next to a best-block marker; the tip is recorded in the block index.  A state
    is [synced] when the three agree with memory.  Connecting and disconnecting a block
    write batches that keep the two sets equal, so a state stays synced through
    extensions, side chains, rejected blocks and successful reorganisations
    ([ProcessBlock_synced]). *)
From stdpp Require Import sorting.
From S2P Require Import Prelude Types Sha256 Crypto Target Params Script Utxo TxValidation.
From S2P Require Import BlockValidation Pow Ledger Store FileLaws Chain ChainInv Reorg Accept ChainSafety.
#[local] Open Scope Z_scope.
#[local] Open Scope go_scope.

(** ** The set as the chainstate has it *)

Abbreviation chainstate := (gmap (list byte) (list byte)).

(** The entries of [m] are the coins of [us]. *)
Definition mirrors (m : chainstate) (us : UtxoSet) : Prop :=
  forall k, m !! (Byte.x43 :: k) = ue_Serialize <$> us !! k.

Lemma mirrors_insert m us k e :
  mirrors m us -> mirrors (<[Byte.x43 :: k := ue_Serialize e]> m) (<[k := e]> us).
Proof.
  intros H q. destruct (decide (k = q)) as [<-|Hne]; [by rewrite !lookup_insert_eq|].
  rewrite !lookup_insert_ne by congruence. apply H.
Qed.

Lemma mirrors_best m us v : mirrors m us -> mirrors (<[keyBestBlock := v]> m) us.
Proof. intros H q. by rewrite lookup_insert_ne. Qed.

Lemma apply_batch_app l1 l2 m : apply_batch (l1 ++ l2) m = apply_batch l2 (apply_batch l1 m).
Proof. apply fold_left_app. Qed.

(** A loop that appends to a batch. *)
Lemma fold_appends {A B} (step : list B -> A -> list B) (f : A -> list B) l acc :
  (forall acc x, step acc x = acc ++ f x) -> fold_left step l acc = acc ++ concat (map f l).
Proof.
  intros H. revert acc. induction l as [|x l IH]; intros acc; cbn [fold_left map concat]; [by rewrite app_nil_r|].
  by rewrite IH, H, app_assoc.
Qed.

#[global] Instance batch_op_eq_dec : EqDecision batch_op.
Proof. solve_decision. Defined.

(** A batch of coins of [us]. *)
Definition coin_puts (us : UtxoSet) (ops : list batch_op) : Prop :=
  forall op, op ∈ ops -> exists k e, op = BatchPut (Byte.x43 :: k) (ue_Serialize e) /\ us !! k = Some e.

(** Written, those coins are there and the rest is untouched. *)
Lemma apply_coin_puts us ops m k :
  coin_puts us ops ->
  apply_batch ops m !! (Byte.x43 :: k)
  = match us !! k with
    | Some e => if bool_decide (BatchPut (Byte.x43 :: k) (ue_Serialize e) ∈ ops) then Some (ue_Serialize e)
                else m !! (Byte.x43 :: k)
    | None => m !! (Byte.x43 :: k)
    end.
Proof.
  revert m. induction ops as [|op ops IH]; intros m Hp; [by destruct (us !! k)|].
  destruct (Hp op ltac:(apply list_elem_of_here)) as (k' & e' & -> & Hk').
  change (apply_batch (BatchPut ?q ?v :: ops) m) with (apply_batch ops (<[q := v]> m)).
  rewrite IH by (intros o Ho; apply Hp; by apply list_elem_of_further).
  destruct (decide (k' = k)) as [->|Hne].
  - rewrite Hk', lookup_insert_eq, (bool_decide_true (_ ∈ _ :: ops)) by apply list_elem_of_here.
    by destruct (bool_decide _).
  - rewrite lookup_insert_ne by congruence. destruct (us !! k) as [e|]; [|done].
    erewrite (bool_decide_ext (_ ∈ _ :: ops)); [done|]. rewrite elem_of_cons.
    split; [intros [E|?]; [congruence|done]|by right].
Qed.

(** A batch that deletes coins. *)
Definition coin_deletes (keys : list outpoint_key) : list batch_op :=
  map (fun k => BatchDelete (Byte.x43 :: k)) keys.

Lemma apply_coin_deletes keys m k :
  apply_batch (coin_deletes keys) m !! (Byte.x43 :: k)
  = if bool_decide (k ∈ keys) then None else m !! (Byte.x43 :: k).
Proof.
  revert m. induction keys as [|a keys IH]; intros m; [done|].
  change (apply_batch (coin_deletes (a :: keys)) m)
    with (apply_batch (coin_deletes keys) (delete (Byte.x43 :: a) m)).
  rewrite IH. destruct (decide (k = a)) as [->|Hne].
  - rewrite lookup_delete_eq, (bool_decide_true (a ∈ a :: keys)) by apply list_elem_of_here.
    by destruct (bool_decide _).
  - rewrite lookup_delete_ne by congruence. erewrite bool_decide_ext; [done|].
    rewrite elem_of_cons. naive_solver.
Qed.

Lemma mirrors_deletes m us keys keys' :
  mirrors m us -> (forall k, k ∈ keys <-> k ∈ keys') ->
  mirrors (apply_batch (coin_deletes keys) m) (delete_keys us keys').
Proof.
  intros H Hk q. rewrite apply_coin_deletes, lookup_delete_keys, (bool_decide_ext _ _ (Hk q)), H.
  by destruct (bool_decide _).
Qed.

(** ** Connecting a block *)

(** The outpoints of a block's outputs, and the writes for those that are in the set. *)
Definition tx_outpoints (tx : Transaction) : list outpoint_key :=
  map (fun i => OutpointKey (HashTransaction tx) (u32 (Z.of_nat i))) (seq 0 (length (tx_Outputs tx))).

Definition put_coin (us : UtxoSet) (k : outpoint_key) : list batch_op :=
  match us !! k with Some e => [BatchPut (Byte.x43 :: k) (ue_Serialize e)] | None => [] end.

Definition outpoints_of (txs : list Transaction) : list outpoint_key := concat (map tx_outpoints txs).

Lemma concat_concat_map {A B} (f : A -> list B) (ls : list (list A)) :
  concat (map (fun l => concat (map f l)) ls) = concat (map f (concat ls)).
Proof. induction ls as [|l ls IH]; [done|]. cbn [map concat]. by rewrite map_app, concat_app, IH. Qed.

Lemma connect_batch_ops us b undo h :
  connect_batch us b undo h
  = concat (map (put_coin us) (outpoints_of (blk_Transactions b)))
    ++ coin_deletes (map so_key undo) ++ [BatchPut keyBestBlock h].
Proof.
  unfold connect_batch, wb_PutBestBlock. rewrite app_assoc. f_equal.
  erewrite (fold_appends _ (fun so => [BatchDelete (Byte.x43 :: so_key so)])) by done. f_equal.
  - rewrite (fold_appends _ (fun tx => concat (map (put_coin us) (tx_outpoints tx)))).
    + cbn [app]. unfold outpoints_of. rewrite <- concat_concat_map, map_map. done.
    + intros acc tx. unfold tx_outpoints. rewrite map_map. apply fold_appends.
      intros acc' i. unfold put_coin, Get. destruct (us !! _); [done|by rewrite app_nil_r].
  - unfold coin_deletes. rewrite map_map. induction undo as [|so undo IH]; [done|]. cbn [map concat app]. by rewrite IH.
Qed.

Lemma outpoints_created n txs k : k ∈ outpoints_of txs <-> k ∈ map fst (creates n txs).
Proof.
  unfold outpoints_of, creates. rewrite concat_map, map_map. rewrite !list_elem_of_In, !in_concat.
  assert (forall tx, tx_outpoints tx = map fst (tx_entries n tx)) as E; [|by setoid_rewrite (map_ext _ _ E)].
  intros tx. rewrite tx_entries_keys. unfold tx_outpoints. generalize (tx_Outputs tx). intros l.
  change (map ?f ?x) with (f <$> x). apply list_eq. intros i. rewrite list_lookup_fmap, list_lookup_imap.
  destruct (l !! i) as [o|] eqn:E.
  - rewrite lookup_seq_lt by (by eapply lookup_lt_Some). done.
  - apply lookup_ge_None in E. by rewrite lookup_seq_ge.
Qed.

Lemma put_coins_puts us keys : coin_puts us (concat (map (put_coin us) keys)).
Proof.
  intros op Hop. apply list_elem_of_In, in_concat in Hop as (l & Hl & Hop).
  apply in_map_iff in Hl as (k & <- & _). unfold put_coin in Hop. destruct (us !! k) as [e|] eqn:E; [|done].
  destruct Hop as [<-|[]]. eauto.
Qed.

Lemma put_coins_elem us keys k e :
  us !! k = Some e -> k ∈ keys -> BatchPut (Byte.x43 :: k) (ue_Serialize e) ∈ concat (map (put_coin us) keys).
Proof.
  intros E Hk. apply list_elem_of_In, in_concat. exists (put_coin us k).
  split; [by apply in_map, list_elem_of_In|]. unfold put_coin. rewrite E. by left.
Qed.

(** Connecting a block and writing its batch keep the two sets equal. *)
Lemma mirrors_connect m us b n us' undo h :
  mirrors m us -> ConnectBlock us b n = Ok (us', undo) ->
  mirrors (apply_batch (connect_batch us' b undo h) m) us'
  /\ apply_batch (connect_batch us' b undo h) m !! keyBestBlock = Some h.
Proof.
  intros Hm HC. apply ConnectBlock_Ok in HC as (_ & Hu & _ & Hus).
  rewrite connect_batch_ops, !apply_batch_app. set (m2 := apply_batch (coin_deletes _) _).
  change (apply_batch [BatchPut keyBestBlock h] m2) with (<[keyBestBlock := h]> m2).
  split; [|apply lookup_insert_eq]. apply mirrors_best. intros k. unfold m2.
  rewrite apply_coin_deletes, Hu, Hus. destruct (bool_decide (k ∈ spends _)) eqn:Es; [done|].
  rewrite (apply_coin_puts us') by apply put_coins_puts. rewrite Hus, Es, Hm.
  rewrite lookup_union. destruct (created_map n (blk_Transactions b) !! k) as [e|] eqn:Ec.
  - assert (us' !! k = Some e) as Eu by (by rewrite Hus, Es, lookup_union, Ec; destruct (us !! k)).
    rewrite union_Some_l, bool_decide_true; [done|]. apply put_coins_elem; [done|].
    apply (outpoints_created n). apply elem_of_list_to_map_2 in Ec. apply list_elem_of_In, in_rev, list_elem_of_In in Ec.
    apply list_elem_of_fmap. by exists (k, e).
  - rewrite option_union_left_id. destruct (us !! k) as [e|] eqn:E; simpl; [idtac|done]. destruct (bool_decide (_ ∈ concat _)); reflexivity.
Qed.

(** ** Disconnecting a block *)

Lemma disconnect_batch_ops b undo h :
  disconnect_batch b undo h
  = coin_deletes (outpoints_of (blk_Transactions b))
    ++ map (fun so => BatchPut (Byte.x43 :: so_key so) (ue_Serialize (so_Entry so))) undo
    ++ [BatchPut keyBestBlock h].
Proof.
  unfold disconnect_batch, wb_PutBestBlock. rewrite app_assoc. f_equal.
  erewrite (fold_appends _ (fun so => [BatchPut (Byte.x43 :: so_key so) (ue_Serialize (so_Entry so))])) by done.
  f_equal.
  - rewrite (fold_appends _ (fun tx => coin_deletes (tx_outpoints tx))).
    + cbn [app]. unfold outpoints_of, coin_deletes. by rewrite concat_map, map_map.
    + intros acc tx. unfold tx_outpoints, coin_deletes. rewrite map_map.
      rewrite (fold_appends _ (fun i => [BatchDelete (utxoKey (HashTransaction tx) (u32 (Z.of_nat i)))])) by done.
      f_equal. induction (seq 0 _) as [|i l IH]; [done|]. cbn [map concat app]. by rewrite IH.
  - induction undo as [|so undo IH]; [done|]. cbn [map concat app]. by rewrite IH.
Qed.

Lemma mirrors_disconnect m us b undo h :
  mirrors m us ->
  mirrors (apply_batch (disconnect_batch b undo h) m) (DisconnectBlock us b undo)
  /\ apply_batch (disconnect_batch b undo h) m !! keyBestBlock = Some h.
Proof.
  intros Hm. rewrite disconnect_batch_ops, !apply_batch_app. set (m2 := apply_batch (map _ undo) _).
  change (apply_batch [BatchPut keyBestBlock h] m2) with (<[keyBestBlock := h]> m2).
  split; [|apply lookup_insert_eq]. apply mirrors_best. unfold m2, DisconnectBlock.
  assert (mirrors (apply_batch (coin_deletes (outpoints_of (blk_Transactions b))) m)
            (delete_keys us (disconnect_keys b))) as H0.
  { apply mirrors_deletes; [done|]. intros k. by rewrite (elem_disconnect_keys k 0), (outpoints_created 0). }
  revert H0. generalize (delete_keys us (disconnect_keys b)).
  generalize (apply_batch (coin_deletes (outpoints_of (blk_Transactions b))) m).
  induction undo as [|so undo IH]; intros m0 us0 H0; [done|]. cbn [map fold_left].
  change (apply_batch (BatchPut ?q ?v :: ?l) m0) with (apply_batch l (<[q := v]> m0)).
  apply IH. by apply mirrors_insert.
Qed.

(** ** The whole set written *)

Definition flush_batch (us : UtxoSet) (tip : Hash) : ChainstateWriteBatch :=
  wb_PutBestBlock (fold_left (fun wb '(txHash, index, entry) => wb_PutUtxo wb txHash index (ue_Serialize entry))
                     (ForEach us) []) tip.

Lemma flush_batch_ops us tip :
  map_Forall (fun k _ => length k = 36%nat) us ->
  flush_batch us tip
  = map (fun kv => BatchPut (Byte.x43 :: kv.1) (ue_Serialize kv.2)) (map_to_list us) ++ [BatchPut keyBestBlock tip].
Proof.
  intros Hk. unfold flush_batch, wb_PutBestBlock. f_equal.
  rewrite (fold_appends _ (fun '(h, i, e) => [BatchPut (utxoKey h i) (ue_Serialize e)])) by (by intros acc [[h i] e]).
  unfold ForEach. rewrite map_map. cbn [app].
  assert (Forall (fun kv => length kv.1 = 36%nat) (map_to_list us)) as Hl.
  { apply Forall_forall. intros [k e] Hin. apply elem_of_map_to_list in Hin. by apply (Hk k e). }
  induction Hl as [|[k e] l H36 Hl IH]; [done|]. cbn [map concat app fst snd] in *. rewrite IH. f_equal. f_equal.
  unfold utxoKey. rewrite Put32_ReadUintLE by (rewrite length_drop; lia). by rewrite take_drop.
Qed.

(** Written over a database whose coins are all in the set. *)
Lemma mirrors_flush m us tip :
  map_Forall (fun k _ => length k = 36%nat) us ->
  (forall k, m !! (Byte.x43 :: k) = None \/ m !! (Byte.x43 :: k) = ue_Serialize <$> us !! k) ->
  mirrors (apply_batch (flush_batch us tip) m) us
  /\ apply_batch (flush_batch us tip) m !! keyBestBlock = Some tip.
Proof.
  intros Hk Hm. rewrite flush_batch_ops, apply_batch_app by done. set (m2 := apply_batch (map _ _) m).
  change (apply_batch [BatchPut keyBestBlock tip] m2) with (<[keyBestBlock := tip]> m2).
  split; [|apply lookup_insert_eq]. apply mirrors_best. intros k. unfold m2.
  rewrite (apply_coin_puts us).
  - destruct (us !! k) as [e|] eqn:E.
    + rewrite bool_decide_true; [done|]. apply list_elem_of_fmap. exists (k, e). split; [done|].
      by apply elem_of_map_to_list.
    + destruct (Hm k) as [->| ->]; [done|]. by rewrite E.
  - intros op Hop. apply list_elem_of_fmap in Hop as ([k' e] & -> & Hin). apply elem_of_map_to_list in Hin. eauto.
Qed.

(** ** States that agree with the disk *)

Section synced.
Context {St : Type} `{BS : BlockStore St} {BL : BlockStoreLaws St} {PL : PersistLaws St} `{EC : ECOps}.
Implicit Types (s : St) (c : Chain St).

(** What is on disk besides the blocks: the recorded tip, and the chainstate. *)
Definition disk c : option (Hash * Z) * chainstate := persisted (c_store c).

Record coins_synced c : Prop := {
  cs_ptr : (c_utxoSet c < length (c_sets c))%nat;
  cs_coins : mirrors (disk c).2 (UtxoSet_of c) }.

Record synced c : Prop := {
  sy_coins : coins_synced c;
  sy_best : (disk c).2 !! keyBestBlock = Some (c_tipHash c);
  sy_tip : (disk c).1 = Some (c_tipHash c, c_tipHeight c) }.

(** Nothing that a restart depends on has changed. *)
Record calm c c' : Prop := {
  ca_disk : disk c' = disk c;
  ca_bhh : c_hashByHeight c' = c_hashByHeight c;
  ca_tip : c_tipHash c' = c_tipHash c;
  ca_height : c_tipHeight c' = c_tipHeight c }.

Lemma calm_refl c : calm c c.
Proof. done. Qed.
Lemma calm_trans c1 c2 c3 : calm c1 c2 -> calm c2 c3 -> calm c1 c3.
Proof. intros [? ? ? ?] [? ? ? ?]. constructor; congruence. Qed.

(** *** Steps that succeed *)

Lemma step_Ok {A B} (m : cM St A) (k : A -> cM St B) c b c' :
  sbind m k c = (Ok b, c') -> exists a c1, m c = (Ok a, c1) /\ k a c1 = (Ok b, c').
Proof. unfold sbind. destruct (m c) as [[a|e] c1]; [eauto|done]. Qed.

Lemma sread_Ok {A} w (f : St -> result StoreErr A) c a c' :
  sread w f c = (Ok a, c') -> f (c_store c) = Ok a /\ c' = c.
Proof. unfold sread. destruct (f (c_store c)); [|done]. by intros [= -> ->]. Qed.

Lemma slift_Ok {E A} w (r : result E A) c a (c' : Chain St) :
  slift (E := ChainErr) w r c = (Ok a, c') -> r = Ok a /\ c' = c.
Proof. unfold slift. destruct r; [|done]. by intros [= -> ->]. Qed.

Lemma swrite_Ok {A} w (f : St -> result StoreErr A * St) c a c' :
  swrite w f c = (Ok a, c') -> exists s', f (c_store c) = (Ok a, s') /\ c' = set_store s' c.
Proof. unfold swrite. destruct (f (c_store c)) as [[a'|e] s']; [|done]. intros [= -> <-]. eauto. Qed.

Lemma sfor_Ok {A} (l : list A) (body : A -> cM St unit) (I : Chain St -> Prop) c c' :
  (forall x c c', body x c = (Ok tt, c') -> I c -> I c') -> sfor l body c = (Ok tt, c') -> I c -> I c'.
Proof.
  intros Hb. revert c. induction l as [|x l IH]; intros c; cbn [sfor]; [by intros [= <-]|].
  intros H Hc. apply step_Ok in H as ([] & c1 & H1 & H). eauto.
Qed.

Lemma coins_flush c wb s' us :
  (c_utxoSet c < length (c_sets c))%nat -> FlushUtxoBatch (c_store c) wb = (Ok tt, s') ->
  mirrors (apply_batch wb (disk c).2) us -> coins_synced (set_store s' (set_utxo us c)).
Proof.
  intros Hp H Hm. apply FlushUtxoBatch_persist in H. constructor; [simpl; by rewrite length_insert|].
  rewrite UtxoSet_of_set by done. change (mirrors (persisted s').2 us). by rewrite H.
Qed.

Lemma disconnect_at_coins h c c' : disconnect_at h c = (Ok tt, c') -> coins_synced c -> coins_synced c'.
Proof.
  unfold disconnect_at. intros H [Hp Hm]. apply step_Ok in H as (c0 & c1 & [= <- <-] & H).
  destruct (c_hashByHeight c !! h) as [hash|]; [|by injection H as <-].
  apply step_Ok in H as (block & c1 & H1 & H). apply sread_Ok in H1 as [_ ->].
  apply step_Ok in H as (rec & c1 & H1 & H). apply sread_Ok in H1 as [_ ->].
  destruct (negb _); [done|]. apply step_Ok in H as (bs & c1 & H1 & H). apply sread_Ok in H1 as [_ ->].
  apply step_Ok in H as (undo & c1 & H1 & H). apply slift_Ok in H1 as [_ ->].
  apply step_Ok in H as ([] & c1 & [= <-] & H).
  unfold persistUtxoDisconnect in H. apply swrite_Ok in H as (s' & H & ->). simpl in H. apply (coins_flush _ _ _ _ Hp H).
  by apply mirrors_disconnect.
Qed.

Lemma unlink_at_coins h c c' : unlink_at h c = (Ok tt, c') -> coins_synced c -> coins_synced c'.
Proof. unfold unlink_at, smod. intros [= <-] [? ?]. by case_match. Qed.

Lemma connect_at_coins h hash undo c c' :
  connect_at h hash c = (Ok undo, c') -> coins_synced c ->
  coins_synced c' /\ (disk c').2 !! keyBestBlock = Some hash.
Proof.
  unfold connect_at. intros H [Hp Hm]. apply step_Ok in H as (block & c1 & H1 & H). apply sread_Ok in H1 as [_ ->].
  apply step_Ok in H as (c0 & c1 & [= <- <-] & H).
  apply step_Ok in H as (fees & c1 & H1 & H). apply slift_Ok in H1 as [_ ->].
  apply step_Ok in H as ([us undo'] & c1 & H1 & H). apply slift_Ok in H1 as [HC ->].
  apply step_Ok in H as ([] & c1 & [= <-] & H). apply step_Ok in H as ([] & c1 & H1 & H).
  apply step_Ok in H as ([] & c2 & [= <-] & H). injection H as <- <-.
  unfold persistUtxoChanges in H1. apply step_Ok in H1 as (c0 & c2 & [= <- <-] & H1).
  apply swrite_Ok in H1 as (s' & H1 & ->). cbn [c_store set_utxo set_sets] in H1.
  assert (UtxoSet_of (set_utxo us c) = us) as Eu by apply (UtxoSet_of_set us c (c_store c) Hp).
  rewrite Eu in H1. destruct (mirrors_connect _ _ _ _ _ _ hash Hm HC) as [Hm' Hb].
  destruct (coins_flush _ _ _ _ Hp H1 Hm') as [Hp' Hc']. split; [by constructor|].
  apply FlushUtxoBatch_persist in H1. change ((persisted s').2 !! keyBestBlock = Some hash). by rewrite H1.
Qed.

Lemma connect_all_coins hashes : forall h con con' c c',
  connect_all h hashes con c = (Ok con', c') -> coins_synced c ->
  coins_synced c' /\ match last hashes with
                     | Some hash => (disk c').2 !! keyBestBlock = Some hash
                     | None => True
                     end.
Proof.
  induction hashes as [|hash hashes IH]; intros h con con' c c'; cbn [connect_all]; [by intros [= <- <-]|].
  intros H Hc. apply step_Ok in H as (undo & c1 & H1 & H).
  apply connect_at_coins in H1 as [Hc1 Hb]; [|done]. destruct hashes as [|h2 hashes].
  - injection H as <- <-. done.
  - by apply (IH _ _ _ _ _ H).
Qed.

Lemma synced_store c s' : persisted s' = persisted (c_store c) -> synced c -> synced (set_store s' c).
Proof.
  intros E [[Hp Hm] Hb Ht]. unfold disk in *. rewrite <- E in Hm, Hb, Ht. by repeat constructor.
Qed.

Lemma record_undo_synced e c c' : record_undo e c = (Ok tt, c') -> synced c -> synced c'.
Proof.
  destruct e as [hash undo]. unfold record_undo. intros H Hs.
  apply step_Ok in H as (rec & c1 & H1 & H). apply sread_Ok in H1 as [_ ->].
  apply step_Ok in H as ([o k] & c1 & H1 & H). apply swrite_Ok in H1 as (s1 & H1 & ->).
  apply swrite_Ok in H as (s2 & H & ->). apply WriteUndo_persist in H1. apply PutBlockIndex_persist in H.
  simpl in H. rewrite set_store_set. apply synced_store; [congruence|done].
Qed.

Lemma reorg_walk_head fuel c cur acc nc : reorg_walk fuel c cur acc = Ok nc -> exists l, nc = acc ++ l.
Proof.
  revert cur acc. induction fuel as [|fuel IH]; intros cur acc; cbn [reorg_walk]; [done|].
  intros H. apply rbind_Ok in H as (block & _ & H). destruct (match c_heightByHash c !! _ with Some _ => _ | None => _ end).
  - injection H as <-. exists []. by rewrite app_nil_r.
  - apply IH in H as [l ->]. eexists. by rewrite <- app_assoc.
Qed.

(** The tip recorded on a chain whose coins are on disk. *)
Lemma tip_synced c h n w hbh bhh s' :
  wf_hash h -> is_u32 n -> coins_synced c -> (disk c).2 !! keyBestBlock = Some h ->
  PutChainTip (c_store c) h n = (Ok tt, s') -> synced (set_main h n w hbh bhh (set_store s' c)).
Proof.
  intros Hh Hn [Hp Hm] Hb H. apply PutChainTip_persist in H; [|done]. cbn [is_ok] in H.
  constructor; [constructor; [done|]| |]; unfold disk in *.
  - change (mirrors (persisted s').2 (UtxoSet_of c)). by rewrite H.
  - change ((persisted s').2 !! keyBestBlock = Some h). by rewrite H.
  - change ((persisted s').1 = Some (h, n)). rewrite H. simpl. by rewrite u32_small.
Qed.

Lemma reorg_body_synced h n w c c' :
  wf_hash h -> is_u32 n -> coins_synced c -> reorg_body h n w c = (Ok tt, c') -> synced c'.
Proof.
  intros Hh Hn Hc H. unfold reorg_body in H. apply step_Ok in H as (c0 & c1 & [= <- <-] & H).
  apply step_Ok in H as (nc & c1 & H1 & H). apply slift_Ok in H1 as [Hw ->].
  destruct (GetBlock (c_store c) _) as [fb|]; [|done]. destruct (_ && _); [done|].
  apply step_Ok in H as ([] & c1 & H1 & H). apply (sfor_Ok _ _ coins_synced) in H1; [|by apply disconnect_at_coins|done].
  apply step_Ok in H as ([] & c2 & H2 & H). apply (sfor_Ok _ _ coins_synced) in H2; [|by apply unlink_at_coins|done].
  apply step_Ok in H as (con & c3 & H3 & H). apply connect_all_coins in H3 as [Hc3 Hb]; [|done].
  apply reorg_walk_head in Hw as [l ->]. change ([h] ++ l) with (h :: l) in Hb. cbn [rev] in Hb.
  rewrite last_snoc in Hb. apply step_Ok in H as ([] & c4 & H4 & H). apply swrite_Ok in H4 as (s4 & H4 & ->).
  apply step_Ok in H as ([] & c5 & [= <-] & H).
  apply (sfor_Ok _ _ synced) in H; [done|by apply record_undo_synced|]. by apply (tip_synced c3).
Qed.

Lemma reorg_synced h n w c c' :
  wf_hash h -> is_u32 n -> coins_synced c -> reorg h n w c = (Ok tt, c') -> synced c'.
Proof.
  intros Hh Hn [Hp Hm]. unfold reorg, cloneUtxoSet.
  destruct (reorg_body h n w _) as [[[]|e] c2] eqn:E; [|done]. intros [= <-].
  apply (reorg_body_synced _ _ _ _ _ Hh Hn) in E; [done|]. constructor.
  - simpl. rewrite length_app. lia.
  - unfold disk, UtxoSet_of, set_at in *. simpl in *. rewrite list_lookup_total_alt, lookup_app_l by done.
    by rewrite <- list_lookup_total_alt.
Qed.

(** *** Extending the tip *)

Lemma or_disconnect_Ok {A} b u (m : cM St A) c a c' : or_disconnect b u m c = (Ok a, c') -> m c = (Ok a, c').
Proof. unfold or_disconnect. destruct (m c) as [[x|e] c1]; [|done]. by intros [= -> ->]. Qed.

Lemma extend_tip_synced b h n w r c c' :
  wf_hash h -> is_u32 n -> coins_synced c -> extend_tip b h n w r c = (Ok tt, c') -> synced c'.
Proof.
  intros Hh Hn [Hp Hm] H. unfold extend_tip in H. apply step_Ok in H as (undo & c1 & H1 & H).
  unfold connect_tip in H1. apply step_Ok in H1 as (c0 & c2 & [= <- <-] & H1).
  apply step_Ok in H1 as (fees & c2 & H2 & H1). apply slift_Ok in H2 as [_ ->].
  apply step_Ok in H1 as ([us undo'] & c2 & H2 & H1). apply slift_Ok in H2 as [HC ->].
  apply step_Ok in H1 as ([] & c2 & [= <-] & H1). injection H1 as -> <-.
  apply step_Ok in H as ([o k] & c1 & H1 & H). apply or_disconnect_Ok, swrite_Ok in H1 as (s1 & H1 & ->).
  apply step_Ok in H as ([] & c1 & H2 & H). apply or_disconnect_Ok, swrite_Ok in H2 as (s2 & H2 & ->).
  apply step_Ok in H as ([] & c1 & H3 & H). apply or_disconnect_Ok in H3.
  unfold persistUtxoChanges in H3. apply step_Ok in H3 as (c0 & c2 & [= <- <-] & H3).
  apply swrite_Ok in H3 as (s3 & H3 & ->). apply step_Ok in H as ([] & c1 & H4 & [= <-]).
  apply swrite_Ok in H4 as (s4 & H4 & ->). rewrite !set_store_set in *. simpl in H1, H2, H3, H4.
  rewrite UtxoSet_of_set in H3 by done. apply WriteUndo_persist in H1. apply PutBlockIndex_persist in H2.
  destruct (mirrors_connect _ _ _ _ _ _ h Hm HC) as [Hm' Hb]. unfold disk in Hm', Hb. rewrite <- H1, <- H2 in Hm', Hb.
  pose proof (coins_flush (set_store s2 c) _ _ us Hp H3 Hm') as Hc3.
  change (set_store s3 (set_utxo us (set_store s2 c))) with (set_store s3 (set_utxo us c)) in Hc3.
  change (synced (set_main h n w (<[h:=n]> (c_heightByHash c)) (<[n:=h]> (c_hashByHeight c))
    (set_store s4 (set_store s3 (set_utxo us c))))).
  apply tip_synced; try done. apply FlushUtxoBatch_persist in H3. unfold disk.
  change ((persisted s3).2 !! keyBestBlock = Some h). by rewrite H3.
Qed.
End synced.

(** ** Steps that change nothing of it *)

Section still.
Context {St : Type} `{BS : BlockStore St} {BL : BlockStoreLaws St} {PL : PersistLaws St}.
Context `{EN : Engine} `{EC : ECOps} (env : Env).
Implicit Types (s : St) (c : Chain St).

(** [calm], and the unspent set is the same object with the same coins. *)
Record still c c' : Prop := {
  st_calm : calm c c';
  st_sets : c_sets c' = c_sets c;
  st_uptr : c_utxoSet c' = c_utxoSet c }.

Lemma still_refl c : still c c.
Proof. done. Qed.
Lemma still_trans c1 c2 c3 : still c1 c2 -> still c2 c3 -> still c1 c3.
Proof. intros [? ? ?] [? ? ?]. constructor; [by eapply calm_trans|congruence|congruence]. Qed.

Lemma still_coins c c' : still c c' -> coins_synced c -> coins_synced c'.
Proof.
  intros [[Ed _ _ _] Es Eu] [Hp Hm]. constructor; [by rewrite Es, Eu|].
  unfold UtxoSet_of, set_at in *. by rewrite Ed, Es, Eu.
Qed.

Lemma calm_synced c c' : calm c c' -> coins_synced c' -> synced c -> synced c'.
Proof. intros [Ed _ Et Eh] Hc [_ Hb Ht]. constructor; [done|by rewrite Ed, Et|by rewrite Ed, Et, Eh]. Qed.

Class Still {A} (m : cM St A) : Prop := is_still : forall c, still c (m c).2.

#[global] Instance still_ret {A} (a : A) : Still (cret a).
Proof. by intros c. Qed.
#[global] Instance still_fail {A} e : Still (cfail e : cM St A).
Proof. by intros c. Qed.
#[global] Instance still_get : Still cget.
Proof. by intros c. Qed.
#[global] Instance still_lift {E A} (w : E -> ChainErr) (r : result E A) : Still (clift w r).
Proof. by intros c. Qed.
#[global] Instance still_read {A} w (f : St -> result StoreErr A) : Still (sread w f).
Proof. by intros c. Qed.
#[global] Instance still_now : Still (Now env).
Proof. by intros c. Qed.
#[global] Instance still_wall : Still (WallNow env).
Proof. by intros c. Qed.
#[global] Instance still_known h n : Still (known_at h n).
Proof. by intros c. Qed.
#[global] Instance still_bind {A B} (m : cM St A) (k : A -> cM St B) :
  Still m -> (forall a, Still (k a)) -> Still (cbind m k).
Proof.
  intros Hm Hk c. unfold cbind, sbind. specialize (Hm c). destruct (m c) as [[a|e] c1]; [|done].
  eapply still_trans; [exact Hm|apply Hk].
Qed.

Lemma still_write {A} w (f : St -> result StoreErr A * St) :
  (forall s, persisted (f s).2 = persisted s) -> Still (swrite w f).
Proof.
  intros Hf c. unfold swrite. specialize (Hf (c_store c)). by destruct (f (c_store c)) as [r s'].
Qed.
#[global] Instance still_WriteBlock w h b : Still (swrite w (fun s => WriteBlock s h b)).
Proof. apply still_write. intros s. destruct (WriteBlock s h b) eqn:E. by eapply WriteBlock_persist. Qed.
#[global] Instance still_WriteUndo w f bs : Still (swrite w (fun s => WriteUndo s f bs)).
Proof. apply still_write. intros s. destruct (WriteUndo s f bs) eqn:E. by eapply WriteUndo_persist. Qed.
#[global] Instance still_PutBlockIndex w h r : Still (swrite w (fun s => PutBlockIndex s h r)).
Proof. apply still_write. intros s. destruct (PutBlockIndex s h r) eqn:E. by eapply PutBlockIndex_persist. Qed.

#[global] Instance still_check_header b ph n m : Still (check_header b ph n m).
Proof. unfold check_header. apply still_bind; [apply _|]. intros c. apply still_lift. Qed.
#[global] Instance still_check_block b ph n m t : Still (check_block b ph n m t).
Proof.
  unfold check_block. apply still_bind; [apply _|]. intros c. apply still_bind; [apply _|]. intros. apply still_lift.
Qed.
#[global] Instance still_chain_work b : Still (chain_work b).
Proof.
  unfold chain_work, workForParentChain. apply still_bind; [|intros; apply _].
  apply still_bind; [apply _|]. intros r. destruct (bi_ChainWork r); apply _.
Qed.
#[global] Instance still_add_orphan b h : Still (add_orphan env b h).
Proof.
  unfold add_orphan, evictExpiredOrphans. apply still_bind; [by intros c|]. intros _.
  apply still_bind; [apply _|]. intros c1. apply still_bind; [|by intros _ c].
  destruct (_ >=? _); [|apply _]. intros c. unfold evictRandomOrphan. by destruct (_ !! _).
Qed.

(** No block in the orphan pool waits for the block with hash [h]. *)
Definition no_child c (h : Hash) : Prop :=
  forall k ob, c_orphans c !! k = Some ob -> hdr_PrevBlock (blk_Header (ob_block ob)) <> h.

Lemma processOrphans_still c h : no_child c h -> still c (processOrphans env h c).2.
Proof.
  intros Hn. unfold processOrphans. cbn [snd]. cbn [orphan_loop].
  destruct (take_children_spec h c) as (l & -> & Hl).
  assert (filter (is_child h) (map_to_list (c_orphans c)) = []) as E.
  { destruct (filter _ _) as [|[k ob] l'] eqn:E; [done|]. exfalso.
    assert ((k, ob) ∈ filter (is_child h) (map_to_list (c_orphans c))) as H by (rewrite E; apply list_elem_of_here).
    apply list_elem_of_filter in H as [Hc Hin]. apply elem_of_map_to_list in Hin. by apply (Hn k ob Hin). }
  rewrite E in Hl. apply Permutation_nil_r in Hl as ->. cbn [orphan_batch].
  by destruct (size (c_orphans c)).
Qed.

(** *** An extension that fails *)

Context (Htip : forall s h n, (PutChainTip s h n).1 = Ok tt).

Lemma sbind_cases {A B} (m : cM St A) (k : A -> cM St B) c r c' :
  sbind m k c = (r, c') ->
  (exists e, r = Err e /\ m c = (Err e, c')) \/ exists a c1, m c = (Ok a, c1) /\ k a c1 = (r, c').
Proof. unfold sbind. destruct (m c) as [[a|e] c1]; [eauto|]. intros [= <- <-]. eauto. Qed.

Lemma still_result {A} (m : cM St A) c r c' : Still m -> m c = (r, c') -> still c c'.
Proof. intros Hm E. specialize (Hm c). by rewrite E in Hm. Qed.

Lemma or_disconnect_calm {A} b u (m : cM St A) c r c' :
  (forall r1 c1, m c = (r1, c1) -> calm c c1) -> or_disconnect b u m c = (r, c') -> calm c c'.
Proof.
  unfold or_disconnect. intros H. destruct (m c) as [[a|e] c1]; intros [= <- <-]; [by eapply H|].
  destruct (H _ _ eq_refl). done.
Qed.

Lemma connect_tip_calm b n c r c' : connect_tip b n c = (r, c') -> calm c c'.
Proof.
  unfold connect_tip, cbind, sbind, cget, sget, clift, slift. destruct (rwrap _ _); [|by intros [= <- <-]].
  destruct (rwrap _ _) as [[us undo]|]; by intros [= <- <-].
Qed.

Lemma persist_fails b u h c e c' : persistUtxoChanges b u h c = (Err e, c') -> calm c c'.
Proof.
  unfold persistUtxoChanges, cbind, sbind, cget, sget, swrite.
  destruct (FlushUtxoBatch _ _) as [[[]|e'] s'] eqn:E; intros [= <- <-]. constructor; try done.
  by apply FlushUtxoBatch_persist in E.
Qed.

Lemma extend_tip_fails b h n w r c e c' : extend_tip b h n w r c = (Err e, c') -> calm c c'.
Proof.
  intros H. unfold extend_tip in H.
  apply sbind_cases in H as [(e1 & _ & H)|(undo & c1 & H1 & H)]; [by eapply connect_tip_calm|].
  apply connect_tip_calm in H1. eapply calm_trans; [exact H1|]. clear H1.
  apply sbind_cases in H as [(e1 & _ & H)|([o k] & c2 & H1 & H)].
  { eapply or_disconnect_calm, H. intros r1 c3 E. exact (st_calm _ _ (still_result _ _ _ _ _ E)). }
  apply or_disconnect_Ok, still_result in H1; [|apply _]. eapply calm_trans; [apply H1|]. clear H1.
  apply sbind_cases in H as [(e1 & _ & H)|([] & c3 & H1 & H)].
  { eapply or_disconnect_calm, H. intros r1 c4 E. exact (st_calm _ _ (still_result _ _ _ _ _ E)). }
  apply or_disconnect_Ok, still_result in H1; [|apply _]. eapply calm_trans; [apply H1|]. clear H1.
  apply sbind_cases in H as [(e1 & [= <-] & H)|([] & c4 & H1 & H)].
  { unfold or_disconnect in H. destruct (persistUtxoChanges b undo h c3) as [[[]|e2] c4] eqn:E; [done|].
    injection H as <- <-. apply persist_fails in E. by destruct E. }
  exfalso. unfold extendChain, cbind, sbind, swrite in H. pose proof (Htip (c_store c4) h n) as Ht.
  destruct (PutChainTip (c_store c4) h n) as [x s']. cbn [fst] in Ht. by subst x.
Qed.

(** *** [ProcessBlock] *)

(** The block was to become the tip by a reorganisation, which failed. *)
Definition reorg_failed (r : result ChainErr Z) : bool :=
  match r with Err (ReorgFailed _ _) | Err (SideChainDeep _ _) => true | _ => false end.

Lemma pool_result {A} (m : cM St A) c r c' : KeepsPool m -> m c = (r, c') -> c_orphans c' = c_orphans c.
Proof. intros Hm E. specialize (Hm c). by rewrite E in Hm. Qed.

#[global] Instance pool_extend_tip b h n w r : KeepsPool (extend_tip b h n w r).
Proof. unfold extend_tip, connect_tip. solve_pool. Qed.

Lemma no_child_pool c c' h : c_orphans c' = c_orphans c -> no_child c h -> no_child c' h.
Proof. intros E H k ob. rewrite E. apply H. Qed.

Lemma processOrphans_synced c h : no_child c h -> synced c -> synced (processOrphans env h c).2.
Proof.
  intros Hn Hs. pose proof (processOrphans_still c h Hn) as Ht.
  eapply calm_synced; [apply Ht| |done]. eapply still_coins; [exact Ht|apply Hs].
Qed.

(** What becomes of a block whose header and parent are in order. *)
Lemma accept_disk c0 c b n w rec r c' :
  c_tipHash c0 = c_tipHash c -> is_u32 n -> coins_synced c -> no_child c (block_hash b) ->
  accept env c0 b n w rec c = (r, c') -> reorg_failed r = false -> calm c c' \/ synced c'.
Proof.
  intros Et Hn Hc Hch H Hr. pose proof (wf_DoubleSHA256 (hdr_SerializeToBytes (blk_Header b))) as Hh.
  change (DoubleSHA256 _) with (block_hash b) in Hh. unfold accept in H. destruct (bool_decide _).
  - apply sbind_cases in H as [(e & -> & H)|([] & c1 & H1 & H)]; [left; by eapply extend_tip_fails|right].
    pose proof (pool_result _ _ _ _ _ H1) as Hp. apply extend_tip_synced in H1; [|done..].
    injection H as <- <-. apply (processOrphans_synced c1); [by eapply no_child_pool|done].
  - destruct (heavier c0 w (block_hash b)).
    + apply sbind_cases in H as [(e & -> & H)|([] & c1 & H1 & H)]; [left; by apply still_result in H as []; [|apply _]|].
      pose proof (pool_result _ _ _ _ _ H1) as Hp. apply still_result in H1; [|apply _]. unfold side_reorg in H.
      destruct (reorg (block_hash b) n w c1) as [[[]|e] c2] eqn:E.
      * right. pose proof (pool_result _ _ _ _ _ E) as Hp2.
        apply reorg_synced in E; [|done|done|by eapply still_coins]. injection H as <- <-.
        apply (processOrphans_synced c2); [|done]. eapply no_child_pool, Hch. congruence.
      * destruct (is_too_deep e); injection H as <- <-; done.
    + left. apply sbind_cases in H as [(e & -> & H)|([] & c1 & H1 & H)]; [by apply still_result in H as []; [|apply _]|].
      pose proof (pool_result _ _ _ _ _ H1) as Hp. apply still_result in H1; [|apply _]. injection H as <- <-.
      eapply calm_trans; [apply H1|]. apply (still_trans _ (known_at (block_hash b) n c1).2); [apply still_known|].
      apply (processOrphans_still (known_at (block_hash b) n c1).2). by apply (no_child_pool c).
Qed.

(** A step on the way that changes nothing. *)
Definition unmoved c c' : Prop := still c c' /\ c_orphans c' = c_orphans c.

Lemma unmoved_step {A B} (m : cM St A) (k : A -> cM St B) c0 c1 r c' :
  Still m -> KeepsPool m -> unmoved c0 c1 -> sbind m k c1 = (r, c') ->
  calm c0 c' \/ exists a c2, unmoved c0 c2 /\ k a c2 = (r, c').
Proof.
  intros Hm Hp [Hs Ho] H. apply sbind_cases in H as [(e & -> & H)|(a & c2 & H1 & H)].
  - left. eapply st_calm, still_trans; [exact Hs|by eapply still_result].
  - right. exists a, c2. split; [|done]. split; [eapply still_trans; [exact Hs|by eapply still_result]|].
    rewrite <- Ho. by eapply pool_result.
Qed.

#[global] Instance pool_check_header b ph n m : KeepsPool (check_header b ph n m).
Proof. unfold check_header. solve_pool. Qed.
#[global] Instance pool_check_block b ph n m t : KeepsPool (check_block b ph n m t).
Proof. unfold check_block. solve_pool. Qed.
#[global] Instance pool_chain_work b : KeepsPool (chain_work b).
Proof. unfold chain_work, workForParentChain. solve_pool. Qed.

Lemma ProcessBlock_disk c b r c' :
  coins_synced c -> no_child c (block_hash b) -> ProcessBlock env b c = (r, c') -> reorg_failed r = false ->
  calm c c' \/ synced c'.
Proof.
  intros Hc Hch H Hr. unfold ProcessBlock in H.
  apply sbind_cases in H as [(e & -> & H)|(c0 & c1 & [= <- <-] & H)]; [done|].
  destruct (c_heightByHash c !! block_hash b); [injection H as _ <-; by left|].
  destruct (c_orphans c !! block_hash b); [injection H as _ <-; by left|].
  destruct (c_heightByHash c !! hdr_PrevBlock (blk_Header b)) as [ph|].
  2:{ left. eapply st_calm, still_result, H. apply still_bind; [apply _|]. intros _. apply still_bind; intros; apply _. }
  change (fun c1 => match reorg (block_hash b) ?n ?w c1 with (Ok _, _) => _ | (Err _, _) => _ end)
    with (side_reorg env (block_hash b) n w) in H.
  assert (unmoved c c) as Hu by done.
  apply (unmoved_step _ _ c) in H as [?|(hd & c1 & Hu1 & H)]; [by left|..|done]; try apply _.
  apply (unmoved_step _ _ c) in H as [?|(now & c2 & Hu2 & H)]; [by left|..|done]; try apply _.
  apply (unmoved_step _ _ c) in H as [?|([] & c3 & Hu3 & H)]; [by left|..|done]; try apply _.
  apply (unmoved_step _ _ c) in H as [?|([] & c4 & Hu4 & H)]; [by left|..|done]; try apply _.
  apply (unmoved_step _ _ c) in H as [?|(w & c5 & Hu5 & H)]; [by left|..|done]; try apply _.
  apply (unmoved_step _ _ c) in H as [?|(loc & c6 & [Hs Ho] & H)]; [by left|..|done]; try apply _.
  pose proof (ca_tip _ _ (st_calm _ _ Hs)) as Et.
  destruct (accept_disk c c6 b (add32 ph 1) w (new_record b (add32 ph 1) loc w) r c') as [Hk|Hk]; try done.
  - apply u32_range.
  - by eapply still_coins.
  - by eapply no_child_pool.
  - left. eapply calm_trans; [apply Hs|done].
  - by right.
Qed.
End still.

(** ** Synced runs *)

Section synced_runs.
Context {St : Type} `{BS : BlockStore St} {BL : BlockStoreLaws St} {PL : PersistLaws St}.
Context `{EN : Engine} {EL : EngineLaws} `{EC : ECOps} (env : Env).
Context (p : ChainParams) (U : list Block) (HU : universe p U).
Context (Htip : forall (s : St) h n, (PutChainTip s h n).1 = Ok tt).
#[local] Abbreviation genesis := (p_GenesisBlock p).
Implicit Types (s : St) (c : Chain St).

(** The active chain determines the unspent set. *)
Lemma calm_utxo c c' : chain_inv p U c -> chain_inv p U c' -> calm c c' -> UtxoSet_of c' = UtxoSet_of c.
Proof.
  intros Hc Hc' [_ Eb _ _]. destruct (ci_main _ _ _ Hc) as [bs (Ha & _)], (ci_main _ _ _ Hc') as [bs' (Ha' & _)].
  rewrite Eb in Ha'. assert (bs = bs') as <- by (by eapply (active_unique p U HU)).
  pose proof (ac_replay _ _ _ _ _ _ _ Ha). pose proof (ac_replay _ _ _ _ _ _ _ Ha'). congruence.
Qed.

Lemma ProcessBlock_synced c b :
  chain_inv p U c -> b ∈ U -> live (ProcessBlock env b c).2 -> synced c -> no_child c (block_hash b) ->
  reorg_failed (ProcessBlock env b c).1 = false -> synced (ProcessBlock env b c).2.
Proof.
  intros Hc Hb L Hs Hn Hr. destruct (ProcessBlock_wp env p U HU Htip c b Hc Hb L) as [Hc' _].
  destruct (ProcessBlock env b c) as [r c'] eqn:E. cbn [fst snd] in *.
  destruct (ProcessBlock_disk env Htip c b r c' (sy_coins _ Hs) Hn E Hr) as [Hk|]; [|done].
  eapply calm_synced; [exact Hk| |done]. constructor; [apply Hc'|].
  rewrite (calm_utxo c c' Hc Hc' Hk), (ca_disk _ _ Hk). apply Hs.
Qed.

(** A store without blocks and without coins. *)
Definition blank_store s : Prop :=
  empty_store s /\ forall k, (persisted s).2 !! (Byte.x43 :: k) = None.

Lemma chain_inv_keys c : chain_inv p U c -> map_Forall (fun k _ => length k = 36%nat) (UtxoSet_of c).
Proof.
  intros Hc. destruct (ci_main _ _ _ Hc) as [bs (Ha & _)].
  intros k e Hk. by apply (active_coins p U HU _ _ _ _ _ (ci_index _ _ _ Hc) Ha k e).
Qed.

Lemma Init_synced s c : blank_store s -> Init (New p s) = (Ok tt, c) -> live c -> synced c.
Proof.
  intros [He Hm] H L. pose proof (Init_empty p U HU s c He H L) as Hc.
  destruct He as (_ & _ & e & Et). pose proof (chain_inv_keys c Hc) as Hk.
  unfold Init in H. apply step_Ok in H as (c0 & c1 & [= <- <-] & H). cbn [c_store New] in H. rewrite Et in H.
  unfold initGenesis in H. apply step_Ok in H as (c0 & c1 & [= <- <-] & H). destruct (_ && _); [done|].
  apply step_Ok in H as ([[f o] k] & c1 & H1 & H). apply swrite_Ok in H1 as (s1 & H1 & ->).
  apply step_Ok in H as ([] & c1 & H2 & H). apply swrite_Ok in H2 as (s2 & H2 & ->).
  apply step_Ok in H as ([] & c1 & H3 & H). apply swrite_Ok in H3 as (s3 & H3 & ->).
  apply step_Ok in H as ([] & c1 & [= <-] & H). apply step_Ok in H as ([] & c1 & [= <-] & H).
  unfold flushUtxoSetToChainstate in H. apply step_Ok in H as (c0 & c1 & [= <- <-] & H).
  apply swrite_Ok in H as (s4 & H4 & ->).
  match type of H4 with FlushUtxoBatch ?s0 ?wb = _ =>
    change (FlushUtxoBatch s3 (flush_batch (ConnectGenesis NewSet genesis) (block_hash genesis)) = (Ok tt, s4)) in H4 end.
  match goal with |- synced ?c => change (UtxoSet_of c) with (ConnectGenesis NewSet genesis) in Hk end.
  apply WriteBlock_persist in H1. apply PutBlockIndex_persist in H2. cbn [c_store set_store New] in H1, H2, H3.
  apply PutChainTip_persist in H3; [|apply wf_DoubleSHA256]. apply FlushUtxoBatch_persist in H4.
  cbn [is_ok] in H3, H4. rewrite H3, H2, H1 in H4. cbn [fst snd] in H4.
  destruct (mirrors_flush (persisted s).2 _ (block_hash genesis) Hk) as [Hm' Hb]; [by left|].
  constructor; [constructor; [simpl; lia|]| |]; unfold disk.
  - change (mirrors (persisted s4).2 (ConnectGenesis NewSet genesis)). by rewrite H4.
  - change ((persisted s4).2 !! keyBestBlock = Some (block_hash genesis)). by rewrite H4.
  - change ((persisted s4).1 = Some (block_hash genesis, 0)). by rewrite H4.
Qed.
End synced_runs.
