(* ===== verification/Restart.v ===== *)
(** * Starting again

    [chain.go]'s [Init] on a store that already has blocks: the index read back, the walk
    from the recorded tip, and the unspent set loaded from the chainstate or rebuilt from
    the blocks.  On the store of a state that is synced ([Persist.v]) it gives that state
    again, so stopping and starting the node changes nothing ([restart_exact]); when the
    chainstate is one step ahead of the recorded tip, it catches up
    ([crash_recovered]). *)
From stdpp Require Import sorting.
From S2P Require Import Prelude Types Sha256 Crypto Target Params Script Utxo TxValidation.
From S2P Require Import BlockValidation Pow Ledger Store FileLaws Chain ChainInv Reorg Accept ChainSafety.
From S2P Require Import Miner ChainProps Persist.
#[local] Open Scope Z_scope.
#[local] Open Scope go_scope.

(** What a restart reports when the store cannot be read or written. *)
Definition read_error (e : ChainErr) : bool :=
  match e with
  | LoadIndex _ _ | LoadBlock _ | IterateIndex _ | PersistUtxo _ | StoreTip _ => true
  | _ => false
  end.

Section mono.
Context {St : Type} `{BS : BlockStore St} {BL : BlockStoreLaws St} `{EC : ECOps}.

#[global] Instance mono_flush : Mono flushUtxoSetToChainstate.
Proof. unfold flushUtxoSetToChainstate. solve_mono. Qed.
#[global] Instance mono_rebuild_at h : Mono (rebuild_at h).
Proof. unfold rebuild_at. solve_mono. Qed.
#[global] Instance mono_rebuild : Mono rebuildUtxoSet.
Proof. unfold rebuildUtxoSet. solve_mono. Qed.
#[global] Instance mono_load : Mono loadUtxoSetFromChainstate.
Proof.
  unfold loadUtxoSetFromChainstate. apply mono_bind; [apply _|]. intros c. destruct (ForEachUtxo _) as [l err].
  apply mono_bind; [|intros; destruct err; apply _]. apply mono_cfor. intros [[h i] data]. solve_mono.
Qed.
#[global] Instance mono_load_or_rebuild : Mono load_or_rebuild.
Proof.
  intros c. unfold load_or_rebuild. pose proof (mono_load c) as H.
  destruct (loadUtxoSetFromChainstate c) as [[[]|e] c1]; [done|]. intros L. apply H. by apply mono_rebuild in L.
Qed.
#[global] Instance mono_index_walk n h cur : Mono (index_walk n h cur).
Proof.
  revert h cur. induction n as [|n IH]; intros h cur; cbn [index_walk]; (apply mono_bind; [solve_mono|]; intros _);
    (apply mono_bind; [solve_mono|]; intros r); (apply mono_bind; [solve_mono|]; intros _); [apply _|apply IH].
Qed.
End mono.

(** ** What a store holds of a chain *)

Section stored.
Context {St : Type} `{BS : BlockStore St} {BL : BlockStoreLaws St} `{EC : ECOps}.
Context (p : ChainParams) (U : list Block) (HU : universe p U).
#[local] Abbreviation genesis := (p_GenesisBlock p).
#[local] Abbreviation idx s := (v_index (st_view s)).
Implicit Types (s : St) (c : Chain St).

(** The blocks [bs] above the genesis block are in the index, and [us] is their replay. *)
Record stored s (bs : list Block) (us : UtxoSet) : Prop := {
  sd_ok : st_ok s;
  sd_index : index_ok p U s;
  sd_genesis : exists r, idx s !! block_hash genesis = Some r /\ bi_Height r = 0;
  sd_linked : linked p U s (block_hash genesis) 1 bs;
  sd_replay : replay p bs = Some us;
  sd_undo : forall i b, bs !! i = Some b -> undo_ok p s bs i b }.

Lemma chain_stored c bs : chain_inv p U c -> main_of p U c bs -> stored (c_store c) bs (UtxoSet_of c).
Proof. intros Hc ([Hg Hl Hb Hh Hr] & _ & _ & _ & Hu). by constructor; [apply Hc|apply Hc|..]. Qed.

Lemma stored_rel s s' bs us : store_rel (fun _ => True) s s' -> stored s bs us -> stored s' bs us.
Proof.
  intros R [Ho Hi Hg Hl Hr Hu]. constructor; try done.
  - apply R.
  - by eapply rel_index_ok.
  - by eapply rel_stored.
  - by eapply rel_linked.
  - intros i b Hb. by eapply (rel_undo_ok p (fun _ => True)); [exact R|done|apply Hu].
Qed.

Lemma zero_absent s : index_ok p U s -> idx s !! ZeroHash = None.
Proof.
  intros Hi. destruct (idx s !! ZeroHash) as [r|] eqn:E; [|done]. destruct (Hi _ _ E) as [b Hb].
  pose proof (un_nonzero _ _ HU) as Hz. rewrite Forall_forall in Hz. exfalso.
  apply (Hz b (ro_in _ _ _ _ _ _ Hb)), (ro_hash _ _ _ _ _ _ Hb).
Qed.

Lemma genesis_rec s r :
  index_ok p U s -> idx s !! block_hash genesis = Some r ->
  rec_ok p U s (block_hash genesis) r genesis /\ bi_Height r = 0
  /\ bi_ChainWork r = Some (CalcWork (hdr_Bits (blk_Header genesis))).
Proof.
  intros Hi Hr. destruct (Hi _ _ Hr) as [b Hb].
  assert (b = genesis) as ->.
  { eapply (rec_unique p U HU); [exact Hb|apply (un_genesis _ _ HU)|apply (un_genesis_valid _ _ HU)|done]. }
  split; [done|]. destruct (ro_parent _ _ _ _ _ _ Hb) as [(_ & ? & ?)|(pr & w & Hpr & _)]; [done|].
  rewrite (un_genesis_prev _ _ HU), zero_absent in Hpr by done. done.
Qed.

(** The work of the chain. *)
Definition chain_works (bs : list Block) : Z :=
  sumZ (map (fun b => CalcWork (hdr_Bits (blk_Header b))) (genesis :: bs)).

Lemma chain_works_snoc bs b : chain_works (bs ++ [b]) = chain_works bs + CalcWork (hdr_Bits (blk_Header b)).
Proof. unfold chain_works. rewrite app_comm_cons, map_app, sumZ_app. cbn [map]. simpl sumZ. lia. Qed.

(** The record of the last block of a chain. *)
Lemma tip_rec s bs us :
  stored s bs us -> exists r b, idx s !! last_hash (block_hash genesis) bs = Some r
    /\ rec_ok p U s (last_hash (block_hash genesis) bs) r b
    /\ b = List.last bs genesis /\ bi_Height r = len bs /\ bi_ChainWork r = Some (chain_works bs).
Proof.
  intros [_ Hi (g & Hg & _) Hl _ _]. clear us. revert Hl. induction bs as [|b bs IH] using rev_ind; intros Hl.
  - destruct (genesis_rec s g Hi Hg) as (Hrec & Hh & Hw). exists g, genesis. split_and!; try done.
    rewrite Hw. unfold chain_works. simpl. f_equal. lia.
  - apply linked_app in Hl as [Hl0 (Hprev & Hin & Hv & (r & Hr & Hh) & _)].
    destruct (IH Hl0) as (pr & pb & Hpr & _ & _ & Hph & Hpw). rewrite last_hash_snoc, last_last.
    destruct (Hi _ _ Hr) as [b' Hb']. assert (b' = b) as -> by (by eapply (rec_unique p U HU)).
    exists r, b. split_and!; try done; [rewrite Hh, length_app; simpl; lia|].
    destruct (ro_parent _ _ _ _ _ _ Hb') as [(E & E0 & _)|(pr' & w & Hpr' & _ & Hw1 & Hw2)]; [lia|].
    rewrite Hprev in Hpr'. assert (pr' = pr) as -> by congruence. rewrite Hw2, chain_works_snoc. congruence.
Qed.

Lemma stored_prefix s bs us k : stored s bs us -> exists us', stored s (take k bs) us'.
Proof.
  intros [Ho Hi Hg Hl Hr Hu]. rewrite <- (take_drop k bs) in Hl, Hr. apply linked_app in Hl as [Hl _].
  destruct (replay_prefix _ _ _ _ Hr) as [us' Hr']. exists us'. constructor; try done.
  intros i b Hb. pose proof Hb as Hb'. apply lookup_lt_Some in Hb'. rewrite length_take in Hb'.
  rewrite lookup_take_lt in Hb by lia.
  rewrite <- (app_nil_r (take k bs)). apply (undo_ok_prefix p s _ (drop k bs)); [rewrite length_take; lia|].
  rewrite take_drop. by apply Hu.
Qed.

(** ** The walk from the tip *)

(** [hashByHeight] after a walk over the chain [bs]. *)
Definition walked (bs : list Block) (bhh bhh' : gmap Z Hash) : Prop :=
  forall z, bhh' !! z = if (0 <=? z) && (z <=? len bs)
                        then (fun b => block_hash b) <$> ((genesis :: bs) !! Z.to_nat z) else bhh !! z.

Lemma walked_step bs b bhh bhh' :
  walked bs (<[len bs + 1 := block_hash b]> bhh) bhh' -> walked (bs ++ [b]) bhh bhh'.
Proof.
  intros H z. rewrite H, length_app. cbn [length]. replace (Z.of_nat (length bs + 1)) with (len bs + 1) by lia.
  destruct (Z.leb_spec 0 z); cbn [andb]; [|by rewrite lookup_insert_ne by lia].
  destruct (Z.leb_spec z (len bs)), (Z.leb_spec z (len bs + 1)); try lia.
  - rewrite app_comm_cons, lookup_app_l; [done|]. cbn [length]. lia.
  - replace z with (len bs + 1) by lia. rewrite lookup_insert_eq.
    replace (Z.to_nat (len bs + 1)) with (length (genesis :: bs)) by (cbn [length]; lia).
    by rewrite app_comm_cons, list_lookup_middle.
  - by rewrite lookup_insert_ne by lia.
Qed.

Lemma index_walk_wp bs : forall us c,
  stored (c_store c) bs us ->
  wp (index_walk (length bs) (len bs) (last_hash (block_hash genesis) bs))
    (fun r c' => match r with
       | Ok _ => exists bhh', walked bs (c_hashByHeight c) bhh'
           /\ c' = set_main (c_tipHash c) (c_tipHeight c) (c_tipWork c + chain_works bs)
                     (c_heightByHash c) bhh' c
       | Err e => read_error e = true
       end) c.
Proof.
  induction bs as [|b bs IH] using rev_ind; intros us c Hs.
  - cbn [length index_walk]. apply wp_bind_mod, wp_bind_read; [|done]. intros r Hr. simpl in Hr.
    apply GetBlockIndex_sound in Hr; [|apply Hs]. change (last_hash _ []) with (block_hash genesis) in Hr.
    destruct (genesis_rec _ r (sd_index _ _ _ Hs) Hr) as (Hrec & _ & _). apply wp_bind_mod, wp_ret.
    exists (<[0 := block_hash genesis]> (c_hashByHeight c)). split.
    + intros z. cbn [length]. destruct (decide (z = 0)) as [->|Hne]; [by rewrite lookup_insert_eq|].
      rewrite lookup_insert_ne by done. destruct (Z.leb_spec 0 z), (Z.leb_spec z (Z.of_nat 0)); try done; lia.
    + unfold chain_works. cbn [map sumZ]. rewrite (ro_header _ _ _ _ _ _ Hrec), Z.add_0_r. done.
  - rewrite last_hash_snoc. replace (length (bs ++ [b])) with (S (length bs)) by (rewrite length_app; simpl; lia).
    cbn [index_walk]. apply wp_bind_mod, wp_bind_read; [|done]. intros r Hr. cbn [c_store set_heights set_main] in Hr.
    apply GetBlockIndex_sound in Hr; [|apply Hs].
    destruct (tip_rec _ _ _ Hs) as (r' & b' & Hr' & Hrec & -> & _). rewrite last_hash_snoc, last_last in *.
    assert (r' = r) as -> by congruence. rewrite (ro_header _ _ _ _ _ _ Hrec). apply wp_bind_mod.
    pose proof (sd_linked _ _ _ Hs) as Hl. apply linked_app in Hl as [_ (-> & _)].
    destruct (stored_prefix _ _ _ (length bs) Hs) as [us' Hs']. rewrite take_app_length in Hs'.
    replace (Z.of_nat (S (length bs)) - 1) with (len bs) by lia.
    eapply wp_conseq; [apply (IH us'); exact Hs'|]. intros [[]|e] c'; [|done].
    intros (bhh' & Hb & ->). exists bhh'. split; [|unfold set_main; simpl; f_equal; rewrite chain_works_snoc; lia].
    apply walked_step. simpl in Hb. by replace (len bs + 1) with (Z.of_nat (S (length bs))) by lia.
Qed.

(** ** The unspent set rebuilt *)

(** The chain [bs] is the active one as far as the maps go. *)
Definition mapped c (bs : list Block) : Prop :=
  c_tipHeight c = len bs /\ c_tipHash c = last_hash (block_hash genesis) bs
  /\ walked bs ∅ (c_hashByHeight c).

Lemma rebuild_at_wp c bs us i m :
  stored (c_store c) bs us -> mapped c bs -> (c_utxoSet c < length (c_sets c))%nat -> (i <= length bs)%nat ->
  match i with O => m = NewSet | S i => replay p (take i bs) = Some m end ->
  wp (rebuild_at (Z.of_nat i))
    (fun r c' => match r with
       | Ok _ => exists m', replay p (take i bs) = Some m' /\ c' = set_utxo m' c
       | Err e => read_error e = true
       end) (set_utxo m c).
Proof.
  intros Hs (_ & _ & Hb) Hp Hle Hm. unfold rebuild_at. apply wp_bind_get. cbn [c_hashByHeight set_utxo set_sets].
  rewrite Hb. destruct (Z.leb_spec 0 (Z.of_nat i)); [|lia]. destruct (Z.leb_spec (Z.of_nat i) (len bs)); [|lia].
  cbn [andb]. rewrite Nat2Z.id. pose proof (sd_index _ _ _ Hs) as Hi. pose proof (sd_ok _ _ _ Hs) as Ho.
  destruct i as [|i].
  - cbn [lookup list_lookup fmap option_fmap option_map]. apply wp_bind_read; [|done]. intros b Hg.
    apply (GetBlock_rec p U) in Hg as (r & Hr & Hrec); [|done..].
    assert (b = genesis) as ->.
    { eapply (rec_unique p U HU); [exact Hrec|apply (un_genesis _ _ HU)|apply (un_genesis_valid _ _ HU)|done]. }
    rewrite (proj2 (Z.eqb_eq (Z.of_nat 0) 0) eq_refl). apply wp_mod. eexists. split; [reflexivity|].
    subst m. pose proof (UtxoSet_of_set NewSet c (c_store c) Hp) as E.
    change (set_store (c_store c) (set_utxo NewSet c)) with (set_utxo NewSet c) in E. rewrite E.
    exact (set_utxo_set NewSet (ConnectGenesis NewSet genesis) c (c_store c)).
  - change ((genesis :: bs) !! S i) with (bs !! i). destruct (bs !! i) as [b|] eqn:Eb; [|apply lookup_ge_None in Eb; lia].
    destruct (linked_lookup _ _ _ _ _ _ _ _ (sd_linked _ _ _ Hs) Eb) as (Hin & Hv & _).
    cbn [fmap option_fmap option_map]. apply wp_bind_read; [|done]. intros b' Hg.
    apply (GetBlock_rec p U) in Hg as (r & Hr & Hrec); [|done..].
    assert (b' = b) as -> by (by eapply (rec_unique p U HU)).
    destruct (Z.eqb_spec (Z.of_nat (S i)) 0); [lia|].
    pose proof (UtxoSet_of_set m c (c_store c) Hp) as E.
    change (set_store (c_store c) (set_utxo m c)) with (set_utxo m c) in E. rewrite E.
    pose proof (sd_replay _ _ _ Hs) as Hr0. rewrite <- (take_drop (S i) bs) in Hr0.
    destruct (replay_prefix _ _ _ _ Hr0) as [m' Hm']. rewrite (take_S_r _ _ b Eb), replay_snoc, Hm in Hm'.
    rewrite length_take_le in Hm' by lia. pose proof Hm' as Hst.
    apply connect_step_Ok in Hm' as (_ & _ & [undo HC]).
    replace (Z.of_nat (S i)) with (Z.of_nat i + 1) by lia. rewrite HC.
    apply wp_bind_lift; [|done]. intros [us1 undo1] [= <- <-]. apply wp_mod. exists m'. split.
    + by rewrite (take_S_r _ _ b Eb), replay_snoc, Hm, length_take_le by lia.
    + exact (set_utxo_set m m' c (c_store c)).
Qed.

Lemma set_utxo_empty c : UtxoSet_of c = NewSet -> c = set_utxo NewSet c.
Proof.
  intros E. rewrite <- E at 1. rewrite <- (set_utxo_same c) at 1. by destruct c.
Qed.

(** The set written to the chainstate by a rebuild. *)
Definition rebuilt c us c' : Prop :=
  exists s', FlushUtxoBatch (c_store c) (flush_batch us (c_tipHash c)) = (Ok tt, s')
    /\ c' = set_store s' (set_utxo us c).

Lemma rebuild_wp c bs us :
  stored (c_store c) bs us -> mapped c bs -> (c_utxoSet c < length (c_sets c))%nat -> UtxoSet_of c = NewSet ->
  wp rebuildUtxoSet
    (fun r c' => match r with Ok _ => rebuilt c us c' | Err e => read_error e = true end) c.
Proof.
  intros Hs Hm Hp He. unfold rebuildUtxoSet. apply wp_bind_get, wp_bind; [solve_mono|].
  pose proof Hm as (Hth & _). rewrite Hth.
  apply (wp_cfor _ _ (fun i c' => exists m,
    match i with O => m = NewSet | S i => replay p (take i bs) = Some m end /\ c' = set_utxo m c)).
  - apply _.
  - intros i z c1 Hi (m & Hmi & ->). unfold heights_up in Hi. change (map ?f ?l) with (f <$> l) in Hi.
    apply list_lookup_fmap_Some in Hi as (j & -> & Hi). apply lookup_seq in Hi as [-> Hi].
    replace (-1 + 1 + Z.of_nat (0 + i)) with (Z.of_nat i) by lia.
    eapply wp_conseq; [apply (rebuild_at_wp c bs us i m); [done|done|done|lia|done]|].
    intros [[]|e] c'; [|done]. intros (m' & Hm' & ->). by exists m'.
  - intros c1 (m & Hmi & ->). unfold heights_up in Hmi. rewrite length_map, length_seq in Hmi.
    replace (Z.to_nat (len bs - -1)) with (S (length bs)) in Hmi by lia. rewrite take_ge in Hmi by lia.
    rewrite (sd_replay _ _ _ Hs) in Hmi. injection Hmi as <-.
    unfold flushUtxoSetToChainstate. apply wp_bind_get, wp_write. intros r s' E L.
    pose proof (UtxoSet_of_set us c (c_store c) Hp) as Eu.
    change (set_store (c_store c) (set_utxo us c)) with (set_utxo us c) in Eu. rewrite Eu in E.
    destruct r as [[]|e]; [|done]. by exists s'.
  - exists NewSet. split; [done|by apply set_utxo_empty].
Qed.

(** ** The unspent set loaded *)

Lemma coin_stored k e : coin_ok k e -> wf_stored e.
Proof.
  intros (_ & [Hv Hh] & Hs). unfold wf_script, MaxScriptSize in Hs. split_and!; [done|done|lia].
Qed.

Lemma load_wp c bs us :
  stored (c_store c) bs us -> mirrors (v_chainstate (st_view (c_store c))) us ->
  (c_utxoSet c < length (c_sets c))%nat -> UtxoSet_of c = NewSet -> (ForEachUtxo (c_store c)).2 = None ->
  wp loadUtxoSetFromChainstate (fun r c' => r = Ok tt /\ c' = set_utxo us c) c.
Proof.
  intros Hs Hm Hp He Hn. unfold loadUtxoSetFromChainstate. apply wp_bind_get.
  destruct (ForEachUtxo (c_store c)) as [l err] eqn:El. cbn [snd] in Hn. subst err.
  pose proof (ForEachUtxo_all _ _ (sd_ok _ _ _ Hs) El) as Hl.
  assert (map_Forall coin_ok us) as Hc.
  { pose proof (linked_length p U HU _ _ _ (sd_index _ _ _ Hs) (sd_linked _ _ _ Hs)).
    apply (replay_coins p (un_genesis_ok _ _ HU) bs us); [apply Hs|apply (un_txs HU)|lia].
    eapply linked_Forall, Hs. }
  assert (forall h i data, (h, i, data) ∈ l -> exists e, us !! OutpointKey h i = Some e
    /\ DeserializeUtxoEntry data = Ok e) as Hin.
  { intros h i data Hd. apply Hl in Hd as (Hh & Hi & Hd). change (utxoKey h i) with (Byte.x43 :: OutpointKey h i) in Hd.
    rewrite Hm in Hd. destruct (us !! OutpointKey h i) as [e|] eqn:E; [|done]. injection Hd as <-. exists e.
    split; [done|]. apply ue_roundtrip. by eapply coin_stored, Hc. }
  apply wp_bind; [intros; apply _|].
  apply (wp_cfor _ _ (fun n c' => exists m, c' = set_utxo m c /\ (forall k e, m !! k = Some e -> us !! k = Some e)
    /\ forall h i data, (h, i, data) ∈ take n l -> is_Some (m !! OutpointKey h i))).
  - intros [[h i] data]. solve_mono.
  - intros n [[h i] data] c1 Hn (m & -> & Hsub & Hall). pose proof (list_elem_of_lookup_2 _ _ _ Hn) as Hd.
    destruct (Hin _ _ _ Hd) as (e & Eu & Ed). rewrite Ed. apply wp_bind_lift; [|done]. intros e' [= <-].
    apply wp_mod. pose proof (UtxoSet_of_set m c (c_store c) Hp) as Em.
    change (set_store (c_store c) (set_utxo m c)) with (set_utxo m c) in Em. rewrite Em.
    exists (Add m h i e). split; [exact (set_utxo_set m _ c (c_store c))|]. unfold Add. split.
    + intros k e'. rewrite lookup_insert_Some. intros [[<- <-]|[_ H]]; [done|by apply Hsub].
    + intros h' i' data'. rewrite (take_S_r _ _ _ Hn), elem_of_app. intros [H|H].
      * apply lookup_insert_is_Some'. right. by eapply Hall.
      * apply list_elem_of_singleton in H as [= -> -> ->]. by rewrite lookup_insert_eq.
  - intros c1 (m & -> & Hsub & Hall). rewrite take_ge in Hall by lia. apply wp_ret. split; [done|]. f_equal.
    apply map_eq. intros k. destruct (us !! k) as [e|] eqn:E.
    + pose proof (Hc k e E) as (H36 & _). pose proof (Hm k) as Hk. rewrite E in Hk.
      assert (k = OutpointKey (take 32 k) (ReadUintLE (drop 32 k))) as Ek.
      { unfold OutpointKey. rewrite Put32_ReadUintLE by (rewrite length_drop; lia). by rewrite take_drop. }
      destruct (Hall (take 32 k) (ReadUintLE (drop 32 k)) (ue_Serialize e)) as [e' He'].
      * apply Hl. split_and!; [unfold wf_hash, HashSize; rewrite length_take; lia
          |apply ReadUintLE_u32; rewrite length_drop; lia|].
        change (utxoKey ?h ?i) with (Byte.x43 :: OutpointKey h i). by rewrite <- Ek.
      * rewrite <- Ek in He'. rewrite He'. apply Hsub in He'. congruence.
    + destruct (m !! k) as [e|] eqn:Em; [|done]. apply Hsub in Em. congruence.
  - exists NewSet. split; [by apply set_utxo_empty|].
    split; [intros k e; unfold NewSet; by rewrite lookup_empty|intros h i data H; by apply elem_of_nil in H].
Qed.

(** ** The whole start-up *)

(** [heightByHash] read back from the index. *)
Definition read_heights (records : list (Hash * DiskBlockIndex)) (m : gmap Hash Z) : gmap Hash Z :=
  fold_left (fun m '(hash, rec) =>
    if has_flag (bi_Status rec) StatusHaveData then <[hash := bi_Height rec]> m else m) records m.

Lemma read_heights_Some l m h n :
  read_heights l m !! h = Some n -> (exists r, (h, r) ∈ l /\ bi_Height r = n) \/ m !! h = Some n.
Proof.
  revert m. induction l as [|[h' r] l IH]; intros m; cbn [read_heights fold_left]; [by right|].
  intros H. apply IH in H as [(r' & Hin & Hn)|H]; [left; exists r'; split; [by apply list_elem_of_further|done]|].
  destruct (has_flag _ _); [|by right]. apply lookup_insert_Some in H as [[<- <-]|[_ H]]; [left|by right].
  exists r. split; [apply list_elem_of_here|done].
Qed.

Lemma read_heights_known l m h n :
  (forall r, (h, r) ∈ l -> bi_Height r = n) ->
  (exists r, (h, r) ∈ l /\ has_flag (bi_Status r) StatusHaveData = true) \/ m !! h = Some n ->
  read_heights l m !! h = Some n.
Proof.
  revert m. induction l as [|[h' r] l IH]; intros m Hall H; cbn [read_heights fold_left].
  { destruct H as [(r & Hr & _)|H]; [by apply elem_of_nil in Hr|done]. }
  apply IH; [intros r' Hr'; apply Hall; by apply list_elem_of_further|].
  destruct H as [(r' & Hr' & Hf)|H].
  - apply elem_of_cons in Hr' as [[= <- <-]|Hr']; [right|left; eauto].
    rewrite Hf, lookup_insert_eq. f_equal. apply Hall, list_elem_of_here.
  - right. destruct (has_flag _ _); [|done]. destruct (decide (h' = h)) as [->|Hne]; [|by rewrite lookup_insert_ne].
    rewrite lookup_insert_eq. f_equal. apply Hall, list_elem_of_here.
Qed.

(** The heights read from the index of a consistent store. *)
Lemma heights_read s l :
  st_ok s -> index_ok p U s -> ForEachBlockIndex s = (l, None) ->
  heights_ok p U (read_heights l ∅)
  /\ forall h r, idx s !! h = Some r -> read_heights l ∅ !! h = Some (bi_Height r).
Proof.
  intros Ho Hi Hl. destruct (ForEachBlockIndex_all _ _ Ho Hl) as [Hs Hc]. split.
  - intros h n H. apply read_heights_Some in H as [(r & Hin & <-)|H]; [|by rewrite lookup_empty in H].
    apply Hs in Hin. destruct (Hi _ _ Hin) as [b Hb]. pose proof (ro_hash _ _ _ _ _ _ Hb) as Eh.
    destruct (decide (h = block_hash genesis)) as [->|Hne].
    { left. split; [done|]. by apply genesis_rec in Hin as (_ & ? & _). }
    right. split; [done|]. split; [|exists b; split_and!; [apply Hb|done|apply Hb]].
    destruct (ro_parent _ _ _ _ _ _ Hb) as [(-> & _)|(pr & w & Hpr & -> & _)]; [by rewrite Eh in Hne|].
    pose proof (rec_height_nonneg p U _ _ _ Hi Hpr). lia.
  - intros h r Hr. destruct (Hi _ _ Hr) as [b Hb]. apply read_heights_known.
    + intros r' Hr'. apply Hs in Hr'. congruence.
    + left. exists r. split; [|apply Hb]. apply Hc; [|done]. rewrite <- (ro_hash _ _ _ _ _ _ Hb).
      apply wf_DoubleSHA256.
Qed.

(** The chain a restart builds satisfies the invariant. *)
Lemma restarted_inv c bs us :
  stored (c_store c) bs us -> mapped c bs -> c_params c = p -> c_orphans c = ∅ ->
  (c_utxoSet c < length (c_sets c))%nat -> UtxoSet_of c = us -> c_tipWork c = chain_works bs ->
  heights_ok p U (c_heightByHash c) ->
  (forall h r, idx (c_store c) !! h = Some r -> c_heightByHash c !! h = Some (bi_Height r)) ->
  chain_inv p U c /\ main_of p U c bs.
Proof.
  intros Hs (Hth & Hti & Hb) Ep Eo Hpt Eu Ew Hhts Hhbh. pose proof Hs as [Ho Hi Hg Hl Hr Hu].
  assert (main_of p U c bs) as Hm.
  { split; [constructor; try done|split_and!; try done].
    - intros z. rewrite Hb. destruct (Z.ltb_spec z 0), (Z.leb_spec 0 z); try lia; cbn [andb]; [done|].
      destruct (Z.leb_spec z (len bs)); [done|]. rewrite lookup_empty, lookup_ge_None_2; [done|]. cbn [length]. lia.
    - intros i b Hib. destruct i as [|i].
      + injection Hib as <-. destruct Hg as (g & Hg & E0). apply Hhbh in Hg. by rewrite Hg, E0.
      + destruct (linked_lookup _ _ _ _ _ _ _ _ Hl Hib) as (_ & _ & r & Hr' & E). apply Hhbh in Hr'.
        rewrite Hr', E. f_equal. lia.
    - by rewrite Eu.
    - intros r Hr'. destruct (tip_rec _ _ _ Hs) as (r' & b & Hr2 & _ & _ & _ & Hw). rewrite Hti in Hr'. congruence. }
  split; [|done]. constructor; try done; [|by exists bs]. intros h ob. by rewrite Eo, lookup_empty.
Qed.
End stored.

Section init.
Context {St : Type} `{BS : BlockStore St} {BL : BlockStoreLaws St} {PL : PersistLaws St} `{EC : ECOps}.
Context (p : ChainParams) (U : list Block) (HU : universe p U).
Context (Hread : forall s : St, (ForEachUtxo s).2 = None).
#[local] Abbreviation genesis := (p_GenesisBlock p).
#[local] Abbreviation idx s := (v_index (st_view s)).
Implicit Types (s : St) (c : Chain St).

(** The coins on disk are among those of [us]. *)
Definition clean (m : chainstate) (us : UtxoSet) : Prop :=
  forall k, m !! (Byte.x43 :: k) = None \/ m !! (Byte.x43 :: k) = ue_Serialize <$> us !! k.

(** A start-up from the store [s] gives the chain [bs], or fails to read or write; the disk
    agrees with it unless it had coins from elsewhere. *)
Definition restarted s (bs : list Block) (us : UtxoSet) (r : result ChainErr unit) c : Prop :=
  match r with
  | Ok _ => chain_inv p U c /\ main_of p U c bs /\ UtxoSet_of c = us
            /\ (clean (persisted s).2 us -> synced c)
  | Err e => read_error e = true
  end.

(** The maps are filled and the set is still empty. *)
Record prepared c (bs : list Block) (us : UtxoSet) : Prop := {
  re_stored : stored p U (c_store c) bs us;
  re_mapped : mapped p c bs;
  re_params : c_params c = p;
  re_orphans : c_orphans c = ∅;
  re_ptr : (c_utxoSet c < length (c_sets c))%nat;
  re_empty : UtxoSet_of c = NewSet;
  re_work : c_tipWork c = chain_works p bs;
  re_heights : heights_ok p U (c_heightByHash c);
  re_known : forall h r, idx (c_store c) !! h = Some r -> c_heightByHash c !! h = Some (bi_Height r) }.

(** And the recorded tip is theirs. *)
Definition ready c bs us : Prop :=
  prepared c bs us /\ (persisted (c_store c)).1 = Some (c_tipHash c, c_tipHeight c).

Lemma prepared_rel c bs us s' :
  prepared c bs us -> store_rel (fun _ => True) (c_store c) s' -> prepared (set_store s' c) bs us.
Proof.
  intros [Hs Hm Ep Eo Hp He Ew Hh Hk] R. constructor; try done; [by eapply stored_rel|].
  intros h r Hr. destruct (rel_height _ _ _ _ _ R Hr) as (r0 & Hr0 & -> & _). by apply Hk.
Qed.

Lemma ready_inv c bs us s' :
  prepared c bs us -> store_rel (fun _ => True) (c_store c) s' ->
  chain_inv p U (set_store s' (set_utxo us c)) /\ main_of p U (set_store s' (set_utxo us c)) bs
  /\ UtxoSet_of (set_store s' (set_utxo us c)) = us.
Proof.
  intros [Hs Hm Ep Eo Hp _ Ew Hh Hk] R. pose proof (UtxoSet_of_set us c s' Hp) as Eu.
  assert (stored p U s' bs us) as Hs' by (by eapply stored_rel).
  destruct (restarted_inv p U HU (set_store s' (set_utxo us c)) bs us) as [? ?]; try done.
  - simpl. by rewrite length_insert.
  - intros h r Hr. simpl in Hr. destruct (rel_height _ _ _ _ _ R Hr) as (r0 & Hr0 & -> & _). by apply Hk.
Qed.

Lemma rebuild_restarted c bs us : ready c bs us -> wp rebuildUtxoSet (restarted (c_store c) bs us) c.
Proof.
  intros [Hr Ht]. pose proof Hr as [Hs Hm _ _ Hp He _ _ _].
  intros L. pose proof (rebuild_wp p U HU c bs us Hs Hm Hp He L) as H.
  destruct (rebuildUtxoSet c) as [[[]|e] c']; cbn [fst snd] in *; [|done].
  destruct H as (s' & E & ->).
  assert (store_rel (fun _ => True) (c_store c) s') as R by (eapply flush_rel; [apply Hs|apply Hs|exact E|exact L]).
  destruct (ready_inv c bs us s' Hr R) as (Hc & Hma & Eu). split_and!; try done. intros Hcl.
  pose proof (chain_inv_keys p U HU _ Hc) as Hk. rewrite Eu in Hk. apply FlushUtxoBatch_persist in E. cbn [is_ok] in E.
  destruct (mirrors_flush _ us (c_tipHash c) Hk Hcl) as [Hmi Hb].
  constructor; [constructor; [apply Hc|]| |]; unfold disk.
  - rewrite Eu. change (mirrors (persisted s').2 us). by rewrite E.
  - change ((persisted s').2 !! keyBestBlock = Some (c_tipHash c)). by rewrite E.
  - change ((persisted s').1 = Some (c_tipHash c, c_tipHeight c)). by rewrite E.
Qed.

Lemma load_restarted c bs us s :
  ready c bs us -> mirrors (persisted (c_store c)).2 us ->
  (persisted (c_store c)).2 !! keyBestBlock = Some (c_tipHash c) -> wp load_or_rebuild (restarted s bs us) c.
Proof.
  intros [Hr Ht] Hm Hb. pose proof Hr as [Hs _ _ _ Hp He _ _ _]. unfold wp, load_or_rebuild.
  pose proof (load_wp p U HU c bs us Hs Hm Hp He (Hread _)) as Hl. unfold wp in Hl.
  destruct (loadUtxoSetFromChainstate c) as [r c1]. cbn [fst snd] in Hl.
  intros L. assert (live c1) as L1 by (destruct r; [done|by apply mono_rebuild in L]).
  destruct (Hl L1) as [-> ->]. cbn [fst snd].
  assert (store_rel (fun _ => True) (c_store c) (c_store c)) as R by (eapply store_rel_refl; apply Hs).
  destruct (ready_inv c bs us _ Hr R) as (Hc & Hma & Eu).
  change (set_store (c_store c) (set_utxo us c)) with (set_utxo us c) in *. split_and!; try done. intros _.
  constructor; [constructor; [apply Hc|]|done|done]. by rewrite Eu.
Qed.

(** What the chainstate must be for the chain [bs] to be the one that is found, when the
    recorded tip is that of [bs0]. *)
Definition finds s (bs0 bs : list Block) (us : UtxoSet) : Prop :=
  match GetBestBlock s with
  | Err _ => bs = bs0
  | Ok best =>
      (best = last_hash (block_hash genesis) bs /\ mirrors (persisted s).2 us /\ (bs = bs0 \/ len bs0 < len bs))
      \/ (bs = bs0 /\ best <> last_hash (block_hash genesis) bs0
          /\ forall r, idx s !! best = Some r -> bi_Height r <= len bs0)
  end.

Lemma last_hash_wf bs : wf_hash (last_hash (block_hash genesis) bs).
Proof. destruct bs as [|b bs _] using rev_ind; [|rewrite last_hash_snoc]; apply wf_DoubleSHA256. Qed.

(** The state after the walk from the tip of [bs]. *)
Lemma walked_prepared s bs us c l bhh :
  stored p U s bs us -> ForEachBlockIndex s = (l, None) -> walked p bs ∅ bhh ->
  c_store c = s -> c_params c = p -> c_orphans c = ∅ -> c_sets c = [NewSet] -> c_utxoSet c = O ->
  c_tipHash c = last_hash (block_hash genesis) bs -> c_tipHeight c = len bs -> c_hashByHeight c = bhh ->
  c_heightByHash c = read_heights l ∅ -> c_tipWork c = chain_works p bs ->
  prepared c bs us.
Proof.
  intros Hs El Hb Es Ep Eo Eset Eptr Eh En Eb Ehb Ew.
  destruct (heights_read p U HU s l (sd_ok _ _ _ _ _ Hs) (sd_index _ _ _ _ _ Hs) El) as [Hh Hk].
  constructor; try (by subst); try (by rewrite Ehb).
  - rewrite Eset, Eptr. simpl. lia.
  - unfold UtxoSet_of, set_at. by rewrite Eset, Eptr.
  - intros h r. rewrite Ehb, Es. apply Hk.
Qed.

(** The chainstate is ahead of the recorded tip: the tip is moved. *)
Lemma advance_wp s bs us l c tip :
  stored p U s bs us -> ForEachBlockIndex s = (l, None) -> mirrors (persisted s).2 us ->
  (persisted s).2 !! keyBestBlock = Some tip -> tip = last_hash (block_hash genesis) bs ->
  c_store c = s -> c_params c = p -> c_orphans c = ∅ -> c_sets c = [NewSet] /\ c_utxoSet c = O ->
  c_heightByHash c = read_heights l ∅ ->
  wp (do _ <- cmod (fun c => set_main (c_tipHash c) (c_tipHeight c) 0 (c_heightByHash c) ∅ c);
      do _ <- index_walk (Z.to_nat (len bs)) (len bs) tip;
      do _ <- cmod (fun c => set_main tip (len bs) (c_tipWork c) (c_heightByHash c) (c_hashByHeight c) c);
      do _ <- swrite StoreTip (fun s => PutChainTip s tip (len bs));
      load_or_rebuild) (restarted s bs us) c.
Proof.
  intros Hs El Hm Eb -> Es Ep Eo [Eset Eptr] Ehb. apply wp_bind_mod. rewrite Nat2Z.id.
  apply wp_bind; [intros; solve_mono|]. eapply wp_conseq; [eapply (index_walk_wp p U HU); simpl; by rewrite Es|].
  intros [[]|e] c1; [|done]. intros (bhh & Hb & ->). cbn [c_hashByHeight set_main] in Hb.
  apply wp_bind_mod, wp_bind_write; [intros; solve_mono|]. intros r s' E L.
  match goal with |- match r with Ok _ => wp _ _ (set_store s' ?x) | Err _ => _ end => set (c2 := x) in * end.
  change (c_store c2) with (c_store c) in E. rewrite Es in E.
  assert (prepared c2 bs us) as Hpr.
  { by apply (walked_prepared s bs us _ l bhh). }
  assert (store_rel (fun _ => True) (c_store c2) s') as R.
  { change (c_store c2) with (c_store c). rewrite Es. eapply tip_rel; [apply Hs|apply Hs|exact E|exact L]. }
  pose proof (linked_length p U HU _ _ _ (sd_index _ _ _ _ _ Hs) (sd_linked _ _ _ _ _ Hs)) as Hlen.
  apply PutChainTip_persist in E; [|apply last_hash_wf]. destruct r as [[]|e]; [|done]. cbn [is_ok] in E.
  apply load_restarted.
  - split; [by apply prepared_rel|]. change ((persisted s').1 = Some (last_hash (block_hash genesis) bs, len bs)).
    rewrite E. simpl. by rewrite u32_small by (unfold is_u32; lia).
  - change (mirrors (persisted s').2 us). by rewrite E.
  - change ((persisted s').2 !! keyBestBlock = Some (last_hash (block_hash genesis) bs)). by rewrite E.
Qed.

Lemma Init_wp s bs0 us0 bs us :
  stored p U s bs0 us0 -> stored p U s bs us ->
  GetChainTip s = Ok (last_hash (block_hash genesis) bs0, len bs0) -> finds s bs0 bs us ->
  wp Init (restarted s bs us) (New p s).
Proof.
  intros Hs0 Hs Ht Hf. unfold Init. apply wp_bind_get. cbn [c_store New]. rewrite Ht.
  pose proof (GetChainTip_sound _ _ _ (sd_ok _ _ _ _ _ Hs) Ht) as Hvt.
  destruct (ForEachBlockIndex s) as [l [e|]] eqn:El; apply wp_bind_mod.
  { apply wp_bind; [intros; solve_mono|]. by apply wp_fail. }
  fold (read_heights l). rewrite Nat2Z.id.
  apply wp_bind; [intros; solve_mono|]. apply wp_ret. apply wp_bind; [intros; solve_mono|].
  eapply wp_conseq; [by eapply (index_walk_wp p U HU)|].
  intros [[]|e] c1; [|done]. intros (bhh & Hb & ->). cbn [c_hashByHeight set_main New] in Hb.
  match goal with |- wp _ _ ?x =>
    change x with (set_main (last_hash (block_hash genesis) bs0) (len bs0) (chain_works p bs0)
                     (read_heights l ∅) bhh (New p s)) end.
  set (c1 := set_main _ _ _ _ _ (New p s)).
  assert (ready c1 bs0 us0) as Hr by (by split; [apply (walked_prepared s bs0 us0 _ l bhh)|]).
  assert (bs = bs0 -> us = us0) as Hus.
  { intros ->. pose proof (sd_replay _ _ _ _ _ Hs). pose proof (sd_replay _ _ _ _ _ Hs0). congruence. }
  unfold finds in Hf. destruct (GetBestBlock s) as [best|e] eqn:Eb.
  2:{ specialize (Hus Hf) as ->. subst bs. exact (rebuild_restarted c1 bs0 us0 Hr). }
  apply GetBestBlock_sound in Eb; [|apply Hs].
  destruct Hf as [(-> & Hm & Hor)|(-> & Hne & Hlow)].
  - destruct Hor as [->|Hlt].
    + specialize (Hus eq_refl) as ->. rewrite bool_decide_true by done. cbn [negb].
      exact (load_restarted c1 bs0 us0 s Hr Hm Eb).
    + destruct (tip_rec p U HU _ _ _ Hs) as (r & _ & Hrt & _ & _ & Hrh & _).
      destruct (tip_rec p U HU _ _ _ Hs0) as (r0 & _ & Hrt0 & _ & _ & Hrh0 & _).
      rewrite bool_decide_false by (intros E; rewrite E in Hrt; assert (r = r0) as -> by congruence; lia).
      cbn [negb]. apply wp_bind_get. change (c_heightByHash c1) with (read_heights l ∅).
      destruct (heights_read p U HU s l (sd_ok _ _ _ _ _ Hs) (sd_index _ _ _ _ _ Hs) El) as [_ Hk].
      rewrite (Hk _ _ Hrt), Hrh. destruct (Z.gtb_spec (len bs) (len bs0)); [|lia].
      exact (advance_wp s bs us l c1 _ Hs El Hm Eb eq_refl eq_refl eq_refl eq_refl (conj eq_refl eq_refl) eq_refl).
  - specialize (Hus eq_refl) as ->. rewrite bool_decide_false by done. cbn [negb]. apply wp_bind_get.
    change (c_heightByHash c1) with (read_heights l ∅).
    destruct (read_heights l ∅ !! best) as [n|] eqn:En; [|exact (rebuild_restarted c1 bs0 us0 Hr)].
    destruct (Z.gtb_spec n (len bs0)); [|exact (rebuild_restarted c1 bs0 us0 Hr)].
    exfalso. apply read_heights_Some in En as [(r & Hin & <-)|En]; [|by rewrite lookup_empty in En].
    destruct (ForEachBlockIndex_all _ _ (sd_ok _ _ _ _ _ Hs) El) as [Hsnd _]. apply Hsnd, Hlow in Hin. lia.
Qed.
End init.

(** ** Properties *)

Section restart.
Context {St : Type} `{BS : BlockStore St} {BL : BlockStoreLaws St} {PL : PersistLaws St}.
Context `{EN : Engine} {EL : EngineLaws} `{EC : ECOps} (env : Env).
Context (p : ChainParams) (U : list Block).
#[local] Abbreviation genesis := (p_GenesisBlock p).
Implicit Types (s : St) (c : Chain St).

#[global] Instance mono_initGenesis : Mono initGenesis.
Proof. unfold initGenesis. solve_mono. Qed.
#[global] Instance mono_Init : Mono Init.
Proof. unfold Init. solve_mono. Qed.

(** Runs that begin on a store without blocks or coins, in which no reorganisation fails
    and no block submitted has children waiting in the orphan pool; the node may be stopped
    and started on the way. *)
Inductive settled (s0 : St) : Chain St -> Prop :=
| settled_start c : Init (New p s0) = (Ok tt, c) -> settled s0 c
| settled_block c b :
    settled s0 c -> b ∈ U -> no_child c (block_hash b) -> reorg_failed (ProcessBlock env b c).1 = false ->
    settled s0 (ProcessBlock env b c).2
| settled_restart c c' :
    settled s0 c -> is_ok (GetChainTip (c_store c)) = true -> Init (New p (c_store c)) = (Ok tt, c') ->
    settled s0 c'.

(** Starting on the store of a synced chain. *)
Lemma restart_wp c :
  universe p U -> (forall s : St, (ForEachUtxo s).2 = None) -> chain_inv p U c -> synced c ->
  is_ok (GetChainTip (c_store c)) = true -> exists bs, main_of p U c bs
  /\ wp Init (fun r c' => match r with
       | Ok _ => chain_inv p U c' /\ main_of p U c' bs /\ UtxoSet_of c' = UtxoSet_of c /\ synced c'
       | Err e => read_error e = true
       end) (New p (c_store c)).
Proof.
  intros HU Hread Hc [[Hp Hm] Hb Ht] Hok. destruct (ci_main _ _ _ Hc) as [bs Hma]. exists bs. split; [done|].
  pose proof (chain_stored p U c bs Hc Hma) as Hs. pose proof Hma as (_ & Hth & Hti & _).
  destruct (GetChainTip (c_store c)) as [[h n]|] eqn:Et; [|done].
  pose proof (GetChainTip_sound _ _ _ (ci_store _ _ _ Hc) Et) as Hv. unfold disk, persisted in *. cbn [fst snd] in *.
  rewrite Ht in Hv. injection Hv as <- <-. rewrite Hth, Hti in Et.
  eapply wp_conseq; [eapply (Init_wp p U HU Hread (c_store c) bs _ bs _ Hs Hs Et)|].
  - unfold finds. destruct (GetBestBlock (c_store c)) as [best|] eqn:Eb; [|done].
    apply GetBestBlock_sound in Eb; [|apply Hc]. left. split_and!; [congruence|done|by left].
  - intros [[]|e] c'; [|done]. intros (? & ? & ? & Hcl). split_and!; try done. apply Hcl. intros k. right. apply Hm.
Qed.

Lemma settled_inv s0 c :
  universe p U -> (forall (s : St) h n, (PutChainTip s h n).1 = Ok tt) ->
  (forall s : St, (ForEachUtxo s).2 = None) -> blank_store s0 -> settled s0 c -> live c ->
  chain_inv p U c /\ synced c.
Proof.
  intros HU Htip Hread Hbl Hr. induction Hr as [c H|c b Hr IH Hb Hn Hf|c c' Hr IH Hok H]; intros L.
  - split; [by apply (Init_empty p U HU s0); [apply Hbl|..]|by apply (Init_synced p U HU s0)].
  - assert (live c) as Lc by (by eapply mono_ProcessBlock). destruct (IH Lc) as [Hc Hs]. split.
    + by apply (ProcessBlock_wp env p U HU Htip c b Hc Hb L).
    + by apply (ProcessBlock_synced env p U HU Htip).
  - assert (live c) as Lc.
    { pose proof (mono_Init (New p (c_store c))) as Hm. rewrite H in Hm. exact (Hm L). }
    destruct (IH Lc) as [Hc Hs]. destruct (restart_wp c HU Hread Hc Hs Hok) as (bs & _ & Hwp).
    unfold wp in Hwp. rewrite H in Hwp. destruct (Hwp L) as (? & _ & _ & ?). done.
Qed.

Lemma main_work c bs : universe p U -> chain_inv p U c -> main_of p U c bs -> c_tipWork c = chain_works p bs.
Proof.
  intros HU Hc Hm. destruct (tip_rec p U HU _ _ _ (chain_stored p U c bs Hc Hm)) as (r & b & Hr & _ & _ & _ & Hw).
  destruct Hm as (_ & _ & Hti & Hwk & _). rewrite <- Hti in Hr. apply Hwk in Hr. congruence.
Qed.

Lemma main_bhh c c' bs : main_of p U c bs -> main_of p U c' bs -> c_hashByHeight c' = c_hashByHeight c.
Proof.
  intros (Ha & _) (Ha' & _). apply map_eq. intros z.
  by rewrite (ac_bhh _ _ _ _ _ _ _ Ha), (ac_bhh _ _ _ _ _ _ _ Ha').
Qed.

End restart.

(** ** Runs of the small network *)

Import Example ToyEC MemDB.

Lemma utxo_reads (s : FileStore mem_db) : (ForEachUtxo s).2 = None.
Proof. reflexivity. Qed.

Lemma store0_blank : blank_store store0.
Proof. split; [apply store0_empty|]. intros k. exact (lookup_empty (M := gmap (list byte)) (A := list byte) (Byte.x43 :: k)). Qed.

(** Blocks of the network without waiting orphans and without failed reorganisations. *)
Fixpoint quiet_run (bs : list Block) (c : Chain (FileStore mem_db)) : bool :=
  match bs with
  | [] => true
  | b :: bs =>
      Nat.eqb (size (c_orphans c)) 0 && negb (reorg_failed (ProcessBlock env0 b c).1) && quiet_run bs (ProcessBlock env0 b c).2
  end.

Lemma submit_settled bs c :
  Forall (fun b => b ∈ blocks) bs -> settled env0 net blocks store0 c -> quiet_run bs c = true ->
  settled env0 net blocks store0 (submit bs c).
Proof.
  intros Hbs. revert c. induction Hbs as [|b bs Hb _ IH]; intros c Hc; [done|]. cbn [quiet_run submit fold_left].
  rewrite !andb_true_iff. intros [[Ho Hr] Hq]. bool_to_prop. apply IH; [|done]. apply settled_block; try done.
  apply Nat.eqb_eq, map_size_empty_inv in Ho. intros k ob. by rewrite Ho, lookup_empty.
Qed.

Lemma start_settled : settled env0 net blocks store0 start.
Proof. apply settled_start. rewrite <- start_Ok. apply surjective_pairing. Qed.


(** A stop between the chainstate batch of a block and the recorded tip: the write of the
    tip is lost and the block reported as failed, but a restart takes the chainstate's
    word, moves the tip to the block and has its coins. *)
Example crash_recovered :
  let c := (ProcessBlock env0 A1 (Init (New net flaky_store)).2).2 in
  let r := Init (New net (c_store c)) in
  c_tipHash c = genesis_hash /\ r.1 = Ok tt /\ c_tipHash r.2 = block_hash A1 /\ c_tipHeight r.2 = 1
  /\ (GetChainTip (c_store r.2)) = Ok (block_hash A1, 1) /\ TotalValue (UtxoSet_of r.2) = 5000000000.
Proof. vm_compute. repeat split. Qed.

(** A rebuild does not clear the chainstate.  After a failed reorganisation to [B1], [X2]
    the chainstate has the coin of [B1]; the first restart rebuilds the set in memory and
    writes its coins over the database, marking it as current, so the second one loads the
    coin of [B1] too: 9 billion at height 1. *)
Example rebuild_keeps_stale_coins :
  let c := submit [A1; B1; X2] start in
  let r1 := Init (New net (c_store c)) in
  let r2 := Init (New net (c_store r1.2)) in
  r1.1 = Ok tt /\ TotalValue (UtxoSet_of r1.2) = 5000000000
  /\ r2.1 = Ok tt /\ c_tipHash r2.2 = block_hash A1 /\ TotalValue (UtxoSet_of r2.2) = 9000000000.
Proof. vm_compute. repeat split. Qed.
