(* ===== verification/Protocol.v ===== *)
(** * Wire messages

    Models [src/internal/protocol/messages.go] and [checksum.go], and the framed
    reads and writes of [src/internal/p2p/peer.go] ([WriteLoop]'s two writes of one
    message and [ReadMessage]).

    An encoder is the list of bytes it writes (the [bytes.Buffer] the callers pass
    never fails).  A decoder reads from the list of bytes still to come.  Go strings
    are byte sequences.  On an error the callers drop the partially filled message,
    so a failing decoder returns the error only. *)
From S2P Require Import Prelude.
From S2P Require Import Types.
From S2P Require Import Sha256.
From S2P Require Import Crypto.

(** ** Constants *)

Definition MaxPayloadSize : Z := 4 * 1024 * 1024.

Definition CmdVersion : list byte := bytes_of_string "version".
Definition CmdVerack : list byte := bytes_of_string "verack".
Definition CmdPing : list byte := bytes_of_string "ping".
Definition CmdPong : list byte := bytes_of_string "pong".
Definition CmdInv : list byte := bytes_of_string "inv".
Definition CmdGetData : list byte := bytes_of_string "getdata".
Definition CmdBlock : list byte := bytes_of_string "block".
Definition CmdTx : list byte := bytes_of_string "tx".
Definition CmdGetBlocks : list byte := bytes_of_string "getblocks".
Definition CmdAddr : list byte := bytes_of_string "addr".
Definition CmdGetAddr : list byte := bytes_of_string "getaddr".
Definition CmdReject : list byte := bytes_of_string "reject".

Definition InvTypeBlock : Z := 1.
Definition InvTypeTx : Z := 2.
Definition MessageHeaderSize : nat := 24.
Definition ProtocolVersion : Z := 1.

(** ** Messages *)

Record MessageHeader := {
  mh_Magic : list byte; mh_Command : list byte; mh_Length : Z; mh_Checksum : list byte }.
Record InvVector := { iv_Type : Z; iv_Hash : Hash }.
Record VersionMsg := {
  vm_Version : Z; vm_Services : Z; vm_Timestamp : Z;
  vm_AddrRecv : list byte; vm_AddrFrom : list byte;
  vm_Nonce : Z; vm_UserAgent : list byte; vm_StartHeight : Z }.
Record GetBlocksMsg := {
  gb_Version : Z; gb_BlockLocatorHashes : list Hash; gb_HashStop : Hash }.

(** ** The message header *)

Definition doubleSHA256Checksum (data : list byte) : list byte :=
  take 4 (sha256_Sum256 (sha256_Sum256 data)).

(** [copy(hdr.Command[:], cmd)] into a zeroed array of 12 bytes. *)
Definition pad_command (cmd : list byte) : list byte :=
  take 12 cmd ++ replicate (12 - length cmd) Byte.x00.

Definition EncodeMessageHeader (magic cmd payload : list byte) : list byte :=
  magic ++ pad_command cmd ++ PutUint32LE (u32 (len payload)) ++ doubleSHA256Checksum payload.

Definition DecodeMessageHeader (r : list byte) : dec_result MessageHeader :=
  let* (buf, r) := ReadFull MessageHeaderSize r in
  let hdr := {| mh_Magic := slice 0 4 buf; mh_Command := slice 4 16 buf;
                mh_Length := ReadUintLE (slice 16 20 buf); mh_Checksum := slice 20 24 buf |} in
  check mh_Length hdr >? MaxPayloadSize else ExceedsMax (mh_Length hdr) MaxPayloadSize;
  Ok (hdr, r).

(** The index after the last byte before the first zero. *)
Fixpoint command_end (c : list byte) : nat :=
  match c with
  | [] => 0
  | b :: c => if decide (b = Byte.x00) then 0 else S (command_end c)
  end.
Definition CommandString (h : MessageHeader) : list byte :=
  take (command_end (mh_Command h)) (mh_Command h).

(** ** Strings *)

Definition maxString : Z := 1024.

Definition writeString (s : list byte) : list byte := PutVarInt (len s) ++ s.

Definition readString (r : list byte) : dec_result (list byte) :=
  let* (length, r) := ReadVarInt r in
  check length >? maxString else ExceedsMax length maxString;
  ReadFull (Z.to_nat length) r.

(** ** Payloads *)

Definition version_Encode (m : VersionMsg) : list byte :=
  PutUint32LE (vm_Version m) ++ PutUint64LE (vm_Services m) ++ PutUint64LE (u64 (vm_Timestamp m))
  ++ writeString (vm_AddrRecv m)
  ++ writeString (vm_AddrFrom m)
  ++ PutUint64LE (vm_Nonce m)
  ++ writeString (vm_UserAgent m)
  ++ PutUint32LE (vm_StartHeight m).

Definition version_Decode (r : list byte) : dec_result VersionMsg :=
  let* (buf, r) := ReadFull 20 r in
  let* (addrRecv, r) := readString r in
  let* (addrFrom, r) := readString r in
  let* (nonceBuf, r) := ReadFull 8 r in
  let* (userAgent, r) := readString r in
  let* (heightBuf, r) := ReadFull 4 r in
  Ok ({| vm_Version := ReadUintLE (slice 0 4 buf);
         vm_Services := ReadUintLE (slice 4 12 buf);
         vm_Timestamp := i64 (ReadUintLE (slice 12 20 buf));
         vm_AddrRecv := addrRecv; vm_AddrFrom := addrFrom;
         vm_Nonce := ReadUintLE nonceBuf; vm_UserAgent := userAgent;
         vm_StartHeight := ReadUintLE heightBuf |}, r).

Definition encodeInvVector (iv : InvVector) : list byte :=
  PutUint32LE (iv_Type iv) ++ iv_Hash iv.

Definition decodeInvVector (r : list byte) : dec_result InvVector :=
  let* (buf, r) := ReadFull 4 r in
  let* (hash, r) := ReadFull HashSize r in
  Ok ({| iv_Type := ReadUintLE buf; iv_Hash := hash |}, r).

(** The loops of the list messages return the first error as it is. *)
Definition plain (i : Z) (e : DecodeErr) : DecodeErr := e.

Definition maxInv : Z := 50000.

(** [InvMsg] and [GetDataMsg] are both a list of inventory vectors. *)
Definition inv_Encode (inventory : list InvVector) : list byte :=
  PutVarInt (len inventory) ++ concat (map encodeInvVector inventory).

Definition inv_Decode (r : list byte) : dec_result (list InvVector) :=
  let* (count, r) := ReadVarInt r in
  check count >? maxInv else ExceedsMax count maxInv;
  ReadN decodeInvVector plain (Z.to_nat count) 0 r.

Definition getdata_Encode (inventory : list InvVector) : list byte := inv_Encode inventory.
Definition getdata_Decode (r : list byte) : dec_result (list InvVector) :=
  let* (inv, r) := inv_Decode r in
  Ok (inv, r).

Definition maxLocator : Z := 500.

Definition getblocks_Encode (m : GetBlocksMsg) : list byte :=
  PutUint32LE (gb_Version m)
  ++ PutVarInt (len (gb_BlockLocatorHashes m))
  ++ concat (gb_BlockLocatorHashes m)
  ++ gb_HashStop m.

Definition getblocks_Decode (r : list byte) : dec_result GetBlocksMsg :=
  let* (buf, r) := ReadFull 4 r in
  let* (count, r) := ReadVarInt r in
  check count >? maxLocator else ExceedsMax count maxLocator;
  let* (hashes, r) := ReadN (ReadFull HashSize) plain (Z.to_nat count) 0 r in
  let* (stop, r) := ReadFull HashSize r in
  Ok ({| gb_Version := ReadUintLE buf; gb_BlockLocatorHashes := hashes; gb_HashStop := stop |}, r).

Definition maxAddrs : Z := 1000.

Definition addr_Encode (addresses : list (list byte)) : list byte :=
  PutVarInt (len addresses) ++ concat (map writeString addresses).

Definition addr_Decode (r : list byte) : dec_result (list (list byte)) :=
  let* (count, r) := ReadVarInt r in
  check count >? maxAddrs else ExceedsMax count maxAddrs;
  ReadN readString plain (Z.to_nat count) 0 r.

(** [PingMsg] and [PongMsg] carry one nonce. *)
Definition ping_Encode (nonce : Z) : list byte := PutUint64LE nonce.
Definition ping_Decode (r : list byte) : dec_result Z :=
  let* (buf, r) := ReadFull 8 r in Ok (ReadUintLE buf, r).
Definition pong_Encode (nonce : Z) : list byte := PutUint64LE nonce.
Definition pong_Decode (r : list byte) : dec_result Z :=
  let* (buf, r) := ReadFull 8 r in Ok (ReadUintLE buf, r).

(** ** Framing ([peer.go]) *)

Inductive ReadErr :=
| ReadHeader (e : DecodeErr)
| BadMagic (got : list byte)
| ReadPayload (e : DecodeErr)
| ChecksumMismatch.

Definition doubleSHA256First4 (data : list byte) : list byte :=
  take 4 (sha256_Sum256 (sha256_Sum256 data)).

(** What [WriteLoop] writes for one queued message. *)
Definition WriteMessage (magic cmd payload : list byte) : list byte :=
  EncodeMessageHeader magic cmd payload ++ payload.

Definition ReadMessage (magic r : list byte)
  : result ReadErr (MessageHeader * list byte * list byte) :=
  let* (hdr, r) := rwrap ReadHeader (DecodeMessageHeader r) in
  check negb (bool_decide (mh_Magic hdr = magic)) else BadMagic (mh_Magic hdr);
  let* (payload, r) := rwrap ReadPayload (ReadFull (Z.to_nat (mh_Length hdr)) r) in
  check negb (bool_decide (mh_Checksum hdr = doubleSHA256First4 payload)) else ChecksumMismatch;
  Ok (hdr, payload, r).

(** ** Well-formed messages

    The ranges of the Go types and the limits the decoders enforce. *)

Definition wf_string (s : list byte) : Prop := len s <= maxString.
Definition wf_version (m : VersionMsg) : Prop :=
  is_u32 (vm_Version m) /\ is_u64 (vm_Services m) /\ is_i64 (vm_Timestamp m)
  /\ wf_string (vm_AddrRecv m) /\ wf_string (vm_AddrFrom m) /\ is_u64 (vm_Nonce m)
  /\ wf_string (vm_UserAgent m) /\ is_u32 (vm_StartHeight m).
Definition wf_inv (iv : InvVector) : Prop := is_u32 (iv_Type iv) /\ wf_hash (iv_Hash iv).
Definition wf_inventory (l : list InvVector) : Prop := Forall wf_inv l /\ len l <= maxInv.
Definition wf_getblocks (m : GetBlocksMsg) : Prop :=
  is_u32 (gb_Version m) /\ Forall wf_hash (gb_BlockLocatorHashes m)
  /\ len (gb_BlockLocatorHashes m) <= maxLocator /\ wf_hash (gb_HashStop m).
Definition wf_addrs (l : list (list byte)) : Prop := Forall wf_string l /\ len l <= maxAddrs.

(** ** The codecs are exact *)

Lemma codec_exact {A} {wf : A -> Prop} {enc dec} `{!RoundTrip wf enc dec, !Canonical wf enc dec} bs a r :
  dec bs = Ok (a, r) <-> wf a /\ bs = enc a ++ r.
Proof.
  split; [|intros [? ->]; by apply decode_encode].
  intros H. apply (decode_canonical (dec := dec)) in H. tauto.
Qed.

#[export] Instance hash_RoundTrip : RoundTrip wf_hash id (ReadFull HashSize).
Proof. intros h r Hh. by apply ReadFull_app. Qed.
#[export] Instance hash_Canonical : Canonical wf_hash id (ReadFull HashSize).
Proof. intros bs h r H. by apply ReadFull_Ok in H. Qed.

#[export] Instance string_RoundTrip : RoundTrip wf_string writeString readString.
Proof.
  intros s r Hs. unfold wf_string, writeString, readString, maxString in *.
  assert (is_u64 (len s)) by (unfold is_u64; lia).
  read_all. ztest. by read_all.
Qed.
#[export] Instance string_Canonical : Canonical wf_string writeString readString.
Proof.
  intros bs s r H. unfold readString, maxString in H. inv_ok. unread. bool_to_prop. norm_len.
  unfold writeString, wf_string, maxString. by rewrite <- app_assoc.
Qed.

#[export] Instance inv_vector_RoundTrip : RoundTrip wf_inv encodeInvVector decodeInvVector.
Proof.
  intros [t h] r [Ht Hh]. simpl in *. unfold encodeInvVector, decodeInvVector; simpl.
  read_all. by rewrite ReadUintLE_Put32 by done.
Qed.
#[export] Instance inv_vector_Canonical : Canonical wf_inv encodeInvVector decodeInvVector.
Proof.
  intros bs v r H. unfold decodeInvVector in H. inv_ok. unread.
  unfold encodeInvVector, wf_inv; simpl. rewrite Put32_ReadUintLE by done.
  split; [by rewrite <- app_assoc|]. split; [by apply ReadUintLE_u32|done].
Qed.

#[export] Instance inv_RoundTrip : RoundTrip wf_inventory inv_Encode inv_Decode.
Proof.
  intros l r [Hl Hn]. unfold inv_Encode, inv_Decode, maxInv in *.
  assert (is_u64 (len l)) by (by apply count_u64).
  read_all. ztest. by rewrite Nat2Z.id, ReadN_encode.
Qed.
#[export] Instance inv_Canonical : Canonical wf_inventory inv_Encode inv_Decode.
Proof.
  intros bs l r H. unfold inv_Decode, maxInv in H. inv_ok. unread. bool_to_prop. norm_len.
  unfold inv_Encode, wf_inventory, maxInv. by rewrite <- app_assoc.
Qed.

#[export] Instance getdata_RoundTrip : RoundTrip wf_inventory getdata_Encode getdata_Decode.
Proof. intros l r Hl. unfold getdata_Decode. by rewrite (decode_encode (dec := inv_Decode)). Qed.
#[export] Instance getdata_Canonical : Canonical wf_inventory getdata_Encode getdata_Decode.
Proof.
  intros bs l r H. unfold getdata_Decode in H. inv_ok.
  by apply (decode_canonical (dec := inv_Decode)).
Qed.

#[export] Instance addr_RoundTrip : RoundTrip wf_addrs addr_Encode addr_Decode.
Proof.
  intros l r [Hl Hn]. unfold addr_Encode, addr_Decode, maxAddrs in *.
  assert (is_u64 (len l)) by (apply count_u64; lia).
  read_all. ztest. by rewrite Nat2Z.id, ReadN_encode.
Qed.
#[export] Instance addr_Canonical : Canonical wf_addrs addr_Encode addr_Decode.
Proof.
  intros bs l r H. unfold addr_Decode, maxAddrs in H. inv_ok. unread. bool_to_prop. norm_len.
  unfold addr_Encode, wf_addrs, maxAddrs. by rewrite <- app_assoc.
Qed.

#[export] Instance getblocks_RoundTrip : RoundTrip wf_getblocks getblocks_Encode getblocks_Decode.
Proof.
  intros [v l s] r (Hv & Hl & Hn & Hs). simpl in *.
  unfold getblocks_Encode, getblocks_Decode, maxLocator in *; simpl.
  assert (is_u64 (len l)) by (apply count_u64; lia).
  read_all. ztest. rewrite <- (map_id l) at 2.
  rewrite Nat2Z.id, <- ?app_assoc, (ReadN_encode (enc := id)) by done. cbn [rbind].
  read_all. by rewrite ReadUintLE_Put32 by done.
Qed.
#[export] Instance getblocks_Canonical : Canonical wf_getblocks getblocks_Encode getblocks_Decode.
Proof.
  intros bs m r H. unfold getblocks_Decode, maxLocator in H. inv_ok. unread. bool_to_prop. norm_len.
  unfold getblocks_Encode, wf_getblocks, maxLocator; simpl. rewrite Put32_ReadUintLE by done.
  change (map id) with (map (fun x : list byte => x)). rewrite map_id, <- !app_assoc.
  split; [done|]. split; [by apply ReadUintLE_u32|]. done.
Qed.

Lemma nonce_RoundTrip n r : is_u64 n -> ping_Decode (PutUint64LE n ++ r) = Ok (n, r).
Proof. intros Hn. unfold ping_Decode. read_all. by rewrite ReadUintLE_Put64 by done. Qed.
Lemma nonce_Canonical bs n r :
  ping_Decode bs = Ok (n, r) -> bs = PutUint64LE n ++ r /\ is_u64 n.
Proof.
  intros H. unfold ping_Decode in H. inv_ok. unread. rewrite Put64_ReadUintLE by done.
  split; [done|by apply ReadUintLE_u64].
Qed.
#[export] Instance ping_RoundTrip : RoundTrip is_u64 ping_Encode ping_Decode := fun n r => nonce_RoundTrip n r.
#[export] Instance ping_Canonical : Canonical is_u64 ping_Encode ping_Decode := nonce_Canonical.
#[export] Instance pong_RoundTrip : RoundTrip is_u64 pong_Encode pong_Decode := fun n r => nonce_RoundTrip n r.
#[export] Instance pong_Canonical : Canonical is_u64 pong_Encode pong_Decode := nonce_Canonical.

Ltac lens := rewrite ?length_app, ?length_PutUint32LE, ?length_PutUint64LE.

#[export] Instance version_RoundTrip : RoundTrip wf_version version_Encode version_Decode.
Proof.
  intros [v s t ar af n ua h] r (Hv & Hs & Ht & Har & Haf & Hn & Hua & Hh). simpl in *.
  unfold version_Encode, version_Decode; simpl.
  rewrite <- !app_assoc. set (V := PutUint32LE v). set (S := PutUint64LE s).
  set (T := PutUint64LE (u64 t)).
  rewrite (app_assoc S), (app_assoc V), ReadFull_app by (subst V S T; by lens). cbn [rbind].
  do 2 (rewrite (decode_encode (dec := readString)) by done; cbn [rbind]).
  read_all. rewrite (decode_encode (dec := readString)) by done; cbn [rbind].
  read_all.
  assert (length V = 4 /\ length S = 8 /\ length T = 8)%nat as (LV & LS & LT)
    by (subst V S T; by lens).
  set (buf := V ++ S ++ T).
  rewrite (slice_at 0 4 buf [] V (S ++ T)), (slice_at 4 12 buf V S T),
    (slice_at 12 20 buf (V ++ S) T [])
    by (subst buf; rewrite ?app_nil_r, <- ?app_assoc; rewrite ?length_app; first [done | simpl; lia]).
  subst V S T. rewrite !ReadUintLE_Put32, !ReadUintLE_Put64 by (done || apply u64_range).
  by rewrite i64_u64.
Qed.

#[export] Instance version_Canonical : Canonical wf_version version_Encode version_Decode.
Proof.
  intros bs m r H. unfold version_Decode in H. inv_ok. unread.
  repeat match goal with H : readString _ = Ok _ |- _ => apply decode_canonical in H as [-> ?] end.
  unfold version_Encode, wf_version; simpl.
  match goal with H : length _ = 20%nat |- _ => rename H into L end.
  rewrite u64_i64 by (apply ReadUintLE_u64; by rewrite length_slice by lia).
  rewrite !Put64_ReadUintLE, !Put32_ReadUintLE by (done || (rewrite length_slice by lia; done)).
  split.
  - rewrite <- !app_assoc. match goal with |- ?x ++ _ = _ =>
      assert (x = slice 0 4 x ++ slice 4 12 x ++ slice 12 20 x) as E
        by (rewrite !slice_slice, slice_all by (done || lia); done); rewrite E at 1 end.
    by rewrite <- !app_assoc.
  - split_and!; try done; try apply i64_range;
      first [apply ReadUintLE_u32 | apply ReadUintLE_u64]; try done; by rewrite length_slice by lia.
Qed.

(** ** Framing *)

Lemma length_checksum p : length (doubleSHA256Checksum p) = 4%nat.
Proof. unfold doubleSHA256Checksum. rewrite length_take. by rewrite length_sha256. Qed.

Lemma length_pad_command cmd : length (pad_command cmd) = 12%nat.
Proof. unfold pad_command. rewrite length_app, length_take, length_replicate. lia. Qed.

(** The reader's checksum is the writer's. *)
Lemma First4_Checksum p : doubleSHA256First4 p = doubleSHA256Checksum p.
Proof. done. Qed.

Lemma command_end_pad cmd n :
  Byte.x00 ∉ cmd -> command_end (cmd ++ replicate n Byte.x00) = length cmd.
Proof.
  induction cmd as [|b cmd IH]; intros Hc; simpl; [by destruct n|].
  apply not_elem_of_cons in Hc as [Hb Hc]. rewrite decide_False by congruence. by rewrite IH.
Qed.

(** A command of at most 12 bytes without zero bytes is read back. *)
Lemma CommandString_pad h cmd :
  (length cmd <= 12)%nat -> Byte.x00 ∉ cmd -> mh_Command h = pad_command cmd ->
  CommandString h = cmd.
Proof.
  intros Hl Hz Hc. unfold CommandString. rewrite Hc. unfold pad_command.
  rewrite (take_ge cmd) by lia. rewrite command_end_pad by done. by rewrite take_app_length.
Qed.

Definition header_bytes (h : MessageHeader) : list byte :=
  mh_Magic h ++ mh_Command h ++ PutUint32LE (mh_Length h) ++ mh_Checksum h.
Definition wf_msg_header (h : MessageHeader) : Prop :=
  length (mh_Magic h) = 4%nat /\ length (mh_Command h) = 12%nat
  /\ 0 <= mh_Length h <= MaxPayloadSize /\ length (mh_Checksum h) = 4%nat.

Lemma max_payload_u32 z : 0 <= z <= MaxPayloadSize -> is_u32 z.
Proof. unfold MaxPayloadSize, is_u32. lia. Qed.

#[export] Instance msg_header_RoundTrip : RoundTrip wf_msg_header header_bytes DecodeMessageHeader.
Proof.
  intros [M C L K] r (HM & HC & HL & HK). simpl in *.
  unfold DecodeMessageHeader, header_bytes; simpl. set (N := PutUint32LE L).
  assert (length N = 4%nat) as LN by (subst N; by lens).
  rewrite ReadFull_app by (rewrite !length_app; unfold MessageHeaderSize; lia). cbn [rbind].
  set (buf := M ++ _).
  rewrite (slice_at 0 4 buf [] M (C ++ N ++ K)), (slice_at 4 16 buf M C (N ++ K)),
    (slice_at 16 20 buf (M ++ C) N K), (slice_at 20 24 buf (M ++ C ++ N) K [])
    by (subst buf; rewrite ?app_nil_r, <- ?app_assoc; rewrite ?length_app; first [done | simpl; lia]).
  subst N. rewrite ReadUintLE_Put32 by (by apply max_payload_u32). by ztest.
Qed.

#[export] Instance msg_header_Canonical : Canonical wf_msg_header header_bytes DecodeMessageHeader.
Proof.
  intros bs h r H. unfold DecodeMessageHeader, MessageHeaderSize in H. inv_ok. unread. bool_to_prop.
  match goal with H : length ?x = 24%nat |- _ =>
    pose proof (length_slice 0 4 x ltac:(lia) ltac:(lia)); pose proof (length_slice 4 16 x ltac:(lia) ltac:(lia));
    pose proof (length_slice 16 20 x ltac:(lia) ltac:(lia)) as L4; pose proof (length_slice 20 24 x ltac:(lia) ltac:(lia)) end.
  pose proof (ReadUintLE_u32 _ L4). unfold is_u32, header_bytes, wf_msg_header in *; simpl.
  rewrite Put32_ReadUintLE, !slice_slice, slice_all by (done || lia).
  split_and!; done || lia.
Qed.

(** The bytes of a frame that [ReadMessage] accepts. *)
Lemma ReadMessage_Ok magic bs h p r :
  ReadMessage magic bs = Ok (h, p, r) <->
  wf_msg_header h /\ mh_Magic h = magic /\ mh_Length h = len p
  /\ mh_Checksum h = doubleSHA256Checksum p /\ bs = header_bytes h ++ p ++ r.
Proof.
  unfold ReadMessage. split.
  - intros H. inv_ok. bool_to_prop.
    match goal with H : DecodeMessageHeader _ = _ |- _ => apply decode_canonical in H as [-> Hwf] end.
    unread. pose proof Hwf as (_ & _ & ? & _). rewrite <- First4_Checksum. split_and!; done || lia.
  - intros (Hwf & Hm & Hl & Hc & ->).
    rewrite (decode_encode (dec := DecodeMessageHeader)) by done. cbn [rbind rwrap].
    rewrite bool_decide_true by done. simpl.
    rewrite ReadFull_app by lia. cbn [rbind rwrap]. by rewrite First4_Checksum, bool_decide_true by done.
Qed.

(** ** Properties *)

(** Framing is exact.  What a peer writes for a command of at most 12 bytes
    (without zero bytes) and a payload of at most 4 MiB is read back by a peer of the
    same network as exactly that command and that payload, whatever follows on the
    stream; conversely every message [ReadMessage] returns was framed with the
    reader's magic, a length within the limit and the checksum of the payload that is
    returned, and nothing else was consumed. *)
Theorem message_framing magic cmd payload h bs p r :
  length magic = 4%nat -> (length cmd <= 12)%nat -> Byte.x00 ∉ cmd -> len payload <= MaxPayloadSize ->
  (exists hdr, ReadMessage magic (WriteMessage magic cmd payload ++ r) = Ok (hdr, payload, r)
     /\ CommandString hdr = cmd)
  /\ (ReadMessage magic bs = Ok (h, p, r) ->
      len p <= MaxPayloadSize
      /\ exists c, length c = 12%nat
          /\ bs = magic ++ c ++ PutUint32LE (len p) ++ doubleSHA256Checksum p ++ p ++ r).
Proof.
  intros Hm Hc Hz Hp. split.
  - exists {| mh_Magic := magic; mh_Command := pad_command cmd; mh_Length := len payload;
              mh_Checksum := doubleSHA256Checksum payload |}.
    split; [|by apply CommandString_pad].
    apply ReadMessage_Ok. unfold wf_msg_header, WriteMessage, EncodeMessageHeader, header_bytes; simpl.
    rewrite length_pad_command, length_checksum, u32_small, <- !app_assoc by (apply max_payload_u32; lia).
    split_and!; done || lia.
  - intros H. apply ReadMessage_Ok in H as ((_ & HC & HL & _) & <- & E & Hk & ->).
    split; [lia|]. exists (mh_Command h). split; [done|].
    unfold header_bytes. by rewrite E, Hk, <- !app_assoc.
Qed.

Lemma message_framing_witness :
  exists hdr, ReadMessage (bytes_of [0xFA; 0x1C; 0xC0; 0x02])
    (WriteMessage (bytes_of [0xFA; 0x1C; 0xC0; 0x02]) CmdPing (ping_Encode 77) ++ [])
    = Ok (hdr, ping_Encode 77, []) /\ CommandString hdr = CmdPing.
Proof.
  refine (proj1 (message_framing _ CmdPing (ping_Encode 77) {| mh_Magic := []; mh_Command := [];
    mh_Length := 0; mh_Checksum := [] |} [] [] [] _ _ _ _)).
  - done.
  - vm_compute. lia.
  - apply (bool_decide_unpack _). vm_compute. exact I.
  - vm_compute. done.
Defined.

(** Every payload codec is exact: for [version], [inv] and [getdata],
    [getblocks], [addr], [ping] and [pong] the decoder returns a message if and only
    if the input starts with that message's encoding and the message is within the
    limits (50000 inventory vectors, 500 locator hashes, 1000 addresses, strings of 1024
    bytes), and leaves exactly the rest. *)
Theorem payload_codecs_exact bs r :
  (forall m, version_Decode bs = Ok (m, r) <-> wf_version m /\ bs = version_Encode m ++ r)
  /\ (forall l, inv_Decode bs = Ok (l, r) <-> wf_inventory l /\ bs = inv_Encode l ++ r)
  /\ (forall l, getdata_Decode bs = Ok (l, r) <-> wf_inventory l /\ bs = getdata_Encode l ++ r)
  /\ (forall m, getblocks_Decode bs = Ok (m, r) <-> wf_getblocks m /\ bs = getblocks_Encode m ++ r)
  /\ (forall l, addr_Decode bs = Ok (l, r) <-> wf_addrs l /\ bs = addr_Encode l ++ r)
  /\ (forall n, ping_Decode bs = Ok (n, r) <-> is_u64 n /\ bs = ping_Encode n ++ r)
  /\ (forall n, pong_Decode bs = Ok (n, r) <-> is_u64 n /\ bs = pong_Encode n ++ r).
Proof. split_and!; intros m; apply codec_exact. Qed.
