(* ===== verification/TimeAdjust.v ===== *)
(** * Network-adjusted time

    Models [src/internal/timeadjust/timeadjust.go]: the clock offsets that peers
    report in their version messages and the median that is added to the local clock.
    [now] is the value of [time.Now().Unix()] read by the call. *)
From S2P Require Import Prelude.
From stdpp Require Import sorting.
#[local] Open Scope Z_scope.
#[local] Open Scope go_scope.

(** 70 minutes, in seconds. *)
Definition MaxAllowedOffset : Z := 70 * 60.
Definition MinSamples : Z := 5.
Definition MaxSamples : Z := 200.

Record AdjustedClock := {
  ac_offsets : list Z; ac_known : gset (list byte); ac_median : Z; ac_warned : bool }.

Definition clock_New : AdjustedClock :=
  {| ac_offsets := [0]; ac_known := ∅; ac_median := 0; ac_warned := false |}.

(** [sort.Slice] with [<] on [int64]: any sort gives the one sorted permutation.  The
    index [len/2] is in range because the list is never empty ([offsets_bounds] below);
    on an empty list the code would panic. *)
Definition recalcMedian (c : AdjustedClock) : AdjustedClock :=
  let sorted := merge_sort Z.le (ac_offsets c) in
  match sorted !! (length sorted / 2)%nat with
  | None => c
  | Some med =>
      if len (ac_offsets c) >=? MinSamples then
        if (med >? MaxAllowedOffset) || (med <? - MaxAllowedOffset) then
          {| ac_offsets := ac_offsets c; ac_known := ac_known c; ac_median := 0; ac_warned := true |}
        else
          {| ac_offsets := ac_offsets c; ac_known := ac_known c; ac_median := med;
             ac_warned := ac_warned c |}
      else c
  end.

Definition AddSample (c : AdjustedClock) (now : Z) (addr : list byte) (peerTime : Z) : AdjustedClock :=
  if decide (addr ∈ ac_known c) then c
  else
    let known := {[ addr ]} ∪ ac_known c in
    let offset := i64 (peerTime - now) in
    let offsets := if len (ac_offsets c) >=? MaxSamples then tail (ac_offsets c) else ac_offsets c in
    recalcMedian {| ac_offsets := offsets ++ [offset]; ac_known := known;
                    ac_median := ac_median c; ac_warned := ac_warned c |}.

Definition clock_Now (c : AdjustedClock) (now : Z) : Z := i64 (now + ac_median c).
Definition Offset (c : AdjustedClock) : Z := ac_median c.
Definition SampleCount (c : AdjustedClock) : Z := len (ac_offsets c).

(** ** Specification

    The clock as a function of the samples it was given: the first report of each
    address, of which the last 200 count (the local node's zero is the oldest), and
    their upper median, applied from five samples on and only within 70 minutes. *)

Definition sample : Type := Z * list byte * Z.

Definition clock_run (c : AdjustedClock) (hs : list sample) : AdjustedClock :=
  fold_left (fun c '(now, addr, t) => AddSample c now addr t) hs c.

Fixpoint first_reports (seen : gset (list byte)) (hs : list sample) : list Z :=
  match hs with
  | [] => []
  | (now, addr, t) :: hs =>
      if decide (addr ∈ seen) then first_reports seen hs
      else i64 (t - now) :: first_reports ({[ addr ]} ∪ seen) hs
  end.

Definition lastn {A} (n : nat) (l : list A) : list A := drop (length l - n) l.

Definition below (m : Z) (l : list Z) : Z := len (filter (fun x => x < m) l).
Definition upto (m : Z) (l : list Z) : Z := len (filter (fun x => x <= m) l).

(** At most half of the samples are below [m], more than half are not above it. *)
Definition upper_median (m : Z) (l : list Z) : Prop := 2 * below m l <= len l < 2 * upto m l.

(** ** The median *)

Lemma filter_none {A} (P : A -> Prop) `{!forall x, Decision (P x)} (l : list A) :
  Forall (fun x => ~ P x) l -> filter P l = [].
Proof. induction 1 as [|x l Hx _ IH]; [done|]. by rewrite filter_cons_False. Qed.
Lemma filter_all {A} (P : A -> Prop) `{!forall x, Decision (P x)} (l : list A) :
  Forall P l -> filter P l = l.
Proof. induction 1 as [|x l Hx _ IH]; [done|]. by rewrite filter_cons_True, IH. Qed.

Lemma sorted_index m k (s : list Z) :
  StronglySorted Z.le s -> s !! k = Some m -> below m s <= Z.of_nat k < upto m s.
Proof.
  intros Hs Hk. pose proof (lookup_lt_Some _ _ _ Hk). rewrite <- (take_drop_middle s k m Hk) in Hs |- *.
  apply StronglySorted_app in Hs as (Hlr & _ & Hr). apply StronglySorted_inv in Hr as [_ Hr].
  unfold below, upto. rewrite !filter_app, !length_app.
  rewrite filter_cons_False, filter_cons_True by lia.
  rewrite (filter_none (fun x => x < m) (drop _ _)) by (eapply Forall_impl; [exact Hr|]; lia).
  rewrite (filter_all (fun x => x <= m) (take k s))
    by (rewrite Forall_forall; intros x Hx; apply Hlr; [done|set_solver]).
  pose proof (length_filter (fun x => x < m) (take k s)).
  rewrite length_take in *. simpl. lia.
Qed.

Lemma below_perm m l l' : l ≡ₚ l' -> below m l = below m l'.
Proof. intros H. unfold below. by rewrite H. Qed.
Lemma upto_perm m l l' : l ≡ₚ l' -> upto m l = upto m l'.
Proof. intros H. unfold upto. by rewrite H. Qed.

Lemma sorted_offsets l :
  StronglySorted Z.le (merge_sort Z.le l) /\ merge_sort Z.le l ≡ₚ l.
Proof. split; [apply (StronglySorted_merge_sort Z.le)|apply (merge_sort_Permutation Z.le)]. Qed.

Lemma median_lookup l m :
  merge_sort Z.le l !! (length (merge_sort Z.le l) / 2)%nat = Some m -> upper_median m l.
Proof.
  intros Hm. destruct (sorted_offsets l) as [Hs Hp].
  pose proof (sorted_index m _ _ Hs Hm) as B. rewrite (below_perm m _ _ Hp), (upto_perm m _ _ Hp) in B.
  unfold upper_median. rewrite <- (Permutation_length Hp).
  pose proof (Nat.div_mod_eq (length (merge_sort Z.le l)) 2).
  pose proof (Nat.mod_upper_bound (length (merge_sort Z.le l)) 2). lia.
Qed.

Lemma median_exists l : l <> [] ->
  exists m, merge_sort Z.le l !! (length (merge_sort Z.le l) / 2)%nat = Some m.
Proof.
  intros Hl. apply lookup_lt_is_Some_2. rewrite (Permutation_length (proj2 (sorted_offsets l))).
  destruct l; [done|]. apply Nat.div_lt; simpl; lia.
Qed.

Lemma below_mono m m' l : m' < m -> upto m' l <= below m l.
Proof.
  intros Hm. unfold below, upto. apply Nat2Z.inj_le. induction l as [|x l IH]; simpl; [lia|].
  rewrite !filter_cons. repeat case_decide; simpl; lia.
Qed.

Lemma upper_median_unique m m' l : upper_median m l -> upper_median m' l -> m = m'.
Proof.
  unfold upper_median. intros H H'. destruct (Z.lt_trichotomy m m') as [Hlt|[?|Hlt]]; [|done|];
    pose proof (below_mono _ _ l Hlt); lia.
Qed.

(** ** The state after any run *)

(** What the clock shows for a list of samples. *)
Definition shows (l : list Z) (c : AdjustedClock) : Prop :=
  ac_offsets c = l
  /\ (if len l <? MinSamples then Offset c = 0
      else forall m, upper_median m l ->
           Offset c = if (- MaxAllowedOffset <=? m) && (m <=? MaxAllowedOffset) then m else 0).

Lemma recalcMedian_shows c :
  ac_offsets c <> [] -> (len (ac_offsets c) < MinSamples -> ac_median c = 0) ->
  shows (ac_offsets c) (recalcMedian c) /\ ac_known (recalcMedian c) = ac_known c.
Proof.
  intros Hne H0. destruct (median_exists _ Hne) as [med Hm]. unfold recalcMedian, shows, Offset. rewrite Hm.
  apply median_lookup in Hm. rewrite Z.geb_leb.
  destruct (Z.leb_spec MinSamples (len (ac_offsets c))).
  - rewrite (proj2 (Z.ltb_ge (len (ac_offsets c)) MinSamples)) by done.
    rewrite Z.gtb_ltb. destruct (orb _ _) eqn:E; simpl; (split; [split; [done|]|done]); intros m Hm';
      rewrite (upper_median_unique m med _ Hm' Hm).
    + destruct (Z.leb_spec (- MaxAllowedOffset) med), (Z.leb_spec med MaxAllowedOffset); try done.
      apply orb_true_iff in E as [E|E]; apply Z.ltb_lt in E; lia.
    + bool_to_prop. ztest. done.
  - rewrite (proj2 (Z.ltb_lt (len (ac_offsets c)) MinSamples)) by done. auto.
Qed.

Lemma length_lastn {A} n (l : list A) : length (lastn n l) = Nat.min n (length l).
Proof. unfold lastn. rewrite length_drop. lia. Qed.

Lemma tail_is_drop {A} (l : list A) : tail l = drop 1 l.
Proof. by destruct l. Qed.

(** Dropping the oldest of a full window and appending keeps the last [n]. *)
Lemma lastn_snoc {A} n (l : list A) x :
  (0 < n)%nat ->
  lastn n (l ++ [x]) =
  (if (n <=? length (lastn n l))%nat then tail (lastn n l) else lastn n l) ++ [x].
Proof.
  intros Hn. rewrite length_lastn. unfold lastn. rewrite length_app; simpl.
  destruct (Nat.leb_spec n (Nat.min n (length l))) as [Hle|Hlt].
  - rewrite drop_app_le by lia. f_equal. rewrite tail_is_drop, drop_drop. f_equal. lia.
  - rewrite drop_app_le by lia. by replace (length l + 1 - n)%nat with (length l - n)%nat by lia.
Qed.

Lemma shows_snoc l c now addr t :
  l <> [] -> shows (lastn 200 l) c -> addr ∉ ac_known c ->
  shows (lastn 200 (l ++ [i64 (t - now)])) (AddSample c now addr t)
  /\ ac_known (AddSample c now addr t) = {[ addr ]} ∪ ac_known c.
Proof.
  intros Hl [Ho Hm] Ha. unfold AddSample. rewrite decide_False by done.
  rewrite lastn_snoc by lia. rewrite Z.geb_leb, Ho.
  replace (MaxSamples <=? len (lastn 200 l)) with (200 <=? length (lastn 200 l))%nat
    by (unfold MaxSamples; destruct (Nat.leb_spec 200 (length (lastn 200 l))); ztest; lia).
  match goal with |- context [recalcMedian ?c'] => apply (recalcMedian_shows c') end;
    cbn [ac_offsets ac_median].
  - by intros [_ ?]%app_eq_nil.
  - rewrite length_app; cbn [length]. unfold MinSamples in *. intros Hlt.
    rewrite (proj2 (Z.ltb_lt _ _)) in Hm; [done|].
    destruct (Nat.leb_spec 200 (length (lastn 200 l))); [|lia].
    rewrite tail_is_drop, length_drop in Hlt. lia.
Qed.

(** The clock after a run, from a state that already shows [l]. *)
Lemma clock_run_shows hs l c :
  l <> [] -> shows (lastn 200 l) c ->
  shows (lastn 200 (l ++ first_reports (ac_known c) hs)) (clock_run c hs).
Proof.
  revert l c. induction hs as [|[[now addr] t] hs IH]; intros l c Hl Hc; simpl.
  { by rewrite app_nil_r. }
  case_decide as Ha.
  - unfold AddSample. rewrite decide_True by done. by apply IH.
  - destruct (shows_snoc l c now addr t Hl Hc Ha) as [Hs Hk].
    rewrite cons_middle, app_assoc, <- Hk. apply IH; [by intros [_ ?]%app_eq_nil|done].
Qed.

Lemma New_shows : shows (lastn 200 [0]) clock_New.
Proof. done. Qed.

Lemma run_shows hs : shows (lastn 200 (0 :: first_reports ∅ hs)) (clock_run clock_New hs).
Proof. exact (clock_run_shows hs [0] clock_New ltac:(done) New_shows). Qed.

(** The retained samples: at least one, at most 200. *)
Lemma offsets_bounds hs : 1 <= SampleCount (clock_run clock_New hs) <= MaxSamples.
Proof.
  destruct (run_shows hs) as [Ho _]. unfold SampleCount. rewrite Ho, length_lastn.
  unfold MaxSamples; cbn [length]. lia.
Qed.

Lemma upper_median_exists l : l <> [] -> exists m, upper_median m l.
Proof. intros Hl. destruct (median_exists l Hl) as [m Hm]. exists m. by apply median_lookup. Qed.

Lemma Offset_cases hs c :
  c = clock_run clock_New hs ->
  Offset c = 0
  \/ exists m, upper_median m (ac_offsets c) /\ Offset c = m /\ - MaxAllowedOffset <= m <= MaxAllowedOffset.
Proof.
  intros ->. destruct (run_shows hs) as [Ho Hm]. rewrite Ho.
  destruct (Z.ltb_spec (len (lastn 200 (0 :: first_reports ∅ hs))) MinSamples); [by left|].
  destruct (upper_median_exists (lastn 200 (0 :: first_reports ∅ hs))) as [m Hu].
  { intros E. apply (f_equal length) in E. rewrite length_lastn in E. cbn [length] in E. lia. }
  specialize (Hm m Hu). destruct (andb _ _) eqn:E; [right|by left].
  exists m. bool_to_prop. done.
Qed.

(** More than half of the samples in an interval put the median there. *)
Lemma majority_median lo hi m l :
  upper_median m l -> len l < 2 * len (filter (fun x => lo <= x <= hi) l) -> lo <= m <= hi.
Proof.
  unfold upper_median. intros Hm Hmaj.
  assert (forall (P Q : Z -> Prop) `{!forall x, Decision (P x), !forall x, Decision (Q x)},
    (forall x, P x -> Q x -> False) -> len (filter P l) + len (filter Q l) <= len l) as Hdisj.
  { clear. intros P Q ?? Hpq. induction l as [|x l IH]; simpl; [lia|].
    rewrite !filter_cons. repeat case_decide; simpl; try lia. exfalso; eauto. }
  split; apply Z.nlt_ge; intros Hlt.
  - pose proof (Hdisj (fun x => x <= m) (fun x => lo <= x <= hi) _ _ ltac:(simpl; intros; lia)).
    unfold upto in Hm. lia.
  - assert (len (filter (fun x => lo <= x <= hi) l) <= below m l); [|lia].
    unfold below. clear -Hlt. apply Nat2Z.inj_le.
    induction l as [|x l IH]; simpl; [lia|]. rewrite !filter_cons. repeat case_decide; simpl; lia.
Qed.

(** ** Properties *)

(** After any sequence of [AddSample] calls, whatever peers report, the clock
    holds the last 200 of the local zero and the first report of each address; the
    offset it applies is zero below five samples, and otherwise the upper median of
    those samples (at most half of them below it, more than half not above it) if that
    is within 70 minutes, else zero.  So the correction never exceeds 70 minutes. *)
Theorem adjusted_clock_exact hs :
  let c := clock_run clock_New hs in
  let l := lastn 200 (0 :: first_reports ∅ hs) in
  ac_offsets c = l
  /\ (len l < MinSamples -> Offset c = 0)
  /\ (MinSamples <= len l ->
      exists m, upper_median m l
        /\ Offset c = (if (- MaxAllowedOffset <=? m) && (m <=? MaxAllowedOffset) then m else 0))
  /\ Z.abs (Offset c) <= 4200.
Proof.
  intros c l. destruct (run_shows hs) as [Ho Hm]. fold c l in Ho, Hm.
  split; [done|]. split; [|split].
  - intros Hl. by rewrite (proj2 (Z.ltb_lt _ _)) in Hm.
  - intros Hl. rewrite (proj2 (Z.ltb_ge _ _)) in Hm by done.
    destruct (upper_median_exists l) as [m Hu]; [|exists m; auto].
    intros E. rewrite E in Hl. by vm_compute in Hl.
  - destruct (Offset_cases hs c eq_refl) as [->|(m & _ & -> & Hb)]; unfold MaxAllowedOffset in *; lia.
Qed.

(** C37. A dishonest minority cannot move the clock: as long as more than half of the
    retained samples are between [lo] and [hi] (with [lo <= 0 <= hi]), the applied
    offset is between [lo] and [hi] too, whatever the other peers reported. *)
Theorem clock_honest_majority hs lo hi :
  let c := clock_run clock_New hs in
  lo <= 0 <= hi ->
  SampleCount c < 2 * len (filter (fun x => lo <= x <= hi) (ac_offsets c)) ->
  lo <= Offset c <= hi.
Proof.
  intros c H0 Hmaj. destruct (Offset_cases hs c eq_refl) as [->|(m & Hu & -> & _)]; [done|].
  by apply (majority_median lo hi m (ac_offsets c)).
Qed.

(** Three honest peers, two liars that agree on one hour. *)
Definition example_samples : list sample :=
  [(1000, [Byte.x01], 1001); (1000, [Byte.x02], 4600); (1000, [Byte.x03], 999);
   (1001, [Byte.x04], 4601); (1002, [Byte.x05], 1004); (1003, [Byte.x02], 9000)].

Lemma clock_honest_majority_witness :
  Offset (clock_run clock_New example_samples) = 2 /\
  -1 <= Offset (clock_run clock_New example_samples) <= 2.
Proof.
  split; [by vm_compute|].
  apply (clock_honest_majority example_samples (-1) 2); [lia|by vm_compute].
Defined.
