(* ===== verification/Peer.v ===== *)
(** * One connected peer

    Models [src/internal/p2p/peer.go]: the state kept for a remote node and every
    operation on it.  The socket is represented by the bytes read from it; [p_done] is
    whether [Close] was called.  Times and durations are nanoseconds ([time.Now()] is
    the argument [now]; differences are far below the 292 years where [time.Duration]
    saturates); [unix] is the second.  Each method locks [mu] from start to end. *)
From S2P Require Import Prelude.
From S2P Require Import Types.
From S2P Require Import Sha256.
From S2P Require Import Crypto.
From S2P Require Import Params.
From S2P Require Import Protocol.

Definition peerSendQueueSize : Z := 1024.
Definition PingInterval : Z := 2 * time_Minute.
Definition PongTimeout : Z := 20 * time_Minute.
Definition BanThreshold : Z := 100.
Definition BanDuration : Z := 24 * time_Hour.
Definition RateLimitWindow : Z := 10 * time_Second.
Definition RateLimitMaxMsgs : Z := 500.

Definition unix (t : Z) : Z := t / time_Second.

(** ** State *)

(** The fields of the liveness group ([lastRecv], [lastSend] in seconds). *)
Record Liveness := {
  pl_lastRecv : Z;
  pl_lastSend : Z;
  pl_pingNonce : Z;
  pl_pingSent : Z;
  pl_lastPong : Z;
  pl_pingLatency : Z;
  pl_minPingLatency : Z }.

Record Peer := {
  p_addr : list byte;
  p_inbound : bool;
  p_magic : list byte;
  p_id : Z;
  p_connType : string;
  p_connectedAt : Z;
  p_version : option VersionMsg;
  p_live : Liveness;
  p_lastBlockTime : Z;
  p_lastTxTime : Z;
  p_syncedHeaders : Z;
  p_syncedBlocks : Z;
  p_banScore : Z;
  p_msgCount : Z;
  p_windowStart : Z;
  p_getaddrResponded : bool;
  p_knownInv : gset Hash;
  p_sendQueue : list (list byte * list byte);
  p_bytesRecv : Z;
  p_bytesSent : Z;
  p_done : bool }.

Definition set_id (x : Z) (p : Peer) : Peer :=
  {| p_addr := p_addr p; p_inbound := p_inbound p; p_magic := p_magic p; p_id := x; p_connType
     := p_connType p; p_connectedAt := p_connectedAt p; p_version := p_version p; p_live :=
     p_live p; p_lastBlockTime := p_lastBlockTime p; p_lastTxTime := p_lastTxTime p;
     p_syncedHeaders := p_syncedHeaders p; p_syncedBlocks := p_syncedBlocks p; p_banScore :=
     p_banScore p; p_msgCount := p_msgCount p; p_windowStart := p_windowStart p;
     p_getaddrResponded := p_getaddrResponded p; p_knownInv := p_knownInv p; p_sendQueue :=
     p_sendQueue p; p_bytesRecv := p_bytesRecv p; p_bytesSent := p_bytesSent p; p_done := p_done
     p |}.
Definition set_connType (x : string) (p : Peer) : Peer :=
  {| p_addr := p_addr p; p_inbound := p_inbound p; p_magic := p_magic p; p_id := p_id p;
     p_connType := x; p_connectedAt := p_connectedAt p; p_version := p_version p; p_live :=
     p_live p; p_lastBlockTime := p_lastBlockTime p; p_lastTxTime := p_lastTxTime p;
     p_syncedHeaders := p_syncedHeaders p; p_syncedBlocks := p_syncedBlocks p; p_banScore :=
     p_banScore p; p_msgCount := p_msgCount p; p_windowStart := p_windowStart p;
     p_getaddrResponded := p_getaddrResponded p; p_knownInv := p_knownInv p; p_sendQueue :=
     p_sendQueue p; p_bytesRecv := p_bytesRecv p; p_bytesSent := p_bytesSent p; p_done := p_done
     p |}.
Definition set_version (x : option VersionMsg) (p : Peer) : Peer :=
  {| p_addr := p_addr p; p_inbound := p_inbound p; p_magic := p_magic p; p_id := p_id p;
     p_connType := p_connType p; p_connectedAt := p_connectedAt p; p_version := x; p_live :=
     p_live p; p_lastBlockTime := p_lastBlockTime p; p_lastTxTime := p_lastTxTime p;
     p_syncedHeaders := p_syncedHeaders p; p_syncedBlocks := p_syncedBlocks p; p_banScore :=
     p_banScore p; p_msgCount := p_msgCount p; p_windowStart := p_windowStart p;
     p_getaddrResponded := p_getaddrResponded p; p_knownInv := p_knownInv p; p_sendQueue :=
     p_sendQueue p; p_bytesRecv := p_bytesRecv p; p_bytesSent := p_bytesSent p; p_done := p_done
     p |}.
Definition set_live (x : Liveness) (p : Peer) : Peer :=
  {| p_addr := p_addr p; p_inbound := p_inbound p; p_magic := p_magic p; p_id := p_id p;
     p_connType := p_connType p; p_connectedAt := p_connectedAt p; p_version := p_version p;
     p_live := x; p_lastBlockTime := p_lastBlockTime p; p_lastTxTime := p_lastTxTime p;
     p_syncedHeaders := p_syncedHeaders p; p_syncedBlocks := p_syncedBlocks p; p_banScore :=
     p_banScore p; p_msgCount := p_msgCount p; p_windowStart := p_windowStart p;
     p_getaddrResponded := p_getaddrResponded p; p_knownInv := p_knownInv p; p_sendQueue :=
     p_sendQueue p; p_bytesRecv := p_bytesRecv p; p_bytesSent := p_bytesSent p; p_done := p_done
     p |}.
Definition set_lastBlockTime (x : Z) (p : Peer) : Peer :=
  {| p_addr := p_addr p; p_inbound := p_inbound p; p_magic := p_magic p; p_id := p_id p;
     p_connType := p_connType p; p_connectedAt := p_connectedAt p; p_version := p_version p;
     p_live := p_live p; p_lastBlockTime := x; p_lastTxTime := p_lastTxTime p; p_syncedHeaders
     := p_syncedHeaders p; p_syncedBlocks := p_syncedBlocks p; p_banScore := p_banScore p;
     p_msgCount := p_msgCount p; p_windowStart := p_windowStart p; p_getaddrResponded :=
     p_getaddrResponded p; p_knownInv := p_knownInv p; p_sendQueue := p_sendQueue p; p_bytesRecv
     := p_bytesRecv p; p_bytesSent := p_bytesSent p; p_done := p_done p |}.
Definition set_lastTxTime (x : Z) (p : Peer) : Peer :=
  {| p_addr := p_addr p; p_inbound := p_inbound p; p_magic := p_magic p; p_id := p_id p;
     p_connType := p_connType p; p_connectedAt := p_connectedAt p; p_version := p_version p;
     p_live := p_live p; p_lastBlockTime := p_lastBlockTime p; p_lastTxTime := x;
     p_syncedHeaders := p_syncedHeaders p; p_syncedBlocks := p_syncedBlocks p; p_banScore :=
     p_banScore p; p_msgCount := p_msgCount p; p_windowStart := p_windowStart p;
     p_getaddrResponded := p_getaddrResponded p; p_knownInv := p_knownInv p; p_sendQueue :=
     p_sendQueue p; p_bytesRecv := p_bytesRecv p; p_bytesSent := p_bytesSent p; p_done := p_done
     p |}.
Definition set_syncedHeaders (x : Z) (p : Peer) : Peer :=
  {| p_addr := p_addr p; p_inbound := p_inbound p; p_magic := p_magic p; p_id := p_id p;
     p_connType := p_connType p; p_connectedAt := p_connectedAt p; p_version := p_version p;
     p_live := p_live p; p_lastBlockTime := p_lastBlockTime p; p_lastTxTime := p_lastTxTime p;
     p_syncedHeaders := x; p_syncedBlocks := p_syncedBlocks p; p_banScore := p_banScore p;
     p_msgCount := p_msgCount p; p_windowStart := p_windowStart p; p_getaddrResponded :=
     p_getaddrResponded p; p_knownInv := p_knownInv p; p_sendQueue := p_sendQueue p; p_bytesRecv
     := p_bytesRecv p; p_bytesSent := p_bytesSent p; p_done := p_done p |}.
Definition set_syncedBlocks (x : Z) (p : Peer) : Peer :=
  {| p_addr := p_addr p; p_inbound := p_inbound p; p_magic := p_magic p; p_id := p_id p;
     p_connType := p_connType p; p_connectedAt := p_connectedAt p; p_version := p_version p;
     p_live := p_live p; p_lastBlockTime := p_lastBlockTime p; p_lastTxTime := p_lastTxTime p;
     p_syncedHeaders := p_syncedHeaders p; p_syncedBlocks := x; p_banScore := p_banScore p;
     p_msgCount := p_msgCount p; p_windowStart := p_windowStart p; p_getaddrResponded :=
     p_getaddrResponded p; p_knownInv := p_knownInv p; p_sendQueue := p_sendQueue p; p_bytesRecv
     := p_bytesRecv p; p_bytesSent := p_bytesSent p; p_done := p_done p |}.
Definition set_banScore (x : Z) (p : Peer) : Peer :=
  {| p_addr := p_addr p; p_inbound := p_inbound p; p_magic := p_magic p; p_id := p_id p;
     p_connType := p_connType p; p_connectedAt := p_connectedAt p; p_version := p_version p;
     p_live := p_live p; p_lastBlockTime := p_lastBlockTime p; p_lastTxTime := p_lastTxTime p;
     p_syncedHeaders := p_syncedHeaders p; p_syncedBlocks := p_syncedBlocks p; p_banScore := x;
     p_msgCount := p_msgCount p; p_windowStart := p_windowStart p; p_getaddrResponded :=
     p_getaddrResponded p; p_knownInv := p_knownInv p; p_sendQueue := p_sendQueue p; p_bytesRecv
     := p_bytesRecv p; p_bytesSent := p_bytesSent p; p_done := p_done p |}.
Definition set_getaddrResponded (x : bool) (p : Peer) : Peer :=
  {| p_addr := p_addr p; p_inbound := p_inbound p; p_magic := p_magic p; p_id := p_id p;
     p_connType := p_connType p; p_connectedAt := p_connectedAt p; p_version := p_version p;
     p_live := p_live p; p_lastBlockTime := p_lastBlockTime p; p_lastTxTime := p_lastTxTime p;
     p_syncedHeaders := p_syncedHeaders p; p_syncedBlocks := p_syncedBlocks p; p_banScore :=
     p_banScore p; p_msgCount := p_msgCount p; p_windowStart := p_windowStart p;
     p_getaddrResponded := x; p_knownInv := p_knownInv p; p_sendQueue := p_sendQueue p;
     p_bytesRecv := p_bytesRecv p; p_bytesSent := p_bytesSent p; p_done := p_done p |}.
Definition set_knownInv (x : gset Hash) (p : Peer) : Peer :=
  {| p_addr := p_addr p; p_inbound := p_inbound p; p_magic := p_magic p; p_id := p_id p;
     p_connType := p_connType p; p_connectedAt := p_connectedAt p; p_version := p_version p;
     p_live := p_live p; p_lastBlockTime := p_lastBlockTime p; p_lastTxTime := p_lastTxTime p;
     p_syncedHeaders := p_syncedHeaders p; p_syncedBlocks := p_syncedBlocks p; p_banScore :=
     p_banScore p; p_msgCount := p_msgCount p; p_windowStart := p_windowStart p;
     p_getaddrResponded := p_getaddrResponded p; p_knownInv := x; p_sendQueue := p_sendQueue p;
     p_bytesRecv := p_bytesRecv p; p_bytesSent := p_bytesSent p; p_done := p_done p |}.
Definition set_sendQueue (x : list (list byte * list byte)) (p : Peer) : Peer :=
  {| p_addr := p_addr p; p_inbound := p_inbound p; p_magic := p_magic p; p_id := p_id p;
     p_connType := p_connType p; p_connectedAt := p_connectedAt p; p_version := p_version p;
     p_live := p_live p; p_lastBlockTime := p_lastBlockTime p; p_lastTxTime := p_lastTxTime p;
     p_syncedHeaders := p_syncedHeaders p; p_syncedBlocks := p_syncedBlocks p; p_banScore :=
     p_banScore p; p_msgCount := p_msgCount p; p_windowStart := p_windowStart p;
     p_getaddrResponded := p_getaddrResponded p; p_knownInv := p_knownInv p; p_sendQueue := x;
     p_bytesRecv := p_bytesRecv p; p_bytesSent := p_bytesSent p; p_done := p_done p |}.
Definition set_bytesRecv (x : Z) (p : Peer) : Peer :=
  {| p_addr := p_addr p; p_inbound := p_inbound p; p_magic := p_magic p; p_id := p_id p;
     p_connType := p_connType p; p_connectedAt := p_connectedAt p; p_version := p_version p;
     p_live := p_live p; p_lastBlockTime := p_lastBlockTime p; p_lastTxTime := p_lastTxTime p;
     p_syncedHeaders := p_syncedHeaders p; p_syncedBlocks := p_syncedBlocks p; p_banScore :=
     p_banScore p; p_msgCount := p_msgCount p; p_windowStart := p_windowStart p;
     p_getaddrResponded := p_getaddrResponded p; p_knownInv := p_knownInv p; p_sendQueue :=
     p_sendQueue p; p_bytesRecv := x; p_bytesSent := p_bytesSent p; p_done := p_done p |}.
Definition set_bytesSent (x : Z) (p : Peer) : Peer :=
  {| p_addr := p_addr p; p_inbound := p_inbound p; p_magic := p_magic p; p_id := p_id p;
     p_connType := p_connType p; p_connectedAt := p_connectedAt p; p_version := p_version p;
     p_live := p_live p; p_lastBlockTime := p_lastBlockTime p; p_lastTxTime := p_lastTxTime p;
     p_syncedHeaders := p_syncedHeaders p; p_syncedBlocks := p_syncedBlocks p; p_banScore :=
     p_banScore p; p_msgCount := p_msgCount p; p_windowStart := p_windowStart p;
     p_getaddrResponded := p_getaddrResponded p; p_knownInv := p_knownInv p; p_sendQueue :=
     p_sendQueue p; p_bytesRecv := p_bytesRecv p; p_bytesSent := x; p_done := p_done p |}.
Definition set_done (x : bool) (p : Peer) : Peer :=
  {| p_addr := p_addr p; p_inbound := p_inbound p; p_magic := p_magic p; p_id := p_id p;
     p_connType := p_connType p; p_connectedAt := p_connectedAt p; p_version := p_version p;
     p_live := p_live p; p_lastBlockTime := p_lastBlockTime p; p_lastTxTime := p_lastTxTime p;
     p_syncedHeaders := p_syncedHeaders p; p_syncedBlocks := p_syncedBlocks p; p_banScore :=
     p_banScore p; p_msgCount := p_msgCount p; p_windowStart := p_windowStart p;
     p_getaddrResponded := p_getaddrResponded p; p_knownInv := p_knownInv p; p_sendQueue :=
     p_sendQueue p; p_bytesRecv := p_bytesRecv p; p_bytesSent := p_bytesSent p; p_done := x |}.
Definition set_window (n w : Z) (p : Peer) : Peer :=
  {| p_addr := p_addr p; p_inbound := p_inbound p; p_magic := p_magic p; p_id := p_id p;
     p_connType := p_connType p; p_connectedAt := p_connectedAt p; p_version := p_version p;
     p_live := p_live p; p_lastBlockTime := p_lastBlockTime p; p_lastTxTime := p_lastTxTime p;
     p_syncedHeaders := p_syncedHeaders p; p_syncedBlocks := p_syncedBlocks p; p_banScore :=
     p_banScore p; p_msgCount := n; p_windowStart := w; p_getaddrResponded := p_getaddrResponded
     p; p_knownInv := p_knownInv p; p_sendQueue := p_sendQueue p; p_bytesRecv := p_bytesRecv p;
     p_bytesSent := p_bytesSent p; p_done := p_done p |}.
Definition set_lastRecv (x : Z) (l : Liveness) : Liveness :=
  {| pl_lastRecv := x; pl_lastSend := pl_lastSend l; pl_pingNonce := pl_pingNonce l; pl_pingSent
     := pl_pingSent l; pl_lastPong := pl_lastPong l; pl_pingLatency := pl_pingLatency l;
     pl_minPingLatency := pl_minPingLatency l |}.
Definition set_lastSend (x : Z) (l : Liveness) : Liveness :=
  {| pl_lastRecv := pl_lastRecv l; pl_lastSend := x; pl_pingNonce := pl_pingNonce l; pl_pingSent
     := pl_pingSent l; pl_lastPong := pl_lastPong l; pl_pingLatency := pl_pingLatency l;
     pl_minPingLatency := pl_minPingLatency l |}.

(** ** Operations *)

Definition NewPeer (now : Z) (addr : list byte) (inbound : bool) (magic : list byte) : Peer :=
  {| p_addr := addr; p_inbound := inbound; p_magic := magic; p_id := 0;
     p_connType := if inbound then "inbound" else "outbound-full-relay";
     p_connectedAt := now; p_version := None;
     p_live := {| pl_lastRecv := unix now; pl_lastSend := unix now; pl_pingNonce := 0; pl_pingSent := 0;
                  pl_lastPong := now; pl_pingLatency := 0; pl_minPingLatency := 0 |};
     p_lastBlockTime := 0; p_lastTxTime := 0; p_syncedHeaders := -1; p_syncedBlocks := -1;
     p_banScore := 0; p_msgCount := 0; p_windowStart := now; p_getaddrResponded := false;
     p_knownInv := ∅; p_sendQueue := []; p_bytesRecv := 0; p_bytesSent := 0; p_done := false |}.

Definition with_height (v : VersionMsg) (height : Z) : VersionMsg :=
  {| vm_Version := vm_Version v; vm_Services := vm_Services v; vm_Timestamp := vm_Timestamp v;
     vm_AddrRecv := vm_AddrRecv v; vm_AddrFrom := vm_AddrFrom v; vm_Nonce := vm_Nonce v;
     vm_UserAgent := vm_UserAgent v; vm_StartHeight := height |}.

Definition SetVersion (v : VersionMsg) (p : Peer) : Peer := set_version (Some v) p.

Definition SetStartHeightIfGreater (height : Z) (p : Peer) : Peer :=
  match p_version p with
  | None => p
  | Some v => if height >? vm_StartHeight v then set_version (Some (with_height v height)) p else p
  end.

Definition BestHeight (p : Peer) : Z :=
  match p_version p with None => 0 | Some v => vm_StartHeight v end.

(** *** Ping and pong *)

Definition SetPingNonce (now nonce : Z) (p : Peer) : Peer :=
  let l := p_live p in
  set_live {| pl_lastRecv := pl_lastRecv l; pl_lastSend := pl_lastSend l; pl_pingNonce := nonce;
              pl_pingSent := now; pl_lastPong := pl_lastPong l; pl_pingLatency := pl_pingLatency l;
              pl_minPingLatency := pl_minPingLatency l |} p.

Definition HandlePong (now nonce : Z) (p : Peer) : bool * Peer :=
  let l := p_live p in
  if (pl_pingNonce l =? 0) || negb (nonce =? pl_pingNonce l) then (false, p)
  else
    let latency := now - pl_pingSent l in
    let best := if (pl_minPingLatency l =? 0) || (latency <? pl_minPingLatency l)
                then latency else pl_minPingLatency l in
    (true, set_live {| pl_lastRecv := pl_lastRecv l; pl_lastSend := pl_lastSend l; pl_pingNonce := 0;
                       pl_pingSent := pl_pingSent l; pl_lastPong := now; pl_pingLatency := latency;
                       pl_minPingLatency := best |} p).

Definition PongOverdue (now : Z) (p : Peer) : bool :=
  if pl_pingNonce (p_live p) =? 0 then false else now - pl_pingSent (p_live p) >? PongTimeout.

Definition StampLastBlock (now : Z) (p : Peer) : Peer := set_lastBlockTime (unix now) p.
Definition StampLastTx (now : Z) (p : Peer) : Peer := set_lastTxTime (unix now) p.

(** *** Misbehaviour and rate limiting *)

Definition AddBanScore (delta : Z) (p : Peer) : Z * Peer :=
  let score := i32 (p_banScore p + delta) in (score, set_banScore score p).

Definition CheckRateLimit (now : Z) (p : Peer) : bool * Peer :=
  let '(n, w) := if now - p_windowStart p >? RateLimitWindow then (0, now)
                 else (p_msgCount p, p_windowStart p) in
  let n := i32 (n + 1) in
  (n <=? RateLimitMaxMsgs, set_window n w p).

Definition MarkGetAddrResponded (p : Peer) : bool * Peer :=
  if p_getaddrResponded p then (false, p) else (true, set_getaddrResponded true p).

(** *** Inventory *)

(** [order] is the order in which Go's randomized iteration yields the keys of the map;
    the loop deletes the first 2001 of them. *)
Definition AddKnownInventory (order : gset Hash -> list Hash) (hash : Hash) (p : Peer) : Peer :=
  let known := {[ hash ]} ∪ p_knownInv p in
  if Z.of_nat (size known) >? 10000
  then set_knownInv (known ∖ list_to_set (take 2001 (order known))) p
  else set_knownInv known p.

Definition HasKnownInventory (hash : Hash) (p : Peer) : bool := bool_decide (hash ∈ p_knownInv p).

(** *** The send queue

    A buffered channel of 1024 messages.  [select] on a closed peer whose queue has room
    picks one of the two ready cases at random, [coin]. *)
Definition TrySendMessage (coin : bool) (cmd payload : list byte) (p : Peer) : bool * Peer :=
  let room := len (p_sendQueue p) <? peerSendQueueSize in
  if room && (negb (p_done p) || coin)
  then (true, set_sendQueue (p_sendQueue p ++ [(cmd, payload)]) p)
  else (false, p).

Definition SendMessage (coin : bool) (cmd payload : list byte) (p : Peer) : Peer :=
  snd (TrySendMessage coin cmd payload p).

Definition SendLowPriority (coin : bool) (cmd payload : list byte) (p : Peer) : Peer :=
  if len (p_sendQueue p) >? peerSendQueueSize / 2 then p else SendMessage coin cmd payload p.

(** One round of [WriteLoop]: the bytes written for the head of the queue. *)
Definition write_next (now : Z) (p : Peer) : option (list byte * Peer) :=
  match p_sendQueue p with
  | [] => None
  | (cmd, payload) :: rest =>
      let p := set_sendQueue rest p in
      let p := set_bytesSent (i64 (p_bytesSent p + (Z.of_nat MessageHeaderSize + len payload))) p in
      Some (WriteMessage (p_magic p) cmd payload, set_live (set_lastSend (unix now) (p_live p)) p)
  end.

(** [ReadMessage] on the bytes still to come from the socket. *)
Definition peer_ReadMessage (now : Z) (r : list byte) (p : Peer)
  : result ReadErr (MessageHeader * list byte * list byte * Peer) :=
  let* (hdr, payload, r) := ReadMessage (p_magic p) r in
  let p := set_bytesRecv (i64 (p_bytesRecv p + (Z.of_nat MessageHeaderSize + len payload))) p in
  Ok (hdr, payload, r, set_live (set_lastRecv (unix now) (p_live p)) p).

Definition Close (p : Peer) : Peer := set_done true p.

(** ** Pings *)

(** The pings of [pingLoop], one every [PingInterval] from [t0] on. *)
Fixpoint ping_run (t0 : Z) (nonces : list Z) (p : Peer) : Peer :=
  match nonces with
  | [] => p
  | n :: nonces => ping_run (t0 + PingInterval) nonces (SetPingNonce t0 n p)
  end.

Lemma ping_run_sent t0 nonces p :
  nonces <> [] ->
  pl_pingSent (p_live (ping_run t0 nonces p)) = t0 + (len nonces - 1) * PingInterval.
Proof.
  revert t0 p. induction nonces as [|n nonces IH]; intros t0 p Hne; [done|]. cbn [ping_run].
  destruct nonces as [|n' nonces]; [cbn; lia|].
  rewrite IH by done. cbn [length]. lia.
Qed.

(** ** Rate limit *)

Fixpoint rate_run (ts : list Z) (p : Peer) : list bool * Peer :=
  match ts with
  | [] => ([], p)
  | t :: ts => let '(b, p) := CheckRateLimit t p in
               let '(bs, p) := rate_run ts p in (b :: bs, p)
  end.

Lemma rate_run_window ts p :
  Forall (fun t => t - p_windowStart p <= RateLimitWindow) ts ->
  0 <= p_msgCount p -> p_msgCount p + len ts < 2^31 ->
  (rate_run ts p).1 = map (fun i => p_msgCount p + Z.of_nat i <? RateLimitMaxMsgs) (seq 0 (length ts))
  /\ p_windowStart (rate_run ts p).2 = p_windowStart p
  /\ p_msgCount (rate_run ts p).2 = p_msgCount p + len ts.
Proof.
  revert p. induction ts as [|t ts IH]; intros p Ht H0 Hb; [simpl; split_and!; [done|done|lia]|].
  apply Forall_cons in Ht as [Ht Hts]. cbn [rate_run length] in *. unfold CheckRateLimit.
  rewrite Z.gtb_ltb, (proj2 (Z.ltb_ge _ _)) by done.
  assert (i32 (p_msgCount p + 1) = p_msgCount p + 1) as -> by (unfold i32; rewrite Z.mod_small; lia).
  set (p1 := set_window (p_msgCount p + 1) (p_windowStart p) p).
  assert (p_msgCount p1 = p_msgCount p + 1) as E1 by done.
  assert (p_windowStart p1 = p_windowStart p) as E2 by done.
  destruct (IH p1) as (E & Ew & En); [by rewrite E2|rewrite E1; lia|rewrite E1; lia|].
  destruct (rate_run ts p1) as [bs p2]. cbn [fst snd] in *. subst bs. split_and!; [|congruence|rewrite En; lia].
  cbn [seq map]. f_equal.
  - ztest; done.
  - rewrite <- seq_shift, map_map. apply map_ext. intros i. rewrite E1. f_equal. lia.
Qed.

(** ** Inventory *)

Lemma known_bounded order hash p :
  (forall X, order X ≡ₚ elements X) -> Z.of_nat (size (p_knownInv p)) <= 10000 ->
  Z.of_nat (size (p_knownInv (AddKnownInventory order hash p))) <= 10000
  /\ p_knownInv (AddKnownInventory order hash p) ⊆ {[ hash ]} ∪ p_knownInv p.
Proof.
  intros Hord Hs. unfold AddKnownInventory. set (known := {[ hash ]} ∪ p_knownInv p).
  assert (Z.of_nat (size known) <= 10001) as Hk.
  { unfold known. rewrite (size_union_alt {[hash]} (p_knownInv p)), size_singleton.
    pose proof (subseteq_size (p_knownInv p ∖ {[hash]}) (p_knownInv p) ltac:(set_solver)). lia. }
  rewrite Z.gtb_ltb. destruct (Z.ltb_spec 10000 (Z.of_nat (size known))).
  - change (p_knownInv (set_knownInv ?x p)) with x. split; [|set_solver].
    assert (size (known ∖ list_to_set (take 2001 (order known))) < size known)%nat; [|lia].
    apply subset_size. split; [set_solver|]. intros Hsub.
    assert (length (order known) = size known) as El by (rewrite Hord; done).
    destruct (order known) as [|x l] eqn:E; [simpl in El; lia|].
    assert (x ∈ known) by (rewrite <- elem_of_elements, <- Hord, E; set_solver).
    assert (x ∈ (list_to_set (take 2001 (x :: l)) : gset Hash)) by (cbn; set_solver). set_solver.
  - change (p_knownInv (set_knownInv ?x p)) with x. split; [lia|set_solver].
Qed.

(** ** The link between two peers *)

Lemma queue_bounded coin cmd payload p :
  len (p_sendQueue p) <= peerSendQueueSize ->
  len (p_sendQueue (SendMessage coin cmd payload p)) <= peerSendQueueSize.
Proof.
  intros H. unfold SendMessage, TrySendMessage. destruct (Z.ltb_spec (len (p_sendQueue p)) peerSendQueueSize); [|done].
  destruct (negb (p_done p) || coin); [|done]. simpl. rewrite length_app. simpl. lia.
Qed.

(** The bytes [WriteLoop] writes until the queue is empty, one clock reading a message. *)
Fixpoint drain (ts : list Z) (p : Peer) : list byte * Peer :=
  match ts with
  | [] => ([], p)
  | t :: ts => match write_next t p with
               | None => ([], p)
               | Some (bs, p) => let '(rest, p) := drain ts p in (bs ++ rest, p)
               end
  end.

(** The messages the other side reads from a stream. *)
Fixpoint read_stream (ts : list Z) (r : list byte) (p : Peer)
  : result ReadErr (list (list byte * list byte) * list byte * Peer) :=
  match ts with
  | [] => Ok ([], r, p)
  | t :: ts =>
      let* (hdr, payload, r, p) := peer_ReadMessage t r p in
      let* (msgs, r, p) := read_stream ts r p in
      Ok ((CommandString hdr, payload) :: msgs, r, p)
  end.

Definition sendable (m : list byte * list byte) : Prop :=
  (length m.1 <= 12)%nat /\ Byte.x00 ∉ m.1 /\ len m.2 <= MaxPayloadSize.

Lemma drain_all ts : forall p,
  length ts = length (p_sendQueue p) ->
  (drain ts p).1 = concat (map (fun m => WriteMessage (p_magic p) m.1 m.2) (p_sendQueue p))
  /\ p_sendQueue (drain ts p).2 = [].
Proof.
  induction ts as [|t ts IH]; intros p Hl; cbn [drain].
  - destruct (p_sendQueue p) eqn:E; [done|done].
  - unfold write_next. destruct (p_sendQueue p) as [|[cmd payload] rest] eqn:E; [done|].
    match goal with |- context [drain ts ?q] => destruct (IH q) as [E1 E2]; [simpl in *; lia|];
      destruct (drain ts q) end. simpl in *. by rewrite E1.
Qed.

Lemma ReadMessage_written magic m r :
  length magic = 4%nat -> sendable m ->
  exists hdr, ReadMessage magic (WriteMessage magic m.1 m.2 ++ r) = Ok (hdr, m.2, r) /\ CommandString hdr = m.1.
Proof.
  intros Hm (Hc & Hz & Hp).
  exists {| mh_Magic := magic; mh_Command := pad_command m.1; mh_Length := len m.2;
            mh_Checksum := doubleSHA256Checksum m.2 |}.
  split; [|by apply CommandString_pad].
  apply ReadMessage_Ok. unfold wf_msg_header, WriteMessage, EncodeMessageHeader, header_bytes; simpl.
  rewrite length_pad_command, length_checksum, u32_small, <- !app_assoc by (apply max_payload_u32; lia).
  split_and!; done || lia.
Qed.

Lemma read_stream_written msgs : forall ts r q,
  length (p_magic q) = 4%nat -> Forall sendable msgs -> length ts = length msgs ->
  exists q', read_stream ts (concat (map (fun m => WriteMessage (p_magic q) m.1 m.2) msgs) ++ r) q
    = Ok (msgs, r, q').
Proof.
  induction msgs as [|m msgs IH]; intros ts r q Hm Hs Hl; destruct ts as [|t ts]; try done; [by eexists|].
  apply Forall_cons in Hs as [Hs Hss]. cbn [map concat read_stream]. unfold peer_ReadMessage.
  destruct (ReadMessage_written (p_magic q) m
    (concat (map (fun m => WriteMessage (p_magic q) m.1 m.2) msgs) ++ r) Hm Hs) as (hdr & E & Ec).
  rewrite <- app_assoc, E. cbn [rbind].
  match goal with |- context [read_stream ts _ ?q1] => destruct (IH ts r q1) as [q' E']; [done|done|simpl in *; lia|] end.
  simpl in E' |- *. rewrite E'. cbn [rbind]. rewrite Ec. exists q'. by destruct m.
Qed.

(** ** Properties *)

(** C32. Messages arrive in the order they were queued: when a peer's [WriteLoop] writes
    its whole queue, the peer at the other end, on the same network, reads exactly the
    queued commands and payloads in that order, leaves what follows untouched, and the
    queue is empty afterwards.  Every queued message is one the node builds: a command of
    at most 12 bytes without zeros and a payload of at most 4 MiB. *)
Theorem peer_link_fifo p q ts ts' r :
  length (p_magic p) = 4%nat -> p_magic q = p_magic p -> Forall sendable (p_sendQueue p) ->
  length ts = length (p_sendQueue p) -> length ts' = length (p_sendQueue p) ->
  (exists q', read_stream ts' ((drain ts p).1 ++ r) q = Ok (p_sendQueue p, r, q'))
  /\ p_sendQueue (drain ts p).2 = [].
Proof.
  intros Hm Hq Hs Hl Hl'. destruct (drain_all ts p Hl) as [-> ?]. split; [|done].
  rewrite <- Hq. apply read_stream_written; congruence.
Qed.

Definition example_peer : Peer :=
  SendMessage false CmdGetAddr []
    (SendMessage false CmdPing (ping_Encode 7)
       (NewPeer 0 [] false (bytes_of [0xFA; 0x1C; 0xC0; 0x02]))).

Lemma peer_link_fifo_witness :
  exists q', read_stream [1; 2] ((drain [3; 4] example_peer).1 ++ [Byte.x01])
      (NewPeer 0 [] true (bytes_of [0xFA; 0x1C; 0xC0; 0x02]))
    = Ok ([(CmdPing, ping_Encode 7); (CmdGetAddr, [])], [Byte.x01], q').
Proof.
  refine (proj1 (peer_link_fifo example_peer _ [3; 4] [1; 2] [Byte.x01] _ _ _ _ _)); try done.
  repeat constructor; try (apply (bool_decide_unpack _); by vm_compute); vm_compute; (lia || done).
Defined.

(** The pong timeout does not fire: while [pingLoop] sends a ping every two minutes,
    a peer that never answers is never reported overdue, however many pings it has missed,
    because each ping overwrites the time of the outstanding one and the timeout is twenty
    minutes. *)
Theorem silent_peer_kept p t0 nonces t :
  nonces <> [] ->
  t < t0 + len nonces * PingInterval ->
  PongOverdue t (ping_run t0 nonces p) = false.
Proof.
  intros Hne Ht. unfold PongOverdue. rewrite ping_run_sent by done.
  destruct (_ =? 0); [done|]. rewrite Z.gtb_ltb. apply Z.ltb_ge. unfold PingInterval, PongTimeout in *.
  assert (0 < time_Minute) by done. lia.
Qed.

(** An hour of unanswered pings. *)
Lemma silent_peer_kept_witness :
  PongOverdue (31 * PingInterval - 1) (ping_run PingInterval (repeat 5 30) (NewPeer 0 [] true [])) = false.
Proof. apply silent_peer_kept; [done|by vm_compute]. Defined.

(** Within one ten-second window the limit lets exactly the first 500 messages pass. *)
Theorem rate_limit_exact p ts :
  p_msgCount p = 0 -> len ts < 2^31 ->
  Forall (fun t => t - p_windowStart p <= RateLimitWindow) ts ->
  (rate_run ts p).1 = map (fun i => Z.of_nat i <? 500) (seq 0 (length ts)).
Proof.
  intros H0 Hl Hw. destruct (rate_run_window ts p Hw) as [-> _]; [lia|lia|].
  apply map_ext. intros i. by rewrite H0.
Qed.
