(* ===== verification/SeenSet.v ===== *)
(** * The set of recently seen hashes

    Models [boundedHashSet] of [src/internal/p2p/manager.go], used to process every block
    and transaction of the gossip once.  The lock spans each method.

    The eviction reads [order[0]], which panics on an empty slice; the definitions leave
    the set alone there, and [bounded_order] shows that it does not happen for a positive
    capacity. *)
From S2P Require Import Prelude.
From S2P Require Import Types.

Record boundedHashSet := { bh_items : gset Hash; bh_order : list Hash; bh_cap : Z }.

Definition newBoundedHashSet (capacity : Z) : boundedHashSet :=
  {| bh_items := ∅; bh_order := []; bh_cap := capacity |}.

(** The eviction of the oldest entry when the set is full, and the insertion. *)
Definition bh_insert (s : boundedHashSet) (h : Hash) : boundedHashSet :=
  let s :=
    if Z.of_nat (size (bh_items s)) >=? bh_cap s then
      match bh_order s with
      | evict :: rest =>
          {| bh_items := bh_items s ∖ {[ evict ]}; bh_order := rest; bh_cap := bh_cap s |}
      | [] => s
      end
    else s in
  {| bh_items := {[ h ]} ∪ bh_items s; bh_order := bh_order s ++ [h]; bh_cap := bh_cap s |}.

Definition bh_Add (s : boundedHashSet) (h : Hash) : boundedHashSet :=
  if decide (h ∈ bh_items s) then s else bh_insert s h.

Definition bh_Has (s : boundedHashSet) (h : Hash) : bool := bool_decide (h ∈ bh_items s).

Definition bh_AddOrHas (s : boundedHashSet) (h : Hash) : bool * boundedHashSet :=
  if decide (h ∈ bh_items s) then (true, s) else (false, bh_insert s h).

Definition bh_Remove (s : boundedHashSet) (h : Hash) : boundedHashSet :=
  {| bh_items := bh_items s ∖ {[ h ]}; bh_order := bh_order s; bh_cap := bh_cap s |}.

(** ** Every state: the items are listed in the order *)

Inductive bh_op := OpAdd (h : Hash) | OpAddOrHas (h : Hash) | OpRemove (h : Hash).
Definition bh_step (s : boundedHashSet) (o : bh_op) : boundedHashSet :=
  match o with
  | OpAdd h => bh_Add s h
  | OpAddOrHas h => (bh_AddOrHas s h).2
  | OpRemove h => bh_Remove s h
  end.
Definition bh_run (s : boundedHashSet) (ops : list bh_op) : boundedHashSet := fold_left bh_step ops s.

(** Distinct items that are all listed are no more than the list is long. *)
Lemma size_listed (X : gset Hash) (l : list Hash) : (forall x, x ∈ X -> x ∈ l) -> (size X <= length l)%nat.
Proof.
  revert X. induction l as [|y l IH]; intros X H.
  - assert (X = ∅) as -> by (apply leibniz_equiv; set_solver). by rewrite size_empty.
  - cbn [length]. destruct (decide (y ∈ X)) as [Hy|Hy].
    + rewrite (union_difference_singleton_L y X Hy), size_union, size_singleton by set_solver.
      pose proof (IH (X ∖ {[y]}) ltac:(set_solver)). lia.
    + pose proof (IH X ltac:(set_solver)). lia.
Qed.

Definition bh_listed (s : boundedHashSet) : Prop := forall x, x ∈ bh_items s -> x ∈ bh_order s.

Lemma insert_listed s h : bh_listed s -> bh_listed (bh_insert s h).
Proof.
  unfold bh_listed, bh_insert. intros H x. destruct (_ >=? _); [|simpl; set_solver].
  destruct (bh_order s) as [|e rest] eqn:E; simpl; rewrite ?E; set_solver.
Qed.

Lemma step_listed s o : bh_listed s -> bh_listed (bh_step s o).
Proof.
  intros H. destruct o as [h|h|h]; simpl.
  - unfold bh_Add. case_decide; [done|by apply insert_listed].
  - unfold bh_AddOrHas. case_decide; [done|by apply insert_listed].
  - unfold bh_listed, bh_Remove in *; simpl. set_solver.
Qed.

Lemma run_listed ops s : bh_listed s -> bh_listed (bh_run s ops).
Proof. revert s. induction ops as [|o ops IH]; intros s H; [done|]. by apply IH, step_listed. Qed.

(** A full set of positive capacity has an oldest entry: the eviction never panics. *)
Lemma bounded_order s :
  bh_listed s -> 0 < bh_cap s -> Z.of_nat (size (bh_items s)) >= bh_cap s -> bh_order s <> [].
Proof. intros H Hc Hs E. pose proof (size_listed _ _ H) as Hl. rewrite E in Hl. simpl in Hl. lia. Qed.

(** ** Without [Remove]: a first-in first-out window *)

(** The specification: the window of the last [cap] insertions. *)
Definition fifo (cap : nat) (l : list Hash) (h : Hash) : list Hash :=
  if decide (h ∈ l) then l else drop (length l + 1 - cap) (l ++ [h]).

Definition windowed (s : boundedHashSet) (l : list Hash) : Prop :=
  bh_order s = l /\ NoDup l /\ bh_items s = list_to_set l /\ len l <= bh_cap s.

Lemma insert_windowed cap s l h :
  (0 < cap)%nat -> bh_cap s = Z.of_nat cap -> windowed s l -> h ∉ bh_items s ->
  windowed (bh_insert s h) (fifo cap l h) /\ bh_cap (bh_insert s h) = Z.of_nat cap.
Proof.
  intros Hc Ec (Eo & Hn & Ei & Hl) Hh. rewrite Ei in Hh. apply not_elem_of_list_to_set in Hh.
  unfold fifo. rewrite decide_False by done. unfold windowed, bh_insert. rewrite Ei, Eo, Ec.
  rewrite Ec in Hl. rewrite size_list_to_set by done. rewrite Z.geb_leb.
  destruct (Z.leb_spec (Z.of_nat cap) (len l)) as [Hfull|Hroom].
  - destruct l as [|e rest]; [simpl in *; lia|]. apply NoDup_cons in Hn as [He Hn]. simpl in Hl, Hfull.
    cbn [bh_items bh_order bh_cap list_to_set length].
    replace (S (length rest) + 1 - cap)%nat with 1%nat by lia. cbn [app drop].
    rewrite drop_0. split; [|done]. split_and!; [done| | |rewrite length_app; simpl; lia].
    + apply NoDup_app. split_and!; [done|set_solver|apply NoDup_singleton].
    + rewrite list_to_set_app_L. apply leibniz_equiv. set_solver.
  - replace (length l + 1 - cap)%nat with 0%nat by lia. rewrite drop_0. cbn [bh_items bh_order bh_cap].
    rewrite Eo, Ei, Ec. split; [|done]. split_and!; [done| | |rewrite length_app; simpl; lia].
    + apply NoDup_app. split_and!; [done|set_solver|apply NoDup_singleton].
    + rewrite list_to_set_app_L. apply leibniz_equiv. set_solver.
Qed.

Lemma windowed_has s l h : windowed s l -> h ∈ bh_items s <-> h ∈ l.
Proof. intros (_ & _ & -> & _). apply elem_of_list_to_set. Qed.

Lemma adds_windowed cap hs : forall s l,
  (0 < cap)%nat -> bh_cap s = Z.of_nat cap -> windowed s l ->
  windowed (fold_left bh_Add hs s) (fold_left (fifo cap) hs l).
Proof.
  induction hs as [|h hs IH]; intros s l Hc Ec Hw; [done|]. cbn [fold_left]. unfold bh_Add at 2.
  case_decide as Hh.
  - assert (fifo cap l h = l) as -> by (unfold fifo; rewrite decide_True; [done|by apply (windowed_has s)]).
    by apply IH.
  - destruct (insert_windowed cap s l h Hc Ec Hw Hh) as [Hw' Ec']. by apply IH.
Qed.

(** ** With [Remove]: stale entries *)

Definition add_remove (s : boundedHashSet) (h : Hash) : boundedHashSet :=
  bh_Remove (bh_AddOrHas s h).2 h.

Lemma stale_phase cap stale : forall o,
  0 < cap ->
  fold_left add_remove stale {| bh_items := ∅; bh_order := o; bh_cap := cap |}
  = {| bh_items := ∅; bh_order := o ++ stale; bh_cap := cap |}.
Proof.
  induction stale as [|h stale IH]; intros o Hc; [by rewrite app_nil_r|]. cbn [fold_left].
  assert (add_remove {| bh_items := ∅; bh_order := o; bh_cap := cap |} h
    = {| bh_items := ∅; bh_order := o ++ [h]; bh_cap := cap |}) as ->.
  { unfold add_remove, bh_AddOrHas. rewrite decide_False by set_solver.
    unfold bh_insert, bh_Remove. cbn [bh_items bh_order bh_cap snd]. rewrite size_empty, Z.geb_leb.
    destruct (Z.leb_spec cap (Z.of_nat 0)); [lia|]. cbn [bh_items bh_order bh_cap].
    f_equal. apply leibniz_equiv. set_solver. }
  rewrite IH by done. by rewrite <- app_assoc.
Qed.

Lemma fresh_phase cap fresh : forall stale kept,
  NoDup (stale ++ kept ++ fresh) -> len fresh <= len stale + Z.max 0 (cap - len kept) ->
  bh_items (fold_left (fun s h => (bh_AddOrHas s h).2) fresh
    {| bh_items := list_to_set kept; bh_order := stale ++ kept; bh_cap := cap |})
  = list_to_set (kept ++ fresh).
Proof.
  induction fresh as [|h fresh IH]; intros stale kept Hn Hl; [by rewrite app_nil_r|]. cbn [fold_left].
  rewrite (cons_middle h kept fresh), (app_assoc kept) in Hn |- *.
  pose proof Hn as (Hs & Hd & Hk)%NoDup_app. apply NoDup_app in Hk as (Hk & Hd' & _).
  assert (h ∉ (list_to_set kept : gset Hash)) as Hh.
  { rewrite elem_of_list_to_set. apply NoDup_app in Hk as (_ & Hk & _). set_solver. }
  unfold bh_AddOrHas at 2. rewrite decide_False by done. cbn [snd]. unfold bh_insert.
  cbn [bh_items bh_order bh_cap]. rewrite size_list_to_set, Z.geb_leb by (by apply NoDup_app in Hk as [? _]).
  cbn [length] in Hl. destruct (Z.leb_spec cap (len kept)) as [Hfull|Hroom].
  - destruct stale as [|e stale]; [simpl in Hl; lia|]. cbn [app bh_items bh_order bh_cap].
    assert (e ∉ kept) by (intros He; apply (Hd e); set_solver).
    replace ({[h]} ∪ list_to_set kept ∖ {[e]} : gset Hash) with (list_to_set (kept ++ [h]) : gset Hash)
      by (rewrite list_to_set_app_L; apply leibniz_equiv; set_solver).
    rewrite <- app_assoc. apply IH.
    + cbn [app] in Hn. by apply NoDup_cons in Hn as [_ Hn].
    + rewrite length_app. cbn [length] in *. lia.
  - cbn [bh_items bh_order bh_cap].
    replace ({[h]} ∪ list_to_set kept : gset Hash) with (list_to_set (kept ++ [h]) : gset Hash)
      by (rewrite list_to_set_app_L; apply leibniz_equiv; set_solver).
    rewrite <- app_assoc. apply IH; [done|]. rewrite length_app. cbn [length]. lia.
Qed.

(** ** Properties *)

(** Without [Remove] (as for transactions) the set refines a first-in first-out
    window: after adding any sequence of hashes to an empty set of positive capacity it
    contains exactly the window's hashes, never more than the capacity, and the next
    [AddOrHas] answers whether its hash is in the window. *)
Theorem seen_set_fifo cap hs h :
  (0 < cap)%nat ->
  let s := fold_left bh_Add hs (newBoundedHashSet (Z.of_nat cap)) in
  let w := fold_left (fifo cap) hs [] in
  bh_items s = list_to_set w /\ NoDup w /\ (length w <= cap)%nat
  /\ (bh_AddOrHas s h).1 = bool_decide (h ∈ w)
  /\ bh_items (bh_AddOrHas s h).2 = list_to_set (fifo cap w h).
Proof.
  intros Hc s w. assert (windowed s w) as Hw.
  { apply adds_windowed; [done|done|]. split_and!; [done|constructor|done|simpl; lia]. }
  assert (bh_cap s = Z.of_nat cap) as Ec.
  { subst s. generalize (eq_refl (bh_cap (newBoundedHashSet (Z.of_nat cap)))).
    generalize (newBoundedHashSet (Z.of_nat cap)) at 1 3 as s0. clear.
    induction hs as [|x hs IH]; intros s0 H; [done|]. apply IH. unfold bh_Add, bh_insert.
    case_decide; [done|]. destruct (_ >=? _); [|done]. by destruct (bh_order s0). }
  pose proof Hw as (_ & Hn & Ei & Hl). split_and!; [done|done|lia| |]; unfold bh_AddOrHas; case_decide as Hh;
    simpl.
  - symmetry. apply bool_decide_true. by apply (windowed_has s).
  - symmetry. apply bool_decide_false. by rewrite <- (windowed_has s).
  - rewrite Ei. f_equal. unfold fifo. rewrite decide_True; [done|by apply (windowed_has s)].
  - by destruct (insert_windowed cap s w h Hc Ec Hw Hh) as [(_ & _ & ? & _) _].
Qed.

Lemma seen_set_fifo_witness :
  let s := fold_left bh_Add [[Byte.x01]; [Byte.x02]; [Byte.x01]; [Byte.x03]] (newBoundedHashSet 2) in
  bh_items s = list_to_set [[Byte.x02]; [Byte.x03]] /\ (bh_AddOrHas s [Byte.x01]).1 = false.
Proof.
  destruct (seen_set_fifo 2 [[Byte.x01]; [Byte.x02]; [Byte.x01]; [Byte.x03]] [Byte.x01] ltac:(lia))
    as (H & _ & _ & H2 & _).
  split; [exact H|]. etrans; [exact H2|]. by vm_compute.
Defined.

(** With [Remove] (as for blocks that are rejected or orphans) the set is not
    bounded: [Remove] leaves the hash in the eviction order, so after [k] rejected blocks
    the set takes [k] hashes more than its capacity, for every [k]. *)
Theorem seen_set_overflows cap stale fresh :
  0 < cap -> NoDup (stale ++ fresh) -> len fresh = cap + len stale ->
  let s := fold_left add_remove stale (newBoundedHashSet cap) in
  let s' := fold_left (fun s h => (bh_AddOrHas s h).2) fresh s in
  bh_items s = ∅ /\ Z.of_nat (size (bh_items s')) = cap + len stale.
Proof.
  intros Hc Hn Hl s s'.
  assert (s = {| bh_items := ∅; bh_order := stale; bh_cap := cap |}) as Es by (by apply (stale_phase cap stale [])).
  subst s'. rewrite Es. split; [done|].
  pose proof (fresh_phase cap fresh stale [] Hn) as E. rewrite app_nil_r in E.
  change (list_to_set [] : gset Hash) with (∅ : gset Hash) in E. cbn [app] in E.
  rewrite E by (simpl; lia). rewrite size_list_to_set by (by apply NoDup_app in Hn as (_ & _ & ?)). done.
Qed.

Lemma seen_set_overflows_witness :
  Z.of_nat (size (bh_items (fold_left (fun s h => (bh_AddOrHas s h).2) [[Byte.x02]; [Byte.x03]]
    (fold_left add_remove [[Byte.x01]] (newBoundedHashSet 1))))) = 1 + 1.
Proof.
  apply (seen_set_overflows 1 [[Byte.x01]] [[Byte.x02]; [Byte.x03]]); [lia| |done].
  apply (bool_decide_unpack _). by vm_compute.
Defined.
