(* ===== verification/Manager.v ===== *)
(** * The peer-to-peer manager

    Models [src/internal/p2p/manager.go]: connection bookkeeping, bans and backoff, the
    handshake, the handler of every message, block relay and synchronisation.  The
    listener, the dialler and the goroutines that call these operations on timers are not
    represented: each operation below is what one call, one received message or one tick
    does to the state.  Log output is left out.

    A peer object is found by its address in [m_peers]; during the handshake it is a
    value.  [m_mpSet] is the mempool's pointer to an unspent set in the chain's heap.
    [now] is [time.Now()], one instant for a whole call.  What Go leaves open (the order
    of map iterations, [crypto/rand], the choice of a [select]) comes from [NetEnv]. *)
From S2P Require Import Prelude.
From S2P Require Import Types.
From S2P Require Import Sha256.
From S2P Require Import Crypto.
From S2P Require Import Target.
From S2P Require Import Params.
From S2P Require Import Script.
From S2P Require Import Utxo.
From S2P Require Import TxValidation.
From S2P Require Import BlockValidation.
From S2P Require Import Pow.
From S2P Require Import Store.
From S2P Require Import Chain.
From S2P Require Import Mempool.
From S2P Require Import Protocol.
From S2P Require Import TimeAdjust.
From S2P Require Import Peer.
From S2P Require Import SeenSet.
From stdpp Require Import sorting.
#[local] Open Scope Z_scope.
#[local] Open Scope go_scope.

Definition maxSeenBlocks : Z := 10000.
Definition maxSeenTxs : Z := 50000.
Definition backoffBase : Z := 5 * time_Second.
Definition backoffMax : Z := 10 * time_Minute.

(** [version.UserAgent()]. *)
Definition UserAgent : list byte := bytes_of_string "/fairchain:0.4.0/".

Abbreviation Addr := (list byte).

(** ** Addresses: [net.SplitHostPort] *)

Definition colon : byte := Byte.x3a.
Definition lbracket : byte := Byte.x5b.
Definition rbracket : byte := Byte.x5d.

(** [IndexByte] and [LastIndexByte]. *)
Fixpoint index_byte (c : byte) (s : list byte) : option nat :=
  match s with
  | [] => None
  | b :: s => if decide (b = c) then Some O else S <$> index_byte c s
  end.
Fixpoint last_index_byte (c : byte) (s : list byte) : option nat :=
  match s with
  | [] => None
  | b :: s => match last_index_byte c s with
              | Some i => Some (S i)
              | None => if decide (b = c) then Some O else None
              end
  end.

(** The host, or [None] for an error. *)
Definition SplitHost (hostport : list byte) : option (list byte) :=
  match last_index_byte colon hostport with
  | None => None
  | Some i =>
      let finish (host : list byte) (j k : nat) :=
        match index_byte lbracket (drop j hostport), index_byte rbracket (drop k hostport) with
        | None, None => Some host
        | _, _ => None
        end in
      if decide (head hostport = Some lbracket) then
        match index_byte rbracket hostport with
        | None => None
        | Some e => if decide (S e = i) then finish (slice 1 e hostport) 1%nat (S e) else None
        end
      else
        let host := take i hostport in
        match index_byte colon host with
        | Some _ => None
        | None => finish host 0%nat 0%nat
        end
  end.

Definition extractIP (addr : Addr) : Addr :=
  match SplitHost addr with None => addr | Some host => host end.

(** ** State *)

(** What [store.PeerStore] offers; the manager ignores the errors of [PutPeer]. *)
Class PeerStore (PS : Type) := {
  PutPeer : PS -> Addr -> PS;
  GetPeers : PS -> result unit (list Addr) }.

Record NetEnv := {
  ne_known : gset Hash -> list Hash;           (** iteration over [knownInv] *)
  ne_peers : gmap Addr Peer -> list Addr;      (** iteration over [peers] *)
  ne_rand : nat -> Z;                          (** the 64-bit numbers of [crypto/rand] *)
  ne_coin : bool }.                            (** [select] on a closed peer *)

Record Config := {
  mc_listenAddr : Addr; mc_maxInbound : Z; mc_maxOutbound : Z; mc_seedPeers : list Addr;
  mc_connectOnly : list Addr; mc_noSeedNodes : bool; mc_localNonce : Z }.

Record Manager (St PS : Type) := {
  m_cfg : Config;
  m_chain : Chain St;
  m_mempool : Mempool;
  m_mpSet : nat;
  m_peerStore : PS;
  m_clock : option AdjustedClock;
  m_peers : gmap Addr Peer;
  m_bestPeerHeight : Z;
  m_banned : gmap Addr Z;
  m_backoff : gmap Addr Z;
  m_backoffN : gmap Addr Z;
  m_nextPeerID : Z;
  m_manualPeers : gset Addr;
  m_seenBlocks : boundedHashSet;
  m_seenTxs : boundedHashSet;
  m_lastSyncReq : option Z;
  m_rnd : nat }.
Arguments m_cfg {St PS}. Arguments m_chain {St PS}. Arguments m_mempool {St PS}. Arguments m_mpSet
{St PS}. Arguments m_peerStore {St PS}. Arguments m_clock {St PS}. Arguments m_peers {St PS}.
Arguments m_bestPeerHeight {St PS}. Arguments m_banned {St PS}. Arguments m_backoff {St PS}.
Arguments m_backoffN {St PS}. Arguments m_nextPeerID {St PS}. Arguments m_manualPeers {St PS}.
Arguments m_seenBlocks {St PS}. Arguments m_seenTxs {St PS}. Arguments m_lastSyncReq {St PS}.
Arguments m_rnd {St PS}.

Section fields.
Context {St PS : Type}.
Definition set_m_chain (x : Chain St) (m : Manager St PS) : Manager St PS :=
  {| m_cfg := m_cfg m; m_chain := x; m_mempool := m_mempool m; m_mpSet := m_mpSet m; m_peerStore
     := m_peerStore m; m_clock := m_clock m; m_peers := m_peers m; m_bestPeerHeight :=
     m_bestPeerHeight m; m_banned := m_banned m; m_backoff := m_backoff m; m_backoffN :=
     m_backoffN m; m_nextPeerID := m_nextPeerID m; m_manualPeers := m_manualPeers m;
     m_seenBlocks := m_seenBlocks m; m_seenTxs := m_seenTxs m; m_lastSyncReq := m_lastSyncReq m;
     m_rnd := m_rnd m |}.
Definition set_m_mempool (x : Mempool) (m : Manager St PS) : Manager St PS :=
  {| m_cfg := m_cfg m; m_chain := m_chain m; m_mempool := x; m_mpSet := m_mpSet m; m_peerStore
     := m_peerStore m; m_clock := m_clock m; m_peers := m_peers m; m_bestPeerHeight :=
     m_bestPeerHeight m; m_banned := m_banned m; m_backoff := m_backoff m; m_backoffN :=
     m_backoffN m; m_nextPeerID := m_nextPeerID m; m_manualPeers := m_manualPeers m;
     m_seenBlocks := m_seenBlocks m; m_seenTxs := m_seenTxs m; m_lastSyncReq := m_lastSyncReq m;
     m_rnd := m_rnd m |}.
Definition set_m_peerStore (x : PS) (m : Manager St PS) : Manager St PS :=
  {| m_cfg := m_cfg m; m_chain := m_chain m; m_mempool := m_mempool m; m_mpSet := m_mpSet m;
     m_peerStore := x; m_clock := m_clock m; m_peers := m_peers m; m_bestPeerHeight :=
     m_bestPeerHeight m; m_banned := m_banned m; m_backoff := m_backoff m; m_backoffN :=
     m_backoffN m; m_nextPeerID := m_nextPeerID m; m_manualPeers := m_manualPeers m;
     m_seenBlocks := m_seenBlocks m; m_seenTxs := m_seenTxs m; m_lastSyncReq := m_lastSyncReq m;
     m_rnd := m_rnd m |}.
Definition set_m_clock (x : option AdjustedClock) (m : Manager St PS) : Manager St PS :=
  {| m_cfg := m_cfg m; m_chain := m_chain m; m_mempool := m_mempool m; m_mpSet := m_mpSet m;
     m_peerStore := m_peerStore m; m_clock := x; m_peers := m_peers m; m_bestPeerHeight :=
     m_bestPeerHeight m; m_banned := m_banned m; m_backoff := m_backoff m; m_backoffN :=
     m_backoffN m; m_nextPeerID := m_nextPeerID m; m_manualPeers := m_manualPeers m;
     m_seenBlocks := m_seenBlocks m; m_seenTxs := m_seenTxs m; m_lastSyncReq := m_lastSyncReq m;
     m_rnd := m_rnd m |}.
Definition set_m_peers (x : gmap Addr Peer) (m : Manager St PS) : Manager St PS :=
  {| m_cfg := m_cfg m; m_chain := m_chain m; m_mempool := m_mempool m; m_mpSet := m_mpSet m;
     m_peerStore := m_peerStore m; m_clock := m_clock m; m_peers := x; m_bestPeerHeight :=
     m_bestPeerHeight m; m_banned := m_banned m; m_backoff := m_backoff m; m_backoffN :=
     m_backoffN m; m_nextPeerID := m_nextPeerID m; m_manualPeers := m_manualPeers m;
     m_seenBlocks := m_seenBlocks m; m_seenTxs := m_seenTxs m; m_lastSyncReq := m_lastSyncReq m;
     m_rnd := m_rnd m |}.
Definition set_m_bestPeerHeight (x : Z) (m : Manager St PS) : Manager St PS :=
  {| m_cfg := m_cfg m; m_chain := m_chain m; m_mempool := m_mempool m; m_mpSet := m_mpSet m;
     m_peerStore := m_peerStore m; m_clock := m_clock m; m_peers := m_peers m; m_bestPeerHeight
     := x; m_banned := m_banned m; m_backoff := m_backoff m; m_backoffN := m_backoffN m;
     m_nextPeerID := m_nextPeerID m; m_manualPeers := m_manualPeers m; m_seenBlocks :=
     m_seenBlocks m; m_seenTxs := m_seenTxs m; m_lastSyncReq := m_lastSyncReq m; m_rnd := m_rnd
     m |}.
Definition set_m_banned (x : gmap Addr Z) (m : Manager St PS) : Manager St PS :=
  {| m_cfg := m_cfg m; m_chain := m_chain m; m_mempool := m_mempool m; m_mpSet := m_mpSet m;
     m_peerStore := m_peerStore m; m_clock := m_clock m; m_peers := m_peers m; m_bestPeerHeight
     := m_bestPeerHeight m; m_banned := x; m_backoff := m_backoff m; m_backoffN := m_backoffN m;
     m_nextPeerID := m_nextPeerID m; m_manualPeers := m_manualPeers m; m_seenBlocks :=
     m_seenBlocks m; m_seenTxs := m_seenTxs m; m_lastSyncReq := m_lastSyncReq m; m_rnd := m_rnd
     m |}.
Definition set_m_seenBlocks (x : boundedHashSet) (m : Manager St PS) : Manager St PS :=
  {| m_cfg := m_cfg m; m_chain := m_chain m; m_mempool := m_mempool m; m_mpSet := m_mpSet m;
     m_peerStore := m_peerStore m; m_clock := m_clock m; m_peers := m_peers m; m_bestPeerHeight
     := m_bestPeerHeight m; m_banned := m_banned m; m_backoff := m_backoff m; m_backoffN :=
     m_backoffN m; m_nextPeerID := m_nextPeerID m; m_manualPeers := m_manualPeers m;
     m_seenBlocks := x; m_seenTxs := m_seenTxs m; m_lastSyncReq := m_lastSyncReq m; m_rnd :=
     m_rnd m |}.
Definition set_m_seenTxs (x : boundedHashSet) (m : Manager St PS) : Manager St PS :=
  {| m_cfg := m_cfg m; m_chain := m_chain m; m_mempool := m_mempool m; m_mpSet := m_mpSet m;
     m_peerStore := m_peerStore m; m_clock := m_clock m; m_peers := m_peers m; m_bestPeerHeight
     := m_bestPeerHeight m; m_banned := m_banned m; m_backoff := m_backoff m; m_backoffN :=
     m_backoffN m; m_nextPeerID := m_nextPeerID m; m_manualPeers := m_manualPeers m;
     m_seenBlocks := m_seenBlocks m; m_seenTxs := x; m_lastSyncReq := m_lastSyncReq m; m_rnd :=
     m_rnd m |}.
Definition set_m_lastSyncReq (x : option Z) (m : Manager St PS) : Manager St PS :=
  {| m_cfg := m_cfg m; m_chain := m_chain m; m_mempool := m_mempool m; m_mpSet := m_mpSet m;
     m_peerStore := m_peerStore m; m_clock := m_clock m; m_peers := m_peers m; m_bestPeerHeight
     := m_bestPeerHeight m; m_banned := m_banned m; m_backoff := m_backoff m; m_backoffN :=
     m_backoffN m; m_nextPeerID := m_nextPeerID m; m_manualPeers := m_manualPeers m;
     m_seenBlocks := m_seenBlocks m; m_seenTxs := m_seenTxs m; m_lastSyncReq := x; m_rnd :=
     m_rnd m |}.
Definition set_m_rnd (x : nat) (m : Manager St PS) : Manager St PS :=
  {| m_cfg := m_cfg m; m_chain := m_chain m; m_mempool := m_mempool m; m_mpSet := m_mpSet m;
     m_peerStore := m_peerStore m; m_clock := m_clock m; m_peers := m_peers m; m_bestPeerHeight
     := m_bestPeerHeight m; m_banned := m_banned m; m_backoff := m_backoff m; m_backoffN :=
     m_backoffN m; m_nextPeerID := m_nextPeerID m; m_manualPeers := m_manualPeers m;
     m_seenBlocks := m_seenBlocks m; m_seenTxs := m_seenTxs m; m_lastSyncReq := m_lastSyncReq m;
     m_rnd := x |}.
Definition set_m_manualPeers (x : gset Addr) (m : Manager St PS) : Manager St PS :=
  {| m_cfg := m_cfg m; m_chain := m_chain m; m_mempool := m_mempool m; m_mpSet := m_mpSet m;
     m_peerStore := m_peerStore m; m_clock := m_clock m; m_peers := m_peers m; m_bestPeerHeight
     := m_bestPeerHeight m; m_banned := m_banned m; m_backoff := m_backoff m; m_backoffN :=
     m_backoffN m; m_nextPeerID := m_nextPeerID m; m_manualPeers := x; m_seenBlocks :=
     m_seenBlocks m; m_seenTxs := m_seenTxs m; m_lastSyncReq := m_lastSyncReq m; m_rnd := m_rnd
     m |}.
Definition set_m_nextPeerID (x : Z) (m : Manager St PS) : Manager St PS :=
  {| m_cfg := m_cfg m; m_chain := m_chain m; m_mempool := m_mempool m; m_mpSet := m_mpSet m;
     m_peerStore := m_peerStore m; m_clock := m_clock m; m_peers := m_peers m; m_bestPeerHeight
     := m_bestPeerHeight m; m_banned := m_banned m; m_backoff := m_backoff m; m_backoffN :=
     m_backoffN m; m_nextPeerID := x; m_manualPeers := m_manualPeers m; m_seenBlocks :=
     m_seenBlocks m; m_seenTxs := m_seenTxs m; m_lastSyncReq := m_lastSyncReq m; m_rnd := m_rnd
     m |}.
Definition set_backoffs (b n : gmap Addr Z) (m : Manager St PS) : Manager St PS :=
  {| m_cfg := m_cfg m; m_chain := m_chain m; m_mempool := m_mempool m; m_mpSet := m_mpSet m;
     m_peerStore := m_peerStore m; m_clock := m_clock m; m_peers := m_peers m; m_bestPeerHeight
     := m_bestPeerHeight m; m_banned := m_banned m; m_backoff := b; m_backoffN := n;
     m_nextPeerID := m_nextPeerID m; m_manualPeers := m_manualPeers m; m_seenBlocks :=
     m_seenBlocks m; m_seenTxs := m_seenTxs m; m_lastSyncReq := m_lastSyncReq m; m_rnd := m_rnd
     m |}.

(** Apply [f] to the peer object with address [a]. *)
Definition on_peer (a : Addr) (f : Peer -> Peer) (m : Manager St PS) : Manager St PS :=
  set_m_peers (alter f a (m_peers m)) m.
End fields.

(** ** Shuffling *)

Definition swap {A} (i j : nat) (l : list A) : list A :=
  match l !! i, l !! j with
  | Some x, Some y => <[i := y]> (<[j := x]> l)
  | _, _ => l
  end.

(** [for i := len-1; i > 0; i--]; [k] counts the numbers drawn. *)
Fixpoint shuffle_loop {A} (rnd : nat -> Z) (i k : nat) (l : list A) : list A :=
  match i with
  | O => l
  | S i' => shuffle_loop rnd i' (S k) (swap i (Z.to_nat (rnd k mod (Z.of_nat i + 1))) l)
  end.
Definition shufflePeers {A} (rnd : nat -> Z) (k : nat) (l : list A) : list A :=
  shuffle_loop rnd (length l - 1) k l.

(** ** Errors of the chain as the handler reads them

    [strings.Contains] on the error text: only a Merkle root error contains ["merkle"],
    and no error of the program contains ["proof of work"] or ["bits mismatch"]
    ([engine.go] 35 and 40, [target.go] 111). *)

Definition is_side_chain (e : ChainErr) : bool :=
  match e with SideChainBlock _ | SideChainDeep _ _ => true | _ => false end.
Definition is_orphan (e : ChainErr) : bool :=
  match e with OrphanInPool _ | OrphanStored _ _ => true | _ => false end.
Definition already_in_chain (e : ChainErr) : bool :=
  match e with AlreadyInChain _ => true | _ => false end.
Definition severe (e : ChainErr) : bool :=
  match e with BlockInvalid _ (MerkleMismatch _ _) => true | _ => false end.

(** ** Operations *)

Section manager.
Context {St : Type} `{BS : BlockStore St} `{EN : Engine} `{EC : ECOps}.
Context {PS : Type} `{PST : PeerStore PS}.
Context (cenv : Env) (nenv : NetEnv).
#[local] Abbreviation Mgr := (Manager St PS).
Implicit Types m : Mgr.

Definition NewManager (cfg : Config) (c : Chain St) (mp : Mempool) (mpSet : nat) (ps : PS)
    (clock : option AdjustedClock) : Mgr :=
  {| m_cfg := cfg; m_chain := c; m_mempool := mp; m_mpSet := mpSet; m_peerStore := ps; m_clock := clock;
     m_peers := ∅; m_bestPeerHeight := 0; m_banned := ∅; m_backoff := ∅; m_backoffN := ∅;
     m_nextPeerID := 0; m_manualPeers := ∅; m_seenBlocks := newBoundedHashSet maxSeenBlocks;
     m_seenTxs := newBoundedHashSet maxSeenTxs; m_lastSyncReq := None; m_rnd := 0 |}.

Definition connect_only m : bool := negb (bool_decide (mc_connectOnly (m_cfg m) = [])).

(** *** Queries *)

Definition PeerCount m : Z := Z.of_nat (size (m_peers m)).

Definition IsSyncing m : bool :=
  let ourHeight := snd (Tip (m_chain m)) in
  if m_bestPeerHeight m =? 0 then false else add32 ourHeight 5 <? m_bestPeerHeight m.

Definition outboundCount m : Z :=
  len (filter (fun kv => p_inbound kv.2 = false) (map_to_list (m_peers m))).
Definition ConnectionCounts m : Z * Z :=
  (len (filter (fun kv => p_inbound kv.2 = true) (map_to_list (m_peers m))), outboundCount m).

(** *** Sending *)

Definition send (cmd payload : list byte) (a : Addr) m : Mgr :=
  on_peer a (SendMessage (ne_coin nenv) cmd payload) m.
Definition know (h : Hash) (a : Addr) m : Mgr := on_peer a (AddKnownInventory (ne_known nenv) h) m.
Definition knows m (h : Hash) (a : Addr) : bool :=
  match m_peers m !! a with Some p => HasKnownInventory h p | None => true end.

(** The peers in the order of one iteration over the map. *)
Definition peer_list m : list Addr := ne_peers nenv (m_peers m).

Definition shuffled (l : list Addr) m : list Addr * Mgr :=
  (shufflePeers (ne_rand nenv) (m_rnd m) l, set_m_rnd (m_rnd m + (length l - 1))%nat m).

Definition maxDirectPush : nat := 3.

(** The loop over the shuffled peers; [i] is the index. *)
Fixpoint push_block (h : Hash) (blockBytes invPayload : list byte) (i : nat) (l : list Addr) m : Mgr :=
  match l with
  | [] => m
  | a :: l =>
      let m := know h a m in
      let m := if (i <? maxDirectPush)%nat then send CmdBlock blockBytes a m
               else send CmdInv invPayload a m in
      push_block h blockBytes invPayload (S i) l m
  end.

Definition BroadcastBlock (h : Hash) (block : Block) m : Mgr :=
  let m := set_m_seenBlocks (bh_Add (m_seenBlocks m) h) m in
  let invPayload := inv_Encode [{| iv_Type := InvTypeBlock; iv_Hash := h |}] in
  let eligible := filter (fun a => knows m h a = false) (peer_list m) in
  let '(eligible, m) := shuffled eligible m in
  push_block h (blk_Serialize block) invPayload 0 eligible m.

Definition BroadcastTx (h : Hash) m : Mgr :=
  let m := set_m_seenTxs (bh_Add (m_seenTxs m) h) m in
  let payload := inv_Encode [{| iv_Type := InvTypeTx; iv_Hash := h |}] in
  fold_left (fun m a => if knows m h a then m else send CmdInv payload a (know h a m)) (peer_list m) m.

(** *** Bans *)

Definition BanPeer (now : Z) (addr : Addr) m : Mgr :=
  set_m_banned (<[extractIP addr := now + BanDuration]> (m_banned m)) m.

Definition IsBanned (now : Z) (addr : Addr) m : bool * Mgr :=
  let ip := extractIP addr in
  match m_banned m !! ip with
  | None => (false, m)
  | Some expiry =>
      if now >? expiry then (false, set_m_banned (delete ip (m_banned m)) m) else (true, m)
  end.

Definition addMisbehavior (now : Z) (a : Addr) (score : Z) m : Mgr :=
  if connect_only m then m
  else
    match m_peers m !! a with
    | None => m
    | Some p =>
        let '(newScore, p) := AddBanScore score p in
        let m := set_m_peers (<[a := p]> (m_peers m)) m in
        if newScore >=? BanThreshold then on_peer a Close (BanPeer now (p_addr p) m) else m
    end.

(** *** Backoff *)

Definition canReconnect (now : Z) (addr : Addr) m : bool :=
  match m_backoff m !! addr with None => true | Some next => now >? next end.

(** [backoffN] counts in an [int]; the shift is at most 10. *)
Definition backoff_delay (n : Z) : Z :=
  let delay := backoffBase * 2 ^ Z.min n 10 in
  if delay >? backoffMax then backoffMax else delay.

Definition recordConnectFailure (now : Z) (addr : Addr) m : Mgr :=
  let n := i64 (default 0 (m_backoffN m !! addr) + 1) in
  set_backoffs (<[addr := now + backoff_delay n]> (m_backoff m)) (<[addr := n]> (m_backoffN m)) m.

Definition recordConnectSuccess (addr : Addr) m : Mgr :=
  set_backoffs (delete addr (m_backoff m)) (delete addr (m_backoffN m)) m.

(** *** Requesting blocks *)

Fixpoint try_send_first (cmd payload : list byte) (l : list Addr) m : Mgr :=
  match l with
  | [] => m
  | a :: l =>
      match m_peers m !! a with
      | None => try_send_first cmd payload l m
      | Some p =>
          let '(ok, p) := TrySendMessage (ne_coin nenv) cmd payload p in
          if ok then set_m_peers (<[a := p]> (m_peers m)) m else try_send_first cmd payload l m
      end
  end.

(** A zero [lastSyncReq] is [None]. *)
Definition throttled (now : Z) m : bool :=
  match m_lastSyncReq m with Some t => now - t <? time_Second / 2 | None => false end.

Definition requestBlocks (now : Z) (a : Addr) m : Mgr :=
  if throttled now m then m
  else
    let m := set_m_lastSyncReq (Some now) m in
    let locator := BlockLocator (m_chain m) in
    if len locator =? 0 then m
    else
      let payload := getblocks_Encode {| gb_Version := ProtocolVersion; gb_BlockLocatorHashes := locator;
                                         gb_HashStop := ZeroHash |} in
      match m_peers m !! a with
      | None => m
      | Some p =>
          let '(ok, p) := TrySendMessage (ne_coin nenv) CmdGetBlocks payload p in
          if ok then set_m_peers (<[a := p]> (m_peers m)) m
          else
            let '(candidates, m) := shuffled (filter (fun b => b <> a) (peer_list m)) m in
            try_send_first CmdGetBlocks payload candidates m
      end.

(** *** Handlers *)

Definition inv_step (a : Addr) (acc : list InvVector * Mgr) (iv : InvVector) : list InvVector * Mgr :=
  let '(needed, m) := acc in
  let m := know (iv_Hash iv) a m in
  if iv_Type iv =? InvTypeBlock then
    if HasBlockOnChain (m_chain m) (iv_Hash iv) then (needed, m) else (needed ++ [iv], m)
  else if iv_Type iv =? InvTypeTx then
    if HasTx (m_mempool m) (iv_Hash iv) then (needed, m) else (needed ++ [iv], m)
  else (needed, m).

Definition handleInv (a : Addr) (inventory : list InvVector) m : Mgr :=
  let '(needed, m) := fold_left (inv_step a) inventory ([], m) in
  if len needed >? 0 then send CmdGetData (getdata_Encode needed) a m else m.

Definition getdata_step (a : Addr) m (iv : InvVector) : Mgr :=
  if iv_Type iv =? InvTypeBlock then
    match GetBlock (c_store (m_chain m)) (iv_Hash iv) with
    | Err _ => m
    | Ok block => send CmdBlock (blk_Serialize block) a m
    end
  else if iv_Type iv =? InvTypeTx then
    match GetTx (m_mempool m) (iv_Hash iv) with
    | None => m
    | Some tx => send CmdTx (tx_SerializeToBytes tx) a m
    end
  else m.

Definition handleGetData (a : Addr) (inventory : list InvVector) m : Mgr :=
  fold_left (getdata_step a) inventory m.

(** After [ProcessBlock] accepted [block] at [height]. *)
Definition block_accepted (now : Z) (a : Addr) (block : Block) (h : Hash) (height : Z) m : Mgr :=
  let mp := RemoveTxs (m_mempool m) (map HashTransaction (blk_Transactions block)) in
  let m := set_m_mempool (SetTipHeight mp height) m in
  let m := on_peer a (SetStartHeightIfGreater height) m in
  let m := on_peer a (StampLastBlock now) m in
  let m := on_peer a (set_syncedBlocks (i32 height)) m in
  let m := on_peer a (set_syncedHeaders (i32 height)) m in
  let m := if height >? m_bestPeerHeight m then set_m_bestPeerHeight height m else m in
  let m := BroadcastBlock h block m in
  match m_peers m !! a with
  | Some p => if BestHeight p >? height then requestBlocks now a m else m
  | None => m
  end.

Definition handleBlock (now : Z) (a : Addr) (block : Block) m : Mgr :=
  let h := HashBlockHeader (blk_Header block) in
  let m := know h a m in
  let '(seen, s) := bh_AddOrHas (m_seenBlocks m) h in
  if seen then m
  else
    let m := set_m_seenBlocks s m in
    let '(r, c) := ProcessBlock cenv block (m_chain m) in
    let m := set_m_chain c m in
    match r with
    | Ok height => block_accepted now a block h height m
    | Err e =>
        if is_side_chain e then m
        else
          let m := set_m_seenBlocks (bh_Remove (m_seenBlocks m) h) m in
          if is_orphan e then requestBlocks now a m
          else if already_in_chain e then m
          else addMisbehavior now a (if severe e then 100 else 10) m
    end.

Definition handleTx (now : Z) (a : Addr) (tx : Transaction) m : Mgr :=
  let h := HashTransaction tx in
  let m := know h a m in
  let '(seen, s) := bh_AddOrHas (m_seenTxs m) h in
  if seen then m
  else
    let m := set_m_seenTxs s m in
    match AddTx (m_mempool m) (set_at (m_chain m) (m_mpSet m)) tx with
    | Err _ => m
    | Ok (mp, _) => BroadcastTx h (on_peer a (StampLastTx now) (set_m_mempool mp m))
    end.

(** The height of the first locator hash on the main chain, 0 if there is none. *)
Fixpoint locate (c : Chain St) (hashes : list Hash) : Z :=
  match hashes with
  | [] => 0
  | hash :: hashes =>
      match FindMainChainHash c hash with
      | (height, true) => height
      | (_, false) => locate c hashes
      end
  end.

(** [for h := startHeight + 1; h <= tipHeight && sent < 500; h++]; [n] is the number of
    blocks still allowed, [500 - sent]. *)
Fixpoint send_blocks (n : nat) (a : Addr) (stop : Hash) (tipHeight h : Z) m : Mgr :=
  match n with
  | O => m
  | S n =>
      if h <=? tipHeight then
        match GetHeaderByHeight (m_chain m) h with
        | Err _ => m
        | Ok header =>
            let hash := HashBlockHeader header in
            match GetBlock (c_store (m_chain m)) hash with
            | Err _ => m
            | Ok block =>
                let m := know hash a m in
                let m := send CmdBlock (blk_Serialize block) a m in
                if bool_decide (hash = stop) then m
                else send_blocks n a stop tipHeight (add32 h 1) m
            end
        end
      else m
  end.

Definition handleGetBlocks (a : Addr) (msg : GetBlocksMsg) m : Mgr :=
  let tipHeight := snd (Tip (m_chain m)) in
  let startHeight := locate (m_chain m) (gb_BlockLocatorHashes msg) in
  send_blocks 500 a (gb_HashStop msg) tipHeight (add32 startHeight 1) m.

(** *** Addresses *)

(** One of the two loops of [gatherAddresses]; [true] is the early return. *)
Fixpoint gather (listen : Addr) (limit : Z) (l : list Addr) (seen : gset Addr) (addrs : list Addr)
  : bool * gset Addr * list Addr :=
  match l with
  | [] => (false, seen, addrs)
  | addr :: l =>
      if bool_decide (addr = listen) then gather listen limit l seen addrs
      else if bool_decide (addr ∈ seen) then gather listen limit l seen addrs
      else
        let addrs := addrs ++ [addr] in
        if len addrs >=? limit then (true, {[ addr ]} ∪ seen, addrs)
        else gather listen limit l ({[ addr ]} ∪ seen) addrs
  end.

(** The advertised address of a connected peer, else the address of its connection. *)
Definition gossip_addr (p : Peer) : Addr :=
  match p_version p with
  | Some v => if bool_decide (vm_AddrFrom v = []) then p_addr p else vm_AddrFrom v
  | None => p_addr p
  end.

Definition gatherAddresses (limit : Z) m : list Addr :=
  let connected := omap (fun a => gossip_addr <$> m_peers m !! a) (peer_list m) in
  let stored := match GetPeers (m_peerStore m) with Ok l => l | Err _ => [] end in
  let listen := mc_listenAddr (m_cfg m) in
  match gather listen limit connected ∅ [] with
  | (true, _, addrs) => addrs
  | (false, seen, addrs) => snd (gather listen limit stored seen addrs)
  end.

Definition handleGetAddr (a : Addr) m : Mgr :=
  match m_peers m !! a with
  | None => m
  | Some p =>
      let '(first, p) := MarkGetAddrResponded p in
      let m := set_m_peers (<[a := p]> (m_peers m)) m in
      if first then
        let addrs := gatherAddresses 1000 m in
        if len addrs =? 0 then m else send CmdAddr (addr_Encode addrs) a m
      else m
  end.

Definition store_addr (now : Z) m (addr : Addr) : Mgr :=
  let '(banned, m) := IsBanned now addr m in
  if negb banned && negb (bool_decide (addr = mc_listenAddr (m_cfg m)))
  then set_m_peerStore (PutPeer (m_peerStore m) addr) m else m.

(** *** Dispatch *)

Definition handleMessage (now : Z) (a : Addr) (hdr : MessageHeader) (payload : list byte) m : Mgr :=
  let cmd := CommandString hdr in
  if bool_decide (cmd = CmdPing) then
    match ping_Decode payload with
    | Err _ => addMisbehavior now a 1 m
    | Ok (nonce, _) => send CmdPong (pong_Encode nonce) a m
    end
  else if bool_decide (cmd = CmdPong) then
    match pong_Decode payload with
    | Err _ => addMisbehavior now a 1 m
    | Ok (nonce, _) =>
        match m_peers m !! a with
        | None => m
        | Some p =>
            let '(ok, p) := HandlePong now nonce p in
            let m := set_m_peers (<[a := p]> (m_peers m)) m in
            if ok then m else addMisbehavior now a 1 m
        end
    end
  else if bool_decide (cmd = CmdInv) then
    match inv_Decode payload with
    | Err _ => addMisbehavior now a 20 m
    | Ok (inv, _) => handleInv a inv m
    end
  else if bool_decide (cmd = CmdGetData) then
    match getdata_Decode payload with
    | Err _ => addMisbehavior now a 20 m
    | Ok (inv, _) => handleGetData a inv m
    end
  else if bool_decide (cmd = CmdBlock) then
    match blk_Deserialize payload with
    | Err _ => addMisbehavior now a 20 m
    | Ok (block, _) => handleBlock now a block m
    end
  else if bool_decide (cmd = CmdTx) then
    match tx_Deserialize payload with
    | Err _ => addMisbehavior now a 10 m
    | Ok (tx, _) => handleTx now a tx m
    end
  else if bool_decide (cmd = CmdGetBlocks) then
    match getblocks_Decode payload with
    | Err _ => addMisbehavior now a 10 m
    | Ok (msg, _) => handleGetBlocks a msg m
    end
  else if bool_decide (cmd = CmdAddr) then
    match addr_Decode payload with
    | Err _ => addMisbehavior now a 10 m
    | Ok (addrs, _) => fold_left (store_addr now) addrs m
    end
  else if bool_decide (cmd = CmdGetAddr) then handleGetAddr a m
  else m.

(** One round of the loop of [handlePeer] after [ReadMessage]; [false] ends the connection. *)
Definition serve (now : Z) (a : Addr) (hdr : MessageHeader) (payload : list byte) m : bool * Mgr :=
  match m_peers m !! a with
  | None => (false, m)
  | Some p =>
      let '(ok, p) := CheckRateLimit now p in
      let m := set_m_peers (<[a := p]> (m_peers m)) m in
      let m := if ok then m else addMisbehavior now a 10 m in
      let banned := match m_peers m !! a with
                    | Some p => p_banScore p >=? BanThreshold
                    | None => false
                    end in
      if negb ok && banned then (false, m) else (true, handleMessage now a hdr payload m)
  end.

(** *** Handshake

    On a connection whose other side sends the bytes [r]: the outcome, the bytes left
    unread, the bytes sent and the peer (also when the handshake fails). *)

Inductive HandshakeErr :=
| HsRead (e : ReadErr)
| HsExpected (want got : list byte)
| HsDecode (e : DecodeErr)
| HsSelf.

Definition version_msg (now : Z) (peer_addr : Addr) m : VersionMsg :=
  {| vm_Version := ProtocolVersion; vm_Services := 1; vm_Timestamp := unix now;
     vm_AddrRecv := peer_addr; vm_AddrFrom := mc_listenAddr (m_cfg m);
     vm_Nonce := mc_localNonce (m_cfg m); vm_UserAgent := UserAgent;
     vm_StartHeight := snd (Tip (m_chain m)) |}.

Definition magic_of m : list byte := p_NetworkMagic (c_params (m_chain m)).

Definition sendVersion (now : Z) (p : Peer) m : list byte :=
  WriteMessage (magic_of m) CmdVersion (version_Encode (version_msg now (p_addr p) m)).
Definition sendVerack m : list byte := EncodeMessageHeader (magic_of m) CmdVerack [].

Definition readAndProcessVersion (now : Z) (r : list byte) (p : Peer) m
  : result HandshakeErr (list byte * Peer * Mgr) :=
  let* (hdr, payload, r, p) := rwrap HsRead (peer_ReadMessage now r p) in
  check negb (bool_decide (CommandString hdr = CmdVersion)) else HsExpected CmdVersion (CommandString hdr);
  let* (theirs, _) := rwrap HsDecode (version_Decode payload) in
  check vm_Nonce theirs =? mc_localNonce (m_cfg m) else HsSelf;
  let p := SetVersion theirs p in
  let clock := match m_clock m with
               | Some c => if vm_Timestamp theirs =? 0 then Some c
                           else Some (AddSample c (unix now) (p_addr p) (vm_Timestamp theirs))
               | None => None
               end in
  Ok (r, p, set_m_clock clock m).

Definition readVerack (now : Z) (r : list byte) (p : Peer) : result HandshakeErr (list byte * Peer) :=
  let* (hdr, _, r, p) := rwrap HsRead (peer_ReadMessage now r p) in
  check negb (bool_decide (CommandString hdr = CmdVerack)) else HsExpected CmdVerack (CommandString hdr);
  Ok (r, p).

(** What is sent before the first read, and what after a successful version. *)
Definition handshakeOutbound (now : Z) (r : list byte) (p : Peer) m
  : list byte * result HandshakeErr (list byte * list byte * Peer * Mgr) :=
  (sendVersion now p m,
   let* (r, p, m) := readAndProcessVersion now r p m in
   let* (r, p) := readVerack now r p in
   Ok (sendVerack m, r, p, m)).

(** The bytes sent after the peer's version was read, and the end of the handshake. *)
Definition handshakeInbound (now : Z) (r : list byte) (p : Peer) m
  : result HandshakeErr (list byte * result HandshakeErr (list byte * Peer * Mgr)) :=
  let* (r, p, m) := readAndProcessVersion now r p m in
  Ok (sendVersion now p m ++ sendVerack m,
      let* (r, p) := readVerack now r p in
      Ok (r, p, m)).

(** *** Connections *)

(** The checks of [connectPeer] before it dials. *)
Definition may_dial (now : Z) (addr : Addr) m : bool * Mgr :=
  if bool_decide (addr = mc_listenAddr (m_cfg m)) then (false, m)
  else if bool_decide (is_Some (m_peers m !! addr)) then (false, m)
  else if existsb (fun kv => match p_version kv.2 with
                             | Some v => bool_decide (vm_AddrFrom v = addr)
                             | None => false
                             end) (map_to_list (m_peers m)) then (false, m)
  else let '(banned, m) := IsBanned now addr m in (negb banned, m).

(** [handlePeer] after a successful handshake with [v], up to its message loop. *)
Definition register_peer (now : Z) (p : Peer) (v : VersionMsg) m : Mgr :=
  let a := p_addr p in
  let m := recordConnectSuccess a m in
  let m := set_m_nextPeerID (i32 (m_nextPeerID m + 1)) m in
  let p := set_id (m_nextPeerID m) p in
  let p := if decide (a ∈ m_manualPeers m) then set_connType "manual" p else p in
  let m := set_m_peers (<[a := p]> (m_peers m)) m in
  let m := if vm_StartHeight v >? m_bestPeerHeight m then set_m_bestPeerHeight (vm_StartHeight v) m else m in
  let listen := vm_AddrFrom v in
  let m :=
    if negb (bool_decide (listen = [])) && negb (bool_decide (listen = mc_listenAddr (m_cfg m)))
    then set_m_peerStore (PutPeer (m_peerStore m) listen) m
    else if negb (bool_decide (a = mc_listenAddr (m_cfg m)))
    then set_m_peerStore (PutPeer (m_peerStore m) a) m
    else m in
  let m := send CmdGetAddr [] a m in
  if vm_StartHeight v >? snd (Tip (m_chain m)) then requestBlocks now a m else m.

(** The deferred function of [handlePeer]. *)
Definition best_start (peers : gmap Addr Peer) : Z :=
  fold_left (fun best kv => match p_version kv.2 with
                            | Some v => if vm_StartHeight v >? best then vm_StartHeight v else best
                            | None => best
                            end) (map_to_list peers) 0.
Definition drop_peer (a : Addr) m : Mgr :=
  let peers := delete a (m_peers m) in
  set_m_bestPeerHeight (best_start peers) (set_m_peers peers m).

(** [sort.Slice] by descending latency is not stable: any slowest peer may come first; here
    it is the first of the iteration order. *)
Definition slower (x y : Addr * Peer) : Prop :=
  pl_pingLatency (p_live y.2) <= pl_pingLatency (p_live x.2).
#[export] Instance slower_dec x y : Decision (slower x y).
Proof. unfold slower. apply _. Defined.
Definition maybeEvictInbound m : Mgr :=
  let inbound := filter (fun kv => p_inbound kv.2 = true)
    (omap (fun a => pair a <$> m_peers m !! a) (peer_list m)) in
  if len inbound <? mc_maxInbound (m_cfg m) then m
  else match merge_sort slower inbound with
       | (a, _) :: _ => on_peer a Close m
       | [] => m
       end.

Definition AddNode (now : Z) (addr : Addr) m : option string * Mgr :=
  let '(banned, m) := IsBanned now addr m in
  if banned then (Some "banned"%string, m)
  else if bool_decide (is_Some (m_peers m !! addr)) then (Some "already connected"%string, m)
  else (None, set_m_manualPeers ({[ addr ]} ∪ m_manualPeers m) m).

Definition DisconnectNode (addr : Addr) m : bool * Mgr :=
  match m_peers m !! addr with
  | None => (false, m)
  | Some _ => (true, on_peer addr Close m)
  end.

(** *** Ticks of the loops *)

(** [pingLoop]: a fresh nonce for each peer. *)
Definition ping_one (now : Z) m (a : Addr) : Mgr :=
  let nonce := ne_rand nenv (m_rnd m) in
  let m := set_m_rnd (S (m_rnd m)) m in
  send CmdPing (ping_Encode nonce) a (on_peer a (SetPingNonce now nonce) m).
Definition ping_tick (now : Z) m : Mgr := fold_left (ping_one now) (peer_list m) m.

(** [livenessLoop]. *)
Definition liveness_tick (now : Z) m : Mgr :=
  let m := set_m_peers ((fun p => if PongOverdue now p then Close p else p) <$> m_peers m) m in
  set_m_banned (filter (fun kv => ~ now > kv.2) (m_banned m)) m.

(** [syncLoop]: the first peer with the greatest height in iteration order. *)
Definition sync_pick m : option Addr * Z :=
  fold_left (fun acc a =>
    match m_peers m !! a with
    | Some p => if BestHeight p >? snd acc then (Some a, BestHeight p) else acc
    | None => acc
    end) (peer_list m) (None, 0).
Definition sync_tick (now : Z) m : Mgr :=
  match sync_pick m with
  | (Some a, best) => if best >? snd (Tip (m_chain m)) then requestBlocks now a m else m
  | (None, _) => m
  end.

(** [addrBroadcastLoop]. *)
Definition addr_tick m : Mgr :=
  let addrs := gatherAddresses 10 m in
  if len addrs =? 0 then m
  else
    let '(peers, m) := shuffled (peer_list m) m in
    fold_left (fun m a => on_peer a (SendLowPriority (ne_coin nenv) CmdAddr (addr_Encode addrs)) m)
      (take 2 peers) m.

(** ** The node ([src/cmd/node/main.go])

    The miner's callback with a block it found. *)
Definition mined (block : Block) m : Mgr :=
  let '(r, c) := ProcessBlock cenv block (m_chain m) in
  let m := set_m_chain c m in
  match r with
  | Err _ => m
  | Ok height =>
      let mp := RemoveTxs (m_mempool m) (map HashTransaction (blk_Transactions block)) in
      let m := set_m_mempool (SetTipHeight mp height) m in
      BroadcastBlock (HashBlockHeader (blk_Header block)) block m
  end.

(** What can happen to the manager. *)
Inductive net_event :=
| Recv (now : Z) (a : Addr) (hdr : MessageHeader) (payload : list byte)
| Join (now : Z) (p : Peer) (v : VersionMsg)
| Leave (a : Addr)
| Mined (block : Block)
| PingTick (now : Z)
| LivenessTick (now : Z)
| SyncTick (now : Z)
| AddrTick
| Dial (now : Z) (addr : Addr)
| DialFailed (now : Z) (addr : Addr)
| EvictInbound.

Definition net_step m (e : net_event) : Mgr :=
  match e with
  | Recv now a hdr payload => snd (serve now a hdr payload m)
  | Join now p v => register_peer now p v m
  | Leave a => drop_peer a m
  | Mined block => mined block m
  | PingTick now => ping_tick now m
  | LivenessTick now => liveness_tick now m
  | SyncTick now => sync_tick now m
  | AddrTick => addr_tick m
  | Dial now addr => snd (may_dial now addr m)
  | DialFailed now addr => recordConnectFailure now addr m
  | EvictInbound => maybeEvictInbound m
  end.
Definition net_run m (es : list net_event) : Mgr := fold_left net_step es m.
End manager.
