(* ===== verification/NodeInv.v ===== *)
(** * The network cannot break the node

    Invariants of [Manager.v]: what each handler and tick may change, and that the chain
    and the mempool stay consistent under any messages from any peers. *)
From S2P Require Import Prelude.
From S2P Require Import Types.
From S2P Require Import Sha256.
From S2P Require Import Crypto.
From S2P Require Import Params.
From S2P Require Import Script.
From S2P Require Import Utxo.
From S2P Require Import TxValidation.
From S2P Require Import BlockValidation.
From S2P Require Import Pow.
From S2P Require Import Ledger.
From S2P Require Import Store.
From S2P Require Import Chain.
From S2P Require Import ChainInv.
From S2P Require Import Reorg.
From S2P Require Import Accept.
From S2P Require Import ChainSafety.
From S2P Require Import Mempool.
From S2P Require Import Protocol.
From S2P Require Import TimeAdjust.
From S2P Require Import Peer.
From S2P Require Import SeenSet.
From S2P Require Import Manager.
#[local] Open Scope Z_scope.
#[local] Open Scope go_scope.

(** ** Peers *)

(** A peer object stored under address [a]. *)
Definition peer_ok (a : Addr) (p : Peer) : Prop :=
  p_addr p = a /\ Z.of_nat (size (p_knownInv p)) <= 10000 /\ len (p_sendQueue p) <= peerSendQueueSize.

(** An operation on a peer that respects the bounds. *)
Class PeerStep (f : Peer -> Peer) : Prop := peer_step : forall a p, peer_ok a p -> peer_ok a (f p).

#[export] Instance step_send coin cmd payload : PeerStep (SendMessage coin cmd payload).
Proof.
  intros a p (Ha & Hk & Hq). split_and!; [| |by apply queue_bounded];
    unfold SendMessage, TrySendMessage; destruct (_ && _); done.
Qed.
#[export] Instance step_try coin cmd payload : PeerStep (fun p => (TrySendMessage coin cmd payload p).2) :=
  step_send coin cmd payload.
#[export] Instance step_low coin cmd payload : PeerStep (SendLowPriority coin cmd payload).
Proof. intros a p Hp. unfold SendLowPriority. destruct (_ >? _); [done|by apply step_send]. Qed.
Lemma step_known order h : (forall X, order X ≡ₚ elements X) -> PeerStep (AddKnownInventory order h).
Proof.
  intros Ho a p (Ha & Hk & Hq). split_and!; [|by apply known_bounded|];
    unfold AddKnownInventory; destruct (_ >? _); done.
Qed.
#[export] Instance step_stamp_block now : PeerStep (StampLastBlock now).
Proof. by intros a p. Qed.
#[export] Instance step_stamp_tx now : PeerStep (StampLastTx now).
Proof. by intros a p. Qed.
#[export] Instance step_synced_blocks h : PeerStep (set_syncedBlocks h).
Proof. by intros a p. Qed.
#[export] Instance step_synced_headers h : PeerStep (set_syncedHeaders h).
Proof. by intros a p. Qed.
#[export] Instance step_start_height h : PeerStep (SetStartHeightIfGreater h).
Proof. intros a p Hp. unfold SetStartHeightIfGreater. destruct (p_version p); [|done]. by destruct (_ >? _). Qed.
#[export] Instance step_close : PeerStep Close.
Proof. by intros a p. Qed.
#[export] Instance step_ping now n : PeerStep (SetPingNonce now n).
Proof. by intros a p. Qed.
#[export] Instance step_score d : PeerStep (fun p => (AddBanScore d p).2).
Proof. by intros a p. Qed.
#[export] Instance step_rate now : PeerStep (fun p => (CheckRateLimit now p).2).
Proof. intros a p Hp. unfold CheckRateLimit. by destruct (_ >? _). Qed.
#[export] Instance step_pong now n : PeerStep (fun p => (HandlePong now n p).2).
Proof. intros a p Hp. unfold HandlePong. by destruct (_ || _). Qed.
#[export] Instance step_getaddr : PeerStep (fun p => (MarkGetAddrResponded p).2).
Proof. intros a p Hp. unfold MarkGetAddrResponded. by destruct (p_getaddrResponded p). Qed.

(** ** What an operation leaves alone *)

Section frames.
Context {St : Type} `{BS : BlockStore St} `{EN : Engine} `{EC : ECOps}.
Context {PS : Type} `{PST : PeerStore PS}.
Context (cenv : Env) (nenv : NetEnv) (Hknown : forall X, ne_known nenv X ≡ₚ elements X).
Implicit Types m : Manager St PS.

Definition peers_ok m : Prop := forall a p, m_peers m !! a = Some p -> peer_ok a p.

(** The chain, the mempool and the configuration are untouched, the peers stay in bounds. *)
Record framed m m' : Prop := {
  fr_chain : m_chain m' = m_chain m;
  fr_mempool : m_mempool m' = m_mempool m;
  fr_cfg : m_cfg m' = m_cfg m;
  fr_set : m_mpSet m' = m_mpSet m;
  fr_peers : peers_ok m -> peers_ok m' }.

#[export] Instance framed_refl : Reflexive framed.
Proof. by constructor. Qed.
#[export] Instance framed_trans : Transitive framed.
Proof. intros m1 m2 m3 [] []. constructor; try congruence. auto. Qed.

Lemma framed_same m m' :
  m_chain m' = m_chain m -> m_mempool m' = m_mempool m -> m_cfg m' = m_cfg m -> m_mpSet m' = m_mpSet m ->
  m_peers m' = m_peers m -> framed m m'.
Proof. intros ? ? ? ? E. constructor; try done. unfold peers_ok. by rewrite E. Qed.

Lemma framed_on_peer a f m : PeerStep f -> framed m (on_peer a f m).
Proof.
  intros Hf. constructor; try done. intros Hp b p. unfold on_peer. simpl.
  rewrite lookup_alter_Some. intros [(-> & q & Hq & ->)|[_ H]]; [apply Hf|]; by apply Hp.
Qed.

Lemma framed_insert a p p' m :
  m_peers m !! a = Some p -> (forall b, peer_ok b p -> peer_ok b p') ->
  framed m (set_m_peers (<[a := p']> (m_peers m)) m).
Proof.
  intros E Hp'. constructor; try done. intros Hp b q. simpl.
  rewrite lookup_insert_Some. intros [[<- <-]|[_ H]]; [apply Hp'|]; by apply Hp.
Qed.

Lemma framed_fold {A} (f : Manager St PS -> A -> Manager St PS) l m :
  (forall m x, framed m (f m x)) -> framed m (fold_left f l m).
Proof.
  intros Hf. revert m. induction l as [|x l IH]; intros m; simpl; [done|].
  etrans; [apply Hf|apply IH].
Qed.

Lemma framed_send cmd payload a m : framed m (send nenv cmd payload a m).
Proof. apply framed_on_peer, _. Qed.
Lemma framed_know h a m : framed m (know nenv h a m).
Proof. apply framed_on_peer. by apply step_known. Qed.
Lemma framed_shuffled l m : framed m (shuffled nenv l m).2.
Proof. by apply framed_same. Qed.

Lemma framed_push h bb ip l : forall i m, framed m (push_block nenv h bb ip i l m).
Proof.
  induction l as [|a l IH]; intros i m; cbn [push_block]; [done|].
  etrans; [apply (framed_know h a)|]. etrans; [|apply IH].
  destruct (i <? maxDirectPush)%nat; apply framed_send.
Qed.

Lemma framed_BroadcastBlock h b m : framed m (BroadcastBlock nenv h b m).
Proof.
  unfold BroadcastBlock. set (m1 := set_m_seenBlocks _ m). etrans; [by apply (framed_same m m1)|].
  destruct (shuffled nenv _ m1) as [l m2] eqn:E. etrans; [|apply framed_push].
  apply (f_equal snd) in E. simpl in E. subst m2. by apply framed_same.
Qed.

Lemma framed_BroadcastTx h m : framed m (BroadcastTx nenv h m).
Proof.
  unfold BroadcastTx. set (m1 := set_m_seenTxs _ m). etrans; [by apply (framed_same m m1)|].
  apply framed_fold. intros m' a. destruct (knows m' h a); [done|].
  etrans; [apply (framed_know h a)|apply framed_send].
Qed.

Lemma framed_IsBanned now a m : framed m (IsBanned now a m).2.
Proof. unfold IsBanned. destruct (m_banned m !! _); [|done]. destruct (_ >? _); [by apply framed_same|done]. Qed.

Lemma framed_misbehavior now a d m : framed m (addMisbehavior now a d m).
Proof.
  unfold addMisbehavior. destruct (connect_only m); [done|]. destruct (m_peers m !! a) as [p|] eqn:E; [|done].
  destruct (AddBanScore d p) as [n p'] eqn:Es. apply (f_equal snd) in Es. simpl in Es. subst p'.
  etrans; [apply (framed_insert a p (AddBanScore d p).2 m E); intros b; apply step_score|].
  destruct (_ >=? _); [|done]. etrans; [|apply framed_on_peer, _]. by apply framed_same.
Qed.

Lemma framed_try_send cmd payload l : forall m, framed m (try_send_first nenv cmd payload l m).
Proof.
  induction l as [|a l IH]; intros m; cbn [try_send_first]; [done|].
  destruct (m_peers m !! a) as [p|] eqn:E; [|apply IH].
  destruct (TrySendMessage (ne_coin nenv) cmd payload p) as [[] p'] eqn:Et; [|apply IH].
  apply (framed_insert a p p' m E). intros b Hb. change p' with (true, p').2. rewrite <- Et. by apply step_send.
Qed.

Lemma framed_requestBlocks now a m : framed m (requestBlocks nenv now a m).
Proof.
  unfold requestBlocks. destruct (throttled now m); [done|].
  set (m1 := set_m_lastSyncReq _ m). etrans; [by apply (framed_same m m1)|].
  destruct (len _ =? 0); [done|]. destruct (m_peers m1 !! a) as [p|] eqn:E; [|done].
  destruct (TrySendMessage _ _ _ p) as [[] p'] eqn:Et.
  - apply (framed_insert a p p' m1 E). intros b Hb. change p' with (true, p').2. rewrite <- Et. by apply step_send.
  - destruct (shuffled nenv _ m1) as [l m2] eqn:Es. apply (f_equal snd) in Es. simpl in Es. subst m2.
    etrans; [|apply framed_try_send]. by apply framed_same.
Qed.

Lemma framed_inv_step a acc iv : framed acc.2 (inv_step nenv a acc iv).2.
Proof.
  destruct acc as [needed m]. unfold inv_step. simpl.
  destruct (_ =? InvTypeBlock); [|destruct (_ =? InvTypeTx)]; repeat case_match; apply framed_know.
Qed.

Lemma framed_handleInv a l m : framed m (handleInv nenv a l m).
Proof.
  unfold handleInv. destruct (fold_left _ l ([], m)) as [needed m'] eqn:E.
  assert (framed m m') as H.
  { change m with (([] : list InvVector), m).2. change m' with (needed, m').2. rewrite <- E. clear -Hknown.
    generalize (([] : list InvVector), m) as acc. induction l as [|iv l IH]; intros acc; simpl; [done|].
    etrans; [apply framed_inv_step|apply IH]. }
  destruct (_ >? 0); [|done]. etrans; [exact H|apply framed_send].
Qed.

Lemma framed_handleGetData a l m : framed m (handleGetData nenv a l m).
Proof.
  apply framed_fold. intros m' iv. unfold getdata_step.
  repeat case_match; try apply framed_send; done.
Qed.

Lemma framed_send_blocks n a stop tip : forall h m, framed m (send_blocks nenv n a stop tip h m).
Proof.
  induction n as [|n IH]; intros h m; cbn [send_blocks]; [done|]. destruct (_ <=? _); [|done].
  destruct (GetHeaderByHeight _ h) as [hd|]; [|done]. destruct (GetBlock _ _) as [b|]; [|done].
  etrans; [apply framed_know|]. etrans; [apply framed_send|]. case_bool_decide; [done|apply IH].
Qed.

Lemma framed_handleGetBlocks a msg m : framed m (handleGetBlocks nenv a msg m).
Proof. apply framed_send_blocks. Qed.

Lemma framed_handleGetAddr a m : framed m (handleGetAddr nenv a m).
Proof.
  unfold handleGetAddr. destruct (m_peers m !! a) as [p|] eqn:E; [|done].
  destruct (MarkGetAddrResponded p) as [first p'] eqn:Ef. apply (f_equal snd) in Ef. simpl in Ef. subst p'.
  etrans; [apply (framed_insert a p (MarkGetAddrResponded p).2 m E); intros b; apply step_getaddr|].
  destruct first; [|done]. destruct (_ =? 0); [done|apply framed_send].
Qed.

Lemma framed_store_addr now m a : framed m (store_addr now m a).
Proof.
  unfold store_addr. destruct (IsBanned now a m) as [b m'] eqn:E.
  assert (framed m m') by (change m' with (b, m').2; rewrite <- E; apply framed_IsBanned).
  destruct (_ && _); [|done]. etrans; [done|by apply framed_same].
Qed.

Lemma framed_ticks now m :
  framed m (ping_tick nenv now m) /\ framed m (liveness_tick now m)
  /\ framed m (sync_tick nenv now m) /\ framed m (addr_tick nenv m).
Proof.
  split_and!.
  - apply framed_fold. intros m' a. unfold ping_one. etrans; [|apply framed_send].
    etrans; [by apply (framed_same m' (set_m_rnd (S (m_rnd m')) m'))|]. apply framed_on_peer, _.
  - constructor; try done. intros Hp a p. simpl. rewrite lookup_fmap_Some. intros (q & <- & Hq).
    apply Hp in Hq. by destruct (PongOverdue now q).
  - unfold sync_tick. destruct (sync_pick nenv m) as [[a|] best]; [|done]. destruct (_ >? _); [|done].
    apply framed_requestBlocks.
  - unfold addr_tick. destruct (_ =? 0); [done|]. destruct (shuffled nenv _ m) as [l m1] eqn:E.
    apply (f_equal snd) in E. simpl in E. subst m1. etrans; [|apply framed_fold]; [by apply framed_same|].
    intros m' a. apply framed_on_peer, _.
Qed.
End frames.

(** ** The node under arbitrary events *)

Section node.
Context {St : Type} `{BS : BlockStore St} {BL : BlockStoreLaws St} `{EN : Engine} {EL : EngineLaws} `{EC : ECOps}.
Context {PS : Type} `{PST : PeerStore PS}.
Context (cenv : Env) (nenv : NetEnv) (Hknown : forall X, ne_known nenv X ≡ₚ elements X).
Context (p : ChainParams) (U : list Block) (HU : universe p U).
Context (Htip : forall (s : St) h n, (PutChainTip s h n).1 = Ok tt).
Implicit Types m : Manager St PS.

Record node_ok m : Prop := {
  no_chain : chain_inv p U (m_chain m);
  no_pool : mp_reachable p (m_mempool m);
  no_peers : peers_ok m }.

(** The node stays consistent and its chain never loses work. *)
Definition improves m m' : Prop := node_ok m' /\ c_tipWork (m_chain m) <= c_tipWork (m_chain m').

Lemma improves_refl m : node_ok m -> improves m m.
Proof. by split. Qed.
Lemma improves_framed m m1 m2 : improves m m1 -> framed m1 m2 -> improves m m2.
Proof.
  intros [[Hc Hp Ho] Hw] [Ec Em _ _ Hpe]. split; [|by rewrite Ec].
  constructor; [by rewrite Ec|by rewrite Em|auto].
Qed.
Lemma framed_improves m m1 : node_ok m -> framed m m1 -> improves m m1.
Proof. intros Hm. by apply improves_framed, improves_refl. Qed.

(** A block submitted, whatever the result. *)
Lemma submit_improves m b :
  node_ok m -> b ∈ U -> live (ProcessBlock cenv b (m_chain m)).2 ->
  improves m (set_m_chain (ProcessBlock cenv b (m_chain m)).2 m).
Proof.
  intros [Hc Hp Ho] Hb L. destruct (ProcessBlock_wp cenv p U HU Htip (m_chain m) b Hc Hb L) as [Hc' Hw].
  by split.
Qed.

Lemma pool_improves m m1 mp :
  improves m m1 -> mp_reachable p mp -> improves m (set_m_mempool mp m1).
Proof. intros [[Hc _ Ho] Hw] Hmp. by split. Qed.

Lemma confirmed_reachable mp hs height :
  mp_reachable p mp -> mp_reachable p (SetTipHeight (RemoveTxs mp hs) height).
Proof.
  intros H. eapply Mempool.reach_step; [eapply Mempool.reach_step; [exact H|apply step_removes]|apply step_tip].
Qed.

Definition confirmed (b : Block) (height : Z) m : Manager St PS :=
  set_m_mempool (SetTipHeight (RemoveTxs (m_mempool m) (map HashTransaction (blk_Transactions b))) height) m.

Lemma confirmed_improves b height m m1 : improves m m1 -> improves m (confirmed b height m1).
Proof. intros Hi. apply pool_improves; [done|apply confirmed_reachable, Hi]. Qed.

(** After the mempool update only peers, heights and queues change. *)
Lemma block_accepted_framed now a b h height m :
  framed (confirmed b height m) (block_accepted nenv now a b h height m).
Proof.
  unfold block_accepted. fold (confirmed b height m). set (m2 := confirmed b height m).
  match goal with |- context [BroadcastBlock nenv h b ?x] =>
    assert (framed m2 x) as H7; [|revert H7; generalize x; intros m7 H7] end.
  { set (m6 := on_peer a (set_syncedHeaders (i32 height)) _).
    assert (framed m2 m6) as H6 by (subst m6; do 4 (etrans; [|apply framed_on_peer, _]); done).
    destruct (height >? _); [|exact H6]. etrans; [exact H6|by apply framed_same]. }
  etrans; [exact H7|]. etrans; [by apply (framed_BroadcastBlock nenv Hknown h b)|].
  destruct (m_peers _ !! a) as [q|]; [|done].
  destruct (BestHeight q >? height); [apply framed_requestBlocks|done].
Qed.

Lemma handleBlock_improves now a b m :
  node_ok m -> b ∈ U -> live (m_chain (handleBlock cenv nenv now a b m)) ->
  improves m (handleBlock cenv nenv now a b m).
Proof.
  intros Hm Hb. unfold handleBlock. set (h := HashBlockHeader (blk_Header b)).
  set (m1 := know nenv h a m). assert (improves m m1) as H1 by (apply framed_improves; [done|by apply framed_know]).
  destruct (bh_AddOrHas (m_seenBlocks m1) h) as [seen s]. destruct seen; [done|].
  set (m2 := set_m_seenBlocks s m1).
  assert (improves m m2) as H2 by (eapply improves_framed; [exact H1|by apply framed_same]).
  pose proof (submit_improves m2 b (proj1 H2) Hb) as Hsub.
  destruct (ProcessBlock cenv b (m_chain m2)) as [r c] eqn:E. cbn [fst snd] in Hsub.
  set (m3 := set_m_chain c m2) in *.
  assert (live c -> improves m m3) as H3.
  { intros L. destruct (Hsub L) as [? Hw]. split; [done|]. destruct H2 as [_ Hw2]. lia. }
  assert (forall m', framed m3 m' -> live (m_chain m') -> improves m m') as Hfin.
  { intros m' Hf L. rewrite (fr_chain _ _ Hf) in L. eapply improves_framed; [by apply H3|done]. }
  destruct r as [height|e].
  - intros L. pose proof (block_accepted_framed now a b h height m3) as Hf.
    rewrite (fr_chain _ _ Hf) in L. eapply improves_framed; [by apply confirmed_improves, H3|exact Hf].
  - destruct (is_side_chain e); [by apply Hfin|].
    set (m4 := set_m_seenBlocks _ m3). assert (framed m3 m4) as H4 by (by apply framed_same).
    destruct (is_orphan e); [|destruct (already_in_chain e); [by apply Hfin|]]; apply Hfin; etrans; try exact H4.
    + apply framed_requestBlocks.
    + apply framed_misbehavior.
Qed.

Lemma handleTx_improves now a tx m : node_ok m -> improves m (handleTx nenv now a tx m).
Proof.
  intros Hm. unfold handleTx. set (h := HashTransaction tx).
  set (m1 := know nenv h a m). assert (improves m m1) as H1 by (apply framed_improves; [done|by apply framed_know]).
  destruct (bh_AddOrHas (m_seenTxs m1) h) as [seen s]. destruct seen; [done|].
  set (m2 := set_m_seenTxs s m1).
  assert (improves m m2) as H2 by (eapply improves_framed; [exact H1|by apply framed_same]).
  destruct (AddTx (m_mempool m2) _ tx) as [[mp h']|e] eqn:E; [|done].
  eapply improves_framed; [|by apply framed_BroadcastTx].
  eapply improves_framed; [|apply framed_on_peer, _]. apply pool_improves; [done|].
  eapply Mempool.reach_step; [apply (no_pool _ (proj1 H2))|by eapply step_add].
Qed.

(** A message whose handler is not [handleBlock] leaves the chain alone. *)
Definition carries_block (hdr : MessageHeader) (payload : list byte) (b : Block) : Prop :=
  CommandString hdr = CmdBlock /\ exists r, blk_Deserialize payload = Ok (b, r).

Lemma handleMessage_cases now a hdr payload m :
  (exists b, carries_block hdr payload b
     /\ handleMessage cenv nenv now a hdr payload m = handleBlock cenv nenv now a b m)
  \/ (exists tx, handleMessage cenv nenv now a hdr payload m = handleTx nenv now a tx m)
  \/ framed m (handleMessage cenv nenv now a hdr payload m).
Proof.
  unfold handleMessage.
  case_bool_decide; [do 2 right; repeat case_match; [apply framed_send|apply framed_misbehavior]|].
  case_bool_decide.
  { do 2 right. destruct (pong_Decode payload) as [[n r]|]; [|apply framed_misbehavior].
    destruct (m_peers m !! a) as [q|] eqn:E; [|done]. destruct (HandlePong now n q) as [ok q'] eqn:Ep.
    assert (framed m (set_m_peers (<[a := q']> (m_peers m)) m)) as H1.
    { apply (framed_insert a q q' m E). intros c Hc. change q' with (ok, q').2. rewrite <- Ep. by apply step_pong. }
    destruct ok; [done|]. etrans; [exact H1|apply framed_misbehavior]. }
  case_bool_decide; [do 2 right; repeat case_match; [by apply framed_handleInv|apply framed_misbehavior]|].
  case_bool_decide; [do 2 right; repeat case_match; [apply framed_handleGetData|apply framed_misbehavior]|].
  case_bool_decide as Ec.
  { destruct (blk_Deserialize payload) as [[b r]|] eqn:Ed; [|do 2 right; apply framed_misbehavior].
    left. exists b. split; [|done]. split; [done|by exists r]. }
  case_bool_decide.
  { destruct (tx_Deserialize payload) as [[tx r]|]; [by right; left; exists tx|].
    do 2 right. apply framed_misbehavior. }
  do 2 right.
  case_bool_decide; [repeat case_match; [by apply framed_handleGetBlocks|apply framed_misbehavior]|].
  case_bool_decide; [repeat case_match; [apply framed_fold; intros; apply framed_store_addr|apply framed_misbehavior]|].
  case_bool_decide; [apply framed_handleGetAddr|done].
Qed.

Lemma handleMessage_improves now a hdr payload m :
  node_ok m -> (forall b, carries_block hdr payload b -> b ∈ U) ->
  live (m_chain (handleMessage cenv nenv now a hdr payload m)) ->
  improves m (handleMessage cenv nenv now a hdr payload m).
Proof.
  intros Hm HbU. destruct (handleMessage_cases now a hdr payload m) as [(b & Hb & ->)|[[tx ->]|Hf]].
  - apply handleBlock_improves; auto.
  - intros _. by apply handleTx_improves.
  - intros _. by apply framed_improves.
Qed.

(** The blocks an event brings come from [U]; a peer joins within its bounds. *)
Definition event_ok (e : net_event) : Prop :=
  match e with
  | Recv _ _ hdr payload => forall b, carries_block hdr payload b -> b ∈ U
  | Join _ q _ => peer_ok (p_addr q) q
  | Mined b => b ∈ U
  | _ => True
  end.

Lemma framed_register now q v m : peer_ok (p_addr q) q -> framed m (register_peer nenv now q v m).
Proof.
  intros Hq. unfold register_peer. set (m1 := recordConnectSuccess _ m).
  set (m2 := set_m_nextPeerID _ m1). set (q1 := set_id _ q).
  set (q2 := if decide _ then _ else q1).
  assert (peer_ok (p_addr q) q2) as Hq2 by (subst q2; destruct (decide _); done).
  set (m3 := set_m_peers (<[_ := q2]> _) m2).
  assert (framed m m3) as H3.
  { constructor; try done. intros Hp b r. simpl. rewrite lookup_insert_Some.
    intros [[<- <-]|[_ H]]; [done|by apply Hp]. }
  set (m4 := if vm_StartHeight v >? m_bestPeerHeight m3 then _ else m3).
  assert (framed m m4) as H4
    by (etrans; [exact H3|]; subst m4; destruct (vm_StartHeight v >? _); [by apply framed_same|done]).
  set (m5 := if negb (bool_decide (vm_AddrFrom v = [])) && _ then _ else _).
  assert (framed m m5) as H5.
  { etrans; [exact H4|]. subst m5. destruct (negb (bool_decide (vm_AddrFrom v = [])) && _); [by apply framed_same|].
    destruct (negb _); [by apply framed_same|done]. }
  assert (framed m (send nenv CmdGetAddr [] (p_addr q) m5)) as H6 by (etrans; [exact H5|apply framed_send]).
  destruct (vm_StartHeight v >? (Tip _).2); [|exact H6]. etrans; [exact H6|apply framed_requestBlocks].
Qed.

Lemma framed_drop a m : framed m (drop_peer a m).
Proof. constructor; try done. intros Hp b r. simpl. rewrite lookup_delete_Some. intros [_ H]. by apply Hp. Qed.

Lemma framed_dial now a m : framed m (may_dial now a m).2.
Proof.
  unfold may_dial. repeat (case_bool_decide || destruct (existsb _ _)); try done.
  pose proof (framed_IsBanned now a m). by destruct (IsBanned now a m).
Qed.

Lemma framed_evict m : framed m (maybeEvictInbound nenv m).
Proof.
  unfold maybeEvictInbound. repeat case_match; try done. apply framed_on_peer, _.
Qed.

Lemma framed_rate now a q m :
  m_peers m !! a = Some q ->
  framed m (set_m_peers (<[a := (CheckRateLimit now q).2]> (m_peers m)) m).
Proof. intros E. apply (framed_insert a q _ m E). intros b. apply step_rate. Qed.

Lemma serve_improves now a hdr payload m :
  node_ok m -> (forall b, carries_block hdr payload b -> b ∈ U) ->
  live (m_chain (serve cenv nenv now a hdr payload m).2) ->
  improves m (serve cenv nenv now a hdr payload m).2.
Proof.
  intros Hm HbU. unfold serve. destruct (m_peers m !! a) as [q|] eqn:E; [|intros _; by apply improves_refl].
  pose proof (framed_rate now a q m E) as H1. destruct (CheckRateLimit now q) as [ok q']. cbn [snd] in H1.
  set (m1 := set_m_peers _ m) in *. set (m2 := if ok then m1 else addMisbehavior now a 10 m1).
  assert (framed m m2) as H2 by (subst m2; destruct ok; [done|etrans; [exact H1|apply framed_misbehavior]]).
  destruct (negb ok && _); cbn [snd]; [intros _; by apply framed_improves|].
  intros L. pose proof (framed_improves m m2 Hm H2) as [Hm2 Hw].
  destruct (handleMessage_improves now a hdr payload m2 Hm2 HbU L) as [Hm3 Hw3]. split; [done|lia].
Qed.

Lemma mined_improves b m :
  node_ok m -> b ∈ U -> live (m_chain (mined cenv nenv b m)) -> improves m (mined cenv nenv b m).
Proof.
  intros Hm Hb. unfold mined. pose proof (submit_improves m b Hm Hb) as Hsub.
  destruct (ProcessBlock cenv b (m_chain m)) as [[height|e] c]; cbn [snd] in Hsub; [|apply Hsub].
  set (m1 := set_m_chain c m) in *. fold (confirmed b height m1).
  pose proof (framed_BroadcastBlock nenv Hknown (HashBlockHeader (blk_Header b)) b (confirmed b height m1)) as Hf.
  intros L. rewrite (fr_chain _ _ Hf) in L. eapply improves_framed; [|exact Hf]. by apply confirmed_improves, Hsub.
Qed.

(** *** The chain moves only by [ProcessBlock] *)

Definition chain_step m m' : Prop :=
  m_chain m' = m_chain m \/ exists b, m_chain m' = (ProcessBlock cenv b (m_chain m)).2.

Lemma framed_chain_step m m' : framed m m' -> chain_step m m'.
Proof. intros [E _ _ _ _]. by left. Qed.
Lemma framed_then m m1 m2 : framed m m1 -> chain_step m1 m2 -> chain_step m m2.
Proof. intros [E _ _ _ _]. unfold chain_step. by rewrite E. Qed.
Lemma then_framed m m1 m2 : chain_step m m1 -> framed m1 m2 -> chain_step m m2.
Proof. intros H [E _ _ _ _]. unfold chain_step in *. by rewrite E. Qed.

Lemma handleBlock_chain now a b m : chain_step m (handleBlock cenv nenv now a b m).
Proof.
  unfold handleBlock. set (m1 := know nenv _ a m).
  assert (framed m m1) as H1 by (by apply framed_know). eapply framed_then; [exact H1|].
  destruct (bh_AddOrHas _ _) as [[] s]; [by left|]. set (m2 := set_m_seenBlocks s m1).
  destruct (ProcessBlock cenv b (m_chain m2)) as [r c] eqn:E. set (m3 := set_m_chain c m2).
  assert (chain_step m1 m3) as H3 by (right; exists b; change (m_chain m1) with (m_chain m2); by rewrite E).
  destruct r as [height|e].
  - eapply then_framed; [|apply block_accepted_framed]. exact H3.
  - destruct (is_side_chain e); [done|]. eapply (then_framed _ m3); [done|].
    destruct (is_orphan e); [|destruct (already_in_chain e); [by apply framed_same|]].
    + etrans; [|apply framed_requestBlocks]. by apply framed_same.
    + etrans; [|apply framed_misbehavior]. by apply framed_same.
Qed.

Lemma handleTx_chain now a tx m : m_chain (handleTx nenv now a tx m) = m_chain m.
Proof.
  unfold handleTx. destruct (bh_AddOrHas _ _) as [[] s]; [done|].
  destruct (AddTx _ _ tx) as [[mp h']|e]; [|done].
  match goal with |- m_chain (BroadcastTx nenv ?h ?m1) = _ =>
    rewrite (fr_chain _ _ (framed_BroadcastTx nenv Hknown h m1)) end. done.
Qed.

Lemma serve_chain now a hdr payload m : chain_step m (serve cenv nenv now a hdr payload m).2.
Proof.
  unfold serve. destruct (m_peers m !! a) as [q|] eqn:E; [|by left].
  pose proof (framed_rate now a q m E) as H1. destruct (CheckRateLimit now q) as [ok q']. cbn [snd] in H1.
  set (m1 := set_m_peers _ m) in *. set (m2 := if ok then m1 else addMisbehavior now a 10 m1).
  assert (framed m m2) as H2 by (subst m2; destruct ok; [done|etrans; [exact H1|apply framed_misbehavior]]).
  eapply framed_then; [exact H2|]. destruct (negb ok && _); [by left|]. cbn [snd].
  destruct (handleMessage_cases now a hdr payload m2) as [(b & _ & ->)|[[tx ->]|Hf]].
  - apply handleBlock_chain.
  - left. apply handleTx_chain.
  - by apply framed_chain_step.
Qed.

Lemma mined_chain b m : chain_step m (mined cenv nenv b m).
Proof.
  right. exists b. unfold mined. destruct (ProcessBlock cenv b (m_chain m)) as [[height|e] c]; [|done].
  set (m1 := set_m_chain c m). fold (confirmed b height m1).
  by rewrite (fr_chain _ _ (framed_BroadcastBlock nenv Hknown (HashBlockHeader (blk_Header b)) b (confirmed b height m1))).
Qed.

Lemma framed_event m e :
  event_ok e -> (forall now a hdr payload, e <> Recv now a hdr payload) -> (forall b, e <> Mined b) ->
  framed m (net_step cenv nenv m e).
Proof.
  intros He Hr Hb. destruct e as [now a hdr payload|now q v|a|b|now|now|now| |now a|now a|]; cbn [net_step] in *;
    try (by destruct (Hr now a hdr payload)); try (by destruct (Hb b)); first
      [ by apply framed_register | apply framed_drop | apply framed_dial | apply framed_evict
      | apply (framed_ticks nenv 0 m) | apply (framed_ticks nenv now m) | by apply framed_same ].
Qed.

Lemma net_step_improves m e :
  node_ok m -> event_ok e -> live (m_chain (net_step cenv nenv m e)) -> improves m (net_step cenv nenv m e).
Proof.
  intros Hm He L. destruct e; try (apply framed_improves, framed_event; done).
  - by apply serve_improves.
  - by apply mined_improves.
Qed.

Lemma net_step_chain m e : event_ok e -> chain_step m (net_step cenv nenv m e).
Proof.
  intros He. destruct e; try (apply framed_chain_step, framed_event; done).
  - apply serve_chain.
  - apply mined_chain.
Qed.

(** Later states are live only if earlier ones are. *)
Lemma net_step_live m e : event_ok e -> live (m_chain (net_step cenv nenv m e)) -> live (m_chain m).
Proof.
  intros He. destruct (net_step_chain m e He) as [->|[b ->]]; [done|]. apply (mono_ProcessBlock cenv b).
Qed.

Lemma net_run_live es m :
  Forall event_ok es -> live (m_chain (net_run cenv nenv m es)) -> live (m_chain m).
Proof.
  intros Hes. revert m. induction Hes as [|e es He _ IH]; intros m L; [done|]. apply IH in L. by eapply net_step_live.
Qed.

Lemma net_run_improves es m :
  Forall event_ok es -> node_ok m -> live (m_chain (net_run cenv nenv m es)) ->
  improves m (net_run cenv nenv m es).
Proof.
  intros Hes. revert m. induction Hes as [|e es He Hes IH]; intros m Hm L; [by apply improves_refl|].
  destruct (net_step_improves m e Hm He (net_run_live es _ Hes L)) as [H1 Hw1].
  destruct (IH (net_step cenv nenv m e) H1 L) as [H2 Hw2]. split; [done|].
  change (net_run cenv nenv m (e :: es)) with (net_run cenv nenv (net_step cenv nenv m e) es). lia.
Qed.
End node.
