(* ===== verification/Sync.v ===== *)
(** * Block download

    The reply of [handleGetBlocks] ([Manager.v]) in terms of the main chain, and the
    exchange of a requesting and a replying node. *)
From stdpp Require Import sorting.
From S2P Require Import Prelude.
From S2P Require Import Types.
From S2P Require Import Sha256.
From S2P Require Import Crypto.
From S2P Require Import Params.
From S2P Require Import Script.
From S2P Require Import Utxo.
From S2P Require Import TxValidation.
From S2P Require Import BlockValidation.
From S2P Require Import Pow.
From S2P Require Import Ledger.
From S2P Require Import Store.
From S2P Require Import Chain.
From S2P Require Import ChainInv.
From S2P Require Import Reorg.
From S2P Require Import Accept.
From S2P Require Import ChainSafety.
From S2P Require Import Mempool.
From S2P Require Import ChainProps.
From S2P Require Import Protocol.
From S2P Require Import TimeAdjust.
From S2P Require Import Peer.
From S2P Require Import SeenSet.
From S2P Require Import Manager.
#[local] Open Scope Z_scope.
#[local] Open Scope go_scope.

(** ** The blocks of a reply *)

Section reply.
Context {St : Type} `{BS : BlockStore St} {BL : BlockStoreLaws St} `{EN : Engine} `{EC : ECOps}.
Context {PS : Type} `{PST : PeerStore PS} (nenv : NetEnv).
Implicit Types (c : Chain St) (m : Manager St PS).

(** What [send_blocks] sends, without sending it. *)
Fixpoint reply (n : nat) (stop : Hash) (tipHeight h : Z) c : list Block :=
  match n with
  | O => []
  | S n =>
      if h <=? tipHeight then
        match GetHeaderByHeight c h with
        | Err _ => []
        | Ok header =>
            match GetBlock (c_store c) (HashBlockHeader header) with
            | Err _ => []
            | Ok block =>
                block :: if bool_decide (HashBlockHeader header = stop) then []
                         else reply n stop tipHeight (add32 h 1) c
            end
        end
      else []
  end.

(** One block sent to [a]; the hash recorded is that of the header read by height. *)
Definition send_block (a : Addr) (hb : Hash * Block) m : Manager St PS :=
  send nenv CmdBlock (blk_Serialize hb.2) a (know nenv hb.1 a m).

Lemma send_block_queue a hb m q :
  m_peers m !! a = Some q -> p_done q = false -> len (p_sendQueue q) < 1024 ->
  exists q', m_peers (send_block a hb m) !! a = Some q' /\ p_done q' = false
    /\ p_sendQueue q' = p_sendQueue q ++ [(CmdBlock, blk_Serialize hb.2)].
Proof.
  intros Ha Hd Hl. unfold send_block, send, know, on_peer. cbn [m_peers set_m_peers].
  rewrite !lookup_alter_eq, Ha. cbn [fmap option_fmap option_map]. eexists. split; [done|].
  set (q1 := AddKnownInventory _ _ q).
  assert (p_done q1 = false /\ p_sendQueue q1 = p_sendQueue q) as [Ed Eq]
    by (subst q1; unfold AddKnownInventory; destruct (_ >? _); done).
  unfold SendMessage, TrySendMessage, peerSendQueueSize. rewrite Ed, Eq, (proj2 (Z.ltb_lt _ _)) by lia.
  done.
Qed.

Lemma send_blocks_queue n a stop tip : forall h m q,
  m_peers m !! a = Some q -> p_done q = false -> len (p_sendQueue q) + Z.of_nat n <= 1024 ->
  exists q', m_peers (send_blocks nenv n a stop tip h m) !! a = Some q'
    /\ p_sendQueue q' = p_sendQueue q
         ++ map (fun b => (CmdBlock, blk_Serialize b)) (reply n stop tip h (m_chain m)).
Proof.
  induction n as [|n IH]; intros h m q Ha Hd Hl; cbn [send_blocks reply]; [exists q; by rewrite app_nil_r|].
  destruct (h <=? tip); [|exists q; by rewrite app_nil_r].
  destruct (GetHeaderByHeight (m_chain m) h) as [hd|]; [|exists q; by rewrite app_nil_r].
  destruct (GetBlock (c_store (m_chain m)) (HashBlockHeader hd)) as [b|]; [|exists q; by rewrite app_nil_r].
  destruct (send_block_queue a (HashBlockHeader hd, b) m q Ha Hd ltac:(lia)) as (q1 & H1 & Hd1 & E1).
  unfold send_block in H1. cbn [fst snd] in H1, E1. set (m1 := send nenv _ _ a _) in *. case_bool_decide.
  - exists q1. split; [exact H1|by rewrite E1].
  - destruct (IH (add32 h 1) m1 q1 H1 Hd1) as (q' & H' & E'); [rewrite E1, length_app; simpl; lia|].
    exists q'. split; [exact H'|]. rewrite E', E1. change (m_chain m1) with (m_chain m). cbn [map].
    by rewrite <- app_assoc.
Qed.

(** *** On a consistent chain *)

Context (p : ChainParams) (U : list Block) (HU : universe p U).
#[local] Abbreviation genesis := (p_GenesisBlock p).

(** The block at height [z] cannot be read. *)
Definition read_fails c (z : Z) : Prop :=
  (exists e, GetHeaderByHeight c z = Err e)
  \/ exists h e, c_hashByHeight c !! z = Some h /\ GetBlock (c_store c) h = Err e.

Lemma header_at c bs i b hd :
  chain_inv p U c -> main_of p U c bs -> bs !! i = Some b ->
  GetHeaderByHeight c (Z.of_nat i + 1) = Ok hd -> HashBlockHeader hd = block_hash b.
Proof.
  intros Hc (Ha & _) Hb. pose proof Hc as [_ Ho Hi _ _ _ _]. unfold GetHeaderByHeight.
  rewrite (ac_bhh _ _ _ _ _ _ _ Ha). destruct (Z.ltb_spec (Z.of_nat i + 1) 0); [lia|].
  replace (Z.to_nat (Z.of_nat i + 1)) with (S i) by lia.
  change ((genesis :: bs) !! S i) with (bs !! i). rewrite Hb. cbn [fmap option_fmap option_map].
  rewrite rwrap_Ok. intros Hg. apply GetHeader_sound in Hg as (r & Hr & <-); [|done].
  destruct (Hi _ _ Hr) as [b' Hrec]. rewrite (ro_header _ _ _ _ _ _ Hrec). apply (ro_hash _ _ _ _ _ _ Hrec).
Qed.

Lemma block_at c bs i b b' :
  chain_inv p U c -> main_of p U c bs -> bs !! i = Some b ->
  GetBlock (c_store c) (block_hash b) = Ok b' -> b' = b.
Proof.
  intros Hc (Ha & _) Hb H. pose proof Hc as [_ Ho Hi _ _ _ _].
  apply (GetBlock_rec p U) in H as (r & Hr & Hrec); [|done|done].
  destruct (linked_lookup _ _ _ _ _ _ _ _ (ac_linked _ _ _ _ _ _ _ Ha) Hb) as (Hin & Hv & _).
  by eapply (rec_unique p U HU).
Qed.

Lemma reply_spec c bs n stop : forall i,
  chain_inv p U c -> main_of p U c bs ->
  exists k, reply n stop (len bs) (Z.of_nat i + 1) c = take k (drop i bs) /\ (k <= n)%nat
    /\ (k = n \/ (length bs <= i + k)%nat
        \/ (exists b, last (take k (drop i bs)) = Some b /\ block_hash b = stop)
        \/ read_fails c (Z.of_nat (i + k) + 1)).
Proof.
  induction n as [|n IH]; intros i Hc Hm; cbn [reply]; [exists O; split_and!; [done|lia|by left]|].
  destruct (Z.leb_spec (Z.of_nat i + 1) (len bs)); [|exists O; split_and!; [done|lia|right; left; lia]].
  destruct (lookup_lt_is_Some_2 bs i ltac:(lia)) as [b Hb].
  assert (read_fails c (Z.of_nat (i + 0) + 1) -> exists k, [] = take k (drop i bs) /\ (k <= S n)%nat
    /\ (k = S n \/ (length bs <= i + k)%nat
        \/ (exists b, last (take k (drop i bs)) = Some b /\ block_hash b = stop)
        \/ read_fails c (Z.of_nat (i + k) + 1))) as Hfail.
  { intros Hf. exists O. split_and!; [done|lia|by do 3 right]. }
  rewrite Nat.add_0_r in Hfail.
  destruct (GetHeaderByHeight c (Z.of_nat i + 1)) as [hd|e] eqn:Eh; [|apply Hfail; left; by eexists].
  pose proof (header_at c bs i b hd Hc Hm Hb Eh) as Ehash. rewrite Ehash.
  destruct (GetBlock (c_store c) (block_hash b)) as [b'|e] eqn:Eb.
  2: { apply Hfail. right. exists (block_hash b), e. split; [|done]. destruct Hm as (Ha & _).
       rewrite (ac_bhh _ _ _ _ _ _ _ Ha). destruct (Z.ltb_spec (Z.of_nat i + 1) 0); [lia|].
       replace (Z.to_nat (Z.of_nat i + 1)) with (S i) by lia.
       change ((genesis :: bs) !! S i) with (bs !! i). by rewrite Hb. }
  pose proof (block_at c bs i b b' Hc Hm Hb Eb) as ->.
  rewrite (drop_S _ _ _ Hb). case_bool_decide as Hs.
  - exists 1%nat. cbn [take]. rewrite take_0. split_and!; [done|lia|]. do 2 right. left. by exists b.
  - pose proof Hc as [_ _ Hi _ _ _ _]. pose proof Hm as (Ha & _).
    pose proof (linked_length p U HU _ _ _ Hi (ac_linked _ _ _ _ _ _ _ Ha)).
    assert (add32 (Z.of_nat i + 1) 1 = Z.of_nat (S i) + 1) as ->
      by (unfold add32; rewrite u32_small by (unfold is_u32; lia); lia).
    destruct (IH (S i) Hc Hm) as (k & -> & Hk & Hend). exists (S k). cbn [take]. split_and!; [done|lia|].
    replace (i + S k)%nat with (S i + k)%nat by lia.
    destruct Hend as [->|[?|[(x & Hx & Hxs)|?]]]; [by left|by right; left| |by do 3 right].
    do 2 right. left. exists x. split; [|done].
    destruct (take k (drop (S i) bs)) as [|y l] eqn:El; [done|]. by rewrite last_cons_cons.
Qed.

(** *** The locator *)

Lemma FindMainChainHash_true c h z :
  FindMainChainHash c h = (z, true) -> c_hashByHeight c !! z = Some h.
Proof.
  unfold FindMainChainHash. destruct (c_heightByHash c !! h) as [n|]; [|done].
  destruct (c_hashByHeight c !! n) as [h'|] eqn:E; [|done]. case_bool_decide; [|done]. intros [= <-]. congruence.
Qed.

Lemma locate_found c hashes :
  Exists (fun g => snd (FindMainChainHash c g) = true) hashes ->
  exists g, g ∈ hashes /\ c_hashByHeight c !! locate c hashes = Some g.
Proof.
  induction hashes as [|h hashes IH]; [by intros H%Exists_nil|]. intros H. cbn [locate].
  destruct (FindMainChainHash c h) as [z []] eqn:E.
  - exists h. split; [apply list_elem_of_here|by apply FindMainChainHash_true].
  - apply Exists_cons in H as [H|H]; [by rewrite E in H|]. destruct (IH H) as (g & Hg & ?).
    exists g. split; [by apply list_elem_of_further|done].
Qed.

Lemma main_hash_range c bs z h :
  main_of p U c bs -> c_hashByHeight c !! z = Some h ->
  0 <= z <= len bs /\ h = last_hash (block_hash genesis) (take (Z.to_nat z) bs).
Proof.
  intros (Ha & _). rewrite (ac_bhh _ _ _ _ _ _ _ Ha). destruct (Z.ltb_spec z 0); [done|].
  destruct (Z.to_nat z) as [|i] eqn:Ez; [intros [= <-]; split; [lia|done]|].
  change ((genesis :: bs) !! S i) with (bs !! i). destruct (bs !! i) as [b|] eqn:Eb; [|done]. intros [= <-].
  apply lookup_lt_Some in Eb as Hl. split; [lia|]. by rewrite (take_S_r _ _ _ Eb), last_hash_snoc.
Qed.

Lemma genesis_on_main c bs : main_of p U c bs -> FindMainChainHash c (block_hash genesis) = (0, true).
Proof.
  intros (Ha & _). unfold FindMainChainHash. rewrite (ac_hbh _ _ _ _ _ _ _ Ha 0 genesis) by done.
  rewrite (ac_bhh _ _ _ _ _ _ _ Ha). simpl. by rewrite bool_decide_true.
Qed.

(** A block has the same height in every consistent chain. *)
Lemma heights_agree h1 h2 h n1 n2 :
  heights_ok p U h1 -> heights_ok p U h2 -> h1 !! h = Some n1 -> h2 !! h = Some n2 -> n1 = n2.
Proof.
  intros H1 H2 E1 E2. destruct (H1 _ _ E1) as [[-> ->]|(Hn1 & Hp1 & b1 & Hb1 & Hh1 & Hv1)],
    (H2 _ _ E2) as [[F ->]|(Hn2 & Hp2 & b2 & Hb2 & Hh2 & Hv2)]; try done.
  assert (b1 = b2) as -> by (eapply (block_unique HU); [done..|by rewrite Hh1, Hh2]).
  by apply (valid_height p b2).
Qed.

Lemma main_height c bs z h :
  main_of p U c bs -> c_hashByHeight c !! z = Some h -> c_heightByHash c !! h = Some z.
Proof.
  intros (Ha & _). rewrite (ac_bhh _ _ _ _ _ _ _ Ha). destruct (Z.ltb_spec z 0); [done|].
  destruct ((genesis :: bs) !! Z.to_nat z) as [b|] eqn:E; [|done]. intros [= <-].
  rewrite (ac_hbh _ _ _ _ _ _ _ Ha _ _ E). f_equal. lia.
Qed.

(** Of hashes at decreasing heights of another chain, [locate] finds the highest on this one. *)
Lemma locate_highest cR c bsR bs hs y :
  chain_inv p U cR -> chain_inv p U c -> main_of p U cR bsR -> main_of p U c bs ->
  Forall (fun z => is_Some (c_hashByHeight cR !! z)) hs -> StronglySorted Z.gt hs ->
  y ∈ hs -> c_hashByHeight c !! y = c_hashByHeight cR !! y ->
  y <= locate c (map (fun z => c_hashByHeight cR !!! z) hs).
Proof.
  intros HcR Hc HmR Hm. induction hs as [|z hs IH]; intros Hall Hs Hy E; [by apply elem_of_nil in Hy|].
  apply Forall_cons in Hall as [[h Hz] Hall]. apply StronglySorted_cons in Hs as [Hgt Hs].
  cbn [map locate]. rewrite (lookup_total_correct _ _ _ Hz).
  destruct (FindMainChainHash c h) as [z' []] eqn:Ef.
  - assert (z' = z) as ->.
    { eapply heights_agree; [apply (ci_heights _ _ _ Hc)|apply (ci_heights _ _ _ HcR)|
        eapply main_height; [done|by apply FindMainChainHash_true]|by eapply main_height]. }
    rewrite Forall_forall in Hgt. apply elem_of_cons in Hy as [->|Hy]; [lia|]. specialize (Hgt y Hy). lia.
  - apply elem_of_cons in Hy as [->|Hy]; [|by apply IH]. exfalso. rewrite Hz in E.
    unfold FindMainChainHash in Ef. by rewrite (main_height _ _ _ _ Hm E), E, bool_decide_true in Ef.
Qed.

(** The block after the one with hash [last_hash _ (take i bs)]. *)
Lemma linked_parent s g n bs i b :
  linked p U s g n bs -> bs !! i = Some b -> hdr_PrevBlock (blk_Header b) = last_hash g (take i bs).
Proof.
  intros Hl Hb. rewrite <- (take_drop_middle bs i b Hb) in Hl. apply linked_app in Hl as [_ Hl].
  by destruct Hl as (-> & _).
Qed.
End reply.

(** ** Properties *)

Section sync.
Context {St : Type} `{BS : BlockStore St} {BL : BlockStoreLaws St} `{EN : Engine} `{EC : ECOps}.
Context {PS : Type} `{PST : PeerStore PS} (nenv : NetEnv) (p : ChainParams) (U : list Block).
Implicit Types (c : Chain St) (m : Manager St PS).

(** C19. Block download makes progress.  A node whose chain is [cR] asks with its block
    locator; the node [m] that answers (with room for 500 messages in the queue of an open
    connection) queues a run of consecutive blocks of its main chain, in order, starting
    right above height [i]: a height at which the two main chains have the same block, and
    the highest such among the heights of the locator.  So when the asking node is merely
    behind, its tip being on the other's main chain, the run starts right above that tip;
    and in any case the first block's parent is on its main chain, so that it is never an
    orphan there.  The run has 500 blocks, or ends at the tip, at the stop hash, or before a
    block that cannot be read. *)
Theorem sync_reply cR m a q msg bs :
  universe p U -> chain_inv p U cR -> chain_inv p U (m_chain m) -> main_of p U (m_chain m) bs ->
  gb_BlockLocatorHashes msg = BlockLocator cR ->
  m_peers m !! a = Some q -> p_done q = false -> len (p_sendQueue q) + 500 <= peerSendQueueSize ->
  exists i k q',
    m_peers (handleGetBlocks nenv a msg m) !! a = Some q'
    /\ p_sendQueue q' = p_sendQueue q ++ map (fun b => (CmdBlock, blk_Serialize b)) (take k (drop i bs))
    /\ (i <= length bs)%nat
    /\ (exists h, c_hashByHeight cR !! Z.of_nat i = Some h /\ c_hashByHeight (m_chain m) !! Z.of_nat i = Some h)
    /\ (forall y h, h ∈ BlockLocator cR -> c_hashByHeight cR !! y = Some h ->
          c_hashByHeight (m_chain m) !! y = Some h -> y <= Z.of_nat i)
    /\ (c_hashByHeight (m_chain m) !! c_tipHeight cR = Some (c_tipHash cR) -> Z.of_nat i = c_tipHeight cR)
    /\ (forall b, bs !! i = Some b -> on_main cR (hdr_PrevBlock (blk_Header b)))
    /\ (k <= 500)%nat
    /\ (k = 500%nat \/ (length bs <= i + k)%nat
        \/ (exists b, last (take k (drop i bs)) = Some b /\ block_hash b = gb_HashStop msg)
        \/ read_fails (m_chain m) (Z.of_nat (i + k) + 1)).
Proof.
  intros HU HR Hc Hm Hloc Ha Hd Hq.
  destruct (locator_complete p U cR HU HR) as (hs & El & Hall & Hhead & Hlast & Hsort & _).
  destruct (ci_main _ _ _ HR) as [bsR HmR].
  destruct (locate_found (m_chain m) (BlockLocator cR)) as (g & Hg & Hz).
  { apply Exists_exists. exists (block_hash (p_GenesisBlock p)).
    split; [|by rewrite (genesis_on_main p U (m_chain m) bs)]. rewrite El. apply list_elem_of_fmap.
    exists 0. split; [|by apply last_Some_elem_of]. symmetry. apply lookup_total_correct.
    destruct HmR as (HaR & _). by rewrite (ac_bhh _ _ _ _ _ _ _ HaR). }
  set (z := locate (m_chain m) (BlockLocator cR)) in *.
  destruct (main_hash_range p U (m_chain m) bs z g Hm Hz) as [Hr Eg].
  pose proof Hc as [_ _ Hi _ _ _ _]. pose proof Hm as (Hact & Hh & _).
  pose proof (linked_length p U HU _ _ _ Hi (ac_linked _ _ _ _ _ _ _ Hact)) as Hlen.
  destruct (reply_spec p U HU (m_chain m) bs 500 (gb_HashStop msg) (Z.to_nat z) Hc Hm) as (k & Er & Hk & Hend).
  destruct (send_blocks_queue nenv 500 a (gb_HashStop msg) (len bs) (z + 1) m q Ha Hd Hq) as (q' & Hq' & Eq').
  rewrite Z2Nat.id in Er by lia. rewrite Er in Eq'.
  exists (Z.to_nat z), k, q'. unfold handleGetBlocks. rewrite Hloc. fold z. cbn [Tip snd]. rewrite Hh.
  assert (add32 z 1 = z + 1) as -> by (unfold add32; apply u32_small; unfold is_u32; lia).
  assert (forall y, y ∈ hs -> c_hashByHeight (m_chain m) !! y = c_hashByHeight cR !! y -> y <= z) as Hhigh
    by (intros y Hy E; unfold z; rewrite El; by eapply (locate_highest p U HU cR)).
  rewrite El in Hg. apply list_elem_of_fmap in Hg as (y & -> & Hy).
  pose proof Hall as Hall'. rewrite Forall_forall in Hall'. destruct (Hall' y Hy) as [h Hh'].
  rewrite (lookup_total_correct _ _ _ Hh') in Hz, Eg.
  assert (y = z) as -> by (eapply (heights_agree p U HU);
    [apply (ci_heights _ _ _ HR)|apply (ci_heights _ _ _ Hc)|by eapply main_height|by eapply main_height]).
  assert (exists h, c_hashByHeight cR !! z = Some h /\ c_hashByHeight (m_chain m) !! z = Some h) as Hag by (by exists h).
  split_and!; [exact Hq'|exact Eq'|lia|by rewrite Z2Nat.id by lia| | | |done|done].
  - intros y h' Hl HyR Hyc. rewrite Z2Nat.id by lia. rewrite El in Hl. apply list_elem_of_fmap in Hl as (y' & -> & Hy').
    destruct (Hall' y' Hy') as [h1 Hh1]. rewrite (lookup_total_correct _ _ _ Hh1) in HyR, Hyc.
    assert (y = y') as -> by (pose proof (main_height p U _ _ _ _ HmR HyR); pose proof (main_height p U _ _ _ _ HmR Hh1); congruence).
    apply Hhigh; [done|congruence].
  - intros Ht. rewrite Z2Nat.id by lia. destruct (main_hash_range p U cR bsR z h HmR Hh') as [HrR _].
    pose proof HmR as (HaR & HhR & HtR & _). assert (c_tipHeight cR ∈ hs) as Hin by (by apply head_Some_elem_of).
    assert (c_tipHeight cR <= z); [|lia]. apply Hhigh; [exact Hin|]. rewrite Ht. symmetry.
    destruct (Hall' _ Hin) as [ht Hht]. rewrite Hht. f_equal.
    destruct (main_hash_range p U cR bsR _ ht HmR Hht) as [_ ->].
    by rewrite HtR, HhR, Nat2Z.id, firstn_all.
  - intros b Hb. rewrite (linked_parent p U _ _ _ _ _ _ (ac_linked _ _ _ _ _ _ _ Hact) Hb), <- Eg. by exists z.
Qed.
End sync.
