(* ===== verification/Gossip.v ===== *)
(** * Gossip

    Lemmas and properties of the parts of [Manager.v] that spread addresses and blocks:
    the shuffle, [gatherAddresses] and [BroadcastBlock]. *)
From S2P Require Import Prelude.
From S2P Require Import Types.
From S2P Require Import Crypto.
From S2P Require Import Params.
From S2P Require Import Script.
From S2P Require Import Pow.
From S2P Require Import Store.
From S2P Require Import Chain.
From S2P Require Import Mempool.
From S2P Require Import Protocol.
From S2P Require Import Peer.
From S2P Require Import SeenSet.
From S2P Require Import Manager.
#[local] Open Scope Z_scope.
#[local] Open Scope go_scope.

(** ** The shuffle is a permutation *)

Lemma delete_insert_list {A} (l : list A) i x : delete i (<[i := x]> l) = delete i l.
Proof. revert i. induction l as [|y l IH]; intros [|i]; try done. cbn. f_equal. apply IH. Qed.

Lemma insert_remove {A} (l : list A) i x : (i < length l)%nat -> <[i := x]> l ≡ₚ x :: delete i l.
Proof.
  intros Hi. rewrite <- (delete_insert_list l i x). apply delete_Permutation. by apply list_lookup_insert_eq.
Qed.

Lemma swap_perm {A} i j (l : list A) : swap i j l ≡ₚ l.
Proof.
  unfold swap. destruct (l !! i) as [x|] eqn:Hi; [|done]. destruct (l !! j) as [y|] eqn:Hj; [|done].
  pose proof (lookup_lt_Some _ _ _ Hi) as Li. pose proof (lookup_lt_Some _ _ _ Hj) as Lj.
  rewrite insert_remove by (by rewrite length_insert).
  destruct (decide (i = j)) as [->|Hne].
  { rewrite delete_insert_list. symmetry. by apply delete_Permutation. }
  assert (<[j := x]> l !! i = Some x) as Hx by (by rewrite list_lookup_insert_ne).
  assert (x :: delete i (<[j := x]> l) ≡ₚ x :: delete j l) as Hp.
  { rewrite <- delete_Permutation by done. by apply insert_remove. }
  apply Permutation_cons_inv in Hp. rewrite Hp. symmetry. by apply delete_Permutation.
Qed.

Lemma shuffle_loop_perm {A} rnd i k (l : list A) : shuffle_loop rnd i k l ≡ₚ l.
Proof.
  revert k l. induction i as [|i IH]; intros k l; [done|]. cbn [shuffle_loop]. rewrite IH. apply swap_perm.
Qed.

Lemma shufflePeers_perm {A} rnd k (l : list A) : shufflePeers rnd k l ≡ₚ l.
Proof. apply shuffle_loop_perm. Qed.

(** ** Collecting addresses *)

(** What one loop keeps true: the result lists distinct addresses, those seen, below the
    limit as long as the loop runs on. *)
Definition gathered (listen : Addr) (limit : Z) (src : list Addr) (seen : gset Addr) (addrs : list Addr) : Prop :=
  NoDup addrs /\ listen ∉ addrs /\ (forall a, a ∈ seen <-> a ∈ addrs) /\ (forall a, a ∈ addrs -> a ∈ src)
  /\ len addrs <= limit.

Lemma gather_spec listen limit src l : forall seen addrs,
  (forall a, a ∈ l -> a ∈ src) -> gathered listen limit src seen addrs -> len addrs < limit ->
  let '(full, seen', addrs') := gather listen limit l seen addrs in
  gathered listen limit src seen' addrs'
  /\ (if (full : bool) then len addrs' = limit
      else len addrs' < limit /\ forall a, a ∈ addrs \/ a ∈ l -> a <> listen -> a ∈ addrs').
Proof.
  induction l as [|x l IH]; intros seen addrs Hsrc Hg Hl; cbn [gather].
  { split; [done|]. split; [done|]. intros a [?|Ha] _; [done|by apply not_elem_of_nil in Ha]. }
  assert (forall a, a ∈ l -> a ∈ src) as Hsrc' by (intros a Ha; apply Hsrc; by apply list_elem_of_further).
  pose proof Hg as (Hn & Hli & Hseen & Hin & _).
  case_bool_decide as Ex; [|case_bool_decide as Es].
  - pose proof (IH seen addrs Hsrc' Hg Hl) as H. destruct (gather listen limit l seen addrs) as [[full s'] l'].
    destruct H as [H1 H2]. split; [done|]. destruct full; [done|]. destruct H2 as [? H2]. split; [done|].
    intros a [Ha|Ha] Hne; [by apply H2; [left|]|]. apply elem_of_cons in Ha as [->|Ha]; [done|]. apply H2; auto.
  - pose proof (IH seen addrs Hsrc' Hg Hl) as H. destruct (gather listen limit l seen addrs) as [[full s'] l'].
    destruct H as [H1 H2]. split; [done|]. destruct full; [done|]. destruct H2 as [? H2]. split; [done|].
    intros a [Ha|Ha] Hne; [by apply H2; [left|]|]. apply elem_of_cons in Ha as [->|Ha]; [|apply H2; auto].
    apply H2; [left; by apply Hseen|done].
  - assert (gathered listen limit src ({[x]} ∪ seen) (addrs ++ [x])) as Hg'.
    { unfold gathered. rewrite length_app. cbn [length]. split_and!; [| | | |lia].
      - apply NoDup_app. split_and!; [done| |apply NoDup_singleton].
        intros a Ha Hx. apply list_elem_of_singleton in Hx as ->. by apply Es, Hseen.
      - intros [?|Hx]%elem_of_app; [done|]. by apply list_elem_of_singleton in Hx.
      - intros a. rewrite elem_of_union, elem_of_singleton, Hseen, elem_of_app, list_elem_of_singleton. tauto.
      - intros a [?|Hx]%elem_of_app; [by apply Hin|]. apply list_elem_of_singleton in Hx as ->.
        apply Hsrc, list_elem_of_here. }
    rewrite Z.geb_leb. destruct (Z.leb_spec limit (len (addrs ++ [x]))) as [Hf|Hf].
    + split; [done|]. destruct Hg' as (_ & _ & _ & _ & ?). lia.
    + pose proof (IH _ _ Hsrc' Hg' Hf) as H. destruct (gather listen limit l _ _) as [[full s'] l'].
      destruct H as [H1 H2]. split; [done|]. destruct full; [done|]. destruct H2 as [? H2]. split; [done|].
      intros a Ha Hne. apply H2; [|done]. rewrite elem_of_app, list_elem_of_singleton.
      destruct Ha as [?|Ha]; [by left; left|]. apply elem_of_cons in Ha as [->|?]; [by left; right|by right].
Qed.

Section gossip.
Context {St : Type} `{BS : BlockStore St} `{EN : Engine} `{EC : ECOps}.
Context {PS : Type} `{PST : PeerStore PS} (nenv : NetEnv).
Implicit Types m : Manager St PS.

(** The addresses [gatherAddresses] draws from: those of connected peers, then stored ones. *)
Definition known_addrs m : list Addr :=
  omap (fun a => gossip_addr <$> m_peers m !! a) (peer_list nenv m)
  ++ match GetPeers (m_peerStore m) with Ok l => l | Err _ => [] end.

(** [gatherAddresses] returns at most [limit] distinct known addresses, never the
    node's own; and all of them (apart from its own) if there are fewer than [limit]. *)
Theorem gather_exact limit m :
  0 < limit ->
  let l := gatherAddresses nenv limit m in
  NoDup l /\ mc_listenAddr (m_cfg m) ∉ l /\ (forall a, a ∈ l -> a ∈ known_addrs m) /\ len l <= limit
  /\ (len l < limit -> forall a, a ∈ known_addrs m -> a <> mc_listenAddr (m_cfg m) -> a ∈ l).
Proof.
  intros Hlim l. subst l. unfold gatherAddresses.
  set (conn := omap _ (peer_list nenv m)). set (stored := match GetPeers (m_peerStore m) with Ok l => l | Err _ => [] end).
  set (listen := mc_listenAddr (m_cfg m)).
  assert (gathered listen limit (known_addrs m) ∅ []) as H0.
  { unfold gathered. split_and!; [constructor|set_solver|set_solver|set_solver|simpl; lia]. }
  assert (known_addrs m = conn ++ stored) as Ek by done.
  pose proof (gather_spec listen limit (known_addrs m) conn ∅ [] ltac:(set_solver) H0 ltac:(simpl; lia)) as H1.
  destruct (gather listen limit conn ∅ []) as [[full seen] addrs]. destruct H1 as [Hg1 H1]. destruct full.
  - destruct Hg1 as (? & ? & _ & ? & ?). split_and!; [done|done|done|done|lia].
  - destruct H1 as [Hlt Hall].
    pose proof (gather_spec listen limit (known_addrs m) stored seen addrs ltac:(set_solver) Hg1 Hlt) as H2.
    destruct (gather listen limit stored seen addrs) as [[full seen'] addrs']. cbn [snd].
    destruct H2 as [(? & ? & _ & ? & ?) H2]. split_and!; [done|done|done|done|].
    intros Hlt' a Ha Hne. destruct full; [lia|]. destruct H2 as [_ H2]. apply H2; [|done].
    rewrite Ek in Ha. apply elem_of_app in Ha as [Ha|Ha]; [left; by apply Hall; [right|]|by right].
Qed.

(** ** Relaying a block *)

Lemma know_open h a m b q :
  m_peers m !! b = Some q -> exists q', m_peers (know nenv h a m) !! b = Some q'
    /\ p_done q' = p_done q /\ p_sendQueue q' = p_sendQueue q /\ (b <> a -> q' = q).
Proof.
  intros Hb. unfold know, on_peer. simpl. destruct (decide (a = b)) as [->|Hne].
  - rewrite lookup_alter_eq, Hb. eexists. split; [done|]. split_and!; try done;
      unfold AddKnownInventory; destruct (_ >? _); done.
  - rewrite lookup_alter_ne by done. by exists q.
Qed.

Lemma send_open cmd payload a m b q :
  m_peers m !! b = Some q -> p_done q = false -> len (p_sendQueue q) < 1024 ->
  exists q', m_peers (send nenv cmd payload a m) !! b = Some q' /\ p_done q' = false
    /\ p_sendQueue q' = p_sendQueue q ++ (if decide (a = b) then [(cmd, payload)] else [])
    /\ (b <> a -> q' = q).
Proof.
  intros Hb Hd Hl. unfold send, on_peer. simpl. destruct (decide (a = b)) as [->|Hne].
  - rewrite lookup_alter_eq, Hb. eexists. split; [done|].
    unfold SendMessage, TrySendMessage, peerSendQueueSize. rewrite Hd, (proj2 (Z.ltb_lt _ _)) by lia. done.
  - rewrite lookup_alter_ne by done. exists q. by rewrite app_nil_r.
Qed.

Lemma push_block_other h bb ip b l : forall i m,
  b ∉ l -> m_peers (push_block nenv h bb ip i l m) !! b = m_peers m !! b.
Proof.
  induction l as [|c l IH]; intros i m Hb; cbn [push_block]; [done|].
  apply not_elem_of_cons in Hb as [Hc Hb]. rewrite IH by done.
  destruct (i <? maxDirectPush)%nat; unfold send, know, on_peer; simpl; by rewrite !lookup_alter_ne.
Qed.

Lemma push_block_spec h bb ip l : forall i m b q,
  NoDup l -> m_peers m !! b = Some q -> p_done q = false -> len (p_sendQueue q) < 1024 ->
  exists q', m_peers (push_block nenv h bb ip i l m) !! b = Some q'
    /\ (b ∉ l -> q' = q)
    /\ forall j, l !! j = Some b ->
         p_sendQueue q' = p_sendQueue q ++ [if (i + j <? maxDirectPush)%nat then (CmdBlock, bb) else (CmdInv, ip)].
Proof.
  induction l as [|a l IH]; intros i m b q Hn Hb Hd Hl; cbn [push_block]; [by exists q|].
  apply NoDup_cons in Hn as [Ha Hn].
  destruct (know_open h a m b q Hb) as (q1 & H1 & Hd1 & Hq1 & He1). set (m1 := know nenv h a m) in *.
  set (msg := if (i <? maxDirectPush)%nat then (CmdBlock, bb) else (CmdInv, ip)).
  assert ((if (i <? maxDirectPush)%nat then send nenv CmdBlock bb a m1 else send nenv CmdInv ip a m1)
    = send nenv msg.1 msg.2 a m1) as -> by (subst msg; by destruct (i <? maxDirectPush)%nat).
  destruct (send_open msg.1 msg.2 a m1 b q1 H1) as (q2 & H2 & Hd2 & Hq2 & He2); [congruence|by rewrite Hq1|].
  destruct (decide (a = b)) as [->|Hne].
  - exists q2. rewrite push_block_other by done. split; [done|]. split; [set_solver|]. intros [|j] Hj; [|destruct Ha; exact (list_elem_of_lookup_2 l j b Hj)].
    rewrite Hq2, Hq1, Nat.add_0_r. subst msg. by destruct (i <? maxDirectPush)%nat.
  - rewrite He2, He1 in * by done. rewrite app_nil_r in Hq2.
    destruct (IH (S i) (send nenv msg.1 msg.2 a m1) b q Hn H2 Hd Hl) as (q' & H' & Hno & Hyes).
    exists q'. split; [done|]. split.
    + intros Hnot. apply Hno. set_solver.
    + intros [|j] Hj; [injection Hj as Hj; done|]. rewrite (Hyes j Hj). by rewrite Nat.add_succ_r.
Qed.

(** A block is relayed to every peer that needs it: among the open connections with
    room in their queue, [BroadcastBlock] queues exactly one message for each peer not
    known to have the block (the whole block for three of them, chosen at random, an
    inventory announcement for the others) and leaves every other peer as it was. *)
Theorem block_relay h block m :
  NoDup (peer_list nenv m) -> (forall a, a ∈ peer_list nenv m <-> is_Some (m_peers m !! a)) ->
  exists order, order ≡ₚ filter (fun a => knows m h a = false) (peer_list nenv m)
    /\ forall a q, m_peers m !! a = Some q -> p_done q = false -> len (p_sendQueue q) < peerSendQueueSize ->
       exists q', m_peers (BroadcastBlock nenv h block m) !! a = Some q'
         /\ (h ∈ p_knownInv q -> q' = q)
         /\ (h ∉ p_knownInv q -> exists i, order !! i = Some a
              /\ p_sendQueue q' = p_sendQueue q
                   ++ [if (i <? 3)%nat then (CmdBlock, blk_Serialize block)
                       else (CmdInv, inv_Encode [{| iv_Type := InvTypeBlock; iv_Hash := h |}])]).
Proof.
  intros Hn Hall. unfold BroadcastBlock, shuffled. cbn beta iota zeta.
  set (m1 := set_m_seenBlocks _ m).
  change (peer_list nenv m1) with (peer_list nenv m).
  set (eligible := filter (fun a => knows m1 h a = false) (peer_list nenv m)).
  set (order := shufflePeers (ne_rand nenv) (m_rnd m1) eligible).
  set (m2 := set_m_rnd _ m1). exists order.
  assert (order ≡ₚ eligible) as Hp by apply shufflePeers_perm. split; [exact Hp|].
  assert (NoDup order) as Hno by (rewrite Hp; by apply NoDup_filter).
  intros a q Ha Hd Hl.
  destruct (push_block_spec h (blk_Serialize block) (inv_Encode [{| iv_Type := InvTypeBlock; iv_Hash := h |}])
    order 0 m2 a q Hno Ha Hd Hl) as (q' & H' & Hsame & Hsent).
  exists q'. split; [exact H'|].
  assert (a ∈ order <-> h ∉ p_knownInv q) as Hel.
  { rewrite Hp. subst eligible. rewrite list_elem_of_filter. unfold knows. change (m_peers m1) with (m_peers m).
    rewrite Ha. unfold HasKnownInventory. rewrite bool_decide_eq_false, Hall, Ha. naive_solver. }
  split.
  - intros Hk. apply Hsame. rewrite Hel. tauto.
  - intros Hk. apply Hel, list_elem_of_lookup in Hk as [i Hi]. exists i. split; [done|]. by rewrite (Hsent i Hi).
Qed.
End gossip.
