(* ===== verification/NodeProps.v ===== *)
(** * Properties of the networked node

    What the peer-to-peer manager guarantees about the node behind it: consistency under
    arbitrary traffic, bans, relay, block download and the handshake; and runs of the
    model that show a defect. *)
From S2P Require Import Prelude.
From S2P Require Import Types.
From S2P Require Import Sha256.
From S2P Require Import Crypto.
From S2P Require Import Target.
From S2P Require Import Params.
From S2P Require Import Script.
From S2P Require Import Utxo.
From S2P Require Import TxValidation.
From S2P Require Import BlockValidation.
From S2P Require Import Pow.
From S2P Require Import Ledger.
From S2P Require Import Store.
From S2P Require Import FileLaws.
From S2P Require Import Chain.
From S2P Require Import ChainInv.
From S2P Require Import Reorg.
From S2P Require Import Accept.
From S2P Require Import ChainSafety.
From S2P Require Import Mempool.
From S2P Require Import Miner.
From S2P Require Import ChainProps.
From S2P Require Import Protocol.
From S2P Require Import TimeAdjust.
From S2P Require Import Peer.
From S2P Require Import SeenSet.
From S2P Require Import Manager.
From S2P Require Import NodeInv.
From S2P Require Import Sync.
From S2P Require Import Gossip.
#[local] Open Scope Z_scope.
#[local] Open Scope go_scope.

(** ** A small node

    The network of [ChainProps.Example] behind a manager; the peer store is a list. *)
Module ExampleNode.
Import Example ToyEC MemDB.

#[export] Instance list_peers : PeerStore (list Addr) := {
  PutPeer ps a := if decide (a ∈ ps) then ps else ps ++ [a];
  GetPeers ps := Ok ps }.

Definition nenv0 : NetEnv := {|
  ne_known := elements; ne_peers := fun m => map fst (map_to_list m); ne_rand := fun n => Z.of_nat n;
  ne_coin := false |}.
Definition config : Config := {|
  mc_listenAddr := bytes_of_string "0.0.0.0:19333"; mc_maxInbound := 10; mc_maxOutbound := 8;
  mc_seedPeers := []; mc_connectOnly := []; mc_noSeedNodes := false; mc_localNonce := 77 |}.

Definition node (c : Chain (FileStore mem_db)) : Manager (FileStore mem_db) (list Addr) :=
  NewManager config c (SetTipHeight (mp_New net) (c_tipHeight c)) (c_utxoSet c) [] (Some clock_New).

Definition alice : Addr := bytes_of_string "10.0.0.1:4000".
Definition hello (height : Z) : VersionMsg := {|
  vm_Version := 1; vm_Services := 1; vm_Timestamp := 1000; vm_AddrRecv := []; vm_AddrFrom := [];
  vm_Nonce := 5; vm_UserAgent := []; vm_StartHeight := height |}.
Definition alice_peer (height : Z) : Peer :=
  SetVersion (hello height) (NewPeer 0 alice true (p_NetworkMagic net)).

Definition header_of (cmd : list byte) : MessageHeader :=
  {| mh_Magic := p_NetworkMagic net; mh_Command := pad_command cmd; mh_Length := 0; mh_Checksum := [] |}.
Definition block_event (now : Z) (b : Block) : net_event :=
  Recv now alice (header_of CmdBlock) (blk_Serialize b).
Definition run (es : list net_event) (m : Manager (FileStore mem_db) (list Addr)) :=
  net_run env0 nenv0 m es.

Definition join (height : Z) : net_event := Join 0 (alice_peer height) (hello height).

Lemma block_event_ok now b :
  b ∈ blocks -> blk_Deserialize (blk_Serialize b) = Ok (b, []) -> event_ok blocks (block_event now b).
Proof. intros Hb Hd x [_ [r Hx]]. assert (x = b) as -> by congruence. exact Hb. Qed.
End ExampleNode.

(** ** Addresses and bans *)

Lemma index_byte_notin c s : c ∉ s -> index_byte c s = None.
Proof.
  induction s as [|b s IH]; intros H; [done|]. apply not_elem_of_cons in H as [Hb H]. cbn [index_byte].
  rewrite decide_False by congruence. by rewrite IH.
Qed.

Lemma last_index_byte_notin c s : c ∉ s -> last_index_byte c s = None.
Proof.
  induction s as [|b s IH]; intros H; [done|]. apply not_elem_of_cons in H as [Hb H]. cbn [last_index_byte].
  rewrite IH by done. by rewrite decide_False by congruence.
Qed.

Lemma last_index_byte_app c a b : c ∉ b -> last_index_byte c (a ++ c :: b) = Some (length a).
Proof.
  intros H. induction a as [|x a IH]; cbn [app last_index_byte length].
  - rewrite last_index_byte_notin by done. by rewrite decide_True.
  - by rewrite IH.
Qed.

Lemma index_byte_app c a b : c ∉ a -> index_byte c (a ++ c :: b) = Some (length a).
Proof.
  induction a as [|x a IH]; intros H; cbn [app index_byte length]; [by rewrite decide_True|].
  apply not_elem_of_cons in H as [Hx H]. rewrite decide_False by congruence. by rewrite IH.
Qed.

(** [net.JoinHostPort], the form of every [RemoteAddr]: a host with a colon, an IPv6 address,
    is put in brackets. *)
Definition JoinHostPort (host port : list byte) : Addr :=
  if decide (colon ∈ host) then lbracket :: host ++ rbracket :: colon :: port else host ++ colon :: port.

Definition no_bracket (s : list byte) : Prop := lbracket ∉ s /\ rbracket ∉ s.

Lemma extractIP_JoinHostPort host port :
  no_bracket host -> no_bracket port -> colon ∉ port -> extractIP (JoinHostPort host port) = host.
Proof.
  intros (Hl & Hr) (Hl' & Hr') Hc'. unfold JoinHostPort, extractIP, SplitHost. destruct (decide (colon ∈ host)) as [Hc|Hc].
  - set (a := lbracket :: host). change (lbracket :: host ++ rbracket :: colon :: port) with (a ++ rbracket :: colon :: port).
    replace (a ++ rbracket :: colon :: port) with ((a ++ [rbracket]) ++ colon :: port) at 1 by (by rewrite <- app_assoc).
    rewrite last_index_byte_app by done. rewrite decide_True by done.
    rewrite index_byte_app by (subst a; set_solver). rewrite length_app, decide_True by (simpl; lia).
    assert (slice 1 (length a) (a ++ rbracket :: colon :: port) = host) as ->.
    { unfold slice, a. cbn [app drop length]. replace (S (length host) - 1)%nat with (length host) by lia. apply take_app_length. }
    assert (drop (S (length a)) (a ++ rbracket :: colon :: port) = colon :: port) as ->.
    { replace (a ++ rbracket :: colon :: port) with ((a ++ [rbracket]) ++ colon :: port) by (by rewrite <- app_assoc).
      apply drop_app_length'. rewrite length_app. simpl. lia. }
    subst a. cbn [drop app]. rewrite ?drop_0. rewrite !index_byte_notin; [done| |];
      rewrite ?not_elem_of_app, ?not_elem_of_cons; repeat split; done.
  - rewrite last_index_byte_app by done. rewrite decide_False.
    + rewrite take_app_length, index_byte_notin by done. rewrite !drop_0.
      rewrite !index_byte_notin; [done| |]; rewrite not_elem_of_app, not_elem_of_cons; split_and!; done.
    + destruct host as [|b host]; [done|]. intros [= E]. set_solver.
Qed.

(** ** Properties *)

Section node_properties.
Context {St : Type} `{BS : BlockStore St} {BL : BlockStoreLaws St} `{EN : Engine} {EL : EngineLaws} `{EC : ECOps}.
Context {PS : Type} `{PST : PeerStore PS}.
Context (cenv : Env) (nenv : NetEnv) (p : ChainParams) (U : list Block).
Implicit Types m : Manager St PS.

(** No traffic can break the node.  Start a node on an empty store with an empty
    pool and let anything happen: peers join and leave, send any messages (valid,
    malformed, repeated, out of order), blocks are mined, timers tick.  The unspent set
    is still the replay of the node's active chain, the tip has at least the work it had,
    the mempool satisfies its invariant, and every peer's inventory and send queue are
    within their bounds.  Assumed as for the chain: the blocks received are hashed without
    collision, the store stays within its address space and the tip write does not fail. *)
Theorem network_safe s0 c cfg mpSet ps clock es :
  universe p U -> (forall (s : St) h n, (PutChainTip s h n).1 = Ok tt) ->
  (forall X, ne_known nenv X ≡ₚ elements X) -> is_u32 (p_MaxMempoolSize p) ->
  empty_store s0 -> Init (New p s0) = (Ok tt, c) -> Forall (event_ok U) es ->
  let m0 := NewManager cfg c (SetTipHeight (mp_New p) (c_tipHeight c)) mpSet ps clock in
  let m := net_run cenv nenv m0 es in
  live (m_chain m) ->
  (exists bs, replay p bs = Some (UtxoSet_of (m_chain m)) /\ c_tipHeight (m_chain m) = len bs)
  /\ c_tipWork c <= c_tipWork (m_chain m)
  /\ mp_inv (m_mempool m)
  /\ forall a q, m_peers m !! a = Some q ->
       p_addr q = a /\ Z.of_nat (size (p_knownInv q)) <= 10000 /\ len (p_sendQueue q) <= 1024.
Proof.
  intros HU Htip Hk Hmp He Hinit Hes m0 m L.
  assert (live (m_chain m0)) as L0 by (by eapply net_run_live).
  assert (node_ok p U m0) as Hm0.
  { constructor; [by eapply Init_empty| |by intros a q Hq].
    eapply Mempool.reach_step; [apply Mempool.reach_new|apply step_tip]. }
  destruct (net_run_improves cenv nenv Hk p U HU Htip es m0 Hes Hm0 L) as [[Hc Hpool Hpe] Hw]. fold m in Hc, Hpool, Hpe, Hw.
  split_and!; [|exact Hw|by apply (mp_reachable_inv p)|exact Hpe].
  destruct (ci_main _ _ _ Hc) as [bs (Ha & Hh & _)]. exists bs. split; [apply (ac_replay _ _ _ _ _ _ _ Ha)|done].
Qed.
(** C33. Misbehaviour is counted and punished exactly.  Unless the node runs with [-connect],
    a report of [d] points against a connected peer raises its score by [d]; below 100
    nothing else happens; from 100 on the connection is closed and every address with the
    same host, whatever its port, is refused for 24 hours and not a moment longer.  The
    addresses are those [net.JoinHostPort] makes of a host, IPv4, IPv6 or a name, and a
    port; the score is assumed to stay a 32-bit number (past [2^31-1] it would wrap). *)
Theorem misbehavior_bans now host port port' d q m t :
  let a := JoinHostPort host port in
  let m' := addMisbehavior now a d m in
  no_bracket host -> no_bracket port -> colon ∉ port -> no_bracket port' -> colon ∉ port' ->
  connect_only m = false -> m_peers m !! a = Some q -> p_addr q = a ->
  -2^31 <= p_banScore q + d < 2^31 ->
  exists q', m_peers m' !! a = Some q' /\ p_banScore q' = p_banScore q + d
    /\ if p_banScore q + d <? 100 then p_done q' = p_done q /\ m_banned m' = m_banned m
       else p_done q' = true
            /\ fst (IsBanned t (JoinHostPort host port') m') = (t <=? now + 24 * 3600 * time_Second).
Proof.
  intros a m' Hh Hp Hpc Hp' Hpc' Hco Hq Ha Hs. subst m'. unfold addMisbehavior. rewrite Hco, Hq. unfold AddBanScore.
  assert (i32 (p_banScore q + d) = p_banScore q + d) as -> by (unfold i32; rewrite Z.mod_small; lia).
  unfold BanThreshold. rewrite Z.geb_leb, Z.leb_antisym.
  destruct (Z.ltb_spec (p_banScore q + d) 100); cbn [negb].
  - eexists. simpl. rewrite lookup_insert_eq. split_and!; done.
  - eexists. unfold on_peer, BanPeer. simpl. rewrite lookup_alter_eq, lookup_insert_eq. split; [done|].
    split_and!; [done|done|]. unfold IsBanned. simpl. rewrite Ha. subst a.
    rewrite !extractIP_JoinHostPort, lookup_insert_eq by done. rewrite Z.gtb_ltb, Z.ltb_antisym.
    change (now + BanDuration) with (now + 24 * 3600 * time_Second).
    by destruct (t <=? now + 24 * 3600 * time_Second).
Qed.

(** A forged block is tolerated.  The handler means to ban a peer at once for a block
    whose proof of work or difficulty is wrong, but it looks for texts that these errors do
    not contain: such a block costs ten points like any other rejected block, and a peer
    below ninety points stays connected and unbanned. *)
Theorem forged_block_tolerated now a b e c q m :
  connect_only m = false -> m_peers m !! a = Some q -> p_addr q = a -> 0 <= p_banScore q < 90 ->
  HashBlockHeader (blk_Header b) ∉ bh_items (m_seenBlocks m) ->
  ProcessBlock cenv b (m_chain m) = (Err e, c) ->
  (exists n x, e = HeaderInvalid n x) \/ (exists x, e = OrphanPoW x) ->
  exists q', m_peers (handleBlock cenv nenv now a b m) !! a = Some q'
    /\ p_banScore q' = p_banScore q + 10 /\ p_done q' = p_done q
    /\ m_banned (handleBlock cenv nenv now a b m) = m_banned m.
Proof.
  intros Hco Hq Ha Hs Hseen E He. unfold handleBlock. set (h := HashBlockHeader (blk_Header b)) in *.
  destruct (know_open nenv h a m a q Hq) as (q1 & H1 & Hd1 & _). set (m1 := know nenv h a m) in *.
  assert (p_banScore q1 = p_banScore q) as Es1.
  { unfold m1, know, on_peer in H1. simpl in H1. rewrite lookup_alter_eq, Hq in H1. injection H1 as <-.
    unfold AddKnownInventory. by destruct (_ >? _). }
  unfold bh_AddOrHas. rewrite decide_False by done. set (m2 := set_m_seenBlocks _ m1).
  change (m_chain m2) with (m_chain m). rewrite E. set (m3 := set_m_chain c m2).
  assert (is_side_chain e = false /\ is_orphan e = false /\ already_in_chain e = false /\ severe e = false)
    as (-> & -> & -> & ->) by (destruct He as [(n & x & ->)|[x ->]]; done).
  set (m4 := set_m_seenBlocks _ m3). unfold addMisbehavior. change (connect_only m4) with (connect_only m).
  rewrite Hco. change (m_peers m4) with (m_peers m1). rewrite H1. unfold AddBanScore. rewrite Es1.
  assert (i32 (p_banScore q + 10) = p_banScore q + 10) as -> by (unfold i32; rewrite Z.mod_small; lia).
  unfold BanThreshold. rewrite Z.geb_leb, (proj2 (Z.leb_gt _ _)) by lia.
  eexists. simpl. rewrite lookup_insert_eq. split_and!; done.
Qed.

(** ** The handshake *)

Lemma version_payload v :
  wf_version v -> sendable (CmdVersion, version_Encode v).
Proof.
  intros (_ & _ & _ & H1 & H2 & _ & H3 & _). split_and!.
  - vm_compute. lia.
  - apply (bool_decide_unpack _). vm_compute. exact I.
  - unfold wf_string, maxString in *. cbn [snd]. unfold version_Encode, writeString.
    rewrite !length_app, !length_PutUint32LE, !length_PutUint64LE.
    assert (forall s : list byte, len s <= 1024 -> len (PutVarInt (len s)) <= 9) as Hv.
    { intros s Hs. rewrite length_PutVarInt by (unfold is_u64; lia). apply VarIntSize_bounds. }
    pose proof (Hv _ H1). pose proof (Hv _ H2). pose proof (Hv _ H3). unfold MaxPayloadSize. lia.
Qed.

Lemma verack_payload : sendable (CmdVerack, []).
Proof.
  split_and!; [vm_compute; lia| |done]. apply (bool_decide_unpack _). vm_compute. exact I.
Qed.

Lemma sendVerack_message m : sendVerack m = WriteMessage (magic_of m) CmdVerack [].
Proof. unfold sendVerack, WriteMessage. by rewrite app_nil_r. Qed.

Lemma read_version now q m v rest :
  length (p_magic q) = 4%nat -> wf_version v ->
  exists q' clock, p_magic q' = p_magic q /\ p_version q' = Some v /\ p_addr q' = p_addr q /\
    readAndProcessVersion now (WriteMessage (p_magic q) CmdVersion (version_Encode v) ++ rest) q m
    = if vm_Nonce v =? mc_localNonce (m_cfg m) then Err HsSelf else Ok (rest, q', set_m_clock clock m).
Proof.
  intros Hm Hv. destruct (ReadMessage_written (p_magic q) (CmdVersion, version_Encode v) rest Hm (version_payload v Hv))
    as (hdr & E & Ec). cbn [fst snd] in E, Ec.
  unfold readAndProcessVersion, peer_ReadMessage. rewrite E. cbn [rbind rwrap]. rewrite Ec.
  rewrite bool_decide_true by done. cbn [negb].
  pose proof (decode_encode (dec := version_Decode) v [] Hv) as Ed. rewrite app_nil_r in Ed. rewrite Ed.
  cbn [rbind rwrap]. do 2 eexists. refine (conj _ (conj _ (conj _ _))); last first.
  { destruct (vm_Nonce v =? mc_localNonce (m_cfg m)); reflexivity. }
  all: done.
Qed.

Lemma read_verack now q m rest :
  length (p_magic q) = 4%nat -> magic_of m = p_magic q ->
  exists q', readVerack now (sendVerack m ++ rest) q = Ok (rest, q') /\ p_version q' = p_version q.
Proof.
  intros Hm Em. rewrite sendVerack_message, Em.
  destruct (ReadMessage_written (p_magic q) (CmdVerack, []) rest Hm verack_payload) as (hdr & E & Ec).
  cbn [fst snd] in E, Ec. unfold readVerack, peer_ReadMessage. rewrite E. cbn [rbind rwrap]. rewrite Ec.
  rewrite bool_decide_true by done. cbn [negb]. eexists. split; [done|]. done.
Qed.

(** C26. The handshake of two nodes of one network completes without deadlock: what the
    dialling node sends before and after reading is exactly what the listening node reads,
    and conversely; both end with the other's version message, with nothing left unread.
    A node that reaches itself (equal nonces) is detected on both sides. *)
Theorem handshake_completes now qo qi (mo mi : Manager St PS) rest rest' :
  let vo := version_msg now (p_addr qo) mo in
  let vi := version_msg now (p_addr qi) mi in
  length (magic_of mo) = 4%nat -> magic_of mi = magic_of mo ->
  p_magic qo = magic_of mo -> p_magic qi = magic_of mo -> wf_version vo -> wf_version vi ->
  if mc_localNonce (m_cfg mo) =? mc_localNonce (m_cfg mi) then
    handshakeInbound now (sendVersion now qo mo ++ rest) qi mi = Err HsSelf
    /\ snd (handshakeOutbound now (sendVersion now qi mi ++ rest') qo mo) = Err HsSelf
  else
    exists out fin qo' qi' mo' mi',
      handshakeInbound now (fst (handshakeOutbound now (out ++ rest') qo mo) ++ fin ++ rest) qi mi
        = Ok (out, Ok (rest, qi', mi'))
      /\ snd (handshakeOutbound now (out ++ rest') qo mo) = Ok (fin, rest', qo', mo')
      /\ p_version qi' = Some vo /\ p_version qo' = Some vi.
Proof.
  intros vo vi Hm Ei Eo Eq Wo Wi.
  assert (length (p_magic qi) = 4%nat) as Li by congruence. assert (length (p_magic qo) = 4%nat) as Lo by congruence.
  assert (forall r, sendVersion now qo mo ++ r = WriteMessage (p_magic qi) CmdVersion (version_Encode vo) ++ r) as So
    by (intros r; unfold sendVersion; by rewrite Eq).
  assert (forall r, sendVersion now qi mi ++ r = WriteMessage (p_magic qo) CmdVersion (version_Encode vi) ++ r) as Si
    by (intros r; unfold sendVersion; by rewrite Eo, Ei).
  destruct (Z.eqb_spec (mc_localNonce (m_cfg mo)) (mc_localNonce (m_cfg mi))) as [En|En].
  - unfold handshakeInbound, handshakeOutbound. cbn [snd]. rewrite So, Si.
    destruct (read_version now qi mi vo rest Li Wo) as (? & ? & _ & _ & _ & ->).
    destruct (read_version now qo mo vi rest' Lo Wi) as (? & ? & _ & _ & _ & ->).
    cbn [vo vi version_msg vm_Nonce]. rewrite En, Z.eqb_refl. done.
  - destruct (read_version now qi mi vo (sendVerack mo ++ rest) Li Wo) as (q1 & c1 & Em1 & Ev1 & Ea & E1).
    destruct (read_version now qo mo vi (sendVerack mi ++ rest') Lo Wi) as (q2 & c2 & Em2 & Ev2 & _ & E2).
    cbn [vo vi version_msg vm_Nonce] in E1, E2.
    rewrite (proj2 (Z.eqb_neq _ _)) in E1 by done. rewrite (proj2 (Z.eqb_neq _ _)) in E2 by congruence.
    destruct (read_verack now q1 mo rest) as (q1' & F1 & Ev1'); [congruence|congruence|].
    destruct (read_verack now q2 mi rest') as (q2' & F2 & Ev2'); [congruence|congruence|].
    exists (sendVersion now q1 (set_m_clock c1 mi) ++ sendVerack (set_m_clock c1 mi)), (sendVerack (set_m_clock c2 mo)).
    exists q2', q1', (set_m_clock c2 mo), (set_m_clock c1 mi).
    split_and!; try congruence.
    + unfold handshakeInbound, handshakeOutbound. cbn [fst]. rewrite So.
      change (sendVerack (set_m_clock c2 mo)) with (sendVerack mo). rewrite E1. cbn [rbind]. by rewrite F1.
    + unfold handshakeOutbound. cbn [snd]. rewrite <- app_assoc.
      assert (sendVersion now q1 (set_m_clock c1 mi) = sendVersion now qi mi) as ->
        by (unfold sendVersion, version_msg; by rewrite Ea).
      rewrite Si. change (sendVerack (set_m_clock c1 mi)) with (sendVerack mi). rewrite E2. cbn [rbind]. by rewrite F2.
Qed.
End node_properties.

Section witnesses.
Import Example ToyEC MemDB ExampleNode.

(** A block out of order, its parent, a block with an invalid transaction. *)
Definition traffic : list net_event :=
  [join 3; block_event 10 A2; block_event 20 A1; block_event 30 B1; block_event 40 X2; PingTick 50].

Lemma traffic_ok : Forall (event_ok blocks) traffic.
Proof.
  repeat (apply Forall_cons; split).
  - split_and!; [done|vm_compute; discriminate|vm_compute; discriminate].
  - apply block_event_ok; [by apply (list_elem_of_lookup_2 blocks 2 A2)|vm_compute; reflexivity].
  - apply block_event_ok; [by apply (list_elem_of_lookup_2 blocks 1 A1)|vm_compute; reflexivity].
  - apply block_event_ok; [by apply (list_elem_of_lookup_2 blocks 3 B1)|vm_compute; reflexivity].
  - apply block_event_ok; [by apply (list_elem_of_lookup_2 blocks 5 X2)|vm_compute; reflexivity].
  - exact I.
  - constructor.
Qed.

Lemma network_safe_witness :
  c_tipHash (m_chain (run traffic (node start))) = block_hash A2
  /\ exists bs, replay net bs = Some (UtxoSet_of (m_chain (run traffic (node start)))).
Proof.
  split; [vm_compute; reflexivity|].
  destruct (network_safe env0 nenv0 net blocks store0 start config (c_utxoSet start) [] (Some clock_New) traffic)
    as [(bs & Hr & _) _].
  - apply blocks_universe.
  - apply tip_writes.
  - reflexivity.
  - vm_compute. split; [discriminate|reflexivity].
  - apply store0_empty.
  - rewrite <- start_Ok. apply surjective_pairing.
  - apply traffic_ok.
  - apply files_live_check. vm_compute. reflexivity.
  - exists bs. exact Hr.
Defined.
(** *** Bans *)

Definition with_nonce (h : BlockHeader) (n : Z) : BlockHeader :=
  {| hdr_Version := hdr_Version h; hdr_PrevBlock := hdr_PrevBlock h; hdr_MerkleRoot := hdr_MerkleRoot h;
     hdr_Timestamp := hdr_Timestamp h; hdr_Bits := hdr_Bits h; hdr_Nonce := n |}.
(** [A1] with a nonce that misses the target. *)
Definition forged : Block := Eval vm_compute in
  {| blk_Header := with_nonce (blk_Header A1) 1; blk_Transactions := blk_Transactions A1 |}.

Definition node1 : Manager (FileStore mem_db) (list Addr) := run [join 0] (node start).

Lemma fmap_field {A B} (f : A -> B) o x y : o = Some x -> f <$> o = Some y -> f x = y.
Proof. intros -> H. by injection H. Qed.

(** A peer at an IPv6 address. *)
Definition carol : Addr := bytes_of_string "[2001:db8::1]:4000".
Definition carol_peer : Peer := SetVersion (hello 0) (NewPeer 0 carol true (p_NetworkMagic net)).
Definition node6 : Manager (FileStore mem_db) (list Addr) := run [Join 0 carol_peer (hello 0)] (node start).
#[local] Abbreviation host6 := (bytes_of_string "2001:db8::1").

Lemma misbehavior_bans_witness :
  exists q, m_peers node6 !! carol = Some q /\
  exists q', m_peers (addMisbehavior 7 carol 100 node6) !! carol = Some q' /\ p_done q' = true
    /\ fst (IsBanned 8 (bytes_of_string "[2001:db8::1]:5000") (addMisbehavior 7 carol 100 node6)) = true.
Proof.
  destruct (m_peers node6 !! carol) as [q|] eqn:E; [|by vm_compute in E].
  assert (p_banScore q = 0) as E0 by (refine (fmap_field p_banScore _ _ _ E _); vm_compute; reflexivity).
  assert (p_addr q = carol) as E1 by (refine (fmap_field p_addr _ _ _ E _); vm_compute; reflexivity).
  exists q. split; [reflexivity|].
  destruct (misbehavior_bans 7 host6 (bytes_of_string "4000") (bytes_of_string "5000") 100 q node6 8) as (q' & Hq' & _ & H).
  - refine (bool_decide_unpack _ _). vm_compute. exact I.
  - refine (bool_decide_unpack _ _). vm_compute. exact I.
  - refine (bool_decide_unpack _ _). vm_compute. exact I.
  - refine (bool_decide_unpack _ _). vm_compute. exact I.
  - refine (bool_decide_unpack _ _). vm_compute. exact I.
  - vm_compute. reflexivity.
  - exact E.
  - exact E1.
  - rewrite E0. lia.
  - exists q'. split; [exact Hq'|]. rewrite E0 in H. exact H.
Defined.

Lemma forged_block_tolerated_witness :
  exists q', m_peers (handleBlock env0 nenv0 7 alice forged node1) !! alice = Some q' /\ p_banScore q' = 10.
Proof.
  destruct (m_peers node1 !! alice) as [q|] eqn:E; [|by vm_compute in E].
  assert (p_banScore q = 0) as E0 by (refine (fmap_field p_banScore _ _ _ E _); vm_compute; reflexivity).
  assert (p_addr q = alice) as E1 by (refine (fmap_field p_addr _ _ _ E _); vm_compute; reflexivity).
  assert (match (ProcessBlock env0 forged (m_chain node1)).1 with Err (HeaderInvalid _ _) => true | _ => false end = true)
    as Hr by (vm_compute; reflexivity).
  destruct (ProcessBlock env0 forged (m_chain node1)) as [r c] eqn:Ep. cbn [fst] in Hr.
  destruct r as [|e]; [discriminate Hr|]. 
  destruct (forged_block_tolerated env0 nenv0 7 alice forged e c q node1) as (q' & Hq' & Hs & _).
  - vm_compute. reflexivity.
  - exact E.
  - exact E1.
  - rewrite E0. lia.
  - assert (bool_decide (bh_items (m_seenBlocks node1) = ∅) = true) as Hb by (vm_compute; reflexivity).
    apply bool_decide_eq_true_1 in Hb. rewrite Hb. apply not_elem_of_empty.
  - exact Ep.
  - left. destruct e; try discriminate Hr. do 2 eexists. reflexivity.
  - exists q'. split; [exact Hq'|]. rewrite Hs, E0. reflexivity.
Defined.

(** *** Two nodes *)

Definition other : Manager (FileStore mem_db) (list Addr) :=
  NewManager {| mc_listenAddr := bytes_of_string "0.0.0.0:19444"; mc_maxInbound := 10; mc_maxOutbound := 8;
    mc_seedPeers := []; mc_connectOnly := []; mc_noSeedNodes := false; mc_localNonce := 78 |}
    start (mp_New net) 0 [] (Some clock_New).
Definition conn (inbound : bool) : Peer := NewPeer 0 alice inbound (p_NetworkMagic net).

Lemma handshake_completes_witness :
  exists qo', p_version qo' = Some (version_msg 5 alice other).
Proof.
  assert (forall m : Manager (FileStore mem_db) (list Addr),
    bool_decide (c_tipHeight (m_chain m) = 0 /\ len (mc_listenAddr (m_cfg m)) <= 1024 /\ is_u64 (mc_localNonce (m_cfg m))) = true ->
    wf_version (version_msg 5 alice m)) as Hwf.
  { intros m H. apply bool_decide_eq_true_1 in H as (H1 & H2 & H3). unfold wf_version, version_msg. simpl. rewrite H1.
    split_and!; try done; vm_compute; split; (discriminate || reflexivity). }
  pose proof (handshake_completes 5 (conn false) (conn true) (node start) other [] []) as H.
  cbn zeta in H. change (mc_localNonce (m_cfg (node start)) =? mc_localNonce (m_cfg other)) with false in H.
  destruct H as (out & fin & qo' & qi' & mo' & mi' & _ & _ & _ & Hv).
  - vm_compute. reflexivity.
  - vm_compute. reflexivity.
  - vm_compute. reflexivity.
  - vm_compute. reflexivity.
  - apply Hwf. vm_compute. reflexivity.
  - apply Hwf. vm_compute. reflexivity.
  - exists qo'. exact Hv.
Defined.

(** *** Download and relay *)

Definition server : Manager (FileStore mem_db) (list Addr) := run [join 0] (node (submit [A1; A2] start)).
Definition request : GetBlocksMsg :=
  {| gb_Version := 1; gb_BlockLocatorHashes := BlockLocator (submit [A1] start); gb_HashStop := ZeroHash |}.

Lemma joined_chain h c : m_chain (run [join h] (node c)) = c.
Proof.
  change (run [join h] (node c)) with (register_peer nenv0 0 (alice_peer h) (hello h) (node c)).
  rewrite (fr_chain _ _ (framed_register nenv0 0 (alice_peer h) (hello h) (node c) ltac:(split_and!; [done|vm_compute; discriminate|vm_compute; discriminate]))).
  reflexivity.
Qed.

Lemma run_A1_A2_inv : chain_inv net blocks (submit [A1; A2] start).
Proof.
  apply submit_inv; [|apply files_live_check; vm_compute; reflexivity].
  repeat (apply Forall_cons; split); [by apply (list_elem_of_lookup_2 blocks 1 A1)|by apply (list_elem_of_lookup_2 blocks 2 A2)|constructor].
Qed.

(** The requester has [A1], the server sends [A2], right above it. *)
Lemma sync_reply_witness :
  exists q' i sent, m_peers (handleGetBlocks nenv0 alice request server) !! alice = Some q'
    /\ p_sendQueue q' = (CmdGetAddr, []) :: map (fun b => (CmdBlock, blk_Serialize b)) sent
    /\ map snd (p_sendQueue q') = [[]; blk_Serialize A2]
    /\ Z.of_nat i = c_tipHeight (submit [A1] start) /\ c_tipHeight (submit [A1] start) = 1.
Proof.
  destruct (m_peers server !! alice) as [q|] eqn:E; [|by vm_compute in E].
  assert (p_done q = false) as E0 by (refine (fmap_field p_done _ _ _ E _); vm_compute; reflexivity).
  assert (p_sendQueue q = [(CmdGetAddr, [])]) as E1
    by (refine (fmap_field p_sendQueue _ _ _ E _); vm_compute; reflexivity).
  pose proof (eq_ind_r (chain_inv net blocks) run_A1_A2_inv (joined_chain 0 (submit [A1; A2] start))) as Hs.
  destruct (ci_main _ _ _ Hs) as [bs Hm].
  destruct (sync_reply nenv0 net blocks (submit [A1] start) server alice q request bs)
    as (i & k & q' & Hq' & Hsent & _ & _ & _ & Htip & _).
  - apply blocks_universe.
  - apply run_A1_inv.
  - exact Hs.
  - exact Hm.
  - reflexivity.
  - exact E.
  - exact E0.
  - rewrite E1. vm_compute. discriminate.
  - exists q', i, (take k (drop i bs)). split; [exact Hq'|]. split; [rewrite Hsent, E1; reflexivity|].
    split; [refine (fmap_field (fun q => map snd (p_sendQueue q)) _ _ _ Hq' _); vm_compute; reflexivity|].
    split; [apply Htip; vm_compute; reflexivity|vm_compute; reflexivity].
Defined.

Lemma gather_exact_witness : gatherAddresses nenv0 5 node1 = [alice] /\ len (gatherAddresses nenv0 5 node1) <= 5.
Proof.
  split; [vm_compute; reflexivity|]. apply (gather_exact nenv0 5 node1). lia.
Defined.

Lemma block_relay_witness :
  exists q' x, m_peers (BroadcastBlock nenv0 (block_hash A1) A1 node1) !! alice = Some q'
    /\ p_sendQueue q' = [(CmdGetAddr, []); x].
Proof.
  destruct (m_peers node1 !! alice) as [q|] eqn:E; [|by vm_compute in E].
  assert (p_done q = false) as E0 by (refine (fmap_field p_done _ _ _ E _); vm_compute; reflexivity).
  assert (p_sendQueue q = [(CmdGetAddr, [])]) as E1
    by (refine (fmap_field p_sendQueue _ _ _ E _); vm_compute; reflexivity).
  assert (bool_decide (block_hash A1 ∉ p_knownInv q) = true) as E2
    by (refine (fmap_field (fun q => bool_decide (block_hash A1 ∉ p_knownInv q)) _ _ _ E _); vm_compute; reflexivity).
  destruct (block_relay nenv0 (block_hash A1) A1 node1) as (order & _ & H).
  - apply (bool_decide_unpack _). vm_compute. exact I.
  - intros a. unfold peer_list, nenv0, ne_peers. rewrite list_elem_of_fmap. split.
    + intros ([a' q0] & -> & H%elem_of_map_to_list). exists q0. exact H.
    + intros [q0 H]. exists (a, q0). split; [reflexivity|]. apply elem_of_map_to_list. exact H.
  - destruct (H alice q E E0) as (q' & Hq' & _ & Hsent); [rewrite E1; vm_compute; reflexivity|].
    destruct (Hsent (bool_decide_eq_true_1 _ E2)) as (i & _ & Hi). exists q'. eexists. split; [exact Hq'|].
    rewrite Hi, E1. reflexivity.
Defined.

(** The mempool falls behind the chain: when a block connects blocks that waited in
    the orphan pool, the handler reports only the height of that block, so the pool checks
    maturity against a height below the tip's (here 1 instead of 2) until the next block. *)
Theorem pool_height_lags :
  let m := run [join 3; block_event 10 A2; block_event 20 A1] (node start) in
  c_tipHash (m_chain m) = block_hash A2 /\ c_tipHeight (m_chain m) = 2 /\ mp_tipHeight (m_mempool m) = 1.
Proof. vm_compute. repeat split. Qed.
End witnesses.
