(* ===== verification/Rpc.v ===== *)
(** * The RPC server

    Models [src/internal/rpc/server.go] and [src/internal/rpc/wallet_rpc.go]: a handler maps
    a request and the state of the node, the wallet and the server to a response and the
    state it leaves.  [GetChainInfo] of [chain.go] and [BackupWallet] of [hdwallet.go], which
    only these handlers call, are here too.

    A request is what [net/http] has parsed: the method, the path, the credentials of basic
    authentication, the query ([Get] of an absent parameter is the empty string) and the
    body.  A response is a JSON value, or an HTTP error with what the message is made of;
    the texts of the messages are left out.  [JBtc v] is the floating-point number
    [float64(v)/1e8], [JQuot n d] the quotient as [big.Float] rounds it.  The handlers that
    only print [PeerInfos] or the metrics are the parameter [re_other].  No other operation of
    the node runs in the middle of a handler. *)
From S2P Require Import Prelude.
From S2P Require Import Types.
From S2P Require Import Sha256.
From S2P Require Import Crypto.
From S2P Require Import Params.
From S2P Require Import Script.
From S2P Require Import Target.
From S2P Require Import Base58.
From S2P Require Import Utxo.
From S2P Require Import Wallet.
From S2P Require Import TxValidation.
From S2P Require Import BlockValidation.
From S2P Require Import Pow.
From S2P Require Import Store.
From S2P Require Import Chain.
From S2P Require Import Mempool.
From S2P Require Import WalletTx.
From S2P Require Import Protocol.
From S2P Require Import Peer.
From S2P Require Import Manager.
#[local] Open Scope Z_scope.
#[local] Open Scope go_scope.

(** ** Numbers in requests: [strconv] and [fmt.Sscanf] *)

Inductive NumErr := ErrSyntax | ErrRange.

Definition digit_value (c : byte) : option Z :=
  let z := byte.unsigned c in if (48 <=? z) && (z <=? 57) then Some (z - 48) else None.

(** [ParseUint(s, 10, bits)]: the value it returns also with an error, and the error. *)
Fixpoint uint_loop (maxVal n : Z) (s : list byte) : Z * option NumErr :=
  match s with
  | [] => (n, None)
  | c :: s =>
      match digit_value c with
      | None => (0, Some ErrSyntax)
      | Some d => if n * 10 + d >? maxVal then (maxVal, Some ErrRange) else uint_loop maxVal (n * 10 + d) s
      end
  end.
Definition ParseUint (s : list byte) (bits : Z) : Z * option NumErr :=
  match s with [] => (0, Some ErrSyntax) | _ => uint_loop (2 ^ bits - 1) 0 s end.

(** [ParseInt(s, 10, 64)], and [Atoi]. *)
Definition ParseInt64 (s : list byte) : Z * option NumErr :=
  match s with
  | [] => (0, Some ErrSyntax)
  | c :: rest =>
      let neg := Byte.eqb c Byte.x2d in
      let digits := if neg || Byte.eqb c Byte.x2b then rest else s in
      let '(un, err) := ParseUint digits 64 in
      match err with
      | Some ErrSyntax => (0, Some ErrSyntax)
      | _ => if negb neg && (un >=? 2^63) then (2^63 - 1, Some ErrRange)
             else if neg && (un >? 2^63) then (-2^63, Some ErrRange)
             else (if neg then - un else un, None)
      end
  end.

(** The white space at the start of a string, as [fmt] defines it. *)
Definition space_width (s : list byte) : option nat :=
  match map byte.unsigned s with
  | 0xC2 :: b :: _ => if (b =? 0x85) || (b =? 0xA0) then Some 2%nat else None
  | 0xE1 :: 0x9A :: 0x80 :: _ => Some 3%nat
  | 0xE2 :: 0x80 :: b :: _ =>
      if ((0x80 <=? b) && (b <=? 0x8A)) || (b =? 0xA8) || (b =? 0xA9) || (b =? 0xAF) then Some 3%nat else None
  | 0xE2 :: 0x81 :: 0x9F :: _ => Some 3%nat
  | 0xE3 :: 0x80 :: 0x80 :: _ => Some 3%nat
  | b :: _ => if ((9 <=? b) && (b <=? 13)) || (b =? 0x20) then Some 1%nat else None
  | [] => None
  end.

(** [SkipSpace]; a newline is an error.  Each turn takes a byte or more. *)
Fixpoint skip_space (fuel : nat) (s : list byte) : option (list byte) :=
  match fuel with
  | O => Some s
  | S fuel =>
      match s with
      | [] => Some []
      | c :: _ => if Byte.eqb c newline then None
                  else match space_width s with Some n => skip_space fuel (drop n s) | None => Some s end
      end
  end.
Fixpoint digits_prefix (s : list byte) : list byte :=
  match s with
  | c :: s => match digit_value c with Some _ => c :: digits_prefix s | None => [] end
  | [] => []
  end.

(** [fmt.Sscanf(s, "%d", &x)] for a [uint32]; what follows the digits is ignored. *)
Definition Sscanf_uint32 (s : list byte) : option Z :=
  match skip_space (length s) s with
  | None => None
  | Some s =>
      match ParseUint (digits_prefix s) 64 with
      | (i, None) => if i <? 2^32 then Some i else None
      | (_, Some _) => None
      end
  end.

(** ** Requests and responses *)

Inductive Json :=
| JNull
| JBool (b : bool)
| JNum (z : Z)
| JBtc (v : Z)
| JQuot (n d : Z)
| JStr (s : list byte)
| JArr (l : list Json)
| JObj (fields : list (list byte * Json)).

Definition field (name : string) (v : Json) : list byte * Json := (bytes_of_string name, v).

Record Request := {
  rq_post : bool;
  rq_path : string;
  rq_auth : option (list byte * list byte);
  rq_query : string -> list byte;
  rq_body : list byte;
  rq_now : Z }.

Inductive RpcErr :=
| Unauthorized | NotFound404 | PostRequired | WalletNotLoaded
| MissingParam (name : string) | InvalidParam (name : string)
| BlockNotFound | PeerNotFound | EntryNotFound | TxNotFound
| NodeRefused (reason : string)
| InvalidBlock | BlockRejected (e : ChainErr)
| InvalidHex (e : HexErr) | InvalidTransaction
| PoolRejected (e : MempoolErr)
| WalletFailed (e : WalletErr)
| BadAddress (e : Base58Err)
| FeeTooHigh (fee : Z)
| AbsolutePath | PathTraversal.

Inductive Response :=
| ROk (v : Json)
| RErr (code : Z) (e : RpcErr).

Definition StatusBadRequest : Z := 400.
Definition StatusUnauthorized : Z := 401.
Definition StatusForbidden : Z := 403.
Definition StatusNotFound : Z := 404.
Definition StatusMethodNotAllowed : Z := 405.
Definition StatusInternalServerError : Z := 500.
Definition StatusServiceUnavailable : Z := 503.

Definition defaultFeePerByte : Z := 1.
Definition maxFeePerByte : Z := 10000.

(** ** Paths: [path/filepath] on Unix *)

Definition slash : byte := Byte.x2f.
Definition dotdot : list byte := [Byte.x2e; Byte.x2e].

Definition has_prefix (pre s : list byte) : bool := bool_decide (take (length pre) s = pre).
Fixpoint contains (sub s : list byte) : bool :=
  has_prefix sub s || match s with [] => false | _ :: s => contains sub s end.

(** The components between the slashes, empty ones included. *)
Fixpoint components (s : list byte) : list (list byte) :=
  match s with
  | [] => [[]]
  | b :: s =>
      if Byte.eqb b slash then [] :: components s
      else match components s with c :: l => (b :: c) :: l | [] => [[b]] end
  end.
Fixpoint join (l : list (list byte)) : list byte :=
  match l with
  | [] => []
  | [c] => c
  | c :: l => c ++ slash :: join l
  end.

(** What [Clean] keeps; [stack] is the result so far, last component first. *)
Fixpoint clean_loop (rooted : bool) (stack l : list (list byte)) : list (list byte) :=
  match l with
  | [] => rev stack
  | c :: l =>
      if bool_decide (c = []) || bool_decide (c = [Byte.x2e]) then clean_loop rooted stack l
      else if bool_decide (c = dotdot) then
        match stack with
        | top :: rest => if bool_decide (top = dotdot) then clean_loop rooted (c :: stack) l else clean_loop rooted rest l
        | [] => clean_loop rooted (if rooted then [] else [c]) l
        end
      else clean_loop rooted (c :: stack) l
  end.

Definition IsAbs (path : list byte) : bool := has_prefix [slash] path.
Definition Clean (path : list byte) : list byte :=
  let kept := join (clean_loop (IsAbs path) [] (components path)) in
  if IsAbs path then slash :: kept
  else match kept with [] => [Byte.x2e] | _ => kept end.

(** [Dir]: up to the last slash, cleaned. *)
Definition Dir (path : list byte) : list byte :=
  Clean (match last_index_byte slash path with Some i => take (S i) path | None => [] end).

(** ** The working directory: what [BackupWallet] uses of [os]

    The directories and files below it, under their cleaned relative paths; no links.  The
    wallet's own file is not among the files: its content is [w_file]. *)
Record Files := { fl_dirs : gset (list byte); fl_files : gmap (list byte) FileContent }.

Definition add_dir (path : list byte) (fs : Files) : Files :=
  {| fl_dirs := {[ path ]} ∪ fl_dirs fs; fl_files := fl_files fs |}.

(** What the server leaves open: the order in which the unspent set is iterated, the
    read-only handlers that are not represented, and for the file system the path of the
    wallet's own file when it is below the working directory (otherwise the empty path,
    which is not a cleaned one), which operations fail, and what a failing write leaves of
    the new content. *)
Record RpcEnv := {
  re_rows : UtxoSet -> list (Hash * Z * UtxoEntry);
  re_other : Request -> option Response;
  re_wallet_path : list byte;
  re_read_fails : Files -> bool;
  re_mkdir_fails : Files -> list byte -> bool;
  re_open_fails : Files -> list byte -> bool;
  re_write : Files -> list byte -> FileContent -> option FileContent }.

Section files.
Context (renv : RpcEnv).

Definition is_dir (fs : Files) (path : list byte) : bool :=
  bool_decide (path = [Byte.x2e]) || bool_decide (path ∈ fl_dirs fs).
Definition is_file (fs : Files) (path : list byte) : bool :=
  bool_decide (path = re_wallet_path renv) || bool_decide (is_Some (fl_files fs !! path)).

(** [os.MkdirAll] on the path with these components, last first. *)
Fixpoint mkdir_all (parts : list (list byte)) (fs : Files) : bool * Files :=
  match parts with
  | [] => (true, fs)
  | c :: parents =>
      let path := join (rev (c :: parents)) in
      if is_dir fs path then (true, fs)
      else if is_file fs path then (false, fs)
      else
        let '(ok, fs) := mkdir_all parents fs in
        if negb ok then (false, fs)
        else if re_mkdir_fails renv fs path then (false, fs)
        else (true, add_dir path fs)
  end.
Definition MkdirAll (path : list byte) (fs : Files) : bool * Files := mkdir_all (rev (components path)) fs.

Context `{WO : WalletOps}.

(** The content of a path: the wallet's file is where the wallet has it. *)
Definition file_at (w : HDWallet) (fs : Files) (path : list byte) : FileContent :=
  if bool_decide (path = re_wallet_path renv) then w_file w else default Missing (fl_files fs !! path).
Definition put_file (path : list byte) (c : FileContent) (w : HDWallet) (fs : Files) : HDWallet * Files :=
  if bool_decide (path = re_wallet_path renv) then (set_disk c (w_tick w) w, fs)
  else (w, {| fl_dirs := fl_dirs fs; fl_files := <[path := c]> (fl_files fs) |}).

(** [os.WriteFile]: once the file is open, which truncates it, a failure leaves part of the
    new content. *)
Definition os_WriteFile (path : list byte) (data : FileContent) (w : HDWallet) (fs : Files) : bool * (HDWallet * Files) :=
  if is_dir fs path || re_open_fails renv fs path then (false, (w, fs))
  else match re_write renv fs path data with
       | Some part => (false, put_file path part w fs)
       | None => (true, put_file path data w fs)
       end.
End files.

Section server.
Context {St : Type} `{BS : BlockStore St} `{EN : Engine} {EC : ECOps} {WO : WalletOps}.
Context {PS : Type} `{PST : PeerStore PS}.

(** The server, with what it points to. *)
Record Server := {
  sv_node : Manager St PS;
  sv_wallet : option HDWallet;
  sv_params : ChainParams;
  sv_feePerByte : Z;
  sv_authUser : list byte;
  sv_authPassword : list byte;
  sv_stopping : bool;
  sv_files : Files }.                                (** the working directory *)

Definition set_node (m : Manager St PS) (s : Server) : Server :=
  {| sv_node := m; sv_wallet := sv_wallet s; sv_params := sv_params s; sv_feePerByte := sv_feePerByte s;
     sv_authUser := sv_authUser s; sv_authPassword := sv_authPassword s; sv_stopping := sv_stopping s;
     sv_files := sv_files s |}.
Definition set_wallet (w : HDWallet) (s : Server) : Server :=
  {| sv_node := sv_node s; sv_wallet := Some w; sv_params := sv_params s; sv_feePerByte := sv_feePerByte s;
     sv_authUser := sv_authUser s; sv_authPassword := sv_authPassword s; sv_stopping := sv_stopping s;
     sv_files := sv_files s |}.
Definition set_fee (fee : Z) (s : Server) : Server :=
  {| sv_node := sv_node s; sv_wallet := sv_wallet s; sv_params := sv_params s; sv_feePerByte := fee;
     sv_authUser := sv_authUser s; sv_authPassword := sv_authPassword s; sv_stopping := sv_stopping s;
     sv_files := sv_files s |}.
Definition set_stopping (s : Server) : Server :=
  {| sv_node := sv_node s; sv_wallet := sv_wallet s; sv_params := sv_params s; sv_feePerByte := sv_feePerByte s;
     sv_authUser := sv_authUser s; sv_authPassword := sv_authPassword s; sv_stopping := true;
     sv_files := sv_files s |}.
Definition set_files (fs : Files) (s : Server) : Server :=
  {| sv_node := sv_node s; sv_wallet := sv_wallet s; sv_params := sv_params s; sv_feePerByte := sv_feePerByte s;
     sv_authUser := sv_authUser s; sv_authPassword := sv_authPassword s; sv_stopping := sv_stopping s;
     sv_files := fs |}.

Context (cenv : Env) (nenv : NetEnv) (wenv : WalletEnv) (renv : RpcEnv).
Implicit Types (s : Server) (rq : Request).

Definition handler : Type := Request -> Server -> Response * Server.

Definition sv_chain s : Chain St := m_chain (sv_node s).
Definition sv_pool s : Mempool := m_mempool (sv_node s).
Definition tip_height s : Z := snd (Tip (sv_chain s)).

(** [makeUtxoIterator]: the calls of the iterator. *)
Definition makeUtxoIterator s : list (Hash * Z * UtxoEntry) := re_rows renv (UtxoSet_of (sv_chain s)).

(** ** Helpers *)

Definition requirePOST (h : handler) : handler := fun rq s =>
  if rq_post rq then h rq s else (RErr StatusMethodNotAllowed PostRequired, s).

Definition requireWallet (h : HDWallet -> handler) : handler := fun rq s =>
  match sv_wallet s with
  | None => (RErr StatusServiceUnavailable WalletNotLoaded, s)
  | Some w => h w rq s
  end.

(** A parameter that must not be empty. *)
Definition with_param (name : string) (h : list byte -> handler) : handler := fun rq s =>
  let v := rq_query rq name in
  if bool_decide (v = []) then (RErr StatusBadRequest (MissingParam name), s) else h v rq s.

(** [s.wallet.RequireUnlocked()]. *)
Definition with_unlocked (h : HDWallet -> handler) : handler := requireWallet (fun w rq s =>
  match RequireUnlocked wenv w with
  | (Err e, w) => (RErr StatusForbidden (WalletFailed e), set_wallet w s)
  | (Ok _, w) => h w rq (set_wallet w s)
  end).

(** A wallet operation whose result is the response. *)
Definition wallet_call {A} (code : Z) (op : wM A) (show : A -> Json) (w : HDWallet) s : Response * Server :=
  match op w with
  | (Ok a, w) => (ROk (show a), set_wallet w s)
  | (Err e, w) => (RErr code (WalletFailed e), set_wallet w s)
  end.

Definition submitTxToMempool (tx : Transaction) s : result MempoolErr Hash * Server :=
  let m := sv_node s in
  match AddTx (m_mempool m) (set_at (m_chain m) (m_mpSet m)) tx with
  | Err e => (Err e, s)
  | Ok (mp, txHash) => (Ok txHash, set_node (BroadcastTx nenv txHash (set_m_mempool mp m)) s)
  end.

(** [%08x] of a [uint32]. *)
Definition hex8 (z : Z) : list byte := hex_EncodeToString (rev (PutUint32LE z)).

(** [%064x] of a natural number below [2^256]. *)
Definition hex64 (z : Z) : list byte :=
  let ds := map hextable (rev (digits_of 16 (Z.to_nat (BitLen z)) z)) in
  replicate (64 - length ds) (byte.of_Z 48) ++ ds.

(** ** Chain statistics *)

Record ChainInfo := {
  ci_Network : string; ci_Height : Z; ci_BestHash : Hash; ci_GenesisHash : Hash; ci_Bits : Z;
  ci_Difficulty : Json; ci_Chainwork : Z; ci_MedianTimePast : Z; ci_RetargetEpoch : Z;
  ci_EpochProgress : Z; ci_EpochBlocksLeft : Z; ci_RetargetInterval : Z; ci_VerificationProg : Z }.

(** The loop that collects timestamps; [n] counts down from eleven. *)
Fixpoint info_timestamps (n : nat) (i : Z) (c : Chain St) : list Z :=
  match n with
  | O => []
  | S n =>
      if c_tipHeight c <? i then []
      else match c_hashByHeight c !! (c_tipHeight c - i) with
           | None => []
           | Some hash =>
               match GetHeader (c_store c) hash with
               | Err _ => []
               | Ok hdr => hdr_Timestamp hdr :: info_timestamps n (i + 1) c
               end
           end
  end.

Definition GetChainInfo (c : Chain St) : ChainInfo :=
  let p := c_params c in
  let '(bits, difficulty) :=
    match GetHeader (c_store c) (c_tipHash c) with
    | Err _ => (0, JNum 0)
    | Ok tipHeader =>
        let target := CompactToBig (hdr_Bits tipHeader) in
        (hdr_Bits tipHeader, if target >? 0 then JQuot (CompactToBig (p_InitialBits p)) target else JNum 0)
    end in
  let timestamps := info_timestamps 11 0 c in
  let median := if len timestamps >? 0 then nth (length timestamps / 2) (insertion_sort timestamps) 0 else 0 in
  let interval := p_RetargetInterval p in
  let progress := c_tipHeight c mod interval in
  {| ci_Network := p_Name p; ci_Height := c_tipHeight c; ci_BestHash := c_tipHash c; ci_GenesisHash := p_GenesisHash p;
     ci_Bits := bits; ci_Difficulty := difficulty; ci_Chainwork := c_tipWork c; ci_MedianTimePast := median;
     ci_RetargetEpoch := if interval >? 0 then c_tipHeight c / interval else 0;
     ci_EpochProgress := if interval >? 0 then progress else 0;
     ci_EpochBlocksLeft := if interval >? 0 then interval - progress else 0;
     ci_RetargetInterval := interval; ci_VerificationProg := 1 |}.

Definition handleGetInfo : handler := fun _ s =>
  let '(tipHash, tipHeight) := Tip (sv_chain s) in
  (ROk (JObj [field "version" (JNum ProtocolVersion); field "protocolversion" (JNum ProtocolVersion);
              field "blocks" (JNum tipHeight); field "bestblockhash" (JStr (ReverseString tipHash));
              field "difficulty" (ci_Difficulty (GetChainInfo (sv_chain s)));
              field "connections" (JNum (PeerCount (sv_node s)));
              field "network" (JStr (bytes_of_string (p_Name (sv_params s))));
              field "mempool_size" (JNum (Z.of_nat (size (mp_txs (sv_pool s)))))]), s).

Definition handleGetBlockchainInfo : handler := fun _ s =>
  let info := GetChainInfo (sv_chain s) in
  (ROk (JObj [field "chain" (JStr (bytes_of_string (ci_Network info)));
              field "blocks" (JNum (ci_Height info)); field "headers" (JNum (ci_Height info));
              field "bestblockhash" (JStr (ReverseString (ci_BestHash info)));
              field "bits" (JStr (hex8 (ci_Bits info))); field "difficulty" (ci_Difficulty info);
              field "mediantime" (JNum (ci_MedianTimePast info));
              field "verificationprogress" (JNum (ci_VerificationProg info));
              field "initialblockdownload" (JBool (IsSyncing (sv_node s)));
              field "chainwork" (JStr (hex64 (ci_Chainwork info)));
              field "pruned" (JBool false); field "warnings" (JStr [])]), s).

Definition handleGetChainStatus : handler := fun _ s =>
  let info := GetChainInfo (sv_chain s) in
  (ROk (JObj [field "blocks" (JNum (ci_Height info)); field "bestblockhash" (JStr (ReverseString (ci_BestHash info)));
              field "bits" (JStr (hex8 (ci_Bits info))); field "difficulty" (ci_Difficulty info);
              field "peers" (JNum (PeerCount (sv_node s))); field "retarget_epoch" (JNum (ci_RetargetEpoch info));
              field "epoch_progress" (JNum (ci_EpochProgress info));
              field "retarget_interval" (JNum (ci_RetargetInterval info))]), s).

Definition handleGetDifficulty : handler := fun _ s => (ROk (ci_Difficulty (GetChainInfo (sv_chain s))), s).

(** ** Blockchain *)

Definition handleGetBlockCount : handler := fun _ s => (ROk (JNum (tip_height s)), s).

Definition handleGetBestBlockHash : handler := fun _ s =>
  (ROk (JStr (ReverseString (fst (Tip (sv_chain s))))), s).

Definition handleGetBlockHash : handler := with_param "height" (fun heightStr _ s =>
  match Sscanf_uint32 heightStr with
  | None => (RErr StatusBadRequest (InvalidParam "height"), s)
  | Some height =>
      match GetHeaderByHeight (sv_chain s) height with
      | Err _ => (RErr StatusNotFound BlockNotFound, s)
      | Ok header => (ROk (JStr (ReverseString (HashBlockHeader header))), s)
      end
  end).

(** The fields of both block queries; [getblock] has a [size] as well. *)
Definition block_fields (block : Block) (blockHash : Hash) (confirmations height : Z) : list (list byte * Json) :=
  let h := blk_Header block in
  [field "hash" (JStr (ReverseString blockHash));
   field "confirmations" (JNum confirmations);
   field "height" (JNum height);
   field "version" (JNum (hdr_Version h));
   field "merkleroot" (JStr (ReverseString (hdr_MerkleRoot h)));
   field "tx" (JArr (map (fun tx => JStr (ReverseString (HashTransaction tx))) (blk_Transactions block)));
   field "time" (JNum (hdr_Timestamp h));
   field "nonce" (JNum (hdr_Nonce h));
   field "bits" (JStr (hex8 (hdr_Bits h)));
   field "previousblockhash" (JStr (ReverseString (hdr_PrevBlock h)));
   field "nTx" (JNum (len (blk_Transactions block)))].

Definition handleGetBlock : handler := with_param "hash" (fun hashStr _ s =>
  match HashFromReverseHex hashStr with
  | Err _ => (RErr StatusBadRequest (InvalidParam "hash"), s)
  | Ok hash =>
      match GetBlock (c_store (sv_chain s)) hash with
      | Err _ => (RErr StatusNotFound BlockNotFound, s)
      | Ok block =>
          let blockHash := HashBlockHeader (blk_Header block) in
          let '(confirmations, blockHeight) :=
            match GetBlockHeight (sv_chain s) blockHash with
            | Ok h => (tip_height s - h + 1, h)
            | Err _ => (-1, 0)
            end in
          (ROk (JObj (field "size" (JNum 0) :: block_fields block blockHash confirmations blockHeight)), s)
      end
  end).

Definition handleGetBlockByHeight : handler := with_param "height" (fun heightStr _ s =>
  match Sscanf_uint32 heightStr with
  | None => (RErr StatusBadRequest (InvalidParam "height"), s)
  | Some height =>
      match GetBlockByHeight (sv_chain s) height with
      | Err _ => (RErr StatusNotFound BlockNotFound, s)
      | Ok (block, blockHash) =>
          (ROk (JObj (block_fields block blockHash (tip_height s - height + 1) height)), s)
      end
  end).

(** ** Network *)

Definition handleGetNetworkInfo : handler := fun _ s =>
  let '(inbound, outbound) := ConnectionCounts (sv_node s) in
  (ROk (JObj [field "version" (JNum ProtocolVersion);
              field "subversion" (JStr UserAgent);
              field "protocolversion" (JNum ProtocolVersion);
              field "connections" (JNum (PeerCount (sv_node s)));
              field "connections_in" (JNum inbound);
              field "connections_out" (JNum outbound);
              field "networkactive" (JBool true);
              field "networks" (JArr [JObj [field "name" (JStr (bytes_of_string "ipv4")); field "reachable" (JBool true)]]);
              field "warnings" (JStr [])]), s).

Definition handleGetConnectionCount : handler := fun _ s => (ROk (JNum (PeerCount (sv_node s))), s).

Definition handleAddNode : handler := with_param "node" (fun addr rq s =>
  match AddNode (rq_now rq) addr (sv_node s) with
  | (Some e, m) => (RErr StatusBadRequest (NodeRefused e), set_node m s)
  | (None, m) => (ROk (JObj [field "added" (JStr addr)]), set_node m s)
  end).

Definition handleDisconnectNode : handler := with_param "address" (fun addr _ s =>
  match DisconnectNode addr (sv_node s) with
  | (false, m) => (RErr StatusNotFound PeerNotFound, set_node m s)
  | (true, m) => (ROk (JObj [field "disconnected" (JStr addr)]), set_node m s)
  end).

(** ** Mining *)

Definition handleSubmitBlock : handler := requirePOST (fun rq s =>
  match blk_Deserialize (rq_body rq) with
  | Err _ => (RErr StatusBadRequest InvalidBlock, s)
  | Ok (block, _) =>
      let '(r, c) := ProcessBlock cenv block (sv_chain s) in
      let s := set_node (set_m_chain c (sv_node s)) s in
      match r with
      | Err e => (RErr StatusBadRequest (BlockRejected e), s)
      | Ok height =>
          (ROk (JObj [field "accepted" (JBool true);
                      field "hash" (JStr (ReverseString (HashBlockHeader (blk_Header block))));
                      field "height" (JNum height)]), s)
      end
  end).

(** ** Mempool *)

Definition handleGetMempoolInfo : handler := fun _ s =>
  (ROk (JObj [field "loaded" (JBool true); field "size" (JNum (Z.of_nat (size (mp_txs (sv_pool s)))))]), s).

Definition entry_json (e : TxEntry) : Json :=
  JObj [field "size" (JNum (te_Size e)); field "fee" (JNum (te_Fee e));
        field "fees" (JObj [field "base" (JNum (te_Fee e))]); field "feerate" (JNum (te_FeeRate e))].

Definition handleGetRawMempool : handler := fun rq s =>
  if negb (bool_decide (rq_query rq "verbose" = bytes_of_string "true"))
  then (ROk (JArr (map (fun h => JStr (ReverseString h)) (GetTxHashes (sv_pool s)))), s)
  else (ROk (JObj (map (fun e => (ReverseString (te_Hash e), entry_json e)) (GetAllEntries (sv_pool s)))), s).

Definition handleGetMempoolEntry : handler := with_param "txid" (fun txidStr _ s =>
  match HashFromReverseHex txidStr with
  | Err _ => (RErr StatusBadRequest (InvalidParam "txid"), s)
  | Ok txHash =>
      match GetTxEntry (sv_pool s) txHash with
      | None => (RErr StatusNotFound EntryNotFound, s)
      | Some entry => (ROk (entry_json entry), s)
      end
  end).

(** ** Unspent outputs *)

Definition handleGetTxOut : handler := with_param "txid" (fun txidStr rq s =>
  match HashFromReverseHex txidStr with
  | Err _ => (RErr StatusBadRequest (InvalidParam "txid"), s)
  | Ok txHash =>
      with_param "n" (fun nStr _ s =>
        match Sscanf_uint32 nStr with
        | None => (RErr StatusBadRequest (InvalidParam "n"), s)
        | Some n =>
            match Get (UtxoSet_of (sv_chain s)) txHash n with
            | None => (ROk JNull, s)
            | Some entry =>
                (ROk (JObj [field "bestblock" (JStr (ReverseString (fst (Tip (sv_chain s)))));
                            field "confirmations" (JNum (confirmations (tip_height s) (ue_Height entry)));
                            field "value" (JNum (ue_Value entry));
                            field "scriptPubKey" (JObj [field "hex" (JStr (hex_EncodeToString (ue_PkScript entry)))]);
                            field "coinbase" (JBool (ue_IsCoinbase entry))]), s)
            end
        end) rq s
  end).

Definition handleGetTxOutSetInfo : handler := fun _ s =>
  let info := TxOutSetInfo (sv_chain s) in
  (ROk (JObj [field "height" (JNum (os_Height info)); field "bestblock" (JStr (ReverseString (os_BestHash info)));
              field "txouts" (JNum (os_TxOuts info)); field "total_amount" (JNum (os_TotalValue info))]), s).

(** ** Control *)

(** The shutdown function runs in a goroutine of its own. *)
Definition handleStop : handler := requirePOST (fun _ s =>
  (ROk (JStr (bytes_of_string "Fairchain server stopping")), set_stopping s)).

(** ** Wallet *)

(** [strconv.ParseUint(str, 10, 32)] of an optional parameter, kept only if it parses. *)
Definition uint_param (name : string) (dflt : Z) rq : Z :=
  match rq_query rq name with
  | [] => dflt
  | v => match ParseUint v 32 with (x, None) => x | (_, Some _) => dflt end
  end.
(** The same with the error ignored: the value is what [ParseUint] returns with it. *)
Definition uint_param_unchecked (name : string) (dflt : Z) rq : Z :=
  match rq_query rq name with [] => dflt | v => fst (ParseUint v 32) end.

Definition handleGetNewAddress : handler := requireWallet (fun w _ =>
  wallet_call StatusInternalServerError (GetNewAddress wenv) JStr w).
Definition handleGetRawChangeAddress : handler := requireWallet (fun w _ =>
  wallet_call StatusInternalServerError (GetChangeAddress wenv) JStr w).

Definition wallet_balance (minConf : Z) (w : HDWallet) s : Z :=
  GetBalance (makeUtxoIterator s) (tip_height s) minConf (p_CoinbaseMaturity (sv_params s)) w.

Definition handleGetBalance : handler := requireWallet (fun w rq s =>
  let balance := wallet_balance (uint_param "minconf" 1 rq) w s in
  (ROk (JObj [field "balance" (JNum balance); field "balance_btc" (JBtc balance)]), s)).

Definition unspent_json (u : UnspentOutput) : Json :=
  JObj [field "txid" (JStr (ReverseString (uo_TxHash u))); field "vout" (JNum (uo_Index u));
        field "address" (JStr (uo_Address u)); field "scriptPubKey" (JStr (hex_EncodeToString (uo_PkScript u)));
        field "amount" (JNum (uo_Value u)); field "amount_btc" (JBtc (uo_Value u));
        field "confirmations" (JNum (uo_Confirmations u)); field "spendable" (JBool true)].

Definition listed (minConf maxConf maturity : Z) (u : UnspentOutput) : bool :=
  negb ((uo_Confirmations u <? minConf) || (uo_Confirmations u >? maxConf))
  && negb (uo_IsCoinbase u && (uo_Confirmations u <? maturity)).

Definition handleListUnspent : handler := requireWallet (fun w rq s =>
  let minConf := uint_param_unchecked "minconf" 1 rq in
  let maxConf := uint_param_unchecked "maxconf" 9999999 rq in
  let utxos := FindUnspent (makeUtxoIterator s) (tip_height s) w in
  (ROk (JArr (map unspent_json (List.filter (listed minConf maxConf (p_CoinbaseMaturity (sv_params s))) utxos))), s)).

Definition handleSendToAddress : handler := requirePOST (with_unlocked (fun w rq s =>
  let address := rq_query rq "address" in
  let amountStr := rq_query rq "amount" in
  if bool_decide (address = []) || bool_decide (amountStr = [])
  then (RErr StatusBadRequest (MissingParam "address or amount"), s)
  else
    match ParseUint amountStr 64 with
    | (_, Some _) => (RErr StatusBadRequest (InvalidParam "amount"), s)
    | (amount, None) =>
        let utxos := FindUnspent (makeUtxoIterator s) (tip_height s) w in
        match BuildTransaction wenv {| sr_ToAddress := address; sr_Amount := amount |} (sv_feePerByte s) utxos
                (p_CoinbaseMaturity (sv_params s)) (tip_height s) w with
        | (Err e, w) => (RErr StatusBadRequest (WalletFailed e), set_wallet w s)
        | (Ok tx, w) =>
            match submitTxToMempool tx (set_wallet w s) with
            | (Err e, s) => (RErr StatusBadRequest (PoolRejected e), s)
            | (Ok txHash, s) => (ROk (JStr (ReverseString txHash)), s)
            end
        end
    end)).

(** The transaction of the [hexstring] parameter. *)
Definition hex_transaction (hexStr : list byte) : result RpcErr Transaction :=
  match hex_DecodeString hexStr with
  | Err e => Err (InvalidHex e)
  | Ok txBytes => match tx_Deserialize txBytes with Err _ => Err InvalidTransaction | Ok (tx, _) => Ok tx end
  end.

Definition handleSendRawTransaction : handler := requirePOST (with_param "hexstring" (fun hexStr _ s =>
  match hex_transaction hexStr with
  | Err e => (RErr StatusBadRequest e, s)
  | Ok tx =>
      match submitTxToMempool tx s with
      | (Err e, s) => (RErr StatusBadRequest (PoolRejected e), s)
      | (Ok txHash, s) => (ROk (JStr (ReverseString txHash)), s)
      end
  end)).

Definition handleGetWalletInfo : handler := requireWallet (fun w _ s =>
  let balance := wallet_balance 1 w s in
  let unconfirmed := wallet_balance 0 w s in
  let '(unlocked, w') :=
    if IsEncrypted w
    then match IsLocked wenv w with (Ok true, w) => (0, w) | (_, w) => (-1, w) end
    else (0, w) in
  (ROk (JObj [field "walletname" (JStr (bytes_of_string "default")); field "walletversion" (JNum 1);
              field "balance" (JNum balance); field "balance_btc" (JBtc balance);
              field "unconfirmed_balance" (JNum (sub64 unconfirmed balance)); field "txcount" (JNum 0);
              field "keypoolsize" (JNum (KeyCount w)); field "paytxfee" (JNum (sv_feePerByte s));
              field "hdseedid" (JStr (GetDefaultAddress w)); field "private_keys_enabled" (JBool true);
              field "unlocked_until" (JNum unlocked)]), set_wallet w' s)).

Definition handleDumpPrivKey : handler := requireWallet (fun w =>
  with_param "address" (fun address _ => wallet_call StatusNotFound (DumpPrivKey wenv address) JStr w)).

Definition handleImportPrivKey : handler := requirePOST (requireWallet (fun w =>
  with_param "privkey" (fun privKey _ =>
    wallet_call StatusBadRequest (ImportPrivKey privKey) (fun a => JObj [field "address" (JStr a)]) w))).

Definition tx_category (maturity : Z) (u : UnspentOutput) : string :=
  if uo_IsCoinbase u then if uo_Confirmations u >=? maturity then "generate" else "immature" else "receive".
Definition transaction_json (maturity : Z) (u : UnspentOutput) : Json :=
  JObj [field "address" (JStr (uo_Address u)); field "category" (JStr (bytes_of_string (tx_category maturity u)));
        field "amount" (JNum (uo_Value u)); field "amount_btc" (JBtc (uo_Value u));
        field "confirmations" (JNum (uo_Confirmations u)); field "txid" (JStr (ReverseString (uo_TxHash u)));
        field "vout" (JNum (uo_Index u)); field "blockheight" (JNum (uo_Height u))].

Definition handleListTransactions : handler := requireWallet (fun w rq s =>
  let count := match rq_query rq "count" with
               | [] => 10
               | v => match ParseInt64 v with (x, None) => if x >? 0 then x else 10 | (_, Some _) => 10 end
               end in
  let results := map (transaction_json (p_CoinbaseMaturity (sv_params s)))
                     (FindUnspent (makeUtxoIterator s) (tip_height s) w) in
  let results := if len results >? count then drop (length results - Z.to_nat count) results else results in
  (ROk (JArr results), s)).

Definition handleSignRawTransactionWithWallet : handler := requirePOST (with_unlocked (fun w =>
  with_param "hexstring" (fun hexStr _ s =>
    match hex_transaction hexStr with
    | Err e => (RErr StatusBadRequest e, s)
    | Ok tx =>
        let getPrevScript h i := ue_PkScript <$> Get (UtxoSet_of (sv_chain s)) h i in
        match SignRawTransaction wenv tx getPrevScript w with
        | (Err e, _, w) => (RErr StatusInternalServerError (WalletFailed e), set_wallet w s)
        | (Ok (_, complete), tx, w) =>
            (ROk (JObj [field "hex" (JStr (hex_EncodeToString (tx_SerializeToBytes tx)));
                        field "complete" (JBool complete)]), set_wallet w s)
        end
    end))).

(** The confirmed value paid to one script. *)
Definition received_step (script : list byte) (tipHeight minConf : Z) (total : Z) (row : Hash * Z * UtxoEntry) : Z :=
  let '(_, _, entry) := row in
  if negb (bool_decide (ue_PkScript entry = script)) then total
  else if confirmations tipHeight (ue_Height entry) <? minConf then total
  else add64 total (ue_Value entry).
Definition received (script : list byte) (minConf : Z) s : Z :=
  fold_left (received_step script (tip_height s) minConf) (makeUtxoIterator s) 0.

Definition handleGetReceivedByAddress : handler := with_param "address" (fun address rq s =>
  match AddressToPubKeyHash address with
  | Err e => (RErr StatusBadRequest (BadAddress e), s)
  | Ok (_, destPKH) =>
      let total := received (MakeP2PKHScript destPKH) (uint_param "minconf" 1 rq) s in
      (ROk (JObj [field "amount" (JNum total); field "amount_btc" (JBtc total)]), s)
  end).

Definition handleListAddressGroupings : handler := requireWallet (fun w _ s =>
  let grouping := omap (fun addr =>
    match AddressToPubKeyHash addr with
    | Err _ => None
    | Ok (_, pkh) => let balance := received (MakeP2PKHScript pkh) 1 s in
                     Some (JArr [JStr addr; JNum balance; JBtc balance])
    end) (AllAddresses w) in
  (ROk (JArr [JArr grouping]), s)).

(** [BackupWallet] once the wallet's file is read. *)
Definition backup_to (destPath : list byte) (data : FileContent) (w : HDWallet) (fs : Files)
  : result WalletErr unit * (HDWallet * Files) :=
  let '(ok, fs) := MkdirAll renv (Dir destPath) fs in
  if negb ok then (Err MkdirFailed, (w, fs))
  else
    let '(ok, (w, fs)) := os_WriteFile renv destPath data w fs in
    (if ok then Ok tt else Err WriteFailed, (w, fs)).

Definition BackupWallet (destPath : list byte) (w : HDWallet) (fs : Files)
  : result WalletErr unit * (HDWallet * Files) :=
  match (if re_read_fails renv fs then Missing else w_file w) with
  | Missing => (Err ReadFailed, (w, fs))
  | data => backup_to destPath data w fs
  end.

Definition handleBackupWallet : handler := requireWallet (fun w =>
  with_param "destination" (fun dest _ s =>
    if IsAbs dest then (RErr StatusBadRequest AbsolutePath, s)
    else
      let cleaned := Clean dest in
      if has_prefix dotdot cleaned || contains (slash :: dotdot) cleaned then (RErr StatusBadRequest PathTraversal, s)
      else
        let '(r, (w', fs)) := BackupWallet cleaned w (sv_files s) in
        let s := set_files fs (set_wallet w' s) in
        match r with
        | Err e => (RErr StatusInternalServerError (WalletFailed e), s)
        | Ok _ => (ROk (JBool true), s)
        end)).

Definition handleGetAddressesByLabel : handler := requireWallet (fun w _ s =>
  (ROk (JObj (map_to_list (list_to_map (M := gmap (list byte) Json)
     (map (fun addr => (addr, JObj [field "purpose" (JStr (bytes_of_string "receive"))])) (ExternalAddresses w))))), s)).

Definition handleValidateAddress : handler := with_param "address" (fun address _ s =>
  match AddressToPubKeyHash address with
  | Err _ => (ROk (JObj [field "isvalid" (JBool false); field "address" (JStr address)]), s)
  | Ok (ver, pkh) =>
      let isMine := match sv_wallet s with
                    | None => false
                    | Some w => bool_decide (is_Some (GetKeyForAddress address w))
                    end in
      (ROk (JObj [field "isvalid" (JBool true); field "address" (JStr address);
                  field "scriptPubKey" (JStr (hex_EncodeToString (MakeP2PKHScript pkh)));
                  field "ismine" (JBool isMine); field "iswatchonly" (JBool false); field "isscript" (JBool false);
                  field "version" (JNum (byte.unsigned ver))]), s)
  end).

Definition handleSetTxFee : handler := requirePOST (with_param "amount" (fun feeStr _ s =>
  match ParseUint feeStr 64 with
  | (_, Some _) => (RErr StatusBadRequest (InvalidParam "amount"), s)
  | (fee, None) => if fee >? maxFeePerByte then (RErr StatusBadRequest (FeeTooHigh fee), s)
                   else (ROk (JBool true), set_fee fee s)
  end)).

Definition handleDumpWallet : handler := with_unlocked (fun w _ s =>
  let '(r, w') := Mnemonic wenv w in
  let mnemonic := match r with Ok m => m | Err _ => [] end in
  (ROk (JObj [field "mnemonic" (JStr mnemonic); field "addresses" (JArr (map JStr (AllAddresses w)));
              field "keypoolsize" (JNum (KeyCount w))]), set_wallet w' s)).

(** The outputs of a transaction that are still unspent, in iteration order. *)
Definition tx_detail s (row : Hash * Z * UtxoEntry) : Json :=
  let '(_, index, entry) := row in
  let addr := match ExtractP2PKHHash (ue_PkScript entry), sv_wallet s with
              | Some pkh, Some w => PubKeyHashToAddress pkh (AddressVersion w)
              | _, _ => []
              end in
  JObj [field "address" (JStr addr); field "vout" (JNum index); field "amount" (JNum (ue_Value entry));
        field "category" (JStr (bytes_of_string "receive"))].

Definition handleGetTransaction : handler := with_param "txid" (fun txidStr _ s =>
  match HashFromReverseHex txidStr with
  | Err _ => (RErr StatusBadRequest (InvalidParam "txid"), s)
  | Ok txHash =>
      match GetTxEntry (sv_pool s) txHash with
      | Some entry =>
          (ROk (JObj [field "txid" (JStr txidStr); field "confirmations" (JNum 0);
                      field "hex" (JStr (hex_EncodeToString (tx_SerializeToBytes (te_Tx entry))));
                      field "fee" (JNum (te_Fee entry))]), s)
      | None =>
          let rows := List.filter (fun '(h, _, _) => bool_decide (h = txHash)) (makeUtxoIterator s) in
          match last rows with
          | None => (RErr StatusNotFound TxNotFound, s)
          | Some (_, _, entry) =>
              let totalValue := fold_left (fun t '(_, _, e) => add64 t (ue_Value e)) rows 0 in
              (ROk (JObj [field "txid" (JStr txidStr);
                          field "confirmations" (JNum (confirmations (tip_height s) (ue_Height entry)));
                          field "blockheight" (JNum (ue_Height entry)); field "amount" (JNum totalValue);
                          field "details" (JArr (map (tx_detail s) rows))]), s)
          end
      end
  end).

Definition handleEncryptWallet : handler := requirePOST (requireWallet (fun w =>
  with_param "passphrase" (fun passphrase _ =>
    wallet_call StatusBadRequest (EncryptWallet wenv passphrase)
      (fun _ => JStr (bytes_of_string "wallet encrypted successfully, wallet is now locked")) w))).

Definition handleWalletPassphrase : handler := requirePOST (requireWallet (fun w =>
  with_param "passphrase" (fun passphrase rq =>
    let timeout := match rq_query rq "timeout" with
                   | [] => 300
                   | v => match ParseInt64 v with (x, None) => if x >? 0 then x else 300 | (_, Some _) => 300 end
                   end in
    wallet_call StatusForbidden (WalletPassphrase wenv passphrase timeout) (fun _ => JBool true) w))).

Definition handleWalletLock : handler := requireWallet (fun w _ =>
  wallet_call StatusBadRequest WalletLock (fun _ => JBool true) w).

(** ** Routes *)

Definition routes : list (string * handler) := [
  ("/getblockchaininfo", handleGetBlockchainInfo); ("/getblockcount", handleGetBlockCount); ("/getbestblockhash", handleGetBestBlockHash);
  ("/getblockhash", handleGetBlockHash); ("/getblock", handleGetBlock);
  ("/getblockbyheight", handleGetBlockByHeight); ("/getdifficulty", handleGetDifficulty); ("/getnetworkinfo", handleGetNetworkInfo);
  ("/getconnectioncount", handleGetConnectionCount); ("/addnode", handleAddNode);
  ("/disconnectnode", handleDisconnectNode); ("/getmempoolinfo", handleGetMempoolInfo);
  ("/getrawmempool", handleGetRawMempool); ("/getmempoolentry", handleGetMempoolEntry);
  ("/gettxout", handleGetTxOut); ("/gettxoutsetinfo", handleGetTxOutSetInfo);
  ("/submitblock", handleSubmitBlock); ("/getinfo", handleGetInfo); ("/stop", handleStop);
  ("/getnewaddress", handleGetNewAddress); ("/getbalance", handleGetBalance);
  ("/listunspent", handleListUnspent); ("/sendtoaddress", handleSendToAddress);
  ("/getwalletinfo", handleGetWalletInfo); ("/dumpprivkey", handleDumpPrivKey);
  ("/importprivkey", handleImportPrivKey); ("/listtransactions", handleListTransactions);
  ("/validateaddress", handleValidateAddress); ("/getrawchangeaddress", handleGetRawChangeAddress);
  ("/settxfee", handleSetTxFee); ("/sendrawtransaction", handleSendRawTransaction);
  ("/signrawtransactionwithwallet", handleSignRawTransactionWithWallet);
  ("/getreceivedbyaddress", handleGetReceivedByAddress); ("/listaddressgroupings", handleListAddressGroupings);
  ("/backupwallet", handleBackupWallet); ("/getaddressesbylabel", handleGetAddressesByLabel); ("/gettransaction", handleGetTransaction);
  ("/encryptwallet", handleEncryptWallet); ("/walletpassphrase", handleWalletPassphrase);
  ("/walletlock", handleWalletLock); ("/getchainstatus", handleGetChainStatus); ("/dumpwallet", handleDumpWallet)]%string.

Fixpoint route (path : string) (l : list (string * handler)) : option handler :=
  match l with
  | [] => None
  | (p, h) :: l => if String.eqb p path then Some h else route path l
  end.

Definition mux : handler := fun rq s =>
  match route (rq_path rq) routes with
  | Some h => h rq s
  | None => (default (RErr StatusNotFound NotFound404) (re_other renv rq), s)
  end.

(** [subtle.ConstantTimeCompare] is one exactly for equal strings. *)
Definition authorized rq s : bool :=
  match rq_auth rq with
  | None => false
  | Some (user, pass) => bool_decide (user = sv_authUser s) && bool_decide (pass = sv_authPassword s)
  end.

Definition authMiddleware (next : handler) : handler := fun rq s =>
  if authorized rq s then next rq s else (RErr StatusUnauthorized Unauthorized, s).

(** What [New] serves. *)
Definition serve_http : handler := fun rq s =>
  (if negb (bool_decide (sv_authUser s = [])) then authMiddleware mux else mux) rq s.

(** ** Start-up *)

Record AuthConfig := { ac_User : list byte; ac_Password : list byte }.

Inductive AuthErr := CookiePassword | CookieFile.

(** [initAuth]: the credentials, and the cookie it writes, if it does; [random] is what
    [crypto/rand] gives and [write_fails] whether the cookie file cannot be written. *)
Definition initAuth (random : option (list byte)) (write_fails : bool) (auth : AuthConfig)
  : result AuthErr (list byte * list byte * option (list byte)) :=
  if negb (bool_decide (ac_User auth = [])) && negb (bool_decide (ac_Password auth = []))
  then Ok (ac_User auth, ac_Password auth, None)
  else
    match random with
    | None => Err CookiePassword
    | Some b =>
        let user := bytes_of_string "__cookie__" in
        let password := hex_EncodeToString b in
        if write_fails then Err CookieFile else Ok (user, password, Some (user ++ bytes_of_string ":" ++ password))
    end.

(** [New], then [SetWallet] and [SetBroadcastTx], in a working directory with [files]. *)
Definition NewServer (random : option (list byte)) (write_fails : bool) (files : Files) (m : Manager St PS) (w : HDWallet)
    (p : ChainParams) (auth : option AuthConfig) : result AuthErr Server :=
  let server user password :=
    {| sv_node := m; sv_wallet := Some w; sv_params := p; sv_feePerByte := defaultFeePerByte;
       sv_authUser := user; sv_authPassword := password; sv_stopping := false; sv_files := files |} in
  match auth with
  | None => Ok (server [] [])
  | Some auth => let* (user, password, _) := initAuth random write_fails auth in Ok (server user password)
  end.
End server.
