(* ===== verification/RpcInv.v ===== *)
(** * What a request to the RPC server can change

    [effect] lists the changes a request can cause; every route of [Rpc.v] is shown to
    produce only such changes ([serve_effects]).  Runs of a server that serves peers and
    requests in any order, and what carries over to them. *)
From S2P Require Import Prelude.
From S2P Require Import Types.
From S2P Require Import Sha256.
From S2P Require Import Crypto.
From S2P Require Import Params.
From S2P Require Import Script.
From S2P Require Import Target.
From S2P Require Import Base58.
From S2P Require Import Utxo.
From S2P Require Import Wallet.
From S2P Require Import WalletInv.
From S2P Require Import WalletProps.
From S2P Require Import TxValidation.
From S2P Require Import BlockValidation.
From S2P Require Import Pow.
From S2P Require Import Ledger.
From S2P Require Import Store.
From S2P Require Import FileLaws.
From S2P Require Import Chain.
From S2P Require Import ChainInv.
From S2P Require Import Reorg.
From S2P Require Import Accept.
From S2P Require Import ChainSafety.
From S2P Require Import Mempool.
From S2P Require Import WalletTx.
From S2P Require Import Miner.
From S2P Require Import ChainProps.
From S2P Require Import Protocol.
From S2P Require Import TimeAdjust.
From S2P Require Import Peer.
From S2P Require Import SeenSet.
From S2P Require Import Manager.
From S2P Require Import NodeInv.
From S2P Require Import Sync.
From S2P Require Import NodeProps.
From S2P Require Import Rpc.
#[local] Open Scope Z_scope.
#[local] Open Scope go_scope.

(** ** Numbers *)

Lemma digit_value_range c d : digit_value c = Some d -> 0 <= d < 10.
Proof. unfold digit_value. destruct (_ && _) eqn:E; [|done]. intros [= <-]. apply andb_prop in E as [?%Z.leb_le ?%Z.leb_le]. lia. Qed.

Lemma uint_loop_nonneg maxVal s : 0 <= maxVal -> forall n, 0 <= n -> 0 <= fst (uint_loop maxVal n s).
Proof.
  intros Hm. induction s as [|c s IH]; intros n Hn; cbn [uint_loop]; [done|].
  destruct (digit_value c) as [d|] eqn:E; [|simpl; lia]. apply digit_value_range in E.
  destruct (_ >? _); [done|]. apply IH. lia.
Qed.
Lemma ParseUint_nonneg s bits : 0 <= bits -> 0 <= fst (ParseUint s bits).
Proof.
  intros Hb. destruct s as [|c s]; [simpl; lia|]. apply uint_loop_nonneg; [|lia].
  pose proof (Z.pow_pos_nonneg 2 bits). lia.
Qed.

(** ** The wallet operations of the handlers *)

Section reach.
Context `{WO : WalletOps} (env : WalletEnv).

(** Operations that bring no key or secret in or out of the wallet's file: addresses are
    derived, the wallet locks. *)
Definition harmless (o : wallet_op) : Prop :=
  match o with OpEncrypt _ | OpUnlock _ _ => False | _ => True end.

(** [w'] is [w] after such operations. *)
Definition ops_from (w w' : HDWallet) : Prop := exists ops, Forall harmless ops /\ w' = wallet_run env ops w.

Lemma ops_from_refl w : ops_from w w.
Proof. exists []. split; [constructor|done]. Qed.
Lemma ops_from_step o w w' : harmless o -> ops_from w w' -> ops_from w (wallet_step env o w').
Proof.
  intros Ho (ops & H & ->). exists (ops ++ [o]). split; [apply Forall_app; by split; [|apply Forall_singleton]|].
  unfold wallet_run. by rewrite fold_left_app.
Qed.
Lemma ops_from_reachable ver w w' : ops_from w w' -> wallet_reachable env ver w -> wallet_reachable env ver w'.
Proof. intros (ops & _ & ->). revert w. induction ops as [|o ops IH]; intros w H; [done|]. by apply IH, wr_step. Qed.

#[local] Abbreviation keeps_ops := (fun w => keeps (E := WalletErr) (ops_from w)).
Lemma ops_RequireUnlocked w : keeps_ops w (RequireUnlocked env).
Proof. intros w'. rewrite RequireUnlocked_locked. by apply (ops_from_step OpIsLocked). Qed.
Lemma ops_change_address w : keeps_ops w (change_address env).
Proof.
  intros w' H. unfold change_address. apply (ops_from_step OpChangeAddress) in H; [|done]. cbn [wallet_step] in H.
  by destruct (GetChangeAddress env w').
Qed.
Hint Resolve ops_RequireUnlocked ops_change_address : keeps.
Lemma ops_BuildTransaction req rate utxos mat tip w : keeps_ops w (BuildTransaction env req rate utxos mat tip).
Proof. unfold BuildTransaction, payment_outputs. keeps. Qed.
Lemma ops_SignRawTransaction tx prev w : ops_from w (SignRawTransaction env tx prev w).2.
Proof.
  pose proof (ops_RequireUnlocked w w (ops_from_refl w)) as H. unfold SignRawTransaction.
  destruct (RequireUnlocked env w) as [[|] w1]; [|done]. by destruct (sign_raw _ _ _ _ _ _) as [[] ?].
Qed.
End reach.

(** ** What a request can change *)

Section effects.
Context {St : Type} `{BS : BlockStore St} `{EN : Engine} {EC : ECOps} {WO : WalletOps}.
Context {PS : Type} `{PST : PeerStore PS}.
Context (cenv : Env) (nenv : NetEnv) (wenv : WalletEnv) (renv : RpcEnv).
Implicit Types (s : Server (St := St) (PS := PS)) (rq : Request).

(** Without a POST addresses are derived, the wallet locks or is copied, peers change. *)
Inductive effect rq : relation (Server (St := St) (PS := PS)) :=
| eff_wallet s w w' :
    sv_wallet s = Some w -> ops_from wenv w w' -> effect rq s (set_wallet w' s)
| eff_secret s w o :
    rq_post rq = true -> sv_wallet s = Some w -> effect rq s (set_wallet (wallet_step wenv o w) s)
| eff_import s w k :
    rq_post rq = true -> sv_wallet s = Some w -> effect rq s (set_wallet (ImportPrivKey k w).2 s)
| eff_peers s m : framed (sv_node s) m -> effect rq s (set_node m s)
| eff_pool s tx mp h :
    rq_post rq = true ->
    AddTx (sv_pool s) (set_at (sv_chain s) (m_mpSet (sv_node s))) tx = Ok (mp, h) ->
    effect rq s (set_node (BroadcastTx nenv h (set_m_mempool mp (sv_node s))) s)
| eff_block s b r :
    rq_post rq = true -> blk_Deserialize (rq_body rq) = Ok (b, r) ->
    effect rq s (set_node (set_m_chain (ProcessBlock cenv b (sv_chain s)).2 (sv_node s)) s)
| eff_backup s w fs f :
    sv_wallet s = Some w -> (re_wallet_path renv = [] -> f = w_file w) ->
    effect rq s (set_files fs (set_wallet (set_disk f (w_tick w) w) s))
| eff_fee s fee : rq_post rq = true -> 0 <= fee <= maxFeePerByte -> effect rq s (set_fee fee s)
| eff_stop s : rq_post rq = true -> effect rq s (set_stopping s).

(** The handler causes only effects; it causes none. *)
Definition effective (h : handler) : Prop := forall rq s, rtc (effect rq) s (h rq s).2.
Definition pure_handler (h : handler (St := St) (PS := PS)) : Prop := forall rq s, (h rq s).2 = s.

Lemma pure_effective h : pure_handler h -> effective h.
Proof. intros H rq s. rewrite H. apply rtc_refl. Qed.

Lemma effective_param name h : (forall v, effective (h v)) -> effective (with_param name h).
Proof. intros H rq s. unfold with_param. case_bool_decide; [apply rtc_refl|apply H]. Qed.
Lemma pure_param name h : (forall v, pure_handler (h v)) -> pure_handler (with_param name h).
Proof. intros H rq s. unfold with_param. case_bool_decide; [done|apply H]. Qed.

(** Behind [requirePOST] the method is known. *)
Lemma effective_post h :
  (forall rq s, rq_post rq = true -> rtc (effect rq) s (h rq s).2) -> effective (requirePOST h).
Proof. intros H rq s. unfold requirePOST. destruct (rq_post rq) eqn:E; [by apply H|apply rtc_refl]. Qed.

Lemma effective_wallet h :
  (forall w rq s, sv_wallet s = Some w -> rtc (effect rq) s (h w rq s).2) -> effective (requireWallet h).
Proof. intros H rq s. unfold requireWallet. destruct (sv_wallet s) as [w|] eqn:E; [by apply H|apply rtc_refl]. Qed.
Lemma pure_wallet h : (forall w, pure_handler (h w)) -> pure_handler (requireWallet h).
Proof. intros H rq s. unfold requireWallet. destruct (sv_wallet s); [apply H|done]. Qed.

Lemma effect_unlock rq s w : sv_wallet s = Some w -> effect rq s (set_wallet (RequireUnlocked wenv w).2 s).
Proof. intros E. apply (eff_wallet _ _ w); [done|]. apply ops_RequireUnlocked, ops_from_refl. Qed.

Lemma wallet_call_state {A} code (op : wM A) show w s : (wallet_call code op show w s).2 = set_wallet (op w).2 s.
Proof. unfold wallet_call. by destruct (op w) as [[|] w1]. Qed.

(** What [submitTxToMempool] does to the server. *)
Lemma submit_effective rq s tx :
  rq_post rq = true -> rtc (effect rq) s (submitTxToMempool nenv tx s).2.
Proof.
  intros Hp. unfold submitTxToMempool. destruct (AddTx _ _ tx) as [[mp h]|e] eqn:E; [|apply rtc_refl].
  apply rtc_once. by eapply eff_pool.
Qed.

(** *** The handlers *)

Lemma AddNode_effect rq now a s : effect rq s (set_node (AddNode now a (sv_node s)).2 s).
Proof.
  apply eff_peers. unfold AddNode. pose proof (framed_IsBanned now a (sv_node s)) as H.
  destruct (IsBanned now a (sv_node s)) as [banned m1]. cbn [snd] in H. destruct banned; [done|].
  case_bool_decide; [done|]. etrans; [exact H|by apply framed_same].
Qed.
Lemma effective_AddNode : effective handleAddNode.
Proof.
  apply effective_param. intros a rq s. apply rtc_once. pose proof (AddNode_effect rq (rq_now rq) a s) as H.
  by destruct (AddNode (rq_now rq) a (sv_node s)) as [[e|] m].
Qed.
Lemma effective_DisconnectNode : effective handleDisconnectNode.
Proof.
  apply effective_param. intros a rq s. apply rtc_once. unfold DisconnectNode.
  destruct (m_peers (sv_node s) !! a); apply eff_peers; [apply framed_on_peer, _|done].
Qed.

Lemma effective_SubmitBlock : effective (handleSubmitBlock cenv).
Proof.
  apply effective_post. intros rq s Hp. destruct (blk_Deserialize (rq_body rq)) as [[b r]|] eqn:E; [|apply rtc_refl].
  pose proof (eff_block rq s b r Hp E) as H. unfold sv_chain in *.
  destruct (ProcessBlock cenv b (m_chain (sv_node s))) as [[height|e] c]; by apply rtc_once.
Qed.
Lemma effective_Stop : effective handleStop.
Proof. apply effective_post. intros rq s Hp. by apply rtc_once, eff_stop. Qed.
(** A parameter behind [requirePOST]. *)
Lemma effects_param rq s name (h : list byte -> handler) :
  (forall v, rtc (effect rq) s (h v rq s).2) -> rtc (effect rq) s (with_param name h rq s).2.
Proof. intros H. unfold with_param. case_bool_decide; [apply rtc_refl|apply H]. Qed.

Lemma effective_SetTxFee : effective handleSetTxFee.
Proof.
  apply effective_post. intros rq s Hp. apply effects_param. intros v.
  pose proof (ParseUint_nonneg v 64 ltac:(lia)) as H0. destruct (ParseUint v 64) as [fee [e|]]; [apply rtc_refl|].
  destruct (Z.gtb_spec fee maxFeePerByte); [apply rtc_refl|]. by apply rtc_once, eff_fee.
Qed.

(** A wallet behind [requirePOST]. *)
Lemma effects_wallet rq s (h : HDWallet -> handler) :
  (forall w, sv_wallet s = Some w -> rtc (effect rq) s (h w rq s).2) -> rtc (effect rq) s (requireWallet h rq s).2.
Proof. intros H. unfold requireWallet. destruct (sv_wallet s) as [w|] eqn:E; [by apply H|apply rtc_refl]. Qed.
Lemma effects_unlocked rq s (h : HDWallet -> handler) :
  (forall w s, sv_wallet s = Some w -> rtc (effect rq) s (h w rq s).2) -> rtc (effect rq) s (with_unlocked wenv h rq s).2.
Proof.
  intros H. apply effects_wallet. intros w E. pose proof (effect_unlock rq s w E) as Hu.
  destruct (RequireUnlocked wenv w) as [[|] w1]; cbn [snd] in *; [|by apply rtc_once].
  eapply rtc_l; [exact Hu|]. by apply H.
Qed.

Lemma harmless_call {A} rq code (op : wM A) show o w s :
  sv_wallet s = Some w -> harmless o -> (op w).2 = wallet_step wenv o w ->
  rtc (effect rq) s (wallet_call code op show w s).2.
Proof.
  intros E Ho Hop. rewrite wallet_call_state, Hop. apply rtc_once, (eff_wallet _ _ w); [done|].
  apply ops_from_step; [done|apply ops_from_refl].
Qed.

Lemma effective_GetNewAddress : effective (handleGetNewAddress wenv).
Proof. apply effective_wallet. intros w rq s E. by apply (harmless_call rq _ _ _ OpNewAddress). Qed.
Lemma effective_GetRawChangeAddress : effective (handleGetRawChangeAddress wenv).
Proof. apply effective_wallet. intros w rq s E. by apply (harmless_call rq _ _ _ OpChangeAddress). Qed.
Lemma effective_WalletLock : effective handleWalletLock.
Proof. apply effective_wallet. intros w rq s E. by apply (harmless_call rq _ _ _ OpLock). Qed.
Lemma effective_DumpPrivKey : effective (handleDumpPrivKey wenv).
Proof.
  apply effective_wallet. intros w rq s E. apply effects_param. intros a. by apply (harmless_call rq _ _ _ (OpDump a)).
Qed.
Lemma effective_ImportPrivKey : effective handleImportPrivKey.
Proof.
  apply effective_post. intros rq s Hp. apply effects_wallet. intros w E. apply effects_param. intros k.
  rewrite wallet_call_state. by apply rtc_once, eff_import.
Qed.
Lemma effective_EncryptWallet : effective (handleEncryptWallet wenv).
Proof.
  apply effective_post. intros rq s Hp. apply effects_wallet. intros w E. apply effects_param. intros p.
  rewrite wallet_call_state. by apply rtc_once, (eff_secret _ _ _ (OpEncrypt p)).
Qed.
Lemma effective_WalletPassphrase : effective (handleWalletPassphrase wenv).
Proof.
  apply effective_post. intros rq s Hp. apply effects_wallet. intros w E. apply effects_param. intros p.
  cbv zeta. rewrite wallet_call_state. by apply rtc_once, (eff_secret _ _ _ (OpUnlock p _)).
Qed.
Lemma Clean_nonempty path : Clean path <> [].
Proof. unfold Clean. destruct (IsAbs path); [done|]. by destruct (join _). Qed.

(** [BackupWallet] at most rewrites the wallet's file, if that is below the working directory. *)
Lemma BackupWallet_disk dest w fs : exists f fs',
  BackupWallet renv (Clean dest) w fs = (fst (BackupWallet renv (Clean dest) w fs), (set_disk f (w_tick w) w, fs'))
  /\ (re_wallet_path renv = [] -> f = w_file w).
Proof.
  assert (w = set_disk (w_file w) (w_tick w) w) as E by (by destruct w).
  assert (forall data fs, exists f fs', (os_WriteFile renv (Clean dest) data w fs).2 = (set_disk f (w_tick w) w, fs')
    /\ (re_wallet_path renv = [] -> f = w_file w)) as H.
  { intros data fs1. unfold os_WriteFile. destruct (_ || _); [by exists (w_file w), fs1; rewrite <- E|].
    assert (forall c, exists f fs', put_file renv (Clean dest) c w fs1 = (set_disk f (w_tick w) w, fs')
      /\ (re_wallet_path renv = [] -> f = w_file w)) as Hp; [|destruct (re_write _ _ _ _); apply Hp].
    intros c. unfold put_file. case_bool_decide as Hd.
    - exists c, fs1. split; [done|]. intros E0. rewrite E0 in Hd. by destruct (Clean_nonempty dest).
    - eexists (w_file w), _. by rewrite <- E. }
  assert (forall data, exists f fs', backup_to renv (Clean dest) data w fs
      = (fst (backup_to renv (Clean dest) data w fs), (set_disk f (w_tick w) w, fs'))
    /\ (re_wallet_path renv = [] -> f = w_file w)) as K.
  { intros data. unfold backup_to. destruct (MkdirAll renv _ fs) as [[|] fs1]; cbn [negb]; [|by exists (w_file w), fs1; rewrite <- E].
    destruct (H data fs1) as (f & fs' & Hw & Hf). destruct (os_WriteFile renv (Clean dest) data w fs1) as [ok [w1 fs2]].
    cbn [snd fst] in *. injection Hw as -> ->. by exists f, fs'. }
  unfold BackupWallet. destruct (if re_read_fails renv fs then Missing else w_file w); [by exists (w_file w), fs; rewrite <- E|apply K..].
Qed.
Lemma effective_BackupWallet : effective (handleBackupWallet renv).
Proof.
  apply effective_wallet. intros w rq s E. apply effects_param. intros dest.
  destruct (IsAbs dest); [apply rtc_refl|]. cbv zeta. destruct (_ || _); [apply rtc_refl|].
  destruct (BackupWallet_disk dest w (sv_files s)) as (f & fs & -> & Hf).
  destruct (fst _); apply rtc_once; by apply eff_backup.
Qed.
Lemma effective_DumpWallet : effective (handleDumpWallet wenv).
Proof.
  intros rq s. apply effects_unlocked. clear s. intros w s E. apply rtc_once.
  destruct (Mnemonic wenv w) as [r w'] eqn:Em. apply (eff_wallet _ _ w); [done|].
  pose proof (ops_from_step wenv OpMnemonic w w I (ops_from_refl wenv w)) as H. cbn [wallet_step] in H. by rewrite Em in H.
Qed.
Lemma effective_GetWalletInfo : effective (handleGetWalletInfo wenv renv).
Proof.
  apply effective_wallet. intros w rq s E. apply rtc_once. cbv zeta.
  pose proof (ops_from_step wenv OpIsLocked w w I (ops_from_refl wenv w)) as H. cbn [wallet_step] in H.
  destruct (IsEncrypted w); [|apply (eff_wallet _ _ w); [done|apply ops_from_refl]].
  destruct (IsLocked wenv w) as [[[]|] w']; by apply (eff_wallet _ _ w).
Qed.

Lemma effective_SendRawTransaction : effective (handleSendRawTransaction nenv).
Proof.
  apply effective_post. intros rq s Hp. apply effects_param. intros hex.
  destruct (hex_transaction hex) as [tx|e]; [|apply rtc_refl]. pose proof (submit_effective rq s tx Hp) as H.
  by destruct (submitTxToMempool nenv tx s) as [[h|e] s'].
Qed.
Lemma effective_SendToAddress : effective (handleSendToAddress nenv wenv renv).
Proof.
  apply effective_post. intros rq s Hp. apply effects_unlocked. clear s. intros w s E. cbv zeta.
  destruct (_ || _); [apply rtc_refl|]. destruct (ParseUint _ 64) as [amount [e|]]; [apply rtc_refl|].
  match goal with |- context [BuildTransaction wenv ?req ?rate ?us ?mat ?tip w] =>
    pose proof (ops_BuildTransaction wenv req rate us mat tip w w (ops_from_refl wenv w)) as H;
    destruct (BuildTransaction wenv req rate us mat tip w) as [[tx|e] w'] end; cbn [snd] in H.
  - eapply rtc_l; [by apply (eff_wallet _ _ w)|]. pose proof (submit_effective rq (set_wallet w' s) tx Hp) as Hs.
    by destruct (submitTxToMempool nenv tx (set_wallet w' s)) as [[h|e] s'].
  - by apply rtc_once, (eff_wallet _ _ w).
Qed.
Lemma effective_SignRawTransaction : effective (handleSignRawTransactionWithWallet wenv).
Proof.
  apply effective_post. intros rq s _. apply effects_unlocked. clear s. intros w s E. apply effects_param. intros hex.
  destruct (hex_transaction hex) as [tx|e]; [|apply rtc_refl]. cbv zeta. apply rtc_once.
  match goal with |- context [SignRawTransaction wenv tx ?prev w] =>
    pose proof (ops_SignRawTransaction wenv tx prev w) as H;
    destruct (SignRawTransaction wenv tx prev w) as [[[[n c]|e] tx'] w'] end; by apply (eff_wallet _ _ w).
Qed.

Ltac head t := lazymatch t with ?f _ => head f | _ => t end.
Ltac pure_handler :=
  lazymatch goal with |- pure_handler ?h => let f := head h in unfold f end;
  repeat match goal with
  | |- pure_handler (with_param _ _) => apply pure_param; intros ?
  | |- pure_handler (requireWallet _) => apply pure_wallet; intros ?
  end; intros ? ?; cbv zeta; unfold with_param; repeat case_match; done.

(** Every route. *)
Lemma routes_effective : Forall (fun '(_, h) => effective h) (routes cenv nenv wenv renv).
Proof.
  unfold routes. repeat (apply Forall_cons; split); try apply List.Forall_nil; first
    [ apply effective_AddNode | apply effective_DisconnectNode | apply effective_SubmitBlock | apply effective_Stop
    | apply effective_GetNewAddress | apply effective_SendToAddress | apply effective_GetWalletInfo
    | apply effective_DumpPrivKey | apply effective_ImportPrivKey | apply effective_GetRawChangeAddress
    | apply effective_SetTxFee | apply effective_SendRawTransaction | apply effective_SignRawTransaction
    | apply effective_EncryptWallet | apply effective_WalletPassphrase | apply effective_WalletLock
    | apply effective_DumpWallet | apply effective_BackupWallet | apply pure_effective; pure_handler ].
Qed.

Lemma route_effective path l h :
  Forall (fun '(_, h) => effective h) l -> route path l = Some h -> effective h.
Proof.
  induction 1 as [|[q h'] l Hq _ IH]; cbn [route]; [done|]. destruct (String.eqb q path); [by intros [= <-]|done].
Qed.

(** Whatever is sent to the server, it causes only effects. *)
Lemma serve_effects rq s : rtc (effect rq) s (serve_http cenv nenv wenv renv rq s).2.
Proof.
  assert (effective (mux cenv nenv wenv renv)) as H.
  { intros rq' s'. unfold mux. destruct (route _ _) as [h|] eqn:E; [|apply rtc_refl].
    by apply (route_effective _ _ _ routes_effective E). }
  unfold serve_http. destruct (negb _); [|apply H]. unfold authMiddleware. destruct (authorized rq s); [apply H|apply rtc_refl].
Qed.
End effects.

(** ** A node that serves peers and requests *)

Inductive server_event := Net (e : net_event) | Http (rq : Request).

Section runs.
Context {St : Type} `{BS : BlockStore St} `{EN : Engine} {EC : ECOps} {WO : WalletOps}.
Context {PS : Type} `{PST : PeerStore PS}.
Context (cenv : Env) (nenv : NetEnv) (wenv : WalletEnv) (renv : RpcEnv).
Implicit Types (s : Server (St := St) (PS := PS)) (rq : Request).

Definition server_step s (e : server_event) : Server (St := St) (PS := PS) :=
  match e with
  | Net e => set_node (net_step cenv nenv (sv_node s) e) s
  | Http rq => (serve_http cenv nenv wenv renv rq s).2
  end.
Definition server_run s (es : list server_event) : Server (St := St) (PS := PS) := fold_left server_step es s.

(** *** What never changes *)

Record same_config s s' : Prop := {
  sc_params : sv_params s' = sv_params s;
  sc_user : sv_authUser s' = sv_authUser s;
  sc_password : sv_authPassword s' = sv_authPassword s }.
#[export] Instance same_config_refl : Reflexive same_config.
Proof. by constructor. Qed.
#[export] Instance same_config_trans : Transitive same_config.
Proof. intros s1 s2 s3 [] []. constructor; congruence. Qed.

Lemma effect_config rq s s' : effect cenv nenv wenv renv rq s s' -> same_config s s'.
Proof. by destruct 1. Qed.
Lemma step_config s e : same_config s (server_step s e).
Proof.
  destruct e as [e|rq]; [done|]. cbn [server_step].
  induction (serve_effects cenv nenv wenv renv rq s) as [|s1 s2 s3 H _ IH]; [done|].
  etrans; [by eapply effect_config|exact IH].
Qed.

(** *** What a GET leaves alone *)

(** What a wallet becomes without a POST: it derives addresses, locks, or has its file
    rewritten. *)
Definition get_wallet : HDWallet -> HDWallet -> Prop :=
  rtc (fun w w' => ops_from wenv w w' \/ exists f, w' = set_disk f (w_tick w) w).

(** Chain, pool, fee rate and stop flag are the same, the wallet only derived addresses or
    locked; its file can be rewritten by a backup to itself, which needs it to be below the
    working directory. *)
Record get_frame s s' : Prop := {
  gf_chain : sv_chain s' = sv_chain s;
  gf_pool : sv_pool s' = sv_pool s;
  gf_fee : sv_feePerByte s' = sv_feePerByte s;
  gf_stop : sv_stopping s' = sv_stopping s;
  gf_wallet : match sv_wallet s with
              | None => sv_wallet s' = None
              | Some w => exists w', sv_wallet s' = Some w' /\ get_wallet w w'
                  /\ (re_wallet_path renv = [] -> ops_from wenv w w')
              end }.
Lemma ops_from_trans w1 w2 w3 : ops_from wenv w1 w2 -> ops_from wenv w2 w3 -> ops_from wenv w1 w3.
Proof.
  intros (ops & Ho & ->) (ops' & Ho' & ->). exists (ops ++ ops'). split; [by apply Forall_app|].
  unfold wallet_run. by rewrite fold_left_app.
Qed.
#[export] Instance get_frame_refl : Reflexive get_frame.
Proof.
  intros s. constructor; try done. destruct (sv_wallet s) as [w|]; [|done]. exists w.
  split_and!; [done|apply rtc_refl|intros _; apply ops_from_refl].
Qed.
#[export] Instance get_frame_trans : Transitive get_frame.
Proof.
  intros s1 s2 s3 [] [H1 H2 H3 H4 H5]. constructor; try congruence.
  destruct (sv_wallet s1) as [w|]; [|by rewrite gf_wallet0 in H5].
  destruct gf_wallet0 as (w2 & E2 & R2 & O2). rewrite E2 in H5. destruct H5 as (w3 & E3 & R3 & O3).
  exists w3. split_and!; [done|by etrans|]. intros E. by eapply ops_from_trans; [apply O2|apply O3].
Qed.

Lemma effect_get rq s s' : rq_post rq = false -> effect cenv nenv wenv renv rq s s' -> get_frame s s'.
Proof.
  intros Hp. destruct 1 as [s w w' E H| | |s m [Hc Hm _ _ _]| | |s w fs f E Hd| | ]; try congruence.
  - constructor; try done. rewrite E. exists w'. split_and!; [done|apply rtc_once; by left|done].
  - constructor; try done. simpl. destruct (sv_wallet s) as [w|]; [|done]. exists w.
    split_and!; [done|apply rtc_refl|intros _; apply ops_from_refl].
  - constructor; try done. rewrite E. eexists. split_and!; [done|apply rtc_once; right; by eexists|].
    intros E0. rewrite (Hd E0). destruct w. apply ops_from_refl.
Qed.

(** *** The invariant *)

Context (Hknown : forall X, ne_known nenv X ≡ₚ elements X) (ver : byte).

Definition wallet_inv s : Prop :=
  (exists w, sv_wallet s = Some w /\ wallet_reachable wenv ver w) /\ 0 <= sv_feePerByte s <= maxFeePerByte.

Lemma effect_wallet_inv rq s s' : effect cenv nenv wenv renv rq s s' -> wallet_inv s -> wallet_inv s'.
Proof.
  destruct 1 as [s w w' E H|s w o Hp E|s w k Hp E|s m H|s tx mp h Hp E|s b r Hp E|s w fs f E Hd|s fee Hp Hf|s Hp];
    intros [(w0 & E0 & Hw) Hfee]; split; try (by exists w0); try done;
    rewrite E in E0; injection E0 as <-; eexists; split; try reflexivity.
  - by eapply ops_from_reachable.
  - by apply wr_step.
  - by apply wr_import.
  - by apply wr_disk.
Qed.
Lemma step_wallet_inv s e : wallet_inv s -> wallet_inv (server_step s e).
Proof.
  destruct e as [e|rq]; [done|]. cbn [server_step].
  induction (serve_effects cenv nenv wenv renv rq s) as [|s1 s2 s3 H _ IH]; [done|]. intros Hi.
  by eapply IH, effect_wallet_inv.
Qed.

Lemma effect_chain rq s s' : effect cenv nenv wenv renv rq s s' -> chain_step cenv (sv_node s) (sv_node s').
Proof.
  destruct 1 as [s w w' E H|s w o Hp E|s w k Hp E|s m H|s tx mp h Hp E|s b r Hp E|s w fs f E Hd|s fee Hp Hf|s Hp]; try by left.
  - by apply framed_chain_step.
  - left. simpl. by rewrite (fr_chain _ _ (framed_BroadcastTx nenv Hknown h _)).
  - right. by exists b.
Qed.
End runs.
