(* ===== verification/RpcProps.v ===== *)
(** * What the RPC server can and cannot do

    The invariants of the node and of the wallet under any requests, payments, numbers in
    requests, block queries, access control, block submission and backups. *)
From S2P Require Import Prelude.
From S2P Require Import Types.
From S2P Require Import Sha256.
From S2P Require Import Crypto.
From S2P Require Import Params.
From S2P Require Import Script.
From S2P Require Import Target.
From S2P Require Import Base58.
From S2P Require Import Utxo.
From S2P Require Import Wallet.
From S2P Require Import WalletInv.
From S2P Require Import WalletProps.
From S2P Require Import TxValidation.
From S2P Require Import BlockValidation.
From S2P Require Import Pow.
From S2P Require Import Ledger.
From S2P Require Import Store.
From S2P Require Import FileLaws.
From S2P Require Import Chain.
From S2P Require Import ChainInv.
From S2P Require Import Reorg.
From S2P Require Import Accept.
From S2P Require Import ChainSafety.
From S2P Require Import Mempool.
From S2P Require Import WalletTx.
From S2P Require Import Miner.
From S2P Require Import ChainProps.
From S2P Require Import Protocol.
From S2P Require Import TimeAdjust.
From S2P Require Import Peer.
From S2P Require Import SeenSet.
From S2P Require Import Manager.
From S2P Require Import NodeInv.
From S2P Require Import Sync.
From S2P Require Import Gossip.
From S2P Require Import NodeProps.
From S2P Require Import Rpc.
From S2P Require Import RpcInv.
#[local] Open Scope Z_scope.
#[local] Open Scope go_scope.

Section safety.
Context {St : Type} `{BS : BlockStore St} {BL : BlockStoreLaws St} `{EN : Engine} {EL : EngineLaws} {EC : ECOps} {WO : WalletOps}.
Context {PS : Type} `{PST : PeerStore PS}.
Context (cenv : Env) (nenv : NetEnv) (wenv : WalletEnv) (renv : RpcEnv).
Context (Hknown : forall X, ne_known nenv X ≡ₚ elements X).
Context (p : ChainParams) (U : list Block) (HU : universe p U).
Context (Htip : forall (s : St) h n, (PutChainTip s h n).1 = Ok tt).
Implicit Types (s : Server (St := St) (PS := PS)) (rq : Request).

(** The blocks that events and requests bring come from [U]. *)
Definition request_ok rq : Prop := forall b r, blk_Deserialize (rq_body rq) = Ok (b, r) -> b ∈ U.
Definition server_event_ok (e : server_event) : Prop :=
  match e with Net e => event_ok U e | Http rq => request_ok rq end.

Lemma effect_improves rq s s' :
  request_ok rq -> effect cenv nenv wenv renv rq s s' -> node_ok p U (sv_node s) -> live (sv_chain s') ->
  improves p U (sv_node s) (sv_node s').
Proof.
  intros Hrq He Hn. destruct He as [s w w' E H|s w o Hp E|s w k Hp E|s m H|s tx mp h Hp E|s b r Hp E|s w fs f E Hd|s fee Hp Hf|s Hp];
    intros L; try by apply improves_refl.
  - by apply framed_improves.
  - eapply improves_framed; [|by apply framed_BroadcastTx]. apply pool_improves; [by apply improves_refl|].
    eapply Mempool.reach_step; [apply (no_pool _ _ _ Hn)|by eapply step_add].
  - apply (submit_improves cenv p U HU Htip); [done|by eapply Hrq|exact L].
Qed.

Lemma effects_improve rq s s' :
  request_ok rq -> rtc (effect cenv nenv wenv renv rq) s s' -> node_ok p U (sv_node s) -> live (sv_chain s') ->
  improves p U (sv_node s) (sv_node s').
Proof.
  intros Hrq H. induction H as [s|s1 s2 s3 H1 H2 IH]; intros Hn L; [by apply improves_refl|].
  assert (live (sv_chain s2)) as L2.
  { clear -H2 L Hknown. induction H2 as [s|s1 s2 s3 H1 _ IH]; [done|]. apply IH in L.
    apply (effect_chain _ _ _ _ Hknown) in H1 as [E|[b E]]; unfold sv_chain in *; rewrite E in L; [done|].
    by apply (mono_ProcessBlock cenv b). }
  destruct (effect_improves rq s1 s2 Hrq H1 Hn L2) as [Hn2 Hw]. destruct (IH Hn2 L) as [Hn3 Hw']. split; [done|lia].
Qed.

Lemma server_step_improves s e :
  server_event_ok e -> node_ok p U (sv_node s) -> live (sv_chain (server_step cenv nenv wenv renv s e)) ->
  improves p U (sv_node s) (sv_node (server_step cenv nenv wenv renv s e)).
Proof.
  destruct e as [e|rq]; intros He Hn L; [by apply net_step_improves|].
  eapply effects_improve; [exact He|apply serve_effects|done|exact L].
Qed.

Lemma server_step_live s e :
  server_event_ok e -> live (sv_chain (server_step cenv nenv wenv renv s e)) -> live (sv_chain s).
Proof.
  destruct e as [e|rq]; intros He; [by apply (net_step_live cenv nenv Hknown U)|]. cbn [server_step].
  induction (serve_effects cenv nenv wenv renv rq s) as [|s1 s2 s3 H _ IH]; [done|]. intros L. apply IH in L.
  apply (effect_chain _ _ _ _ Hknown) in H as [E|[b E]]; unfold sv_chain in *; rewrite E in L; [done|].
  by apply (mono_ProcessBlock cenv b).
Qed.

Lemma server_run_live es s :
  Forall server_event_ok es -> live (sv_chain (server_run cenv nenv wenv renv s es)) -> live (sv_chain s).
Proof.
  intros Hes. revert s. induction Hes as [|e es He _ IH]; intros s L; [done|]. apply IH in L. by eapply server_step_live.
Qed.

(** The node is consistent, its chain has the work it had, wallet and fee rate are sound. *)
Lemma server_run_improves ver es s :
  Forall server_event_ok es -> node_ok p U (sv_node s) -> wallet_inv wenv ver s ->
  live (sv_chain (server_run cenv nenv wenv renv s es)) ->
  improves p U (sv_node s) (sv_node (server_run cenv nenv wenv renv s es))
  /\ wallet_inv wenv ver (server_run cenv nenv wenv renv s es).
Proof.
  intros Hes. revert s. induction Hes as [|e es He Hes IH]; intros s Hn Hw L; [split; [by apply improves_refl|done]|].
  destruct (server_step_improves s e He Hn (server_run_live es _ Hes L)) as [H1 Hw1].
  destruct (IH (server_step cenv nenv wenv renv s e) H1 (step_wallet_inv cenv nenv wenv renv ver s e Hw) L) as [[H2 Hw2] H3].
  split; [|done]. split; [done|].
  change (server_run cenv nenv wenv renv s (e :: es)) with (server_run cenv nenv wenv renv (server_step cenv nenv wenv renv s e) es). lia.
Qed.

(** C1. Neither peers nor RPC clients can break the node.  Start a node on an empty store
    with an empty pool and a wallet, and let anything happen in any order: peers join,
    leave and send any messages, timers tick, blocks are mined, requests of any kind
    arrive.  The unspent set is still the replay of the active chain, the tip has at least
    the work it had, the mempool satisfies its invariant, every peer's inventory and queue
    are within bounds, the wallet is one that wallet operations reach, and the fee rate is
    within its limit.  Assumed: the blocks received or submitted are hashed without
    collision and contain no 64-byte transaction ([universe]), the store stays within its
    address space (for the repository's own store: the disk does not fill up), and the tip
    write does not fail. *)
Theorem server_safe ver (st0 : St) c cfg mpSet ps clock w random write_fails files auth sv es :
  is_u32 (p_MaxMempoolSize p) -> empty_store st0 -> Init (New p st0) = (Ok tt, c) -> wallet_reachable wenv ver w ->
  NewServer random write_fails files (NewManager cfg c (SetTipHeight (mp_New p) (c_tipHeight c)) mpSet ps clock) w p auth = Ok sv ->
  Forall server_event_ok es ->
  let sv' := server_run cenv nenv wenv renv sv es in
  live (sv_chain sv') ->
  (exists bs, replay p bs = Some (UtxoSet_of (sv_chain sv')) /\ c_tipHeight (sv_chain sv') = len bs)
  /\ c_tipWork c <= c_tipWork (sv_chain sv')
  /\ mp_inv (sv_pool sv')
  /\ (forall a q, m_peers (sv_node sv') !! a = Some q ->
       p_addr q = a /\ Z.of_nat (size (p_knownInv q)) <= 10000 /\ len (p_sendQueue q) <= 1024)
  /\ (exists w', sv_wallet sv' = Some w' /\ wallet_reachable wenv ver w')
  /\ 0 <= sv_feePerByte sv' <= 10000.
Proof.
  intros Hmp He Hinit Hw Hnew Hes sv' L.
  assert (sv_node sv = NewManager cfg c (SetTipHeight (mp_New p) (c_tipHeight c)) mpSet ps clock
    /\ sv_wallet sv = Some w /\ sv_feePerByte sv = defaultFeePerByte) as (Em & Ew & Ef).
  { unfold NewServer in Hnew. destruct auth as [auth|]; [|by injection Hnew as <-].
    destruct (initAuth random write_fails auth) as [[[user password] cookie]|]; [|done]. by injection Hnew as <-. }
  assert (live (m_chain (sv_node sv))) as L0 by (by eapply server_run_live).
  assert (node_ok p U (sv_node sv)) as Hn.
  { rewrite Em in *. constructor; [by eapply Init_empty| |by intros a q Hq].
    eapply Mempool.reach_step; [apply Mempool.reach_new|apply step_tip]. }
  assert (wallet_inv wenv ver sv) as Hwi.
  { split; [by exists w|by rewrite Ef]. }
  destruct (server_run_improves ver es sv Hes Hn Hwi L) as [[[Hc Hpool Hpe] Hwork] [Hwal Hfee]]. fold sv' in Hc, Hpool, Hpe, Hwork, Hwal, Hfee.
  rewrite Em in Hwork. split_and!; [|exact Hwork|by apply (mp_reachable_inv p)|exact Hpe|exact Hwal|apply Hfee|apply Hfee].
  destruct (ci_main _ _ _ Hc) as [bs (Ha & Hh & _)]. exists bs. split; [apply (ac_replay _ _ _ _ _ _ _ Ha)|done].
Qed.
End safety.

(** ** Payments *)

Section payments.
Context {St : Type} `{BS : BlockStore St} {BL : BlockStoreLaws St} `{EN : Engine} {EC : ECOps} {ECL : ECLaws EC} {WO : WalletOps}.
Context {PS : Type} `{PST : PeerStore PS}.
Context (cenv : Env) (nenv : NetEnv) (wenv : WalletEnv) (renv : RpcEnv).
Context (Hknown : forall X, ne_known nenv X ≡ₚ elements X) (p : ChainParams) (U : list Block) (HU : universe p U).
Implicit Types (s : Server (St := St) (PS := PS)) (rq : Request).

(** The unspent set of a consistent chain meets what the wallet assumes. *)
Lemma chain_coins (c : Chain St) :
  chain_inv p U c ->
  wf_utxo (UtxoSet_of c) /\ utxo_keys (UtxoSet_of c) /\ 0 <= c_tipHeight c < 2^32 - 1.
Proof.
  intros Hc. destruct (ci_main _ _ _ Hc) as (bs & Ha & Hh & _). pose proof Hc as [_ _ Hi _ _ _ _].
  pose proof (linked_length p U HU _ _ _ Hi (ac_linked _ _ _ _ _ _ _ Ha)) as Hl.
  pose proof (active_coins p U HU _ _ _ _ _ Hi Ha) as Hco. split_and!; [|split|rewrite Hh; lia|rewrite Hh; lia].
  - intros k e Hk. by apply Hco in Hk as (_ & ? & _).
  - intros k [e Hk]. by apply Hco in Hk as (? & _).
  - apply (replay_not_null p (un_genesis_ok _ _ HU) bs); [apply Ha|apply (un_txs HU)|lia].
    eapply linked_Forall. apply (ac_linked _ _ _ _ _ _ _ Ha).
Qed.

(** C9. [sendtoaddress] pays: when it answers with a transaction id on a consistent node, the
    pool has a transaction with that id, made of the wallet's coins of the active chain,
    that pays exactly the amount asked to the address, sends the rest back to the wallet
    but for a fee at the server's rate, and obeys the rule for the next block; the chain,
    the other transactions of the pool and the fee rate are as before.  No assumption is
    made on the amount; the unspent set must hold at most the money supply. *)
Theorem sendtoaddress_pays ver s rq v s' :
  chain_inv p U (sv_chain s) -> wallet_inv wenv ver s -> sv_params s = p ->
  re_rows renv (UtxoSet_of (sv_chain s)) ≡ₚ ForEach (UtxoSet_of (sv_chain s)) ->
  utxo_sum (UtxoSet_of (sv_chain s)) <= MaxMoneyValue -> Z.of_nat (size (UtxoSet_of (sv_chain s))) < 2^42 ->
  handleSendToAddress nenv wenv renv rq s = (ROk v, s') ->
  exists amount w' tx h change fee te,
    ParseUint (rq_query rq "amount") 64 = (amount, None)
    /\ v = JStr (ReverseString (HashTransaction tx))
    /\ mp_txs (sv_pool s') = <[HashTransaction tx := te]> (mp_txs (sv_pool s)) /\ te_Tx te = tx
    /\ sv_wallet s' = Some w' /\ sv_chain s' = sv_chain s /\ sv_feePerByte s' = sv_feePerByte s
    /\ good_payment ver (UtxoSet_of (sv_chain s)) p (c_tipHeight (sv_chain s))
         {| sr_ToAddress := rq_query rq "address"; sr_Amount := amount |} (sv_feePerByte s) w' tx h change fee.
Proof.
  intros Hc [(w0 & Ew & Hr) Hfee] Ep Hrows Hsum Hsize.
  destruct (chain_coins (sv_chain s) Hc) as (Hwf & Hkeys & Htip).
  unfold handleSendToAddress, requirePOST, with_unlocked, requireWallet. destruct (rq_post rq); [|done]. rewrite Ew.
  pose proof (ops_from_reachable wenv ver _ _ (ops_RequireUnlocked wenv w0 w0 (ops_from_refl wenv w0)) Hr) as Hr1.
  destruct (RequireUnlocked wenv w0) as [[|] w]; cbn [snd] in Hr1; [|done]. cbv zeta.
  destruct (_ || _); [done|]. pose proof (ParseUint_nonneg (rq_query rq "amount") 64 ltac:(lia)) as Ha.
  destruct (ParseUint (rq_query rq "amount") 64) as [amount [|]]; [done|]. cbn [fst] in Ha.
  set (req := {| sr_ToAddress := _; sr_Amount := _ |}). cbn [set_wallet sv_feePerByte sv_params]. rewrite Ep.
  unfold makeUtxoIterator, tip_height. change (sv_chain (set_wallet w s)) with (sv_chain s).
  change (Tip (sv_chain s)).2 with (c_tipHeight (sv_chain s)).
  destruct (BuildTransaction _ _ _ _ _ _ w) as [[tx|e] w'] eqn:Eb; [|done].
  set (s2 := set_wallet w' (set_wallet w s)). unfold submitTxToMempool.
  destruct (AddTx _ _ tx) as [[mp h0]|e] eqn:Et; [|done]. intros [= <- <-].
  assert (no_overflow (UtxoSet_of (sv_chain s)) req (sv_feePerByte s)) as Hno.
  { constructor; [done|lia| |].
    - unfold size_for, txOverhead, estimatedInputSize, estimatedOutputSize, maxFeePerByte in *. nia.
    - destruct (BuildTransaction_dest _ _ _ _ _ _ _ _ _ Eb) as (o & l & Eo & <-).
      apply pool_outputs_max in Et. rewrite Eo in Et. apply Forall_cons in Et as [Ho _].
      destruct (BuildTransaction_dest _ _ _ _ _ _ _ _ _ Eb) as (o' & l' & Eo' & E'). rewrite Eo in Eo'.
      injection Eo' as <- <-. unfold MaxMoneyValue in Ho. rewrite E' in *. simpl in *. lia. }
  destruct (BuildTransaction_good wenv ver (UtxoSet_of (sv_chain s)) p (c_tipHeight (sv_chain s)) _ w req
    (sv_feePerByte s) tx w' (wallet_reachable_ring _ _ _ Hr1) Hwf Hkeys Hrows Htip Hno Eb) as (_ & h & change & fee & Hg).
  apply AddTx_Ok in Et as (fee' & _ & _ & _ & _ & _ & _ & _ & E). injection E as -> ->.
  exists amount, w', tx, h, change, fee, (make_entry tx fee'). split_and!; try done.
  - unfold sv_pool. cbn [set_node sv_node]. by rewrite (fr_mempool _ _ (framed_BroadcastTx nenv Hknown _ _)).
  - unfold sv_chain. cbn [set_node sv_node]. by rewrite (fr_chain _ _ (framed_BroadcastTx nenv Hknown _ _)).
Qed.
End payments.

(** ** Numbers in decimal *)

Definition digit_char (d : Z) : byte := byte.of_Z (48 + d).

Lemma digit_char_value d : 0 <= d < 10 -> digit_value (digit_char d) = Some d.
Proof.
  intros Hd. unfold digit_value, digit_char. rewrite byte.unsigned_of_Z. unfold byte.wrap.
  rewrite Z.mod_small by lia. rewrite (proj2 (Z.leb_le 48 _)), (proj2 (Z.leb_le _ 57)) by lia. simpl. f_equal. lia.
Qed.

(** The loop over the digits of a number, most significant first. *)
Lemma uint_loop_digits maxVal ds : Forall (fun d => 0 <= d < 10) ds -> forall rest,
  uint_loop maxVal 0 (map digit_char (rev ds) ++ rest)
  = if value 10 ds <=? maxVal then uint_loop maxVal (value 10 ds) rest
    else match ds with [] => uint_loop maxVal 0 rest | _ => (maxVal, Some ErrRange) end.
Proof.
  induction 1 as [|d ds Hd Hds IH]; intros rest; [simpl; by destruct (_ <=? _)|].
  cbn [rev]. rewrite map_app, <- app_assoc, IH. clear IH. cbn [map app value uint_loop].
  assert (0 <= value 10 ds) as Hv by (clear -Hds; induction Hds; simpl; lia).
  assert (value 10 ds * 10 + d = d + 10 * value 10 ds) as E by lia.
  destruct (Z.leb_spec (value 10 ds) maxVal) as [H1|H1]; rewrite digit_char_value by done.
  - rewrite E. destruct (Z.gtb_spec (d + 10 * value 10 ds) maxVal), (Z.leb_spec (d + 10 * value 10 ds) maxVal); try lia; done.
  - destruct (Z.leb_spec (d + 10 * value 10 ds) maxVal); [lia|]. destruct ds as [|d' ds]; [|done].
    cbn [value] in *. destruct (Z.gtb_spec (0 * 10 + d) maxVal); [done|lia].
Qed.

(** The decimal form: digits, at least one. *)
Lemma decimal_digits x : 0 <= x ->
  exists ds, decimal x = map digit_char (rev ds) /\ ds <> [] /\ Forall (fun d => 0 <= d < 10) ds /\ value 10 ds = x.
Proof.
  intros Hx. unfold decimal. destruct (Z.eqb_spec x 0) as [->|H0].
  - exists [0]. split_and!; [done|done| |done]. repeat constructor; lia.
  - assert (0 <= x < 2 ^ Z.of_nat (Z.to_nat (BitLen x))) as Hb.
    { split; [done|]. unfold BitLen. pose proof (Z.log2_spec x ltac:(lia)) as [_ H]. pose proof (Z.log2_nonneg x).
      destruct (Z.eqb_spec x 0) as [|_]; [done|]. rewrite Z.abs_eq, Z2Nat.id by lia. by rewrite <- Z.add_1_r in H. }
    destruct (digits_of_spec 10 ltac:(lia) _ x Hb) as [[Hd _] Hv]. eexists. split; [reflexivity|]. split_and!; [|exact Hd|exact Hv].
    intros E. rewrite E in Hv. simpl in Hv. lia.
Qed.

Lemma ParseUint_decimal x bits : 0 <= x -> 0 <= bits ->
  ParseUint (decimal x) bits = if x <? 2^bits then (x, None) else (2^bits - 1, Some ErrRange).
Proof.
  intros Hx Hb. destruct (decimal_digits x Hx) as (ds & -> & Hne & Hd & <-).
  pose proof (uint_loop_digits (2^bits - 1) ds Hd []) as H. rewrite app_nil_r in H. cbn [uint_loop] in H.
  assert (ParseUint (map digit_char (rev ds)) bits = uint_loop (2^bits - 1) 0 (map digit_char (rev ds))) as ->.
  { destruct (map digit_char (rev ds)) as [|c l] eqn:E; [|done]. apply map_eq_nil in E.
    destruct ds; [done|]. by apply app_eq_nil in E as [_ ?]. }
  rewrite H. destruct (Z.leb_spec (value 10 ds) (2^bits - 1)), (Z.ltb_spec (value 10 ds) (2^bits)); try lia; [done|].
  by destruct ds.
Qed.

Lemma digit_cases d (P : Z -> Prop) : 0 <= d < 10 -> P 0 -> P 1 -> P 2 -> P 3 -> P 4 -> P 5 -> P 6 -> P 7 -> P 8 -> P 9 -> P d.
Proof.
  intros H ? ? ? ? ? ? ? ? ? ?.
  assert (d = 0 \/ d = 1 \/ d = 2 \/ d = 3 \/ d = 4 \/ d = 5 \/ d = 6 \/ d = 7 \/ d = 8 \/ d = 9) as E by lia.
  by repeat destruct E as [->|E]; [..|subst].
Qed.

(** A digit is neither white space nor a sign. *)
Lemma digit_char_plain d l : 0 <= d < 10 ->
  Byte.eqb (digit_char d) newline = false /\ space_width (digit_char d :: l) = None
  /\ Byte.eqb (digit_char d) Byte.x2d = false /\ Byte.eqb (digit_char d) Byte.x2b = false.
Proof. intros Hd. apply (digit_cases d); [exact Hd|..]; by split_and!. Qed.

Lemma digits_prefix_digits ds : Forall (fun d => 0 <= d < 10) ds -> digits_prefix (map digit_char ds) = map digit_char ds.
Proof. induction 1 as [|d ds Hd _ IH]; [done|]. cbn [map digits_prefix]. by rewrite digit_char_value, IH. Qed.

(** The first digit of a decimal form. *)
Lemma decimal_head x : 0 <= x -> exists d es, decimal x = map digit_char (d :: es) /\ Forall (fun d => 0 <= d < 10) (d :: es).
Proof.
  intros Hx. destruct (decimal_digits x Hx) as (ds & -> & Hne & Hd & _). apply Forall_rev in Hd.
  destruct (rev ds) as [|d es] eqn:E; [|by exists d, es]. apply (f_equal (@rev Z)) in E. by rewrite rev_involutive in E.
Qed.

Lemma Sscanf_decimal x : 0 <= x -> Sscanf_uint32 (decimal x) = if x <? 2^32 then Some x else None.
Proof.
  intros Hx. pose proof (ParseUint_decimal x 64 Hx ltac:(lia)) as HP.
  destruct (decimal_head x Hx) as (d & es & E & Hd). rewrite E in HP |- *. unfold Sscanf_uint32.
  apply Forall_cons in Hd as Hd'. destruct Hd' as [Hd0 _]. cbn [map length skip_space].
  destruct (digit_char_plain d (map digit_char es) Hd0) as (-> & -> & _).
  change (digit_char d :: map digit_char es) with (map digit_char (d :: es)). rewrite digits_prefix_digits by done.
  rewrite HP. destruct (Z.ltb_spec x (2^64)); [done|]. destruct (Z.ltb_spec x (2^32)); [lia|done].
Qed.

Lemma ParseInt64_decimal x : 0 <= x -> ParseInt64 (decimal x) = if x <? 2^63 then (x, None) else (2^63 - 1, Some ErrRange).
Proof.
  intros Hx. pose proof (ParseUint_decimal x 64 Hx ltac:(lia)) as HP.
  destruct (decimal_head x Hx) as (d & es & E & Hd). rewrite E in HP |- *.
  apply Forall_cons in Hd as [Hd0 _]. cbn [map] in *. unfold ParseInt64.
  destruct (digit_char_plain d (map digit_char es) Hd0) as (_ & _ & -> & ->). cbn [orb]. rewrite HP. cbn [negb andb].
  destruct (Z.ltb_spec x (2^64)), (Z.ltb_spec x (2^63)); try lia.
  - destruct (Z.geb_spec x (2^63)); [lia|done].
  - destruct (Z.geb_spec x (2^63)); [done|lia].
  - done.
Qed.

(** Numbers in requests are read exactly: the decimal form of [x] is read back as [x] by
    each of the three parsers when it fits their width (64 bits unsigned, 63 bits, 32
    bits); when it does not, [ParseUint] and [ParseInt] report the range error with the
    largest value, and [Sscanf] fails. *)
Theorem numbers_read_back x :
  0 <= x ->
  ParseUint (decimal x) 64 = (if x <? 2^64 then (x, None) else (2^64 - 1, Some ErrRange))
  /\ ParseUint (decimal x) 32 = (if x <? 2^32 then (x, None) else (2^32 - 1, Some ErrRange))
  /\ ParseInt64 (decimal x) = (if x <? 2^63 then (x, None) else (2^63 - 1, Some ErrRange))
  /\ Sscanf_uint32 (decimal x) = (if x <? 2^32 then Some x else None).
Proof. intros Hx. split_and!; [apply ParseUint_decimal|apply ParseUint_decimal|apply ParseInt64_decimal|apply Sscanf_decimal]; lia. Qed.

Lemma numbers_read_back_witness :
  ParseUint (bytes_of_string "18446744073709551616") 64 = (18446744073709551615, Some ErrRange)
  /\ Sscanf_uint32 (decimal 4294967295) = Some 4294967295.
Proof.
  split.
  - exact (proj1 (numbers_read_back (2^64) ltac:(lia))).
  - exact (proj2 (proj2 (proj2 (numbers_read_back 4294967295 ltac:(lia))))).
Defined.

(** ** Block queries *)

Section queries.
Context {St : Type} `{BS : BlockStore St} {BL : BlockStoreLaws St} `{EN : Engine} {EC : ECOps} {WO : WalletOps}.
Context {PS : Type} `{PST : PeerStore PS}.
Context (p : ChainParams) (U : list Block) (HU : universe p U).
Implicit Types (s : Server (St := St) (PS := PS)) (rq : Request) (c : Chain St).
#[local] Abbreviation all bs := (p_GenesisBlock p :: bs).

(** A block of the active chain, the genesis block included, is the only one its hash can
    stand for. *)
Lemma main_block c bs i b b' :
  chain_inv p U c -> main_of p U c bs -> all bs !! i = Some b ->
  GetBlock (c_store c) (block_hash b) = Ok b' -> b' = b.
Proof.
  intros Hc Hm Hb H. destruct i as [|i]; [|by eapply (block_at p U HU c bs i)].
  injection Hb as <-. pose proof Hc as [_ Ho Hi _ _ _ _]. apply (GetBlock_rec p U) in H as (r & Hr & Hrec); [|done|done].
  eapply (rec_unique p U HU); [exact Hrec|apply (un_genesis _ _ HU)|apply (un_genesis_valid _ _ HU)|done].
Qed.

(** The maps of heights agree with the list. *)
Lemma main_hash c bs i b :
  main_of p U c bs -> all bs !! i = Some b ->
  c_hashByHeight c !! Z.of_nat i = Some (block_hash b) /\ c_heightByHash c !! block_hash b = Some (Z.of_nat i).
Proof.
  intros (Ha & _) Hb. split; [|by apply (ac_hbh _ _ _ _ _ _ _ Ha)]. rewrite (ac_bhh _ _ _ _ _ _ _ Ha).
  destruct (Z.ltb_spec (Z.of_nat i) 0); [lia|]. by rewrite Nat2Z.id, Hb.
Qed.

Lemma main_header c bs i b hd :
  chain_inv p U c -> main_of p U c bs -> all bs !! i = Some b ->
  GetHeaderByHeight c (Z.of_nat i) = Ok hd -> HashBlockHeader hd = block_hash b.
Proof.
  intros Hc Hm Hb. destruct (main_hash c bs i b Hm Hb) as [Hh _]. unfold GetHeaderByHeight. rewrite Hh, rwrap_Ok.
  pose proof Hc as [_ Ho Hi _ _ _ _]. intros Hg. apply GetHeader_sound in Hg as (r & Hr & <-); [|done].
  destruct (Hi _ _ Hr) as [b' Hrec]. rewrite (ro_header _ _ _ _ _ _ Hrec). apply (ro_hash _ _ _ _ _ _ Hrec).
Qed.

Lemma main_bound c bs i b : chain_inv p U c -> main_of p U c bs -> all bs !! i = Some b -> Z.of_nat i < 2^32.
Proof.
  intros Hc (Ha & _) Hb. pose proof Hc as [_ _ Hi _ _ _ _]. apply lookup_lt_Some in Hb.
  pose proof (linked_length p U HU _ _ _ Hi (ac_linked _ _ _ _ _ _ _ Ha)). cbn [length] in Hb. lia.
Qed.

Lemma with_param_value name v (h : list byte -> handler) rq s :
  rq_query rq name = v -> v <> [] -> with_param name h rq s = h v rq s.
Proof. intros E Hv. unfold with_param. by rewrite E, bool_decide_false. Qed.

Lemma decimal_nonempty x : 0 <= x -> decimal x <> [].
Proof. intros Hx. destruct (decimal_head x Hx) as (d & es & -> & _). done. Qed.

(** C12. The block queries describe the active chain: on a consistent node the count is the
    height of the tip, and for each block [b] of the chain, the genesis block included,
    asking by its height or by its hash gives, in hexadecimal with the bytes reversed, the
    hash of its header, its Merkle root, its previous block and the hash of each of its
    transactions in order; its version, time, nonce, bits, height and number of
    transactions; and [tip - height + 1] confirmations.  The only other answer is 404, when
    the store cannot read the block.  Heights above the tip give 404. *)
Theorem block_queries_exact s bs :
  chain_inv p U (sv_chain s) -> main_of p U (sv_chain s) bs ->
  (forall rq, handleGetBlockCount rq s = (ROk (JNum (len bs)), s))
  /\ (forall i b, all bs !! i = Some b ->
        let shown (h : Hash) := JStr (hex_EncodeToString (rev h)) in
        let h := blk_Header b in
        let describe :=
          [field "hash" (shown (HashBlockHeader h)); field "confirmations" (JNum (len bs - Z.of_nat i + 1));
           field "height" (JNum (Z.of_nat i)); field "version" (JNum (hdr_Version h));
           field "merkleroot" (shown (hdr_MerkleRoot h));
           field "tx" (JArr (map (fun tx => shown (HashTransaction tx)) (blk_Transactions b)));
           field "time" (JNum (hdr_Timestamp h)); field "nonce" (JNum (hdr_Nonce h));
           field "bits" (JStr (hex8 (hdr_Bits h))); field "previousblockhash" (shown (hdr_PrevBlock h));
           field "nTx" (JNum (len (blk_Transactions b)))] in
        (forall rq, rq_query rq "height" = decimal (Z.of_nat i) ->
           fst (handleGetBlockHash rq s) = match GetHeader (c_store (sv_chain s)) (block_hash b) with
             | Ok _ => ROk (JStr (ReverseString (block_hash b))) | Err _ => RErr 404 BlockNotFound end
           /\ fst (handleGetBlockByHeight rq s) = match GetBlock (c_store (sv_chain s)) (block_hash b) with
             | Ok _ => ROk (JObj describe) | Err _ => RErr 404 BlockNotFound end)
        /\ (forall rq, rq_query rq "hash" = ReverseString (block_hash b) ->
           fst (handleGetBlock rq s) = match GetBlock (c_store (sv_chain s)) (block_hash b) with
             | Ok _ => ROk (JObj (field "size" (JNum 0) :: describe)) | Err _ => RErr 404 BlockNotFound end))
  /\ (forall rq z, len bs < z < 2^32 -> rq_query rq "height" = decimal z ->
        fst (handleGetBlockHash rq s) = RErr 404 BlockNotFound
        /\ fst (handleGetBlockByHeight rq s) = RErr 404 BlockNotFound).
Proof.
  intros Hc Hm. pose proof Hm as (Ha & Ht & _). split_and!.
  - intros rq. unfold handleGetBlockCount, tip_height. simpl. by rewrite Ht.
  - intros i b Hb. pose proof (main_bound _ bs i b Hc Hm Hb) as Hi32.
    destruct (main_hash _ bs i b Hm Hb) as [Hh Hz]. cbv zeta. split.
    + intros rq Hq. unfold handleGetBlockHash, handleGetBlockByHeight.
      rewrite !(with_param_value _ _ _ rq s Hq) by (apply decimal_nonempty; lia).
      rewrite Sscanf_decimal, (proj2 (Z.ltb_lt _ _)) by lia. split.
      * pose proof (fun hd => main_header (sv_chain s) bs i b hd Hc Hm Hb) as Hhd. unfold GetHeaderByHeight in *. rewrite Hh in *.
        destruct (GetHeader _ _) as [hd|e]; cbn [rwrap fst]; [|done]. by rewrite (Hhd hd).
      * unfold GetBlockByHeight. rewrite Hh. pose proof (fun b' => main_block (sv_chain s) bs i b b' Hc Hm Hb) as Hbl.
        destruct (GetBlock _ _) as [b'|e]; cbn [rwrap rbind fst]; [|done].
        rewrite (Hbl b') by done. unfold tip_height. simpl. by rewrite Ht.
    + intros rq Hq. unfold handleGetBlock. pose proof (wf_DoubleSHA256 (hdr_SerializeToBytes (blk_Header b))) as Hw.
      assert (HashFromReverseHex (ReverseString (block_hash b)) = Ok (block_hash b)) as Eh.
      { unfold HashFromReverseHex, ReverseString. rewrite hex_roundtrip. cbn [rbind]. unfold wf_hash in Hw.
        rewrite length_rev. unfold HashBlockHeader. rewrite Hw. simpl. by rewrite rev_involutive. }
      rewrite (with_param_value _ _ _ rq s Hq), Eh.
      2: { intros E. rewrite E in Eh. done. }
      pose proof (fun b' => main_block (sv_chain s) bs i b b' Hc Hm Hb) as Hbl. destruct (GetBlock _ _) as [b'|e]; cbn [fst]; [|done].
      rewrite (Hbl b') by done. unfold GetBlockHeight. rewrite Hz. unfold tip_height. simpl. by rewrite Ht.
  - intros rq z Hz Hq. unfold handleGetBlockHash, handleGetBlockByHeight, GetHeaderByHeight, GetBlockByHeight.
    rewrite !(with_param_value _ _ _ rq s Hq) by (apply decimal_nonempty; lia).
    rewrite Sscanf_decimal, (proj2 (Z.ltb_lt _ _)) by lia. rewrite (ac_bhh _ _ _ _ _ _ _ Ha).
    destruct (Z.ltb_spec z 0); [lia|]. rewrite lookup_ge_None_2 by (cbn [length]; lia). done.
Qed.
End queries.

(** ** Access control *)

Section access.
Context {St : Type} `{BS : BlockStore St} `{EN : Engine} {EC : ECOps} {WO : WalletOps}.
Context {PS : Type} `{PST : PeerStore PS}.
Context (cenv : Env) (nenv : NetEnv) (wenv : WalletEnv) (renv : RpcEnv).
Implicit Types (s : Server (St := St) (PS := PS)) (rq : Request).
#[local] Abbreviation serve := (serve_http cenv nenv wenv renv).
#[local] Abbreviation run := (server_run cenv nenv wenv renv).

(** Events that reach the handlers: requests need the credentials of [s]. *)
Definition admitted s (e : server_event) : bool :=
  match e with Net _ => true | Http rq => bool_decide (rq_auth rq = Some (sv_authUser s, sv_authPassword s)) end.

Lemma authorized_spec rq s : authorized rq s = admitted s (Http rq).
Proof.
  unfold authorized, admitted. destruct (rq_auth rq) as [[user pass]|]; [|by rewrite bool_decide_false].
  rewrite <- bool_decide_and. apply bool_decide_ext. naive_solver.
Qed.

Lemma admitted_ext s s' es : same_config s s' -> List.filter (admitted s') es = List.filter (admitted s) es.
Proof. intros [_ E1 E2]. apply filter_ext. intros [e|rq]; [done|]. unfold admitted. by rewrite E1, E2. Qed.

Lemma serve_unauthorized rq s :
  sv_authUser s <> [] -> admitted s (Http rq) = false -> serve rq s = (RErr 401 Unauthorized, s).
Proof.
  intros Hu Ha. unfold serve_http, authMiddleware. rewrite bool_decide_false by done. cbn [negb].
  by rewrite authorized_spec, Ha.
Qed.

Lemma run_config s es : same_config s (run s es).
Proof. revert s. induction es as [|e es IH]; intros s; [done|]. etrans; [apply step_config|apply IH]. Qed.

(** C11. Without the credentials nothing can be done.  On a server with credentials, which no
    event changes, a request with others (or none) is answered 401 in every reachable
    state, and removing all such requests from a history leaves the same server. *)
Theorem unauthorized_ignored s es :
  sv_authUser s <> [] ->
  run s es = run s (List.filter (admitted s) es)
  /\ forall rq, rq_auth rq <> Some (sv_authUser s, sv_authPassword s) ->
       serve rq (run s es) = (RErr 401 Unauthorized, run s es).
Proof.
  intros Hu. split.
  - revert s Hu. induction es as [|e es IH]; intros s Hu; [done|].
    pose proof (step_config cenv nenv wenv renv s e) as He. pose proof (sc_user _ _ He) as Eu.
    cbn [List.filter server_run fold_left]. destruct (admitted s e) eqn:Ea; cbn [server_run fold_left].
    + unfold server_run in IH. rewrite IH by (by rewrite Eu). by rewrite (admitted_ext s).
    + destruct e as [e|rq]; [done|]. cbn [server_step]. rewrite serve_unauthorized by done. by apply IH.
  - intros rq Ha. destruct (run_config s es) as [_ E1 E2]. apply serve_unauthorized; [by rewrite E1|].
    unfold admitted. rewrite E1, E2. by apply bool_decide_eq_false.
Qed.

(** The routes that insist on POST. *)
Definition post_routes : list string :=
  ["/submitblock"; "/stop"; "/sendtoaddress"; "/importprivkey"; "/settxfee"; "/sendrawtransaction";
   "/signrawtransactionwithwallet"; "/encryptwallet"; "/walletpassphrase"]%string.

Lemma post_required rq s :
  rq_post rq = false -> rq_path rq ∈ post_routes -> mux cenv nenv wenv renv rq s = (RErr 405 PostRequired, s).
Proof.
  intros Hp Hpath. unfold mux, post_routes in *. rewrite !elem_of_cons in Hpath.
  assert (forall h, requirePOST (St := St) (PS := PS) h rq s = (RErr 405 PostRequired, s)) as H
    by (intros h; unfold requirePOST; by rewrite Hp).
  repeat (destruct Hpath as [->|Hpath]; [apply H|]). by apply not_elem_of_nil in Hpath.
Qed.

Lemma get_frames rq s : rq_post rq = false -> get_frame wenv renv s (serve rq s).2.
Proof.
  intros Hp. induction (serve_effects cenv nenv wenv renv rq s) as [|s1 s2 s3 H _ IH]; [done|].
  etrans; [by eapply effect_get|exact IH].
Qed.

(** C10. What GET requests can do.  However many arrive, whatever their paths and parameters,
    the chain, the mempool, the fee rate and the stop flag stay, and the wallet at most
    derives addresses or locks: no payment, block, key import, encryption or unlocking
    happens without a POST (connections and backups of the wallet's file are left to GET; a
    backup onto the wallet's own file, possible only if that is below the working directory,
    rewrites it).  A GET on one of the nine routes that insist on POST is refused with 405,
    also when the command-line client sends it, which uses GET for everything. *)
Theorem get_requests_harmless s rqs :
  Forall (fun rq => rq_post rq = false) rqs ->
  get_frame wenv renv s (run s (map Http rqs))
  /\ forall rq, rq_post rq = false -> rq_path rq ∈ post_routes -> mux cenv nenv wenv renv rq s = (RErr 405 PostRequired, s).
Proof.
  intros Hf. split.
  - revert s. induction Hf as [|rq rqs Hp _ IH]; intros s; [done|]. etrans; [by apply (get_frames rq s)|apply IH].
  - intros rq. apply post_required.
Qed.

(** ** Block submission *)

Context (Hknown : forall X, ne_known nenv X ≡ₚ elements X).

Context (Hpeers : forall peers, ne_peers nenv peers ≡ₚ map fst (map_to_list peers)).

Lemma peers_visited (m : Manager St PS) :
  NoDup (peer_list nenv m) /\ forall a, a ∈ peer_list nenv m <-> is_Some (m_peers m !! a).
Proof.
  unfold peer_list. rewrite Hpeers. split; [apply NoDup_fst_map_to_list|]. intros a. rewrite Hpeers. split.
  - intros Ha. apply list_elem_of_fmap in Ha as ([a' q] & -> & Hq). apply elem_of_map_to_list in Hq. by eexists.
  - intros [q Hq]. apply elem_of_map_to_list in Hq. by apply (list_elem_of_fmap_2 fst) in Hq.
Qed.

(** C36. A block submitted over RPC reaches the chain only.  When [submitblock] accepts a block
    the mempool, with its transactions and the height it validates for, and every peer's
    queue and inventory are exactly as before.  Had the node mined the same block, it would
    have taken its transactions out of the mempool, moved that to the block's height, and
    broadcast the block: every open connection with room in its queue whose peer is not
    known to have the block gets exactly one more message, the block itself for three of
    these peers and its announcement for the others. *)
Theorem submitblock_not_relayed rq s v s' :
  handleSubmitBlock cenv rq s = (ROk v, s') ->
  exists b r height c, blk_Deserialize (rq_body rq) = Ok (b, r) /\ ProcessBlock cenv b (sv_chain s) = (Ok height, c)
    /\ sv_node s' = set_m_chain c (sv_node s)
    /\ sv_pool s' = sv_pool s /\ m_peers (sv_node s') = m_peers (sv_node s)
    /\ m_mempool (mined cenv nenv b (sv_node s))
       = SetTipHeight (RemoveTxs (sv_pool s) (map HashTransaction (blk_Transactions b))) height
    /\ exists order, order ≡ₚ filter (fun a => knows (sv_node s) (block_hash b) a = false) (peer_list nenv (sv_node s))
       /\ forall a q, m_peers (sv_node s) !! a = Some q -> p_done q = false -> len (p_sendQueue q) < 1024 ->
            block_hash b ∉ p_knownInv q ->
            exists q' i, m_peers (mined cenv nenv b (sv_node s)) !! a = Some q' /\ order !! i = Some a
              /\ p_sendQueue q' = p_sendQueue q
                   ++ [if (i <? 3)%nat then (CmdBlock, blk_Serialize b)
                       else (CmdInv, inv_Encode [{| iv_Type := InvTypeBlock; iv_Hash := block_hash b |}])].
Proof.
  unfold handleSubmitBlock, requirePOST. destruct (rq_post rq); [|done].
  destruct (blk_Deserialize (rq_body rq)) as [[b r]|e]; [|done].
  destruct (ProcessBlock cenv b (sv_chain s)) as [[height|e] c] eqn:E; [|done]. intros [= <- <-].
  exists b, r, height, c. split_and!; try done; unfold mined, sv_pool, sv_chain in *; rewrite E.
  - by rewrite (fr_mempool _ _ (framed_BroadcastBlock nenv Hknown _ b _)).
  - set (m := set_m_mempool _ _). destruct (peers_visited m) as [Hn Hv].
    destruct (block_relay nenv (block_hash b) b m Hn Hv) as (order & Hp & H). exists order. split; [exact Hp|].
    intros a q Ha Hd Hl Hk. destruct (H a q Ha Hd Hl) as (q' & Hq' & _ & Hs). destruct (Hs Hk) as (i & Hi & Eq).
    by exists q', i.
Qed.
End access.

(** ** Chain statistics *)

Section statistics.
Context {St : Type} `{BS : BlockStore St} `{EN : Engine} {EC : ECOps}.
Implicit Types c : Chain St.

Lemma info_timestamps_collect n c : forall i,
  info_timestamps n i c = collect_timestamps n i (c_tipHeight c) (GetAncestor c).
Proof.
  induction n as [|n IH]; intros i; cbn [info_timestamps collect_timestamps]; [done|]. destruct (_ <? i); [done|].
  unfold GetAncestor, getAncestorUnsafe at 1. destruct (c_hashByHeight c !! _); [|done].
  destruct (GetHeader _ _); [|done]. by rewrite IH.
Qed.

(** C34. The reported [mediantime] is the one blocks are checked against: on a network with
    the ["median-11"] rule, a header on the tip passes the timestamp check exactly when its
    time is above what [getblockchaininfo] reports and at most the allowed drift ahead of
    the clock. *)
Theorem mediantime_exact c header parent now :
  p_MinTimestampRule (c_params c) = "median-11"%string ->
  ValidateHeaderTimestamp header parent now (GetAncestor c) (c_tipHeight c) (c_params c) = Ok tt
  <-> ci_MedianTimePast (GetChainInfo c) < hdr_Timestamp header
      <= add32 now (u32 (Z.quot (p_MaxTimeFutureDrift (c_params c)) time_Second)).
Proof.
  intros Hr. unfold ValidateHeaderTimestamp. rewrite Hr. cbn [bool_decide].
  rewrite (bool_decide_false ("median-11"%string = "prev+1"%string)), bool_decide_true by done.
  assert (ci_MedianTimePast (GetChainInfo c) = calcMedianTimePast (c_tipHeight c) (GetAncestor c)) as ->.
  { unfold GetChainInfo, calcMedianTimePast. rewrite <- (info_timestamps_collect medianCount c 0).
    change medianCount with 11%nat. set (ts := info_timestamps 11 0 c).
    destruct (GetHeader (c_store c) (c_tipHash c)) as [hd|e]; cbn [ci_MedianTimePast]; destruct ts; reflexivity. }
  set (mx := add32 _ _). set (med := calcMedianTimePast _ _).
  destruct (Z.gtb_spec (hdr_Timestamp header) mx); cbn [negb]; [split; [done|lia]|].
  destruct (Z.leb_spec (hdr_Timestamp header) med); [split; [done|lia]|]. split; [lia|done].
Qed.
End statistics.

(** ** Backups *)

Lemma has_prefix_app pre s : has_prefix pre (pre ++ s) = true.
Proof. unfold has_prefix. by rewrite take_app_length, bool_decide_true. Qed.

Lemma contains_cons sub b s : contains sub s = true -> contains sub (b :: s) = true.
Proof. intros H. cbn [contains]. by rewrite H, orb_true_r. Qed.

(** A component starts the string or follows a slash. *)
Lemma components_occur s : exists c l, components s = c :: l /\ has_prefix c s = true
  /\ forall x, x ∈ l -> contains (slash :: x) s = true.
Proof.
  induction s as [|b s (c & l & E & Hc & Hl)]; [exists [], []; split_and!; [done|done|by intros x Hx%not_elem_of_nil]|].
  cbn [components]. rewrite E. destruct (Byte.eqb b slash) eqn:Eb.
  - apply byte_eqb_eq in Eb as ->. exists [], (c :: l). split_and!; [done|done|]. intros x Hx.
    apply elem_of_cons in Hx as [->|Hx]; [|by apply contains_cons, Hl].
    cbn [contains]. unfold has_prefix in *. cbn [length take]. apply bool_decide_eq_true in Hc. rewrite Hc.
    by rewrite bool_decide_true.
  - exists (b :: c), l. split_and!; [done| |by intros x Hx; apply contains_cons, Hl].
    unfold has_prefix in *. cbn [length take]. apply bool_decide_eq_true in Hc. by rewrite Hc, bool_decide_true.
Qed.

Lemma components_no_slash s : Forall (fun c => slash ∉ c) (components s).
Proof.
  induction s as [|b s IH]; cbn [components]; [apply Forall_singleton, not_elem_of_nil|].
  destruct (Byte.eqb b slash) eqn:Eb; [constructor; [apply not_elem_of_nil|done]|].
  destruct (components s) as [|c l]; [constructor; [|done]|apply Forall_cons in IH as [Hc Hl]; constructor; [|done]].
  all: rewrite not_elem_of_cons; split; [intros <-; by rewrite (proj2 (byte_eqb_eq slash slash) eq_refl) in Eb|].
  - apply not_elem_of_nil.
  - done.
Qed.

(** What [Clean] keeps are components, none of them empty. *)
Lemma clean_loop_parts rooted l : forall stack,
  Forall (fun c => slash ∉ c) l -> Forall (fun c => c <> [] /\ c <> [Byte.x2e] /\ slash ∉ c) stack ->
  Forall (fun c => c <> [] /\ c <> [Byte.x2e] /\ slash ∉ c) (clean_loop rooted stack l).
Proof.
  induction l as [|c l IH]; intros stack Hl Hs; cbn [clean_loop]; [by apply Forall_rev|].
  apply Forall_cons in Hl as [Hc Hl]. destruct (bool_decide (c = [])) eqn:E0; cbn [orb]; [by apply IH|].
  apply bool_decide_eq_false in E0. case_bool_decide; [by apply IH|].
  assert (Forall (fun c => c <> [] /\ c <> [Byte.x2e] /\ slash ∉ c) (c :: stack)) as Hcs by (by apply Forall_cons).
  destruct (bool_decide (c = dotdot)); [|by apply IH].
  destruct stack as [|top rest]; [by destruct rooted; apply IH|].
  destruct (bool_decide (top = dotdot)); apply IH; [done..|]. by apply Forall_cons in Hs as [_ Hs].
Qed.

Lemma Clean_relative path : IsAbs path = false -> IsAbs (Clean path) = false /\ Clean path <> [].
Proof.
  intros Ha. unfold Clean. rewrite Ha.
  pose proof (clean_loop_parts false (components path) [] (components_no_slash path) (Forall_nil_2 _)) as H.
  destruct (clean_loop false [] (components path)) as [|[|b c] l]; [done|by apply Forall_cons in H as [[? _] _]|].
  apply Forall_cons in H as [(_ & _ & H) _]. apply not_elem_of_cons in H as [H _].
  assert (exists r, join ((b :: c) :: l) = b :: r) as [r ->] by (destruct l; by eexists).
  split; [|done]. unfold IsAbs, has_prefix. cbn [length take]. rewrite bool_decide_false by congruence. done.
Qed.

Lemma components_slash a b : components (a ++ slash :: b) = components a ++ components b.
Proof.
  induction a as [|x a IH]; cbn [app components].
  - by rewrite (proj2 (byte_eqb_eq slash slash) eq_refl).
  - rewrite IH. destruct (Byte.eqb x slash); [done|]. by destruct (components_occur a) as (c & l & -> & _).
Qed.
Lemma components_one c : slash ∉ c -> components c = [c].
Proof.
  induction c as [|x c IH]; intros H; [done|]. apply not_elem_of_cons in H as [Hx H]. cbn [components].
  rewrite (IH H). destruct (Byte.eqb x slash) eqn:E; [by apply byte_eqb_eq in E|done].
Qed.
Lemma components_join l : l <> [] -> Forall (fun c => slash ∉ c) l -> components (join l) = l.
Proof.
  induction l as [|c l IH]; intros Hne Hl; [done|]. apply Forall_cons in Hl as [Hc Hl].
  destruct l as [|d l]; [by apply components_one|]. change (join (c :: d :: l)) with (c ++ slash :: join (d :: l)).
  by rewrite components_slash, (components_one c Hc), IH.
Qed.
Lemma join_snoc l c : l <> [] -> join (l ++ [c]) = join l ++ slash :: c.
Proof.
  induction l as [|d l IH]; intros H; [done|]. destruct l as [|e l]; [done|].
  change (join ((d :: e :: l) ++ [c])) with (d ++ slash :: join ((e :: l) ++ [c])). rewrite IH by done.
  change (join (d :: e :: l)) with (d ++ slash :: join (e :: l)). by rewrite <- app_assoc.
Qed.

(** A component that cleaning keeps. *)
Definition plain (c : list byte) : Prop := c <> [] /\ c <> [Byte.x2e] /\ c <> dotdot /\ slash ∉ c.
Lemma plain_no_slash l : Forall plain l -> Forall (fun c => slash ∉ c) l.
Proof. intros H. eapply Forall_impl; [exact H|]. by intros c (_ & _ & _ & ?). Qed.
Lemma clean_plain l t : Forall plain l -> Forall (fun c => c = []) t -> forall stack,
  clean_loop false stack (l ++ t) = rev stack ++ l.
Proof.
  intros Hl Ht. induction Hl as [|c l (H0 & H1 & H2 & _) _ IH]; intros stack; cbn [app clean_loop].
  - rewrite app_nil_r. induction Ht as [|c t -> _ IH]; [done|]. apply IH.
  - rewrite !bool_decide_false by done. cbn [orb]. rewrite IH. cbn [rev]. by rewrite <- app_assoc.
Qed.

Lemma Dir_one c : slash ∉ c -> Dir c = [Byte.x2e].
Proof. intros H. unfold Dir. by rewrite last_index_byte_notin. Qed.
Lemma Dir_join l c : l <> [] -> Forall plain l -> slash ∉ c -> Dir (join (l ++ [c])) = join l.
Proof.
  intros Hne Hl Hc. unfold Dir. rewrite join_snoc, last_index_byte_app by done.
  assert (take (S (length (join l))) (join l ++ slash :: c) = join l ++ [slash]) as ->.
  { replace (join l ++ slash :: c) with ((join l ++ [slash]) ++ c) by (by rewrite <- app_assoc).
    apply take_app_length'. rewrite length_app. simpl. lia. }
  assert (exists b r, join l = b :: r /\ b <> slash) as (b & r & E & Hb).
  { destruct l as [|[|b c'] l]; [done|by apply Forall_cons in Hl as [[? _] _]|].
    apply Forall_cons in Hl as [(_ & _ & _ & Hs) _]. apply not_elem_of_cons in Hs as [Hs _]. exists b.
    destruct l; eexists; split; try reflexivity; congruence. }
  unfold Clean, IsAbs, has_prefix. rewrite components_slash, components_join by (done || by apply plain_no_slash).
  rewrite E. cbn [length take app]. rewrite bool_decide_false by congruence. rewrite (clean_plain l [[]]) by (done || by repeat constructor).
  cbn [rev app]. rewrite E. done.
Qed.

(** A destination that is not refused. *)
Lemma Clean_parts path :
  IsAbs path = false -> has_prefix dotdot (Clean path) = false -> contains (slash :: dotdot) (Clean path) = false ->
  (Clean path <> [] /\ IsAbs (Clean path) = false /\ dotdot ∉ components (Clean path))
  /\ (Clean path = [Byte.x2e] \/ exists parts, Clean path = join parts /\ parts <> [] /\ Forall plain parts).
Proof.
  intros Ha Hp Hc. destruct (Clean_relative path Ha) as [Hr Hne].
  assert (dotdot ∉ components (Clean path)) as Hdd.
  { destruct (components_occur (Clean path)) as (c & l & E & Hc1 & Hl). rewrite E.
    intros Hin. apply elem_of_cons in Hin as [<-|Hin]; [congruence|]. rewrite (Hl _ Hin) in Hc. done. }
  split; [done|]. unfold Clean in *. rewrite Ha in *.
  pose proof (clean_loop_parts false (components path) [] (components_no_slash path) (Forall_nil_2 _)) as H.
  set (parts := clean_loop false [] (components path)) in *.
  destruct (decide (parts = [])) as [->|Hnp]; [by left|right]. exists parts.
  assert (Forall (fun c => slash ∉ c) parts) as Hs by (eapply Forall_impl; [exact H|]; by intros c (_ & _ & ?)).
  assert (join parts <> []) as Hj.
  { destruct parts as [|[|b c] l]; [done|by apply Forall_cons in H as [[? _] _]|]. by destruct l. }
  destruct (join parts) as [|b r] eqn:Ej; [done|]. split_and!; [done|done|]. rewrite <- Ej in Hdd.
  rewrite components_join in Hdd by done. rewrite Forall_forall in H |- *. intros c Hin. destruct (H c Hin) as (H1 & H2 & H3).
  split_and!; [done|done|by intros ->|done].
Qed.

Section working_directory.
Context (renv : RpcEnv) `{WO : WalletOps}.

(** [MkdirAll] creates the missing ancestors and touches no file. *)
Lemma mkdir_all_spec parts : forall fs,
  let fs' := (mkdir_all renv parts fs).2 in
  fl_files fs' = fl_files fs /\ fl_dirs fs ⊆ fl_dirs fs'
  /\ forall d, d ∈ fl_dirs fs' -> d ∈ fl_dirs fs \/ exists n, (0 < n <= length parts)%nat /\ d = join (take n (rev parts)).
Proof.
  induction parts as [|c parts IH]; intros fs; cbv zeta; [split_and!; [done|done|by left]|]. cbn [mkdir_all].
  destruct (is_dir fs _); [split_and!; [done|done|by left]|].
  destruct (is_file renv fs _); [split_and!; [done|done|by left]|].
  specialize (IH fs). destruct (mkdir_all renv parts fs) as [ok fs1]. cbv zeta in IH. cbn [snd] in IH.
  destruct IH as (Hf & Hd & Hn).
  assert (forall d, d ∈ fl_dirs fs1 -> d ∈ fl_dirs fs \/ exists n, (0 < n <= length (c :: parts))%nat
    /\ d = join (take n (rev (c :: parts)))) as Hn'.
  { intros d Hin. destruct (Hn d Hin) as [?|(n & Hlen & ->)]; [by left|right]. exists n. cbn [length rev]. split; [lia|].
    by rewrite take_app_le by (rewrite length_rev; lia). }
  destruct ok; cbn [negb]; [|by split_and!]. destruct (re_mkdir_fails _ _ _); [by split_and!|]. cbn [snd add_dir fl_files fl_dirs].
  split_and!; [done|set_solver|]. intros d Hin. apply elem_of_union in Hin as [Hin|Hin]; [|by apply Hn'].
  apply elem_of_singleton in Hin as ->. right. exists (length (c :: parts)). split; [simpl; lia|].
  by rewrite <- (length_rev (c :: parts)), firstn_all.
Qed.

Lemma put_file_spec path c (w : HDWallet) fs :
  let '(w', fs') := put_file renv path c w fs in
  (exists f, w' = set_disk f (w_tick w) w) /\ fl_dirs fs' = fl_dirs fs /\ file_at renv w' fs' path = c
  /\ forall q, q <> path -> file_at renv w' fs' q = file_at renv w fs q.
Proof.
  unfold put_file, file_at. case_bool_decide as E.
  - split_and!; [by eexists|done|done|]. intros q Hq. by rewrite !(bool_decide_false (q = _)) by congruence.
  - split_and!; [exists (w_file w); by destruct w|done|cbn [fl_files]; by rewrite lookup_insert_eq|].
    intros q Hq. cbn [fl_files]. by rewrite lookup_insert_ne by done.
Qed.

(** What a backup to a path without slashes at its ends or dots as components does. *)
Lemma backup_to_spec dest data (w : HDWallet) fs :
  (dest = [Byte.x2e] \/ exists parts, dest = join parts /\ parts <> [] /\ Forall plain parts) ->
  let '(r, (w', fs')) := backup_to renv dest data w fs in
  (exists f, w' = set_disk f (w_tick w) w)
  /\ (forall q, q <> dest -> file_at renv w' fs' q = file_at renv w fs q)
  /\ fl_dirs fs ⊆ fl_dirs fs'
  /\ (forall d, d ∈ fl_dirs fs' -> d ∈ fl_dirs fs
        \/ exists n, (0 < n < length (components dest))%nat /\ d = join (take n (components dest)))
  /\ match r with
     | Ok _ => file_at renv w' fs' dest = data
     | Err _ => file_at renv w' fs' dest = file_at renv w fs dest
                \/ exists fs1 part, re_write renv fs1 dest data = Some part /\ file_at renv w' fs' dest = part
     end.
Proof.
  intros Hdest. unfold backup_to.
  assert (let fs1 := (MkdirAll renv (Dir dest) fs).2 in fl_files fs1 = fl_files fs /\ fl_dirs fs ⊆ fl_dirs fs1
    /\ forall d, d ∈ fl_dirs fs1 -> d ∈ fl_dirs fs
        \/ exists n, (0 < n < length (components dest))%nat /\ d = join (take n (components dest))) as Hm.
  { assert (forall fs, MkdirAll renv [Byte.x2e] fs = (true, fs)) as Hdot by done.
    destruct Hdest as [->|(parts & -> & Hne & Hp)]; [split_and!; [done|done|by left]|].
    pose proof (plain_no_slash _ Hp) as Hs. destruct parts as [|c l _] using rev_ind; [done|].
    rewrite components_join by done. apply Forall_app in Hp as [Hl Hc], Hs as [Hsl Hsc].
    destruct (decide (l = [])) as [->|Hnl].
    { cbn [app join]. rewrite Dir_one by exact (Forall_inv Hsc). rewrite Hdot. split_and!; [done|done|by left]. }
    rewrite Dir_join by (done || exact (Forall_inv Hsc)). unfold MkdirAll. rewrite components_join by done.
    destruct (mkdir_all_spec (rev l) fs) as (H1 & H2 & H3). split_and!; [done|done|]. intros d Hd.
    destruct (H3 d Hd) as [?|(n & Hn & ->)]; [by left|right]. exists n. rewrite length_rev in Hn. rewrite rev_involutive.
    rewrite length_app. split; [simpl; lia|]. by rewrite take_app_le by lia. }
  destruct (MkdirAll renv (Dir dest) fs) as [ok fs1]. cbv zeta in Hm. cbn [snd] in Hm. destruct Hm as (Hf & Hd & Hn).
  assert (exists f, w = set_disk f (w_tick w) w) as Hw by (exists (w_file w); by destruct w).
  assert (forall q, file_at renv w fs1 q = file_at renv w fs q) as Hsame by (intros q; unfold file_at; by rewrite Hf).
  destruct ok; cbn [negb]; [|split_and!; [done|intros q _; apply Hsame|done|done|left; apply Hsame]].
  unfold os_WriteFile. destruct (_ || _); [split_and!; [done|intros q _; apply Hsame|done|done|left; apply Hsame]|].
  destruct (re_write renv fs1 dest data) as [part|] eqn:Ew;
    [pose proof (put_file_spec dest part w fs1) as Hput; destruct (put_file renv dest part w fs1) as [w' fs']
    |pose proof (put_file_spec dest data w fs1) as Hput; destruct (put_file renv dest data w fs1) as [w' fs']];
    destruct Hput as (Hw' & Ed & Hat & Hq); rewrite Ed; split_and!; try done; try (intros q Hne; by rewrite Hq, Hsame).
  right. by exists fs1, part.
Qed.

Context {St : Type} `{BS : BlockStore St} {PS : Type} `{PST : PeerStore PS}.
Implicit Types s : Server (St := St) (PS := PS).

Definition confined (dest : list byte) : Prop := dest <> [] /\ IsAbs dest = false /\ dotdot ∉ components dest.

(** What a backup to [dest] can change and what it answers. *)
Definition backed_up s w dest r s' : Prop := exists f,
  let w' := set_disk f (w_tick w) w in
  s' = set_files (sv_files s') (set_wallet w' s)
  /\ (s' = s \/ confined dest)
  /\ (forall path, path <> dest -> file_at renv w' (sv_files s') path = file_at renv w (sv_files s) path)
  /\ fl_dirs (sv_files s) ⊆ fl_dirs (sv_files s')
  /\ (forall d, d ∈ fl_dirs (sv_files s') -> d ∈ fl_dirs (sv_files s)
        \/ exists n, (0 < n < length (components dest))%nat /\ d = join (take n (components dest)))
  /\ match r with
     | ROk _ => w_file w <> Missing /\ file_at renv w' (sv_files s') dest = w_file w /\ confined dest
     | RErr _ _ => file_at renv w' (sv_files s') dest = file_at renv w (sv_files s) dest
         \/ exists fs part, re_write renv fs dest (w_file w) = Some part /\ file_at renv w' (sv_files s') dest = part
     end.

Lemma backup_refused s w dest c e : sv_wallet s = Some w -> backed_up s w dest (RErr c e) s.
Proof.
  intros Es. exists (w_file w). assert (set_disk (w_file w) (w_tick w) w = w) as Ew by (by destruct w).
  cbv zeta. rewrite Ew. split_and!; [destruct s; simpl in *; by subst|by left|done|done|by left|by left].
Qed.

Lemma backup_done s w dest :
  sv_wallet s = Some w -> confined dest ->
  (dest = [Byte.x2e] \/ exists parts, dest = join parts /\ parts <> [] /\ Forall plain parts) ->
  let '(r, (w', fs)) := BackupWallet renv dest w (sv_files s) in
  backed_up s w dest (match r with Ok _ => ROk (JBool true) | Err e => RErr StatusInternalServerError (WalletFailed e) end)
    (set_files fs (set_wallet w' s)).
Proof.
  intros Es Hok Hparts.
  assert (forall c e, backed_up s w dest (RErr c e) (set_files (sv_files s) (set_wallet w s))) as Href.
  { intros c e. assert (set_files (sv_files s) (set_wallet w s) = s) as -> by (destruct s; simpl in *; by subst).
    by apply backup_refused. }
  assert (forall data, data = w_file w -> data <> Missing -> let '(r, (w', fs)) := backup_to renv dest data w (sv_files s) in
    backed_up s w dest (match r with Ok _ => ROk (JBool true) | Err e => RErr StatusInternalServerError (WalletFailed e) end)
      (set_files fs (set_wallet w' s))) as H.
  { intros data Hd Hm. pose proof (backup_to_spec dest data w (sv_files s) Hparts) as Hb.
    destruct (backup_to renv dest data w (sv_files s)) as [r [w' fs]]. destruct Hb as ((f & ->) & Hq & Hdir & Hnew & Hr).
    exists f. split_and!; [done|by right|exact Hq|exact Hdir|exact Hnew|]. rewrite Hd in Hm, Hr. destruct r; [by split_and!|exact Hr]. }
  unfold BackupWallet. destruct (re_read_fails renv (sv_files s)); [apply Href|].
  destruct (w_file w) as [| | |wd]; [apply Href|by apply H..].
Qed.
End working_directory.

(** C35. A backup stays below the working directory.  Whatever [backupwallet] is asked and
    whatever the file system does, nothing changes but the file at the cleaned destination
    and the directories made for it: the chain, the peers, the settings, the wallet's keys
    and every other file are as before, and a directory created is an ancestor of the
    destination.  Unless the request is refused outright the destination is relative and
    none of its components is two dots.  When the answer is no error the file there has the
    content of the wallet's file, which exists; when it is an error the file is as it was or
    what a failing write left of that content, also when it is the wallet's own file.  There
    are no links below the working directory. *)
Theorem backup_confined {St : Type} `{BS : BlockStore St} `{EN : Engine} `{WO : WalletOps} {PS : Type} `{PST : PeerStore PS}
    renv rq (s s' : Server (St := St) (PS := PS)) r :
  handleBackupWallet renv rq s = (r, s') ->
  let dest := Clean (rq_query rq "destination") in
  match sv_wallet s with
  | None => s' = s
  | Some w => exists f,
      let w' := set_disk f (w_tick w) w in
      s' = set_files (sv_files s') (set_wallet w' s)
      /\ (s' = s \/ dest <> [] /\ IsAbs dest = false /\ dotdot ∉ components dest)
      /\ (forall path, path <> dest -> file_at renv w' (sv_files s') path = file_at renv w (sv_files s) path)
      /\ fl_dirs (sv_files s) ⊆ fl_dirs (sv_files s')
      /\ (forall d, d ∈ fl_dirs (sv_files s') -> d ∈ fl_dirs (sv_files s)
            \/ exists n, (0 < n < length (components dest))%nat /\ d = join (take n (components dest)))
      /\ match r with
         | ROk _ => w_file w <> Missing /\ file_at renv w' (sv_files s') dest = w_file w
                    /\ dest <> [] /\ IsAbs dest = false /\ dotdot ∉ components dest
         | RErr _ _ => file_at renv w' (sv_files s') dest = file_at renv w (sv_files s) dest
             \/ exists fs part, re_write renv fs dest (w_file w) = Some part /\ file_at renv w' (sv_files s') dest = part
         end
  end.
Proof.
  unfold handleBackupWallet, requireWallet. destruct (sv_wallet s) as [w|] eqn:Es; [|by intros [= <- <-]].
  pose proof (fun c e => backup_refused renv s w (Clean (rq_query rq "destination")) c e Es) as Href.
  unfold with_param. case_bool_decide; [intros [= <- <-]; exact (Href 0 NotFound404)|].
  destruct (IsAbs (rq_query rq "destination")) eqn:Ea; [intros [= <- <-]; exact (Href 0 NotFound404)|]. cbv zeta.
  destruct (has_prefix dotdot _) eqn:Ep; [intros [= <- <-]; exact (Href 0 NotFound404)|].
  destruct (contains (slash :: dotdot) _) eqn:Ec; [intros [= <- <-]; exact (Href 0 NotFound404)|]. cbn [orb].
  destruct (Clean_parts _ Ea Ep Ec) as (Hok & Hparts). clear Href Ea Ep Ec. set (dest := Clean _) in *.
  pose proof (backup_done renv s w dest Es Hok Hparts) as Hdone.
  destruct (BackupWallet renv dest w (sv_files s)) as [[u|e] [w' fs]]; by intros [= <- <-].
Qed.

(** ** A small server

    Its genesis block pays 100000 to the toy wallet. *)
Module ExampleServer.
Import MerkleFacts ToyEC ToyWallet MemDB Example ExampleNode.

Definition rich_coinbase : Transaction := Eval vm_compute in {|
  tx_Version := 1;
  tx_Inputs := [{| in_PreviousOutPoint := CoinbaseOutPoint;
                   in_SignatureScript := bytes_of_string "regtest"; in_Sequence := 0xFFFFFFFF |}];
  tx_Outputs := [{| out_Value := 100000; out_PkScript := toy_script |}];
  tx_LockTime := 0 |}.
Definition rich_genesis : Block := Eval vm_compute in {|
  blk_Header := {| hdr_Version := 1; hdr_PrevBlock := ZeroHash;
                   hdr_MerkleRoot := ComputeMerkleRoot [rich_coinbase];
                   hdr_Timestamp := 1000; hdr_Bits := 0x207fffff; hdr_Nonce := 0 |};
  blk_Transactions := [rich_coinbase] |}.
Definition rich_hash : Hash := Eval vm_compute in block_hash rich_genesis.
Definition rich : ChainParams := InitGenesis Regtest rich_genesis rich_hash.
Definition block1 : Block := Eval vm_compute in Example.coinbase_only rich_hash 1 1001 5000000000.
Definition rich_blocks : list Block := [rich_genesis; block1].

Lemma rich_universe : universe rich rich_blocks.
Proof.
  constructor.
  - do 2 (apply Forall_cons; split; [apply storable_decode; vm_compute; reflexivity|]). constructor.
  - apply (bool_decide_unpack _). vm_compute. exact I.
  - repeat constructor; vm_compute; discriminate.
  - repeat constructor; vm_compute; discriminate.
  - vm_compute. reflexivity.
  - by left.
  - reflexivity.
  - constructor.
    + repeat constructor.
    + repeat constructor. vm_compute. intros [_ H]. by apply H.
    + apply NoDup_singleton.
    + assert (storable rich_genesis) as [(_ & Hw & _) _] by (apply storable_decode; vm_compute; reflexivity). exact Hw.
  - vm_compute. reflexivity.
  - pose proof wf_networks as Hw. rewrite !Forall_cons in Hw. by destruct Hw as (_ & _ & Hr & _).
  - vm_compute. discriminate.
Qed.

Abbreviation chain0 := (snd (Init (New rich store0))).
Lemma rich_started : Init (New rich store0) = (Ok tt, chain0).
Proof. apply fst_ok. vm_compute. reflexivity. Qed.

Lemma known0 : forall X, ne_known nenv0 X ≡ₚ elements X.
Proof. reflexivity. Qed.

Definition no_files : Files := {| fl_dirs := ∅; fl_files := ∅ |}.
Definition renv0 : RpcEnv := {|
  re_rows := ForEach; re_other := fun _ => None; re_wallet_path := []; re_read_fails := fun _ => false;
  re_mkdir_fails := fun _ _ => false; re_open_fails := fun _ _ => false; re_write := fun _ _ _ => None |}.
Definition auth0 : AuthConfig := {| ac_User := bytes_of_string "user"; ac_Password := bytes_of_string "secret" |}.
Abbreviation node0 :=
  (NewManager config chain0 (SetTipHeight (mp_New rich) (c_tipHeight chain0)) (c_utxoSet chain0) ([] : list Addr) (Some clock_New)).
Abbreviation server0 := ({|
  sv_node := node0; sv_wallet := Some toy_w0; sv_params := rich; sv_feePerByte := defaultFeePerByte;
  sv_authUser := ac_User auth0; sv_authPassword := ac_Password auth0; sv_stopping := false;
  sv_files := no_files |}).

Definition request (post : bool) (path : string) (auth : option (list byte * list byte))
    (query : list (string * list byte)) (body : list byte) : Request := {|
  rq_post := post; rq_path := path; rq_auth := auth;
  rq_query := fun k => default [] (snd <$> List.find (fun kv => String.eqb (fst kv) k) query);
  rq_body := body; rq_now := 5 |}.
Definition login : option (list byte * list byte) := Some (bytes_of_string "user", bytes_of_string "secret").

Abbreviation serve0 := (serve_http env0 nenv0 toy_env renv0).
Abbreviation run0 := (server_run env0 nenv0 toy_env renv0).

Definition pay_request : Request :=
  request true "/sendtoaddress" login
    [("address", GetDefaultAddress toy_w0); ("amount", bytes_of_string "40000")]%string [].
Definition submit_request : Request := request true "/submitblock" login [] (blk_Serialize block1).

(** Evaluation: a payment, a query by height, a refused one. *)
Example pay_then_query :
  let s := run0 server0 [Http pay_request; Http submit_request] in
  size (mp_txs (sv_pool s)) = 1%nat /\ tip_height s = 1
  /\ fst (serve0 (request false "/getblockcount" login [] []) s) = ROk (JNum 1)
  /\ fst (serve0 (request false "/getblockcount" None [] []) s) = RErr 401 Unauthorized
  /\ fst (serve0 (request false "/stop" login [] []) s) = RErr 405 PostRequired.
Proof. vm_compute. repeat split. Qed.
End ExampleServer.

Section witnesses.
Import ToyEC ToyWallet MemDB Example ExampleNode ExampleServer.

Lemma pay_request_ok : request_ok rich_blocks pay_request.
Proof. intros b r H. vm_compute in H. discriminate H. Qed.
Lemma submit_request_ok : request_ok rich_blocks submit_request.
Proof.
  assert (blk_Deserialize (rq_body submit_request) = Ok (block1, [])) as E by (vm_compute; reflexivity).
  intros b r H. rewrite E in H. injection H as <- _. by apply (list_elem_of_lookup_2 rich_blocks 1).
Qed.

Lemma server_safe_witness :
  let s := run0 server0 [Http pay_request; Http submit_request; Net (PingTick 7)] in
  tip_height s = 1 /\ exists bs, replay rich bs = Some (UtxoSet_of (sv_chain s)).
Proof.
  split; [vm_compute; reflexivity|].
  destruct (server_safe env0 nenv0 toy_env renv0 known0 rich rich_blocks rich_universe tip_writes Byte.x00 store0 chain0
    config (c_utxoSet chain0) ([] : list Addr) (Some clock_New) toy_w0 None true no_files (Some auth0) server0
    [Http pay_request; Http submit_request; Net (PingTick 7)]) as [(bs & Hr & _) _].
  - vm_compute. split; [discriminate|reflexivity].
  - exact store0_empty.
  - exact rich_started.
  - exact toy_reachable0.
  - reflexivity.
  - apply Forall_cons. split; [exact pay_request_ok|]. apply Forall_cons. split; [exact submit_request_ok|].
    apply Forall_singleton. exact I.
  - apply files_live_check. vm_compute. reflexivity.
  - exists bs. exact Hr.
Defined.

Lemma unauthorized_ignored_witness :
  run0 server0 [Http (request true "/stop" None [] []); Http pay_request] = run0 server0 [Http pay_request].
Proof.
  destruct (unauthorized_ignored env0 nenv0 toy_env renv0 server0 [Http (request true "/stop" None [] []); Http pay_request]) as [H _].
  - discriminate.
  - rewrite H. reflexivity.
Defined.

Lemma get_requests_harmless_witness :
  sv_chain (run0 server0 (map Http [request false "/getnewaddress" login [] []; request false "/stop" login [] []])) = chain0.
Proof.
  destruct (get_requests_harmless env0 nenv0 toy_env renv0 server0
    [request false "/getnewaddress" login [] []; request false "/stop" login [] []]) as [[H _ _ _ _] _].
  - repeat constructor.
  - exact H.
Defined.

Lemma chain0_inv : chain_inv rich rich_blocks chain0.
Proof.
  eapply (Init_empty rich rich_blocks rich_universe); [exact store0_empty|exact rich_started|].
  apply files_live_check. vm_compute. reflexivity.
Qed.
Lemma server0_wallet : wallet_inv toy_env Byte.x00 server0.
Proof. split; [exists toy_w0; split; [reflexivity|exact toy_reachable0]|]. split; discriminate. Qed.

Abbreviation paid := (handleSendToAddress nenv0 toy_env renv0 pay_request server0).
Lemma paid_Ok : match fst paid with ROk _ => true | RErr _ _ => false end = true.
Proof. vm_compute. reflexivity. Qed.

Lemma sendtoaddress_pays_witness :
  exists tx te, mp_txs (sv_pool (snd paid)) !! HashTransaction tx = Some te /\ te_Tx te = tx
    /\ head (map out_Value (tx_Outputs tx)) = Some 40000.
Proof.
  pose proof paid_Ok as Hp. destruct (fst paid) as [v|] eqn:Ev; [|discriminate Hp].
  destruct (sendtoaddress_pays (ECL := toy_ec_laws) nenv0 toy_env renv0 known0 rich rich_blocks rich_universe Byte.x00 server0
    pay_request v (snd paid)) as (amount & w' & tx & h & change & fee & te & Ha & _ & Hm & Ht & _ & _ & _ & Hg).
  - exact chain0_inv.
  - exact server0_wallet.
  - reflexivity.
  - reflexivity.
  - vm_compute. discriminate.
  - vm_compute. reflexivity.
  - rewrite <- Ev. apply surjective_pairing.
  - exists tx, te. split; [|split; [exact Ht|]].
    + rewrite Hm. apply lookup_insert_eq.
    + destruct Hg as (_ & -> & _). assert (ParseUint (rq_query pay_request "amount") 64 = (40000, None)) as Ea by (vm_compute; reflexivity).
      rewrite Ea in Ha. injection Ha as <-. reflexivity.
Defined.

Abbreviation submitted := (handleSubmitBlock env0 submit_request server0).
Lemma submitted_Ok : match fst submitted with ROk _ => true | RErr _ _ => false end = true.
Proof. vm_compute. reflexivity. Qed.
(** After the submission the chain has a second block, [block1]. *)
Lemma submitted_inv : chain_inv rich rich_blocks (sv_chain (snd submitted)).
Proof.
  destruct (ProcessBlock_wp env0 rich rich_blocks rich_universe tip_writes (sv_chain server0) block1 chain0_inv) as [H _];
    [by apply (list_elem_of_lookup_2 rich_blocks 1)|apply files_live_check; vm_compute; reflexivity|].
  assert (sv_chain (snd submitted) = snd (ProcessBlock env0 block1 (sv_chain server0))) as ->; [|exact H].
  unfold handleSubmitBlock, requirePOST. change (rq_post submit_request) with true. cbv iota.
  change (rq_body submit_request) with (blk_Serialize block1).
  assert (blk_Deserialize (blk_Serialize block1) = Ok (block1, [])) as -> by (vm_compute; reflexivity).
  by destruct (ProcessBlock env0 block1 (sv_chain server0)) as [[n|e] c].
Qed.

Lemma block_queries_exact_witness : exists fields,
  fst (handleGetBlockByHeight (request false "/getblockbyheight" login [("height"%string, bytes_of_string "1")] []) (snd submitted))
  = ROk (JObj fields)
  /\ field "tx" (JArr (map (fun tx => JStr (hex_EncodeToString (rev (HashTransaction tx)))) (blk_Transactions block1))) ∈ fields
  /\ field "confirmations" (JNum 1) ∈ fields /\ field "previousblockhash" (JStr (hex_EncodeToString (rev rich_hash))) ∈ fields.
Proof.
  pose proof submitted_inv as Hc. destruct (ci_main _ _ _ Hc) as [bs Hm].
  pose proof Hm as (_ & Hh & Ht & _).
  assert (c_tipHeight (sv_chain (snd submitted)) = 1) as Eh by (vm_compute; reflexivity).
  assert (c_tipHash (sv_chain (snd submitted)) = block_hash block1) as Et by (vm_compute; reflexivity).
  assert (GetBlock (c_store (sv_chain (snd submitted))) (block_hash block1) = Ok block1) as Eg by (vm_compute; reflexivity).
  rewrite Eh in Hh. destruct bs as [|b [|b' bs]]; [discriminate Hh| |simpl in Hh; lia].
  destruct (block_queries_exact rich rich_blocks rich_universe (snd submitted) [b] Hc Hm) as (_ & H & _).
  specialize (H 1%nat b eq_refl). destruct H as [H _].
  destruct (H (request false "/getblockbyheight" login [("height"%string, bytes_of_string "1")] []) ltac:(vm_compute; reflexivity))
    as [_ Ha]. clear H.
  assert (block_hash b = block_hash block1) as Eb by (rewrite <- Et; symmetry; exact Ht).
  assert (block1 = b) as <-.
  { apply (main_block rich rich_blocks rich_universe (sv_chain (snd submitted)) [b] 1 b block1 Hc Hm eq_refl).
    rewrite Eb. exact Eg. }
  rewrite Eg in Ha. eexists. split; [exact Ha|].
  split_and!; [by apply (list_elem_of_lookup_2 _ 5)|by apply (list_elem_of_lookup_2 _ 1)|by apply (list_elem_of_lookup_2 _ 9)].
Defined.



(** A server with a connected peer. *)
Abbreviation server1 := (set_node (net_run env0 nenv0 node0 [join 0]) server0).
Lemma submitblock_not_relayed_witness :
  exists s' q q', s' = snd (handleSubmitBlock env0 submit_request server1) /\ sv_pool s' = sv_pool server1
    /\ m_peers (sv_node s') !! alice = Some q
    /\ m_peers (mined env0 nenv0 block1 (sv_node server1)) !! alice = Some q'
    /\ p_sendQueue q' = p_sendQueue q ++ [(CmdBlock, blk_Serialize block1)].
Proof.
  assert (match fst (handleSubmitBlock env0 submit_request server1) with ROk _ => true | RErr _ _ => false end = true) as Hp
    by (vm_compute; reflexivity).
  destruct (fst (handleSubmitBlock env0 submit_request server1)) as [v|] eqn:Ev; [|discriminate Hp].
  destruct (submitblock_not_relayed env0 nenv0 known0 (fun _ => reflexivity _) submit_request server1 v
    (snd (handleSubmitBlock env0 submit_request server1))) as (b & r & height & c & Hb & _ & _ & Hpool & Hpe & _ & order & Ho & H).
  - rewrite <- Ev. apply surjective_pairing.
  - assert (blk_Deserialize (rq_body submit_request) = Ok (block1, [])) as En by (vm_compute; reflexivity).
    rewrite En in Hb. assert (b = block1) as -> by congruence.
    destruct (m_peers (sv_node server1) !! alice) as [q|] eqn:E; [|by vm_compute in E].
    destruct (H alice q E) as (q' & i & Hq' & Hi & Hs).
    + refine (fmap_field p_done _ _ _ E _). vm_compute. reflexivity.
    + assert (p_sendQueue q = [(CmdGetAddr, [])]) as -> by (refine (fmap_field p_sendQueue _ _ _ E _); vm_compute; reflexivity).
      vm_compute. reflexivity.
    + assert (p_knownInv q = ∅) as -> by (refine (fmap_field p_knownInv _ _ _ E _); vm_compute; reflexivity). apply not_elem_of_empty.
    + exists (snd (handleSubmitBlock env0 submit_request server1)), q, q'. split; [reflexivity|]. split; [exact Hpool|].
      split; [rewrite Hpe; exact E|]. split; [exact Hq'|]. rewrite Hs. destruct i as [|i]; [reflexivity|]. exfalso.
      assert (length order = 1%nat) as El by (rewrite Ho; vm_compute; reflexivity).
      apply lookup_lt_Some in Hi. rewrite El in Hi. lia.
Defined.

Abbreviation main_chain := (snd (Init (New Mainnet store0))).
Definition later : BlockHeader := Eval vm_compute in
  let h := blk_Header (p_GenesisBlock Mainnet) in
  {| hdr_Version := 1; hdr_PrevBlock := HashBlockHeader h; hdr_MerkleRoot := ZeroHash;
     hdr_Timestamp := hdr_Timestamp h + 1; hdr_Bits := hdr_Bits h; hdr_Nonce := 0 |}.
Lemma mediantime_exact_witness :
  ci_MedianTimePast (GetChainInfo main_chain) = hdr_Timestamp later - 1
  /\ ValidateHeaderTimestamp later later (hdr_Timestamp later) (GetAncestor main_chain) (c_tipHeight main_chain)
       (c_params main_chain) = Ok tt.
Proof.
  split; [vm_compute; reflexivity|]. apply (mediantime_exact main_chain); [vm_compute; reflexivity|].
  vm_compute. split; [reflexivity|discriminate].
Defined.

Definition backup_request (dest : string) : Request :=
  request false "/backupwallet" login [("destination"%string, bytes_of_string dest)] [].
Example backups :
  map (fun d => fst (handleBackupWallet renv0 (backup_request d) server0))
    ["a/../b//w.json"; "../w.json"; "/etc/w.json"; "a/../../w.json"; ".."]%string
  = [ROk (JBool true); RErr 400 PathTraversal; RErr 400 AbsolutePath; RErr 400 PathTraversal; RErr 400 PathTraversal].
Proof. vm_compute. reflexivity. Qed.

(** A disk that is full once a byte is written, below which the wallet's file is. *)
Definition renv_full : RpcEnv := {|
  re_rows := ForEach; re_other := fun _ => None; re_wallet_path := bytes_of_string "wallet.dat"; re_read_fails := fun _ => false;
  re_mkdir_fails := fun _ _ => false; re_open_fails := fun _ _ => false; re_write := fun _ _ _ => Some Malformed |}.
Example backup_destroys_wallet :
  let '(r, s) := handleBackupWallet renv_full (backup_request "x/../wallet.dat") server0 in
  r = RErr 500 (WalletFailed WriteFailed) /\ (w_file <$> sv_wallet s) = Some Malformed.
Proof. vm_compute. split; reflexivity. Qed.

Abbreviation copied := (handleBackupWallet renv0 (backup_request "a/../b//w.json") server0).
Lemma backup_confined_witness : exists f,
  file_at renv0 (set_disk f (w_tick toy_w0) toy_w0) (sv_files (snd copied)) (bytes_of_string "b/w.json") = w_file toy_w0
  /\ w_file toy_w0 <> Missing /\ fl_dirs (sv_files (snd copied)) = {[ bytes_of_string "b" ]}.
Proof.
  pose proof (backup_confined renv0 (backup_request "a/../b//w.json") server0 (snd copied) (fst copied) (surjective_pairing _)) as H.
  assert (match fst copied with ROk _ => true | RErr _ _ => false end = true) as Hp by (vm_compute; reflexivity).
  assert (bool_decide (fl_dirs (sv_files (snd copied)) = {[ bytes_of_string "b" ]}) = true) as Hd by (vm_compute; reflexivity).
  assert (Clean (rq_query (backup_request "a/../b//w.json") "destination") = bytes_of_string "b/w.json") as Ed by (vm_compute; reflexivity).
  rewrite Ed in H. change (sv_wallet server0) with (Some toy_w0) in H. cbv beta iota zeta in H.
  destruct H as (f & _ & _ & _ & _ & _ & Hr). exists f. apply bool_decide_eq_true in Hd.
  destruct (fst copied) as [v|]; [|discriminate Hp]. destruct Hr as (Hm & Hat & _).
  split; [exact Hat|]. split; [exact Hm|exact Hd].
Defined.
End witnesses.
