(* ===== verification/GoStrings.v ===== *)
(** * Text: what the commands use of Go's libraries

    [strings], [net/url], [path/filepath] and [flag] on byte strings, as far as [src/cmd/cli],
    [src/cmd/node] and [config/config.go] call them, with the laws the later files use:
    escaping a query value and reading it back ([query_roundtrip]), splitting and joining. *)
From S2P Require Import Prelude Types Wallet Rpc.
#[local] Open Scope Z_scope.

(** ** [strings] *)

Definition text (s : list byte) : string := String.string_of_list_byte s.

Lemma text_bytes s : text (bytes_of_string s) = s.
Proof. apply String.string_of_list_byte_of_string. Qed.
Lemma bytes_text s : bytes_of_string (text s) = s.
Proof. apply String.list_byte_of_string_of_list_byte. Qed.
Lemma bytes_of_string_inj s t : bytes_of_string s = bytes_of_string t -> s = t.
Proof. intros H. by rewrite <- (text_bytes s), H, text_bytes. Qed.

(** [Cut], with whether the separator occurs. *)
Fixpoint Cut (sep : byte) (s : list byte) : list byte * list byte * bool :=
  match s with
  | [] => ([], [], false)
  | c :: s =>
      if Byte.eqb c sep then ([], s, true)
      else let '(before, after, found) := Cut sep s in (c :: before, after, found)
  end.

Fixpoint Split (sep : byte) (s : list byte) : list (list byte) :=
  match s with
  | [] => [[]]
  | c :: s =>
      if Byte.eqb c sep then [] :: Split sep s
      else match Split sep s with p :: l => (c :: p) :: l | [] => [[c]] end
  end.

Fixpoint Join (sep : byte) (l : list (list byte)) : list byte :=
  match l with
  | [] => []
  | [c] => c
  | c :: l => c ++ sep :: Join sep l
  end.

Definition HasSuffix (suf s : list byte) : bool := has_prefix (rev suf) (rev s).

(** [LastIndex] of one byte. *)
Fixpoint LastIndex (sep : byte) (s : list byte) : option nat :=
  match s with
  | [] => None
  | c :: s =>
      match LastIndex sep s with
      | Some i => Some (S i)
      | None => if Byte.eqb c sep then Some O else None
      end
  end.

Definition is_ascii (c : byte) : bool := byte.unsigned c <? 0x80.
Definition lower_byte (c : byte) : byte :=
  let z := byte.unsigned c in if (65 <=? z) && (z <=? 90) then byte.of_Z (z + 32) else c.

(** [ToLower]; [unicode] is the mapping of strings that are not all ASCII. *)
Definition ToLower (unicode : list byte -> list byte) (s : list byte) : list byte :=
  if forallb is_ascii s then map lower_byte s else unicode s.

(** [TrimSpace]: white space is what [Rpc.space_width] measures; at the end of a string it is
    a suffix of one to three bytes that is one space.  The fuel is the string's length. *)
Fixpoint trim_left (fuel : nat) (s : list byte) : list byte :=
  match fuel, space_width s with
  | S fuel, Some n => trim_left fuel (drop n s)
  | _, _ => s
  end.
Definition ends_in_space (s : list byte) (n : nat) : bool :=
  (n <=? length s)%nat && bool_decide (space_width (drop (length s - n) s) = Some n).
Fixpoint trim_right (fuel : nat) (s : list byte) : list byte :=
  match fuel, List.find (ends_in_space s) [1; 2; 3]%nat with
  | S fuel, Some n => trim_right fuel (take (length s - n) s)
  | _, _ => s
  end.
Definition TrimSpace (s : list byte) : list byte :=
  let s := trim_left (length s) s in trim_right (length s) s.

(** [Trim] with a set of ASCII bytes. *)
Fixpoint trim_set_left (cutset s : list byte) : list byte :=
  match s with
  | c :: s' => if existsb (Byte.eqb c) cutset then trim_set_left cutset s' else s
  | [] => []
  end.
Definition Trim (cutset s : list byte) : list byte :=
  rev (trim_set_left cutset (rev (trim_set_left cutset s))).

(** ** [bufio]: the lines of a file *)

Definition MaxScanTokenSize : nat := 64 * 1024.

Definition dropCR (line : list byte) : list byte :=
  match rev line with c :: r => if Byte.eqb c Byte.x0d then rev r else line | [] => [] end.

(** The pieces between newlines; the last one counts if it is not empty. *)
Definition text_lines (data : list byte) : list (list byte) :=
  let pieces := Split newline data in
  if bool_decide (List.last pieces [] = []) then removelast pieces else pieces.

(** [Scanner] with [ScanLines]: the lines it returns, and whether it stopped at one that does
    not fit its buffer ([ErrTooLong]). *)
Fixpoint scan (lines : list (list byte)) : list (list byte) * bool :=
  match lines with
  | [] => ([], false)
  | line :: lines =>
      if (MaxScanTokenSize <=? length line)%nat then ([], true)
      else let '(rest, tooLong) := scan lines in (dropCR line :: rest, tooLong)
  end.

(** ** [fmt] *)

(** [fmt.Sscanf(s, "%d", &x)] for an [int]. *)
Definition Sscanf_int (s : list byte) : option Z :=
  match skip_space (length s) s with
  | None => None
  | Some s =>
      let '(sign, rest) := match s with
        | c :: rest => if Byte.eqb c Byte.x2d || Byte.eqb c Byte.x2b then ([c], rest) else ([], s)
        | [] => ([], [])
        end in
      match digits_prefix rest with
      | [] => None
      | ds => match ParseInt64 (sign ++ ds) with (i, None) => Some i | (_, Some _) => None end
      end
  end.

(** ** [net/url]: query values *)

Definition amp : byte := Byte.x26.
Definition equals : byte := Byte.x3d.
Definition plus : byte := Byte.x2b.
Definition percent : byte := Byte.x25.
Definition semicolon : byte := Byte.x3b.
Definition qmark : byte := Byte.x3f.
Definition space : byte := Byte.x20.

Definition unreserved (c : byte) : bool :=
  let z := byte.unsigned c in
  ((48 <=? z) && (z <=? 57)) || ((65 <=? z) && (z <=? 90)) || ((97 <=? z) && (z <=? 122))
  || existsb (Byte.eqb c) [Byte.x2d; Byte.x5f; Byte.x2e; Byte.x7e].

Definition upperhex (n : Z) : byte := byte.of_Z (if n <? 10 then 48 + n else 55 + n).

Definition escape_byte (c : byte) : list byte :=
  if Byte.eqb c space then [plus]
  else if unreserved c then [c]
  else [percent; upperhex (byte.unsigned c / 16); upperhex (byte.unsigned c mod 16)].
Definition QueryEscape (s : list byte) : list byte := concat (map escape_byte s).

Fixpoint QueryUnescape (s : list byte) : option (list byte) :=
  match s with
  | [] => Some []
  | c :: s =>
      if Byte.eqb c percent then
        match s with
        | h :: l :: s =>
            match fromHexChar h, fromHexChar l with
            | Some a, Some b => cons (byte.of_Z (16 * a + b)) <$> QueryUnescape s
            | _, _ => None
            end
        | _ => None
        end
      else cons (if Byte.eqb c plus then space else c) <$> QueryUnescape s
  end.

(** [ParseQuery], whose error [URL.Query] drops: a pair with a semicolon or a bad escape is
    left out. *)
Definition parse_pair (pair : list byte) : list (list byte * list byte) :=
  if existsb (Byte.eqb semicolon) pair || bool_decide (pair = []) then []
  else
    let '(key, value, _) := Cut equals pair in
    match QueryUnescape key, QueryUnescape value with
    | Some key, Some value => [(key, value)]
    | _, _ => []
    end.
Definition ParseQuery (query : list byte) : list (list byte * list byte) :=
  concat (map parse_pair (Split amp query)).

(** [Values.Get]: the first value of the key, or the empty string. *)
Fixpoint values_Get (values : list (list byte * list byte)) (key : list byte) : list byte :=
  match values with
  | [] => []
  | (k, v) :: values => if bool_decide (k = key) then v else values_Get values key
  end.

(** ** [path/filepath] *)

(** [filepath.Join] of two elements. *)
Definition path_Join (a b : list byte) : list byte :=
  match List.filter (fun e => negb (bool_decide (e = []))) [a; b] with
  | [] => []
  | l => Clean (join l)
  end.

(** ** [flag] *)

Inductive FlagKind := BoolFlag | StringFlag.

(** Why the command exits: a request for help (status 0) or a mistake (status 2). *)
Inductive FlagErr := FlagHelp | BadFlag.

Definition ParseBool (s : list byte) : option bool :=
  if existsb (fun t => bool_decide (s = bytes_of_string t)) ["1"; "t"; "T"; "true"; "TRUE"; "True"]%string then Some true
  else if existsb (fun t => bool_decide (s = bytes_of_string t)) ["0"; "f"; "F"; "false"; "FALSE"; "False"]%string
  then Some false else None.

Inductive FlagValue := FBool (b : bool) | FString (s : list byte).

(** The name and the value of an argument that is a flag; [Err] is bad syntax. *)
Inductive FlagArg := NoFlag | EndFlags | IsFlag (name : list byte) (value : option (list byte)) | BadSyntax.
Definition dash : byte := Byte.x2d.
Definition flag_arg (s : list byte) : FlagArg :=
  match s with
  | c :: (d :: rest) as r =>
      if negb (Byte.eqb c dash) then NoFlag
      else if Byte.eqb d dash && bool_decide (rest = []) then EndFlags
      else
        let name := if Byte.eqb d dash then rest else r in
        match name with
        | [] => BadSyntax
        | e :: name' =>
            if Byte.eqb e dash || Byte.eqb e equals then BadSyntax
            else let '(before, value, found) := Cut equals name' in
                 IsFlag (e :: before) (if found then Some value else None)
        end
  | _ => NoFlag
  end.

(** [Parse]: the flags set, in the order given, and the other arguments. *)
Fixpoint flag_Parse (formal : list (string * FlagKind)) (args : list (list byte))
    : result FlagErr (list (string * FlagValue) * list (list byte)) :=
  match args with
  | [] => Ok ([], [])
  | s :: rest =>
      match flag_arg s with
      | NoFlag => Ok ([], args)
      | EndFlags => Ok ([], rest)
      | BadSyntax => Err BadFlag
      | IsFlag name value =>
          match List.find (fun f => String.eqb (fst f) (text name)) formal with
          | None =>
              Err (if String.eqb (text name) "help" || String.eqb (text name) "h" then FlagHelp else BadFlag)
          | Some (f, BoolFlag) =>
              match ParseBool (default (bytes_of_string "true") value) with
              | None => Err BadFlag
              | Some b =>
                  match flag_Parse formal rest with
                  | Ok (set, others) => Ok ((f, FBool b) :: set, others)
                  | Err e => Err e
                  end
              end
          | Some (f, StringFlag) =>
              match value, rest with
              | Some v, _ =>
                  match flag_Parse formal rest with
                  | Ok (set, others) => Ok ((f, FString v) :: set, others)
                  | Err e => Err e
                  end
              | None, v :: rest =>
                  match flag_Parse formal rest with
                  | Ok (set, others) => Ok ((f, FString v) :: set, others)
                  | Err e => Err e
                  end
              | None, [] => Err BadFlag
              end
          end
      end
  end.

(** The value of a flag: the last one set, or the default. *)
Definition string_flag (name : string) (dflt : list byte) (set : list (string * FlagValue)) : list byte :=
  fold_left (fun v f => match f with
    | (n, FString s) => if String.eqb n name then s else v
    | _ => v end) set dflt.
Definition bool_flag (name : string) (set : list (string * FlagValue)) : bool :=
  fold_left (fun v f => match f with
    | (n, FBool b) => if String.eqb n name then b else v
    | _ => v end) set false.

(** ** Splitting *)

Lemma byte_eqb_refl c : Byte.eqb c c = true.
Proof. by apply Byte.byte_dec_lb. Qed.

Section split.
Context (sep : byte).

Lemma Split_plain s : sep ∉ s -> Split sep s = [s].
Proof.
  induction s as [|c s IH]; intros Hs; [done|]. rewrite not_elem_of_cons in Hs. destruct Hs as [Hc Hs].
  cbn [Split]. destruct (Byte.eqb c sep) eqn:E; [by apply Byte.byte_dec_bl in E|]. by rewrite IH.
Qed.

Lemma Split_app a s : sep ∉ a -> Split sep (a ++ sep :: s) = a :: Split sep s.
Proof.
  induction a as [|c a IH]; intros Ha; cbn [app Split].
  - by rewrite byte_eqb_refl.
  - rewrite not_elem_of_cons in Ha. destruct Ha as [Hc Ha].
    destruct (Byte.eqb c sep) eqn:E; [by apply Byte.byte_dec_bl in E|]. by rewrite IH.
Qed.

Lemma Split_Join l : l <> [] -> Forall (fun a => sep ∉ a) l -> Split sep (Join sep l) = l.
Proof.
  intros Hl Hf. induction Hf as [|a l Ha Hf IH]; [done|]. destruct l as [|b l].
  - by apply Split_plain.
  - change (Join sep (a :: b :: l)) with (a ++ sep :: Join sep (b :: l)). rewrite Split_app by done. by rewrite IH.
Qed.

Lemma Join_Split s : Join sep (Split sep s) = s.
Proof.
  induction s as [|c s IH]; [done|]. cbn [Split]. destruct (Byte.eqb c sep) eqn:E.
  - apply Byte.byte_dec_bl in E as ->. destruct (Split sep s) as [|p l] eqn:Es; [by destruct s; cbn in Es; repeat case_match|].
    cbn [Join app]. f_equal. exact IH.
  - destruct (Split sep s) as [|p l] eqn:Es; [by cbn in *; subst|]. destruct l; cbn [Join app] in *; by rewrite <- IH.
Qed.

Lemma Cut_app a s : sep ∉ a -> Cut sep (a ++ sep :: s) = (a, s, true).
Proof.
  induction a as [|c a IH]; intros Ha; cbn [app Cut].
  - by rewrite byte_eqb_refl.
  - rewrite not_elem_of_cons in Ha. destruct Ha as [Hc Ha].
    destruct (Byte.eqb c sep) eqn:E; [by apply Byte.byte_dec_bl in E|]. by rewrite IH.
Qed.

Lemma Cut_plain s : sep ∉ s -> Cut sep s = (s, [], false).
Proof.
  induction s as [|c s IH]; intros Hs; [done|]. rewrite not_elem_of_cons in Hs. destruct Hs as [Hc Hs].
  cbn [Cut]. destruct (Byte.eqb c sep) eqn:E; [by apply Byte.byte_dec_bl in E|]. by rewrite IH.
Qed.

Lemma LastIndex_plain s : sep ∉ s -> LastIndex sep s = None.
Proof.
  induction s as [|c s IH]; intros Hs; [done|]. rewrite not_elem_of_cons in Hs. destruct Hs as [Hc Hs].
  cbn [LastIndex]. rewrite IH by done. destruct (Byte.eqb c sep) eqn:E; [by apply Byte.byte_dec_bl in E|done].
Qed.

Lemma LastIndex_app a s : sep ∉ s -> LastIndex sep (a ++ sep :: s) = Some (length a).
Proof.
  intros Hs. induction a as [|c a IH]; cbn [app LastIndex].
  - by rewrite LastIndex_plain, byte_eqb_refl.
  - by rewrite IH.
Qed.
End split.

(** ** Lines survive a file *)

(** A line that is read back as it was written, also by a reader that trims it. *)
Definition plain_line (s : list byte) : Prop :=
  newline ∉ s /\ TrimSpace s = s /\ s <> [] /\ (length s < MaxScanTokenSize)%nat.

Definition lines_text (l : list (list byte)) : list byte := concat (map (fun s => s ++ [newline]) l).

Lemma Split_lines l : Forall (fun s => newline ∉ s) l -> Split newline (lines_text l) = l ++ [[]].
Proof.
  induction 1 as [|s l Hs _ IH]; [done|]. unfold lines_text in *. cbn [map concat]. rewrite <- app_assoc.
  change ([newline] ++ ?x) with (newline :: x). by rewrite Split_app, IH.
Qed.

Lemma text_lines_text l : Forall (fun s => newline ∉ s) l -> text_lines (lines_text l) = l.
Proof.
  intros Hl. unfold text_lines. rewrite Split_lines by done. rewrite last_last, bool_decide_true by done.
  apply removelast_last.
Qed.

(** A trimmed string does not end in a carriage return. *)
Lemma trim_left_drop n s : exists k, trim_left n s = drop k s.
Proof.
  revert s. induction n as [|n IH]; intros s; [by exists O|]. cbn [trim_left].
  destruct (space_width s) as [w|]; [|by exists O]. destruct (IH (drop w s)) as [k ->].
  exists (w + k)%nat. by rewrite drop_drop.
Qed.
Lemma trim_right_take n s : exists k, trim_right n s = take k s.
Proof.
  revert s. induction n as [|n IH]; intros s; cbn [trim_right].
  - exists (length s). by rewrite take_ge by lia.
  - destruct (List.find (ends_in_space s) _) as [w|]; [|exists (length s); by rewrite take_ge by lia].
    destruct (IH (take (length s - w) s)) as [k ->]. exists (k `min` (length s - w))%nat. by rewrite take_take.
Qed.

Lemma trimmed_right s : TrimSpace s = s -> trim_right (length s) s = s.
Proof.
  unfold TrimSpace. destruct (trim_left_drop (length s) s) as [k ->]. intros H.
  assert (drop k s = s) as E; [|by rewrite E in H].
  destruct (trim_right_take (length (drop k s)) (drop k s)) as [j E]. rewrite E in H.
  apply (f_equal length) in H. rewrite length_take, length_drop in H. assert (length s = O \/ k = O) as [H0| ->] by lia; [|done].
  apply nil_length_inv in H0 as ->. by destruct k.
Qed.

Lemma dropCR_trimmed s : TrimSpace s = s -> dropCR s = s.
Proof.
  intros Ht%trimmed_right. unfold dropCR. destruct (rev s) as [|c r] eqn:Er.
  { apply (f_equal (@rev _)) in Er. by rewrite rev_involutive in Er. }
  destruct (Byte.eqb c Byte.x0d) eqn:Ec; [|done]. apply Byte.byte_dec_bl in Ec as ->.
  apply (f_equal (@rev _)) in Er. rewrite rev_involutive in Er. cbn [rev] in Er. exfalso.
  assert (List.find (ends_in_space s) [1; 2; 3]%nat = Some 1%nat) as Ef.
  { cbn [List.find]. unfold ends_in_space at 1. rewrite Er, length_app. cbn [length].
    rewrite Nat.add_sub, drop_app_length. destruct (Nat.leb_spec 1 (length (rev r) + 1)); [done|lia]. }
  assert (length s = S (length r)) as El by (rewrite Er, length_app, length_rev; cbn [length]; lia).
  rewrite El in Ht at 1. cbn [trim_right] in Ht. rewrite Ef in Ht.
  destruct (trim_right_take (length r) (take (length s - 1) s)) as [k Hk]. rewrite Hk in Ht.
  apply (f_equal length) in Ht. rewrite !length_take in Ht. lia.
Qed.

Lemma scan_plain l : Forall plain_line l -> scan l = (l, false).
Proof.
  induction 1 as [|s l (_ & Ht & _ & Hlen) _ IH]; [done|]. cbn [scan].
  destruct (Nat.leb_spec MaxScanTokenSize (length s)); [lia|]. by rewrite IH, dropCR_trimmed.
Qed.

(** ** Query values survive the wire *)

(** What [QueryEscape] writes for each byte, checked on all of them. *)
Definition escape_ok (c : byte) : bool :=
  bool_decide (QueryUnescape (escape_byte c) = Some [c])
  && forallb (fun e => negb (existsb (Byte.eqb e) [amp; equals; semicolon; qmark])) (escape_byte c).
Lemma escape_ok_all c : escape_ok c = true.
Proof. destruct c; vm_compute; reflexivity. Qed.

Lemma unescape_app c rest : QueryUnescape (escape_byte c ++ rest) = cons c <$> QueryUnescape rest.
Proof.
  pose proof (escape_ok_all c) as H. unfold escape_ok in H. apply andb_true_iff in H as [H _].
  apply bool_decide_eq_true in H. revert H. unfold escape_byte.
  destruct (Byte.eqb c space); [|destruct (unreserved c)]; cbn [QueryUnescape app].
  - intros [= <-]. destruct (QueryUnescape rest); done.
  - destruct (Byte.eqb c percent); [done|]. intros [= H]. by rewrite H.
  - destruct (fromHexChar _); [|done]. destruct (fromHexChar _); [|done]. intros [= H]. by rewrite H.
Qed.

Lemma unescape_escape s : QueryUnescape (QueryEscape s) = Some s.
Proof.
  unfold QueryEscape. induction s as [|c s IH]; [done|]. cbn [map concat]. by rewrite unescape_app, IH.
Qed.

Lemma escaped_plain e s : e ∈ [amp; equals; semicolon; qmark] -> e ∉ QueryEscape s.
Proof.
  intros He Hin. unfold QueryEscape in Hin. apply list_elem_of_In, in_concat in Hin as (l & Hl & Hin).
  apply in_map_iff in Hl as (c & <- & _). pose proof (escape_ok_all c) as H.
  unfold escape_ok in H. apply andb_true_iff in H as [_ H]. rewrite forallb_forall in H. specialize (H e Hin).
  apply negb_true_iff in H. assert (existsb (Byte.eqb e) [amp; equals; semicolon; qmark] = true) as E; [|congruence].
  apply existsb_exists. exists e. split; [by apply list_elem_of_In|]. by apply Byte.byte_dec_lb.
Qed.

(** A query as the client writes it: [name=value] pairs with an ampersand between. *)
Definition pair_text (p : string * list byte) : list byte := bytes_of_string (fst p) ++ equals :: QueryEscape (snd p).
Definition query_text (l : list (string * list byte)) : list byte := Join amp (map pair_text l).

(** A name that needs no escape. *)
Definition plain_name (n : string) : bool :=
  forallb unreserved (bytes_of_string n).

Lemma plain_escape s : forallb unreserved s = true -> QueryEscape s = s.
Proof.
  unfold QueryEscape. induction s as [|c s IH]; [done|]. cbn [forallb map concat]. rewrite andb_true_iff. intros [Hc Hs].
  rewrite IH by done. unfold escape_byte. rewrite Hc. destruct (Byte.eqb c space) eqn:E; [|done].
  apply Byte.byte_dec_bl in E as ->. discriminate Hc.
Qed.

Lemma pair_plain e p : e ∈ [amp; semicolon; qmark] -> plain_name p.1 = true -> e ∉ pair_text p.
Proof.
  intros He Hp. unfold pair_text. rewrite elem_of_app, elem_of_cons. intros [H|[->|H]].
  - rewrite <- (plain_escape _ Hp) in H. revert H. apply escaped_plain. set_solver.
  - by vm_compute in He; repeat (apply elem_of_cons in He as [He|He]; [discriminate He|]); apply elem_of_nil in He.
  - revert H. apply escaped_plain. set_solver.
Qed.

Lemma parse_pair_text p : plain_name p.1 = true -> parse_pair (pair_text p) = [(bytes_of_string p.1, p.2)].
Proof.
  intros Hp. unfold parse_pair. assert (existsb (Byte.eqb semicolon) (pair_text p) = false) as ->.
  { apply not_true_iff_false. rewrite existsb_exists. intros (c & Hc & E). apply Byte.byte_dec_bl in E as <-.
    apply list_elem_of_In in Hc. revert Hc. apply pair_plain; [set_solver|done]. }
  rewrite bool_decide_false by (unfold pair_text; by destruct (bytes_of_string p.1)). cbn [orb]. unfold pair_text.
  rewrite Cut_app, unescape_escape.
  - rewrite <- (plain_escape _ Hp) at 1. by rewrite unescape_escape.
  - rewrite <- (plain_escape _ Hp). apply escaped_plain. set_solver.
Qed.

Lemma ParseQuery_text l : Forall (fun p => plain_name p.1 = true) l ->
  ParseQuery (query_text l) = map (fun p => (bytes_of_string p.1, p.2)) l.
Proof.
  intros Hl. destruct l as [|p l]; [done|]. unfold ParseQuery, query_text. rewrite Split_Join.
  - rewrite map_map. induction Hl as [|q k Hq _ IH]; [done|]. cbn [map concat]. by rewrite parse_pair_text, IH.
  - done.
  - rewrite Forall_map. eapply Forall_impl; [exact Hl|]. intros q Hq. apply pair_plain; [set_solver|done].
Qed.

(** The value of a name in a list of pairs: that of the first pair with the name. *)
Fixpoint pair_value (l : list (string * list byte)) (name : string) : list byte :=
  match l with
  | [] => []
  | (n, v) :: l => if String.eqb n name then v else pair_value l name
  end.

Lemma values_pairs l name : values_Get (map (fun p => (bytes_of_string p.1, p.2)) l) (bytes_of_string name) = pair_value l name.
Proof.
  induction l as [|[n v] l IH]; [done|]. cbn [map values_Get pair_value fst snd]. destruct (String.eqb_spec n name) as [->|Hn].
  - by rewrite bool_decide_true.
  - rewrite bool_decide_false by (intros H; by apply Hn, bytes_of_string_inj). exact IH.
Qed.

(** Any values, sent as query text, are read back as they were. *)
Lemma query_roundtrip l name : Forall (fun p => plain_name p.1 = true) l ->
  values_Get (ParseQuery (query_text l)) (bytes_of_string name) = pair_value l name.
Proof. intros Hl. by rewrite ParseQuery_text, values_pairs. Qed.
