(* ===== verification/Cli.v ===== *)
(** * The command line client

    Models [src/cmd/cli/main.go]: the flags, [resolveEndpoint], and the request that
    [http.Get] sends for an endpoint; the printing of usage and answers is left out, the
    exit status is kept.  [cli_delivers] says that what the user typed is what the server
    reads; [cli_locked_out] that a server as the node starts it refuses the client. *)
From S2P Require Import Prelude.
From S2P Require Import Types.
From S2P Require Import Crypto.
From S2P Require Import Script.
From S2P Require Import Params.
From S2P Require Import Utxo.
From S2P Require Import Wallet.
From S2P Require Import WalletProps.
From S2P Require Import BlockValidation.
From S2P Require Import Pow.
From S2P Require Import Store.
From S2P Require Import FileLaws.
From S2P Require Import Chain.
From S2P Require Import Mempool.
From S2P Require Import ChainProps.
From S2P Require Import TimeAdjust.
From S2P Require Import Peer.
From S2P Require Import Manager.
From S2P Require Import NodeInv.
From S2P Require Import NodeProps.
From S2P Require Import Rpc.
From S2P Require Import RpcInv.
From S2P Require Import RpcProps.
From S2P Require Import GoStrings.
#[local] Open Scope Z_scope.

(** ** From a command to an endpoint *)

Inductive CliErr :=
| Requires (command : string)      (** fewer parameters than the usage says *)
| RequiresPOST
| UnknownCommand (command : string).

Inductive Resolved := Endpoint (e : list byte) | Usage.

Abbreviation command := (list (list byte) -> result CliErr Resolved).

(** A case without parameters. *)
Definition fixed (endpoint : string) : command := fun _ => Ok (Endpoint (bytes_of_string endpoint)).

(** [if len(params) < 1 { return error }; return prefix + url.QueryEscape(params[0])] *)
Definition with_arg (name prefix : string) : command := fun params =>
  match params with
  | [] => Err (Requires name)
  | p :: _ => Ok (Endpoint (bytes_of_string prefix ++ QueryEscape p))
  end.

(** ... with a second parameter, required or not. *)
Definition with_args (name prefix next : string) : command := fun params =>
  match params with
  | p :: q :: _ => Ok (Endpoint (bytes_of_string prefix ++ QueryEscape p ++ bytes_of_string next ++ QueryEscape q))
  | _ => Err (Requires name)
  end.
Definition with_option (name prefix next : string) : command := fun params =>
  match params with
  | [] => Err (Requires name)
  | [p] => Ok (Endpoint (bytes_of_string prefix ++ QueryEscape p))
  | p :: q :: _ => Ok (Endpoint (bytes_of_string prefix ++ QueryEscape p ++ bytes_of_string next ++ QueryEscape q))
  end.

Definition cli_getrawmempool : command := fun params =>
  let verbose := match params with
    | p :: _ => if bool_decide (p = bytes_of_string "true") then bytes_of_string "?verbose=true" else []
    | [] => []
    end in
  Ok (Endpoint (bytes_of_string "/getrawmempool" ++ verbose)).

Definition cli_getbalance : command := fun params =>
  let minconf := match params with p :: _ => p | [] => bytes_of_string "1" end in
  Ok (Endpoint (bytes_of_string "/getbalance?minconf=" ++ QueryEscape minconf)).

Definition cli_listunspent : command := fun params =>
  let q := bytes_of_string "/listunspent" in
  let q := match params with p :: _ => q ++ bytes_of_string "?minconf=" ++ QueryEscape p | [] => q end in
  let q := match params with
    | _ :: p :: _ =>
        let q := q ++ (if contains [qmark] q then [amp] else [qmark]) in
        q ++ bytes_of_string "maxconf=" ++ QueryEscape p
    | _ => q
    end in
  Ok (Endpoint q).

Definition cli_listtransactions : command := fun params =>
  let q := bytes_of_string "/listtransactions" in
  Ok (Endpoint (match params with p :: _ => q ++ bytes_of_string "?count=" ++ QueryEscape p | [] => q end)).

(** The cases of the switch, in its order. *)
Definition commands : list (string * command) := [
  ("getblockchaininfo", fixed "/getblockchaininfo"); ("getblockcount", fixed "/getblockcount");
  ("getbestblockhash", fixed "/getbestblockhash");
  ("getblockhash", with_arg "getblockhash" "/getblockhash?height=");
  ("getblock", with_arg "getblock" "/getblock?hash=");
  ("getblockbyheight", with_arg "getblockbyheight" "/getblockbyheight?height=");
  ("getdifficulty", fixed "/getdifficulty");
  ("getnetworkinfo", fixed "/getnetworkinfo"); ("getpeerinfo", fixed "/getpeerinfo");
  ("getconnectioncount", fixed "/getconnectioncount");
  ("addnode", with_arg "addnode" "/addnode?node=");
  ("disconnectnode", with_arg "disconnectnode" "/disconnectnode?address=");
  ("getmempoolinfo", fixed "/getmempoolinfo"); ("getrawmempool", cli_getrawmempool);
  ("getmempoolentry", with_arg "getmempoolentry" "/getmempoolentry?txid=");
  ("gettxout", with_args "gettxout" "/gettxout?txid=" "&n="); ("gettxoutsetinfo", fixed "/gettxoutsetinfo");
  ("submitblock", fun _ => Err RequiresPOST);
  ("getinfo", fixed "/getinfo"); ("stop", fixed "/stop"); ("help", fun _ => Ok Usage);
  ("getnewaddress", fixed "/getnewaddress"); ("getbalance", cli_getbalance); ("listunspent", cli_listunspent);
  ("sendtoaddress", with_args "sendtoaddress" "/sendtoaddress?address=" "&amount=");
  ("getwalletinfo", fixed "/getwalletinfo");
  ("dumpprivkey", with_arg "dumpprivkey" "/dumpprivkey?address=");
  ("importprivkey", with_arg "importprivkey" "/importprivkey?privkey=");
  ("validateaddress", with_arg "validateaddress" "/validateaddress?address=");
  ("getrawchangeaddress", fixed "/getrawchangeaddress");
  ("settxfee", with_arg "settxfee" "/settxfee?amount=");
  ("sendrawtransaction", with_arg "sendrawtransaction" "/sendrawtransaction?hexstring=");
  ("dumpwallet", fixed "/dumpwallet");
  ("signrawtransactionwithwallet", with_arg "signrawtransactionwithwallet" "/signrawtransactionwithwallet?hexstring=");
  ("getreceivedbyaddress", with_option "getreceivedbyaddress" "/getreceivedbyaddress?address=" "&minconf=");
  ("listaddressgroupings", fixed "/listaddressgroupings");
  ("backupwallet", with_arg "backupwallet" "/backupwallet?destination=");
  ("getaddressesbylabel", fixed "/getaddressesbylabel"); ("listtransactions", cli_listtransactions);
  ("gettransaction", with_arg "gettransaction" "/gettransaction?txid=");
  ("encryptwallet", with_arg "encryptwallet" "/encryptwallet?passphrase=");
  ("walletpassphrase", with_option "walletpassphrase" "/walletpassphrase?passphrase=" "&timeout=");
  ("walletlock", fixed "/walletlock"); ("getchainstatus", fixed "/getchainstatus");
  ("metrics", fixed "/metrics")]%string.

Fixpoint find_command (name : string) (l : list (string * command)) : option command :=
  match l with
  | [] => None
  | (n, c) :: l => if String.eqb n name then Some c else find_command name l
  end.

Definition resolveEndpoint (name : string) (params : list (list byte)) : result CliErr Resolved :=
  match find_command name commands with
  | Some c => c params
  | None => Err (UnknownCommand name)
  end.

(** ** The request *)

(** What [net/http] makes of [http.Get]: no credentials, no body. *)
Definition http_get (now : Z) (endpoint : list byte) : Request :=
  let '(path, query, _) := Cut qmark endpoint in
  {| rq_post := false; rq_path := text path; rq_auth := None;
     rq_query := fun name => values_Get (ParseQuery query) (bytes_of_string name);
     rq_body := []; rq_now := now |}.

(** ** [main] *)

Definition cli_flags : list (string * FlagKind) :=
  [("rpcconnect", StringFlag); ("rpcport", StringFlag); ("version", BoolFlag)]%string.

Inductive CliStep := Exit (code : Z) | HttpGet (baseURL endpoint : list byte).

Definition cli_main (unicode : list byte -> list byte) (argv : list (list byte)) : CliStep :=
  match flag_Parse cli_flags argv with
  | Err FlagHelp => Exit 0
  | Err BadFlag => Exit 2
  | Ok (set, args) =>
      let rpcConnect := string_flag "rpcconnect" (bytes_of_string "127.0.0.1") set in
      let rpcPort := string_flag "rpcport" (bytes_of_string "19445") set in
      if bool_flag "version" set then Exit 0
      else
        match args with
        | [] => Exit 1
        | arg :: params =>
            let baseURL := bytes_of_string "http://" ++ rpcConnect ++ bytes_of_string ":" ++ rpcPort in
            match resolveEndpoint (text (ToLower unicode arg)) params with
            | Err _ => Exit 1
            | Ok Usage => Exit 0
            | Ok (Endpoint endpoint) => HttpGet baseURL endpoint
            end
        end
  end.

(** The exit status after the answer; [None] is a failed connection. *)
Definition cli_answered (r : option Response) : Z :=
  match r with
  | Some (ROk _) => 0
  | Some (RErr _ _) | None => 1
  end.

Section session.
Context {St : Type} `{BS : BlockStore St} `{EN : Engine} {EC : ECOps} {WO : WalletOps}.
Context {PS : Type} `{PST : PeerStore PS}.
Context (cenv : Env) (nenv : NetEnv) (wenv : WalletEnv) (renv : RpcEnv) (unicode : list byte -> list byte).
Implicit Types (s : Server (St := St) (PS := PS)) (argv : list (list byte)).
#[local] Abbreviation serve := (serve_http cenv nenv wenv renv).
#[local] Abbreviation run := (server_run cenv nenv wenv renv).

(** A run of the client while the node's server listens at [rpcAddr] and nothing else
    answers: the exit status and the server after it. *)
Definition cli_session (now : Z) (rpcAddr : list byte) argv s : Z * Server :=
  match cli_main unicode argv with
  | Exit code => (code, s)
  | HttpGet baseURL endpoint =>
      if bool_decide (baseURL = bytes_of_string "http://" ++ rpcAddr) then
        let '(r, s) := serve (http_get now endpoint) s in (cli_answered (Some r), s)
      else (cli_answered None, s)
  end.

(** ** What is typed is what the server reads *)

(** The usage text: each command with its parameters, as many as the number are required. *)
Definition usage : list (string * (nat * list string)) := [
  ("getblockchaininfo", (0, [])); ("getblockcount", (0, [])); ("getbestblockhash", (0, []));
  ("getblockhash", (1, ["height"])); ("getblock", (1, ["hash"])); ("getblockbyheight", (1, ["height"]));
  ("getdifficulty", (0, [])); ("getnetworkinfo", (0, [])); ("getpeerinfo", (0, []));
  ("getconnectioncount", (0, [])); ("addnode", (1, ["node"])); ("disconnectnode", (1, ["address"]));
  ("getmempoolinfo", (0, [])); ("getrawmempool", (0, ["verbose"])); ("getmempoolentry", (1, ["txid"]));
  ("gettxout", (2, ["txid"; "n"])); ("gettxoutsetinfo", (0, [])); ("getnewaddress", (0, []));
  ("getbalance", (0, ["minconf"])); ("listunspent", (0, ["minconf"; "maxconf"]));
  ("sendtoaddress", (2, ["address"; "amount"])); ("getwalletinfo", (0, [])); ("dumpprivkey", (1, ["address"]));
  ("importprivkey", (1, ["privkey"])); ("validateaddress", (1, ["address"])); ("getrawchangeaddress", (0, []));
  ("settxfee", (1, ["amount"])); ("sendrawtransaction", (1, ["hexstring"]));
  ("signrawtransactionwithwallet", (1, ["hexstring"])); ("getreceivedbyaddress", (1, ["address"; "minconf"]));
  ("listaddressgroupings", (0, [])); ("backupwallet", (1, ["destination"])); ("getaddressesbylabel", (0, []));
  ("listtransactions", (0, ["count"])); ("gettransaction", (1, ["txid"])); ("dumpwallet", (0, []));
  ("encryptwallet", (1, ["passphrase"])); ("walletpassphrase", (1, ["passphrase"; "timeout"]));
  ("walletlock", (0, [])); ("getinfo", (0, [])); ("stop", (0, [])); ("getchainstatus", (0, []));
  ("metrics", (0, []))]%string%nat.

(** The parameters in the order typed, each under its name; [getrawmempool] only takes
    [true], and [getbalance] has a default. *)
Definition typed (name : string) (names : list string) (params : list (list byte)) : list (string * list byte) :=
  if String.eqb name "getrawmempool" then
    match params with
    | p :: _ => if bool_decide (p = bytes_of_string "true") then [("verbose"%string, p)] else []
    | [] => []
    end
  else if String.eqb name "getbalance" then [("minconf"%string, match params with p :: _ => p | [] => bytes_of_string "1" end)]
  else zip names params.

(** The endpoint of a command with such pairs. *)
Definition endpoint_text (name : string) (pairs : list (string * list byte)) : list byte :=
  bytes_of_string "/" ++ bytes_of_string name ++ match pairs with [] => [] | _ => qmark :: query_text pairs end.

(** The command does what its line of the usage text says. *)
Definition conforms (u : string * (nat * list string)) : Prop :=
  forall params,
    resolveEndpoint u.1 params =
      if (length params <? u.2.1)%nat then Err (Requires u.1)
      else Ok (Endpoint (endpoint_text u.1 (typed u.1 u.2.2 params))).

Lemma usage_conforms : Forall conforms usage.
Proof.
  repeat (apply List.Forall_cons; [intros [|p [|q r]]; try reflexivity|]); [| | |apply List.Forall_nil].
  1-2: change (Ok (Endpoint (bytes_of_string "/getrawmempool" ++
         (if bool_decide (p = bytes_of_string "true") then bytes_of_string "?verbose=true" else [])))
       = Ok (E := CliErr) (Endpoint (endpoint_text "getrawmempool"
           (if bool_decide (p = bytes_of_string "true") then [("verbose"%string, p)] else []))));
       case_bool_decide; subst; reflexivity.
  change (Ok (E := CliErr) (Endpoint (((bytes_of_string "/listunspent?minconf=" ++ QueryEscape p) ++ [amp])
            ++ bytes_of_string "maxconf=" ++ QueryEscape q))
    = Ok (Endpoint (bytes_of_string "/listunspent?minconf=" ++ QueryEscape p ++ amp :: bytes_of_string "maxconf=" ++ QueryEscape q))).
  by rewrite <- !app_assoc.
Qed.

(** The path and the values of the request for an endpoint. *)
Lemma http_get_endpoint now name pairs :
  qmark ∉ bytes_of_string name -> Forall (fun p => plain_name p.1 = true) pairs ->
  let rq := http_get now (endpoint_text name pairs) in
  rq_path rq = String.append "/" name /\ rq_post rq = false /\ rq_auth rq = None
  /\ forall n, rq_query rq n = pair_value pairs n.
Proof.
  intros Hn Hp. assert (text (bytes_of_string "/" ++ bytes_of_string name) = String.append "/" name) as Et
    by exact (text_bytes (String.append "/" name)).
  assert (qmark ∉ bytes_of_string "/" ++ bytes_of_string name) as Hq.
  { rewrite elem_of_app. intros [H|H]; [|done]. by apply list_elem_of_singleton in H. }
  unfold http_get, endpoint_text. rewrite app_assoc. destruct pairs as [|p pairs].
  - rewrite app_nil_r, Cut_plain by done. split_and!; done.
  - rewrite Cut_app by done. split_and!; try done. intros n. by apply query_roundtrip.
Qed.

(** What is checked of a line of the usage text by evaluation. *)
Definition usage_ok (u : string * (nat * list string)) : bool :=
  negb (existsb (Byte.eqb qmark) (bytes_of_string u.1)) && forallb plain_name u.2.2 && plain_name u.1
  && (match route (String.append "/" u.1) (routes (St := St) (PS := PS) cenv nenv wenv renv) with Some _ => true | None => false end
      || existsb (String.eqb u.1) ["getpeerinfo"; "metrics"]%string).
Lemma usage_ok_all : forallb usage_ok usage = true.
Proof. reflexivity. Qed.

Lemma typed_plain name names params :
  forallb plain_name names = true -> Forall (fun p => plain_name p.1 = true) (typed name names params).
Proof.
  intros Hn. unfold typed. destruct (String.eqb _ _); [|destruct (String.eqb _ _)].
  - destruct params; [constructor|]. case_bool_decide; repeat constructor.
  - repeat constructor.
  - rewrite forallb_forall in Hn. apply List.Forall_forall. intros [n v] H. apply in_combine_l in H. by apply Hn.
Qed.

Definition default_addr : list byte := bytes_of_string "127.0.0.1:19445".

Lemma default_main cmd params : flag_arg cmd = NoFlag ->
  cli_main unicode (cmd :: params) =
    match resolveEndpoint (text (ToLower unicode cmd)) params with
    | Err _ => Exit 1
    | Ok Usage => Exit 0
    | Ok (Endpoint e) => HttpGet (bytes_of_string "http://" ++ default_addr) e
    end.
Proof. intros H. unfold cli_main. cbn [flag_Parse]. rewrite H. reflexivity. Qed.

(** A known command with enough parameters sends one request. *)
Lemma session_sends now s cmd name required names params :
  (name, (required, names)) ∈ usage -> flag_arg cmd = NoFlag -> ToLower unicode cmd = bytes_of_string name ->
  (required <= length params)%nat ->
  let rq := http_get now (endpoint_text name (typed name names params)) in
  cli_session now default_addr (cmd :: params) s = (cli_answered (Some (serve rq s).1), (serve rq s).2).
Proof.
  intros Hu Hf Hl Hr. assert (resolveEndpoint name params = Ok (Endpoint (endpoint_text name (typed name names params)))) as E.
  { pose proof usage_conforms as Hc. rewrite List.Forall_forall in Hc. apply list_elem_of_In in Hu.
    specialize (Hc _ Hu params). cbn [fst snd] in Hc. destruct (Nat.ltb_spec (length params) required); [lia|done]. }
  unfold cli_session. rewrite (default_main _ _ Hf), Hl, text_bytes, E. rewrite bool_decide_true by done.
  by destruct (serve _ s).
Qed.

Lemma usage_facts name required names : (name, (required, names)) ∈ usage ->
  qmark ∉ bytes_of_string name /\ forallb plain_name names = true
  /\ (is_Some (route (String.append "/" name) (routes (St := St) (PS := PS) cenv nenv wenv renv))
      \/ name ∈ ["getpeerinfo"; "metrics"]%string).
Proof.
  intros Hu. pose proof usage_ok_all as H. rewrite forallb_forall in H. apply list_elem_of_In in Hu.
  specialize (H _ Hu). unfold usage_ok in H. cbn [fst snd] in H. rewrite !andb_true_iff in H.
  destruct H as [[[Hq Hn] _] Hr]. split_and!; [|done|].
  - intros Hin. apply negb_true_iff in Hq. apply not_true_iff_false in Hq. apply Hq, existsb_exists.
    exists qmark. split; [by apply list_elem_of_In|apply byte_eqb_refl].
  - apply orb_true_iff in Hr as [Hr|Hr]; [left; by destruct (route _ _); [eexists|]|right].
    apply existsb_exists in Hr as (x & Hx & E). apply String.eqb_eq in E as ->. by apply list_elem_of_In.
Qed.

(** What the user types reaches the handler unchanged.  On a server without credentials,
    a command of the usage text, in upper or lower case, with at least its required
    parameters (any bytes), is served by the route of its name, which reads exactly the
    typed values under the names the usage text gives; with too few the client exits with
    status 1 and sends nothing. *)
Theorem cli_delivers now s cmd name required names params :
  (name, (required, names)) ∈ usage -> flag_arg cmd = NoFlag -> ToLower unicode cmd = bytes_of_string name ->
  sv_authUser s = [] ->
  if (length params <? required)%nat then cli_session now default_addr (cmd :: params) s = (1, s)
  else
    exists rq, rq_path rq = String.append "/" name /\ rq_post rq = false
      /\ (forall n, rq_query rq n = pair_value (typed name names params) n)
      /\ (is_Some (route (rq_path rq) (routes cenv nenv wenv renv) : option (handler (St := St) (PS := PS)))
          \/ name ∈ ["getpeerinfo"; "metrics"]%string)
      /\ cli_session now default_addr (cmd :: params) s
         = let '(r, s') := mux cenv nenv wenv renv rq s in (cli_answered (Some r), s').
Proof.
  intros Hu Hf Hl Ha. destruct (usage_facts _ _ _ Hu) as (Hq & Hn & Hr). destruct (Nat.ltb_spec (length params) required).
  - pose proof usage_conforms as Hc. rewrite List.Forall_forall in Hc. apply list_elem_of_In in Hu.
    specialize (Hc _ Hu params). cbn [fst snd] in Hc. rewrite (proj2 (Nat.ltb_lt _ _)) in Hc by done.
    unfold cli_session. by rewrite (default_main _ _ Hf), Hl, text_bytes, Hc.
  - destruct (http_get_endpoint now name (typed name names params) Hq (typed_plain _ _ _ Hn)) as (Hp & Hm & _ & Hv).
    exists (http_get now (endpoint_text name (typed name names params))). rewrite Hp. split_and!; try done.
    rewrite (session_sends now s cmd name required names params) by done.
    unfold serve_http. rewrite bool_decide_true by done. cbn [negb]. by destruct (mux _ _ _ _ _ s).
Qed.

(** The commands for the routes that insist on POST resolve like the others, or not at all. *)
Lemma post_resolved name params : String.append "/" name ∈ post_routes ->
  (exists required names, (name, (required, names)) ∈ usage
     /\ resolveEndpoint name params = if (length params <? required)%nat then Err (Requires name)
                                      else Ok (Endpoint (endpoint_text name (typed name names params))))
  \/ exists e, resolveEndpoint name params = Err e.
Proof.
  intros Hp. assert (name = "submitblock"%string \/ exists required names, (name, (required, names)) ∈ usage) as [->|(r & ns & Hu)].
  { assert (existsb (String.eqb name) ("submitblock" :: map fst usage)%string = true) as E.
    { unfold post_routes in Hp. rewrite !elem_of_cons, elem_of_nil in Hp.
      assert (forall t, String.append "/" name = String.append "/" t -> name = t) as Hi by (intros t [= H]; exact H).
      repeat (destruct Hp as [Hp|Hp]; [match type of Hp with _ = String.String _ ?t => apply (Hi t) in Hp as -> end; reflexivity|]).
      done. }
    apply existsb_exists in E as (n & [<-|Hin] & ->%String.eqb_eq); [by left|right].
    apply in_map_iff in Hin as ([n' [r ns]] & <- & Hin). exists r, ns. by apply list_elem_of_In. }
  - right. by eexists.
  - left. exists r, ns. split; [done|]. pose proof usage_conforms as Hc. rewrite List.Forall_forall in Hc.
    apply list_elem_of_In in Hu. exact (Hc _ Hu params).
Qed.

(** A server with credentials, as the node starts it unless told otherwise, refuses the
    client.  The client sends no credentials and only GET requests: whatever its arguments
    and whatever happened to the server before, the server stays as it is and the client
    exits with an error, unless it only prints its version or usage.  Without credentials
    the commands that pay, import, encrypt, unlock, set the fee or stop still fail. *)
Theorem cli_locked_out now random write_fails files m w p auth s es argv :
  NewServer random write_fails files m w p auth = Ok s ->
  match auth with
  | Some _ => forall addr, let '(code, s') := cli_session now addr argv (run s es) in
                s' = run s es /\ (code = 0 -> cli_main unicode argv = Exit 0)
  | None => forall cmd params, argv = cmd :: params -> flag_arg cmd = NoFlag ->
                String.append "/" (text (ToLower unicode cmd)) ∈ post_routes ->
                cli_session now default_addr argv (run s es) = (1, run s es)
  end.
Proof.
  intros Hnew. destruct auth as [auth|]; cbn [NewServer] in Hnew.
  - intros addr. assert (sv_authUser s <> []) as Hu.
    { revert Hnew. unfold initAuth. destruct (negb _ && _) eqn:E.
      - apply andb_true_iff in E as [E _]. apply negb_true_iff, bool_decide_eq_false in E. by intros [= <-].
      - destruct random; [|done]. destruct write_fails; [done|]. by intros [= <-]. }
    unfold cli_session. destruct (cli_main unicode argv) as [c|base e]; [split; [done|by intros ->]|].
    destruct (bool_decide _); [|done]. rewrite serve_unauthorized; [done| |].
    + by rewrite (sc_user _ _ (run_config cenv nenv wenv renv s es)).
    + unfold admitted, http_get. destruct (Cut qmark e) as [[path query] found]. by apply bool_decide_eq_false.
  - intros cmd params -> Hf Hp. assert (sv_authUser (run s es) = []) as Hu.
    { rewrite (sc_user _ _ (run_config cenv nenv wenv renv s es)). by injection Hnew as <-. }
    unfold cli_session. rewrite (default_main _ _ Hf).
    destruct (post_resolved _ params Hp) as [(required & names & Hin & ->)|[e ->]]; [|done].
    destruct (usage_facts _ _ _ Hin) as (Hq & Hn & _). destruct (_ <? _)%nat; [done|].
    destruct (http_get_endpoint now _ _ Hq (typed_plain (text (ToLower unicode cmd)) names params Hn)) as (Ep & Em & _ & _).
    rewrite bool_decide_true by done. unfold serve_http. rewrite bool_decide_true by done. cbn [negb].
    rewrite post_required; [done|done|by rewrite Ep].
Qed.
End session.

(** ** The small server of [RpcProps], with and without credentials *)

Section witnesses.
Import ToyEC ToyWallet MemDB Example ExampleNode ExampleServer.
#[local] Abbreviation open0 := ({|
  sv_node := node0; sv_wallet := Some toy_w0; sv_params := rich; sv_feePerByte := defaultFeePerByte;
  sv_authUser := []; sv_authPassword := []; sv_stopping := false; sv_files := no_files |}).
#[local] Abbreviation session0 := (cli_session env0 nenv0 toy_env renv0 id 5 default_addr).
Definition argv_hash : list (list byte) := map bytes_of_string ["GetBlockHash"; "0"]%string.
Definition argv_pay : list (list byte) := map bytes_of_string ["sendtoaddress"; "addr&?"; "40 000"]%string.

(** The hash of the genesis block is found without credentials; the payment is refused with
    and without them. *)
Example cli_runs :
  (session0 argv_hash open0).1 = 0 /\ (session0 argv_hash server0).1 = 1
  /\ (session0 argv_pay open0).1 = 1 /\ (session0 argv_pay server0).1 = 1
  /\ resolveEndpoint "sendtoaddress" (tail argv_pay)
     = Ok (Endpoint (bytes_of_string "/sendtoaddress?address=addr%26%3F&amount=40+000"))
  /\ (session0 (map bytes_of_string ["-version"]%string) server0).1 = 0
  /\ (session0 (map bytes_of_string ["--rpcport=1"; "getinfo"]%string) open0).1 = 1
  /\ (session0 (map bytes_of_string ["-rpcuser=u"; "getinfo"]%string) open0).1 = 2.
Proof. vm_compute. repeat split. Qed.

Lemma cli_delivers_witness : exists rq,
  rq_path rq = "/getblockhash"%string /\ rq_query rq "height" = bytes_of_string "0"
  /\ session0 argv_hash open0
     = let '(r, s') := mux env0 nenv0 toy_env renv0 rq open0 in (cli_answered (Some r), s').
Proof.
  pose proof (cli_delivers env0 nenv0 toy_env renv0 id 5 open0 (bytes_of_string "GetBlockHash") "getblockhash" 1 ["height"%string]
    [bytes_of_string "0"] (list_elem_of_lookup_2 usage 3 _ eq_refl) eq_refl eq_refl eq_refl) as H.
  cbn [Nat.ltb Nat.leb length] in H. destruct H as (rq & Hp & _ & Hq & _ & Hs).
  exists rq. split; [exact Hp|]. split; [exact (Hq "height"%string)|exact Hs].
Defined.

Lemma cli_locked_out_witness :
  forall addr, let '(code, s') := cli_session env0 nenv0 toy_env renv0 id 5 addr argv_hash server0 in
    s' = server0 /\ (code = 0 -> cli_main id argv_hash = Exit 0).
Proof.
  exact (cli_locked_out env0 nenv0 toy_env renv0 id 5 None false no_files node0 toy_w0 rich (Some auth0) server0 [] argv_hash eq_refl).
Defined.
End witnesses.
