(* ===== verification/Legacy.v ===== *)
(** * The legacy database and its migration

    [store/bolt.go], over the operations of bbolt (class [Bolt], laws [BoltLaws]): the peer
    database, which is an instance of the interface [PeerStore], and the old block database.
    [store/peerdump.go]: the text file of peers.  [migrateFromLegacy] of
    [src/cmd/node/main.go] copies an old database into a new block store; the node's next
    start-up then rebuilds the unspent set ([migration_restarts]). *)
From S2P Require Import Prelude Types Sha256 Crypto Target Params Script Utxo TxValidation.
From S2P Require Import BlockValidation Pow Ledger Store FileLaws Chain ChainInv Reorg Accept ChainSafety.
From S2P Require Import Miner ChainProps Persist Restart.
From S2P Require Import Protocol TimeAdjust Peer Manager Rpc GoStrings.
#[local] Open Scope Z_scope.
#[local] Open Scope go_scope.

(** ** bbolt *)

Inductive Bucket :=
  BlocksBucket | HeadersBucket | HeightIndexBucket | HashIndexBucket | ChainStateBucket | PeersBucket
| UtxoBucket | UndoBucket.
#[global] Instance bucket_eq_dec : EqDecision Bucket.
Proof. solve_decision. Defined.

Inductive BoltErr := BoltFailed.

(** One transaction each: [View] with [Get], [View] with [ForEach], [Update] with [Put] or
    [Delete].  Any of them may fail. *)
Class Bolt (DB : Type) := {
  bolt_Get : DB -> Bucket -> list byte -> result BoltErr (option (list byte));
  bolt_ForEach : DB -> Bucket -> result BoltErr (list (list byte * list byte));
  bolt_Put : DB -> Bucket -> list byte -> list byte -> result BoltErr unit * DB;
  bolt_Delete : DB -> Bucket -> list byte -> result BoltErr unit * DB }.

(** Each bucket is a map; a failed transaction changes nothing. *)
Class BoltLaws (DB : Type) `{Bolt DB} := {
  bolt_map : DB -> Bucket -> gmap (list byte) (list byte);
  bolt_Get_sound : forall d b k v, bolt_Get d b k = Ok v -> bolt_map d b !! k = v;
  bolt_ForEach_all : forall d b l, bolt_ForEach d b = Ok l -> l ≡ₚ map_to_list (bolt_map d b);
  bolt_Put_law : forall d b k v r d', bolt_Put d b k v = (r, d') -> forall b',
    bolt_map d' b' = if is_ok r && bool_decide (b' = b) then <[k := v]> (bolt_map d b') else bolt_map d b';
  bolt_Delete_law : forall d b k r d', bolt_Delete d b k = (r, d') -> forall b',
    bolt_map d' b' = if is_ok r && bool_decide (b' = b) then delete k (bolt_map d b') else bolt_map d b' }.

(** ** [BoltStore] ([bolt.go]) *)

Definition chainTipKey : list byte := bytes_of_string "tip".

Definition heightToBytes (h : Z) : list byte := rev (PutUint32LE h).

Inductive LegacyErr :=
| ViewFailed (e : BoltErr)
| NoSuchBlock (hash : Hash)
| BadBlock (e : DecodeErr)
| BadHeader (e : DecodeErr)
| NoBlockAtHeight (height : Z)
| CorruptHeight (height : Z)
| TipNotSet
| CorruptTip
| UndoNotFound (hash : Hash).

Section bolt.
Context {DB : Type} `{BD : Bolt DB}.
Implicit Types (d : DB).

(** [GetPeers], [PutPeer], [RemovePeer]. *)
Definition bolt_GetPeers d : result BoltErr (list Addr) :=
  let* l := bolt_ForEach d PeersBucket in Ok (map fst l).
Definition bolt_PutPeer d (addr : Addr) : result BoltErr unit * DB := bolt_Put d PeersBucket addr [Byte.x01].
Definition bolt_RemovePeer d (addr : Addr) : result BoltErr unit * DB := bolt_Delete d PeersBucket addr.

(** What the manager sees of it: it ignores the errors of [PutPeer], which changes nothing then. *)
#[global] Instance bolt_peers : PeerStore DB := {
  PutPeer d addr := (bolt_PutPeer d addr).2;
  GetPeers d := match bolt_GetPeers d with Ok l => Ok l | Err _ => Err tt end }.

Definition legacy_get d (b : Bucket) (k : list byte) : result LegacyErr (option (list byte)) :=
  rwrap ViewFailed (bolt_Get d b k).

Definition LegacyHasBlock d (hash : Hash) : result LegacyErr bool :=
  let* data := legacy_get d BlocksBucket hash in
  Ok (match data with Some _ => true | None => false end).

Definition LegacyGetBlock d (hash : Hash) : result LegacyErr Block :=
  let* data := legacy_get d BlocksBucket hash in
  match data with
  | None => Err (NoSuchBlock hash)
  | Some data => let* (block, _) := rwrap BadBlock (blk_Deserialize data) in Ok block
  end.

Definition LegacyGetHeader d (hash : Hash) : result LegacyErr BlockHeader :=
  let* data := legacy_get d HeadersBucket hash in
  match data with
  | None => Err (NoSuchBlock hash)
  | Some data => let* (header, _) := rwrap BadHeader (hdr_Deserialize data) in Ok header
  end.

Definition LegacyGetBlockByHeight d (height : Z) : result LegacyErr Hash :=
  let* data := legacy_get d HeightIndexBucket (heightToBytes height) in
  match data with
  | None => Err (NoBlockAtHeight height)
  | Some data =>
      check negb (length data =? HashSize)%nat else CorruptHeight height;
      Ok data
  end.

Definition LegacyGetChainTip d : result LegacyErr (Hash * Z) :=
  let* data := legacy_get d ChainStateBucket chainTipKey in
  match data with
  | None => Err TipNotSet
  | Some data =>
      check negb (length data =? HashSize + 4)%nat else CorruptTip;
      Ok (take HashSize data, ReadUintLE (rev (drop HashSize data)))
  end.

Definition LegacyGetUndoData d (blockHash : Hash) : result LegacyErr (list byte) :=
  let* data := legacy_get d UndoBucket blockHash in
  match data with
  | None => Err (UndoNotFound blockHash)
  | Some data => Ok data
  end.

(** The error of [View] is dropped. *)
Definition LegacyHasData d : bool :=
  match bolt_Get d ChainStateBucket chainTipKey with Ok (Some _) => true | _ => false end.
End bolt.

(** ** The file of peers ([peerdump.go]) *)

Section peerdump.
Context {DB : Type} `{BD : Bolt DB}.
Implicit Types (d : DB).

(** What [DumpPeersDat] writes, if it writes the file. *)
Definition DumpPeersDat d : option (list byte) :=
  match bolt_GetPeers d with
  | Err _ => None
  | Ok [] => None
  | Ok peers => Some (lines_text peers)
  end.

(** One line, with the addresses [known] so far. *)
Definition load_peer (line : list byte) (known : list Addr) d : list Addr * DB :=
  let addr := TrimSpace line in
  if bool_decide (addr = []) || bool_decide (addr ∈ known) then (known, d)
  else
    match bolt_PutPeer d addr with
    | (Ok _, d) => (addr :: known, d)
    | (Err _, d) => (known, d)
    end.

(** [file] is the contents, if the file can be opened; an error of [GetPeers] or of the
    scanner is ignored. *)
Definition LoadPeersDat (file : option (list byte)) d : DB :=
  match file with
  | None => d
  | Some data =>
      let existing := match bolt_GetPeers d with Ok l => l | Err _ => [] end in
      (fold_left (fun '(known, d) line => load_peer line known d) (scan (text_lines data)).1 (existing, d)).2
  end.
End peerdump.

(** ** The migration ([main.go]) *)

Inductive MigrateErr :=
| NoLegacyDB
| OpenLegacy (e : BoltErr)
| NoChainData
| LegacyTip (e : LegacyErr)
| OpenNew (e : StoreErr)
| LegacyHash (height : Z) (e : LegacyErr)
| LegacyBlock (height : Z) (e : LegacyErr)
| MigrateWrite (height : Z) (e : StoreErr)
| MigrateIndex (height : Z) (e : StoreErr)
| MigrateTip (e : StoreErr).

Section migrate.
Context {DB : Type} `{BD : Bolt DB} {St : Type} `{BS : BlockStore St} `{EC : ECOps}.
Implicit Types (d : DB) (s : St).

(** The record of a migrated block. *)
Definition migrated_record (block : Block) (h : Z) (loc : Z * Z * Z) (work : Z) : DiskBlockIndex :=
  let '(fileNum, offset, size) := loc in
  {| bi_Header := blk_Header block; bi_Height := h;
     bi_Status := Z.lor (Z.lor StatusHaveData StatusValidHeader) StatusValidTx;
     bi_TxCount := u32 (len (blk_Transactions block));
     bi_FileNum := fileNum; bi_DataPos := offset; bi_DataSize := size;
     bi_UndoFile := 0; bi_UndoPos := 0; bi_UndoSize := 0; bi_ChainWork := Some work |}.

Definition with_migrated_undo (rec : DiskBlockIndex) (undoOffset undoSize : Z) : DiskBlockIndex :=
  {| bi_Header := bi_Header rec; bi_Height := bi_Height rec;
     bi_Status := Z.lor (bi_Status rec) StatusHaveUndo;
     bi_TxCount := bi_TxCount rec; bi_FileNum := bi_FileNum rec; bi_DataPos := bi_DataPos rec;
     bi_DataSize := bi_DataSize rec; bi_UndoFile := bi_FileNum rec; bi_UndoPos := undoOffset;
     bi_UndoSize := undoSize; bi_ChainWork := bi_ChainWork rec |}.

(** Undo data is copied if there is any; a failure to write it is ignored. *)
Definition migrate_undo d (hash : Hash) (rec : DiskBlockIndex) s : DiskBlockIndex * St :=
  match LegacyGetUndoData d hash with
  | Ok undoBytes =>
      if (0 <? len undoBytes) then
        match WriteUndo s (bi_FileNum rec) undoBytes with
        | (Ok (undoOffset, undoSize), s) =>
            (with_migrated_undo rec undoOffset undoSize, s)
        | (Err _, s) => (rec, s)
        end
      else (rec, s)
  | Err _ => (rec, s)
  end.

(** One turn of the loop: the block at height [h] on top of work [cumulativeWork]. *)
Definition migrate_block d (h cumulativeWork : Z) s : result MigrateErr Z * St :=
  match LegacyGetBlockByHeight d h with
  | Err e => (Err (LegacyHash h e), s)
  | Ok hash =>
      match LegacyGetBlock d hash with
      | Err e => (Err (LegacyBlock h e), s)
      | Ok block =>
          match WriteBlock s hash block with
          | (Err e, s) => (Err (MigrateWrite h e), s)
          | (Ok loc, s) =>
              let cumulativeWork := cumulativeWork + CalcWork (hdr_Bits (blk_Header block)) in
              let '(rec, s) := migrate_undo d hash (migrated_record block h loc cumulativeWork) s in
              match PutBlockIndex s hash rec with
              | (Err e, s) => (Err (MigrateIndex h e), s)
              | (Ok _, s) => (Ok cumulativeWork, s)
              end
          end
      end
  end.

Fixpoint migrate_loop d (n : nat) (h cumulativeWork : Z) s : result MigrateErr unit * St :=
  match n with
  | O => (Ok tt, s)
  | S n =>
      match migrate_block d h cumulativeWork s with
      | (Err e, s) => (Err e, s)
      | (Ok cumulativeWork, s) => migrate_loop d n (h + 1) cumulativeWork s
      end
  end.

(** [at_network] and [at_root]: the databases at the two places, if there; a store that
    cannot be opened is an error. *)
Definition migrateFromLegacy (at_network at_root : option (result BoltErr DB)) (newStore : result StoreErr St)
    (params : ChainParams) : result MigrateErr (result MigrateErr unit * St) :=
  match match at_network with Some db => Some db | None => at_root end with
  | None => Err NoLegacyDB
  | Some legacy =>
      let* d := rwrap OpenLegacy legacy in
      check negb (LegacyHasData d) else NoChainData;
      let* (tipHash, tipHeight) := rwrap LegacyTip (LegacyGetChainTip d) in
      let* s := rwrap OpenNew newStore in
      let cumulativeWork :=
        if 0 <? tipHeight then 0 else CalcWork (hdr_Bits (blk_Header (p_GenesisBlock params))) in
      Ok (match migrate_loop d (Z.to_nat (tipHeight + 1)) 0 cumulativeWork s with
          | (Err e, s) => (Err e, s)
          | (Ok _, s) =>
              match PutChainTip s tipHash tipHeight with
              | (Err e, s) => (Err (MigrateTip e), s)
              | (Ok _, s) => (Ok tt, s)
              end
          end)
  end.
End migrate.

(** ** The peers of the database *)

Section peers.
Context {DB : Type} `{BD : Bolt DB} {BDL : BoltLaws DB}.
Implicit Types (d : DB).

(** The addresses stored. *)
Definition peer_in d (addr : Addr) : Prop := is_Some (bolt_map d PeersBucket !! addr).

Lemma bolt_GetPeers_in d l : bolt_GetPeers d = Ok l -> forall a, a ∈ l <-> peer_in d a.
Proof.
  unfold bolt_GetPeers. destruct (bolt_ForEach d PeersBucket) as [kvs|] eqn:E; [|done]. intros [= <-] a.
  apply bolt_ForEach_all in E. unfold peer_in. change (map ?f ?l) with (f <$> l). rewrite E, list_elem_of_fmap. split.
  - intros ([k v] & -> & Hin). apply elem_of_map_to_list in Hin. by exists v.
  - intros [v Hv]. exists (a, v). by rewrite elem_of_map_to_list.
Qed.

Lemma bolt_PutPeer_in d addr r d' : bolt_PutPeer d addr = (r, d') ->
  forall a, peer_in d' a <-> (is_ok r = true /\ a = addr) \/ peer_in d a.
Proof.
  unfold bolt_PutPeer, peer_in. intros E a. rewrite (bolt_Put_law _ _ _ _ _ _ E PeersBucket), bool_decide_true, andb_true_r by done.
  destruct (is_ok r); [rewrite lookup_insert_is_Some'|]; naive_solver.
Qed.

Lemma load_peers_in l : Forall plain_line l -> (forall d a, plain_line a -> is_ok (bolt_PutPeer d a).1 = true) ->
  forall known d a, (forall x, x ∈ known -> peer_in d x) ->
  peer_in (fold_left (fun '(known, d) line => load_peer line known d) l (known, d)).2 a <-> a ∈ l \/ peer_in d a.
Proof.
  intros Hl Hput. induction l as [|x l IH]; intros known d a Hk; cbn [fold_left].
  { split; [by right|]. intros [H|H]; [by apply elem_of_nil in H|done]. }
  apply Forall_cons in Hl as [Hx Hl]. pose proof Hx as (_ & Ht & Hne & _). rewrite elem_of_cons.
  assert (exists known' d', load_peer x known d = (known', d') /\ (forall y, y ∈ known' -> peer_in d' y)
    /\ forall y, peer_in d' y <-> y = x \/ peer_in d y) as (known' & d' & -> & Hk' & Hd').
  { unfold load_peer. rewrite Ht, bool_decide_false by done. cbn [orb]. case_bool_decide as Hin.
    - exists known, d. split_and!; try done. intros y. split; [by right|]. by intros [->|H]; [apply Hk|].
    - pose proof (Hput d x Hx) as Hok. destruct (bolt_PutPeer d x) as [r d'] eqn:E. pose proof (bolt_PutPeer_in d x r d' E) as Hd'.
      cbn [fst] in Hok. destruct r as [u|]; [|done]. exists (x :: known), d'. split_and!; try done.
      + intros y. rewrite elem_of_cons, Hd'. intros [->|Hy]; [by left|right; by apply Hk].
      + intros y. rewrite Hd'. naive_solver. }
  rewrite (IH Hl known' d' a Hk'), Hd'. tauto.
Qed.

(** The peer database is the set of addresses put and not removed since: [GetPeers], when
    it succeeds, lists exactly them, once each; and the text file written at shutdown brings
    every one of them (that fits a line) back into any database it is loaded into, which
    keeps what it had. *)
Theorem peers_survive d d' file :
  (forall d l, bolt_GetPeers d = Ok l -> NoDup l /\ forall a, a ∈ l <-> peer_in d a)
  /\ (forall d a, is_ok (bolt_PutPeer d a).1 = true -> forall b, peer_in (bolt_PutPeer d a).2 b <-> b = a \/ peer_in d b)
  /\ (forall d a, is_ok (bolt_RemovePeer d a).1 = true -> forall b, peer_in (bolt_RemovePeer d a).2 b <-> b <> a /\ peer_in d b)
  /\ (DumpPeersDat d = Some file -> (forall a, peer_in d a -> plain_line a) ->
      (forall d a, plain_line a -> is_ok (bolt_PutPeer d a).1 = true) ->
      forall a, peer_in (LoadPeersDat (Some file) d') a <-> peer_in d a \/ peer_in d' a).
Proof.
  split_and!.
  - intros d0 l H. split; [|by apply bolt_GetPeers_in]. unfold bolt_GetPeers in H.
    destruct (bolt_ForEach d0 PeersBucket) as [kvs|] eqn:E; [|done]. injection H as <-.
    apply bolt_ForEach_all in E. change (map ?f ?l) with (f <$> l). rewrite E. apply NoDup_fst_map_to_list.
  - intros d0 a Hok b. rewrite (bolt_PutPeer_in d0 a _ _ (surjective_pairing _)). naive_solver.
  - intros d0 a Hok b. unfold bolt_RemovePeer, peer_in in *.
    rewrite (bolt_Delete_law _ _ _ _ _ (surjective_pairing _) PeersBucket), Hok, bool_decide_true by done.
    cbn [andb]. rewrite lookup_delete_is_Some. naive_solver.
  - intros Hdump Hplain Hput a. unfold DumpPeersDat in Hdump. destruct (bolt_GetPeers d) as [l|] eqn:El; [|done].
    assert (file = lines_text l) as -> by (destruct l; [done|by injection Hdump]). pose proof (bolt_GetPeers_in _ _ El) as Hl.
    assert (Forall plain_line l) as Hp by (apply Forall_forall; intros x Hx; by apply Hplain, Hl).
    unfold LoadPeersDat. rewrite text_lines_text by (eapply Forall_impl; [exact Hp|]; by intros x []).
    rewrite scan_plain by done.
    cbn [fst]. rewrite <- Hl. apply load_peers_in; [done|done|]. intros x Hx.
    destruct (bolt_GetPeers d') as [l'|] eqn:E'; [|by apply elem_of_nil in Hx]. by apply (bolt_GetPeers_in _ _ E').
Qed.
End peers.

(** ** What a migration leaves *)

Section migration.
Context {DB : Type} `{BD : Bolt DB} {BDL : BoltLaws DB}.
Context {St : Type} `{BS : BlockStore St} {BL : BlockStoreLaws St} {PL : PersistLaws St} `{EC : ECOps}.
Context (p : ChainParams) (U : list Block) (HU : universe p U).
#[local] Abbreviation genesis := (p_GenesisBlock p).
#[local] Abbreviation idx s := (v_index (st_view s)).
Implicit Types (d : DB) (s : St).

(** The undo data of the block that follows the blocks [bs]. *)
Definition undo_of (bs : list Block) (b : Block) (data : list byte) : Prop :=
  exists us us' undo, replay p bs = Some us /\ ConnectBlock us b (len bs + 1) = Ok (us', undo)
    /\ data = SerializeUndoData undo.

(** The legacy database has the chain [bs] above the genesis block, [us] its unspent set;
    the undo data it has is that of its blocks. *)
Record legacy_chain d (bs : list Block) (us : UtxoSet) : Prop := {
  lc_tip : bolt_map d ChainStateBucket !! chainTipKey
           = Some (last_hash (block_hash genesis) bs ++ heightToBytes (len bs));
  lc_heights : forall i b, (genesis :: bs) !! i = Some b ->
    bolt_map d HeightIndexBucket !! heightToBytes (Z.of_nat i) = Some (block_hash b);
  lc_blocks : forall b, b ∈ genesis :: bs -> exists rest,
    bolt_map d BlocksBucket !! block_hash b = Some (blk_Serialize b ++ rest);
  lc_undo : forall i b data, bs !! i = Some b -> bolt_map d UndoBucket !! block_hash b = Some data ->
    data = [] \/ undo_of (take i bs) b data;
  lc_genesis_undo : forall data, bolt_map d UndoBucket !! block_hash genesis = Some data -> len data < 2^32;
  lc_linked : forall i b, bs !! i = Some b ->
    b ∈ U /\ hdr_PrevBlock (blk_Header b) = last_hash (block_hash genesis) (take i bs);
  lc_replay : replay p bs = Some us;
  lc_length : 0 < len bs < 2^32 - 1 }.

(** The error of a write of the new store. *)
Definition write_error (e : MigrateErr) : Prop :=
  match e with
  | MigrateWrite _ x => exists s h b, (WriteBlock s h b).1 = Err x
  | MigrateIndex _ x => exists s h r, (PutBlockIndex s h r).1 = Err x
  | MigrateTip x => exists s h n, (PutChainTip s h n).1 = Err x
  | _ => False
  end.

(** *** One block *)

Lemma base_flags : has_flag (Z.lor (Z.lor StatusHaveData StatusValidHeader) StatusValidTx) StatusHaveUndo = false
  /\ has_flag (Z.lor (Z.lor StatusHaveData StatusValidHeader) StatusValidTx) StatusHaveData = true.
Proof. split; reflexivity. Qed.

(** The record in the index is for [b], and its undo data, if any, is [data]. *)
Definition undo_stored s (rec : DiskBlockIndex) (data : option (list byte)) : Prop :=
  has_flag (bi_Status rec) StatusHaveUndo = true -> exists bs, data = Some bs /\ bs <> []
    /\ st_undo s (bi_UndoFile rec) (bi_UndoPos rec) = Some bs.

Lemma migrate_undo_cases d hash rec s :
  migrate_undo d hash rec s = (rec, s)
  \/ exists data res s', bolt_map d UndoBucket !! hash = Some data /\ data <> []
       /\ WriteUndo s (bi_FileNum rec) data = (res, s')
       /\ migrate_undo d hash rec s
          = (match res with Ok (o, k) => with_migrated_undo rec o k | Err _ => rec end, s').
Proof.
  unfold migrate_undo, LegacyGetUndoData, legacy_get.
  destruct (bolt_Get d UndoBucket hash) as [[data|]|] eqn:Eg; cbn [rbind rwrap]; [|by left..].
  apply bolt_Get_sound in Eg. destruct (Z.ltb_spec 0 (len data)); [|by left].
  right. destruct (WriteUndo s (bi_FileNum rec) data) as [res s'] eqn:E. exists data, res, s'.
  split_and!; try done; [by intros ->|]. by destruct res as [[o k]|e].
Qed.

Lemma wf_migrated_undo rec o k : wf_index rec -> is_u32 o -> is_u32 k -> wf_index (with_migrated_undo rec o k).
Proof.
  intros (? & ? & ? & ? & ? & ? & ? & ? & ? & ? & ?) Ho Hk. unfold wf_index, with_migrated_undo. simpl.
  split_and!; try done. apply is_u32_lor; [done|]. by vm_compute.
Qed.

Lemma migrate_undo_spec d b n w rec rec' s s' :
  migrate_undo d (block_hash b) rec s = (rec', s') -> st_live s' ->
  st_live s /\ (st_ok s -> index_ok p U s -> record_for s b n w rec ->
    has_flag (bi_Status rec) StatusHaveUndo = false ->
    (forall data, bolt_map d UndoBucket !! block_hash b = Some data -> len data < 2^32) ->
    store_rel (fun _ => True) s s' /\ record_for s' b n w rec'
    /\ undo_stored s' rec' (bolt_map d UndoBucket !! block_hash b) /\ persisted s' = persisted s).
Proof.
  intros E L. destruct (migrate_undo_cases d (block_hash b) rec s) as [H|(data & res & s1 & Hdata & Hne & Ew & H)].
  - rewrite H in E. injection E as <- <-. split; [done|]. intros Ho Hi Hr Hfl _.
    split_and!; try done; [by apply (store_rel_refl p U)|]. intros Hu. congruence.
  - rewrite H in E. injection E as Er ->. destruct (WriteUndo_law _ _ _ _ _ Ew L) as [L0 _]. split; [done|].
    intros Ho Hi Hr Hfl Hlen. destruct (undo_rel p U (fun _ => True) _ _ _ _ _ Ho Hi (Hlen _ Hdata) Ew L) as [R Hloc].
    pose proof (WriteUndo_persist _ _ _ _ _ Ew) as Hp. destruct Hr as [Eh En Ewk W Hh Hd].
    destruct res as [[o k]|e]; subst rec'.
    + destruct (Hloc o k eq_refl) as (Hou & Hku & Hst). split_and!; try done.
      * constructor; try done; simpl; [by apply wf_migrated_undo|by apply has_flag_lor|by apply (sr_data _ _ _ R)].
      * intros _. by exists data.
    + split_and!; try done; [constructor; try done; by apply (sr_data _ _ _ R)|]. intros Hu. congruence.
Qed.

(** What one turn has done when it succeeds. *)
Definition migrated d b h w s s' : Prop :=
  exists s1 rec, store_rel (fun _ => True) s s1 /\ persisted s1 = persisted s
    /\ record_for s1 b h w rec /\ undo_stored s1 rec (bolt_map d UndoBucket !! block_hash b)
    /\ PutBlockIndex s1 (block_hash b) rec = (Ok tt, s').

Lemma migrate_block_spec d b h w s r s' rest :
  migrate_block d h w s = (r, s') -> st_live s' ->
  (forall b k, is_ok (bolt_Get d b k) = true) ->
  bolt_map d HeightIndexBucket !! heightToBytes h = Some (block_hash b) ->
  bolt_map d BlocksBucket !! block_hash b = Some (blk_Serialize b ++ rest) ->
  (forall data, bolt_map d UndoBucket !! block_hash b = Some data -> len data < 2^32) ->
  storable b -> is_u32 h -> 0 <= w ->
  st_live s /\ (st_ok s -> index_ok p U s ->
    match r with
    | Err e => write_error e
    | Ok w' => w' = w + CalcWork (hdr_Bits (blk_Header b)) /\ migrated d b h w' s s'
    end).
Proof.
  intros E L Hget Hh Hb Hu Hst Hhu Hw. unfold migrate_block, LegacyGetBlockByHeight, LegacyGetBlock, legacy_get in E.
  pose proof (Hget HeightIndexBucket (heightToBytes h)) as Hg1. pose proof (Hget BlocksBucket (block_hash b)) as Hg2.
  destruct (bolt_Get d HeightIndexBucket _) as [v1|] eqn:E1; [|done]. apply bolt_Get_sound in E1.
  assert (v1 = Some (block_hash b)) as -> by exact (eq_trans (eq_sym E1) Hh).
  cbn [rbind rwrap] in E. rewrite (wf_DoubleSHA256 _ : length (block_hash b) = HashSize), Nat.eqb_refl in E. cbn [negb] in E.
  destruct (bolt_Get d BlocksBucket _) as [v2|] eqn:E2; [|done]. apply bolt_Get_sound in E2.
  assert (v2 = Some (blk_Serialize b ++ rest)) as -> by exact (eq_trans (eq_sym E2) Hb).
  cbn [rbind rwrap] in E. rewrite (decode_encode b rest (proj1 Hst)) in E. cbn [rbind rwrap] in E.
  destruct (WriteBlock s (block_hash b) b) as [res s1] eqn:E3. destruct res as [loc|e].
  2:{ injection E as <- <-. destruct (WriteBlock_law _ _ _ _ _ E3 L) as [L0 _].
      split; [done|]. intros _ _. exists s, (block_hash b), b. by rewrite E3. }
  set (w' := w + CalcWork _) in *. destruct (migrate_undo d _ _ s1) as [rec s2] eqn:E4.
  destruct (PutBlockIndex s2 _ rec) as [res s3] eqn:E5.
  assert (s3 = s') as -> by (destruct res; by injection E). destruct (PutBlockIndex_law _ _ _ _ _ E5 L) as [L2 _].
  destruct (migrate_undo_spec d b h w' _ _ _ _ E4 L2) as [L1 Hm]. destruct (WriteBlock_law _ _ _ _ _ E3 L1) as [L0 _].
  split; [done|]. intros Ho Hi. destruct res as [[]|e]; [|injection E as <-; exists s2, (block_hash b), rec; by rewrite E5].
  injection E as <-. split; [done|].
  destruct loc as [[f o] k]. destruct (block_rel p U (fun _ => True) _ _ _ _ _ Ho Hi Hst E3 L1) as [R1 Hloc].
  destruct (Hloc f o k eq_refl) as (Hf & Hou & Hk & Hd). destruct base_flags as [Hb1 Hb2].
  destruct Hm as (R2 & Hr & Hund & Hp); try done.
  - apply R1.
  - by eapply rel_index_ok.
  - constructor; try done. unfold wf_index, migrated_record. simpl. split_and!; try done; [apply Hst|apply u32_range|].
    exists w'. split; [done|]. pose proof (CalcWork_nonneg (hdr_Bits (blk_Header b))). lia.
  - exists s2, rec. split; [by eapply store_rel_trans|]. split; [|done].
    rewrite Hp. by eapply WriteBlock_persist.
Qed.

(** *** The chain grows by one block *)

Lemma migrated_genesis d s s' :
  migrated d genesis 0 (CalcWork (hdr_Bits (blk_Header genesis))) s s' -> st_live s' ->
  st_ok s -> idx s = ∅ -> stored p U s' [] (ConnectGenesis NewSet genesis) /\ persisted s' = persisted s.
Proof.
  intros (s1 & rec & R & Hp & [Eh En Ew W Hh Hd] & _ & E) L Ho Hi.
  destruct (PutBlockIndex_law _ _ _ _ _ E L) as [_ Hl]. destruct (Hl (sr_ok _ _ _ R) W) as (Ho' & Hd' & _ & Hv).
  cbn [is_ok] in Hv. assert (idx s' = {[block_hash genesis := rec]}) as Hidx.
  { rewrite Hv. simpl. replace (idx s1) with (∅ : gmap Hash DiskBlockIndex); [by rewrite insert_empty|].
    symmetry. apply map_empty. intros h. destruct (idx s1 !! h) as [r|] eqn:Er; [|done].
    apply (sr_none _ _ _ R) in Er as [r0 Hr0]. by rewrite Hi, lookup_empty in Hr0. }
  split; [|rewrite <- Hp; by eapply PutBlockIndex_persist]. constructor; try done.
  - eapply (genesis_index p U HU s' rec); try done. by rewrite Hd'.
  - exists rec. rewrite Hidx. split; [apply lookup_singleton_eq|done].
Qed.

Lemma next_fresh s bs us b :
  stored p U s bs us -> b ∈ U -> ValidateBlockStructure b (len bs + 1) p = Ok tt ->
  hdr_PrevBlock (blk_Header b) = last_hash (block_hash genesis) bs ->
  fresh p U s b (len bs + 1) (chain_works p (bs ++ [b])).
Proof.
  intros Hs Hin Hv Hprev. destruct (tip_rec p U HU _ _ _ Hs) as (r & tb & Hr & Hrec & _ & Hh & Hw).
  constructor; try done.
  - intros E. destruct (sd_genesis _ _ _ _ _ Hs) as (g & Hg & _). destruct (sd_index _ _ _ _ _ Hs _ _ Hg) as [gb Hgb].
    assert (gb = b) as -> by (by eapply (rec_unique p U HU)).
    assert (b = genesis) as ->
      by (eapply (rec_unique p U HU); [exact Hgb|apply (un_genesis _ _ HU)|apply (un_genesis_valid _ _ HU)|done]).
    rewrite (un_genesis_prev _ _ HU) in Hprev. pose proof (un_nonzero _ _ HU) as Hz. rewrite Forall_forall in Hz.
    apply (Hz tb (ro_in _ _ _ _ _ _ Hrec)). by rewrite (ro_hash _ _ _ _ _ _ Hrec).
  - exists r, (chain_works p bs). rewrite Hprev, chain_works_snoc. split_and!; try done. by rewrite Hh.
Qed.

(** The records of the chain's own blocks are not touched by the next one. *)
Lemma fresh_off s bs us b i x w :
  stored p U s bs us -> fresh p U s b (len bs + 1) w -> bs !! i = Some x -> block_hash x <> block_hash b.
Proof.
  intros Hs Hf Hx E. destruct (linked_lookup _ _ _ _ _ _ _ _ (sd_linked _ _ _ _ _ Hs) Hx) as (_ & _ & r & Hr & Hh).
  rewrite E in Hr. destruct (fresh_known p U HU _ _ _ _ _ (sd_index _ _ _ _ _ Hs) Hf Hr) as [Hh' _].
  apply lookup_lt_Some in Hx. lia.
Qed.

Lemma stored_snoc s s' bs us b us' w r :
  stored p U s bs us -> fresh p U s b (len bs + 1) w -> grown p U (block_hash b) s s' ->
  idx s' !! block_hash b = Some r -> bi_Height r = len bs + 1 ->
  hdr_PrevBlock (blk_Header b) = last_hash (block_hash genesis) bs -> connect_step p us (len bs + 1) b = Some us' ->
  (has_flag (bi_Status r) StatusHaveUndo = true ->
     exists data, undo_of bs b data /\ st_undo s' (bi_UndoFile r) (bi_UndoPos r) = Some data) ->
  stored p U s' (bs ++ [b]) us'.
Proof.
  intros Hs Hf G Hr Hh Hprev Hst Hund. pose proof Hs as [Ho Hi (g & Hg & Hg0) Hl Hrp Hu]. constructor.
  - apply G.
  - apply G.
  - exists g. by rewrite (gw_other _ _ _ _ _ G) by (intros E; by apply (fr_new _ _ _ _ _ _ Hf)).
  - apply linked_app. split; [by eapply grown_linked|]. replace (1 + len bs) with (len bs + 1) by lia.
    split_and!; try done; [apply Hf|apply Hf|by exists r].
  - by rewrite replay_snoc, Hrp.
  - intros i x Hx. destruct (decide (i < length bs)%nat) as [Hlt|Hge].
    + rewrite lookup_app_l in Hx by done. intros r' Hr' Hfl.
      rewrite (gw_other _ _ _ _ _ G) in Hr' by (by eapply fresh_off).
      destruct (Hu i x Hx r' Hr' Hfl) as (u0 & u1 & undo & ? & ? & Hun). exists u0, u1, undo.
      rewrite take_app_le by lia. split_and!; try done. by apply (gw_undo _ _ _ _ _ G).
    + rewrite lookup_app_r in Hx by lia. apply list_lookup_singleton_Some in Hx as [Ei <-].
      assert (i = length bs) as -> by lia. intros r' Hr' Hfl. assert (r' = r) as -> by congruence.
      destruct (Hund Hfl) as (data & (u0 & u1 & undo & H1 & H2 & ->) & H3). exists u0, u1, undo.
      by rewrite take_app_length.
Qed.

Lemma migrated_next d s s' bs us b us' :
  stored p U s bs us -> migrated d b (len bs + 1) (chain_works p (bs ++ [b])) s s' -> st_live s' ->
  b ∈ U -> hdr_PrevBlock (blk_Header b) = last_hash (block_hash genesis) bs ->
  connect_step p us (len bs + 1) b = Some us' ->
  (forall data, bolt_map d UndoBucket !! block_hash b = Some data -> data = [] \/ undo_of bs b data) ->
  stored p U s' (bs ++ [b]) us' /\ persisted s' = persisted s.
Proof.
  intros Hs (s1 & rec & R & Hp & Hr & Hund & E) L Hin Hprev Hst Hdata.
  pose proof (stored_rel p U _ _ _ _ R Hs) as Hs1. pose proof (connect_step_Ok _ _ _ _ _ Hst) as (Hv & _).
  pose proof (next_fresh _ _ _ _ Hs1 Hin Hv Hprev) as Hf.
  destruct (put_fresh p U HU _ _ _ _ _ _ _ (sd_ok _ _ _ _ _ Hs1) (sd_index _ _ _ _ _ Hs1) Hf Hr E L) as [G Hput].
  specialize (Hput eq_refl). split; [|rewrite <- Hp; by eapply PutBlockIndex_persist].
  eapply stored_snoc; try done; [apply Hr|]. intros Hfl. destruct (Hund Hfl) as (data & Hd & Hne & Hun).
  exists data. split; [by destruct (Hdata _ Hd)|]. by apply (gw_undo _ _ _ _ _ G).
Qed.

(** *** The whole loop *)

Lemma connect_of d bs1 b bs2 us us1 :
  legacy_chain d (bs1 ++ b :: bs2) us -> replay p bs1 = Some us1 ->
  exists us2, connect_step p us1 (len bs1 + 1) b = Some us2.
Proof.
  intros Hc Hr. pose proof (lc_replay _ _ _ Hc) as H. rewrite cons_middle, app_assoc in H.
  apply replay_prefix in H as [us2 H]. exists us2. by rewrite replay_snoc, Hr in H.
Qed.

Lemma migrate_undo_live d hash rec s : st_live (migrate_undo d hash rec s).2 -> st_live s.
Proof.
  destruct (migrate_undo_cases d hash rec s) as [->|(data & res & s' & _ & _ & E & ->)]; [done|].
  intros L. by destruct (WriteUndo_law _ _ _ _ _ E L).
Qed.

Lemma migrate_block_live d h w s : st_live (migrate_block d h w s).2 -> st_live s.
Proof.
  unfold migrate_block. destruct (LegacyGetBlockByHeight d h) as [hash|]; [|done].
  destruct (LegacyGetBlock d hash) as [b|]; [|done]. destruct (WriteBlock s hash b) as [[loc|e] s1] eqn:E1; intros L.
  - destruct (migrate_undo d hash _ s1) as [rec s2] eqn:E2. destruct (PutBlockIndex s2 hash rec) as [res s3] eqn:E3.
    assert (st_live s3) as L3 by (by destruct res). destruct (PutBlockIndex_law _ _ _ _ _ E3 L3) as [L2 _].
    pose proof (migrate_undo_live d hash (migrated_record b h loc (w + CalcWork (hdr_Bits (blk_Header b)))) s1) as L1.
    rewrite E2 in L1. by destruct (WriteBlock_law _ _ _ _ _ E1 (L1 L2)).
  - by destruct (WriteBlock_law _ _ _ _ _ E1 L).
Qed.

Lemma migrate_loop_live d n : forall h w s, st_live (migrate_loop d n h w s).2 -> st_live s.
Proof.
  induction n as [|n IH]; intros h w s L; [done|]. cbn [migrate_loop] in L. pose proof (migrate_block_live d h w s) as Hb.
  destruct (migrate_block d h w s) as [[w'|e] s1]; [by apply Hb, (IH _ _ _ L)|by apply Hb].
Qed.

Lemma chain_works_nonneg bs : 0 <= chain_works p bs.
Proof.
  induction bs as [|b bs IH] using rev_ind; [unfold chain_works; simpl; rewrite Z.add_0_r; apply CalcWork_nonneg|].
  rewrite chain_works_snoc. pose proof (CalcWork_nonneg (hdr_Bits (blk_Header b))). lia.
Qed.

Lemma migrate_loop_spec d us : (forall b k, is_ok (bolt_Get d b k) = true) -> forall bs2 bs1 us1 s r s',
  legacy_chain d (bs1 ++ bs2) us -> stored p U s bs1 us1 ->
  migrate_loop d (length bs2) (len bs1 + 1) (chain_works p bs1) s = (r, s') -> st_live s' ->
  match r with
  | Err e => write_error e
  | Ok _ => stored p U s' (bs1 ++ bs2) us /\ persisted s' = persisted s
  end.
Proof.
  intros Hget bs2. induction bs2 as [|b bs2 IH]; intros bs1 us1 s r s' Hc Hs E L.
  - injection E as <- <-. rewrite app_nil_r in *. split; [|done].
    assert (us1 = us) as <-; [|done]. pose proof (sd_replay _ _ _ _ _ Hs). pose proof (lc_replay _ _ _ Hc). congruence.
  - cbn [length migrate_loop] in E. destruct (migrate_block d _ _ s) as [rb s1] eqn:E1.
    assert (st_live s1) as L1.
    { destruct rb as [w'|e]; [|by injection E as _ ->].
      pose proof (migrate_loop_live d (length bs2) (len bs1 + 1 + 1) w' s1) as H. rewrite E in H. by apply H. }
    assert ((bs1 ++ b :: bs2) !! length bs1 = Some b) as Hb by (by apply list_lookup_middle).
    destruct (lc_linked _ _ _ Hc _ _ Hb) as [Hin Hprev]. rewrite take_app_length in Hprev.
    destruct (lc_blocks _ _ _ Hc b) as [rest Hblk]; [set_solver|].
    pose proof (linked_length p U HU _ _ _ (sd_index _ _ _ _ _ Hs) (sd_linked _ _ _ _ _ Hs)) as Hlen.
    assert (Forall (fun x => x ∈ U) bs1) as HinU by (eapply linked_Forall, Hs).
    destruct (connect_of _ _ _ _ _ _ Hc (sd_replay _ _ _ _ _ Hs)) as [us2 Hst].
    assert (forall data, bolt_map d UndoBucket !! block_hash b = Some data -> data = [] \/ undo_of bs1 b data) as Hdata.
    { intros data H. pose proof (lc_undo _ _ _ Hc _ _ _ Hb H) as Hu. by rewrite take_app_length in Hu. }
    destruct (migrate_block_spec d b _ _ _ _ _ rest E1 L1 Hget) as [_ Hspec]; try done.
    + replace (len bs1 + 1) with (Z.of_nat (S (length bs1))) by lia. by apply (lc_heights _ _ _ Hc).
    + intros data [->|(u0 & u1 & undo & Hr & HC & ->)]%Hdata; [simpl; lia|].
      pose proof (connect_step_Ok _ _ _ _ _ Hst) as (Hv & _). by eapply (undo_bytes_small p U HU bs1 b); try lia.
    + pose proof (un_storable _ _ HU) as H. rewrite Forall_forall in H. by apply H.
    + unfold is_u32. lia.
    + apply chain_works_nonneg.
    + specialize (Hspec (sd_ok _ _ _ _ _ Hs) (sd_index _ _ _ _ _ Hs)).
      destruct rb as [w'|e]; [|by injection E as <- _]. destruct Hspec as [-> Hm]. rewrite <- chain_works_snoc in *.
      destruct (migrated_next _ _ _ _ _ _ _ Hs Hm L1 Hin Hprev Hst Hdata) as [Hs1 Hp1].
      rewrite cons_middle, app_assoc in Hc |- *. rewrite <- Hp1. apply (IH (bs1 ++ [b]) us2 s1 r s' Hc Hs1); [|done].
      rewrite length_app. cbn [length]. by replace (Z.of_nat (length bs1 + 1)) with (len bs1 + 1) by lia.
Qed.

(** A store that has just been created. *)
Definition new_store s : Prop := empty_store s /\ v_chainstate (st_view s) = ∅.

Lemma legacy_opens d bs us root s :
  (forall b k, is_ok (bolt_Get d b k) = true) -> legacy_chain d bs us ->
  migrateFromLegacy (Some (Ok d)) root (Ok s) p
  = Ok (match migrate_loop d (S (length bs)) 0 0 s with
        | (Err e, s) => (Err e, s)
        | (Ok _, s) =>
            match PutChainTip s (last_hash (block_hash genesis) bs) (len bs) with
            | (Err e, s) => (Err (MigrateTip e), s)
            | (Ok _, s) => (Ok tt, s)
            end
        end).
Proof.
  intros Hget Hc. pose proof (Hget ChainStateBucket chainTipKey) as Ht. pose proof (lc_length _ _ _ Hc) as Hlen.
  unfold migrateFromLegacy, LegacyHasData, LegacyGetChainTip, legacy_get. cbn [rwrap rbind].
  destruct (bolt_Get d ChainStateBucket chainTipKey) as [v|] eqn:E; [|done]. apply bolt_Get_sound in E.
  assert (v = Some (last_hash (block_hash genesis) bs ++ heightToBytes (len bs))) as -> by exact (eq_trans (eq_sym E) (lc_tip _ _ _ Hc)).
  assert (length (last_hash (block_hash genesis) bs) = HashSize) as Hh by apply last_hash_wf.
  cbn [rwrap rbind negb]. unfold heightToBytes. rewrite length_app, length_rev, length_PutUint32LE, Hh, Nat.eqb_refl. cbn [negb rwrap rbind].
  rewrite take_app_length', drop_app_length' by done. rewrite rev_involutive, ReadUintLE_Put32 by (unfold is_u32; lia).
  rewrite (proj2 (Z.ltb_lt _ _)) by lia. by replace (Z.to_nat (len bs + 1)) with (S (length bs)) by lia.
Qed.

(** The migrated store. *)
Lemma migration_stored d bs us root s0 r s' :
  (forall b k, is_ok (bolt_Get d b k) = true) -> legacy_chain d bs us -> new_store s0 ->
  migrateFromLegacy (Some (Ok d)) root (Ok s0) p = Ok (r, s') -> st_live s' ->
  match r with
  | Err e => write_error e
  | Ok _ => stored p U s' bs us /\ persisted s' = (Some (last_hash (block_hash genesis) bs, len bs), ∅)
  end.
Proof.
  intros Hget Hc [(Ho & Hi & _) Hcs]. rewrite (legacy_opens d bs us root s0 Hget Hc). intros [= E] L.
  cbn [migrate_loop] in E. destruct (migrate_block d 0 0 s0) as [rb s1] eqn:E1.
  assert (st_live s1) as L1.
  { destruct rb as [w|]; [|by injection E as _ ->]. pose proof (migrate_loop_live d (length bs) (0 + 1) w s1) as H.
    destruct (migrate_loop d _ _ w s1) as [[[]|e] s2]; [|apply H; by injection E as _ ->].
    apply H. destruct (PutChainTip s2 _ _) as [res s3] eqn:E3. assert (s3 = s') as -> by (destruct res; by injection E).
    by destruct (PutChainTip_law _ _ _ _ _ E3 L). }
  assert (index_ok p U s0) as Hi0 by (intros h rr Hr; by rewrite Hi, lookup_empty in Hr).
  destruct (lc_blocks _ _ _ Hc genesis) as [rest Hblk]; [set_solver|].
  pose proof (un_storable _ _ HU) as Hstor. rewrite Forall_forall in Hstor.
  destruct (migrate_block_spec d genesis 0 0 s0 rb s1 rest E1 L1 Hget) as [_ Hspec]; try done.
  { by apply (lc_heights _ _ _ Hc 0%nat). }
  { apply (lc_genesis_undo _ _ _ Hc). }
  { apply Hstor, (un_genesis _ _ HU). }
  specialize (Hspec Ho Hi0). destruct rb as [w|e]; [|by injection E as <- _]. destruct Hspec as [-> Hm].
  destruct (migrated_genesis _ _ _ Hm L1 Ho Hi) as [Hs1 Hp1].
  replace (0 + CalcWork (hdr_Bits (blk_Header genesis))) with (chain_works p []) in E
    by (unfold chain_works; simpl; lia).
  destruct (migrate_loop d (length bs) (0 + 1) (chain_works p []) s1) as [[[]|e] s2] eqn:E2.
  - destruct (PutChainTip s2 _ _) as [res s3] eqn:E3. assert (s3 = s') as -> by (destruct res; by injection E).
    destruct (PutChainTip_law _ _ _ _ _ E3 L) as [L2 _].
    destruct (migrate_loop_spec d us Hget bs [] _ s1 _ _ Hc Hs1 E2 L2) as [Hs2 Hp2].
    destruct res as [[]|e]; injection E as <-; [|exists s2, (last_hash (block_hash genesis) bs), (len bs); by rewrite E3]. split.
    + eapply stored_rel; [|exact Hs2]. eapply tip_rel; [apply Hs2|apply Hs2|exact E3|exact L].
    + apply PutChainTip_persist in E3; [|apply last_hash_wf]. rewrite E3, Hp2, Hp1. cbn [is_ok].
      rewrite u32_small by (pose proof (lc_length _ _ _ Hc); unfold is_u32; lia). unfold persisted. cbn [snd]. by rewrite Hcs.
  - injection E as <- ->. by apply (migrate_loop_spec d us Hget bs [] _ s1 _ _ Hc Hs1 E2 L).
Qed.

(** C20. A migrated node starts with its old chain.  Let the legacy database have the blocks of
    a valid chain of at least one block above genesis under their heights, with the recorded
    tip, undo data that is that of the blocks (or none), and no failing reads; and let the
    new store be empty.  Then the migration runs, and it either ends with the error of a
    write of the new store, or leaves a store from which the next start-up, unless it
    reports that it cannot read or write, rebuilds the chain: the legacy tip and height, its
    work, the unspent set that is the replay of its blocks, the invariant of the chain
    manager, and a disk that agrees.  Assumed of the blocks: no collision of hashes and no
    transaction of 64 bytes ([universe]); of the new store: it stays within its address
    space ([live]), its recorded tip can be read and [ForEachUtxo] makes no error. *)
Theorem migration_restarts d bs us root s0 :
  (forall s : St, (ForEachUtxo s).2 = None) -> (forall b k, is_ok (bolt_Get d b k) = true) ->
  legacy_chain d bs us -> new_store s0 ->
  exists r s', migrateFromLegacy (Some (Ok d)) root (Ok s0) p = Ok (r, s')
    /\ let c := (Init (New p s')).2 in
       live c -> is_ok (GetChainTip s') = true ->
       match r, (Init (New p s')).1 with
       | Err e, _ => write_error e
       | Ok _, Err e => read_error e = true
       | Ok _, Ok _ => c_tipHash c = last_hash (block_hash genesis) bs /\ c_tipHeight c = len bs
           /\ c_tipWork c = chain_works p bs /\ UtxoSet_of c = us /\ chain_inv p U c /\ synced c
       end.
Proof.
  intros Hread Hget Hc Hn. pose proof (legacy_opens d bs us root s0 Hget Hc) as E.
  destruct (migrateFromLegacy _ _ _ _) as [[r s']|] eqn:Em in E; [|done]. exists r, s'. split; [done|]. clear E.
  intros c L Hok. assert (st_live s') as L' by exact (mono_Init (New p s') L).
  pose proof (migration_stored d bs us root s0 r s' Hget Hc Hn Em L') as H. destruct r as [[]|e]; [|done].
  destruct H as [Hs Hp]. unfold persisted in Hp. injection Hp as Hvt Hcs.
  destruct (GetChainTip s') as [[h n]|] eqn:Et; [|done].
  pose proof (GetChainTip_sound _ _ _ (sd_ok _ _ _ _ _ Hs) Et) as Hv. rewrite Hvt in Hv. injection Hv as <- <-.
  pose proof (Init_wp p U HU Hread s' bs us bs us Hs Hs Et) as Hwp. unfold wp in Hwp.
  assert (finds p s' bs bs us) as Hf.
  { unfold finds. destruct (GetBestBlock s') as [best|] eqn:Eb; [|done].
    apply GetBestBlock_sound in Eb; [|apply Hs]. by rewrite Hcs, lookup_empty in Eb. }
  specialize (Hwp Hf L). subst c. destruct (Init (New p s')) as [[[]|e] c]; cbn [fst snd] in *; [|done].
  destruct Hwp as (Hci & Hma & Hu & Hsy). split_and!; try done.
  - apply Hma.
  - apply Hma.
  - by apply (main_work p U c bs HU Hci).
  - apply Hsy. intros k. left. unfold persisted. cbn [snd]. rewrite Hcs. apply lookup_empty.
Qed.
End migration.

(** ** A legacy database of the small network *)

Module MemBolt.
Definition mem_bolt : Type := Bucket -> gmap (list byte) (list byte).
#[export] Instance mem_bolt_ops : Bolt mem_bolt := {
  bolt_Get d b k := Ok (d b !! k);
  bolt_ForEach d b := Ok (map_to_list (d b));
  bolt_Put d b k v := (Ok tt, fun b' => if bool_decide (b' = b) then <[k := v]> (d b') else d b');
  bolt_Delete d b k := (Ok tt, fun b' => if bool_decide (b' = b) then delete k (d b') else d b') }.
#[export, refine] Instance mem_bolt_laws : BoltLaws mem_bolt := { bolt_map d := d }.
Proof.
  - by intros d b k v [= <-].
  - by intros d b l [= <-].
  - by intros d b k v r d' [= <- <-] b'.
  - by intros d b k r d' [= <- <-] b'.
Defined.
End MemBolt.

Section example.
Import Example ToyEC MemDB MemBolt.

(** The database of the chain [bs], with the undo data [undos]. *)
Definition legacy_of (bs : list Block) (undos : list (list byte)) : mem_bolt := fun b =>
  let chain := imap (fun i b => (Z.of_nat i, b)) (p_GenesisBlock net :: bs) in
  match b with
  | ChainStateBucket => {[ chainTipKey := last_hash genesis_hash bs ++ heightToBytes (len bs) ]}
  | HeightIndexBucket => list_to_map (map (fun e => (heightToBytes e.1, block_hash e.2)) chain)
  | BlocksBucket => list_to_map (map (fun e => (block_hash e.2, blk_Serialize e.2)) chain)
  | UndoBucket => list_to_map (zip (map (fun b => block_hash b) bs) undos)
  | _ => ∅
  end.

(** [SerializeUndoData] of blocks that spend nothing. *)
Definition no_undo : list byte := SerializeUndoData [].
Definition legacy0 : mem_bolt := legacy_of [A1] [no_undo].

Definition migrate0 (d : mem_bolt) : FileStore mem_db :=
  match migrateFromLegacy (Some (Ok d)) None (Ok store0) net with Ok (_, s) => s | Err _ => store0 end.

(** The migrated chain, and a reorganisation that disconnects its block with the migrated
    undo data. *)
Example migrated_start :
  let c := (Init (New net (migrate0 legacy0))).2 in
  c_tipHash c = block_hash A1 /\ c_tipHeight c = 1 /\ TotalValue (UtxoSet_of c) = 5000000000
  /\ c_tipHash (submit [B1; B2] c) = block_hash B2
  /\ TotalValue (UtxoSet_of (submit [B1; B2] c)) = 8500000000.
Proof. vm_compute. repeat split. Qed.

(** Without undo data (or when writing it fails, which nobody reports) the migration
    succeeds, but the chain cannot leave the migrated blocks. *)
Example migrated_without_undo :
  let c := (Init (New net (migrate0 (legacy_of [A1] [])))).2 in
  c_tipHash c = block_hash A1 /\ c_tipHash (submit [B1; B2] c) = block_hash A1.
Proof. vm_compute. repeat split. Qed.

(** The work of the genesis block is counted twice when it is the whole chain: its record
    says so, and later records build on it, while a restart sums up the true work.  A block
    that competes with the tip at equal work then replaces it. *)
Example genesis_migration_doubles_work :
  let s := migrate0 (legacy_of [] []) in
  let c := submit [A1] (Init (New net s)).2 in
  let c' := (Init (New net (c_store c))).2 in
  c_tipHash c = block_hash A1 /\ c_tipHash c' = block_hash A1
  /\ c_tipHash (submit [B1] (submit [A1] start)) = block_hash A1
  /\ c_tipHash (submit [B1] c') = block_hash B1.
Proof. vm_compute. repeat split. Qed.

Lemma store0_new : new_store store0.
Proof. split; [apply store0_empty|reflexivity]. Qed.

Lemma A1_connects : exists us,
  ConnectBlock (ConnectGenesis NewSet genesis_block) A1 (len ([] : list Block) + 1) = Ok (us, []).
Proof.
  assert (match ConnectBlock (ConnectGenesis NewSet genesis_block) A1 (len ([] : list Block) + 1) with
          | Ok (_, []) => true | _ => false end = true) as E by (vm_compute; reflexivity).
  destruct (ConnectBlock _ _ _) as [[us [|u undo]]|]; [by exists us|discriminate E|discriminate E].
Qed.

Definition store_live (c : Chain (FileStore mem_db)) : bool :=
  let b := fs_files (c_store c) in
  (match bf_free b with None => true | Some _ => false end) && (bf_curFile b <? 2^32)
  && forallb (fun kv => len kv.2 <? 2^32) (map_to_list (bf_rev b)).

Lemma legacy0_chain us : replay net [A1] = Some us -> legacy_chain net blocks legacy0 [A1] us.
Proof.
  intros Hr. constructor; [vm_compute; reflexivity| | | | | |exact Hr|split; vm_compute; reflexivity].
  - intros i b Hb. destruct i as [|[|i]]; [|  |discriminate Hb].
    + change (Some genesis_block = Some b) in Hb. apply (inj Some) in Hb. subst b. vm_compute. reflexivity.
    + change (Some A1 = Some b) in Hb. apply (inj Some) in Hb. subst b. vm_compute. reflexivity.
  - intros b Hb. exists []. rewrite app_nil_r. apply elem_of_cons in Hb as [->|Hb]; [vm_compute; reflexivity|].
    apply list_elem_of_singleton in Hb as ->. vm_compute. reflexivity.
  - intros i b data Hb Hd. apply list_lookup_singleton_Some in Hb as [-> <-]. right.
    assert (bolt_map legacy0 UndoBucket !! block_hash A1 = Some no_undo) as E by (vm_compute; reflexivity).
    rewrite E in Hd. apply (inj Some) in Hd. subst data.
    destruct A1_connects as [us' E']. exists (ConnectGenesis NewSet genesis_block), us', []. split; [reflexivity|].
    split; [exact E'|reflexivity].
  - intros data Hd. vm_compute in Hd. discriminate Hd.
  - intros i b Hb. apply list_lookup_singleton_Some in Hb as [-> <-]. split; [|vm_compute; reflexivity].
    apply (list_elem_of_lookup_2 blocks 1). reflexivity.
Qed.

Lemma legacy0_reads (b : Bucket) (k : list byte) : is_ok (bolt_Get legacy0 b k) = true.
Proof. reflexivity. Qed.

Lemma migration_restarts_witness :
  c_tipHash (Init (New net (migrate0 legacy0))).2 = block_hash A1
  /\ exists us, UtxoSet_of (Init (New net (migrate0 legacy0))).2 = us /\ replay net [A1] = Some us.
Proof.
  assert (match replay net [A1] with Some _ => true | None => false end = true) as F0 by (vm_compute; reflexivity).
  destruct (replay net [A1]) as [us|] eqn:Hr; [clear F0|discriminate F0].
  destruct (migration_restarts net blocks blocks_universe legacy0 [A1] us None store0 utxo_reads
    legacy0_reads (legacy0_chain us Hr) store0_new) as (r & s' & E & H).
  assert (match migrateFromLegacy (Some (Ok legacy0)) None (Ok store0) net with
          | Ok (r, s) => is_ok r && is_ok (Init (New net s)).1 && is_ok (GetChainTip s) && store_live (Init (New net s)).2
          | Err _ => false end = true) as F by (vm_compute; reflexivity).
  assert (migrate0 legacy0 = s') as -> by exact (f_equal (fun x => match x with Ok (_, s) => s | Err _ => store0 end) E).
  rewrite E in F. rewrite !andb_true_iff in F. destruct F as [[[F1 F2] F3] F4].
  specialize (H (files_live_check _ F4) F3). destruct r as [[]|]; [|discriminate F1].
  destruct (Init (New net s')).1 as [[]|]; [|discriminate F2]. destruct H as (H1 & _ & _ & H4 & _).
  split; [exact H1|]. exists us. split; [exact H4|reflexivity].
Defined.
End example.
