(* ===== verification/Config.v ===== *)
(** * Configuration

    [config/config.go]: the settings of a node, their file [fairchain.conf], the paths of the
    data directory; and the part of [main] of [src/cmd/node/main.go] that reads the flags,
    finds the file and puts the two together.  JSON files are read by [encoding/json], which
    is an argument; directories are created by the operating system.
    [settings_precedence] says which of flag, file and default decides. *)
From S2P Require Import Prelude.
From S2P Require Import Types.
From S2P Require Import Params.
From S2P Require Import Wallet.
From S2P Require Import Rpc.
From S2P Require Import GoStrings.
#[local] Open Scope Z_scope.
#[local] Open Scope go_scope.

(** ** Settings *)

Record NodeConfig := {
  cf_Network : list byte;
  cf_DataDir : list byte;
  cf_DataDirName : list byte;
  cf_ListenAddr : list byte;
  cf_RPCAddr : list byte;
  cf_SeedPeers : list (list byte);
  cf_MaxInbound : Z;
  cf_MaxOutbound : Z;
  cf_MiningEnabled : bool;
  cf_MiningAddr : list byte;
  cf_LogLevel : list byte;
  cf_RPCUser : list byte;
  cf_RPCPassword : list byte }.

(** [os.UserHomeDir] may fail. *)
Definition defaultDataDir (home : option (list byte)) : list byte :=
  match home with
  | None => bytes_of_string ".fairchain"
  | Some home => path_Join home (bytes_of_string ".fairchain")
  end.

Definition DefaultConfig (home : option (list byte)) : NodeConfig := {|
  cf_Network := bytes_of_string "regtest";
  cf_DataDir := defaultDataDir home;
  cf_DataDirName := [];
  cf_ListenAddr := bytes_of_string "0.0.0.0:19444";
  cf_RPCAddr := bytes_of_string "127.0.0.1:19445";
  cf_SeedPeers := [];
  cf_MaxInbound := 25;
  cf_MaxOutbound := 8;
  cf_MiningEnabled := false;
  cf_MiningAddr := [];
  cf_LogLevel := bytes_of_string "info";
  cf_RPCUser := [];
  cf_RPCPassword := [] |}.

(** *** Assignments to one field *)

Definition set_Network v c := {| cf_Network := v; cf_DataDir := cf_DataDir c; cf_DataDirName := cf_DataDirName c;
  cf_ListenAddr := cf_ListenAddr c; cf_RPCAddr := cf_RPCAddr c; cf_SeedPeers := cf_SeedPeers c;
  cf_MaxInbound := cf_MaxInbound c; cf_MaxOutbound := cf_MaxOutbound c; cf_MiningEnabled := cf_MiningEnabled c;
  cf_MiningAddr := cf_MiningAddr c; cf_LogLevel := cf_LogLevel c; cf_RPCUser := cf_RPCUser c;
  cf_RPCPassword := cf_RPCPassword c |}.
Definition set_DataDir v c := {| cf_Network := cf_Network c; cf_DataDir := v; cf_DataDirName := cf_DataDirName c;
  cf_ListenAddr := cf_ListenAddr c; cf_RPCAddr := cf_RPCAddr c; cf_SeedPeers := cf_SeedPeers c;
  cf_MaxInbound := cf_MaxInbound c; cf_MaxOutbound := cf_MaxOutbound c; cf_MiningEnabled := cf_MiningEnabled c;
  cf_MiningAddr := cf_MiningAddr c; cf_LogLevel := cf_LogLevel c; cf_RPCUser := cf_RPCUser c;
  cf_RPCPassword := cf_RPCPassword c |}.
Definition set_DataDirName v c := {| cf_Network := cf_Network c; cf_DataDir := cf_DataDir c; cf_DataDirName := v;
  cf_ListenAddr := cf_ListenAddr c; cf_RPCAddr := cf_RPCAddr c; cf_SeedPeers := cf_SeedPeers c;
  cf_MaxInbound := cf_MaxInbound c; cf_MaxOutbound := cf_MaxOutbound c; cf_MiningEnabled := cf_MiningEnabled c;
  cf_MiningAddr := cf_MiningAddr c; cf_LogLevel := cf_LogLevel c; cf_RPCUser := cf_RPCUser c;
  cf_RPCPassword := cf_RPCPassword c |}.
Definition set_ListenAddr v c := {| cf_Network := cf_Network c; cf_DataDir := cf_DataDir c;
  cf_DataDirName := cf_DataDirName c; cf_ListenAddr := v; cf_RPCAddr := cf_RPCAddr c; cf_SeedPeers := cf_SeedPeers c;
  cf_MaxInbound := cf_MaxInbound c; cf_MaxOutbound := cf_MaxOutbound c; cf_MiningEnabled := cf_MiningEnabled c;
  cf_MiningAddr := cf_MiningAddr c; cf_LogLevel := cf_LogLevel c; cf_RPCUser := cf_RPCUser c;
  cf_RPCPassword := cf_RPCPassword c |}.
Definition set_RPCAddr v c := {| cf_Network := cf_Network c; cf_DataDir := cf_DataDir c;
  cf_DataDirName := cf_DataDirName c; cf_ListenAddr := cf_ListenAddr c; cf_RPCAddr := v; cf_SeedPeers := cf_SeedPeers c;
  cf_MaxInbound := cf_MaxInbound c; cf_MaxOutbound := cf_MaxOutbound c; cf_MiningEnabled := cf_MiningEnabled c;
  cf_MiningAddr := cf_MiningAddr c; cf_LogLevel := cf_LogLevel c; cf_RPCUser := cf_RPCUser c;
  cf_RPCPassword := cf_RPCPassword c |}.
Definition set_SeedPeers v c := {| cf_Network := cf_Network c; cf_DataDir := cf_DataDir c;
  cf_DataDirName := cf_DataDirName c; cf_ListenAddr := cf_ListenAddr c; cf_RPCAddr := cf_RPCAddr c; cf_SeedPeers := v;
  cf_MaxInbound := cf_MaxInbound c; cf_MaxOutbound := cf_MaxOutbound c; cf_MiningEnabled := cf_MiningEnabled c;
  cf_MiningAddr := cf_MiningAddr c; cf_LogLevel := cf_LogLevel c; cf_RPCUser := cf_RPCUser c;
  cf_RPCPassword := cf_RPCPassword c |}.
Definition set_limits inb outb c := {| cf_Network := cf_Network c; cf_DataDir := cf_DataDir c;
  cf_DataDirName := cf_DataDirName c; cf_ListenAddr := cf_ListenAddr c; cf_RPCAddr := cf_RPCAddr c;
  cf_SeedPeers := cf_SeedPeers c; cf_MaxInbound := inb; cf_MaxOutbound := outb;
  cf_MiningEnabled := cf_MiningEnabled c; cf_MiningAddr := cf_MiningAddr c; cf_LogLevel := cf_LogLevel c;
  cf_RPCUser := cf_RPCUser c; cf_RPCPassword := cf_RPCPassword c |}.
Definition set_Mining on addr c := {| cf_Network := cf_Network c; cf_DataDir := cf_DataDir c;
  cf_DataDirName := cf_DataDirName c; cf_ListenAddr := cf_ListenAddr c; cf_RPCAddr := cf_RPCAddr c;
  cf_SeedPeers := cf_SeedPeers c; cf_MaxInbound := cf_MaxInbound c; cf_MaxOutbound := cf_MaxOutbound c;
  cf_MiningEnabled := on; cf_MiningAddr := addr; cf_LogLevel := cf_LogLevel c; cf_RPCUser := cf_RPCUser c;
  cf_RPCPassword := cf_RPCPassword c |}.
Definition set_LogLevel v c := {| cf_Network := cf_Network c; cf_DataDir := cf_DataDir c;
  cf_DataDirName := cf_DataDirName c; cf_ListenAddr := cf_ListenAddr c; cf_RPCAddr := cf_RPCAddr c;
  cf_SeedPeers := cf_SeedPeers c; cf_MaxInbound := cf_MaxInbound c; cf_MaxOutbound := cf_MaxOutbound c;
  cf_MiningEnabled := cf_MiningEnabled c; cf_MiningAddr := cf_MiningAddr c; cf_LogLevel := v;
  cf_RPCUser := cf_RPCUser c; cf_RPCPassword := cf_RPCPassword c |}.
Definition set_login user pass c := {| cf_Network := cf_Network c; cf_DataDir := cf_DataDir c;
  cf_DataDirName := cf_DataDirName c; cf_ListenAddr := cf_ListenAddr c; cf_RPCAddr := cf_RPCAddr c;
  cf_SeedPeers := cf_SeedPeers c; cf_MaxInbound := cf_MaxInbound c; cf_MaxOutbound := cf_MaxOutbound c;
  cf_MiningEnabled := cf_MiningEnabled c; cf_MiningAddr := cf_MiningAddr c; cf_LogLevel := cf_LogLevel c;
  cf_RPCUser := user; cf_RPCPassword := pass |}.

(** ** [fairchain.conf] *)

Definition confSectionName (network : list byte) : list byte :=
  if String.eqb (text network) "mainnet" then bytes_of_string "main"
  else if String.eqb (text network) "testnet" then bytes_of_string "test"
  else if String.eqb (text network) "regtest" then bytes_of_string "regtest"
  else network.

Definition comma : byte := Byte.x2c.

(** A value that does not start with a number leaves the limit as it was. *)
Definition applyConfOption (cfg : NodeConfig) (key val : list byte) : NodeConfig :=
  let named (k : string) := String.eqb (text key) k in
  if named "network" then set_Network val cfg
  else if named "datadir" then set_DataDir val cfg
  else if named "listen" then set_ListenAddr val cfg
  else if named "rpc" then set_RPCAddr val cfg
  else if named "mine" then set_Mining (String.eqb (text val) "1" || String.eqb (text val) "true") (cf_MiningAddr cfg) cfg
  else if named "miningaddr" then set_Mining (cf_MiningEnabled cfg) val cfg
  else if named "loglevel" then set_LogLevel val cfg
  else if named "maxinbound" then set_limits (default (cf_MaxInbound cfg) (Sscanf_int val)) (cf_MaxOutbound cfg) cfg
  else if named "maxoutbound" then set_limits (cf_MaxInbound cfg) (default (cf_MaxOutbound cfg) (Sscanf_int val)) cfg
  else if named "seedpeers" then set_SeedPeers (Split comma val) cfg
  else if named "rpcuser" then set_login val (cf_RPCPassword cfg) cfg
  else if named "rpcpassword" then set_login (cf_RPCUser cfg) val cfg
  else cfg.

(** What a line of the file is, after trimming. *)
Inductive ConfLine := Blank | SectionLine (name : list byte) | Setting (key val : list byte).

Section conf.
Context (unicode : list byte -> list byte).

Definition conf_line (raw : list byte) : ConfLine :=
  let line := TrimSpace raw in
  if bool_decide (line = []) || has_prefix [Byte.x23] line then Blank
  else if has_prefix [Byte.x5b] line && HasSuffix [Byte.x5d] line then
    SectionLine (ToLower unicode (Trim [Byte.x5b; Byte.x5d] line))
  else
    let '(key, val, found) := Cut equals line in
    if found then Setting (TrimSpace key) (TrimSpace val) else Blank.

(** One turn of the loop; the section is the one the last header opened. *)
Definition conf_step (sectionForNetwork : list byte) (st : list byte * NodeConfig) (raw : list byte)
    : list byte * NodeConfig :=
  let '(currentSection, cfg) := st in
  match conf_line raw with
  | Blank => st
  | SectionLine name => (name, cfg)
  | Setting key val =>
      if negb (bool_decide (currentSection = [])) && negb (bool_decide (currentSection = sectionForNetwork))
      then st
      else (currentSection, applyConfOption cfg key val)
  end.

(** A file as [os.Open] finds it. *)
Inductive FileState := NotExist | Unreadable | Contents (data : list byte).

Inductive ConfErr := OpenConf | ReadConf.

Definition LoadConf (home : option (list byte)) (file : FileState) (network : list byte) : result ConfErr NodeConfig :=
  match file with
  | NotExist => Ok (DefaultConfig home)
  | Unreadable => Err OpenConf
  | Contents data =>
      let '(lines, tooLong) := scan (text_lines data) in
      let '(_, cfg) := fold_left (conf_step (confSectionName network)) lines ([], DefaultConfig home) in
      check tooLong else ReadConf;
      Ok cfg
  end.
End conf.

(** ** Paths *)

Definition NetworkDataDir c : list byte :=
  if bool_decide (cf_DataDirName c = []) then cf_DataDir c else path_Join (cf_DataDir c) (cf_DataDirName c).
Definition BlocksDir c := path_Join (NetworkDataDir c) (bytes_of_string "blocks").
Definition BlockIndexDir c := path_Join (BlocksDir c) (bytes_of_string "index").
Definition ChainstateDir c := path_Join (NetworkDataDir c) (bytes_of_string "chainstate").
Definition PeerDBPath c := path_Join (NetworkDataDir c) (bytes_of_string "peers.db").
Definition PeersDatPath c := path_Join (NetworkDataDir c) (bytes_of_string "peers.dat").
Definition MempoolPath c := path_Join (NetworkDataDir c) (bytes_of_string "mempool.dat").
Definition LockFilePath c := path_Join (NetworkDataDir c) (bytes_of_string ".lock").
Definition RPCCookiePath c := path_Join (NetworkDataDir c) (bytes_of_string ".cookie").
Definition ConfFilePath c := path_Join (cf_DataDir c) (bytes_of_string "fairchain.conf").
Definition DBPath c := path_Join (cf_DataDir c) (bytes_of_string "blocks.db").
Definition LegacyDBPath c := path_Join (NetworkDataDir c) (bytes_of_string "blocks.db").
Definition WalletDir c := path_Join (NetworkDataDir c) (bytes_of_string "wallet").

(** ** Flags ([src/cmd/node/main.go]) *)

Definition node_flags : list (string * FlagKind) := [
  ("config", StringFlag); ("conf", StringFlag); ("network", StringFlag); ("datadir", StringFlag);
  ("listen", StringFlag); ("rpcbind", StringFlag); ("rpcport", StringFlag); ("rpc", StringFlag);
  ("mine", BoolFlag); ("addnode", StringFlag); ("seed-peers", StringFlag); ("connect", StringFlag);
  ("noseednode", BoolFlag); ("log-level", StringFlag); ("debug", BoolFlag); ("norpcauth", BoolFlag);
  ("migrate", BoolFlag); ("version", BoolFlag)]%string.

Definition splitHostPort (addr : list byte) : option (list byte * list byte) :=
  match LastIndex Byte.x3a addr with
  | None => None
  | Some idx => Some (take idx addr, drop (idx + 1) addr)
  end.

(** What the operating system and [encoding/json] answer. *)
Record OSEnv := {
  oe_home : option (list byte);
  oe_open : list byte -> FileState;
  oe_json : list byte -> NodeConfig -> option NodeConfig;
  oe_unicode : list byte -> list byte }.

(** [LoadConfig] of a JSON file; [oe_json] gives the fields it sets. *)
Definition LoadConfig (env : OSEnv) (path : list byte) : result ConfErr NodeConfig :=
  let cfg := DefaultConfig (oe_home env) in
  match oe_open env path with
  | NotExist => Ok cfg
  | Unreadable => Err OpenConf
  | Contents data => match oe_json env data cfg with Some cfg => Ok cfg | None => Err ReadConf end
  end.

(** The file the flags name, or the default one if it exists: a mistake in that is only
    a warning. *)
Definition load_settings (env : OSEnv) (set : list (string * FlagValue)) : result ConfErr NodeConfig :=
  let flag name := string_flag name [] set in
  let network := flag "network"%string in
  let earlyNetwork := if bool_decide (network = []) then bytes_of_string "regtest" else network in
  let load path := LoadConf (oe_unicode env) (oe_home env) (oe_open env path) earlyNetwork in
  if negb (bool_decide (flag "conf"%string = [])) then load (flag "conf"%string)
  else if negb (bool_decide (flag "config"%string = [])) then LoadConfig env (flag "config"%string)
  else
    let cfg := DefaultConfig (oe_home env) in
    match oe_open env (ConfFilePath cfg) with
    | NotExist => Ok cfg
    | _ => Ok (match load (ConfFilePath cfg) with Ok cfg => cfg | Err _ => DefaultConfig (oe_home env) end)
    end.

(** The RPC address from [-rpc], or from [-rpcbind] and [-rpcport]. *)
Definition override_rpc (rpcAddr rpcBind rpcPort : list byte) (cfg : NodeConfig) : NodeConfig :=
  if negb (bool_decide (rpcAddr = [])) then set_RPCAddr rpcAddr cfg
  else if negb (bool_decide (rpcBind = [])) || negb (bool_decide (rpcPort = [])) then
    let '(host, port) :=
      match (if bool_decide (cf_RPCAddr cfg = []) then None else splitHostPort (cf_RPCAddr cfg)) with
      | Some (h, p) => (h, p)
      | None => (bytes_of_string "127.0.0.1", bytes_of_string "19445")
      end in
    let host := if bool_decide (rpcBind = []) then host else rpcBind in
    let port := if bool_decide (rpcPort = []) then port else rpcPort in
    set_RPCAddr (host ++ [Byte.x3a] ++ port) cfg
  else cfg.

(** The overrides, in the order of the code. *)
Definition apply_flags (set : list (string * FlagValue)) (cfg : NodeConfig) : NodeConfig :=
  let flag name := string_flag name [] set in
  let given name := negb (bool_decide (flag name = [])) in
  let cfg := if given "network"%string then set_Network (flag "network"%string) cfg else cfg in
  let cfg := if given "datadir"%string then set_DataDir (flag "datadir"%string) cfg else cfg in
  let cfg := if given "listen"%string then set_ListenAddr (flag "listen"%string) cfg else cfg in
  let cfg := override_rpc (flag "rpc"%string) (flag "rpcbind"%string) (flag "rpcport"%string) cfg in
  let cfg := if bool_flag "mine" set then set_Mining true (cf_MiningAddr cfg) cfg else cfg in
  let cfg := if given "addnode"%string then set_SeedPeers (cf_SeedPeers cfg ++ [flag "addnode"%string]) cfg else cfg in
  if given "seed-peers"%string then set_SeedPeers (cf_SeedPeers cfg ++ Split comma (flag "seed-peers"%string)) cfg else cfg.

(** Why [main] ends before the node starts. *)
Inductive StartErr :=
| FlagExit (code : Z)
| PrintVersion
| ConfFailed (e : ConfErr)
| UnknownNetwork (name : list byte).

(** [main] as far as the network: the flags set, the settings and the parameters. *)
Definition node_settings (env : OSEnv) (argv : list (list byte))
    : result StartErr (list (string * FlagValue) * NodeConfig * ChainParams) :=
  match flag_Parse node_flags argv with
  | Err FlagHelp => Err (FlagExit 0)
  | Err BadFlag => Err (FlagExit 2)
  | Ok (set, _) =>
      check bool_flag "version" set else PrintVersion;
      let* cfg := rwrap ConfFailed (load_settings env set) in
      let cfg := apply_flags set cfg in
      match NetworkByName (text (cf_Network cfg)) with
      | None => Err (UnknownNetwork (cf_Network cfg))
      | Some params => Ok (set, set_DataDirName (bytes_of_string (p_DataDirName params)) cfg, params)
      end
  end.

(** ** What decides a setting *)

Section precedence.
Context (unicode : list byte -> list byte).

(** The settings of the lines that are in force for a network section, in order. *)
Fixpoint in_force (section current : list byte) (lines : list (list byte)) : list (list byte * list byte) :=
  match lines with
  | [] => []
  | raw :: lines =>
      match conf_line unicode raw with
      | Blank => in_force section current lines
      | SectionLine name => in_force section name lines
      | Setting key val =>
          (if bool_decide (current = []) || bool_decide (current = section) then [(key, val)] else [])
          ++ in_force section current lines
      end
  end.

(** The last value given to a key. *)
Definition last_value (l : list (list byte * list byte)) (key : string) : option (list byte) :=
  fold_left (fun v s => if String.eqb (text s.1) key then Some s.2 else v) l None.

Lemma last_value_snoc l k v key :
  last_value (l ++ [(k, v)]) key = if String.eqb (text k) key then Some v else last_value l key.
Proof. unfold last_value. by rewrite fold_left_app. Qed.

Lemma conf_fold section lines current cfg :
  (fold_left (conf_step unicode section) lines (current, cfg)).2
  = fold_left (fun cfg s => applyConfOption cfg s.1 s.2) (in_force section current lines) cfg.
Proof.
  revert current cfg. induction lines as [|raw lines IH]; intros current cfg; [done|]. cbn [fold_left in_force].
  unfold conf_step at 2. destruct (conf_line unicode raw) as [|name|key val]; [apply IH|apply IH|].
  destruct (bool_decide (current = [])), (bool_decide (current = section)); cbn [negb andb orb app fold_left]; apply IH.
Qed.

(** One setting, field by field. *)
Lemma applied_one cfg k v :
  let c := applyConfOption cfg k v in
  let pick {A} (key : string) (new old : A) := if String.eqb (text k) key then new else old in
  cf_Network c = pick "network"%string v (cf_Network cfg) /\ cf_DataDir c = pick "datadir"%string v (cf_DataDir cfg)
  /\ cf_ListenAddr c = pick "listen"%string v (cf_ListenAddr cfg) /\ cf_RPCAddr c = pick "rpc"%string v (cf_RPCAddr cfg)
  /\ cf_MiningEnabled c = pick "mine"%string (String.eqb (text v) "1" || String.eqb (text v) "true") (cf_MiningEnabled cfg)
  /\ cf_SeedPeers c = pick "seedpeers"%string (Split comma v) (cf_SeedPeers cfg)
  /\ cf_RPCUser c = pick "rpcuser"%string v (cf_RPCUser cfg)
  /\ cf_RPCPassword c = pick "rpcpassword"%string v (cf_RPCPassword cfg).
Proof.
  cbv zeta. unfold applyConfOption. generalize (text k). intros t.
  repeat match goal with
  | |- context [if String.eqb t ?s then _ else _] =>
      destruct (String.eqb t s) eqn:?; [match goal with E : String.eqb t s = true |- _ =>
        apply String.eqb_eq in E; subst t; repeat split; reflexivity end|]
  end.
  by split_and!.
Qed.

(** What a list of settings makes of the fields: the last value of each key counts. *)
Lemma applied_fields l cfg :
  let c := fold_left (fun cfg s => applyConfOption cfg s.1 s.2) l cfg in
  let file := last_value l in
  cf_Network c = default (cf_Network cfg) (file "network"%string)
  /\ cf_DataDir c = default (cf_DataDir cfg) (file "datadir"%string)
  /\ cf_ListenAddr c = default (cf_ListenAddr cfg) (file "listen"%string)
  /\ cf_RPCAddr c = default (cf_RPCAddr cfg) (file "rpc"%string)
  /\ cf_MiningEnabled c = default (cf_MiningEnabled cfg)
       ((fun v => String.eqb (text v) "1" || String.eqb (text v) "true") <$> file "mine"%string)
  /\ cf_SeedPeers c = default (cf_SeedPeers cfg) (Split comma <$> file "seedpeers"%string)
  /\ cf_RPCUser c = default (cf_RPCUser cfg) (file "rpcuser"%string)
  /\ cf_RPCPassword c = default (cf_RPCPassword cfg) (file "rpcpassword"%string).
Proof.
  cbv zeta. induction l as [|[k v] l IH] using rev_ind; [by split_and!|].
  rewrite fold_left_app, !last_value_snoc. cbn [fold_left fst snd].
  destruct (applied_one (fold_left (fun cfg s => applyConfOption cfg s.1 s.2) l cfg) k v)
    as (-> & -> & -> & -> & -> & -> & -> & ->).
  destruct IH as (-> & -> & -> & -> & -> & -> & -> & ->). split_and!; by destruct (String.eqb (text k) _).
Qed.

(** Fields and conditional assignments. *)
Lemma if_field {A B} (f : A -> B) (b : bool) x y : f (if b then x else y) = if b then f x else f y.
Proof. by destruct b. Qed.
Lemma if_same {A} (b : bool) (x : A) : (if b then x else x) = x.
Proof. by destruct b. Qed.
Lemma if_negb {A} (b : bool) (x y : A) : (if negb b then x else y) = if b then y else x.
Proof. by destruct b. Qed.

Ltac fields := repeat (progress (
  rewrite ?(if_field cf_Network), ?(if_field cf_DataDir), ?(if_field cf_ListenAddr), ?(if_field cf_RPCAddr),
    ?(if_field cf_MiningEnabled), ?(if_field cf_SeedPeers), ?(if_field cf_RPCUser), ?(if_field cf_RPCPassword);
  cbn [set_Network set_DataDir set_ListenAddr set_RPCAddr set_Mining set_SeedPeers cf_Network cf_DataDir cf_ListenAddr
    cf_RPCAddr cf_MiningEnabled cf_SeedPeers cf_RPCUser cf_RPCPassword]; rewrite ?if_same)); rewrite ?if_negb.

Lemma override_rpc_spec rpc bind port cfg : exists a, override_rpc rpc bind port cfg = set_RPCAddr a cfg
  /\ (rpc <> [] -> a = rpc) /\ (rpc = [] -> bind = [] -> port = [] -> a = cf_RPCAddr cfg).
Proof.
  unfold override_rpc. destruct (bool_decide (rpc = [])) eqn:E; cbn [negb]; bool_to_prop; [|by exists rpc].
  destruct (bool_decide (bind = [])) eqn:E1, (bool_decide (port = [])) eqn:E2; cbn [negb orb]; bool_to_prop.
  1: by exists (cf_RPCAddr cfg); destruct cfg.
  all: destruct (match (if bool_decide (cf_RPCAddr cfg = []) then None else splitHostPort (cf_RPCAddr cfg)) with
    Some (h, p) => (h, p) | None => _ end) as [host p]; eexists; by split_and!.
Qed.

(** What the flags make of the fields. *)
Lemma flag_fields set cfg :
  let flag name := string_flag name [] set in
  let first {A} (name : string) (new old : A) := if bool_decide (flag name = []) then old else new in
  let c := apply_flags set cfg in
  cf_Network c = first "network"%string (flag "network"%string) (cf_Network cfg)
  /\ cf_DataDir c = first "datadir"%string (flag "datadir"%string) (cf_DataDir cfg)
  /\ cf_ListenAddr c = first "listen"%string (flag "listen"%string) (cf_ListenAddr cfg)
  /\ (flag "rpc"%string <> [] -> cf_RPCAddr c = flag "rpc"%string)
  /\ (flag "rpc"%string = [] -> flag "rpcbind"%string = [] -> flag "rpcport"%string = [] -> cf_RPCAddr c = cf_RPCAddr cfg)
  /\ cf_MiningEnabled c = bool_flag "mine" set || cf_MiningEnabled cfg
  /\ cf_SeedPeers c = cf_SeedPeers cfg ++ first "addnode"%string [flag "addnode"%string] []
                      ++ first "seed-peers"%string (Split comma (flag "seed-peers"%string)) []
  /\ cf_RPCUser c = cf_RPCUser cfg /\ cf_RPCPassword c = cf_RPCPassword cfg.
Proof.
  cbv zeta. unfold apply_flags.
  set (cfg1 := if negb (bool_decide (string_flag "listen" [] set = [])) then _ else _).
  destruct (override_rpc_spec (string_flag "rpc" [] set) (string_flag "rpcbind" [] set) (string_flag "rpcport" [] set) cfg1)
    as (a & -> & Ha & Hb).
  assert (cf_RPCAddr cfg1 = cf_RPCAddr cfg) as Hr by (subst cfg1; fields; done). rewrite Hr in Hb. clear Hr.
  split_and!; subst cfg1; fields; try done.
  by destruct (bool_decide (string_flag "addnode" [] set = [])), (bool_decide (string_flag "seed-peers" [] set = []));
      rewrite ?app_nil_r, <- ?app_assoc.
Qed.
End precedence.

(** Flags come before the file and the file before the defaults.  When [main] reads its
    settings from a file named by [-conf] that exists and can be read, every setting that has
    a flag is what the flag says if it is given and not empty; otherwise the value of the
    last line of the file with its key that is in force, one before the first section header
    or in the section of the [-network] flag (of regtest without the flag, whatever network
    the file names); otherwise the default.  Mining is on if the flag says so or the file;
    the peers of the flags are added to those of the file; and the RPC credentials can only
    come from the file. *)
Theorem settings_precedence env argv set rest cfg params lines data :
  node_settings env argv = Ok (set, cfg, params) -> flag_Parse node_flags argv = Ok (set, rest) ->
  let flag name := string_flag name [] set in
  let first {A} (name : string) (new old : A) := if bool_decide (flag name = []) then old else new in
  flag "conf"%string <> [] -> oe_open env (flag "conf"%string) = Contents data -> scan (text_lines data) = (lines, false) ->
  let section := confSectionName (first "network"%string (flag "network"%string) (bytes_of_string "regtest")) in
  let file := last_value (in_force (oe_unicode env) section [] lines) in
  let dflt := DefaultConfig (oe_home env) in
  cf_Network cfg = first "network"%string (flag "network"%string) (default (cf_Network dflt) (file "network"%string))
  /\ cf_DataDir cfg = first "datadir"%string (flag "datadir"%string) (default (cf_DataDir dflt) (file "datadir"%string))
  /\ cf_ListenAddr cfg = first "listen"%string (flag "listen"%string) (default (cf_ListenAddr dflt) (file "listen"%string))
  /\ (flag "rpc"%string <> [] -> cf_RPCAddr cfg = flag "rpc"%string)
  /\ (flag "rpc"%string = [] -> flag "rpcbind"%string = [] -> flag "rpcport"%string = [] ->
        cf_RPCAddr cfg = default (cf_RPCAddr dflt) (file "rpc"%string))
  /\ cf_MiningEnabled cfg = bool_flag "mine" set
       || default false ((fun v => String.eqb (text v) "1" || String.eqb (text v) "true") <$> file "mine"%string)
  /\ cf_SeedPeers cfg = default [] (Split comma <$> file "seedpeers"%string)
       ++ first "addnode"%string [flag "addnode"%string] []
       ++ first "seed-peers"%string (Split comma (flag "seed-peers"%string)) []
  /\ cf_RPCUser cfg = default [] (file "rpcuser"%string) /\ cf_RPCPassword cfg = default [] (file "rpcpassword"%string)
  /\ NetworkByName (text (cf_Network cfg)) = Some params.
Proof.
  intros H Hp flag first Hconf Hopen Hscan section file dflt. unfold node_settings in H. rewrite Hp in H.
  destruct (bool_flag "version" set); [done|]. cbn [rbind] in H.
  assert (load_settings env set = Ok (fold_left (fun cfg s => applyConfOption cfg s.1 s.2)
    (in_force (oe_unicode env) section [] lines) dflt)) as Hl.
  { unfold load_settings. fold (flag "conf"%string). rewrite bool_decide_false by done. cbn [negb].
    unfold LoadConf. rewrite Hopen, Hscan. rewrite <- conf_fold. fold (flag "network"%string).
    assert (confSectionName (if bool_decide (flag "network"%string = []) then bytes_of_string "regtest" else flag "network"%string)
      = section) as -> by reflexivity.
    by destruct (fold_left _ _ _). }
  rewrite Hl in H. cbn [rwrap rbind] in H.
  destruct (NetworkByName _) as [p0|] eqn:En; [|done]. injection H as <- <-.
  destruct (applied_fields (in_force (oe_unicode env) section [] lines) dflt) as (F1 & F2 & F3 & F4 & F5 & F6 & F7 & F8).
  destruct (flag_fields set (fold_left (fun cfg s => applyConfOption cfg s.1 s.2)
    (in_force (oe_unicode env) section [] lines) dflt)) as (G1 & G2 & G3 & G4 & G5 & G6 & G7 & G8 & G9).
  cbn [set_DataDirName cf_Network cf_DataDir cf_ListenAddr cf_RPCAddr cf_MiningEnabled cf_SeedPeers cf_RPCUser cf_RPCPassword].
  split_and!; [by rewrite G1, F1|by rewrite G2, F2|by rewrite G3, F3|exact G4|by intros; rewrite G5, F4 by done
    |by rewrite G6, F5|by rewrite G7, F6|by rewrite G8, F7|by rewrite G9, F8|exact En].
Qed.

Definition example_conf : list byte := bytes_of_string
"# comment
rpcuser=alice
listen = 0.0.0.0:1
[test]
listen=0.0.0.0:2
seedpeers=10.0.0.1:9,10.0.0.2:9
[main]
listen=0.0.0.0:3
".
Definition example_env : OSEnv := {|
  oe_home := None; oe_open := fun path => if String.eqb (text path) "my.conf" then Contents example_conf else NotExist;
  oe_json := fun _ _ => None; oe_unicode := fun s => s |}.
Definition example_argv : list (list byte) :=
  map bytes_of_string ["-conf=my.conf"; "-network=testnet"; "--addnode"; "10.0.0.3:9"]%string.

Lemma settings_precedence_witness : exists cfg,
  (exists set params, node_settings example_env example_argv = Ok (set, cfg, params))
  /\ cf_ListenAddr cfg = bytes_of_string "0.0.0.0:2" /\ cf_RPCUser cfg = bytes_of_string "alice"
  /\ cf_SeedPeers cfg = map bytes_of_string ["10.0.0.1:9"; "10.0.0.2:9"; "10.0.0.3:9"]%string.
Proof.
  assert (is_ok (node_settings example_env example_argv) = true) as Hok by (vm_compute; reflexivity).
  destruct (node_settings example_env example_argv) as [[[set cfg] params]|e] eqn:E; [|discriminate Hok].
  assert (exists rest, flag_Parse node_flags example_argv = Ok (set, rest)) as [rest Hp].
  { unfold node_settings in E. destruct (flag_Parse node_flags example_argv) as [[set' rest]|[]]; [|discriminate E..].
    exists rest. destruct (bool_flag "version" set'); [discriminate E|]. cbn [rbind] in E.
    destruct (rwrap _ _); [|discriminate E]. cbn [rbind] in E. destruct (NetworkByName _); [|discriminate E].
    by injection E as <- _ _. }
  pose proof (settings_precedence example_env example_argv set rest cfg params (fst (scan (text_lines example_conf))) example_conf E Hp) as H.
  cbv zeta in H. assert (Ok (set, rest) = flag_Parse node_flags example_argv) as Hs by (by symmetry).
  vm_compute in Hs. injection Hs as -> ->.
  destruct H as (_ & _ & H3 & _ & _ & _ & H7 & H8 & _).
  - vm_compute. discriminate.
  - vm_compute. reflexivity.
  - vm_compute. reflexivity.
  - exists cfg. split; [eexists _, params; reflexivity|]. rewrite H3, H7, H8. split_and!; vm_compute; reflexivity.
Defined.
