(* ===== verification/Adversary.v ===== *)
(** * The adversary

    Models [src/cmd/adversary/main.go]: a client of the RPC server that builds blocks which
    break a rule, submits them and reports whether the node refused them.

    A program is a tree ([prog]): its nodes read the clock, draw random bytes or send a
    request, and continue with what they get; [None] is a failed transport.  [run]
    interprets a program against the server of [Rpc.v], with any events between two
    requests.  [time.Sleep] is only time for such events.

    An error text or [Detail] is a list of [Note]s, what the text is made of.  [main] exits
    when an attack fails, with its error. *)
From S2P Require Import Prelude.
From S2P Require Import Types.
From S2P Require Import Sha256.
From S2P Require Import Crypto.
From S2P Require Import Params.
From S2P Require Import Script.
From S2P Require Import Target.
From S2P Require Import Base58.
From S2P Require Import Utxo.
From S2P Require Import Wallet.
From S2P Require Import TxValidation.
From S2P Require Import BlockValidation.
From S2P Require Import Pow.
From S2P Require Import Store.
From S2P Require Import Chain.
From S2P Require Import Mempool.
From S2P Require Import WalletTx.
From S2P Require Import Protocol.
From S2P Require Import Peer.
From S2P Require Import Manager.
From S2P Require Import Rpc.
From S2P Require Import RpcInv.
#[local] Open Scope Z_scope.
#[local] Open Scope go_scope.

(** ** Programs *)

Inductive AdvErr :=
| HttpError | DecodeError
| TxOutStatus (code : Z) | UtxoSpent
| BadHash (e : HexErr)
| NoPoWFound | NoSpendableUTXO | NoImmatureUTXO | NoMinerUTXO
| BuildImmature (e : AdvErr) | BuildOverspend (e : AdvErr)
| UnknownAttack.

Inductive prog (A : Type) : Type :=
| Ret (a : A)
| Throw (e : AdvErr)
| Clock (k : Z -> prog A)                                  (** [time.Now().Unix()] *)
| Rand (k : Hash -> prog A)                                (** [rand.Read] of 32 bytes *)
| Call (rq : Request) (k : option Response -> prog A).     (** [http.Get] or [http.Post] *)
Arguments Ret {A} a.
Arguments Throw {A} e.
Arguments Clock {A} k.
Arguments Rand {A} k.
Arguments Call {A} rq k.

Fixpoint pbind {A B} (m : prog A) (f : A -> prog B) : prog B :=
  match m with
  | Ret a => f a
  | Throw e => Throw e
  | Clock k => Clock (fun t => pbind (k t) f)
  | Rand k => Rand (fun h => pbind (k h) f)
  | Call rq k => Call rq (fun o => pbind (k o) f)
  end.
#[local] Notation "'let!' x ':=' m 'in' k" := (pbind m (fun x => k))
  (at level 10, x pattern, m at level 100, k at level 200,
   format "'[v' 'let!'  x  ':='  m  'in' '/' k ']'").

(** The result with its error, for code that looks at it. *)
Fixpoint attempt {A} (m : prog A) : prog (result AdvErr A) :=
  match m with
  | Ret a => Ret (Ok a)
  | Throw e => Ret (Err e)
  | Clock k => Clock (fun t => attempt (k t))
  | Rand k => Rand (fun h => attempt (k h))
  | Call rq k => Call rq (fun o => attempt (k o))
  end.
Definition lift {A} (r : result AdvErr A) : prog A := match r with Ok a => Ret a | Err e => Throw e end.

(** A search loop: the first element that gives a value, and a loop that collects. *)
Fixpoint first_some {A B} (f : A -> prog (option B)) (l : list A) : prog (option B) :=
  match l with
  | [] => Ret None
  | a :: l => let! r := f a in match r with Some b => Ret (Some b) | None => first_some f l end
  end.
Fixpoint collect {A B} (f : A -> prog B) (l : list A) : prog (list B) :=
  match l with
  | [] => Ret []
  | a :: l => let! b := f a in let! bs := collect f l in Ret (b :: bs)
  end.

(** ** Running against a server *)

Inductive fault := NotSent | NoReply.

Record AdvEnv := {
  ae_now : nat -> Z;                        (** the adversary's clock *)
  ae_rand : nat -> Hash;
  ae_server_now : nat -> Z;                 (** the server's clock at a request *)
  ae_fault : nat -> option fault;
  ae_between : nat -> list server_event }.  (** what reaches the server before a request *)

Section run.
Context {St : Type} `{BS : BlockStore St} `{EN : Engine} {EC : ECOps} {WO : WalletOps}.
Context {PS : Type} `{PST : PeerStore PS}.
Context (cenv : Env) (nenv : NetEnv) (wenv : WalletEnv) (renv : RpcEnv) (ae : AdvEnv).

Record World := {
  wd_server : Server (St := St) (PS := PS);
  wd_tick : nat;
  wd_sent : list Request }.                 (** the requests that reached the server *)

Definition at_time (now : Z) (rq : Request) : Request :=
  {| rq_post := rq_post rq; rq_path := rq_path rq; rq_auth := rq_auth rq; rq_query := rq_query rq;
     rq_body := rq_body rq; rq_now := now |}.

Definition send (rq : Request) (w : World) : option Response * World :=
  let t := wd_tick w in
  let s := server_run cenv nenv wenv renv (wd_server w) (ae_between ae t) in
  let rq := at_time (ae_server_now ae t) rq in
  match ae_fault ae t with
  | Some NotSent => (None, {| wd_server := s; wd_tick := S t; wd_sent := wd_sent w |})
  | f =>
      let '(r, s) := serve_http cenv nenv wenv renv rq s in
      (match f with None => Some r | Some _ => None end,
       {| wd_server := s; wd_tick := S t; wd_sent := wd_sent w ++ [rq] |})
  end.

Definition next_tick (w : World) : World :=
  {| wd_server := wd_server w; wd_tick := S (wd_tick w); wd_sent := wd_sent w |}.

Fixpoint run {A} (m : prog A) (w : World) : result AdvErr A * World :=
  match m with
  | Ret a => (Ok a, w)
  | Throw e => (Err e, w)
  | Clock k => run (k (ae_now ae (wd_tick w))) (next_tick w)
  | Rand k => run (k (ae_rand ae (wd_tick w))) (next_tick w)
  | Call rq k => let '(o, w) := send rq w in run (k o) w
  end.
End run.

(** ** Replies *)

Definition get_request (path : string) (query : list (string * list byte)) : Request :=
  {| rq_post := false; rq_path := path; rq_auth := None;
     rq_query := fun k => default [] (snd <$> List.find (fun kv => String.eqb (fst kv) k) query);
     rq_body := []; rq_now := 0 |}.
Definition post_request (path : string) (body : list byte) : Request :=
  {| rq_post := true; rq_path := path; rq_auth := None; rq_query := fun _ => []; rq_body := body; rq_now := 0 |}.

Definition status (r : Response) : Z := match r with ROk _ => 200 | RErr code _ => code end.

(** The body as JSON; [writeError] writes an object with the one field [error], the
    default of the router is not JSON. *)
Definition body (r : Response) : option Json :=
  match r with
  | ROk v => Some v
  | RErr _ NotFound404 => None
  | RErr _ _ => Some (JObj [field "error" (JStr [])])
  end.

(** A field of the struct decoded into; [JNull] leaves the zero value, and so does an
    absent field. *)
Definition json_field (name : string) (v : Json) : result AdvErr Json :=
  match v with
  | JNull => Ok JNull
  | JObj fields => Ok (default JNull (snd <$> List.find (fun kv => bool_decide (fst kv = bytes_of_string name)) fields))
  | _ => Err DecodeError
  end.
Definition decode_number (lo hi : Z) (name : string) (v : Json) : result AdvErr Z :=
  let* x := json_field name v in
  match x with
  | JNull => Ok 0
  | JNum z => if (lo <=? z) && (z <? hi) then Ok z else Err DecodeError
  | _ => Err DecodeError
  end.
Definition decode_int := decode_number (- 2^63) (2^63).
Definition decode_uint32 := decode_number 0 (2^32).
Definition decode_uint64 := decode_number 0 (2^64).
Definition decode_string (name : string) (v : Json) : result AdvErr (list byte) :=
  let* x := json_field name v in
  match x with JNull => Ok [] | JStr s => Ok s | _ => Err DecodeError end.
Definition decode_bool (name : string) (v : Json) : result AdvErr bool :=
  let* x := json_field name v in
  match x with JNull => Ok false | JBool b => Ok b | _ => Err DecodeError end.

Record blockInfo := {
  bl_Hash : list byte; bl_Height : Z; bl_Version : Z; bl_PrevBlock : list byte; bl_Merkle : list byte;
  bl_Timestamp : Z; bl_Bits : list byte; bl_Nonce : Z; bl_TxCount : Z }.
Definition decode_blockInfo (v : Json) : result AdvErr blockInfo :=
  let* hash := decode_string "hash" v in
  let* height := decode_int "height" v in
  let* version := decode_uint32 "version" v in
  let* prev := decode_string "previousblockhash" v in
  let* merkle := decode_string "merkleroot" v in
  let* time := decode_uint32 "time" v in
  let* bits := decode_string "bits" v in
  let* nonce := decode_uint32 "nonce" v in
  let* n := decode_int "nTx" v in
  Ok {| bl_Hash := hash; bl_Height := height; bl_Version := version; bl_PrevBlock := prev; bl_Merkle := merkle;
        bl_Timestamp := time; bl_Bits := bits; bl_Nonce := nonce; bl_TxCount := n |}.

Record chainInfo := { ci_height : Z; ci_bestHash : list byte; ci_bits : list byte; ci_chain : list byte }.
Definition decode_chainInfo (v : Json) : result AdvErr chainInfo :=
  let* height := decode_int "blocks" v in
  let* best := decode_string "bestblockhash" v in
  let* bits := decode_string "bits" v in
  let* chain := decode_string "chain" v in
  Ok {| ci_height := height; ci_bestHash := best; ci_bits := bits; ci_chain := chain |}.

Record chainStatus := { cs_Bits : list byte; cs_RetargetInterval : Z }.
Definition decode_chainStatus (v : Json) : result AdvErr chainStatus :=
  let* bits := decode_string "bits" v in
  let* interval := decode_uint32 "retarget_interval" v in
  Ok {| cs_Bits := bits; cs_RetargetInterval := interval |}.

Record txoutInfo := { to_Confirmations : Z; to_Value : Z; to_Coinbase : bool }.
Definition decode_txoutInfo (v : Json) : result AdvErr txoutInfo :=
  let* conf := decode_int "confirmations" v in
  let* value := decode_uint64 "value" v in
  let* coinbase := decode_bool "coinbase" v in
  Ok {| to_Confirmations := conf; to_Value := value; to_Coinbase := coinbase |}.

(** [http.Get], then [json.NewDecoder(resp.Body).Decode(&info)] whatever the status. *)
Definition fetch {A} (path : string) (query : list (string * list byte)) (decode : Json -> result AdvErr A) : prog A :=
  Call (get_request path query) (fun o =>
    match o with
    | None => Throw HttpError
    | Some r => match body r with None => Throw DecodeError | Some v => lift (decode v) end
    end).

Definition fetchBlockByHeight (height : Z) : prog blockInfo :=
  fetch "/getblockbyheight" [("height"%string, decimal height)] decode_blockInfo.
Definition fetchChainInfo : prog chainInfo := fetch "/getblockchaininfo" [] decode_chainInfo.
Definition fetchChainStatus : prog chainStatus := fetch "/getchainstatus" [] decode_chainStatus.

Record fullChainInfo := { fi_Height : Z; fi_BestHash : list byte; fi_Bits : list byte; fi_Chain : list byte; fi_RetargetInterval : Z }.
Definition fetchFullChainInfo : prog fullChainInfo :=
  let! ci := fetchChainInfo in
  let! cs := fetchChainStatus in
  let bits := if bool_decide (ci_bits ci = []) then cs_Bits cs else ci_bits ci in
  Ret {| fi_Height := ci_height ci; fi_BestHash := ci_bestHash ci; fi_Bits := bits; fi_Chain := ci_chain ci;
         fi_RetargetInterval := cs_RetargetInterval cs |}.

Definition fetchTxOut (txid : list byte) (n : Z) : prog txoutInfo :=
  Call (get_request "/gettxout" [("txid"%string, txid); ("n"%string, decimal n)]) (fun o =>
    match o with
    | None => Throw HttpError
    | Some r =>
        if negb (status r =? 200) then Throw (TxOutStatus (status r))
        else match body r with
             | None => Throw DecodeError
             | Some JNull => Throw UtxoSpent
             | Some v => lift (decode_txoutInfo v)
             end
    end).

(** [fmt.Sscanf(s, "%x", &bits)]; [bits] keeps its value when it fails. *)
Fixpoint hex_prefix (s : list byte) : list Z :=
  match s with
  | c :: s => match fromHexChar c with Some d => d :: hex_prefix s | None => [] end
  | [] => []
  end.
Definition Sscanf_hex32 (s : list byte) (bits : Z) : Z :=
  match skip_space (length s) s with
  | None => bits
  | Some s =>
      match hex_prefix s with
      | [] => bits
      | ds => let v := fold_left (fun v d => 16 * v + d) ds 0 in if v <? 2^32 then v else bits
      end
  end.

(** [HashFromReverseHex] with the error ignored: the zero hash. *)
Definition hash_of_hex (s : list byte) : Hash :=
  match HashFromReverseHex s with Ok h => h | Err _ => ZeroHash end.

(** ** Reports *)

Inductive Note :=
| Replied (r : Response)                    (** the body the server answered *)
| HttpFailed
| ChainTooShort
| CouldNotFindPoW | PoWExhausted (attempt : Z)
| CouldNotBuild (e : AdvErr)
| NoUTXO (e : AdvErr) | BuildError (e : option AdvErr)
| AtHeight (height : Z) | Values (l : list Z) | Outpoint (txid : list byte) (idx : Z)
| AttemptNo (attempt : Z)
| PremineNotFound (txid : list byte)
| EpochDetail (l : list Z) | BlockOf (i n : Z) | BitsNow (s : option (list byte)).

Record attackResult := {
  ar_Attack : string; ar_Rejected : bool; ar_Error : list Note; ar_Detail : list Note }.
Definition report (name : string) (rejected : bool) (detail : list Note) : attackResult :=
  {| ar_Attack := name; ar_Rejected := rejected; ar_Error := []; ar_Detail := detail |}.

(** Rejected means a status other than 200. *)
Definition submitBlock (block : Block) : prog (bool * Note) :=
  Call (post_request "/submitblock" (blk_Serialize block)) (fun o =>
    Ret match o with
        | None => (false, HttpFailed)
        | Some r => (negb (status r =? 200), Replied r)
        end).

(** ** Blocks *)

Definition text := bytes_of_string.

(** A coinbase with the height and a tag in its script. *)
Definition coinbase_with (height : Z) (tag : list byte) (value : Z) (pkScript : list byte) : Transaction :=
  {| tx_Version := 1;
     tx_Inputs := [{| in_PreviousOutPoint := CoinbaseOutPoint;
                      in_SignatureScript := [Byte.x04] ++ PutUint32LE height ++ tag; in_Sequence := 0xFFFFFFFF |}];
     tx_Outputs := [{| out_Value := value; out_PkScript := pkScript |}];
     tx_LockTime := 0 |}.
Definition makeCoinbaseTx (height value : Z) : Transaction :=
  coinbase_with height (text "fairchain") value (text "adversary-test").

(** [cb.Inputs[0].SignatureScript = append(..., tag...)] *)
Definition tagged (tag : list byte) (cb : Transaction) : Transaction :=
  {| tx_Version := tx_Version cb;
     tx_Inputs := alter (fun i => {| in_PreviousOutPoint := in_PreviousOutPoint i;
                                     in_SignatureScript := in_SignatureScript i ++ tag;
                                     in_Sequence := in_Sequence i |}) 0%nat (tx_Inputs cb);
     tx_Outputs := tx_Outputs cb; tx_LockTime := tx_LockTime cb |}.

Definition spend_input (h : Hash) (idx : Z) (sigScript : list byte) : TxInput :=
  {| in_PreviousOutPoint := {| op_Hash := h; op_Index := idx |}; in_SignatureScript := sigScript; in_Sequence := 0xFFFFFFFF |}.
Definition forged_tx (inputs : list TxInput) (outputs : list (Z * list byte)) : Transaction :=
  {| tx_Version := 1; tx_Inputs := inputs;
     tx_Outputs := map (fun '(v, s) => {| out_Value := v; out_PkScript := s |}) outputs; tx_LockTime := 0 |}.

Definition with_header (b : Block) (h : BlockHeader) : Block :=
  {| blk_Header := h; blk_Transactions := blk_Transactions b |}.

(** A block of these transactions on [prev], with their Merkle root. *)
Definition block_on (prev : Hash) (ts bits : Z) (txs : list Transaction) : Block :=
  {| blk_Header := {| hdr_Version := 1; hdr_PrevBlock := prev; hdr_MerkleRoot := ComputeMerkleRoot txs;
                      hdr_Timestamp := ts; hdr_Bits := bits; hdr_Nonce := 0 |};
     blk_Transactions := txs |}.

(** One turn of the loop of [seal], and [n] turns; a number in binary, so that the limits of
    the code can be written down ([repeat_turns_spec] in [AdversaryProps.v]). *)
Definition seal_turn (target : Hash) (h : BlockHeader) : bool * BlockHeader :=
  if LessOrEqual (HashBlockHeader h) target then (true, h)
  else (false, with_nonce h (add32 (hdr_Nonce h) 1)).
Definition seal_then (first : bool * BlockHeader) (next : BlockHeader -> bool * BlockHeader) : bool * BlockHeader :=
  match first with (true, h) => (true, h) | (false, h) => next h end.
Fixpoint repeat_turns (n : positive) (target : Hash) (h : BlockHeader) : bool * BlockHeader :=
  match n with
  | xH => seal_turn target h
  | xO n => seal_then (repeat_turns n target h) (repeat_turns n target)
  | xI n => seal_then (seal_turn target h) (fun h => seal_then (repeat_turns n target h) (repeat_turns n target))
  end.
Definition seal (maxIter : Z) (target : Hash) (h : BlockHeader) : bool * BlockHeader :=
  match maxIter with Zpos n => repeat_turns n target h | _ => (false, h) end.

(** A block sealed with the work its own bits ask for. *)
Definition sealed (maxIter : Z) (b : Block) : bool * Block :=
  let '(found, h) := seal maxIter (CompactToHash (hdr_Bits (blk_Header b))) (blk_Header b) in
  (found, with_header b h).

Definition tip_height_after (height : Z) : Z := add32 (u32 height) 1.

Definition buildBlockOnTip : prog (Block * Z) :=
  let! ci := fetchFullChainInfo in
  let! prevHash := lift (rwrap BadHash (HashFromReverseHex (fi_BestHash ci))) in
  let bits := Sscanf_hex32 (fi_Bits ci) 0 in
  let newHeight := tip_height_after (fi_Height ci) in
  Clock (fun now => Ret (block_on prevHash (u32 now) bits [makeCoinbaseTx newHeight 5000000000], newHeight)).

(** The flag is false when no work was found: the error comes with the block. *)
Definition buildBlockWithSpendTx (spendTxHash : Hash) (spendIndex outputValue : Z) (tag : list byte)
  : prog (bool * Block * Z) :=
  let! ci := fetchFullChainInfo in
  let! prevHash := lift (rwrap BadHash (HashFromReverseHex (fi_BestHash ci))) in
  let bits := Sscanf_hex32 (fi_Bits ci) 0 in
  let newHeight := tip_height_after (fi_Height ci) in
  let cb := tagged tag (makeCoinbaseTx newHeight 5000000000) in
  let spendTx := forged_tx [spend_input spendTxHash spendIndex (text "adversary-spend")]
                   [(outputValue, text "adversary-recipient")] in
  Clock (fun now =>
    let '(found, block) := sealed 200000000 (block_on prevHash (u32 now) bits [cb; spendTx]) in
    Ret (found, block, newHeight)).

(** ** Attacks on the rules for blocks *)

(** Submits the block and reports. *)
Definition submit_and_report (name : string) (block : Block) (before : list Note) : prog (list attackResult) :=
  let! (rejected, detail) := submitBlock block in
  Ret [report name rejected (before ++ [detail])].

Definition attackBadNonce : prog (list attackResult) :=
  let! (block, _) := buildBlockOnTip in
  submit_and_report "bad-nonce" (with_header block (with_nonce (blk_Header block) 0xDEADBEEF)) [].

Definition xor_byte (m : Z) (b : byte) : byte := byte.of_Z (Z.lxor (byte.unsigned b) m).

Definition attackBadMerkle : prog (list attackResult) :=
  let! (block, _) := buildBlockOnTip in
  let root := alter (xor_byte 0xAA) 15%nat (alter (xor_byte 0xFF) 0%nat (hdr_MerkleRoot (blk_Header block))) in
  submit_and_report "bad-merkle" (with_header block (with_merkle (blk_Header block) root)) [].

(** The header of the block at height 1 over another coinbase. *)
Definition attackDuplicate : prog (list attackResult) :=
  let! ci := fetchChainInfo in
  if ci_height ci <? 1 then Ret [report "duplicate" false [ChainTooShort]]
  else
    let! info := fetchBlockByHeight 1 in
    submit_and_report "duplicate"
      {| blk_Header := {| hdr_Version := bl_Version info; hdr_PrevBlock := hash_of_hex (bl_PrevBlock info);
                          hdr_MerkleRoot := hash_of_hex (bl_Merkle info); hdr_Timestamp := bl_Timestamp info;
                          hdr_Bits := Sscanf_hex32 (bl_Bits info) 0; hdr_Nonce := bl_Nonce info |};
         blk_Transactions := [makeCoinbaseTx 1 5000000000] |} [].

Definition with_timestamp (b : Block) (ts : Z) : Block :=
  let h := blk_Header b in
  with_header b {| hdr_Version := hdr_Version h; hdr_PrevBlock := hdr_PrevBlock h; hdr_MerkleRoot := hdr_MerkleRoot h;
                   hdr_Timestamp := ts; hdr_Bits := hdr_Bits h; hdr_Nonce := hdr_Nonce h |}.

Definition attackTimeWarp (future : bool) : prog (list attackResult) :=
  let! (block, _) := buildBlockOnTip in
  if future
  then Clock (fun now => submit_and_report "time-warp-future" (with_timestamp block (add32 (add32 (u32 now) 7200) 1)) [])
  else submit_and_report "time-warp-past" (with_timestamp block 1) [].

(** One block of the flood. *)
Definition flood_block (fakeParent : Hash) (now i : Z) : Block :=
  let b := block_on fakeParent (u32 now) 0x1e0fffff [makeCoinbaseTx (u32 (i + 99999)) 5000000000] in
  with_header b (with_nonce (blk_Header b) (u32 i)).
Definition attackOrphanFlood (count : Z) : prog (list attackResult) :=
  collect (fun i => Rand (fun fakeParent => Clock (fun now =>
      let! (rejected, detail) := submitBlock (flood_block fakeParent now (Z.of_nat i)) in
      Ret (report "orphan-flood" rejected [detail]))))
    (seq 0 (Z.to_nat count)).

Definition found_note (found : bool) : list Note := if found then [] else [CouldNotFindPoW].

(** [block.Transactions[0].Outputs[0].Value = ...] *)
Definition inflate (cb : Transaction) : Transaction :=
  {| tx_Version := tx_Version cb; tx_Inputs := tx_Inputs cb;
     tx_Outputs := alter (fun o => {| out_Value := 999999999999999; out_PkScript := out_PkScript o |}) 0%nat (tx_Outputs cb);
     tx_LockTime := tx_LockTime cb |}.
Definition attackInflatedCoinbase : prog (list attackResult) :=
  let! (block, newHeight) := buildBlockOnTip in
  let h := blk_Header block in
  let txs := alter inflate 0%nat (blk_Transactions block) in
  let '(found, block) := sealed 200000000 {| blk_Header := with_merkle h (ComputeMerkleRoot txs); blk_Transactions := txs |} in
  let! (rejected, detail) := submitBlock block in
  Ret [{| ar_Attack := "inflated-coinbase"; ar_Rejected := rejected;
          ar_Error := [Values [999999999999999]; AtHeight newHeight]; ar_Detail := found_note found ++ [detail] |}].

Definition attackEmptyBlock : prog (list attackResult) :=
  let! ci := fetchFullChainInfo in
  Clock (fun now =>
    submit_and_report "empty-block"
      {| blk_Header := {| hdr_Version := 1; hdr_PrevBlock := hash_of_hex (fi_BestHash ci); hdr_MerkleRoot := ZeroHash;
                          hdr_Timestamp := u32 now; hdr_Bits := Sscanf_hex32 (fi_Bits ci) 0; hdr_Nonce := 0 |};
         blk_Transactions := [] |} []).

Definition attackWrongBits : prog (list attackResult) :=
  let! ci := fetchFullChainInfo in
  let! prevHash := lift (rwrap BadHash (HashFromReverseHex (fi_BestHash ci))) in
  let easyBits := 0x207fffff in
  let newHeight := tip_height_after (fi_Height ci) in
  Clock (fun now =>
    let '(found, block) := sealed 10000000 (block_on prevHash (u32 now) easyBits [makeCoinbaseTx newHeight 5000000000]) in
    let! (rejected, detail) := submitBlock block in
    Ret [{| ar_Attack := "wrong-bits"; ar_Rejected := rejected; ar_Error := [Values [easyBits]; AtHeight newHeight];
            ar_Detail := found_note found ++ [detail] |}]).

(** ** Searching for outputs *)

(** The guesses at a miner's coinbase at one height. *)
Definition guessed_coinbase (height : Z) (suffix : list byte) (value : Z) : Transaction :=
  coinbase_with (u32 height) suffix value [Byte.x00].
Definition suffixes : list (list byte) := [text "fairchain"; text "test"; text ""].

(** The loop [for h := start; h >= 1; h--], and the first heights of it. *)
Definition heights_from (start : Z) : list Z := heights_down start 0.

Definition start_height (height : Z) (mature : bool) : Z := Z.max 1 (if mature then height - 15 else height).

(** What a search makes of a txid: the outcome is [f] of what [gettxout] tells. *)
Definition probe {A} (cb : Transaction) (f : list byte -> txoutInfo -> option A) : prog (option A) :=
  let display := ReverseString (HashTransaction cb) in
  let! r := attempt (fetchTxOut display 0) in
  Ret (match r with Err _ => None | Ok info => f display info end).

Definition findSpendableUTXO (mustBeMature : bool) : prog (list byte * Z * Z) :=
  let! ci := fetchChainInfo in
  let! r := first_some (fun h =>
      let! b := attempt (fetchBlockByHeight h) in
      match b with
      | Err _ => Ret None
      | Ok _ => first_some (fun suffix => probe (guessed_coinbase h suffix 5000000000) (fun display info =>
                  if to_Value info >? 0 then Some (display, 0, to_Value info) else None)) suffixes
      end) (heights_from (start_height (ci_height ci) mustBeMature)) in
  match r with Some u => Ret u | None => Throw NoSpendableUTXO end.

Definition findImmatureUTXO : prog (list byte * Z * Z) :=
  let! ci := fetchChainInfo in
  let! r := first_some (fun h =>
      first_some (fun suffix => probe (guessed_coinbase h suffix 5000000000) (fun display info =>
        if to_Coinbase info && (to_Confirmations info <? 10) then Some (display, 0, to_Value info) else None)) suffixes)
    (heights_down (ci_height ci) (Z.max 0 (ci_height ci - 2))) in
  match r with Some u => Ret u | None => Throw NoImmatureUTXO end.

(** The subsidy the adversary takes from the name of the chain. *)
Definition fetchSubsidy : prog Z :=
  let! r := attempt fetchChainInfo in
  Ret match r with
      | Err _ => 50000000
      | Ok ci => if bool_decide (ci_chain ci = text "mainnet") then 5000000000
                 else if bool_decide (ci_chain ci = text "testnet") then 50000000
                 else 5000000000
      end.

Definition findMinerCoinbaseUTXO (mature : bool) : prog (Hash * Z * Z * list byte) :=
  let! ci := fetchChainInfo in
  let! subsidy := fetchSubsidy in
  let! r := first_some (fun h =>
      let cb := guessed_coinbase h (text "fairchain") subsidy in
      probe cb (fun display info =>
        if (to_Value info >? 0) && negb (mature && (to_Confirmations info <? 10))
        then Some (HashTransaction cb, 0, to_Value info, display) else None))
    (heights_from (start_height (ci_height ci) mature)) in
  match r with Some u => Ret u | None => Throw NoMinerUTXO end.

(** ** Attacks on the rules for spending *)

Definition attackDoubleSpend : prog (list attackResult) :=
  Rand (fun fakeTxHash =>
    let! r := attempt (buildBlockWithSpendTx fakeTxHash 0 1000 (text "double-spend")) in
    match r with
    | Err e => Ret [report "double-spend" true [CouldNotBuild e]]
    | Ok (false, _, _) => Ret [report "double-spend" true [CouldNotBuild NoPoWFound]]
    | Ok (true, block, newHeight) => submit_and_report "double-spend" block [AtHeight newHeight]
    end).

Definition attackImmatureCoinbaseSpend : prog (list attackResult) :=
  let! u := attempt findImmatureUTXO in
  let! (txidDisplay, idx, value) :=
    match u with
    | Ok u => Ret u
    | Err _ =>
        let! ci := fetchChainInfo in
        Ret (ReverseString (HashTransaction (guessed_coinbase (ci_height ci) (text "fairchain") 5000000000)), 0, 5000000000)
    end in
  let! r := attempt (buildBlockWithSpendTx (hash_of_hex txidDisplay) idx (sub64 value 1000) (text "immature-spend")) in
  match r with
  | Err e => Throw (BuildImmature e)
  | Ok (false, block, newHeight) => submit_and_report "immature-coinbase-spend" block [CouldNotFindPoW; AtHeight newHeight]
  | Ok (true, block, newHeight) =>
      submit_and_report "immature-coinbase-spend" block [Outpoint (take 16 txidDisplay) idx; AtHeight newHeight]
  end.

Definition attackOverspend : prog (list attackResult) :=
  let! u := attempt (findSpendableUTXO true) in
  match u with
  | Err e =>
      Rand (fun fakeTxHash =>
        let! r := attempt (buildBlockWithSpendTx fakeTxHash 0 999999999999 (text "overspend-fake")) in
        match r with
        | Ok (false, block, newHeight) => submit_and_report "overspend" block [AtHeight newHeight]
        | Ok (true, _, _) => Ret [report "overspend" true [NoUTXO e; BuildError None]]
        | Err e' => Ret [report "overspend" true [NoUTXO e; BuildError (Some e')]]
        end)
  | Ok (txidDisplay, idx, value) =>
      let overspendValue := mul64 value 10 in
      let! r := attempt (buildBlockWithSpendTx (hash_of_hex txidDisplay) idx overspendValue (text "overspend")) in
      match r with
      | Err e => Throw (BuildOverspend e)
      | Ok (found, block, newHeight) =>
          submit_and_report "overspend" block (found_note found ++ [Values [value; overspendValue]; AtHeight newHeight])
      end
  end.

(** A sealed block of a tagged coinbase and [txs] on the tip; the error of a bad hash is
    ignored here. *)
Definition sealed_on_tip (maxIter cbValue : Z) (tag : list byte) (txs : list Transaction) : prog (bool * Block * Z) :=
  let! ci := fetchFullChainInfo in
  let newHeight := tip_height_after (fi_Height ci) in
  let cb := tagged tag (makeCoinbaseTx newHeight cbValue) in
  Clock (fun now =>
    let '(found, block) := sealed maxIter (block_on (hash_of_hex (fi_BestHash ci)) (u32 now) (Sscanf_hex32 (fi_Bits ci) 0) (cb :: txs)) in
    Ret (found, block, newHeight)).

Definition duplicate_txs (h : Hash) (idx value : Z) : list Transaction :=
  [forged_tx [spend_input h idx (text "dup-1"); spend_input h idx (text "dup-2")] [(mul64 value 2, text "adversary-dup-input")]].
Definition intra_txs (h : Hash) (idx value : Z) : list Transaction :=
  [forged_tx [spend_input h idx (text "spend-1")] [(sub64 value 1000, text "adversary-intra-1")];
   forged_tx [spend_input h idx (text "spend-2")] [(sub64 value 2000, text "adversary-intra-2")]].

(** The two attacks that spend one outpoint twice differ in the transactions. *)
Definition attack_twice (name : string) (tag : list byte) (txs : Hash -> Z -> Z -> list Transaction)
    (more : Z -> list Z) : prog (list attackResult) :=
  let! u := attempt (findSpendableUTXO true) in
  match u with
  | Err e => Ret [report name true [NoUTXO e]]
  | Ok (txidDisplay, idx, value) =>
      let! (found, block, newHeight) :=
        sealed_on_tip 200000000 5000000000 tag (txs (hash_of_hex txidDisplay) idx value) in
      submit_and_report name block
        (if found then [Outpoint (take 16 txidDisplay) idx; Values (value :: more value); AtHeight newHeight]
         else [CouldNotFindPoW; Values [value]; AtHeight newHeight])
  end.
Definition attackDuplicateInput : prog (list attackResult) :=
  attack_twice "duplicate-input" (text "dup-input") duplicate_txs (fun v => [mul64 v 2]).
Definition attackIntraBlockDoubleSpend : prog (list attackResult) :=
  attack_twice "intra-block-double-spend" (text "intra-ds") intra_txs (fun _ => []).

(** The loop of the two thefts: the reports so far, and the body of a turn, which may add a
    report and may end the loop. *)
Fixpoint retry (n : nat) (attemptNo : Z) (f : Z -> prog (list attackResult * bool)) (results : list attackResult)
  : prog (list attackResult) :=
  match n with
  | O => Ret results
  | S n =>
      let! (more, stop) := f attemptNo in
      if stop then Ret (results ++ more) else retry n (attemptNo + 1) f (results ++ more)
  end.

(** The end of a turn: the block is submitted if work was found for it. *)
Definition submit_theft (name : string) (attemptNo : Z) (found : bool) (block : Block) (success : list Note)
  : prog (list attackResult * bool) :=
  if negb found then Ret ([report name false [PoWExhausted attemptNo]], false)
  else
    let! (wasRejected, detail) := submitBlock block in
    if negb wasRejected then Ret ([report name false (success ++ [detail])], true)
    else Ret ([report name true [AttemptNo attemptNo; detail]], false).

Definition theft_tag (name : string) (attemptNo : Z) : list byte := text name ++ text "-" ++ decimal attemptNo.

Definition steal_utxo_turn (subsidy attemptNo : Z) : prog (list attackResult * bool) :=
  let! u := attempt (findMinerCoinbaseUTXO true) in
  match u with
  | Err e => Ret ([report "steal-utxo" false [AttemptNo attemptNo; NoUTXO e]], false)
  | Ok (txHash, idx, value, txidDisplay) =>
      let fee := 100 in
      let! r := attempt (sealed_on_tip 500000000 (add64 subsidy fee) (theft_tag "steal-utxo" attemptNo)
                  [forged_tx [spend_input txHash idx (text "STOLEN-no-signature-required")]
                     [(sub64 value fee, text "attacker-wallet-addr")]]) in
      match r with
      | Err _ => Ret ([], false)
      | Ok (found, block, newHeight) =>
          submit_theft "steal-utxo" attemptNo found block
            [AttemptNo attemptNo; Values [sub64 value fee]; Outpoint (take 16 txidDisplay) idx; AtHeight newHeight]
      end
  end.
Definition attackStealUTXO : prog (list attackResult) :=
  let! subsidy := fetchSubsidy in
  retry 20 0 (steal_utxo_turn subsidy) [].

(** The coinbase the adversary takes to be the one of the testnet genesis block. *)
Definition premine_coinbase : Transaction :=
  {| tx_Version := 1;
     tx_Inputs := [{| in_PreviousOutPoint := CoinbaseOutPoint;
                      in_SignatureScript := text "fairchain testnet genesis"; in_Sequence := 0xFFFFFFFF |}];
     tx_Outputs := [{| out_Value := 5000000; out_PkScript := [Byte.x00] |};
                    {| out_Value := 419999999538000; out_PkScript := text "burn:testnet:premine:v1" |}];
     tx_LockTime := 0 |}.

Definition steal_premine_turn (subsidy attemptNo : Z) : prog (list attackResult * bool) :=
  let genesisTxHash := HashTransaction premine_coinbase in
  let txidDisplay := ReverseString genesisTxHash in
  let! first := attempt (fetchTxOut txidDisplay 1) in
  let! u :=
    match first with
    | Ok _ => Ret (Some (419999999538000, 1))
    | Err _ =>
        let! second := attempt (fetchTxOut txidDisplay 0) in
        Ret (match second with Ok info => Some (to_Value info, 0) | Err _ => None end)
    end in
  match u with
  | None => Ret ([report "steal-premine" false [PremineNotFound (take 16 txidDisplay)]], true)
  | Some (premineValue, outputIdx) =>
      let fee := 1000 in
      let! r := attempt (sealed_on_tip 500000000 (add64 subsidy fee) (theft_tag "steal-premine" attemptNo)
                  [forged_tx [spend_input genesisTxHash outputIdx (text "PREMINE-THEFT-no-script-validation")]
                     [(premineValue / 2, text "attacker-wallet-1"); (sub64 (premineValue / 2) fee, text "attacker-wallet-2")]]) in
      match r with
      | Err _ => Ret ([], false)
      | Ok (found, block, newHeight) =>
          submit_theft "steal-premine" attemptNo found block
            [AttemptNo attemptNo; Values [premineValue]; AtHeight newHeight]
      end
  end.
Definition attackStealPremine : prog (list attackResult) :=
  let! subsidy := fetchSubsidy in
  retry 20 0 (steal_premine_turn subsidy) [].

(** ** Gaming the timestamps *)

(** What the loop over the blocks of an epoch carries. *)
Record DiffState := {
  ds_prevHash : Hash; ds_bits : Z; ds_accepted : Z; ds_rejected : Z; ds_results : list attackResult }.
Definition add_result (r : attackResult) (d : DiffState) : DiffState :=
  {| ds_prevHash := ds_prevHash d; ds_bits := ds_bits d; ds_accepted := ds_accepted d; ds_rejected := ds_rejected d;
     ds_results := ds_results d ++ [r] |}.

(** The timestamp of block [i] of the epoch. *)
Definition stretched_time (lastTimestamp i now : Z) : Z :=
  let blockTimestamp := add32 lastTimestamp (u32 (i * 20)) in
  let maxAllowed := add32 (u32 now) 120 in
  let blockTimestamp := if blockTimestamp >? maxAllowed then maxAllowed else blockTimestamp in
  if blockTimestamp <=? lastTimestamp then add32 lastTimestamp 1 else blockTimestamp.

(** One block; [None] is a [break]. *)
Definition epoch_block (epoch currentHeight interval lastTimestamp subsidy blocksNeeded i : Z) (detail : list Z) (d : DiffState)
  : prog (bool * DiffState) :=
  let newHeight := add32 currentHeight i in
  Clock (fun now =>
    let ts := stretched_time lastTimestamp i now in
    let cb := tagged (text "diff-manip-e" ++ decimal epoch ++ text "-b" ++ decimal i) (makeCoinbaseTx newHeight subsidy) in
    let '(found, block) := sealed 500000000 (block_on (ds_prevHash d) ts (ds_bits d) [cb]) in
    if negb found
    then Ret (true, add_result (report "difficulty-manipulation" false
                [EpochDetail detail; CouldNotFindPoW; BlockOf i blocksNeeded; Values [ds_bits d]]) d)
    else
      let! (wasRejected, note) := submitBlock block in
      if wasRejected
      then Ret (true, {| ds_prevHash := ds_prevHash d; ds_bits := ds_bits d; ds_accepted := ds_accepted d;
                         ds_rejected := ds_rejected d + 1;
                         ds_results := ds_results d ++ [report "difficulty-manipulation" true [BlockOf i blocksNeeded; note]] |})
      else
        let d := {| ds_prevHash := HashBlockHeader (blk_Header block); ds_bits := ds_bits d;
                    ds_accepted := ds_accepted d + 1; ds_rejected := ds_rejected d; ds_results := ds_results d |} in
        if newHeight mod interval =? 0 then
          let! newCs := attempt fetchChainStatus in
          Ret (false, match newCs with
                      | Err _ => d
                      | Ok cs => {| ds_prevHash := ds_prevHash d; ds_bits := Sscanf_hex32 (cs_Bits cs) (ds_bits d);
                                    ds_accepted := ds_accepted d; ds_rejected := ds_rejected d; ds_results := ds_results d |}
                      end)
        else Ret (false, d)).

(** [for i := 1; i <= blocksNeeded; i++] *)
Fixpoint epoch_blocks (n : nat) (i : Z) (body : Z -> DiffState -> prog (bool * DiffState)) (d : DiffState) : prog DiffState :=
  match n with
  | O => Ret d
  | S n => let! (stop, d) := body i d in if stop then Ret d else epoch_blocks n (i + 1) body d
  end.

Definition manipulate_epoch (subsidy epoch : Z) : prog (list attackResult) :=
  let! ci := fetchFullChainInfo in
  let currentHeight := u32 (fi_Height ci) in
  let interval := if fi_RetargetInterval ci =? 0 then 20 else fi_RetargetInterval ci in
  let nextRetarget := u32 (add32 (currentHeight / interval) 1 * interval) in
  let blocksNeeded := sub32 nextRetarget currentHeight in
  let '(blocksNeeded, nextRetarget) :=
    if blocksNeeded =? 0 then (interval, add32 nextRetarget interval) else (blocksNeeded, nextRetarget) in
  let detail := [epoch; currentHeight; nextRetarget; blocksNeeded] in
  let bits := Sscanf_hex32 (fi_Bits ci) 0 in
  let! tipBlock := attempt (fetchBlockByHeight currentHeight) in
  match tipBlock with
  | Err e => Ret [report "difficulty-manipulation" false [EpochDetail detail; CouldNotBuild e]]
  | Ok tipBlock =>
      let! d := epoch_blocks (Z.to_nat blocksNeeded) 1
                  (fun i => epoch_block epoch currentHeight interval (bl_Timestamp tipBlock) subsidy blocksNeeded i detail)
                  {| ds_prevHash := hash_of_hex (fi_BestHash ci); ds_bits := bits; ds_accepted := 0; ds_rejected := 0;
                     ds_results := [] |} in
      let! newCs := attempt fetchChainStatus in
      let shown := match newCs with Ok cs => Some (cs_Bits cs) | Err _ => None end in
      Ret (ds_results d ++ [report "difficulty-manipulation" false
             [EpochDetail detail; Values [ds_accepted d; ds_rejected d]; BitsNow shown; Values [bits]]])
  end.

Definition attackDifficultyManipulation (epochs : Z) : prog (list attackResult) :=
  let! subsidy := fetchSubsidy in
  let! reports := collect (fun epoch => manipulate_epoch subsidy (Z.of_nat epoch)) (seq 0 (Z.to_nat (Z.max 1 epochs))) in
  Ret (concat reports).

(** ** [main] *)

Definition attacks (count : Z) : list (string * prog (list attackResult)) := [
  ("bad-nonce", attackBadNonce); ("bad-merkle", attackBadMerkle); ("duplicate", attackDuplicate);
  ("time-warp-future", attackTimeWarp true); ("time-warp-past", attackTimeWarp false);
  ("orphan-flood", attackOrphanFlood count); ("inflated-coinbase", attackInflatedCoinbase);
  ("empty-block", attackEmptyBlock); ("wrong-bits", attackWrongBits); ("double-spend", attackDoubleSpend);
  ("immature-coinbase-spend", attackImmatureCoinbaseSpend); ("overspend", attackOverspend);
  ("duplicate-input", attackDuplicateInput); ("intra-block-double-spend", attackIntraBlockDoubleSpend);
  ("steal-utxo", attackStealUTXO); ("steal-premine", attackStealPremine);
  ("difficulty-manipulation", attackDifficultyManipulation count)]%string.

Definition run_attack (name : string) (count : Z) : prog (list attackResult) :=
  match List.find (fun a => String.eqb (fst a) name) (attacks count) with
  | Some (_, m) => m
  | None => Throw UnknownAttack
  end.
