(* ===== verification/AdversaryProps.v ===== *)
(** * The adversary gets nothing accepted

    A block is [hopeless] when no consistent node can accept it.  The blocks of the attacks
    are shown to be hopeless, a program logic on [prog] carries this to whole attacks, and
    [run_wp] to their runs against a node that other peers and clients use meanwhile. *)
From Equations Require Import Equations.
From S2P Require Import Prelude.
From S2P Require Import Types.
From S2P Require Import Sha256.
From S2P Require Import Crypto.
From S2P Require Import Params.
From S2P Require Import Script.
From S2P Require Import Target.
From S2P Require Import Base58.
From S2P Require Import Utxo.
From S2P Require Import Wallet.
From S2P Require Import WalletInv.
From S2P Require Import WalletProps.
From S2P Require Import TxValidation.
From S2P Require Import BlockValidation.
From S2P Require Import Pow.
From S2P Require Import Ledger.
From S2P Require Import Store.
From S2P Require Import FileLaws.
From S2P Require Import Chain.
From S2P Require Import ChainInv.
From S2P Require Import Reorg.
From S2P Require Import Accept.
From S2P Require Import Ancestors.
From S2P Require Import ChainSafety.
From S2P Require Import Mempool.
From S2P Require Import WalletTx.
From S2P Require Import ChainProps.
From S2P Require Import Protocol.
From S2P Require Import TimeAdjust.
From S2P Require Import Peer.
From S2P Require Import SeenSet.
From S2P Require Import Manager.
From S2P Require Import NodeInv.
From S2P Require Import NodeProps.
From S2P Require Import Rpc.
From S2P Require Import RpcInv.
From S2P Require Import RpcProps.
From S2P Require Import Adversary.
#[local] Open Scope Z_scope.
#[local] Open Scope go_scope.
Import MerkleFacts.

(** ** Sealing *)

(** The loop of the code. *)
Fixpoint seal_turns (n : nat) (target : Hash) (h : BlockHeader) : bool * BlockHeader :=
  match n with
  | O => (false, h)
  | S n => seal_then (seal_turn target h) (seal_turns n target)
  end.

Lemma seal_turns_app n m target h : seal_turns (n + m) target h = seal_then (seal_turns n target h) (seal_turns m target).
Proof.
  revert h. induction n as [|n IH]; intros h; [done|]. cbn [seal_turns Nat.add].
  destruct (seal_turn target h) as [[] h1]; [done|]. exact (IH h1).
Qed.
Lemma seal_then_ext r f g : (forall h, f h = g h) -> seal_then r f = seal_then r g.
Proof. destruct r as [[] h]; intros H; [done|apply H]. Qed.
Lemma repeat_turns_spec n target h : repeat_turns n target h = seal_turns (Pos.to_nat n) target h.
Proof.
  revert h. assert (forall n, (forall h, repeat_turns n target h = seal_turns (Pos.to_nat n) target h) -> forall h,
    seal_then (repeat_turns n target h) (repeat_turns n target) = seal_turns (Pos.to_nat n + Pos.to_nat n) target h) as Hd.
  { intros m IH h. rewrite seal_turns_app, IH. apply seal_then_ext, IH. }
  induction n as [n IH|n IH|]; intros h; cbn [repeat_turns].
  - rewrite Pos2Nat.inj_xI. replace (S (2 * Pos.to_nat n)) with (S (Pos.to_nat n + Pos.to_nat n))%nat by lia.
    cbn [seal_turns]. apply seal_then_ext, (Hd n IH).
  - rewrite Pos2Nat.inj_xO. replace (2 * Pos.to_nat n)%nat with (Pos.to_nat n + Pos.to_nat n)%nat by lia. apply (Hd n IH).
  - change (Pos.to_nat 1) with 1%nat. cbn [seal_turns]. by destruct (seal_turn target h) as [[] h1].
Qed.

(** Sealing changes only the nonce. *)
Lemma seal_nonce maxIter target h : exists n, (is_u32 (hdr_Nonce h) -> is_u32 n) /\ (seal maxIter target h).2 = with_nonce h n.
Proof.
  assert (h = with_nonce h (hdr_Nonce h)) as E0 by (by destruct h).
  destruct maxIter as [|n|n]; cbn [seal]; [by eexists; split; [|exact E0]| |by eexists; split; [|exact E0]].
  rewrite repeat_turns_spec. induction (Pos.to_nat n) as [|k IH] in h, E0 |- *; cbn [seal_turns]; [by eexists; split; [|exact E0]|].
  unfold seal_then, seal_turn. destruct (LessOrEqual _ target); [by eexists; split; [|exact E0]|].
  destruct (IH (with_nonce h (add32 (hdr_Nonce h) 1)) ltac:(done)) as (m & Hm & E). exists m. split; [|exact E].
  intros _. apply Hm. apply u32_range.
Qed.

(** ** Hopeless blocks *)

Lemma foldMi_elem {E A S} (f : S -> Z -> A -> result E S) l x : forall i s s',
  foldMi f i s l = Ok s' -> x ∈ l -> exists j s1 s2, f s1 j x = Ok s2.
Proof.
  induction l as [|y l IH]; intros i s s' H Hx; [by apply not_elem_of_nil in Hx|]. cbn [foldMi] in H.
  apply rbind_Ok in H as (s1 & H1 & H2). apply elem_of_cons in Hx as [->|Hx]; [by exists i, s, s1|by eapply IH].
Qed.

Section hopeless.
Context `{EC : ECOps} (p : ChainParams) (U : list Block).

(** No ledger connects [b], or its parent is not a block. *)
Inductive hopeless (b : Block) : Prop :=
| hl_rules : (forall us height, 0 <= height -> connect_step p us height b = None) -> hopeless b
| hl_parent : (forall b', b' ∈ U -> block_hash b' <> hdr_PrevBlock (blk_Header b)) -> hopeless b.

Lemma no_structure b : (forall height, ValidateBlockStructure b height p <> Ok tt) -> hopeless b.
Proof.
  intros H. apply hl_rules. intros us height Hh. unfold connect_step. specialize (H height).
  by destruct (ValidateBlockStructure b height p) as [[]|].
Qed.
Lemma no_inputs b : (forall us height fees, 0 <= height -> ValidateTransactionInputs b us height p <> Ok fees) -> hopeless b.
Proof.
  intros H. apply hl_rules. intros us height Hh. unfold connect_step. destruct (ValidateBlockStructure b height p); [|done].
  
  destruct (ValidateTransactionInputs b us height p) as [fees|] eqn:E; [|done]. by destruct (H us height fees Hh).
Qed.

(** No transaction. *)
Lemma hopeless_empty h : hopeless {| blk_Header := h; blk_Transactions := [] |}.
Proof. apply no_structure. intros height. done. Qed.

(** Another Merkle root. *)
Lemma hopeless_merkle b : hdr_MerkleRoot (blk_Header b) <> ComputeMerkleRoot (blk_Transactions b) -> hopeless b.
Proof.
  intros Hm. apply no_structure. intros height H. apply ValidateBlockStructure_Ok in H as (_ & _ & H & _). by apply Hm.
Qed.

(** A script no engine runs. *)
Definition forged (sigScript : list byte) : Prop := forall e, is_ok (execute e sigScript []) = false.

Lemma Verify_forged sigScript pkScript tx i : forged sigScript -> Verify sigScript pkScript tx i <> Ok tt.
Proof.
  intros Hf H. unfold Verify in H. destruct (len pkScript =? 0); [done|]. destruct (_ =? OpReturn); [done|]. cbv zeta in H.
  apply rbind_Ok in H as (st & H & _). apply rwrap_Ok in H.
  specialize (Hf {| e_tx := tx; e_inputIdx := i; e_pkScript := pkScript |}). by rewrite H in Hf.
Qed.

(** A spend with a forged script. *)
Lemma hopeless_forged b tx ti rest :
  tx ∈ blk_Transactions b -> tx_Inputs tx = ti :: rest -> tx_IsCoinbase tx = false ->
  forged (in_SignatureScript ti) -> hopeless b.
Proof.
  intros Hin Ei Hc Hf. apply no_inputs. intros us height fees _ H. unfold ValidateTransactionInputs in H.
  apply rbind_Ok in H as ([total seen] & H & _). destruct (foldMi_elem _ _ tx _ _ _ H Hin) as (j & [fees0 spent] & acc & Hv).
  unfold validate_block_tx in Hv. rewrite Hc, Ei in Hv. destruct (_ =? 0); [done|]. destruct (_ =? 0); [done|].
  apply rbind_Ok in Hv as ([[totalIn sn] sp] & Hi & Hv). apply rbind_Ok in Hv as (totalOut & _ & Hv).
  destruct (totalIn <? totalOut); [done|]. apply rbind_Ok in Hv as (? & Hs & _).
  cbn [foldMi] in Hi, Hs. apply rbind_Ok in Hi as (x1 & Hi & _). apply rbind_Ok in Hs as (x2 & Hs & _).
  unfold block_input in Hi. do 2 (case_bool_decide; [done|]). unfold verify_input in Hs.
  destruct (Get us _ _) as [entry|]; [|done]. unfold IsLegacyUnvalidatedScript in Hs.
  destruct x2. apply rwrap_Ok in Hs. by apply Verify_forged in Hs.
Qed.

(** More than any subsidy in a block without fees. *)
Lemma CalcSubsidy_le height : wf_params p -> 0 <= height -> CalcSubsidy p height <= p_InitialSubsidy p.
Proof.
  intros (Hp & Hi & _) Hh. unfold CalcSubsidy. destruct (Z.eqb_spec (p_SubsidyHalvingInterval p) 0); [lia|].
  unfold is_u64, is_u32 in *. destruct (_ >=? 64); [lia|]. assert (0 <= height / p_SubsidyHalvingInterval p) as Hq by (apply Z.div_pos; lia).
  rewrite Z.shiftr_div_pow2 by done. pose proof (Z.pow_pos_nonneg 2 _ ltac:(lia) Hq). apply Z.div_le_upper_bound; nia.
Qed.

Lemma hopeless_inflated h cb value pk :
  wf_params p -> p_InitialSubsidy p < value < 2^64 -> tx_IsCoinbase cb = true ->
  tx_Outputs cb = [{| out_Value := value; out_PkScript := pk |}] ->
  hopeless {| blk_Header := h; blk_Transactions := [cb] |}.
Proof.
  intros Hp Hv Hc Eo. apply no_inputs. intros us height fees Hh H. unfold ValidateTransactionInputs in H.
  cbn [blk_Transactions foldMi] in H. unfold validate_block_tx in H. rewrite Hc, Eo in H. cbn [foldMi] in H.
  unfold coinbase_output, coinbase_sum in H. cbn [out_Value] in H.
  pose proof (CalcSubsidy_le height Hp Hh) as Hle. pose proof (CalcSubsidy_u64 p height Hh Hp) as Hs. unfold is_u64 in Hs.
  assert (add64 0 value = value) as E1 by (unfold add64; apply u64_small; unfold is_u64; lia).
  assert (add64 (CalcSubsidy p height) 0 = CalcSubsidy p height) as E2
    by (unfold add64; rewrite Z.add_0_r; apply u64_small; unfold is_u64; lia).
  destruct (Z.eqb_spec value 0); [lia|]. cbn [rbind] in H. rewrite E1, E2 in H.
  destruct (Z.ltb_spec (CalcSubsidy p height) (CalcSubsidy p height)); [done|].
  destruct (Z.ltb_spec value 0); [lia|]. cbn [rbind] in H. destruct (Z.gtb_spec value (CalcSubsidy p height)); [done|lia].
Qed.
End hopeless.

(** ** What a program ensures *)

Section logic.
Context `{EC : ECOps} (p : ChainParams) (U : list Block).

(** A hopeless block is not accepted. *)
Definition reply_ok (rq : Request) (o : option Response) : Prop :=
  forall b r, rq_path rq = "/submitblock"%string -> rq_body rq = blk_Serialize b -> wf_block b -> hopeless p U b ->
  o = Some r -> status r <> 200.

(** Random bytes are no block's hash. *)
Definition rand_ok (h : Hash) : Prop := wf_hash h /\ forall b, b ∈ U -> block_hash b <> h.

(** [Q] of the result, whatever the clock, the random bytes and the replies, if it ends
    without an error. *)
Fixpoint ensures {A} (m : prog A) (Q : A -> Prop) : Prop :=
  match m with
  | Ret a => Q a
  | Throw _ => True
  | Clock k => forall t, ensures (k t) Q
  | Rand k => forall h, rand_ok h -> ensures (k h) Q
  | Call rq k => forall o, reply_ok rq o -> ensures (k o) Q
  end.

Lemma ensures_mono {A} (m : prog A) (Q Q' : A -> Prop) : (forall a, Q a -> Q' a) -> ensures m Q -> ensures m Q'.
Proof. intros H. induction m; cbn [ensures]; auto. Qed.
Lemma ensures_bind {A B} (m : prog A) (f : A -> prog B) Q :
  ensures m (fun a => ensures (f a) Q) -> ensures (pbind m f) Q.
Proof. induction m; cbn [ensures pbind]; auto. Qed.
Lemma ensures_any {A} (m : prog A) : ensures m (fun _ => True).
Proof. induction m; cbn [ensures]; auto. Qed.
(** A step about whose result nothing need be known. *)
Lemma ensures_skip {A B} (m : prog A) (f : A -> prog B) Q : (forall a, ensures (f a) Q) -> ensures (pbind m f) Q.
Proof. intros H. apply ensures_bind. eapply ensures_mono; [|apply ensures_any]. intros a _. apply H. Qed.
Lemma ensures_attempt {A} (m : prog A) Q :
  (forall e, Q (Err e)) -> ensures m (fun a => Q (Ok a)) -> ensures (attempt m) Q.
Proof. intros He. induction m; cbn [ensures attempt]; auto. Qed.
Lemma ensures_lift {A} (r : result AdvErr A) Q : (forall a, r = Ok a -> Q a) -> ensures (lift r) Q.
Proof. destruct r; intros H; [by apply H|done]. Qed.

(** Loops. *)
Lemma ensures_first {A B} (f : A -> prog (option B)) (Q : B -> Prop) l :
  (forall a, ensures (f a) (fun r => forall b, r = Some b -> Q b)) ->
  ensures (first_some f l) (fun r => forall b, r = Some b -> Q b).
Proof.
  intros H. induction l as [|a l IH]; [done|]. cbn [first_some]. apply ensures_bind.
  eapply ensures_mono; [|apply H]. intros [b|] Hb; [|exact IH]. exact Hb.
Qed.
Lemma ensures_collect {A B} (f : A -> prog B) (Q : B -> Prop) l :
  (forall a, ensures (f a) Q) -> ensures (collect f l) (Forall Q).
Proof.
  intros H. induction l as [|a l IH]; [constructor|]. cbn [collect]. apply ensures_bind.
  eapply ensures_mono; [|apply H]. intros b Hb. apply ensures_bind. eapply ensures_mono; [|exact IH].
  intros bs Hbs. by constructor.
Qed.
Lemma ensures_retry n f (Q : attackResult -> Prop) :
  (forall i, is_u64 i -> ensures (f i) (fun r => Forall Q r.1)) ->
  forall i results, 0 <= i -> i + Z.of_nat n <= 2^64 -> Forall Q results -> ensures (retry n i f results) (Forall Q).
Proof.
  intros H. induction n as [|n IH]; intros i results Hi Hn Hr; [done|]. cbn [retry]. apply ensures_bind.
  eapply ensures_mono; [|apply H; unfold is_u64; lia]. intros [more stop] Hm.
  assert (Forall Q (results ++ more)) by (by apply Forall_app). destruct stop; [done|]. apply IH; [lia|lia|done].
Qed.

(** ** Reports *)

(** What was submitted was refused. *)
Definition refused (r : attackResult) : Prop := forall x, Replied x ∈ ar_Detail r -> ar_Rejected r = true.

Lemma refused_true name notes : refused (report name true notes).
Proof. by intros x _. Qed.
Lemma refused_silent name rejected notes : (forall x, Replied x ∉ notes) -> refused (report name rejected notes).
Proof. intros H x Hx. by apply H in Hx. Qed.

Lemma ensures_submit b :
  wf_block b -> hopeless p U b -> ensures (submitBlock b) (fun r => forall x, r.2 = Replied x -> r.1 = true).
Proof.
  intros Hw Hh o Ho. destruct o as [r|]; [|done]. intros x _.
  specialize (Ho b r eq_refl eq_refl Hw Hh eq_refl). simpl. by destruct (Z.eqb_spec (status r) 200).
Qed.

Lemma ensures_report name b notes :
  wf_block b -> hopeless p U b -> (forall x, Replied x ∉ notes) ->
  ensures (submit_and_report name b notes) (Forall refused).
Proof.
  intros Hw Hh Hn. apply ensures_bind. eapply ensures_mono; [|by apply ensures_submit].
  intros [rejected note] H. apply Forall_singleton. intros x Hx. apply elem_of_app in Hx as [Hx|Hx]; [by apply Hn in Hx|].
  apply list_elem_of_singleton in Hx as <-. by apply (H x).
Qed.
End logic.

(** ** The blocks of the attacks are well-formed *)

Lemma wf_merkle_loop l : Forall wf_hash l -> wf_hash (Merkle.loop l).
Proof.
  intros H.
  funelim (Merkle.loop l); [by vm_compute|by apply Forall_inv in H|].
  apply H, wf_combine_pairs.
Qed.
Lemma wf_ComputeMerkleRoot txs : wf_hash (ComputeMerkleRoot txs).
Proof.
  unfold ComputeMerkleRoot, MerkleRoot. destruct (_ =? 0)%nat; [by vm_compute|]. destruct (_ =? 0)%nat; [by vm_compute|].
  apply wf_merkle_loop, Forall_map, Forall_forall. intros. apply wf_DoubleSHA256.
Qed.

Lemma fromHexChar_range c d : fromHexChar c = Some d -> 0 <= d.
Proof. revert d. assert (forall d, fromHexChar c = Some d -> (0 <=? d) = true) as H; [|intros d Hd; apply H in Hd; lia].
  by destruct c; intros d; vm_compute; intros [= <-].
Qed.
Lemma Sscanf_hex32_range s bits : is_u32 bits -> is_u32 (Sscanf_hex32 s bits).
Proof.
  intros Hb. unfold Sscanf_hex32. destruct (skip_space _ s) as [s'|]; [|done].
  assert (Forall (fun d => 0 <= d) (hex_prefix s')) as Hd.
  { induction s' as [|c s' IH]; cbn [hex_prefix]; [constructor|]. destruct (fromHexChar c) eqn:E; [|constructor].
    constructor; [by eapply fromHexChar_range|done]. }
  destruct (hex_prefix s') as [|d ds]; [done|]. cbv zeta.
  assert (forall l v, Forall (fun d => 0 <= d) l -> 0 <= v -> 0 <= fold_left (fun v d => 16 * v + d) l v) as Hf.
  { induction l as [|x l IH]; intros v Hl Hv; [done|]. apply Forall_cons in Hl as [? ?]. apply IH; [done|lia]. }
  specialize (Hf _ 0 Hd ltac:(lia)). destruct (Z.ltb_spec (fold_left (fun v d => 16 * v + d) (d :: ds) 0) (2^32)); [|done].
  unfold is_u32. lia.
Qed.

Lemma HashFromReverseHex_wf s h : HashFromReverseHex s = Ok h -> wf_hash h.
Proof.
  unfold HashFromReverseHex. intros H. apply rbind_Ok in H as (b & _ & H).
  destruct (negb _) eqn:E; [done|]. injection H as <-. unfold wf_hash. rewrite length_rev.
  by apply negb_false_iff, Nat.eqb_eq in E.
Qed.
Lemma hash_of_hex_wf s : wf_hash (hash_of_hex s).
Proof. unfold hash_of_hex. destruct (HashFromReverseHex s) eqn:E; [by eapply HashFromReverseHex_wf|by vm_compute]. Qed.

Lemma tip_height_after_u32 h : is_u32 (tip_height_after h).
Proof. apply u32_range. Qed.

Lemma wf_coinbase_with height tag value pk :
  is_u64 value -> len tag <= 9000 -> len pk <= 9000 -> wf_tx (coinbase_with height tag value pk).
Proof.
  intros Hv Ht Hk. unfold wf_tx, coinbase_with, MaxTxInputs, MaxTxOutputs. cbn [tx_Version tx_LockTime tx_Inputs tx_Outputs].
  split_and!; [unfold is_u32; lia|unfold is_u32; lia| |cbn [length]; lia| |cbn [length]; lia]; apply Forall_singleton.
  - split_and!; [by split; [vm_compute|unfold is_u32; cbn [op_Index CoinbaseOutPoint in_PreviousOutPoint]; lia]| |].
    + unfold wf_script, MaxScriptSize. cbn [in_SignatureScript]. rewrite !length_app, length_PutUint32LE. cbn [length]. lia.
    + unfold is_u32. cbn [in_Sequence]. lia.
  - split; [done|]. unfold wf_script, MaxScriptSize. cbn [out_PkScript]. lia.
Qed.
Lemma wf_tagged tag height value :
  is_u64 value -> len tag <= 8000 -> wf_tx (tagged tag (makeCoinbaseTx height value)).
Proof.
  intros Hv Ht. assert (tagged tag (makeCoinbaseTx height value)
    = coinbase_with height (text "fairchain" ++ tag) value (text "adversary-test")) as ->.
  { unfold tagged, makeCoinbaseTx, coinbase_with. cbn -[PutUint32LE text]. by rewrite <- app_assoc. }
  apply wf_coinbase_with; [done| |vm_compute; discriminate]. rewrite length_app. change (length (text "fairchain")) with 9%nat. lia.
Qed.

(** The inputs and outputs of the forged transactions. *)
Lemma wf_forged_tx ins outs :
  Forall (fun i => wf_outpoint (in_PreviousOutPoint i) /\ wf_script (in_SignatureScript i) /\ in_Sequence i = 0xFFFFFFFF) ins ->
  Forall (fun o => is_u64 o.1 /\ len o.2 <= 9000) outs -> len ins <= 2 -> len outs <= 2 -> wf_tx (forged_tx ins outs).
Proof.
  intros Hi Ho Li Lo. unfold wf_tx, forged_tx, MaxTxInputs, MaxTxOutputs. cbn [tx_Version tx_LockTime tx_Inputs tx_Outputs].
  split_and!; try (unfold is_u32; lia).
  - eapply Forall_impl; [exact Hi|]. intros i (? & ? & E). split_and!; [done|done|]. rewrite E. unfold is_u32. lia.
  - apply Forall_map. eapply Forall_impl; [exact Ho|]. intros [v s] [? ?]. split; [done|]. unfold wf_script, MaxScriptSize. simpl in *. lia.
  - rewrite length_map. lia.
Qed.
Lemma wf_spend_input h idx s :
  wf_hash h -> is_u32 idx -> len s <= 9000 ->
  wf_outpoint (in_PreviousOutPoint (spend_input h idx s)) /\ wf_script (in_SignatureScript (spend_input h idx s))
  /\ in_Sequence (spend_input h idx s) = 0xFFFFFFFF.
Proof. intros. split_and!; [by split| |done]. unfold wf_script, MaxScriptSize. simpl. lia. Qed.

Lemma wf_block_on prev ts bits txs :
  wf_hash prev -> is_u32 ts -> is_u32 bits -> Forall wf_tx txs -> len txs <= MaxBlockTxCount -> wf_block (block_on prev ts bits txs).
Proof.
  intros Hp Ht Hb Htx Hl. split; [|by split]. unfold wf_header, block_on.
  cbn [blk_Header hdr_Version hdr_PrevBlock hdr_MerkleRoot hdr_Timestamp hdr_Bits hdr_Nonce].
  split_and!; [unfold is_u32; lia|done|apply wf_ComputeMerkleRoot|done|done|unfold is_u32; lia].
Qed.
Lemma wf_sealed maxIter b : wf_block b -> wf_block (sealed maxIter b).2 /\ blk_Transactions (sealed maxIter b).2 = blk_Transactions b.
Proof.
  intros [(H1 & H2 & H3 & H4 & H5 & H6) Ht]. unfold sealed.
  destruct (seal_nonce maxIter (CompactToHash (hdr_Bits (blk_Header b))) (blk_Header b)) as (n & Hn & E).
  destruct (seal _ _ _) as [found h]. cbn [snd] in *. subst h. split; [|done]. split; [|exact Ht]. split_and!; try done. by apply Hn.
Qed.

(** ** The attacks *)

#[local] Opaque sealed.

Section attacks.
Context `{EC : ECOps} (p : ChainParams) (U : list Block).
#[local] Abbreviation ens := (ensures p U).
#[local] Abbreviation doomed b := (wf_block b /\ hopeless p U b).

Lemma decode_number_range lo hi name v z : lo <= 0 < hi -> decode_number lo hi name v = Ok z -> lo <= z < hi.
Proof.
  intros H0 H. unfold decode_number in H. apply rbind_Ok in H as (x & _ & H). destruct x; try done; [injection H as <-; lia|].
  destruct ((lo <=? z0) && (z0 <? hi)) eqn:E; [|done]. injection H as <-. apply andb_prop in E as [?%Z.leb_le ?%Z.ltb_lt]. lia.
Qed.
Lemma ens_fetchTxOut txid n : ens (fetchTxOut txid n) (fun info => is_u64 (to_Value info)).
Proof.
  intros [r|] _; [|done]. destruct (negb _); [done|]. destruct (body r) as [v|]; [|done].
  assert (ens (lift (decode_txoutInfo v)) (fun info => is_u64 (to_Value info))) as H; [|by destruct v].
  apply ensures_lift. intros info H. unfold decode_txoutInfo in H.
  apply rbind_Ok in H as (conf & _ & H). apply rbind_Ok in H as (value & Hv & H). apply rbind_Ok in H as (cb & _ & H).
  injection H as <-. by apply decode_number_range in Hv.
Qed.

(** A spend whose script does not run. *)
Definition forged_spend (tx : Transaction) : Prop :=
  exists ti rest, tx_Inputs tx = ti :: rest /\ tx_IsCoinbase tx = false /\ forged (in_SignatureScript ti).

Lemma forged_texts : Forall (fun s => forged (text s))
  ["adversary-spend"; "dup-1"; "spend-1"; "STOLEN-no-signature-required"; "PREMINE-THEFT-no-script-validation"]%string.
Proof. repeat constructor. Qed.
Lemma forged_spend_tx h idx s rest outs :
  idx <> 0xFFFFFFFF -> forged s -> forged_spend (forged_tx (spend_input h idx s :: rest) outs).
Proof.
  intros Hi Hf. exists (spend_input h idx s), rest. split_and!; [done| |done]. unfold tx_IsCoinbase. cbn [tx_Inputs forged_tx].
  destruct rest; [|done]. unfold in_IsCoinbase. cbn [in_PreviousOutPoint spend_input op_Index].
  rewrite (proj2 (Z.eqb_neq idx 0xFFFFFFFF) Hi). apply andb_false_r.
Qed.

Lemma doomed_sealed maxIter prev ts bits cb txs tx :
  wf_hash prev -> is_u32 ts -> is_u32 bits -> wf_tx cb -> Forall wf_tx txs -> len txs <= 2 -> tx ∈ txs -> forged_spend tx ->
  doomed (sealed maxIter (block_on prev ts bits (cb :: txs))).2.
Proof.
  intros Hp Ht Hb Hc Htx Hl Hin (ti & rest & Ei & Hcb & Hf).
  destruct (wf_sealed maxIter (block_on prev ts bits (cb :: txs))) as [Hw E].
  { apply wf_block_on; [done..|by constructor|]. unfold MaxBlockTxCount. cbn [length]. lia. }
  split; [done|]. eapply hopeless_forged; [|exact Ei|done|done]. rewrite E. by right.
Qed.

Lemma ens_buildBlockOnTip : ens buildBlockOnTip (fun r => exists prev ts bits,
  wf_hash prev /\ is_u32 ts /\ is_u32 bits /\ r.1 = block_on prev ts bits [makeCoinbaseTx r.2 5000000000]).
Proof.
  apply ensures_skip. intros ci. apply ensures_bind, ensures_lift. intros prev E%rwrap_Ok t. exists prev, (u32 t), (Sscanf_hex32 (fi_Bits ci) 0).
  split_and!; [by eapply HashFromReverseHex_wf|apply u32_range|by apply Sscanf_hex32_range|done].
Qed.

Lemma ens_buildBlockWithSpendTx h idx value tag :
  wf_hash h -> idx = 0 \/ idx = 1 -> is_u64 value -> len tag <= 8000 ->
  ens (buildBlockWithSpendTx h idx value tag) (fun r => doomed r.1.2).
Proof.
  intros Hh Hi Hv Ht. apply ensures_skip. intros ci. apply ensures_bind, ensures_lift. intros prev E%rwrap_Ok t.
  set (tx := forged_tx _ _). set (cb := tagged _ _).
  assert (doomed (sealed 200000000 (block_on prev (u32 t) (Sscanf_hex32 (fi_Bits ci) 0) [cb; tx])).2) as H.
  { apply (doomed_sealed _ _ _ _ _ _ tx); [by eapply HashFromReverseHex_wf|apply u32_range|by apply Sscanf_hex32_range| | | |by left|].
    - apply wf_tagged; [done|done].
    - apply Forall_singleton, wf_forged_tx; [apply Forall_singleton, wf_spend_input| |done|done]; try done.
      + destruct Hi as [-> | ->]; done.
      + by apply Forall_singleton.
    - done.
    - apply forged_spend_tx; [lia|]. by apply (proj1 (Forall_forall _ _) forged_texts); left. }
  destruct (sealed _ _) as [found b]. exact H.
Qed.

Lemma ens_sealed_on_tip maxIter value tag txs tx :
  is_u64 value -> len tag <= 8000 -> Forall wf_tx txs -> len txs <= 2 -> tx ∈ txs -> forged_spend tx ->
  ens (sealed_on_tip maxIter value tag txs) (fun r => doomed r.1.2).
Proof.
  intros Hv Ht Htx Hl Hin Hf. apply ensures_skip. intros ci t. set (cb := tagged _ _).
  assert (doomed (sealed maxIter (block_on (hash_of_hex (fi_BestHash ci)) (u32 t) (Sscanf_hex32 (fi_Bits ci) 0) (cb :: txs))).2) as H.
  { apply (doomed_sealed _ _ _ _ _ _ tx); try done; [apply hash_of_hex_wf|apply u32_range|by apply Sscanf_hex32_range|by apply wf_tagged]. }
  destruct (sealed _ _) as [found b]. exact H.
Qed.

(** The searches. *)
Lemma ens_probe {A} cb (f : list byte -> txoutInfo -> option A) (Q : A -> Prop) :
  (forall d info a, is_u64 (to_Value info) -> f d info = Some a -> Q a) ->
  ens (probe cb f) (fun r => forall a, r = Some a -> Q a).
Proof.
  intros H. apply ensures_bind, ensures_attempt; [done|]. eapply ensures_mono; [|apply ens_fetchTxOut].
  intros info Hi a. by apply H.
Qed.
(** What a search found, or an error. *)
Lemma ens_found {A} (m : prog (option A)) e Q :
  ens m (fun r => forall a, r = Some a -> Q a) ->
  ens (pbind m (fun r => match r with Some u => Ret u | None => Throw e end)) Q.
Proof. intros H. apply ensures_bind. eapply ensures_mono; [|exact H]. intros [a|] Ha; [by apply Ha|done]. Qed.

Definition found_ok (u : list byte * Z * Z) : Prop := u.1.2 = 0 /\ is_u64 u.2.

Lemma ens_findSpendableUTXO mature : ens (findSpendableUTXO mature) found_ok.
Proof.
  apply ensures_skip. intros ci. apply ens_found, ensures_first. intros h. apply ensures_skip. intros [b|e]; [|done].
  apply ensures_first. intros suffix. apply ens_probe. intros d info a Hi. destruct (_ >? 0); [by intros [= <-]|done].
Qed.
Lemma ens_findImmatureUTXO : ens findImmatureUTXO found_ok.
Proof.
  apply ensures_skip. intros ci. apply ens_found, ensures_first. intros h.
  apply ensures_first. intros suffix. apply ens_probe. intros d info a Hi. destruct (_ && _); [by intros [= <-]|done].
Qed.
Lemma ens_findMinerCoinbaseUTXO mature :
  ens (findMinerCoinbaseUTXO mature) (fun u => wf_hash u.1.1.1 /\ u.1.1.2 = 0 /\ is_u64 u.1.2).
Proof.
  apply ensures_skip. intros ci. apply ensures_skip. intros subsidy. apply ens_found, ensures_first. intros h.
  apply ens_probe. intros d info a Hi. destruct (_ && _); [|done]. intros [= <-]. split_and!; [apply wf_DoubleSHA256|done|done].
Qed.
Lemma ens_fetchSubsidy : ens fetchSubsidy (fun v => is_u64 v).
Proof.
  apply ensures_skip. intros [ci|e]; cbn [ensures]; [|unfold is_u64; lia]. repeat case_bool_decide; unfold is_u64; lia.
Qed.

(** The reports of blocks that are doomed. *)
Lemma doomed_report name b notes :
  doomed b -> (forall x, Replied x ∉ notes) -> ens (submit_and_report name b notes) (Forall refused).
Proof. intros [? ?]. by apply ensures_report. Qed.
Ltac no_reply := intros ? ?; repeat match goal with
  | H : _ ∈ _ ++ _ |- _ => apply elem_of_app in H as [H|H]
  | H : _ ∈ found_note ?f |- _ => destruct f; cbn [found_note] in H
  | H : _ ∈ (if ?f then _ else _) |- _ => destruct f
  | H : _ ∈ _ :: _ |- _ => apply elem_of_cons in H as [H|H]
  | H : _ ∈ [] |- _ => by apply not_elem_of_nil in H
  | H : Replied _ = _ |- _ => discriminate H
  end.
Lemma ens_one_report r : refused r -> ens (Ret [r]) (Forall refused).
Proof. intros H. by apply Forall_singleton. Qed.

(** Changing a byte of a hash. *)
Lemma xor_byte_ne m b : m = 0xFF -> xor_byte m b <> b.
Proof. intros ->. by destruct b. Qed.

Lemma with_merkle_doomed b root :
  wf_block b -> wf_hash root -> root <> ComputeMerkleRoot (blk_Transactions b) ->
  doomed (with_header b (with_merkle (blk_Header b) root)).
Proof.
  intros [(H1 & H2 & H3 & H4) H5] Hr Hne. split; [|by apply hopeless_merkle].
  split; [|exact H5]. split; [exact H1|]. split; [exact H2|]. split; [exact Hr|exact H4].
Qed.

Lemma bad_merkle_refused : ens attackBadMerkle (Forall refused).
Proof.
  apply ensures_bind. eapply ensures_mono; [|apply ens_buildBlockOnTip].
  intros [b h] (prev & ts & bits & Hp & Ht & Hb & E). cbn [fst snd] in E. apply doomed_report; [|no_reply].
  assert (wf_block b) as Hw.
  { rewrite E. apply wf_block_on; try done. apply Forall_singleton, wf_coinbase_with; [done|vm_compute; discriminate..]. }
  pose proof Hw as [(_ & _ & Hm & _) _]. apply with_merkle_doomed; [done|do 2 (etrans; [apply length_alter|]); exact Hm|].
  assert (hdr_MerkleRoot (blk_Header b) = ComputeMerkleRoot (blk_Transactions b)) as <- by (by rewrite E).
  destruct (hdr_MerkleRoot (blk_Header b)) as [|x l]; [done|]. cbn. intros [= Ex _]. by apply xor_byte_ne in Ex.
Qed.

Lemma empty_block_refused : ens attackEmptyBlock (Forall refused).
Proof.
  apply ensures_skip. intros ci t. apply doomed_report; [|no_reply]. split; [|apply hopeless_empty].
  split; [|by split; [apply List.Forall_nil|]]. unfold wf_header.
  cbn [blk_Header hdr_Version hdr_PrevBlock hdr_MerkleRoot hdr_Timestamp hdr_Bits hdr_Nonce].
  split_and!; [unfold is_u32; lia|apply hash_of_hex_wf|by vm_compute|apply u32_range|by apply Sscanf_hex32_range|unfold is_u32; lia].
Qed.

(** A submission whose report has more than its detail. *)
Lemma doomed_submit {A} b (f : bool * Note -> prog A) Q :
  doomed b -> (forall r, (forall x, r.2 = Replied x -> r.1 = true) -> ens (f r) Q) -> ens (pbind (submitBlock b) f) Q.
Proof. intros [Hw Hh] H. apply ensures_bind. eapply ensures_mono; [|by apply ensures_submit]. exact H. Qed.

Lemma inflated_coinbase_refused :
  wf_params p -> p_InitialSubsidy p < 999999999999999 -> ens attackInflatedCoinbase (Forall refused).
Proof.
  intros Hpar Hsub. apply ensures_bind. eapply ensures_mono; [|apply ens_buildBlockOnTip].
  intros [b h] (prev & ts & bits & Hp & Ht & Hb & E). cbn [fst snd] in E. subst b.
  set (cb := coinbase_with h (text "fairchain") 999999999999999 (text "adversary-test")). cbv beta iota zeta.
  change (alter inflate 0%nat (blk_Transactions (block_on prev ts bits [makeCoinbaseTx h 5000000000]))) with [cb]. set (b := {| blk_Header := _; blk_Transactions := _ |}).
  assert (wf_block b) as Hw.
  { split; [|split; [apply Forall_singleton, wf_coinbase_with; [done|vm_compute; discriminate..]|done]].
    unfold wf_header, b. cbn [blk_Header block_on with_merkle hdr_Version hdr_PrevBlock hdr_MerkleRoot hdr_Timestamp hdr_Bits hdr_Nonce].
    split_and!; [unfold is_u32; lia|done|apply wf_ComputeMerkleRoot|done|done|unfold is_u32; lia]. }
  destruct (wf_sealed 200000000 b Hw) as [Hws Es].
  assert (doomed (sealed 200000000 b).2) as Hd.
  { split; [done|]. destruct (sealed 200000000 b) as [found [hd txs]]. cbn [snd blk_Transactions] in Es |- *. subst txs.
    by eapply hopeless_inflated. }
  destruct (sealed 200000000 b) as [found b']. apply doomed_submit; [exact Hd|]. intros [rejected note] Hr.
  apply ens_one_report. intros x Hx. apply elem_of_app in Hx as [Hx|Hx]; [by destruct found; apply list_elem_of_singleton in Hx || apply not_elem_of_nil in Hx|].
  apply list_elem_of_singleton in Hx as <-. by apply (Hr x).
Qed.

Lemma double_spend_refused : ens attackDoubleSpend (Forall refused).
Proof.
  intros h [Hh _]. apply ensures_bind, ensures_attempt; [intros e; apply ens_one_report, refused_true|].
  eapply ensures_mono; [|apply (ens_buildBlockWithSpendTx h 0 1000); [done|by left|done|vm_compute; discriminate]].
  intros [[[] b] n] Hd; [apply doomed_report; [exact Hd|no_reply]|apply ens_one_report, refused_true].
Qed.

Lemma immature_spend_refused : ens attackImmatureCoinbaseSpend (Forall refused).
Proof.
  assert (forall u, found_ok u -> ens (let '(txidDisplay, idx, value) := u in
    pbind (attempt (buildBlockWithSpendTx (hash_of_hex txidDisplay) idx (sub64 value 1000) (text "immature-spend"))) (fun r =>
    match r with
    | Err e => Throw (BuildImmature e)
    | Ok (false, block, newHeight) => submit_and_report "immature-coinbase-spend" block [CouldNotFindPoW; AtHeight newHeight]
    | Ok (true, block, newHeight) =>
        submit_and_report "immature-coinbase-spend" block [Outpoint (take 16 txidDisplay) idx; AtHeight newHeight]
    end)) (Forall refused)) as H.
  { intros [[d idx] v] [Hi Hv]. apply ensures_bind, ensures_attempt; [done|].
    eapply ensures_mono; [|apply ens_buildBlockWithSpendTx;
      [apply hash_of_hex_wf|by left|apply u64_range|vm_compute; discriminate]].
    intros [[[] b] n] Hd; apply doomed_report; try exact Hd; no_reply. }
  apply ensures_bind, ensures_attempt.
  - intros e. apply ensures_bind, ensures_skip. intros ci. by apply (H (_, 0, 5000000000)).
  - eapply ensures_mono; [|apply ens_findImmatureUTXO]. intros u Hu. apply ensures_bind. cbn [ensures]. by apply H.
Qed.

Lemma overspend_refused : ens attackOverspend (Forall refused).
Proof.
  apply ensures_bind, ensures_attempt.
  - intros e h [Hh _]. apply ensures_bind, ensures_attempt; [intros e'; apply ens_one_report, refused_true|].
    eapply ensures_mono; [|apply (ens_buildBlockWithSpendTx h 0 999999999999); [done|by left|done|vm_compute; discriminate]].
    intros [[[] b] n] Hd; [apply ens_one_report, refused_true|apply doomed_report; [exact Hd|no_reply]].
  - eapply ensures_mono; [|apply ens_findSpendableUTXO]. intros [[d idx] v] [Hi Hv]. apply ensures_bind, ensures_attempt; [done|].
    eapply ensures_mono; [|apply ens_buildBlockWithSpendTx;
      [apply hash_of_hex_wf|by left|apply u64_range|vm_compute; discriminate]].
    intros [[found b] n] Hd. apply doomed_report; [exact Hd|no_reply].
Qed.

(** Transactions of which one is a forged spend. *)
Record forged_txs (txs : list Transaction) : Prop := {
  ft_wf : Forall wf_tx txs;
  ft_len : len txs <= 2;
  ft_forged : exists tx, tx ∈ txs /\ forged_spend tx }.

Lemma ens_forged_on_tip maxIter value tag txs :
  is_u64 value -> len tag <= 8000 -> forged_txs txs -> ens (sealed_on_tip maxIter value tag txs) (fun r => doomed r.1.2).
Proof. intros Hv Ht [Hw Hl (tx & Hin & Hf)]. by apply (ens_sealed_on_tip _ _ _ _ tx). Qed.

Lemma attack_twice_refused name tag txs more :
  len tag <= 8000 -> (forall h v, wf_hash h -> is_u64 v -> forged_txs (txs h 0 v)) ->
  ens (attack_twice name tag txs more) (Forall refused).
Proof.
  intros Ht Htx. apply ensures_bind, ensures_attempt; [intros e; apply ens_one_report, refused_true|].
  eapply ensures_mono; [|apply ens_findSpendableUTXO]. intros [[d idx] v] [Hi Hv]. cbn in Hi, Hv. subst idx. apply ensures_bind.
  eapply ensures_mono; [|apply ens_forged_on_tip; [done|exact Ht|apply Htx; [apply hash_of_hex_wf|exact Hv]]].
  intros [[found b] n] Hd. apply doomed_report; [exact Hd|no_reply].
Qed.
Lemma duplicate_txs_forged h v : wf_hash h -> is_u64 v -> forged_txs (duplicate_txs h 0 v).
Proof.
  intros Hh Hv. constructor; [| done|].
  - apply Forall_singleton, wf_forged_tx; [repeat apply Forall_cons_2; try apply Forall_nil_2; by apply wf_spend_input| |done|done].
    apply Forall_singleton. split; [apply u64_range|done].
  - eexists. split; [by left|]. apply forged_spend_tx; [done|]. by apply (proj1 (Forall_forall _ _) forged_texts); right; left.
Qed.
Lemma intra_txs_forged h v : wf_hash h -> is_u64 v -> forged_txs (intra_txs h 0 v).
Proof.
  intros Hh Hv. constructor; [|done|].
  - repeat apply Forall_cons_2; try apply Forall_nil_2; (apply wf_forged_tx; [by apply Forall_singleton, wf_spend_input| |done|done]);
      apply Forall_singleton; (split; [apply u64_range|done]).
  - eexists. split; [by left|]. apply forged_spend_tx; [done|]. by apply (proj1 (Forall_forall _ _) forged_texts); do 2 right; left.
Qed.

(** The thefts. *)
Lemma theft_refused name i found b notes :
  doomed b -> (forall x, Replied x ∉ notes) -> ens (submit_theft name i found b notes) (fun r => Forall refused r.1).
Proof.
  intros Hd Hn. unfold submit_theft. destruct found; cbn [negb].
  2:{ apply Forall_singleton, refused_silent. no_reply. }
  apply doomed_submit; [done|]. intros [[] note] Hr; cbn [negb].
  - apply Forall_singleton, refused_true.
  - apply Forall_singleton, refused_silent. intros x Hx. apply elem_of_app in Hx as [Hx|Hx]; [by apply Hn in Hx|].
    apply list_elem_of_singleton in Hx as <-. specialize (Hr x eq_refl). discriminate Hr.
Qed.

Lemma length_digits_of b n v : (length (digits_of b n v) <= n)%nat.
Proof.
  revert v. induction n as [|n IH]; intros v; simpl; [lia|]. destruct (_ >? 0); simpl; [|lia]. specialize (IH (v / b)). lia.
Qed.
Lemma theft_tag_short name i : len (text name) <= 100 -> is_u64 i -> len (theft_tag name i) <= 8000.
Proof.
  intros Hn Hi. unfold theft_tag, decimal. rewrite !length_app. change (length (text "-")) with 1%nat.
  destruct (i =? 0); [simpl; lia|]. rewrite length_map, length_rev. pose proof (length_digits_of 10 (Z.to_nat (BitLen i)) i) as Hl.
  assert (BitLen i <= 64) as Hb; [|lia]. unfold BitLen, is_u64 in *. destruct (Z.eqb_spec i 0); [lia|].
  rewrite Z.abs_eq by lia. pose proof (Z.log2_lt_pow2 i 64 ltac:(lia)). lia.
Qed.

Lemma steal_utxo_refused : ens attackStealUTXO (Forall refused).
Proof.
  apply ensures_bind. eapply ensures_mono; [|apply ens_fetchSubsidy]. intros subsidy Hs.
  apply ensures_retry; [|lia|lia|apply List.Forall_nil]. intros i Hi. apply ensures_bind, ensures_attempt.
  { intros e. apply Forall_singleton, refused_silent. no_reply. }
  eapply ensures_mono; [|apply ens_findMinerCoinbaseUTXO]. intros [[[h idx] v] d] (Hh & Hx & Hv). cbn [fst snd] in Hh, Hx, Hv. subst idx.
  apply ensures_bind, ensures_attempt; [intros e; apply List.Forall_nil|].
  eapply ensures_mono; [|apply ens_forged_on_tip; [apply u64_range|apply theft_tag_short; [vm_compute; discriminate|exact Hi]|]].
  - intros [[found b] n] Hd. apply theft_refused; [exact Hd|no_reply].
  - constructor; [|done|].
    + apply Forall_singleton, wf_forged_tx; [by apply Forall_singleton, wf_spend_input| |done|done].
      apply Forall_singleton. split; [apply u64_range|done].
    + eexists. split; [by left|]. apply forged_spend_tx; [done|]. by apply (proj1 (Forall_forall _ _) forged_texts); do 3 right; left.
Qed.

Lemma half_u64 v : is_u64 v -> is_u64 (v / 2).
Proof. unfold is_u64. intros [? ?]. split; [apply Z.div_pos; lia|apply Z.div_lt_upper_bound; lia]. Qed.

Lemma steal_premine_refused : ens attackStealPremine (Forall refused).
Proof.
  apply ensures_bind. eapply ensures_mono; [|apply ens_fetchSubsidy]. intros subsidy Hs.
  apply ensures_retry; [|lia|lia|apply List.Forall_nil]. intros i Hi. apply ensures_skip. intros first. apply ensures_bind.
  apply (ensures_mono _ _ _ (fun u => forall v idx, u = Some (v, idx) -> is_u64 v /\ (idx = 0 \/ idx = 1))).
  2:{ destruct first as [info|e]; [intros v idx [= <- <-]; split; [done|by right]|].
      apply ensures_bind, ensures_attempt; [done|]. eapply ensures_mono; [|apply ens_fetchTxOut].
      intros info Hv v idx [= <- <-]. split; [done|by left]. }
  intros [[v idx]|] H; [|apply Forall_singleton, refused_silent; no_reply]. destruct (H v idx eq_refl) as [Hv Hx].
  apply ensures_bind, ensures_attempt; [intros e; apply List.Forall_nil|].
  eapply ensures_mono; [|apply ens_forged_on_tip; [apply u64_range|apply theft_tag_short; [vm_compute; discriminate|exact Hi]|]].
  - intros [[found b] n] Hd. apply theft_refused; [exact Hd|no_reply].
  - constructor; [|done|].
    + apply Forall_singleton, wf_forged_tx; [apply Forall_singleton, wf_spend_input; [apply wf_DoubleSHA256| |done]| |done|done].
      * unfold is_u32. destruct Hx as [-> | ->]; lia.
      * repeat apply Forall_cons_2; try apply Forall_nil_2; (split; [|done]); [by apply half_u64|apply u64_range].
    + eexists. split; [by left|]. apply forged_spend_tx; [lia|]. by apply (proj1 (Forall_forall _ _) forged_texts); do 4 right; left.
Qed.

(** The flood. *)
Lemma orphan_flood_refused count : ens (attackOrphanFlood count) (Forall refused).
Proof.
  apply ensures_collect. intros i parent [Hp Hpar] t. apply doomed_submit.
  - unfold flood_block. cbv zeta.
    set (b := block_on parent (u32 t) 0x1e0fffff [makeCoinbaseTx (u32 (Z.of_nat i + 99999)) 5000000000]).
    assert (wf_block b) as [(H1 & H2 & H3 & H4 & H5 & H6) H7].
    { apply wf_block_on; [done|apply u32_range|unfold is_u32; lia| |done].
      apply Forall_singleton, wf_coinbase_with; [done|vm_compute; discriminate..]. }
    split; [|apply hl_parent; exact Hpar]. split; [|exact H7]. do 5 (split; [assumption|]). apply u32_range.
  - intros [rejected note] Hr x Hx. apply list_elem_of_singleton in Hx as <-. by apply (Hr x).
Qed.
End attacks.

(** ** Against a node *)

Section running.
Context {St : Type} `{BS : BlockStore St} {BL : BlockStoreLaws St} `{EN : Engine} {EL : EngineLaws} {EC : ECOps} {WO : WalletOps}.
Context {PS : Type} `{PST : PeerStore PS}.
Context (cenv : Env) (nenv : NetEnv) (wenv : WalletEnv) (renv : RpcEnv) (ae : AdvEnv).
Context (Hknown : forall X, ne_known nenv X ≡ₚ elements X).
Context (p : ChainParams) (U : list Block) (HU : universe p U).
Context (Htip : forall (s : St) h n, (PutChainTip s h n).1 = Ok tt).
Implicit Types (s : Server (St := St) (PS := PS)) (w : World (St := St) (PS := PS)) (rq : Request).
#[local] Abbreviation node w := (sv_node (wd_server w)).
#[local] Abbreviation chain_of w := (sv_chain (wd_server w)).

(** The only handler behind [/submitblock]. *)
Lemma serve_submit rq s r s' :
  rq_path rq = "/submitblock"%string -> serve_http cenv nenv wenv renv rq s = (r, s') -> status r = 200 ->
  handleSubmitBlock cenv rq s = (r, s').
Proof.
  intros Hp H Hr. unfold serve_http in H.
  assert (mux cenv nenv wenv renv rq s = handleSubmitBlock cenv rq s) as Em.
  { unfold mux. rewrite Hp. reflexivity. }
  destruct (negb _); [|rewrite <- Em; exact H]. unfold authMiddleware in H. destruct (authorized rq s); [rewrite <- Em; exact H|].
  injection H as <- _. discriminate Hr.
Qed.

(** A block that is accepted is not hopeless. *)
Lemma accepted_not_hopeless b : accepted p U b -> ~ hopeless p U b.
Proof.
  intros (bs & Hbs & [_ Hl]%on_top_snoc & us & us' & _ & Hc) [H|H]; [rewrite H in Hc by lia; done|]. symmetry in Hl.
  destruct bs as [|b' bs _] using rev_ind; [by apply (H (p_GenesisBlock p)); [apply (un_genesis _ _ HU)|]|].
  rewrite last_hash_snoc in Hl. apply Forall_app in Hbs as [_ Hb']. exact (H b' (Forall_inv Hb') Hl).
Qed.

Lemma submit_accepted rq s r s' b rest :
  chain_inv p U (sv_chain s) -> handleSubmitBlock cenv rq s = (r, s') -> status r = 200 ->
  blk_Deserialize (rq_body rq) = Ok (b, rest) -> b ∈ U -> live (sv_chain s') -> exists bs, connects p U bs b
    /\ header_checked p (c_store (sv_chain s)) (u32 (env_now cenv (c_tick (sv_chain s)))) bs b.
Proof.
  intros Hc H Hr Hb Hin L. unfold handleSubmitBlock, requirePOST in H. destruct (rq_post rq); [|injection H as <- _; discriminate Hr].
  rewrite Hb in H. pose proof (ProcessBlock_accepted cenv p U HU Htip (sv_chain s) b Hc Hin) as Hwp. unfold ChainInv.wp in Hwp.
  destruct (ProcessBlock cenv b (sv_chain s)) as [[n|e] c]; injection H as <- <-; [|discriminate Hr].
  by apply Hwp.
Qed.

(** *** A request *)

Lemma send_spec rq w o w1 :
  send cenv nenv wenv renv ae rq w = (o, w1) ->
  exists arrived, let rq' := at_time (ae_server_now ae (wd_tick w)) rq in
  let s := server_run cenv nenv wenv renv (wd_server w) (ae_between ae (wd_tick w)) in
    wd_sent w1 = wd_sent w ++ arrived
    /\ wd_server w1 = server_run cenv nenv wenv renv (wd_server w) (ae_between ae (wd_tick w) ++ map Http arrived)
    /\ forall r, o = Some r -> arrived = [rq'] /\ serve_http cenv nenv wenv renv rq' s = (r, wd_server w1).
Proof.
  unfold send. cbv zeta. set (s := server_run _ _ _ _ _ _). intros H.
  assert (forall arrived, server_run cenv nenv wenv renv (wd_server w) (ae_between ae (wd_tick w) ++ map Http arrived)
    = server_run cenv nenv wenv renv s (map Http arrived)) as Er by (intros; unfold s, server_run; by rewrite fold_left_app).
  destruct (ae_fault ae (wd_tick w)) as [[]|]; [exists []|exists [at_time (ae_server_now ae (wd_tick w)) rq]..]; cbv zeta; rewrite Er.
  - injection H as <- <-. by rewrite app_nil_r.
  - cbn [map server_run fold_left server_step]. destruct (serve_http cenv nenv wenv renv _ s) as [r s'] eqn:E. by injection H as <- <-.
  - cbn [map server_run fold_left server_step]. destruct (serve_http cenv nenv wenv renv _ s) as [r s'] eqn:E. injection H as <- <-.
    split_and!; [done|done|]. by intros r' [= <-].
Qed.

Context (Hev : forall t, Forall (server_event_ok U) (ae_between ae t)) (Hrand : forall t, rand_ok U (ae_rand ae t)).

Lemma send_events w (arrived : list Request) :
  Forall (request_ok U) arrived -> Forall (server_event_ok U) (ae_between ae (wd_tick w) ++ map Http arrived).
Proof. intros H. apply Forall_app. split; [apply Hev|]. by apply Forall_map. Qed.

Lemma run_sent {A} (m : prog A) : forall w r w', run cenv nenv wenv renv ae m w = (r, w') -> wd_sent w `prefix_of` wd_sent w'.
Proof.
  induction m as [a|e|k IH|k IH|rq k IH]; intros w r w'; cbn [run].
  - by intros [= _ <-].
  - by intros [= _ <-].
  - by apply (IH _ (next_tick w)).
  - by apply (IH _ (next_tick w)).
  - destruct (send cenv nenv wenv renv ae rq w) as [o w1] eqn:E. intros H%IH. destruct (send_spec _ _ _ _ E) as (l & Hs & _).
    etrans; [|exact H]. rewrite Hs. by exists l.
Qed.

Lemma prefix_Forall {A} (P : A -> Prop) l l' : l `prefix_of` l' -> Forall P l' -> Forall P l.
Proof. intros [k ->] H. by apply Forall_app in H as [H _]. Qed.

Lemma run_live {A} (m : prog A) : forall w r w', run cenv nenv wenv renv ae m w = (r, w') ->
  Forall (request_ok U) (wd_sent w') -> live (chain_of w') -> live (chain_of w).
Proof.
  induction m as [a|e|k IH|k IH|rq k IH]; intros w r w'; cbn [run].
  - by intros [= _ <-].
  - by intros [= _ <-].
  - by apply (IH _ (next_tick w)).
  - by apply (IH _ (next_tick w)).
  - destruct (send cenv nenv wenv renv ae rq w) as [o w1] eqn:E. intros H Hok L. pose proof (run_sent _ _ _ _ H) as Hpre.
    pose proof (IH _ _ _ _ H Hok L) as L1. destruct (send_spec _ _ _ _ E) as (l & Hs & Hw & _). rewrite Hw in L1.
    assert (Forall (request_ok U) l) as Hl.
    { apply (prefix_Forall _ _ _ Hpre) in Hok. rewrite Hs in Hok. by apply Forall_app in Hok as [_ Hok]. }
    by apply (server_run_live cenv nenv wenv renv Hknown U _ _ (send_events w l Hl)).
Qed.

(** *** A program *)

(** The reply to a request, from a consistent node. *)
Lemma reply_ok_send w rq o w1 :
  send cenv nenv wenv renv ae rq w = (o, w1) -> chain_inv p U (sv_chain (server_run cenv nenv wenv renv (wd_server w) (ae_between ae (wd_tick w)))) ->
  Forall (request_ok U) (wd_sent w1) -> live (chain_of w1) -> reply_ok p U rq o.
Proof.
  intros E Hc Hok L b r Hp Hb Hw Hh Ho Hr. destruct (send_spec _ _ _ _ E) as (l & Hs & _ & Hrep). destruct (Hrep r Ho) as [-> Hserve].
  set (rq' := at_time _ rq) in *. set (s := server_run _ _ _ _ _ _) in *.
  assert (blk_Deserialize (rq_body rq') = Ok (b, [])) as Hd.
  { change (rq_body rq') with (rq_body rq). rewrite Hb, <- (app_nil_r (blk_Serialize b)). by apply (decode_encode (dec := blk_Deserialize)). }
  rewrite Hs in Hok. apply Forall_app in Hok as [_ Hok]. apply Forall_inv in Hok.
  pose proof (serve_submit rq' s r _ Hp Hserve Hr) as Hsub.
  destruct (submit_accepted rq' s r _ b [] Hc Hsub Hr Hd (Hok b [] Hd) L) as (bs & Ha & _). apply (accepted_not_hopeless b); [by exists bs|done].
Qed.

Lemma run_ensures ver {A} (m : prog A) (Q : A -> Prop) : forall w r w',
  run cenv nenv wenv renv ae m w = (r, w') -> ensures p U m Q -> node_ok p U (node w) -> wallet_inv wenv ver (wd_server w) ->
  Forall (request_ok U) (wd_sent w') -> live (chain_of w') ->
  (improves p U (node w) (node w') /\ wallet_inv wenv ver (wd_server w')) /\ match r with Ok a => Q a | Err _ => True end.
Proof.
  induction m as [a|e|k IH|k IH|rq k IH]; intros w r w'; cbn [run ensures]; intros H He Hn Hwal Hok L.
  - injection H as <- <-. split; [split; [by apply improves_refl|done]|done].
  - injection H as <- <-. split; [split; [by apply improves_refl|done]|done].
  - by apply (IH _ (next_tick w) r w' H).
  - by apply (IH _ (next_tick w) r w' H); [apply He|..].
  - destruct (send cenv nenv wenv renv ae rq w) as [o w1] eqn:E. destruct (send_spec _ _ _ _ E) as (l & Hs & Hw & _).
    pose proof (run_live _ _ _ _ H Hok L) as L1. pose proof (prefix_Forall _ _ _ (run_sent _ _ _ _ H) Hok) as Hok1.
    assert (Forall (request_ok U) l) as Hl by (rewrite Hs in Hok1; by apply Forall_app in Hok1 as [_ ?]).
    rewrite Hw in L1. pose proof (send_events w l Hl) as Hes.
    destruct (server_run_improves cenv nenv wenv renv Hknown p U HU Htip ver _ _ Hes Hn Hwal L1) as [[Hn1 Hwork] Hwal1].
    rewrite <- Hw in Hn1, Hwork, Hwal1, L1.
    assert (reply_ok p U rq o) as Hrep.
    { eapply (reply_ok_send w rq o w1 E); [|done|done].
      assert (live (sv_chain (server_run cenv nenv wenv renv (wd_server w) (ae_between ae (wd_tick w))))) as L0.
      { rewrite Hw in L1. unfold server_run in L1. rewrite fold_left_app in L1.
        apply (server_run_live cenv nenv wenv renv Hknown U (map Http l)); [by apply Forall_map|exact L1]. }
      destruct (server_run_improves cenv nenv wenv renv Hknown p U HU Htip ver _ _ (Hev _) Hn Hwal L0) as [[Hn0 _] _]. apply Hn0. }
    destruct (IH o w1 r w' H (He o Hrep) Hn1 Hwal1 Hok L) as [[[Hn2 Hwork2] Hwal2] HQ]. split; [|done].
    split; [|done]. split; [done|]. lia.
Qed.

(** The attacks of which every block breaks a rule. *)
Definition rule_breakers : list string :=
  ["bad-merkle"; "empty-block"; "inflated-coinbase"; "orphan-flood"; "double-spend"; "immature-coinbase-spend";
   "overspend"; "duplicate-input"; "intra-block-double-spend"; "steal-utxo"; "steal-premine"]%string.

Lemma rule_breakers_refused name count :
  wf_params p -> p_InitialSubsidy p < 999999999999999 -> name ∈ rule_breakers -> ensures p U (run_attack name count) (Forall refused).
Proof.
  intros Hp Hs Hname. revert name Hname. apply Forall_forall.
  repeat apply Forall_cons_2; try apply List.Forall_nil; unfold run_attack, attacks; cbn [List.find fst snd String.eqb Ascii.eqb Bool.eqb].
  - apply bad_merkle_refused.
  - apply empty_block_refused.
  - by apply inflated_coinbase_refused.
  - apply orphan_flood_refused.
  - apply double_spend_refused.
  - apply immature_spend_refused.
  - apply overspend_refused.
  - apply attack_twice_refused; [vm_compute; discriminate|apply duplicate_txs_forged].
  - apply attack_twice_refused; [vm_compute; discriminate|apply intra_txs_forged].
  - apply steal_utxo_refused.
  - apply steal_premine_refused.
Qed.

(** C2. The repository's attacks fail.  Run any of eleven attacks of the adversary program (a
    bad Merkle root, no transactions, an inflated coinbase, a flood of orphans, a double
    spend, an immature spend, an overspend, a duplicate input, a double spend in one
    block, the theft of a miner's output or of the premine) against a consistent node, with
    any other peers and clients active between its requests and any requests or replies
    lost: whenever the node answered a submission the adversary reports it as rejected,
    and the node is consistent afterwards, has at least the work it had, and its wallet is
    sound.  The random bytes are assumed to hit no block's hash; the blocks sent to be
    hashed without collision and to contain no 64-byte transaction ([universe]), the store to
    stay within its address space (the disk does not fill up) and the tip write not to fail. *)
Theorem attacks_refused ver name count w results w' :
  p_InitialSubsidy p < 999999999999999 -> name ∈ rule_breakers ->
  node_ok p U (node w) -> wallet_inv wenv ver (wd_server w) ->
  run cenv nenv wenv renv ae (run_attack name count) w = (Ok results, w') ->
  Forall (request_ok U) (wd_sent w') -> live (chain_of w') ->
  Forall refused results
  /\ node_ok p U (node w') /\ c_tipWork (chain_of w) <= c_tipWork (chain_of w') /\ wallet_inv wenv ver (wd_server w').
Proof.
  intros Hs Hname Hn Hw H Hok L.
  destruct (run_ensures ver _ _ _ _ _ H (rule_breakers_refused name count (un_params _ _ HU) Hs Hname) Hn Hw Hok L)
    as [[[Hn' Hwork] Hw'] Hr]. done.
Qed.

(** C3. What [submitblock] accepts is valid: when it answers a block with status 200 on a
    consistent node, there are blocks [bs], each with the hash of the one before (the first
    with genesis) as its previous block and each connecting on top of the ones before, such
    that the block's parent is the last of them; the block connects on top of them with
    every check of its structure, inputs, scripts and coinbase; and its header passed the
    engine's checks and the timestamp check at the height above [bs], with the header of
    the last of [bs] as its parent, the node's clock at the time of the check, and, when the
    store can read the headers it indexes, exactly the headers of genesis and [bs] as its
    ancestors at the heights they have.  The store never fails to write the chain tip and
    stays within its address space, and no block of the universe has a 64-byte
    transaction. *)
Theorem submitblock_sound rq s r s' :
  chain_inv p U (sv_chain s) -> request_ok U rq -> handleSubmitBlock cenv rq s = (r, s') -> status r = 200 ->
  live (sv_chain s') ->
  exists b rest bs us us' getAncestor,
    blk_Deserialize (rq_body rq) = Ok (b, rest)
    /\ Forall (fun b => b ∈ U) bs /\ on_top (block_hash (p_GenesisBlock p)) (bs ++ [b])
    /\ replay p bs = Some us /\ connect_step p us (len bs + 1) b = Some us'
    /\ ValidateHeader (blk_Header b) (blk_Header (List.last bs (p_GenesisBlock p))) (len bs + 1) getAncestor p = Ok tt
    /\ ValidateHeaderTimestamp (blk_Header b) (blk_Header (List.last bs (p_GenesisBlock p)))
         (u32 (env_now cenv (c_tick (sv_chain s)))) getAncestor (len bs) p = Ok tt
    /\ (readable (c_store (sv_chain s)) -> forall z, 0 <= z <= len bs ->
          getAncestor z = (fun x => blk_Header x) <$> ((p_GenesisBlock p :: bs) !! Z.to_nat z)).
Proof.
  intros Hc Hrq H Hr L. destruct (blk_Deserialize (rq_body rq)) as [[b rest]|e] eqn:Hd.
  - destruct (submit_accepted rq s r s' b rest Hc H Hr Hd (Hrq b rest Hd) L)
      as (bs & (Hbs & Ht & us & us' & Hre & Hco) & anc & Hh & Hts & Hanc).
    by exists b, rest, bs, us, us', anc.
  - unfold handleSubmitBlock, requirePOST in H. rewrite Hd in H. destruct (rq_post rq); injection H as <- _; discriminate Hr.
Qed.
End running.

(** ** What a report means *)

(** A submission whose reply is lost is reported as a theft that succeeded. *)
Lemma theft_misreported {St : Type} `{BS : BlockStore St} `{EN : Engine} `{WO : WalletOps} {PS : Type} `{PST : PeerStore PS}
    cenv nenv wenv renv ae name i b success (w : World (St := St) (PS := PS)) :
  ae_fault ae (wd_tick w) <> None ->
  (Adversary.run cenv nenv wenv renv ae (submit_theft name i true b success) w).1
  = Ok ([report name false (success ++ [HttpFailed])], true).
Proof.
  intros Hf. unfold submit_theft. cbn [negb pbind submitBlock run]. unfold send. cbv zeta.
  destruct (ae_fault ae (wd_tick w)) as [[]|]; [done| |done]. by destruct (serve_http _ _ _ _ _ _).
Qed.

(** The coinbase of the testnet genesis block is not the one the theft of the premine looks for. *)
Example premine_not_found :
  let us := ConnectGenesis NewSet (p_GenesisBlock Testnet) in
  Get us (HashTransaction premine_coinbase) 0 = None /\ Get us (HashTransaction premine_coinbase) 1 = None
  /\ TotalValue us = 419999999538000.
Proof. split; [|split]; vm_compute; reflexivity. Qed.

(** ** A run against the small server

    The server asks for no credentials; a block arrives between the adversary's third
    request and its submission. *)
Module ExampleAttack.
Import ToyEC ToyWallet MemDB Example ExampleNode ExampleServer.

Abbreviation open_server := ({|
  sv_node := node0; sv_wallet := Some toy_w0; sv_params := rich; sv_feePerByte := defaultFeePerByte;
  sv_authUser := []; sv_authPassword := []; sv_stopping := false; sv_files := no_files |}).
Definition ae0 : AdvEnv := {|
  ae_now := fun _ => 1500; ae_rand := fun _ => replicate 32 Byte.x55; ae_server_now := fun _ => 5; ae_fault := fun _ => None;
  ae_between := fun t => if (t =? 3)%nat then [Http submit_request] else [] |}.
Abbreviation world0 := ({| wd_server := open_server; wd_tick := 0; wd_sent := [] |}).
Abbreviation attack name := (Adversary.run env0 nenv0 toy_env renv0 ae0 (run_attack name 1) world0).

(** The block the adversary submits. *)
Definition evil : Block := Eval vm_compute in
  match omap (fun rq => match blk_Deserialize (rq_body rq) with Ok (b, _) => Some b | Err _ => None end)
          (wd_sent (snd (attack "inflated-coinbase"))) with
  | b :: _ => b
  | [] => rich_genesis
  end.
Definition evil_blocks : list Block := [rich_genesis; block1; evil].

Lemma evil_universe : universe rich evil_blocks.
Proof.
  destruct rich_universe. constructor; try assumption.
  - do 3 (apply Forall_cons; split; [apply storable_decode; vm_compute; reflexivity|]). constructor.
  - apply (bool_decide_unpack _). vm_compute. exact I.
  - repeat constructor; vm_compute; discriminate.
  - repeat constructor; vm_compute; discriminate.
  - by left.
Qed.

(** Evaluation: reports of some attacks; the rule named is not always the one that refuses. *)
Example reports :
  map (fun name => match fst (attack name) with Ok (r :: _) => Some (ar_Rejected r) | _ => None end)
    ["bad-merkle"; "empty-block"; "inflated-coinbase"; "orphan-flood"; "double-spend"; "overspend"; "steal-utxo"; "duplicate"]%string
  = [Some true; Some true; Some true; Some true; Some true; Some true; Some false; Some false].
Proof. vm_compute. reflexivity. Qed.

(** An overspend without an output to spend is reported as rejected, and nothing is submitted. *)
Example overspend_not_submitted :
  fst (attack "overspend") = Ok [report "overspend" true [NoUTXO NoSpendableUTXO; BuildError None]]
  /\ forallb (fun rq => negb (rq_post rq)) (wd_sent (snd (attack "overspend"))) = true.
Proof. vm_compute. split; reflexivity. Qed.

(** A block from the future is refused for its work: the attack does not seal it. *)
Example time_warp_unsealed :
  match fst (attack "time-warp-future") with
  | Ok [{| ar_Detail := [Replied (RErr 400 (BlockRejected (HeaderInvalid 1 (PowFailed 1 _))))] |}] => true
  | _ => false
  end = true.
Proof. vm_compute. reflexivity. Qed.
End ExampleAttack.

Section witnesses.
Import ToyEC ToyWallet MemDB Example ExampleNode ExampleServer ExampleAttack.

Lemma evil_chain0 : chain_inv rich evil_blocks chain0.
Proof.
  eapply (Init_empty rich evil_blocks evil_universe); [exact store0_empty|exact rich_started|].
  apply files_live_check. vm_compute. reflexivity.
Qed.
Lemma evil_node : node_ok rich evil_blocks node0.
Proof.
  constructor; [exact evil_chain0| |by intros a q Hq].
  eapply Mempool.reach_step; [apply Mempool.reach_new|apply step_tip].
Qed.
Lemma open_wallet : wallet_inv toy_env Byte.x00 open_server.
Proof. split; [exists toy_w0; split; [reflexivity|exact toy_reachable0]|]. split; discriminate. Qed.

Lemma evil_submit_ok : request_ok evil_blocks submit_request.
Proof. intros b r H. apply submit_request_ok in H. apply elem_of_cons in H as [->|H]; [by left|]. apply list_elem_of_singleton in H as ->. right. by left. Qed.
Lemma evil_events t : Forall (server_event_ok evil_blocks) (ae_between ae0 t).
Proof. cbn [ae0 ae_between]. destruct (t =? 3)%nat; [|constructor]. apply Forall_singleton. exact evil_submit_ok. Qed.
Lemma evil_rand t : rand_ok evil_blocks (ae_rand ae0 t).
Proof.
  split; [reflexivity|]. intros b Hb E.
  assert (forallb (fun b => negb (bool_decide (block_hash b = replicate 32 Byte.x55))) evil_blocks = true) as H by (vm_compute; reflexivity).
  rewrite forallb_forall in H. apply list_elem_of_In, H in Hb. change (ae_rand ae0 t) with (replicate 32 Byte.x55) in E.
  by rewrite bool_decide_true in Hb.
Qed.
(** What was sent decodes to nothing, or to the block. *)
Lemma evil_sent : Forall (request_ok evil_blocks) (wd_sent (snd (attack "inflated-coinbase"))).
Proof.
  assert (forallb (fun rq => match blk_Deserialize (rq_body rq) with
    | Ok (b, _) => bool_decide (blk_Serialize b = blk_Serialize evil) | Err _ => true end)
    (wd_sent (snd (attack "inflated-coinbase"))) = true) as H by (vm_compute; reflexivity).
  apply Forall_forall. intros rq Hrq b r Hd. rewrite forallb_forall in H. apply list_elem_of_In, H in Hrq. rewrite Hd in Hrq.
  apply bool_decide_eq_true in Hrq. apply (decode_canonical (dec := blk_Deserialize)) in Hd as [_ Hw].
  assert (b = evil) as ->; [|by apply (list_elem_of_lookup_2 evil_blocks 2)].
  pose proof (un_wf evil_universe evil ltac:(by apply (list_elem_of_lookup_2 evil_blocks 2))) as Hwe.
  rewrite <- (app_nil_r (blk_Serialize b)), <- (app_nil_r (blk_Serialize evil)) in Hrq.
  by apply (encode_prefix_free (dec := blk_Deserialize)) in Hrq as [-> _].
Qed.

Lemma attacks_refused_witness :
  exists results, fst (attack "inflated-coinbase") = Ok results /\ map ar_Rejected results = [true] /\ Forall refused results.
Proof.
  assert (match fst (attack "inflated-coinbase") with Ok rs => bool_decide (map ar_Rejected rs = [true]) | Err _ => false end = true) as H
    by (vm_compute; reflexivity).
  destruct (fst (attack "inflated-coinbase")) as [results|e] eqn:E; [|discriminate H]. exists results. split; [reflexivity|].
  split; [exact (proj1 (bool_decide_eq_true _) H)|].
  destruct (attacks_refused env0 nenv0 toy_env renv0 ae0 known0 rich evil_blocks evil_universe tip_writes evil_events evil_rand
    Byte.x00 "inflated-coinbase" 1 world0 results (snd (attack "inflated-coinbase"))) as [Hr _].
  - vm_compute. reflexivity.
  - by apply (list_elem_of_lookup_2 rule_breakers 2).
  - exact evil_node.
  - exact open_wallet.
  - rewrite <- E. apply surjective_pairing.
  - exact evil_sent.
  - apply files_live_check. vm_compute. reflexivity.
  - exact Hr.
Defined.

#[local] Abbreviation answered := (handleSubmitBlock env0 submit_request server0).
Lemma submitblock_sound_witness : exists b rest bs us us',
  blk_Deserialize (rq_body submit_request) = Ok (b, rest) /\ replay rich bs = Some us
  /\ connect_step rich us (len bs + 1) b = Some us'.
Proof.
  destruct (submitblock_sound env0 rich rich_blocks rich_universe tip_writes submit_request server0 (fst answered) (snd answered))
    as (b & rest & bs & us & us' & anc & Hd & _ & _ & Hr & Hc & _).
  - exact chain0_inv.
  - exact submit_request_ok.
  - apply surjective_pairing.
  - vm_compute. reflexivity.
  - apply files_live_check. vm_compute. reflexivity.
  - exists b, rest, bs, us, us'. split; [exact Hd|]. split; [exact Hr|exact Hc].
Defined.
End witnesses.
